(* ===== verification/_CoqProject ===== *)
-Q . S2P
Prelude.v
GoLib.v
Router.v
Ports.v
Registry.v
Wire.v
Msg.v
Handshake.v
Nathole.v
NatController.v
Group.v
HTTPGroup.v
GoNetip.v
Firewall.v
Sessions.v
Proxies.v
WorkConns.v
Server.v
ConfigTypes.v
Config.v
PortProxies.v
DomainProxies.v
HTTPProxies.v
Health.v
ClientProxies.v
Metrics.v
VisitorConfig.v
Visitors.v
ConfigSource.v
GoBase64.v
Minecraft.v
HTTPServe.v
MCGroup.v
SecretProxies.v
Transport.v
Dashboard.v
Auth.v
ServerPlugins.v
UserConns.v
Heartbeat.v
UDPForward.v
Backoff.v
FeatureGate.v
CommonConfig.v
VisitorConns.v
Legacy.v
Load.v
ClientStart.v
AdminAPI.v
PunchHole.v
WorkStreams.v
ClientConns.v
P2PMetrics.v
