(* ===== verification/Prelude.v ===== *)
(** * A verification library for FRPMeo (a fork of the frp reverse proxy)

    frps runs on a public host; frpc clients behind NATs log in to it over a
    control connection and register proxies, and frps passes user traffic to
    them over work connections. The parts that this library models, and how they
    meet:

    - a client opens a connection and logs in (magic bytes, hellos, transcript
      hash, Login), after which both ends derive the keys of the control
      channel: [Wire] and [Handshake], on the messages of [Msg]; [Backoff] is
      the loop with which the client tries again;
    - the server admits the login ([Heartbeat] on [Auth] and [ServerPlugins]),
      records the client ([Registry]) and starts a session ([Sessions]), which
      replaces an older one of the same client; heartbeats end it;
    - the session registers proxies under names of the whole server ([Proxies]),
      keeps a pool of work connections ([WorkConns]) and dispatches messages
      ([Transport]); [Server] puts sessions and proxies together;
    - a proxy gets a port ([PortProxies] on [Ports]), domains of a virtual-host
      muxer ([DomainProxies], [HTTPProxies] on [Router]), a shared Minecraft port
      ([MCGroup] on [Minecraft]) or a secret listener for visitors
      ([SecretProxies]); several proxies may share one through a group ([Group],
      [HTTPGroup]);
    - a user's connection is checked ([UserConns] on [Firewall] and the plugins),
      routed by its host ([HTTPServe], [Minecraft]) and given a work connection,
      over which both ends wrap the same streams ([WorkStreams]); packets are
      forwarded by [UDPForward]; [Metrics] counts, [Dashboard] shows;
    - the client keeps a table of proxies and visitors ([ClientProxies],
      [Visitors], with [Health]) and serves their connections ([WorkStreams],
      [ClientConns], [VisitorConns]); two clients may punch a hole for a direct
      one: [NatController] on [Nathole] at the server, [PunchHole] at the
      clients, with statistics from [P2PMetrics];
    - configurations are read from files ([Load], [Legacy]), completed and
      validated ([Config], [VisitorConfig], [CommonConfig], [ConfigTypes],
      [FeatureGate]), merged from several sources and reloaded ([ConfigSource]),
      started from ([ClientStart]) and managed over HTTP ([AdminAPI]).

    ** Files

    - [Prelude]: results with errors, tactics, the hint database [frp], lemmas
      on lists and options. [GoLib]: the functions of Go's standard library the
      code calls, on byte strings, with case and white space as for ASCII;
      integers are [Z] with the wrap-around written out where it can occur.
      [GoNetip] and [GoBase64]: net/netip and encoding/base64.
    - [Router] (pkg/util/vhost/router.go), [Ports] (server/ports/ports.go: a heap
      of [PortCtx] objects, since two tables share them), [Registry]
      (server/registry/registry.go).
    - [Wire] (pkg/proto/wire), [Msg] (pkg/msg/msg.go, wire_v2.go), [Handshake]
      (server/service.go, client/control_session.go, pkg/util/net/conn.go);
      [Class JSON] is the codec, SHA-256 a parameter.
    - [Nathole] (pkg/nathole/classify.go, analysis.go), [NatController]
      (controller.go), [PunchHole] (nathole.go, discovery.go, utils.go).
    - [Group] (server/group/registry.go, base.go, tcp.go, https.go, tcpmux.go;
      the component that opens the real listener is the interface [Backend] with
      laws [BackendLaws], which [Ports] and [Router] discharge), [HTTPGroup]
      (http.go), [MCGroup] (minecraft.go and server/proxy/mc.go).
    - [Firewall] (server/firewall/firewall.go, pkg/util/net/self.go).
    - [Sessions], [Proxies], [WorkConns], [Server] (server/control.go,
      service.go), [Heartbeat] (the same and client/control.go), [Auth]
      (pkg/auth; [Setter], [Verifier] and [Accepts] are its interfaces),
      [ServerPlugins] (pkg/plugin/server), [Transport] (pkg/msg/handler.go,
      pkg/transport/message.go).
    - [PortProxies], [DomainProxies], [HTTPProxies], [SecretProxies] (server/proxy
      by type, server/visitor/visitor.go), [UserConns] (server/proxy/proxy.go,
      peer.go), [HTTPServe] (pkg/util/vhost/http.go, pkg/util/tcpmux), [Minecraft]
      (pkg/util/vhost/minecraft.go, vhost.go), [UDPForward]
      (pkg/proto/udp/udp.go).
    - [Metrics] (pkg/util/metric, pkg/metrics/mem), [Dashboard]
      (server/http/controller_v2.go).
    - [ConfigTypes], [Config], [VisitorConfig], [CommonConfig] (pkg/config/types,
      pkg/config/v1 and its validation), [FeatureGate] (pkg/policy), [Legacy]
      (pkg/config/legacy, with the operations of an INI library as the class
      [Ini] and their laws), [Load] (pkg/config/load.go and template.go),
      [ConfigSource] (pkg/config/source, client/config_manager.go, reload in
      client/service.go), [ClientStart] (cmd/frpc/sub/root.go and [NewService] of
      client/service.go), [AdminAPI] (client/http).
    - [Health], [ClientProxies], [Visitors], [Backoff] (client/health,
      client/proxy/proxy_wrapper.go and proxy_manager.go, client/visitor's
      manager, pkg/util/wait), [VisitorConns] (client/visitor/visitor.go and
      xtcp.go), [WorkStreams], [ClientConns], [P2PMetrics] (client/proxy by type,
      and the server's ends).

    A mutex makes the operations it guards atomic, so the behaviours of a
    component are the sequences of its operations, or of the pieces of its
    goroutines between two locks: a relation [step] with [rtc], or a fold over a
    list of operations, where an invariant is claimed.

    ** Theorems

    - Login and sessions: [handshake_agrees] (both ends end with the same crypto
      context), [frames_roundtrip], [token_needed], [sessions_match_registry],
      [no_login_stuck], [replaced_session_is_gone], [heartbeat_exact],
      [session_survives], [login_recovers], [fast_retries_bounded].
    - Proxies and their resources: [proxy_names_exclusive],
      [ended_session_leaves_nothing], [ports_partition], [tcp_ports_return],
      [domains_all_or_nothing], [minecraft_ports_shared], [groups_accounted],
      [routers_refine_map], [getByRoute_precedence], [pool_loses_nothing].
    - Users: [user_conn_checked], [allow_first_match], [http_requests_authorised],
      [secret_conns_authorised], [visitor_reaches_proxy], [service_sees_user],
      [work_stream_agrees], [udp_users_isolated], [user_packets_intact].
    - Hole punching: [answers_meet], [session_needs_secret], [peers_meet],
      [sockets_accounted], [punching_accounted], [streams_counted].
    - Work connections of the client: [tcp_conn_accounted],
      [packet_channels_closed_once], [packet_conns_tidy], [relay_closed_once],
      [relay_unwinds], [tagged_stream_routed].
    - Configurations: [config_travels], [server_configurer_typed],
      [client_starts_from], [client_table], [update_all_exact],
      [store_api_refines], [store_survives_restart], [admin_requests_refine].
    - Defects of the code, each shown by a theorem that says what goes wrong; the
      gravest: [http_auth_bypassed], [negative_pool_crashes], [port_race],
      [limited_stream_stays_open], [encrypted_tag_lost], [discover_close_panics],
      [hole_lost], [tunnel_leaks], [overlapping_calls_leak],
      [legacy_settings_lost], [acquire_reserved_in_use],
      [shared_run_id_stays_online], [relayed_conn_counted_twice].

    ** Assumptions

    What a theorem assumes is in its statement and in the comment before it. The
    ones that the code does not ensure by itself: [sessions_match_registry] takes
    run ids to belong to one client each and no manager to be closed, and
    [shared_run_id_stays_online] shows what happens otherwise; the guarantee of
    [tcp_ports_return] that a held port is used, and that of
    [minecraft_ports_shared] that the ports are acquired, hold while no proxy
    asks for any port and there are no tcp+udp proxies ([strict]), or while the
    other users leave those ports alone ([kept]); the port 0 is not among the
    allowed ports; [token_needed] and [visitor_reaches_proxy] take the texts that
    two different keys hash for a time to have different MD5 sums
    ([hashes_apart]); [store_survives_restart] and [peers_meet] take JSON and the
    cipher to read back the very entries and messages at hand, which they do not
    for every one. Requests of HTTP/2 over cleartext are part of
    [http_requests_authorised]: a stream is covered by the check of the request
    that opened its connection, and by no check of its own.

    ** Fuel

    [Group.ctl_Listen] and [HTTPProxies.ctl_Register] take the number of attempts
    of the controllers' retry loops; one is enough when no other call comes in
    between ([listen_outcome]). [GoLib.replace_go] and [GoNetip.parseIPv6_groups]
    take the length of their input, of which every step consumes a byte.
    [ConfigTypes.ParseRangeNumbers] (and what uses it in [Legacy] and [Load])
    takes a bound on the numbers of a range ([range_loop_done]); [None] says that it
    was too small, or that the loop of the code does not end, which happens for
    the greatest 64-bit integer alone ([range_loop_stuck]). [Backoff.login_rounds] takes the number of
    tries, and [login_recovers] says how many are enough. [WorkStreams.close_go]
    takes one more than there are streams, which [Close_total] shows to be enough.
    The five rounds of the varint reader and the ten draws of
    [PunchHole.getUnusedPort] are the code's own bounds. All other recursion is
    structural.

    ** Not modelled

    Socket input and output, TLS, ciphers and compression, the decoders of JSON,
    TOML, YAML and INI files (parameters where their results are used), the
    copying of bytes between connections, the rewriting of HTTP headers, the
    first dashboard API, the client's plugins, the SSH gateway, TUN devices and
    the virtual network, the Bedrock router, the server's listeners and the
    flags of the command-line programs; of the modelled parts, the workers that accept
    connections for a group and the collapsing of concurrent firewall queries.
    These are glue around third-party packages and the operating system; what
    remains worth modelling are the handlers of the SSH gateway, the routes of the
    virtual network and the client's plugins. *)

From Stdlib Require Import ZArith Lia.
From stdpp Require Import base gmap strings list fin_maps relations option.

(** ** Fallible computations

    A Go function returning [(T, error)] is modelled by [res E T]: [Ok v] is
    the return with a nil error, [Err e] the return with error [e]. *)

Inductive res (E A : Type) : Type :=
| Ok (a : A)
| Err (e : E).
Arguments Ok {E A} _.
Arguments Err {E A} _.

Declare Scope frp_scope.
Delimit Scope frp_scope with frp.

(** [let? x := c in k] is the Go idiom
    [x, err := c; if err != nil { return err }; k]. *)
Notation "'let?' x := c 'in' k" :=
  (match c with Ok x => k | Err e => Err e end)
  (at level 10, x pattern, c at level 200, k at level 200) : frp_scope.

Definition is_ok {E A} (r : res E A) : bool :=
  match r with Ok _ => true | Err _ => false end.

#[export] Instance res_eq_dec {E A} `{EqDecision E, EqDecision A} :
  EqDecision (res E A).
Proof. solve_decision. Defined.

(** ** Tactics of the development *)

(** Case analysis on every [match], [if] and [decide] of the goal or the
    context, simplifying the equations it produces. *)
Ltac split_cases := repeat (case_match || case_decide); simplify_eq/=.

(** Boolean tests of the code turned into the propositions they decide. *)
Ltac bool_to_prop :=
  repeat match goal with
  | H : (_ && _)%bool = true |- _ => apply andb_prop in H as [? ?]
  | H : (_ || _)%bool = false |- _ => apply orb_false_elim in H as [? ?]
  | H : negb _ = true |- _ => apply negb_true_iff in H
  | H : negb _ = false |- _ => apply negb_false_iff in H
  | H : bool_decide _ = true |- _ => apply bool_decide_eq_true in H
  | H : bool_decide _ = false |- _ => apply bool_decide_eq_false in H
  | H : (_ =? _)%Z = true |- _ => apply Z.eqb_eq in H
  | H : (_ =? _)%Z = false |- _ => apply Z.eqb_neq in H
  | H : (_ <? _)%Z = true |- _ => apply Z.ltb_lt in H
  | H : (_ <? _)%Z = false |- _ => apply Z.ltb_ge in H
  | H : (_ <=? _)%Z = true |- _ => apply Z.leb_le in H
  | H : (_ <=? _)%Z = false |- _ => apply Z.leb_gt in H
  end.

Create HintDb frp.

(** ** Reachability

    Components whose operations interleave are step relations; an invariant
    is carried along any execution by rule induction. *)

Lemma rtc_invariant {S : Type} (step : relation S) (I : S → Prop) :
  (∀ s s', I s → step s s' → I s') →
  ∀ s s', rtc step s s' → I s → I s'.
Proof. intros Hstep s s' Hr. induction Hr; eauto. Qed.

(** ** Lists *)

(** The first element satisfying a test: the shape of the code's
    [for ... { if test { return } }] loops. *)
Fixpoint first_match {A} (f : A → bool) (l : list A) : option A :=
  match l with
  | [] => None
  | x :: l' => if f x then Some x else first_match f l'
  end.

Lemma first_match_Some {A} (f : A → bool) l x :
  first_match f l = Some x ↔
  ∃ l1 l2, l = l1 ++ x :: l2 ∧ f x = true ∧ Forall (λ y, f y = false) l1.
Proof.
  split.
  - induction l as [|y l IH]; simpl; [done|]. destruct (f y) eqn:Hy.
    + intros [= ->]. exists [], l. auto.
    + intros (l1 & l2 & -> & ? & ?)%IH. exists (y :: l1), l2. auto.
  - intros (l1 & l2 & -> & Hx & Hl1).
    induction Hl1 as [|y l1 Hy _ IH]; simpl; [by rewrite Hx|by rewrite Hy].
Qed.

Lemma first_match_None {A} (f : A → bool) l :
  first_match f l = None ↔ Forall (λ y, f y = false) l.
Proof.
  induction l as [|y l IH]; simpl.
  - split; auto.
  - rewrite Forall_cons_iff. destruct (f y); naive_solver.
Qed.

Lemma first_match_elem_of {A} (f : A → bool) l x :
  first_match f l = Some x → x ∈ l ∧ f x = true.
Proof. intros (l1 & l2 & -> & ? & _)%first_match_Some. set_solver. Qed.

Lemma first_match_app {A} (f : A → bool) l1 l2 :
  first_match f (l1 ++ l2) =
  match first_match f l1 with Some x => Some x | None => first_match f l2 end.
Proof. induction l1 as [|x l1 IH]; simpl; [done|]. by destruct (f x). Qed.

Lemma Forall_filter_1 {A} (P Q : A → Prop) `{!∀ x, Decision (Q x)} l :
  Forall P l → Forall P (filter Q l).
Proof.
  induction 1 as [|x l Hx Hl IH]; [constructor|]. rewrite filter_cons.
  case_decide; [by constructor|done].
Qed.

Lemma filter_ext_in {A} (P Q : A → Prop) `{!∀ x, Decision (P x), !∀ x, Decision (Q x)} (l : list A) :
  (∀ x, x ∈ l → P x ↔ Q x) → filter P l = filter Q l.
Proof.
  induction l as [|x l IH]; [done|]. intros Hpq. rewrite !filter_cons, IH by (intros; apply Hpq; by right).
  apply decide_ext, Hpq. by left.
Qed.

Lemma filter_none {A} (P : A → Prop) `{!∀ x, Decision (P x)} (l : list A) :
  (∀ x, x ∈ l → ¬ P x) → filter P l = [].
Proof.
  induction l as [|x l IH]; [done|]. intros Hp. rewrite filter_cons_False by (apply Hp; by left).
  apply IH. intros y Hy. apply Hp. by right.
Qed.

#[export] Hint Resolve first_match_elem_of Forall_filter_1 : frp.
