(* ===== verification/GoLib.v ===== *)
(** The parts of the Go language and of its standard library that the
    modelled code uses: strings (package [strings]), decimal integers
    (package [strconv]), machine integers and big/little-endian binary
    (package [encoding/binary]).

    A Go string is a [string] (a sequence of 8-bit characters), a [[]byte] is
    a [list byte]. Case conversion and white space follow the ASCII part of
    Go's tables; bytes above 0x7f are left as they are. *)
From Stdlib Require Import ZArith Lia Ascii String Strings.Byte.
From stdpp Require Import base gmap strings list pretty.
From S2P Require Import Prelude.

Local Open Scope Z_scope.

(** ** Characters *)

Definition between (lo n hi : nat) : bool := ((lo <=? n) && (n <=? hi))%nat.

Definition lower_char (c : ascii) : ascii :=
  let n := nat_of_ascii c in
  if between 65 n 90 then ascii_of_nat (n + 32) else c.

(** [unicode.IsSpace] on ASCII: tab, newline, vertical tab, form feed,
    carriage return and space. *)
Definition is_space (c : ascii) : bool :=
  let n := nat_of_ascii c in between 9 n 13 || (n =? 32)%nat.

(** ** Package strings *)

Fixpoint string_map (f : ascii → ascii) (s : string) : string :=
  match s with
  | EmptyString => EmptyString
  | String c s' => String (f c) (string_map f s')
  end.

(** [strings.ToLower]. *)
Definition ToLower (s : string) : string := string_map lower_char s.

(** [strings.EqualFold]. *)
Definition EqualFold (s t : string) : bool := String.eqb (ToLower s) (ToLower t).

(** [strings.HasPrefix(s, prefix)]. *)
Fixpoint HasPrefix (s prefix : string) {struct prefix} : bool :=
  match prefix, s with
  | EmptyString, _ => true
  | String c p', String d s' => if Ascii.eqb c d then HasPrefix s' p' else false
  | String _ _, EmptyString => false
  end.

(** [strings.CutPrefix(s, prefix)]: the rest after the prefix, if present. *)
Fixpoint CutPrefix (s prefix : string) {struct prefix} : option string :=
  match prefix, s with
  | EmptyString, _ => Some s
  | String c p', String d s' => if Ascii.eqb c d then CutPrefix s' p' else None
  | String _ _, EmptyString => None
  end.

(** [strings.CutSuffix(s, suffix)]: what comes before the suffix, if present. *)
Fixpoint CutSuffix (s suffix : string) : option string :=
  if String.eqb s suffix then Some EmptyString
  else match s with
       | EmptyString => None
       | String c s' =>
           match CutSuffix s' suffix with Some t => Some (String c t) | None => None end
       end.

(** [strings.HasSuffix(s, suffix)]. *)
Definition HasSuffix (s suffix : string) : bool :=
  match CutSuffix s suffix with Some _ => true | None => false end.

(** [strings.Contains(s, sub)]. *)
Fixpoint StringContains (s sub : string) : bool :=
  HasPrefix s sub ||
  match s with
  | EmptyString => false
  | String _ s' => StringContains s' sub
  end.

(** [strings.ReplaceAll(s, old, new)] for a non-empty [old]; every step
    consumes a byte of [s], so its length is enough fuel. *)
Fixpoint replace_go (fuel : nat) (s old new : string) : string :=
  match fuel, s with
  | O, _ | _, EmptyString => s
  | S fuel', String c s' =>
      match CutPrefix s old with
      | Some rest => new +:+ replace_go fuel' rest old new
      | None => String c (replace_go fuel' s' old new)
      end
  end.

Definition ReplaceAll (s old new : string) : string := replace_go (String.length s) s old new.

(** [strings.Split(s, sep)] for a one-character separator: always at least
    one element. *)
Fixpoint Split (s : string) (sep : ascii) : list string :=
  match s with
  | EmptyString => [EmptyString]
  | String c s' =>
      if Ascii.eqb c sep then EmptyString :: Split s' sep
      else match Split s' sep with
           | [] => [String c EmptyString]
           | w :: ws => String c w :: ws
           end
  end.

(** [strings.Join(elems, sep)]. *)
Fixpoint Join (l : list string) (sep : string) : string :=
  match l with
  | [] => ""
  | [x] => x
  | x :: l' => x +:+ sep +:+ Join l' sep
  end.

(** [strings.Contains(s, string(c))]. *)
Fixpoint ContainsChar (s : string) (c : ascii) : bool :=
  match s with
  | EmptyString => false
  | String d s' => Ascii.eqb c d || ContainsChar s' c
  end.

(** [strings.Cut(s, sep)]: [None] when the separator does not occur. *)
Fixpoint Cut (s : string) (sep : ascii) : option (string * string) :=
  match s with
  | EmptyString => None
  | String c s' =>
      if Ascii.eqb c sep then Some (EmptyString, s')
      else match Cut s' sep with
           | Some (a, b) => Some (String c a, b)
           | None => None
           end
  end.

(** The ways [net.SplitHostPort] fails. *)
Inductive addr_error :=
| ErrMissingPort
| ErrTooManyColons
| ErrMissingBracket
| ErrUnexpectedOpen
| ErrUnexpectedClose.

(** [net.SplitHostPort]: "host:port" or "[host]:port". *)
Definition SplitHostPort (hostport : string) : res addr_error (string * string) :=
  if negb (ContainsChar hostport ":") then Err ErrMissingPort
  else match CutPrefix hostport "[" with
  | Some rest =>
      match Cut rest "]" with
      | None => Err ErrMissingBracket
      | Some (_, EmptyString) => Err ErrMissingPort
      | Some (host, String c port) =>
          if negb (Ascii.eqb c ":") then Err ErrMissingPort
          else if ContainsChar port ":" then Err ErrTooManyColons
          else if ContainsChar rest "[" then Err ErrUnexpectedOpen
          else if ContainsChar port "]" then Err ErrUnexpectedClose
          else Ok (host, port)
      end
  | None =>
      match Cut hostport ":" with
      | None => Err ErrMissingPort
      | Some (host, port) =>
          if ContainsChar port ":" then Err ErrTooManyColons
          else if ContainsChar hostport "[" then Err ErrUnexpectedOpen
          else if ContainsChar hostport "]" then Err ErrUnexpectedClose
          else Ok (host, port)
      end
  end.

(** [net.JoinHostPort]. *)
Definition JoinHostPort (host port : string) : string :=
  if ContainsChar host ":" then "[" +:+ host +:+ "]:" +:+ port else host +:+ ":" +:+ port.

Fixpoint trim_left (s : string) : string :=
  match s with
  | EmptyString => EmptyString
  | String c s' => if is_space c then trim_left s' else s
  end.

Fixpoint trim_right (s : string) : string :=
  match s with
  | EmptyString => EmptyString
  | String c s' =>
      match trim_right s' with
      | EmptyString => if is_space c then EmptyString else String c EmptyString
      | t => String c t
      end
  end.

(** [strings.TrimSpace]. *)
Definition TrimSpace (s : string) : string := trim_left (trim_right s).

(** ** Package strconv *)

(** The decimal value of a string of digits, read on top of [acc]. *)
Fixpoint digits_go (acc : N) (s : string) : option N :=
  match s with
  | EmptyString => Some acc
  | String c s' =>
      let n := nat_of_ascii c in
      if between 48 n 57 then digits_go (acc * 10 + N.of_nat (n - 48)) s' else None
  end.

Definition parse_digits (s : string) : option N :=
  match s with EmptyString => None | _ => digits_go 0 s end.

Definition int64_min : Z := - 2 ^ 63.
Definition int64_max : Z := 2 ^ 63 - 1.

(** [strconv.ParseInt(s, 10, 64)] and, on a 64-bit platform,
    [strconv.Atoi(s)]: an optional sign, decimal digits, the int64 range. *)
Definition Atoi (s : string) : option Z :=
  let signed (neg : bool) (body : string) :=
    match parse_digits body with
    | None => None
    | Some n =>
        let z := if neg then - Z.of_N n else Z.of_N n in
        if (int64_min <=? z) && (z <=? int64_max) then Some z else None
    end in
  match s with
  | String c s' =>
      if Ascii.eqb c "-" then signed true s'
      else if Ascii.eqb c "+" then signed false s'
      else signed false s
  | EmptyString => None
  end.

(** [strconv.Itoa] and [strconv.FormatInt(_, 10)]. *)
Definition Itoa (z : Z) : string := pretty z.

(** ** Facts on strings *)

#[local] Arguments String.append !_ _ / : simpl nomatch.

Lemma string_app_assoc (s t u : string) : (s +:+ t) +:+ u = s +:+ (t +:+ u).
Proof. induction s; simpl; congruence. Qed.

Lemma string_app_nil_r (s : string) : s +:+ "" = s.
Proof. induction s; simpl; congruence. Qed.

Lemma string_length_app (s t : string) :
  String.length (s +:+ t) = (String.length s + String.length t)%nat.
Proof. induction s; simpl; congruence. Qed.

Lemma string_app_inv_head (s t u : string) : s +:+ t = s +:+ u → t = u.
Proof. induction s; simpl; [done|]. intros [= ?]. auto. Qed.

Lemma lower_char_idem c : lower_char (lower_char c) = lower_char c.
Proof. destruct c as [[] [] [] [] [] [] [] []]; reflexivity. Qed.

Lemma ToLower_idem s : ToLower (ToLower s) = ToLower s.
Proof.
  unfold ToLower. induction s as [|c s IH]; simpl; [done|].
  by rewrite lower_char_idem, IH.
Qed.

Lemma HasPrefix_spec s p : HasPrefix s p = true ↔ ∃ t, s = p +:+ t.
Proof.
  revert s. induction p as [|c p IH]; intros s; simpl.
  - split; [intros _; by exists s|by intros _].
  - destruct s as [|d s].
    + split; [done|]. by intros [t ?].
    + destruct (Ascii.eqb_spec c d) as [->|Hne].
      * rewrite IH. split; intros [t Ht]; exists t; [by subst|by injection Ht].
      * split; [done|]. intros [t [= ? ?]]. by subst.
Qed.

Lemma CutPrefix_spec s p t : CutPrefix s p = Some t ↔ s = p +:+ t.
Proof.
  revert s. induction p as [|c p IH]; intros s; simpl.
  - split; congruence.
  - destruct s as [|d s]; [split; discriminate|].
    destruct (Ascii.eqb_spec c d) as [->|Hne].
    + rewrite IH. split; [by intros ->|by intros [= ->]].
    + split; [done|]. intros [= ? ?]. by subst.
Qed.

(** Two prefixes of one string are comparable by length. *)
Lemma prefixes_comparable s p q :
  HasPrefix s p = true → HasPrefix s q = true →
  (String.length p ≤ String.length q)%nat → HasPrefix q p = true.
Proof.
  revert s q. induction p as [|c p IH]; intros s q; simpl; [done|].
  destruct s as [|d s]; [done|]. destruct (Ascii.eqb_spec c d) as [->|]; [|done].
  destruct q as [|e q]; simpl; [lia|].
  destruct (Ascii.eqb_spec e d) as [->|]; [|done].
  rewrite Ascii.eqb_refl. intros. eapply IH; eauto. lia.
Qed.

Lemma HasPrefix_antisym p q :
  HasPrefix q p = true → String.length p = String.length q → p = q.
Proof.
  rewrite HasPrefix_spec. intros [t ->]. rewrite string_length_app.
  destruct t; simpl; [intros _; by rewrite string_app_nil_r|lia].
Qed.

Lemma string_compare_refl s : String.compare s s = Eq.
Proof.
  induction s as [|c s IH]; simpl; [done|]. unfold Ascii.compare.
  by rewrite N.compare_refl.
Qed.

(** A string precedes each of its proper extensions in Go's string order. *)
Lemma compare_proper_prefix p q :
  HasPrefix q p = true → p ≠ q → String.compare p q = Lt.
Proof.
  revert q. induction p as [|c p IH]; intros [|d q]; simpl; try done.
  destruct (Ascii.eqb_spec c d) as [->|]; [|done].
  intros Hp Hne. unfold Ascii.compare. rewrite N.compare_refl.
  apply IH; [done|]. congruence.
Qed.

(** [Join] undoes [Split]. *)
Lemma Split_nonempty s c : Split s c ≠ [].
Proof. destruct s; simpl; [done|]. repeat case_match; done. Qed.

Lemma Join_Split s c : Join (Split s c) (String c EmptyString) = s.
Proof.
  induction s as [|d s IH]; simpl; [done|].
  destruct (Ascii.eqb_spec d c) as [->|]; pose proof (Split_nonempty s c);
    destruct (Split s c) as [|w [|w' ws]]; simpl in *; try done; by rewrite IH.
Qed.

Lemma Join_cons x l sep : l ≠ [] → Join (x :: l) sep = x +:+ sep +:+ Join l sep.
Proof. by destruct l. Qed.

(** Splitting a joined list of separator-free words gives the words back. *)
Lemma ContainsChar_app s t c :
  ContainsChar (s +:+ t) c = ContainsChar s c || ContainsChar t c.
Proof. induction s; simpl; [done|]. rewrite IHs. by rewrite orb_assoc. Qed.

Lemma Split_app w t c :
  ContainsChar w c = false →
  Split (w +:+ String c t) c = w :: Split t c.
Proof.
  induction w as [|d w IH]; simpl.
  - intros _. by rewrite Ascii.eqb_refl.
  - intros [Hd Hw]%orb_false_elim. rewrite Ascii.eqb_sym, Hd, IH; done.
Qed.

Lemma Split_app_sep t u c : Split (t +:+ String c u) c = (Split t c ++ Split u c)%list.
Proof.
  induction t as [|d t IH]; simpl.
  - by rewrite Ascii.eqb_refl.
  - rewrite IH. destruct (Ascii.eqb d c); [done|]. pose proof (Split_nonempty t c).
    by destruct (Split t c).
Qed.

Lemma Split_word w c : ContainsChar w c = false → Split w c = [w].
Proof.
  induction w as [|d w IH]; simpl; [done|].
  intros [Hd Hw]%orb_false_elim. rewrite Ascii.eqb_sym, Hd, IH; done.
Qed.

Lemma Split_Join l c :
  l ≠ [] → Forall (λ w, ContainsChar w c = false) l →
  Split (Join l (String c EmptyString)) c = l.
Proof.
  intros Hne Hl. induction Hl as [|w l Hw Hl IH]; [done|].
  destruct l as [|w' l].
  - by apply Split_word.
  - rewrite Join_cons by done.
    change (String c EmptyString +:+ ?t) with (String c t).
    rewrite Split_app by done. by rewrite IH.
Qed.

(** ** Suffixes *)

Lemma CutSuffix_spec s suffix t : CutSuffix s suffix = Some t ↔ s = t +:+ suffix.
Proof.
  assert (∀ t, s = t +:+ suffix → CutSuffix s suffix = Some t) as Hr.
  { induction s as [|c s IH]; intros u Hu; cbn [CutSuffix].
    - destruct u; simpl in Hu; [by subst|done].
    - destruct (String.eqb_spec (String c s) suffix) as [Hs|Hs].
      + apply (f_equal String.length) in Hu. rewrite string_length_app, <-Hs in Hu.
        destruct u; [done|]. simpl in Hu. lia.
      + destruct u as [|d u]; simpl in Hu; [congruence|]. injection Hu as <- Hu.
        by rewrite (IH u Hu). }
  split; [|apply Hr]. revert t. clear Hr.
  induction s as [|c s IH]; intros u; cbn [CutSuffix].
  - destruct (String.eqb_spec EmptyString suffix) as [<-|]; [|done]. by intros [= <-].
  - destruct (String.eqb_spec (String c s) suffix) as [<-|]; [by intros [= <-]|].
    destruct (CutSuffix s suffix) as [v|]; [|done]. intros [= <-]. simpl.
    f_equal. by apply IH.
Qed.

Lemma HasSuffix_spec s suffix : HasSuffix s suffix = true ↔ ∃ t, s = t +:+ suffix.
Proof.
  unfold HasSuffix. destruct (CutSuffix s suffix) as [t|] eqn:E.
  - apply CutSuffix_spec in E. split; [by exists t|done].
  - split; [done|]. intros [t Ht%CutSuffix_spec]. congruence.
Qed.

(** ** Characters and white space of a string *)

Fixpoint string_all (f : ascii → bool) (s : string) : bool :=
  match s with
  | EmptyString => true
  | String c s' => f c && string_all f s'
  end.

Lemma string_all_app f s t : string_all f (s +:+ t) = string_all f s && string_all f t.
Proof. induction s as [|c s IH]; simpl; [done|]. by rewrite IH, andb_assoc. Qed.

Lemma string_all_contains f s c :
  string_all f s = true → f c = false → ContainsChar s c = false.
Proof.
  intros Hs Hc. induction s as [|d s IH]; simpl in *; [done|].
  apply andb_prop in Hs as [Hd Hs]. rewrite (IH Hs), orb_false_r.
  apply Ascii.eqb_neq. congruence.
Qed.

Definition no_space (c : ascii) : bool := negb (is_space c).

Lemma trim_right_id s : string_all no_space s = true → trim_right s = s.
Proof.
  induction s as [|c s IH]; simpl; [done|]. intros [Hc Hs]%andb_prop.
  rewrite (IH Hs). unfold no_space in Hc. apply negb_true_iff in Hc. rewrite Hc.
  by destruct s.
Qed.

Lemma TrimSpace_id s : string_all no_space s = true → TrimSpace s = s.
Proof.
  intros Hs. unfold TrimSpace. rewrite (trim_right_id s Hs).
  destruct s as [|c s]; [done|]. simpl in *. apply andb_prop in Hs as [Hc _].
  unfold no_space in Hc. apply negb_true_iff in Hc. by rewrite Hc.
Qed.

Lemma string_all_impl (f g : ascii → bool) s :
  (∀ c, f c = true → g c = true) → string_all f s = true → string_all g s = true.
Proof.
  intros Hfg. induction s as [|c s IH]; simpl; [done|].
  intros [Hc Hs]%andb_prop. by rewrite (Hfg c Hc), (IH Hs).
Qed.

Lemma trim_right_idem s : trim_right (trim_right s) = trim_right s.
Proof.
  induction s as [|c s IH]; [done|]. cbn [trim_right].
  destruct (trim_right s) as [|d t] eqn:E.
  - destruct (is_space c) eqn:Hc; cbn; by rewrite ?Hc.
  - change (trim_right (String c (String d t))) with
      (match trim_right (String d t) with
       | EmptyString => if is_space c then EmptyString else String c EmptyString
       | t => String c t end).
    by rewrite IH.
Qed.

Lemma trim_left_keeps_right t : trim_right t = t → trim_right (trim_left t) = trim_left t.
Proof.
  induction t as [|c t IH]; intros Ht; [done|]. cbn [trim_left].
  destruct (is_space c) eqn:Hc; [|done]. apply IH.
  cbn [trim_right] in Ht. rewrite Hc in Ht.
  destruct (trim_right t) as [|d u]; [done|]. by injection Ht.
Qed.

Lemma trim_left_idem t : trim_left (trim_left t) = trim_left t.
Proof.
  induction t as [|c t IH]; [done|]. cbn [trim_left]. destruct (is_space c) eqn:Hc; [done|].
  cbn [trim_left]. by rewrite Hc.
Qed.

Lemma TrimSpace_idem s : TrimSpace (TrimSpace s) = TrimSpace s.
Proof.
  unfold TrimSpace.
  rewrite (trim_left_keeps_right (trim_right s)) by apply trim_right_idem.
  apply trim_left_idem.
Qed.

Lemma Split_words s c : Forall (λ w, ContainsChar w c = false) (Split s c).
Proof.
  induction s as [|d s IH]; simpl; [by repeat constructor|].
  destruct (Ascii.eqb d c) eqn:Hd; [by constructor|].
  destruct IH as [|w ws Hw Hws]; constructor; simpl; try done.
  - by rewrite Ascii.eqb_sym, Hd.
  - by rewrite Ascii.eqb_sym, Hd.
Qed.

Lemma TrimSpace_contains s c : ContainsChar s c = false → ContainsChar (TrimSpace s) c = false.
Proof.
  assert (∀ t, ContainsChar t c = false → ContainsChar (trim_left t) c = false) as Hl.
  { induction t as [|d t IH]; simpl; [done|]. intros Hd.
    destruct (is_space d); [|done]. apply orb_false_elim in Hd as [_ Hd]. auto. }
  intros Hs. unfold TrimSpace. apply Hl. clear Hl.
  induction s as [|d s IH]; simpl; [done|]. simpl in Hs. apply orb_false_elim in Hs as [Hd Hs].
  specialize (IH Hs). destruct (trim_right s); [by destruct (is_space d); simpl; rewrite ?Hd|].
  simpl in *. by rewrite Hd, IH.
Qed.

(** ** Decimal round trip *)

Lemma pretty_digit_value (x : N) :
  (x < 10)%N →
  between 48 (nat_of_ascii (pretty_N_char x)) 57 = true ∧
  N.of_nat (nat_of_ascii (pretty_N_char x) - 48) = x.
Proof.
  intros Hx. assert (x ∈ [0;1;2;3;4;5;6;7;8;9]%N) as Hin by (set_unfold; lia).
  repeat (apply elem_of_cons in Hin as [->|Hin]; [done|]). set_solver.
Qed.

Lemma digits_pretty_go (x : N) s : digits_go 0 (pretty_N_go x s) = digits_go x s.
Proof.
  revert s. induction (N.lt_wf_0 x) as [x _ IH]; intros s.
  destruct (decide (0 < x)%N) as [Hx|Hx].
  - rewrite pretty_N_go_step by done.
    rewrite IH by (apply N.div_lt; lia). simpl.
    destruct (pretty_digit_value (x `mod` 10)) as [-> ->].
    { apply N.mod_lt. lia. }
    f_equal. pose proof (N.div_mod x 10). lia.
  - assert (x = 0)%N as -> by lia. by rewrite pretty_N_go_0.
Qed.

Lemma pretty_pos_digits (p : positive) :
  pretty p ≠ "" ∧ digits_go 0 (pretty p) = Some (Npos p).
Proof.
  unfold pretty, pretty_positive, pretty, pretty_N. rewrite decide_False by done.
  pose proof (digits_pretty_go (Npos p) "") as Hd. split; [|done].
  intros Heq. by rewrite Heq in Hd.
Qed.

Lemma Atoi_digits s n :
  s ≠ "" → digits_go 0 s = Some n → Z.of_N n ≤ int64_max → Atoi s = Some (Z.of_N n).
Proof.
  intros Hne Hd Hn. destruct s as [|c s]; [done|].
  unfold Atoi, parse_digits. rewrite Hd.
  assert (Ascii.eqb c "-" = false ∧ Ascii.eqb c "+" = false) as [-> ->].
  { simpl in Hd. destruct (between _ _ _) eqn:Hb in Hd; [|done].
    split; apply Ascii.eqb_neq; intros ->; done. }
  unfold int64_min in *. by rewrite (proj2 (Z.leb_le _ _)), (proj2 (Z.leb_le _ _)) by lia.
Qed.

(** [Atoi] reads back what [Itoa] prints, on the whole int64 range. *)
Lemma Atoi_int64 s z : Atoi s = Some z → int64_min ≤ z ≤ int64_max.
Proof.
  unfold Atoi. intros Ha.
  repeat match type of Ha with context [match ?x with _ => _ end] => destruct x eqn:?; try discriminate Ha end;
    injection Ha as <-; bool_to_prop; lia.
Qed.

Lemma Atoi_Itoa z : int64_min ≤ z ≤ int64_max → Atoi (Itoa z) = Some z.
Proof.
  intros Hz. destruct z as [|p|p]; [done|..];
    destruct (pretty_pos_digits p) as [Hne Hd].
  - apply (Atoi_digits (pretty p) (Npos p)); [done|done|lia].
  - unfold Itoa, pretty at 1, pretty_Z.
    change ("-" +:+ pretty p) with (String "-" (pretty p)).
    unfold Atoi. cbn [Ascii.eqb Bool.eqb]. unfold parse_digits.
    destruct (pretty p) as [|c s] eqn:Hs; [done|]. rewrite Hd.
    cbn. by rewrite (proj2 (Z.leb_le _ _)), (proj2 (Z.leb_le _ _)) by (unfold int64_max in *; lia).
Qed.

Definition is_digit (c : ascii) : bool := between 48 (nat_of_ascii c) 57.

Lemma digits_go_digits acc s n : digits_go acc s = Some n → string_all is_digit s = true.
Proof.
  revert acc. induction s as [|c s IH]; intros acc; cbn [digits_go string_all]; [done|].
  unfold is_digit at 1. destruct (between _ _ _); [|done]. intros H. cbn. by eapply IH.
Qed.

Lemma Itoa_digits z : 0 ≤ z → string_all is_digit (Itoa z) = true.
Proof.
  intros Hz. destruct z as [|p|p]; [done| |lia].
  destruct (pretty_pos_digits p) as [_ Hd]. by apply (digits_go_digits 0 _ (Npos p)).
Qed.

Lemma digit_no_space c : is_digit c = true → no_space c = true.
Proof.
  unfold is_digit, no_space, is_space, between. intros [H1 H2]%andb_prop.
  apply Nat.leb_le in H1. apply negb_true_iff.
  rewrite orb_false_iff, andb_false_iff, Nat.eqb_neq, !Nat.leb_gt. lia.
Qed.

Lemma TrimSpace_Itoa z : 0 ≤ z → TrimSpace (Itoa z) = Itoa z.
Proof.
  intros Hz. apply TrimSpace_id.
  eapply string_all_impl; [exact digit_no_space|]. by apply Itoa_digits.
Qed.

(** ** Package encoding/binary

    An unsigned integer of [n] bytes, most significant byte first. *)

Definition byte_val (b : byte) : Z := Z.of_N (Byte.to_N b).

Definition byte_of (z : Z) : byte :=
  default x00 (Byte.of_N (Z.to_N (z `mod` 256))).

(** [binary.BigEndian.PutUint16/32/64] for [n] = 2, 4, 8. *)
Fixpoint be_put (n : nat) (z : Z) : list byte :=
  match n with
  | O => []
  | S n' => be_put n' (z / 256) ++ [byte_of z]
  end.

(** [binary.BigEndian.Uint16/32/64] of a slice of that length. *)
Definition be_get (l : list byte) : Z :=
  fold_left (λ acc b, acc * 256 + byte_val b) l 0.

#[export] Instance byte_eq_dec : EqDecision byte := Byte.byte_eq_dec.

Lemma byte_val_range b : 0 ≤ byte_val b < 256.
Proof. unfold byte_val. pose proof (Byte.to_N_bounded b). lia. Qed.

Lemma byte_val_of z : byte_val (byte_of z) = z `mod` 256.
Proof.
  unfold byte_val, byte_of. pose proof (Z.mod_pos_bound z 256).
  destruct (Byte.of_N (Z.to_N (z `mod` 256))) as [b|] eqn:Hb; simpl.
  - apply Byte.to_of_N in Hb. lia.
  - apply Byte.of_N_None_iff in Hb. lia.
Qed.

Lemma byte_of_val b : byte_of (byte_val b) = b.
Proof.
  unfold byte_of. pose proof (byte_val_range b).
  rewrite Z.mod_small by done. unfold byte_val. rewrite N2Z.id.
  by rewrite Byte.of_to_N.
Qed.

Lemma length_be_put n z : length (be_put n z) = n.
Proof.
  revert z. induction n as [|n IH]; intros z; simpl; [done|].
  rewrite length_app, IH. simpl. lia.
Qed.

Lemma be_get_snoc l b : be_get (l ++ [b]) = be_get l * 256 + byte_val b.
Proof. unfold be_get. by rewrite fold_left_app. Qed.

(** Reading what was written gives the value back when it fits the width. *)
Lemma be_get_put n z : 0 ≤ z < 256 ^ Z.of_nat n → be_get (be_put n z) = z.
Proof.
  revert z. induction n as [|n IH]; intros z Hz.
  - simpl in *. unfold be_get. simpl. lia.
  - cbn [be_put]. rewrite be_get_snoc, byte_val_of.
    rewrite Nat2Z.inj_succ, Z.pow_succ_r in Hz by lia.
    rewrite IH; [pose proof (Z.div_mod z 256); lia|].
    split; [apply Z.div_pos; lia|]. apply Z.div_lt_upper_bound; lia.
Qed.

Lemma be_get_range l : 0 ≤ be_get l < 256 ^ Z.of_nat (length l).
Proof.
  induction l as [|b l IH] using rev_ind; [done|].
  rewrite be_get_snoc, length_app, Nat2Z.inj_add, Z.pow_add_r by lia.
  change (256 ^ Z.of_nat (length [b])) with 256.
  pose proof (byte_val_range b). lia.
Qed.

(** ... and writing what was read gives the bytes back. *)
Lemma be_put_get l : be_put (length l) (be_get l) = l.
Proof.
  induction l as [|b l IH] using rev_ind; [done|].
  rewrite length_app, be_get_snoc, Nat.add_comm. simpl. pose proof (byte_val_range b).
  rewrite Z.div_add_l, Z.div_small, Z.add_0_r, IH by lia.
  f_equal. f_equal. rewrite <- (byte_of_val b) at 2.
  unfold byte_of. rewrite Z.add_comm, Z.mod_add by lia. done.
Qed.

Lemma be_put_inj n x y :
  0 ≤ x < 256 ^ Z.of_nat n → 0 ≤ y < 256 ^ Z.of_nat n →
  be_put n x = be_put n y → x = y.
Proof.
  intros Hx Hy Heq. rewrite <- (be_get_put n x), <- (be_get_put n y) by done. by rewrite Heq.
Qed.

(** Unsigned machine integers. *)
Definition wrap64 (z : Z) : Z := z `mod` 2 ^ 64.
Definition wrap32 (z : Z) : Z := z `mod` 2 ^ 32.
