(* ===== verification/Router.v ===== *)
(** The virtual-host route table, pkg/util/vhost/router.go.

    [Routers] maps a lower-cased domain to a map from HTTP user to the bucket
    of routes of that pair, kept sorted by descending location. The mutex
    makes each exported operation atomic, so an operation is a function on
    the table. The payload ([any] in the code) is a type parameter. *)
From Stdlib Require Import ZArith Lia Ascii String Sorting.Sorted.
From stdpp Require Import base gmap strings list sorting fin_maps relations.
From S2P Require Import Prelude GoLib.

Module Vhost.
Section Routers.
Context {P : Type}.

Record Router := mkRouter {
  domain : string;
  location : string;
  httpUser : string;
  payload : P
}.

(** The code's [Routers.indexByDomain]. *)
Abbreviation Routers := (gmap string (gmap string (list Router))).

Inductive route_error := ErrRouterConfigConflict.

Definition NewRouters : Routers := ∅.

(** [-cmp.Compare(a.location, b.location) <= 0]: the order the buckets are
    sorted by. *)
Definition loc_ge (a b : Router) : Prop := String.le (location b) (location a).

#[global] Instance loc_ge_dec : RelDecision loc_ge.
Proof. intros a b. unfold loc_ge. apply _. Defined.

(** [exist]: the route registered for exactly this host, path and user. *)
Definition exist (r : Routers) (host path user : string) : option Router :=
  match r !! host with
  | None => None
  | Some routersByHTTPUser =>
      match routersByHTTPUser !! user with
      | None => None
      | Some routers => first_match (λ route, String.eqb path (location route)) routers
      end
  end.

Definition Add (r : Routers) (dom loc user : string) (pl : P) : res route_error Routers :=
  let dom := ToLower dom in
  match exist r dom loc user with
  | Some _ => Err ErrRouterConfigConflict
  | None =>
      let routersByHTTPUser := default ∅ (r !! dom) in
      let vrs := default [] (routersByHTTPUser !! user) in
      let vr := mkRouter dom loc user pl in
      let vrs := merge_sort loc_ge (vrs ++ [vr]) in
      Ok (<[dom := <[user := vrs]> routersByHTTPUser]> r)
  end.

Definition Del (r : Routers) (dom loc user : string) : Routers :=
  let dom := ToLower dom in
  match r !! dom with
  | None => r
  | Some routersByHTTPUser =>
      match routersByHTTPUser !! user with
      | None => r
      | Some vrs =>
          let newVrs := filter (λ vr, location vr ≠ loc) vrs in
          <[dom := <[user := newVrs]> routersByHTTPUser]> r
      end
  end.

Definition getLocked (r : Routers) (host path user : string) : option Router :=
  match r !! host with
  | None => None
  | Some routersByHTTPUser =>
      match routersByHTTPUser !! user with
      | None => None
      | Some vrs => first_match (λ vr, HasPrefix path (location vr)) vrs
      end
  end.

Definition Get (r : Routers) (host path user : string) : option Router :=
  getLocked r (ToLower host) path user.

Definition getExactOrAllUsersLocked (r : Routers) (host path user : string) : option Router :=
  match getLocked r host path user with
  | Some vr => Some vr
  | None => getLocked r host path ""
  end.

(** The [for len(hostSplit) >= 3] loop of [getByRoute]: the leftmost label is
    replaced by "*", tried, and dropped. *)
Fixpoint wildcard_walk (r : Routers) (hostSplit : list string) (path user : string) :
    option Router :=
  match hostSplit with
  | _ :: ((_ :: _ :: _) as rest) =>
      match getExactOrAllUsersLocked r (Join ("*" :: rest) ".") path user with
      | Some vr => Some vr
      | None => wildcard_walk r rest path user
      end
  | _ => None
  end.

Definition getByRoute (r : Routers) (host path user : string) : option Router :=
  let host := ToLower host in
  match getExactOrAllUsersLocked r host path user with
  | Some vr => Some vr
  | None =>
      match wildcard_walk r (Split host ".") path user with
      | Some vr => Some vr
      | None => getExactOrAllUsersLocked r "*" path user
      end
  end.

(** ** Well-formedness *)

(** The bucket of a domain and user. *)
Definition bucket (r : Routers) (host user : string) : list Router :=
  default [] (default ∅ (r !! host) !! user).

(** Strictly descending locations. *)
Definition loc_gt (a b : Router) : Prop := String.compare (location b) (location a) = Lt.

Record wf (r : Routers) : Prop := {
  wf_lower : ∀ h u x, x ∈ bucket r h u → ToLower h = h;
  wf_entry : ∀ h u x, x ∈ bucket r h u → domain x = h ∧ httpUser x = u;
  wf_sorted : ∀ h u, StronglySorted loc_gt (bucket r h u)
}.

(** The calls that change the table. *)
Inductive step : Routers → Routers → Prop :=
| step_add r dom loc user pl r' : Add r dom loc user pl = Ok r' → step r r'
| step_del r dom loc user : step r (Del r dom loc user).

Lemma exist_bucket r h p u :
  exist r h p u = first_match (λ x, String.eqb p (location x)) (bucket r h u).
Proof. unfold exist, bucket. destruct (r !! h) as [m|]; simpl; [|done]. by destruct (m !! u). Qed.

Lemma getLocked_bucket r h p u :
  getLocked r h p u = first_match (λ x, HasPrefix p (location x)) (bucket r h u).
Proof. unfold getLocked, bucket. destruct (r !! h) as [m|]; simpl; [|done]. by destruct (m !! u). Qed.

(** The effect of the two updates on the buckets. *)
Lemma bucket_insert r h u vrs h' u' :
  bucket (<[h := <[u := vrs]> (default ∅ (r !! h))]> r) h' u' =
  if decide (h' = h ∧ u' = u) then vrs else bucket r h' u'.
Proof.
  unfold bucket. destruct (decide (h = h')) as [<-|].
  - rewrite lookup_insert_eq. simpl. destruct (decide (u = u')) as [<-|].
    + rewrite lookup_insert_eq, decide_True by done. done.
    + by rewrite lookup_insert_ne, decide_False by (intros [? ?] || intros ?; congruence).
  - by rewrite lookup_insert_ne, decide_False by (intros [? ?] || intros ?; congruence).
Qed.

Lemma bucket_Add r dom loc user pl r' :
  Add r dom loc user pl = Ok r' →
  exist r (ToLower dom) loc user = None ∧
  ∀ h u, bucket r' h u =
    if decide (h = ToLower dom ∧ u = user)
    then merge_sort loc_ge (bucket r h u ++ [mkRouter (ToLower dom) loc user pl])
    else bucket r h u.
Proof.
  unfold Add. case_match eqn:Hex; [done|]. intros [= <-]. split; [done|].
  intros h u. rewrite bucket_insert. case_decide as Hd; [|done].
  by destruct Hd as [-> ->].
Qed.

Lemma bucket_Del r dom loc user h u :
  bucket (Del r dom loc user) h u =
    if decide (h = ToLower dom ∧ u = user)
    then filter (λ vr, location vr ≠ loc) (bucket r h u)
    else bucket r h u.
Proof.
  unfold Del. destruct (r !! ToLower dom) as [m|] eqn:Hm.
  - destruct (m !! user) as [vrs|] eqn:Hu.
    + pose proof (bucket_insert r (ToLower dom) user
        (filter (λ vr, location vr ≠ loc) vrs) h u) as Hb.
      rewrite Hm in Hb. simpl in Hb. rewrite Hb. case_decide as Hd; [|done].
      destruct Hd as [-> ->]. unfold bucket. rewrite Hm. simpl. by rewrite Hu.
    + case_decide as Hd; [|done]. destruct Hd as [-> ->].
      unfold bucket. rewrite Hm. simpl. by rewrite Hu.
  - case_decide as Hd; [|done]. destruct Hd as [-> ->]. unfold bucket. by rewrite Hm.
Qed.

(** ** Sorted buckets *)

#[global] Instance loc_ge_total : Total loc_ge.
Proof. intros a b. unfold loc_ge. destruct (total String.le (location a) (location b)); auto. Qed.

#[global] Instance loc_ge_trans : Transitive loc_ge.
Proof. intros a b c. unfold loc_ge. intros ? ?. by etrans. Qed.

Lemma loc_ge_gt a b : loc_ge a b → location a ≠ location b → loc_gt a b.
Proof.
  unfold loc_ge, loc_gt, String.le, String.leb. intros Hle Hne.
  destruct (String.compare (location b) (location a)) eqn:Hc; try done.
  apply String.compare_eq_iff in Hc. congruence.
Qed.

Lemma loc_gt_irrefl a b : loc_gt a b → location a ≠ location b.
Proof.
  unfold loc_gt. intros Hc Heq. rewrite Heq in Hc.
  by rewrite string_compare_refl in Hc.
Qed.

Lemma sorted_strict l :
  StronglySorted loc_ge l → NoDup (location <$> l) → StronglySorted loc_gt l.
Proof.
  induction 1 as [|x l Hl IH Hx]; simpl; [constructor|].
  intros [Hn Hd]%NoDup_cons. constructor; [by apply IH|].
  rewrite Forall_forall in Hx |- *. intros y Hy. apply loc_ge_gt; [by apply Hx|].
  intros Heq. apply Hn. rewrite Heq. by apply list_elem_of_fmap_2.
Qed.

Lemma strict_NoDup l : StronglySorted loc_gt l → NoDup (location <$> l).
Proof.
  induction 1 as [|x l Hl IH Hx]; simpl; constructor; [|done].
  intros (y & Heq & Hy)%list_elem_of_fmap. rewrite Forall_forall in Hx.
  by eapply loc_gt_irrefl; [apply Hx|].
Qed.

Lemma location_inj_on l x y :
  StronglySorted loc_gt l → x ∈ l → y ∈ l → location x = location y → x = y.
Proof.
  induction 1 as [|z l Hl IH Hz]; [set_solver|]. rewrite Forall_forall in Hz.
  intros [->|Hx]%elem_of_cons [->|Hy]%elem_of_cons Heq; [done|..|by apply IH].
  - by apply Hz, loc_gt_irrefl in Hy.
  - apply Hz, loc_gt_irrefl in Hx. congruence.
Qed.

(** [slices.SortFunc] does not fix the order of equal elements; with distinct
    locations its result is nevertheless determined: any sorted permutation
    of the bucket is the one [Add] stores. *)
Lemma sorted_permutation_unique l1 l2 :
  StronglySorted loc_gt l1 → StronglySorted loc_gt l2 → l1 ≡ₚ l2 → l1 = l2.
Proof.
  intros H1. revert l2. induction H1 as [|x l1 Hl1 IH Hx]; intros l2 H2 Hp.
  - by apply Permutation_nil_l in Hp.
  - destruct H2 as [|y l2 Hl2 Hy]; [by apply Permutation_nil_r in Hp|].
    rewrite Forall_forall in Hx. rewrite Forall_forall in Hy.
    assert (x = y) as ->.
    { assert (x ∈ y :: l2) as Hxy by (rewrite <- Hp; set_solver).
      assert (y ∈ x :: l1) as Hyx by (rewrite Hp; set_solver).
      apply elem_of_cons in Hxy as [->|Hxy]; [done|].
      apply elem_of_cons in Hyx as [->|Hyx]; [done|].
      apply Hx in Hyx. apply Hy in Hxy. unfold loc_gt in *.
      rewrite String.compare_antisym, Hyx in Hxy. done. }
    f_equal. apply IH; [done|]. by apply Permutation_cons_inv in Hp.
Qed.

Lemma exist_None r h p u :
  exist r h p u = None ↔ p ∉ (location <$> bucket r h u).
Proof.
  rewrite exist_bucket, first_match_None, Forall_forall. split.
  - intros Hf (x & -> & Hx)%list_elem_of_fmap. apply Hf in Hx.
    by rewrite String.eqb_refl in Hx.
  - intros Hn x Hx. apply String.eqb_neq. intros ->. apply Hn. by apply list_elem_of_fmap_2.
Qed.

Lemma wf_New : wf NewRouters.
Proof.
  unfold NewRouters.
  assert (∀ h u, bucket ∅ h u = []) as Hb by done.
  constructor; intros h u; rewrite Hb; [set_solver..|constructor].
Qed.

Lemma Add_sorted l loc user dom pl :
  StronglySorted loc_gt l → loc ∉ (location <$> l) →
  StronglySorted loc_gt (merge_sort loc_ge (l ++ [mkRouter dom loc user pl])).
Proof.
  intros Hl Hn. apply sorted_strict.
  - apply Sorted_StronglySorted; [apply _|]. apply Sorted_merge_sort, _.
  - rewrite merge_sort_Permutation, fmap_app. apply NoDup_app. split_and!.
    + by apply strict_NoDup.
    + set_solver.
    + apply NoDup_singleton.
Qed.

Lemma filter_sorted (f : Router → Prop) `{∀ x, Decision (f x)} l :
  StronglySorted loc_gt l → StronglySorted loc_gt (filter f l).
Proof.
  induction 1 as [|x l Hl IH Hx]; [constructor|].
  rewrite filter_cons. case_decide; [|done]. constructor; [done|].
  rewrite Forall_forall in Hx |- *. intros y Hy. apply Hx.
  by apply list_elem_of_filter in Hy as [_ ?].
Qed.

Lemma wf_Add r dom loc user pl r' : wf r → Add r dom loc user pl = Ok r' → wf r'.
Proof.
  intros Hwf [Hex Hb]%bucket_Add. apply exist_None in Hex.
  constructor; intros h u; rewrite Hb; case_decide as Hd; try apply Hwf.
  - destruct Hd as [-> ->]. intros. apply ToLower_idem.
  - destruct Hd as [-> ->]. intros x. rewrite merge_sort_Permutation.
    intros [Hx| ->%list_elem_of_singleton]%elem_of_app; [by apply Hwf|done].
  - destruct Hd as [-> ->]. by apply Add_sorted; [apply Hwf|].
Qed.

Lemma wf_Del r dom loc user : wf r → wf (Del r dom loc user).
Proof.
  intros Hwf. constructor; intros h u; rewrite bucket_Del; case_decide; try apply Hwf.
  - intros x [_ Hx]%list_elem_of_filter. eapply Hwf, Hx.
  - intros x [_ Hx]%list_elem_of_filter. eapply Hwf, Hx.
  - apply filter_sorted, Hwf.
Qed.

Lemma wf_step r r' : wf r → step r r' → wf r'.
Proof. intros Hwf Hs. destruct Hs; [by eapply wf_Add|by apply wf_Del]. Qed.

(** ** The abstract table

    What the table means: at most one payload per domain, location and user.
    [lookup_route] reads it; the two updates are the insertion of an absent
    key and the removal of a key. *)

Definition lookup_route (r : Routers) (key : string * string * string) : option P :=
  let '(dom, loc, user) := key in payload <$> exist r dom loc user.

Lemma exist_Some r h p u x :
  wf r → exist r h p u = Some x ↔ x ∈ bucket r h u ∧ location x = p.
Proof.
  intros Hwf. rewrite exist_bucket. split.
  - intros [Hx Heq]%first_match_elem_of. apply String.eqb_eq in Heq. done.
  - intros [Hx <-]. destruct (first_match _ _) as [y|] eqn:Hm.
    + apply first_match_elem_of in Hm as [Hy Heq%String.eqb_eq].
      f_equal. by eapply location_inj_on; [apply Hwf|..].
    + rewrite first_match_None, Forall_forall in Hm. apply Hm in Hx.
      by rewrite String.eqb_refl in Hx.
Qed.

Lemma exist_option_eq r r' h p u :
  wf r → wf r' →
  (∀ x, location x = p → x ∈ bucket r h u ↔ x ∈ bucket r' h u) →
  exist r h p u = exist r' h p u.
Proof.
  intros Hwf Hwf' Hb. apply option_eq. intros x. rewrite !exist_Some by done.
  split; intros [Hx Hl]; split; try done; by apply (Hb x Hl).
Qed.

Lemma Add_ok_exist r dom loc user pl r' h p u :
  wf r → Add r dom loc user pl = Ok r' →
  exist r' h p u =
    if decide ((h, p, u) = (ToLower dom, loc, user))
    then Some (mkRouter (ToLower dom) loc user pl) else exist r h p u.
Proof.
  intros Hwf Ha. pose proof (wf_Add _ _ _ _ _ _ Hwf Ha) as Hwf'.
  apply bucket_Add in Ha as [Hex Hb]. case_decide as Hd.
  - injection Hd as -> -> ->. apply exist_Some; [done|]. split; [|done].
    rewrite Hb, decide_True, merge_sort_Permutation by done. set_solver.
  - apply exist_option_eq; [done..|]. intros x Hl. rewrite Hb.
    case_decide as Hk; [|done]. destruct Hk as [-> ->].
    rewrite merge_sort_Permutation, elem_of_app, list_elem_of_singleton.
    split; [|by left]. intros [?| ->]; [done|]. simpl in Hl. congruence.
Qed.

Lemma Del_exist r dom loc user h p u :
  wf r →
  exist (Del r dom loc user) h p u =
    if decide ((h, p, u) = (ToLower dom, loc, user)) then None else exist r h p u.
Proof.
  intros Hwf. pose proof (wf_Del r dom loc user Hwf) as Hwf'. case_decide as Hd.
  - injection Hd as -> -> ->. apply exist_None. rewrite bucket_Del, decide_True by done.
    intros (x & -> & [Hx _]%list_elem_of_filter)%list_elem_of_fmap. done.
  - apply exist_option_eq; [done..|]. intros x Hl. rewrite bucket_Del.
    case_decide as Hk; [|done]. destruct Hk as [-> ->].
    rewrite list_elem_of_filter. split; [by intros [_ ?]|].
    intros Hx. split; [|done]. intros Heq. apply Hd. congruence.
Qed.

(** ** Longest prefix *)

(** In a bucket with descending locations the first location that is a
    prefix of the path is the longest one that is. *)
Lemma first_prefix_longest_1 l path x :
  StronglySorted loc_gt l →
  first_match (λ vr, HasPrefix path (location vr)) l = Some x →
  x ∈ l ∧ HasPrefix path (location x) = true ∧
  ∀ y, y ∈ l → HasPrefix path (location y) = true →
       (String.length (location y) ≤ String.length (location x))%nat.
Proof.
  induction 1 as [|z l Hl IH Hz]; simpl; [done|]. rewrite Forall_forall in Hz.
  destruct (HasPrefix path (location z)) eqn:Hp.
  - intros [= <-]. split_and!; [set_solver|done|].
    intros y [->|Hy]%elem_of_cons Hpy; [done|].
    destruct (decide (String.length (location y) ≤ String.length (location z))%nat) as [|Hn]; [done|].
    exfalso. apply Hz in Hy. unfold loc_gt in Hy.
    assert (HasPrefix (location y) (location z) = true) as Hyz
      by (eapply prefixes_comparable; [done..|lia]).
    apply compare_proper_prefix in Hyz; [|by intros Heq; rewrite Heq in Hn].
    rewrite String.compare_antisym, Hyz in Hy. done.
  - intros (Hx & Hpx & Hmax)%IH. split_and!; [set_solver|done|].
    intros y [->|Hy]%elem_of_cons Hpy; [congruence|by apply Hmax].
Qed.

Lemma first_prefix_longest l path x :
  StronglySorted loc_gt l →
  first_match (λ vr, HasPrefix path (location vr)) l = Some x ↔
  x ∈ l ∧ HasPrefix path (location x) = true ∧
  ∀ y, y ∈ l → HasPrefix path (location y) = true →
       (String.length (location y) ≤ String.length (location x))%nat.
Proof.
  intros Hs. split; [by apply first_prefix_longest_1|].
  intros (Hx & Hpx & Hmax). destruct (first_match _ l) as [y|] eqn:Hm.
  - apply first_prefix_longest_1 in Hm as (Hy & Hpy & Hmaxy); [|done].
    f_equal. eapply location_inj_on; [done..|].
    specialize (Hmax y Hy Hpy). specialize (Hmaxy x Hx Hpx).
    apply HasPrefix_antisym; [eapply prefixes_comparable; [done..|]|]; lia.
  - rewrite first_match_None, Forall_forall in Hm. apply Hm in Hx. congruence.
Qed.

(** ** Hosts a request may be routed by *)

(** The domains [getByRoute] tries, in its order. *)
Fixpoint wildcards (hostSplit : list string) : list string :=
  match hostSplit with
  | _ :: ((_ :: _ :: _) as rest) => Join ("*" :: rest) "." :: wildcards rest
  | _ => []
  end.

Definition candidate_hosts (host : string) : list string :=
  ToLower host :: wildcards (Split (ToLower host) ".") ++ ["*"].

(** The first candidate, user by user, that has a matching location. *)
Fixpoint first_route (r : Routers) (hosts : list string) (path user : string) : option Router :=
  match hosts with
  | [] => None
  | h :: hosts' =>
      match getLocked r h path user with
      | Some vr => Some vr
      | None =>
          match getLocked r h path "" with
          | Some vr => Some vr
          | None => first_route r hosts' path user
          end
      end
  end.

Lemma first_route_app r hs1 hs2 path user :
  first_route r (hs1 ++ hs2) path user =
  match first_route r hs1 path user with
  | Some vr => Some vr
  | None => first_route r hs2 path user
  end.
Proof. induction hs1 as [|h hs1 IH]; simpl; [done|]. by repeat case_match. Qed.

Lemma wildcard_walk_first_route r hostSplit path user :
  wildcard_walk r hostSplit path user = first_route r (wildcards hostSplit) path user.
Proof.
  induction hostSplit as [|a rest IH]; [done|].
  destruct rest as [|b [|c rest]]; [done..|].
  trans (match getExactOrAllUsersLocked r (Join ("*" :: b :: c :: rest) ".") path user with
         | Some vr => Some vr
         | None => wildcard_walk r (b :: c :: rest) path user
         end); [done|].
  rewrite IH. unfold getExactOrAllUsersLocked.
  change (wildcards (a :: b :: c :: rest))
    with (Join ("*" :: b :: c :: rest) "." :: wildcards (b :: c :: rest)).
  cbn [first_route]. by repeat case_match.
Qed.

Lemma first_route_Some r hs path user vr :
  first_route r hs path user = Some vr →
  ∃ h u, h ∈ hs ∧ (u = user ∨ u = "") ∧ getLocked r h path u = Some vr.
Proof.
  induction hs as [|h hs IH]; simpl; [done|].
  destruct (getLocked r h path user) as [x|] eqn:H1.
  { intros [= <-]. exists h, user. set_solver. }
  destruct (getLocked r h path "") as [x|] eqn:H2.
  { intros [= <-]. exists h, "". set_solver. }
  intros (h' & u & ? & ? & ?)%IH. exists h', u. set_solver.
Qed.

Lemma wildcards_elem_of ls h :
  h ∈ wildcards ls →
  ∃ pre post, ls = pre ++ post ∧ pre ≠ [] ∧ (2 ≤ length post)%nat ∧
              h = Join ("*" :: post) ".".
Proof.
  induction ls as [|a rest IH]; simpl; [set_solver|].
  destruct rest as [|b [|c rest]]; [set_solver..|].
  intros [->|Hin]%elem_of_cons.
  - exists [a], (b :: c :: rest). split_and!; [done|done|simpl; lia|done].
  - apply IH in Hin as (pre & post & -> & ? & ? & ->).
    exists (a :: pre), post. done.
Qed.

Lemma Join_app l1 l2 sep :
  l1 ≠ [] → l2 ≠ [] → Join (l1 ++ l2) sep = Join l1 sep +:+ sep +:+ Join l2 sep.
Proof.
  intros H1 H2. induction l1 as [|x l1 IH]; [done|].
  destruct l1 as [|y l1].
  - simpl. by destruct l2.
  - change ((x :: y :: l1) ++ l2) with (x :: ((y :: l1) ++ l2)).
    rewrite Join_cons by done. rewrite (IH ltac:(done)).
    rewrite (Join_cons x (y :: l1)) by done. by rewrite !string_app_assoc.
Qed.

(** A wildcard candidate "*.suffix" covers the host, and the suffix has at
    least two labels. *)
Lemma wildcard_covers host h :
  h ∈ wildcards (Split host ".") →
  ∃ sub suffix, host = sub +:+ "." +:+ suffix ∧ ContainsChar suffix "." = true ∧
                h = "*." +:+ suffix.
Proof.
  intros (pre & post & Hs & Hpre & Hpost & ->)%wildcards_elem_of.
  assert (post ≠ []) as Hne by (intros ->; simpl in Hpost; lia).
  exists (Join pre "."), (Join post "."). split_and!.
  - rewrite <- (Join_Split host "."), Hs. by apply Join_app.
  - destruct post as [|a [|b post]]; [done|simpl in Hpost; lia|].
    rewrite Join_cons by done. rewrite !ContainsChar_app. simpl. by rewrite orb_true_r.
  - by apply Join_cons.
Qed.

Lemma getLocked_Some r h path u vr :
  wf r → getLocked r h path u = Some vr →
  domain vr = h ∧ httpUser vr = u ∧ HasPrefix path (location vr) = true.
Proof.
  intros Hwf. rewrite getLocked_bucket. intros [Hin Hp]%first_match_elem_of.
  by destruct (wf_entry r Hwf _ _ _ Hin).
Qed.

Lemma getByRoute_first_route r host path user :
  getByRoute r host path user = first_route r (candidate_hosts host) path user.
Proof.
  unfold getByRoute, candidate_hosts. rewrite wildcard_walk_first_route.
  unfold getExactOrAllUsersLocked. set (ws := wildcards _). cbn [first_route].
  destruct (getLocked r (ToLower host) path user); [done|].
  destruct (getLocked r (ToLower host) path ""); [done|].
  rewrite first_route_app. destruct (first_route r ws path user); [done|].
  cbn [first_route]. destruct (getLocked r "*" path user); [done|].
  by destruct (getLocked r "*" path "").
Qed.

Lemma first_route_spec r hs path user vr :
  first_route r hs path user = Some vr ↔
  ∃ pre h post, hs = pre ++ h :: post ∧
    (∀ h', h' ∈ pre → getLocked r h' path user = None ∧ getLocked r h' path "" = None) ∧
    (getLocked r h path user = Some vr ∨
     getLocked r h path user = None ∧ getLocked r h path "" = Some vr).
Proof.
  split.
  - induction hs as [|h hs IH]; simpl; [done|].
    destruct (getLocked r h path user) as [x|] eqn:H1.
    { intros [= <-]. exists [], h, hs. set_solver. }
    destruct (getLocked r h path "") as [x|] eqn:H2.
    { intros [= <-]. exists [], h, hs. set_solver. }
    intros (pre & h' & post & -> & Hpre & Hh)%IH. exists (h :: pre), h', post.
    split_and!; [done| |done]. intros h'' [->|]%elem_of_cons; auto.
  - intros (pre & h & post & -> & Hpre & Hh). rewrite first_route_app.
    assert (first_route r pre path user = None) as ->.
    { clear Hh. induction pre as [|h' pre IH]; simpl; [done|].
      destruct (Hpre h') as [-> ->]; [set_solver|]. apply IH. set_solver. }
    simpl. destruct Hh as [->|[-> ->]]; done.
Qed.

(** ** The table's theorems *)

Definition reachable (r : Routers) : Prop := rtc step NewRouters r.

Lemma reachable_wf r : reachable r → wf r.
Proof. intros Hr. eapply rtc_invariant; [apply wf_step|exact Hr|apply wf_New]. Qed.

(** A table filled by a list of registrations; a refused one changes nothing. *)
Fixpoint add_all (r : Routers) (l : list (string * string * string * P)) : Routers :=
  match l with
  | [] => r
  | (dom, loc, user, pl) :: l' =>
      match Add r dom loc user pl with
      | Ok r' => add_all r' l'
      | Err _ => add_all r l'
      end
  end.

Lemma add_all_reachable r l : reachable r → reachable (add_all r l).
Proof.
  revert r. induction l as [|[[[dom loc] user] pl] l IH]; intros r Hr; simpl; [done|].
  destruct (Add r dom loc user pl) eqn:Ha; [|by apply IH].
  apply IH. eapply rtc_r; [exact Hr|by eapply step_add].
Qed.

(** C2. The route table is a finite map. In every table built by [Add] and
    [Del], [Add] fails exactly when the lower-cased domain, location and user
    are registered already, otherwise it binds that key and no other; [Del]
    unbinds its key and no other. *)
Theorem routers_refine_map (r : Routers) (dom loc user : string) (pl : P) :
  reachable r →
  (Add r dom loc user pl = Err ErrRouterConfigConflict ↔
     is_Some (lookup_route r (ToLower dom, loc, user))) ∧
  (∀ r', Add r dom loc user pl = Ok r' → ∀ key,
     lookup_route r' key =
       if decide (key = (ToLower dom, loc, user)) then Some pl else lookup_route r key) ∧
  (∀ key, lookup_route (Del r dom loc user) key =
     if decide (key = (ToLower dom, loc, user)) then None else lookup_route r key).
Proof.
  intros Hwf%reachable_wf. split_and!.
  - unfold Add, lookup_route. rewrite fmap_is_Some.
    destruct (exist r (ToLower dom) loc user); naive_solver.
  - intros r' Ha [[h p] u]. unfold lookup_route. erewrite Add_ok_exist by done.
    by case_decide.
  - intros [[h p] u]. unfold lookup_route. rewrite Del_exist by done. by case_decide.
Qed.

(** [Get] is the longest-prefix match: in every table built by [Add] and
    [Del] it returns a route exactly when that route is registered for the
    lower-cased host and the user, its location is a prefix of the path, and
    no other registered location of that host and user that is a prefix of
    the path is longer. *)
Theorem get_longest_prefix (r : Routers) (host path user : string) (vr : Router) :
  reachable r →
  Get r host path user = Some vr ↔
  exist r (ToLower host) (location vr) user = Some vr ∧
  HasPrefix path (location vr) = true ∧
  ∀ loc, is_Some (exist r (ToLower host) loc user) → HasPrefix path loc = true →
         (String.length loc ≤ String.length (location vr))%nat.
Proof.
  intros Hwf%reachable_wf. unfold Get. rewrite getLocked_bucket.
  rewrite first_prefix_longest by apply Hwf. rewrite exist_Some by done. split.
  - intros (Hin & Hp & Hmax). split_and!; [done..|].
    intros loc [y Hy] Hpl. apply exist_Some in Hy as [Hy <-]; [|done]. by apply Hmax.
  - intros ([Hin _] & Hp & Hmax). split_and!; [done..|]. intros y Hy Hpy.
    apply Hmax; [|done]. exists y. by apply exist_Some.
Qed.

(** C3. The precedence of [getByRoute]: it tries the exact host, then the
    wildcard of each proper suffix from the longest to the shortest, then the
    catch-all "*", each for the user before all users; a route is returned
    exactly when it is the first match of that list of candidates. *)
Theorem getByRoute_precedence (r : Routers) (host path user : string) (vr : Router) :
  getByRoute r host path user = Some vr ↔
  ∃ pre h post, candidate_hosts host = pre ++ h :: post ∧
    (∀ h', h' ∈ pre → getLocked r h' path user = None ∧ getLocked r h' path "" = None) ∧
    (getLocked r h path user = Some vr ∨
     getLocked r h path user = None ∧ getLocked r h path "" = Some vr).
Proof. rewrite getByRoute_first_route. apply first_route_spec. Qed.

(** A request is only ever routed to a domain that covers its host: the
    route found belongs to the user or to all users, its location is a prefix
    of the path, and its domain is the host itself, the catch-all "*", or
    "*.suffix" for a proper suffix of at least two labels of the host. *)
Theorem getByRoute_sound (r : Routers) (host path user : string) (vr : Router) :
  reachable r →
  getByRoute r host path user = Some vr →
  HasPrefix path (location vr) = true ∧
  (httpUser vr = user ∨ httpUser vr = "") ∧
  (domain vr = ToLower host ∨ domain vr = "*" ∨
   ∃ sub suffix, ToLower host = sub +:+ "." +:+ suffix ∧
                 ContainsChar suffix "." = true ∧ domain vr = "*." +:+ suffix).
Proof.
  intros Hwf%reachable_wf. rewrite getByRoute_first_route.
  intros (h & u & Hh & Hu & Hg)%first_route_Some.
  apply getLocked_Some in Hg as (Hd & Hus & Hp); [|done].
  split_and!; [done|naive_solver|]. rewrite Hd. unfold candidate_hosts in Hh.
  apply elem_of_cons in Hh as [->|Hh]; [by left|].
  apply elem_of_app in Hh as [Hh| ->%list_elem_of_singleton]; [|by right; left].
  right. right. by apply wildcard_covers.
Qed.
End Routers.

(** ** Witnesses: a table with two locations of one host and a wildcard. *)

Section Witnesses.

Definition demo_table : gmap string (gmap string (list (@Router nat))) :=
  add_all NewRouters
    [("Example.com", "/", "", 1); ("example.com", "/api", "", 2); ("*.example.com", "", "", 3)].

Lemma demo_reachable : reachable demo_table.
Proof. apply add_all_reachable, rtc_refl. Qed.

Lemma routers_refine_map_witness :
  lookup_route (Del demo_table "EXAMPLE.com" "/api" "") ("example.com", "/", "") = Some 1.
Proof.
  destruct (routers_refine_map demo_table "EXAMPLE.com" "/api" "" 0 demo_reachable) as (_ & _ & ->).
  vm_compute. reflexivity.
Defined.

Lemma get_longest_prefix_witness :
  exist demo_table (ToLower "example.COM") "/api" "" = Some (mkRouter "example.com" "/api" "" 2).
Proof.
  apply (proj1 (get_longest_prefix demo_table "example.COM" "/api/v1" ""
    (mkRouter "example.com" "/api" "" 2) demo_reachable)).
  vm_compute. reflexivity.
Defined.

Lemma getByRoute_sound_witness :
  HasPrefix "/x" "" = true ∧ ("" = "bob" ∨ "" = "").
Proof.
  destruct (getByRoute_sound demo_table "a.b.Example.com" "/x" "bob"
    (mkRouter "*.example.com" "" "" 3) demo_reachable) as (Hp & Hu & _).
  - vm_compute. reflexivity.
  - split; [exact Hp|exact Hu].
Defined.

End Witnesses.
End Vhost.
