(* ===== verification/Ports.v ===== *)
(** The port manager of frps, server/ports/ports.go.

    [reservedPorts] and [usedPorts] hold pointers to [PortCtx] values, and
    [Release] changes a context through one map while it stays reachable from
    the other: contexts live in a heap indexed by locations and the two maps
    hold locations. Times are nanoseconds. The outcome of probing a port with
    [net.Listen] is an argument [avail], and so is the order in which Go
    iterates over a map. *)
From Stdlib Require Import ZArith Lia.
From stdpp Require Import base gmap strings list fin_maps fin_sets sets relations numbers.
From S2P Require Import Prelude GoLib.

Module Ports.
Local Open Scope Z_scope.

Definition MinPort : Z := 1.
Definition MaxPort : Z := 65535.
Definition hour : Z := 3600 * 10 ^ 9.
Definition MaxPortReservedDuration : Z := 24 * hour.

Inductive error :=
| ErrPortAlreadyUsed
| ErrPortNotAllowed
| ErrPortUnAvailable
| ErrNoAvailablePort.

Record PortCtx := mkPortCtx {
  ProxyName : string;
  Port : Z;
  Closed : bool;
  UpdateTime : Z
}.

Record Manager := mkManager {
  ctxs : gmap nat PortCtx;        (* the contexts allocated so far *)
  next : nat;                     (* the next location *)
  reservedPorts : gmap string nat;
  usedPorts : gmap Z nat;
  freePorts : gset Z
}.

(** types.PortsRange. *)
Record PortsRange := mkPortsRange { Start : Z; End_ : Z; Single : Z }.

(** The ports of one entry of [allowPorts]. *)
Definition range_ports (pair : PortsRange) : gset Z :=
  if 0 <? Single pair then {[ Single pair ]}
  else list_to_set (seqZ (Start pair) (End_ pair - Start pair + 1)).

Definition initial_ports (allowPorts : list PortsRange) : gset Z :=
  match allowPorts with
  | [] => list_to_set (seqZ MinPort (MaxPort - MinPort + 1))
  | _ => ⋃ (range_ports <$> allowPorts)
  end.

Definition NewManager (allowPorts : list PortsRange) : Manager :=
  mkManager ∅ 0 ∅ ∅ (initial_ports allowPorts).

(** [markPortAcquiredLocked]: [l] is the location of the new context. *)
Definition markPortAcquiredLocked (pm : Manager) (name : string) (port : Z) (l : nat) : Manager :=
  mkManager (ctxs pm) (next pm)
    (<[name := l]> (reservedPorts pm))
    (<[port := l]> (usedPorts pm))
    (freePorts pm ∖ {[ port ]}).

(** The loop over [freePorts]: at most [tries] ports are probed. *)
Fixpoint pick_random (avail : Z → bool) (tries : nat) (order : list Z) : option Z :=
  match order, tries with
  | k :: order', S tries' => if avail k then Some k else pick_random avail tries' order'
  | _, _ => None
  end.

(** The deferred assignment [portCtx.Port = realPort]. *)
Definition set_port (pm : Manager) (l : nat) (port : Z) : Manager :=
  mkManager (alter (λ c, mkPortCtx (ProxyName c) port (Closed c) (UpdateTime c)) l (ctxs pm))
    (next pm) (reservedPorts pm) (usedPorts pm) (freePorts pm).

(** The reserved port of [name], if it may be taken again. *)
Definition reserved_port (pm : Manager) (avail : Z → bool) (name : string) : option Z :=
  match reservedPorts pm !! name with
  | None => None
  | Some lc =>
      match ctxs pm !! lc with
      | None => None
      | Some ctx => if avail (Port ctx) then Some (Port ctx) else None
      end
  end.

(** [portCtx := &PortCtx{ProxyName: name, Closed: false, UpdateTime: now}],
    at location [next pm]. *)
Definition new_ctx (pm : Manager) (name : string) (now : Z) : Manager :=
  mkManager (<[next pm := mkPortCtx name 0 false now]> (ctxs pm)) (S (next pm))
    (reservedPorts pm) (usedPorts pm) (freePorts pm).

Definition Acquire (pm : Manager) (now : Z) (avail : Z → bool) (order : list Z)
    (name : string) (port : Z) : Manager * res error Z :=
  let l := next pm in
  let pm := new_ctx pm name now in
  let take (realPort : Z) := set_port (markPortAcquiredLocked pm name realPort l) l realPort in
  if port =? 0 then
    match reserved_port pm avail name with
    | Some realPort => (take realPort, Ok realPort)
    | None =>
        match pick_random avail 5 order with
        | Some realPort =>
            if realPort =? 0
            then (markPortAcquiredLocked pm name realPort l, Err ErrNoAvailablePort)
            else (take realPort, Ok realPort)
        | None => (pm, Err ErrNoAvailablePort)
        end
    end
  else if decide (port ∈ freePorts pm) then
    if avail port then (take port, Ok port) else (pm, Err ErrPortUnAvailable)
  else match usedPorts pm !! port with
       | Some _ => (pm, Err ErrPortAlreadyUsed)
       | None => (pm, Err ErrPortNotAllowed)
       end.

Definition Release (pm : Manager) (now : Z) (port : Z) : Manager :=
  match usedPorts pm !! port with
  | None => pm
  | Some l =>
      mkManager (alter (λ c, mkPortCtx (ProxyName c) (Port c) true now) l (ctxs pm)) (next pm)
        (reservedPorts pm) (delete port (usedPorts pm)) ({[ port ]} ∪ freePorts pm)
  end.

(** Whether [cleanReservedPortsOnce] keeps a reservation. *)
Definition keep_reserved (pm : Manager) (now : Z) (l : nat) : bool :=
  match ctxs pm !! l with
  | None => true
  | Some ctx => negb (Closed ctx && (MaxPortReservedDuration <? now - UpdateTime ctx))
  end.

Definition cleanReservedPortsOnce (pm : Manager) (now : Z) : Manager :=
  mkManager (ctxs pm) (next pm)
    (filter (λ nl, keep_reserved pm now nl.2 = true) (reservedPorts pm))
    (usedPorts pm) (freePorts pm).

(** The calls on a manager. [order] lists the keys of [freePorts] in some
    order, as a [range] over the map does. *)
Inductive step : Manager → Manager → Prop :=
| step_acquire pm now avail order name port pm' r :
    order ≡ₚ elements (freePorts pm) →
    Acquire pm now avail order name port = (pm', r) → step pm pm'
| step_release pm now port : step pm (Release pm now port)
| step_clean pm now : step pm (cleanReservedPortsOnce pm now).

(** ** Well-formedness *)

Record wf (allowed : gset Z) (pm : Manager) : Prop := {
  wf_disj : freePorts pm ## dom (usedPorts pm);
  wf_union : freePorts pm ∪ dom (usedPorts pm) = allowed;
  wf_zero : 0 ∉ allowed;
  wf_next : ∀ l, is_Some (ctxs pm !! l) → (l < next pm)%nat;
  wf_used : ∀ p l, usedPorts pm !! p = Some l →
    ∃ c, ctxs pm !! l = Some c ∧ Port c = p ∧ Closed c = false;
  wf_reserved : ∀ n l, reservedPorts pm !! n = Some l →
    ∃ c, ctxs pm !! l = Some c ∧ ProxyName c = n ∧ Port c ∈ allowed
}.

(** The manager after a successful acquisition of [p]. *)
Definition taken (pm : Manager) (now : Z) (name : string) (p : Z) : Manager :=
  mkManager (<[next pm := mkPortCtx name p false now]> (ctxs pm)) (S (next pm))
    (<[name := next pm]> (reservedPorts pm)) (<[p := next pm]> (usedPorts pm))
    (freePorts pm ∖ {[ p ]}).

Lemma take_taken pm now name p :
  set_port (markPortAcquiredLocked (new_ctx pm name now) name p (next pm)) (next pm) p =
  taken pm now name p.
Proof. unfold set_port, markPortAcquiredLocked, new_ctx, taken. simpl. by rewrite alter_insert_eq. Qed.

Lemma wf_fresh allowed pm : wf allowed pm → ctxs pm !! next pm = None.
Proof.
  intros Hwf. destruct (ctxs pm !! next pm) eqn:Hl; [|done].
  assert (next pm < next pm)%nat; [|lia]. by apply (wf_next _ _ Hwf).
Qed.

Lemma reserved_port_new_ctx allowed pm avail name now :
  wf allowed pm → reserved_port (new_ctx pm name now) avail name = reserved_port pm avail name.
Proof.
  intros Hwf. unfold reserved_port. simpl.
  destruct (reservedPorts pm !! name) as [l|] eqn:Hl; [|done].
  apply (wf_reserved _ _ Hwf) in Hl as (c & Hc & _).
  rewrite lookup_insert_ne; [done|]. intros <-. by rewrite (wf_fresh _ _ Hwf) in Hc.
Qed.

Lemma reserved_port_allowed allowed pm avail name p :
  wf allowed pm → reserved_port pm avail name = Some p → p ∈ allowed ∧ avail p = true.
Proof.
  intros Hwf. unfold reserved_port.
  destruct (reservedPorts pm !! name) as [l|] eqn:Hl; [|done].
  apply (wf_reserved _ _ Hwf) in Hl as (c & -> & _ & Hp).
  destruct (avail (Port c)) eqn:Ha; [|done]. intros [= <-]. done.
Qed.

Lemma pick_random_elem avail n order p :
  pick_random avail n order = Some p → p ∈ order ∧ avail p = true.
Proof.
  revert n. induction order as [|k order IH]; intros [|n]; simpl; try done.
  destruct (avail k) eqn:Ha.
  - intros [= <-]. set_solver.
  - intros [? ?]%IH. set_solver.
Qed.

(** Every outcome of [Acquire]: it fails and allocates an unreferenced
    context only, or it takes an available port, which was free or was the
    caller's own reservation. *)
Lemma Acquire_cases allowed pm now avail order name port pm' r :
  wf allowed pm → order ≡ₚ elements (freePorts pm) →
  Acquire pm now avail order name port = (pm', r) →
  (∃ e, r = Err e ∧ pm' = new_ctx pm name now) ∨
  (∃ p, r = Ok p ∧ pm' = taken pm now name p ∧ avail p = true ∧ p ∈ allowed ∧
        (port = 0 ∨ port = p) ∧
        (p ∈ freePorts pm ∨ port = 0 ∧ reserved_port pm avail name = Some p)).
Proof.
  intros Hwf Hord. unfold Acquire.
  rewrite (reserved_port_new_ctx allowed) by done. rewrite !take_taken.
  assert (freePorts pm ⊆ allowed) as Hsub by (rewrite <- (wf_union _ _ Hwf); set_solver).
  destruct (Z.eqb_spec port 0) as [->|Hne].
  - destruct (reserved_port pm avail name) as [p|] eqn:Hres.
    { rewrite take_taken. intros [= <- <-]. right. exists p.
      apply (reserved_port_allowed allowed) in Hres as [? ?]; naive_solver. }
    destruct (pick_random avail 5 order) as [p|] eqn:Hpick.
    + apply pick_random_elem in Hpick as [Hin Ha].
      rewrite Hord, elem_of_elements in Hin.
      destruct (Z.eqb_spec p 0) as [->|Hp0].
      { by apply Hsub, (wf_zero _ _ Hwf) in Hin. }
      rewrite take_taken. intros [= <- <-]. right. exists p. set_solver.
    + intros [= <- <-]. left. eauto.
  - case_decide as Hfree.
    + destruct (avail port) eqn:Ha; intros [= <- <-]; [|left; eauto].
      right. exists port. set_solver.
    + destruct (usedPorts _ !! port); intros [= <- <-]; left; eauto.
Qed.

Lemma wf_new_ctx allowed pm name now : wf allowed pm → wf allowed (new_ctx pm name now).
Proof.
  intros Hwf. pose proof (wf_fresh _ _ Hwf) as Hf.
  destruct Hwf as [Hd Hu Hz Hn Hus Hr]. constructor; simpl; try done.
  - intros l. rewrite lookup_insert. case_decide; [lia|]. intros ?%Hn. lia.
  - intros p l (c & Hc & ?)%Hus. exists c.
    rewrite lookup_insert_ne; [done|congruence].
  - intros n l (c & Hc & ?)%Hr. exists c.
    rewrite lookup_insert_ne; [done|congruence].
Qed.

Lemma wf_taken allowed pm now name p :
  wf allowed pm → p ∈ allowed → wf allowed (taken pm now name p).
Proof.
  intros Hwf Hp. pose proof (wf_fresh _ _ Hwf) as Hf.
  destruct Hwf as [Hd Hu Hz Hn Hus Hr]. constructor; simpl; try done.
  - rewrite dom_insert_L. set_solver.
  - rewrite dom_insert_L. apply set_eq. intros x.
    destruct (decide (x = p)) as [->|]; set_solver.
  - intros l. rewrite lookup_insert. case_decide; [lia|]. intros ?%Hn. lia.
  - intros q l. rewrite lookup_insert. case_decide as Hq.
    + intros [= <-]. subst q. eexists. by rewrite lookup_insert_eq.
    + intros (c & Hc & ?)%Hus. exists c. rewrite lookup_insert_ne; [done|congruence].
  - intros n l. rewrite lookup_insert. case_decide as Hq.
    + intros [= <-]. subst n. eexists. by rewrite lookup_insert_eq.
    + intros (c & Hc & ?)%Hr. exists c. rewrite lookup_insert_ne; [done|congruence].
Qed.

Lemma wf_Release allowed pm now p : wf allowed pm → wf allowed (Release pm now p).
Proof.
  intros Hwf. unfold Release. destruct (usedPorts pm !! p) as [l|] eqn:Hl; [|done].
  destruct Hwf as [Hd Hu Hz Hn Hus Hr].
  assert (p ∈ dom (usedPorts pm)) as Hin by (by apply elem_of_dom_2 in Hl).
  constructor; simpl; try done.
  - rewrite dom_delete_L. set_solver.
  - rewrite dom_delete_L. apply set_eq. intros x.
    destruct (decide (x = p)) as [->|]; set_solver.
  - intros l' Hs. apply Hn. by apply lookup_alter_is_Some in Hs.
  - intros q l' [Hne Hq]%lookup_delete_Some. pose proof (Hus _ _ Hq) as (c & Hc & Hp & Hcl).
    exists c. rewrite lookup_alter_ne; [done|]. intros <-.
    apply Hus in Hl as (c' & Hc' & Hp' & _). congruence.
  - intros n l' (c & Hc & Hpn & Hpa)%Hr. destruct (decide (l = l')) as [<-|].
    + rewrite lookup_alter_eq, Hc. simpl. eexists. done.
    + rewrite lookup_alter_ne by done. eauto.
Qed.

Lemma wf_clean allowed pm now : wf allowed pm → wf allowed (cleanReservedPortsOnce pm now).
Proof.
  intros [Hd Hu Hz Hn Hus Hr]. constructor; simpl; try done.
  intros n l [Hl _]%map_lookup_filter_Some. by apply Hr.
Qed.

Lemma ports_wf_step allowed pm pm' : wf allowed pm → step pm pm' → wf allowed pm'.
Proof.
  intros Hwf Hs. destruct Hs as [pm now avail order name port pm' r Hord Ha| |].
  - apply (Acquire_cases allowed) in Ha as [(e & -> & ->)|(p & -> & -> & _ & Hp & _)]; try done.
    + by apply wf_new_ctx.
    + by apply wf_taken.
  - by apply wf_Release.
  - by apply wf_clean.
Qed.

(** ** Reachable managers *)

Definition reachable (allowPorts : list PortsRange) (pm : Manager) : Prop :=
  rtc step (NewManager allowPorts) pm.

Lemma ports_wf_New allowPorts :
  0 ∉ initial_ports allowPorts → wf (initial_ports allowPorts) (NewManager allowPorts).
Proof.
  intros Hz. constructor; simpl; [set_solver|set_solver|done|..].
  - intros l [c Hc]. by rewrite lookup_empty in Hc.
  - intros p l Hl. by rewrite lookup_empty in Hl.
  - intros n l Hl. by rewrite lookup_empty in Hl.
Qed.

Lemma ports_reachable_wf allowPorts pm :
  0 ∉ initial_ports allowPorts → reachable allowPorts pm → wf (initial_ports allowPorts) pm.
Proof.
  intros Hz Hr. eapply (rtc_invariant step); [apply ports_wf_step|exact Hr|by apply ports_wf_New].
Qed.

(** ** Reservations *)

(** [name] holds the closed context [l] of port [p], released at [t]. *)
Definition reserved_at (pm : Manager) (name : string) (l : nat) (p t : Z) : Prop :=
  reservedPorts pm !! name = Some l ∧ ctxs pm !! l = Some (mkPortCtx name p true t).

(** Calls that do not acquire for [name], with cleanups up to [deadline]. *)
Inductive quiet_step (name : string) (deadline : Z) : Manager → Manager → Prop :=
| quiet_acquire pm now avail order name' port pm' r :
    name' ≠ name → order ≡ₚ elements (freePorts pm) →
    Acquire pm now avail order name' port = (pm', r) → quiet_step name deadline pm pm'
| quiet_release pm now port : quiet_step name deadline pm (Release pm now port)
| quiet_clean pm now :
    now ≤ deadline → quiet_step name deadline pm (cleanReservedPortsOnce pm now).

Lemma reserved_at_new_ctx allowed pm name name' now l p t :
  wf allowed pm → reserved_at pm name l p t → reserved_at (new_ctx pm name' now) name l p t.
Proof.
  intros Hwf [Hr Hc]. split; [done|]. simpl. rewrite lookup_insert_ne; [done|].
  intros <-. by rewrite (wf_fresh _ _ Hwf) in Hc.
Qed.

Lemma reserved_at_taken allowed pm name name' now q l p t :
  wf allowed pm → name' ≠ name → reserved_at pm name l p t →
  reserved_at (taken pm now name' q) name l p t.
Proof.
  intros Hwf Hne [Hr Hc]. split; simpl; (rewrite lookup_insert_ne; [done|]); [done|].
  intros <-. by rewrite (wf_fresh _ _ Hwf) in Hc.
Qed.

Lemma reserved_at_Release allowed pm name now q l p t :
  wf allowed pm → reserved_at pm name l p t → reserved_at (Release pm now q) name l p t.
Proof.
  intros Hwf [Hr Hc]. unfold Release.
  destruct (usedPorts pm !! q) as [l'|] eqn:Hl; [|done]. split; [done|]. simpl.
  rewrite lookup_alter_ne; [done|]. intros <-.
  apply (wf_used _ _ Hwf) in Hl as (c & Hc' & _ & Hcl). by rewrite Hc in Hc'; simplify_eq.
Qed.

Lemma reserved_at_clean pm name now l p t :
  now ≤ t + MaxPortReservedDuration →
  reserved_at pm name l p t → reserved_at (cleanReservedPortsOnce pm now) name l p t.
Proof.
  intros Hnow [Hr Hc]. split; [|done]. apply map_lookup_filter_Some. split; [done|].
  unfold keep_reserved. simpl. rewrite Hc. simpl.
  apply negb_true_iff, Z.ltb_ge. lia.
Qed.

Lemma reserved_at_quiet allowed pm pm' name l p t :
  quiet_step name (t + MaxPortReservedDuration) pm pm' →
  wf allowed pm ∧ reserved_at pm name l p t → wf allowed pm' ∧ reserved_at pm' name l p t.
Proof.
  intros Hs [Hwf Hr].
  destruct Hs as [pm now avail order name' port pm' r Hne Hord Ha|pm now q|pm now Hnow].
  - split; [by eapply ports_wf_step; [|eapply step_acquire]|].
    apply (Acquire_cases allowed) in Ha as [(e & -> & ->)|(q & -> & -> & _)]; try done.
    + by eapply reserved_at_new_ctx.
    + by eapply reserved_at_taken.
  - split; [by apply wf_Release|by eapply reserved_at_Release].
  - split; [by apply wf_clean|by apply reserved_at_clean].
Qed.

Lemma Acquire_reserved allowed pm now avail order name l p t :
  wf allowed pm → reserved_at pm name l p t → avail p = true →
  (Acquire pm now avail order name 0).2 = Ok p.
Proof.
  intros Hwf [Hr Hc] Ha. unfold Acquire. simpl.
  rewrite (reserved_port_new_ctx allowed) by done.
  unfold reserved_port. rewrite Hr, Hc. simpl. by rewrite Ha.
Qed.

(** ** The manager's theorems *)

(** C9. The free and the used ports partition the allowed ports: at every
    moment of every run, whatever the probes answer, no port is both free and
    used, and free and used together are exactly the ports [allowPorts] names. *)
Theorem ports_partition (allowPorts : list PortsRange) (pm : Manager) :
  0 ∉ initial_ports allowPorts → reachable allowPorts pm →
  freePorts pm ## dom (usedPorts pm) ∧
  freePorts pm ∪ dom (usedPorts pm) = initial_ports allowPorts.
Proof. intros Hz Hr. by destruct (ports_reachable_wf allowPorts pm Hz Hr). Qed.

(** Exclusive use: when every port in use is bound (so that probing it
    fails), a successful [Acquire] hands out an allowed, available port that
    nobody held, records it for the caller under the requested number, and
    leaves every other port in use with its holder. *)
Theorem acquire_exclusive (allowPorts : list PortsRange) (pm pm' : Manager)
    (now : Z) (avail : Z → bool) (order : list Z) (name : string) (port p : Z) :
  0 ∉ initial_ports allowPorts → reachable allowPorts pm →
  order ≡ₚ elements (freePorts pm) →
  (∀ q, q ∈ dom (usedPorts pm) → avail q = false) →
  Acquire pm now avail order name port = (pm', Ok p) →
  p ∈ initial_ports allowPorts ∧ avail p = true ∧ (port = 0 ∨ port = p) ∧
  p ∈ freePorts pm ∧ usedPorts pm !! p = None ∧
  (∃ l, usedPorts pm' = <[p := l]> (usedPorts pm) ∧ reservedPorts pm' !! name = Some l ∧
        ctxs pm' !! l = Some (mkPortCtx name p false now)).
Proof.
  intros Hz Hr Hord Hbound Ha. pose proof (ports_reachable_wf _ _ Hz Hr) as Hwf.
  apply (Acquire_cases (initial_ports allowPorts)) in Ha
    as [(e & ? & _)|(q & [= <-] & -> & Hav & Hall & Hport & _)]; try done.
  assert (p ∉ dom (usedPorts pm)) as Hnd by (intros Hd%Hbound; congruence).
  split_and!; [done..| |by apply not_elem_of_dom|].
  - pose proof (wf_union _ _ Hwf). set_solver.
  - exists (next pm). simpl. by rewrite !lookup_insert_eq.
Qed.

(** What [Acquire] answers for a requested port (other than 0, which asks
    for any port): the port itself exactly when it is free and can be bound,
    "port unavailable" exactly when it is free and cannot, "port already
    used" exactly when it is in use, "port not allowed" exactly when it is
    not an allowed port. *)
Theorem acquire_specified_port (allowPorts : list PortsRange) (pm : Manager)
    (now : Z) (avail : Z → bool) (order : list Z) (name : string) (port : Z) :
  0 ∉ initial_ports allowPorts → reachable allowPorts pm → port ≠ 0 →
  let r := (Acquire pm now avail order name port).2 in
  (r = Ok port ↔ port ∈ freePorts pm ∧ avail port = true) ∧
  (r = Err ErrPortUnAvailable ↔ port ∈ freePorts pm ∧ avail port = false) ∧
  (r = Err ErrPortAlreadyUsed ↔ port ∈ dom (usedPorts pm)) ∧
  (r = Err ErrPortNotAllowed ↔ port ∉ initial_ports allowPorts).
Proof.
  intros Hz Hr Hne r. destruct (ports_reachable_wf _ _ Hz Hr) as [Hd Hu _ _ _ _]. clear Hz Hr.
  subst r. rewrite <- Hu, elem_of_union. clear Hu.
  unfold Acquire. rewrite (proj2 (Z.eqb_neq _ _) Hne). simpl. case_decide as Hf.
  - assert (port ∉ dom (usedPorts pm)) as Hnu by (intros ?; by apply (Hd port)).
    destruct (avail port); simpl; intuition congruence.
  - destruct (usedPorts pm !! port) as [l|] eqn:Hl; simpl.
    + apply elem_of_dom_2 in Hl. intuition congruence.
    + apply not_elem_of_dom in Hl. intuition congruence.
Qed.

(** A released port stays reserved for its proxy: once [name] acquired
    [p] and released it at time [t], then after any further calls that do not
    acquire for [name] and whose cleanups run no later than 24 hours after
    [t], asking for any port gives [p] back whenever [p] can be bound. *)
Theorem reservation_kept (allowPorts : list PortsRange) (pm pm1 pm2 : Manager)
    (now t now' : Z) (avail avail' : Z → bool) (order order' : list Z)
    (name : string) (port p : Z) :
  0 ∉ initial_ports allowPorts → reachable allowPorts pm →
  order ≡ₚ elements (freePorts pm) →
  Acquire pm now avail order name port = (pm1, Ok p) →
  rtc (quiet_step name (t + MaxPortReservedDuration)) (Release pm1 t p) pm2 →
  avail' p = true →
  (Acquire pm2 now' avail' order' name 0).2 = Ok p.
Proof.
  intros Hz Hr Hord Ha Hq Hav. pose proof (ports_reachable_wf _ _ Hz Hr) as Hwf.
  set (allowed := initial_ports allowPorts) in *.
  assert (wf allowed pm1) as Hwf1 by (by eapply ports_wf_step; [|eapply step_acquire]).
  apply (Acquire_cases allowed) in Ha as [(e & ? & _)|(q & [= <-] & -> & _)]; try done.
  assert (wf allowed pm2 ∧ reserved_at pm2 name (next pm) p t) as [Hwf2 Hres].
  { eapply (rtc_invariant (quiet_step name (t + MaxPortReservedDuration))
      (λ pm2, wf allowed pm2 ∧ reserved_at pm2 name (next pm) p t)); [|exact Hq|].
    - intros s s' HI Hs. by eapply reserved_at_quiet.
    - split; [by apply wf_Release|]. unfold Release. simpl. rewrite lookup_insert_eq.
      split; simpl; [by rewrite lookup_insert_eq|].
      by rewrite alter_insert_eq, lookup_insert_eq. }
  by eapply Acquire_reserved.
Qed.

(** The reserved path of [Acquire] probes the port but does not consult
    [usedPorts]: there is a run in which "a" is handed port 6000 while it is
    in use by "b", whose listener was not bound yet when the probe ran. *)
Theorem acquire_reserved_in_use :
  ∃ (allowPorts : list PortsRange) (pm : Manager) (avail : Z → bool) (l : nat),
    0 ∉ initial_ports allowPorts ∧ reachable allowPorts pm ∧
    usedPorts pm !! 6000 = Some l ∧
    (ProxyName <$> ctxs pm !! l) = Some "b" ∧
    (Acquire pm 0 avail (elements (freePorts pm)) "a" 0).2 = Ok 6000.
Proof.
  set (allow := [mkPortsRange 0 0 6000]).
  set (yes := λ _ : Z, true).
  set (pm0 := NewManager allow).
  set (pm1 := (Acquire pm0 0 yes (elements (freePorts pm0)) "a" 6000).1).
  set (pm2 := Release pm1 0 6000).
  set (pm3 := (Acquire pm2 0 yes (elements (freePorts pm2)) "b" 6000).1).
  exists allow, pm3, yes, 1%nat. split_and!; [|..|reflexivity].
  - unfold initial_ports, range_ports. simpl. set_solver.
  - eapply rtc_l; [eapply (step_acquire pm0 0 yes _ "a" 6000); [done|apply surjective_pairing]|].
    eapply rtc_l; [apply (step_release pm1 0 6000)|].
    eapply rtc_once, (step_acquire pm2 0 yes _ "b" 6000); [done|apply surjective_pairing].
  - reflexivity.
  - reflexivity.
Qed.

(** ** Witnesses *)

Definition demo_allow : list PortsRange := [mkPortsRange 0 0 6000; mkPortsRange 7000 7002 0].
Definition demo0 : Manager := NewManager demo_allow.
Definition demo_probe : Z → bool := λ q, negb (q =? 7001).
Definition demo1 : Manager := (Acquire demo0 0 demo_probe (elements (freePorts demo0)) "ssh" 6000).1.

Lemma demo_zero : 0 ∉ initial_ports demo_allow.
Proof. apply (bool_decide_unpack (0 ∉ initial_ports demo_allow)). vm_compute. exact I. Qed.

Lemma demo1_reachable : reachable demo_allow demo1.
Proof.
  eapply rtc_once, (step_acquire demo0 0 demo_probe _ "ssh" 6000); [done|apply surjective_pairing].
Qed.

Lemma ports_partition_witness : freePorts demo1 ## dom (usedPorts demo1).
Proof. apply (ports_partition demo_allow demo1 demo_zero demo1_reachable). Defined.

Lemma acquire_exclusive_witness : 6000 ∈ freePorts demo0.
Proof.
  destruct (acquire_exclusive demo_allow demo0 demo1 0 demo_probe (elements (freePorts demo0))
    "ssh" 6000 6000) as (_ & _ & _ & Hfree & _).
  - exact demo_zero.
  - apply rtc_refl.
  - reflexivity.
  - intros q Hq. vm_compute in Hq. set_solver.
  - vm_compute. reflexivity.
  - exact Hfree.
Defined.

Lemma acquire_specified_port_witness :
  (Acquire demo1 0 demo_probe [] "web" 7001).2 = Err ErrPortUnAvailable.
Proof.
  apply (acquire_specified_port demo_allow demo1 0 demo_probe [] "web" 7001
    demo_zero demo1_reachable); [lia|].
  split; [|reflexivity]. apply (bool_decide_unpack (7001 ∈ freePorts demo1)). vm_compute. exact I.
Defined.

Lemma reservation_kept_witness :
  (Acquire (Release demo1 5 6000) 6 demo_probe [] "ssh" 0).2 = Ok 6000.
Proof.
  apply (reservation_kept demo_allow demo0 demo1 (Release demo1 5 6000) 0 5 6 demo_probe demo_probe
    (elements (freePorts demo0)) [] "ssh" 6000 6000).
  - exact demo_zero.
  - apply rtc_refl.
  - reflexivity.
  - vm_compute. reflexivity.
  - apply rtc_refl.
  - reflexivity.
Defined.

End Ports.
