(* ===== verification/Registry.v ===== *)
(** The registry of connected clients, server/registry/registry.go.

    [clients] maps a registry key to the client's metadata, [runIndex] a run
    id to the key it was registered under. Only [clients] holds a given
    [*ClientInfo] ([List] and [GetByKey] return copies), so an entry is a
    value. Times are integers with 0 for Go's zero time; [now] is the clock. *)
From Stdlib Require Import ZArith Lia.
From stdpp Require Import base gmap strings list fin_maps relations.
From S2P Require Import Prelude GoLib.

Module Registry.
Local Open Scope Z_scope.

Record ClientInfo := mkClientInfo {
  Key : string;
  User : string;
  RawClientID : string;
  RunID : string;
  Hostname : string;
  IP : string;
  Version : string;
  WireProtocol : string;
  FirstConnectedAt : Z;
  LastConnectedAt : Z;
  DisconnectedAt : Z;
  Online : bool
}.

Record ClientRegistry := mkRegistry {
  clients : gmap string ClientInfo;
  runIndex : gmap string string
}.

Definition NewClientRegistry : ClientRegistry := mkRegistry ∅ ∅.

Definition composeClientKey (user id : string) : string :=
  if String.eqb user "" then id
  else if String.eqb id "" then user
  else user +:+ "." +:+ id.

(** What a connecting client announces. *)
Record Login := mkLogin {
  l_user : string;
  l_rawClientID : string;
  l_runID : string;
  l_hostname : string;
  l_version : string;
  l_remoteAddr : string;
  l_wireProtocol : string
}.

Definition login_key (m : Login) : string :=
  composeClientKey (l_user m)
    (if String.eqb (l_rawClientID m) "" then l_runID m else l_rawClientID m).

Definition conflicts (m : Login) (info : ClientInfo) : bool :=
  negb (String.eqb (l_rawClientID m) "") && Online info &&
  negb (String.eqb (RunID info) "") && negb (String.eqb (RunID info) (l_runID m)).

(** The assignments [Register] makes to the (new or existing) entry. *)
Definition register_info (m : Login) (now : Z) (info : ClientInfo) : ClientInfo :=
  mkClientInfo (Key info) (User info) (l_rawClientID m) (l_runID m) (l_hostname m)
    (l_remoteAddr m) (l_version m) (l_wireProtocol m)
    (if FirstConnectedAt info =? 0 then now else FirstConnectedAt info)
    now 0 true.

Definition new_info (key user : string) (now : Z) : ClientInfo :=
  mkClientInfo key user "" "" "" "" "" "" now 0 0 false.

(** [Register]: the registry, the key and whether it conflicts. *)
Definition Register (cr : ClientRegistry) (now : Z) (m : Login) :
    ClientRegistry * (string * bool) :=
  if String.eqb (l_runID m) "" then (cr, ("", false))
  else
    let key := login_key m in
    match clients cr !! key with
    | Some info =>
        if conflicts m info then (cr, (key, true))
        else
          let runIndex :=
            if String.eqb (RunID info) "" then runIndex cr else delete (RunID info) (runIndex cr) in
          (mkRegistry (<[key := register_info m now info]> (clients cr))
             (<[l_runID m := key]> runIndex), (key, false))
    | None =>
        let info := new_info key (l_user m) now in
        (mkRegistry (<[key := register_info m now info]> (clients cr))
           (<[l_runID m := key]> (runIndex cr)), (key, false))
    end.

(** The assignments of [MarkOfflineByRunID] to an entry with an explicit id. *)
Definition offline_info (now : Z) (info : ClientInfo) : ClientInfo :=
  mkClientInfo (Key info) (User info) (RawClientID info) "" (Hostname info) (IP info)
    (Version info) (WireProtocol info) (FirstConnectedAt info) (LastConnectedAt info)
    now false.

Definition MarkOfflineByRunID (cr : ClientRegistry) (now : Z) (runID : string) : ClientRegistry :=
  match runIndex cr !! runID with
  | None => cr
  | Some key =>
      let clients' :=
        match clients cr !! key with
        | Some info =>
            if String.eqb (RunID info) runID then
              if String.eqb (RawClientID info) "" then delete key (clients cr)
              else <[key := offline_info now info]> (clients cr)
            else clients cr
        | None => clients cr
        end in
      mkRegistry clients' (delete runID (runIndex cr))
  end.

(** [List]: a snapshot of the entries, in the map's iteration order. *)
Definition List (cr : ClientRegistry) : list ClientInfo := (map_to_list (clients cr)).*2.

Definition GetByKey (cr : ClientRegistry) (key : string) : option ClientInfo := clients cr !! key.

Definition ClientID (info : ClientInfo) : string :=
  if String.eqb (RawClientID info) "" then RunID info else RawClientID info.

(** The calls that change the registry. *)
Inductive step : ClientRegistry → ClientRegistry → Prop :=
| step_register cr now m cr' r : Register cr now m = (cr', r) → step cr cr'
| step_offline cr now runID : step cr (MarkOfflineByRunID cr now runID).

(** The same, with run ids that are not in use under another key. *)
Inductive fresh_step : ClientRegistry → ClientRegistry → Prop :=
| fresh_register cr now m cr' r :
    (∀ k, runIndex cr !! l_runID m = Some k → k = login_key m) →
    Register cr now m = (cr', r) → fresh_step cr cr'
| fresh_offline cr now runID : fresh_step cr (MarkOfflineByRunID cr now runID).

(** ** Well-formedness of the entries *)

Record entry_ok (k : string) (i : ClientInfo) : Prop := {
  entry_key : Key i = k;
  entry_online : Online i = true ↔ RunID i ≠ "";
  entry_anon : RawClientID i = "" → Online i = true
}.

Definition entries_ok (cr : ClientRegistry) : Prop :=
  map_Forall entry_ok (clients cr).

Lemma register_info_ok k m now i :
  l_runID m ≠ "" → Key i = k → entry_ok k (register_info m now i).
Proof. intros ? <-. by constructor. Qed.

Lemma entries_ok_Register cr now m cr' r :
  entries_ok cr → Register cr now m = (cr', r) → entries_ok cr'.
Proof.
  intros Hok. unfold Register. destruct (String.eqb_spec (l_runID m) "") as [|Hne].
  { by intros [= <- <-]. }
  destruct (clients cr !! login_key m) as [info|] eqn:Hi.
  - destruct (conflicts m info); intros [= <- <-]; [done|].
    apply map_Forall_insert_2; [|done]. apply register_info_ok; [done|]. by apply Hok in Hi as [].
  - intros [= <- <-]. apply map_Forall_insert_2; [|done]. by apply register_info_ok.
Qed.

Lemma entries_ok_offline cr now runID : entries_ok cr → entries_ok (MarkOfflineByRunID cr now runID).
Proof.
  intros Hok. unfold MarkOfflineByRunID. destruct (runIndex cr !! runID) as [key|]; [|done].
  unfold entries_ok. simpl. destruct (clients cr !! key) as [info|] eqn:Hi; [|done].
  destruct (String.eqb (RunID info) runID); [|done].
  destruct (String.eqb_spec (RawClientID info) "") as [|Hne].
  - by apply map_Forall_delete.
  - apply map_Forall_insert_2; [|done]. apply Hok in Hi as [Hk Ho Ha]. by constructor.
Qed.

Lemma entries_ok_step cr cr' : entries_ok cr → step cr cr' → entries_ok cr'.
Proof.
  intros Hok Hs. destruct Hs; [by eapply entries_ok_Register|by apply entries_ok_offline].
Qed.

Lemma fresh_step_step cr cr' : fresh_step cr cr' → step cr cr'.
Proof. intros Hs. destruct Hs; by econstructor. Qed.

(** ** The index *)

(** Run ids in the index and online entries correspond one to one. *)
Definition indexed (cr : ClientRegistry) : Prop :=
  ∀ run key, runIndex cr !! run = Some key ↔
    ∃ i, clients cr !! key = Some i ∧ Online i = true ∧ RunID i = run.

Lemma indexed_run_empty cr key :
  entries_ok cr → indexed cr → runIndex cr !! "" ≠ Some key.
Proof.
  intros Hok Hidx (i & Hi & Ho & Hr)%Hidx. apply Hok in Hi as [_ Hon _]. by apply Hon in Ho.
Qed.

(** [Register] with the index entry [ro] of the key's previous run removed. *)
Lemma indexed_insert cr idx m now i0 :
  indexed cr →
  (∀ k, runIndex cr !! l_runID m = Some k → k = login_key m) →
  (∀ run key, idx !! run = Some key ↔
     runIndex cr !! run = Some key ∧ key ≠ login_key m) →
  indexed (mkRegistry (<[login_key m := register_info m now i0]> (clients cr))
             (<[l_runID m := login_key m]> idx)).
Proof.
  intros Hidx Hfresh Hdel run key. simpl.
  destruct (decide (key = login_key m)) as [->|Hne].
  - rewrite lookup_insert_eq. destruct (decide (run = l_runID m)) as [->|Hr].
    + rewrite lookup_insert_eq. split; [|done]. intros _. by eexists.
    + rewrite lookup_insert_ne, Hdel by done. split; [by intros [_ ?]|].
      intros (i & [= <-] & _ & Heq). simpl in Heq. done.
  - rewrite (lookup_insert_ne (clients cr)) by done. rewrite <- (Hidx run key).
    destruct (decide (run = l_runID m)) as [->|Hr].
    + rewrite lookup_insert_eq. split; [by intros [= <-]|]. intros Hk%Hfresh. done.
    + rewrite lookup_insert_ne, Hdel by done. naive_solver.
Qed.

Lemma indexed_delete_run cr key info :
  entries_ok cr → indexed cr → clients cr !! key = Some info →
  ∀ run key', (if String.eqb (RunID info) "" then runIndex cr else delete (RunID info) (runIndex cr))
                !! run = Some key' ↔ runIndex cr !! run = Some key' ∧ key' ≠ key.
Proof.
  intros Hok Hidx Hi run key'. destruct (Hok _ _ Hi) as [_ Hon _].
  destruct (String.eqb_spec (RunID info) "") as [He|Hne].
  - split; [|by intros [? _]]. intros Hr. split; [done|]. intros ->.
    apply Hidx in Hr as (i & Hi' & Ho & _). assert (i = info) as -> by congruence.
    by apply Hon in Ho.
  - assert (runIndex cr !! RunID info = Some key) as Hcur.
    { apply Hidx. exists info. naive_solver. }
    destruct (decide (RunID info = run)) as [<-|Hr].
    + rewrite lookup_delete_eq, Hcur. naive_solver.
    + rewrite lookup_delete_ne by done. split; [|by intros [? _]].
      intros Hk. split; [done|]. intros ->. apply Hidx in Hk as (i & Hi' & _ & Heq). congruence.
Qed.

Lemma indexed_Register cr now m cr' r :
  entries_ok cr → indexed cr →
  (∀ k, runIndex cr !! l_runID m = Some k → k = login_key m) →
  Register cr now m = (cr', r) → indexed cr'.
Proof.
  intros Hok Hidx Hfresh. unfold Register.
  destruct (String.eqb (l_runID m) ""); [by intros [= <- <-]|].
  destruct (clients cr !! login_key m) as [info|] eqn:Hi.
  - destruct (conflicts m info); intros [= <- <-]; [done|].
    apply indexed_insert; [done..|]. by apply indexed_delete_run.
  - intros [= <- <-]. apply indexed_insert; [done..|]. intros run key.
    split; [|by intros [? _]]. intros Hk. split; [done|]. intros ->.
    apply Hidx in Hk as (i & Hi' & _). congruence.
Qed.

Lemma indexed_offline cr now run :
  entries_ok cr → indexed cr → indexed (MarkOfflineByRunID cr now run).
Proof.
  intros Hok Hidx. unfold MarkOfflineByRunID.
  destruct (runIndex cr !! run) as [key|] eqn:Hrun; [|done].
  pose proof Hrun as (info & Hi & Ho & Hr)%Hidx. rewrite Hi, <- Hr, String.eqb_refl.
  intros run' key'. simpl. destruct (decide (key' = key)) as [->|Hne].
  - assert (delete (RunID info) (runIndex cr) !! run' = Some key ↔ False) as ->.
    { split; [|done]. intros [Hd Hk]%lookup_delete_Some.
      apply Hidx in Hk as (i & Hi' & _ & Heq). congruence. }
    split; [done|]. intros (i & Hi' & Hon & _).
    destruct (String.eqb (RawClientID info) ""); [by rewrite lookup_delete_eq in Hi'|].
    rewrite lookup_insert_eq in Hi'. by simplify_eq/=.
  - assert ((if String.eqb (RawClientID info) "" then delete key (clients cr)
             else <[key := offline_info now info]> (clients cr)) !! key' = clients cr !! key') as ->.
    { destruct (String.eqb _ _); [by rewrite lookup_delete_ne|by rewrite lookup_insert_ne]. }
    rewrite <- (Hidx run' key'), lookup_delete_Some. split; [by intros [_ ?]|].
    intros Hk. split; [|done]. intros <-. rewrite Hr in Hk. congruence.
Qed.

Definition reg_inv (cr : ClientRegistry) : Prop := entries_ok cr ∧ indexed cr.

Lemma reg_inv_New : reg_inv NewClientRegistry.
Proof.
  split; [apply map_Forall_empty|]. intros run key. simpl. rewrite lookup_empty.
  split; [done|]. intros (i & Hi & _). by rewrite lookup_empty in Hi.
Qed.

Lemma reg_inv_step cr cr' : reg_inv cr → fresh_step cr cr' → reg_inv cr'.
Proof.
  intros [Hok Hidx] Hs. split; [by eapply entries_ok_step, fresh_step_step|].
  destruct Hs; [by eapply indexed_Register|by apply indexed_offline].
Qed.

(** ** The registry's theorems *)

(** As long as no login reuses a run id that is indexed under another
    key, the index and the online clients correspond one to one at every
    moment: a run id is indexed to a key exactly when the client under that
    key is online with that run id. *)
Theorem registry_index_consistent (cr : ClientRegistry) (run key : string) :
  rtc fresh_step NewClientRegistry cr →
  (runIndex cr !! run = Some key ↔
   ∃ i, clients cr !! key = Some i ∧ Online i = true ∧ RunID i = run).
Proof.
  intros Hr. assert (reg_inv cr) as [_ Hidx]; [|apply Hidx].
  eapply (rtc_invariant fresh_step); [apply reg_inv_step|exact Hr|apply reg_inv_New].
Qed.

(** [Register] never displaces an online client that has an explicit
    client id: it reports a conflict exactly when the key's client is online
    under another run id and the login carries an explicit id, and then
    changes nothing; otherwise the login's data is stored under its key and
    indexed by its run id, the time of the first connection is kept, and every
    other entry is untouched. *)
Theorem register_outcome (cr : ClientRegistry) (now : Z) (m : Login) :
  rtc step NewClientRegistry cr → l_runID m ≠ "" → now ≠ 0 →
  let '(cr', (key, conflict)) := Register cr now m in
  key = login_key m ∧
  (conflict = true ↔
     l_rawClientID m ≠ "" ∧
     ∃ i, clients cr !! key = Some i ∧ Online i = true ∧ RunID i ≠ l_runID m) ∧
  (conflict = true → cr' = cr) ∧
  (conflict = false →
     runIndex cr' !! l_runID m = Some key ∧
     (∀ k, k ≠ key → clients cr' !! k = clients cr !! k) ∧
     ∃ i, clients cr' !! key = Some i ∧ Online i = true ∧ RunID i = l_runID m ∧
          RawClientID i = l_rawClientID m ∧ DisconnectedAt i = 0 ∧ LastConnectedAt i = now ∧
          FirstConnectedAt i = match clients cr !! key with
                               | Some i0 => if FirstConnectedAt i0 =? 0 then now else FirstConnectedAt i0
                               | None => now
                               end).
Proof.
  intros Hr Hne Hnow.
  assert (entries_ok cr) as Hok.
  { eapply (rtc_invariant step); [apply entries_ok_step|exact Hr|apply reg_inv_New]. }
  unfold Register. rewrite (proj2 (String.eqb_neq _ _) Hne).
  destruct (clients cr !! login_key m) as [info|] eqn:Hi.
  - assert (conflicts m info = true ↔
      l_rawClientID m ≠ "" ∧ Online info = true ∧ RunID info ≠ l_runID m) as Hc.
    { apply Hok in Hi as [_ Hon _]. unfold conflicts.
      rewrite !andb_true_iff, !negb_true_iff, !String.eqb_neq. naive_solver. }
    destruct (conflicts m info).
    { split_and!; [done| |done|done]. split; [|done]. intros _.
      destruct (proj1 Hc eq_refl) as (? & ? & ?). eauto. }
    split_and!; [done| |done|].
    { split; [done|]. intros (? & i & Hi' & ? & ?). apply Hc. simplify_eq/=. auto. }
    intros _. simpl. split_and!; [by rewrite lookup_insert_eq| |].
    { intros k Hk. by rewrite lookup_insert_ne. }
    rewrite lookup_insert_eq, Hi. eexists. by split_and!.
  - split_and!; [done| |done|].
    { split; [done|]. intros (_ & i & Hi' & _). simplify_eq/=. }
    intros _. simpl. split_and!; [by rewrite lookup_insert_eq| |].
    { intros k Hk. by rewrite lookup_insert_ne. }
    rewrite lookup_insert_eq, Hi. eexists. split_and!; try done. simpl.
    by rewrite (proj2 (Z.eqb_neq _ _) Hnow).
Qed.

(** Disconnecting: [MarkOfflineByRunID] of an online client's run id
    takes that run out of the index and, for a client with an explicit id,
    keeps its record marked offline with the time and without a run id, while
    a client without one is forgotten; other clients are untouched. *)
Theorem mark_offline_outcome (cr : ClientRegistry) (now : Z) (key : string) (i : ClientInfo) :
  rtc fresh_step NewClientRegistry cr →
  clients cr !! key = Some i → Online i = true →
  let cr' := MarkOfflineByRunID cr now (RunID i) in
  runIndex cr' !! RunID i = None ∧
  (∀ k, k ≠ key → clients cr' !! k = clients cr !! k) ∧
  (RawClientID i = "" → clients cr' !! key = None) ∧
  (RawClientID i ≠ "" → clients cr' !! key = Some (offline_info now i)).
Proof.
  intros Hr Hi Ho cr'. assert (reg_inv cr) as [Hok Hidx].
  { eapply (rtc_invariant fresh_step); [apply reg_inv_step|exact Hr|apply reg_inv_New]. }
  assert (runIndex cr !! RunID i = Some key) as Hrun by (apply Hidx; eauto).
  subst cr'. unfold MarkOfflineByRunID. rewrite Hrun, Hi, String.eqb_refl. simpl.
  rewrite lookup_delete_eq. destruct (String.eqb_spec (RawClientID i) "") as [He|Hne].
  - split_and!; [done| |by rewrite lookup_delete_eq|done].
    intros k Hk. by rewrite lookup_delete_ne.
  - split_and!; [done| |done|by rewrite lookup_insert_eq].
    intros k Hk. by rewrite lookup_insert_ne.
Qed.

(** A run id shared by two client ids leaves a client online for good:
    there is a run of the registry after which the client "u.a" is online
    under run id "r", although the only connection with that run id has been
    marked offline and "r" is no longer indexed, so no later disconnection of
    "r" can mark it offline. *)
Theorem shared_run_id_stays_online :
  ∃ (cr : ClientRegistry) (i : ClientInfo),
    rtc step NewClientRegistry cr ∧ runIndex cr = ∅ ∧
    clients cr !! "u.a" = Some i ∧ Online i = true ∧ RunID i = "r" ∧
    ∀ now, MarkOfflineByRunID cr now "r" = cr.
Proof.
  set (la := mkLogin "u" "a" "r" "" "" "" "").
  set (lb := mkLogin "u" "b" "r" "" "" "" "").
  set (c1 := (Register NewClientRegistry 1 la).1).
  set (c2 := (Register c1 2 lb).1).
  set (c3 := MarkOfflineByRunID c2 3 "r").
  exists c3, (register_info la 1 (new_info "u.a" "u" 1)). split_and!; [|vm_compute; reflexivity..|].
  - eapply rtc_l; [apply (step_register _ 1 la _ _ (surjective_pairing _))|].
    eapply rtc_l; [apply (step_register _ 2 lb _ _ (surjective_pairing _))|].
    apply rtc_once, step_offline.
  - intros now. unfold MarkOfflineByRunID. by replace (runIndex c3) with (∅ : gmap string string).
Qed.

(** ** Witnesses *)

Definition demo_login : Login := mkLogin "alice" "laptop" "r1" "host" "v1" "10.0.0.1" "v2".
Definition demo_reg : ClientRegistry := (Register NewClientRegistry 5 demo_login).1.
Definition demo_info : ClientInfo := register_info demo_login 5 (new_info "alice.laptop" "alice" 5).

Lemma demo_reg_fresh : rtc fresh_step NewClientRegistry demo_reg.
Proof.
  eapply rtc_once, (fresh_register _ 5 demo_login _ _); [|apply surjective_pairing].
  intros k Hk. simpl in Hk. by rewrite lookup_empty in Hk.
Qed.

Lemma registry_index_consistent_witness :
  ∃ i, clients demo_reg !! "alice.laptop" = Some i ∧ Online i = true ∧ RunID i = "r1".
Proof.
  apply (registry_index_consistent demo_reg "r1" "alice.laptop" demo_reg_fresh).
  vm_compute. reflexivity.
Defined.

Lemma register_outcome_witness :
  (Register demo_reg 9 (mkLogin "alice" "laptop" "r2" "" "" "" "")).2.2 = true.
Proof.
  pose proof (register_outcome demo_reg 9 (mkLogin "alice" "laptop" "r2" "" "" "" "")) as H.
  destruct (Register demo_reg 9 _) as [cr' [key conflict]] eqn:Hreg.
  destruct H as (-> & Hc & _); [|done|done|].
  - eapply rtc_once, (step_register _ 5 demo_login _ _ (surjective_pairing _)).
  - apply Hc. split; [done|]. exists demo_info. vm_compute. by split_and!.
Defined.

Lemma mark_offline_outcome_witness :
  clients (MarkOfflineByRunID demo_reg 7 "r1") !! "alice.laptop" = Some (offline_info 7 demo_info).
Proof.
  apply (mark_offline_outcome demo_reg 7 "alice.laptop" demo_info demo_reg_fresh).
  - vm_compute. reflexivity.
  - reflexivity.
  - discriminate.
Defined.

End Registry.
