(* ===== verification/Wire.v ===== *)
(** Wire protocol v2, pkg/proto/wire/wire.go and crypto.go: framing, the magic
    that tells v2 from v1, and the negotiation of the connection's crypto.

    The reading side of a connection is the list of bytes the peer will have
    sent, an exhausted list being end of file; the writing side is a [Writer],
    the bytes accepted so far and how many more the transport accepts before
    its writes fail. *)
From Stdlib Require Import ZArith Lia Strings.Byte String.
From stdpp Require Import base gmap strings list fin_maps.
From S2P Require Import Prelude GoLib.

Local Open Scope Z_scope.
Local Open Scope frp_scope.

Module Wire.

Inductive error :=
| ErrEOF
| ErrUnexpectedEOF
| ErrWrite
| ErrFrameFlags (flags : Z)
| ErrFrameLength (length limit : Z)
| ErrFrameType (got want : Z)
| ErrMarshal
| ErrUnmarshal
| ErrNoCodec
| ErrClientRandomLength (n : Z)
| ErrNoAlgorithm
| ErrSelectedCodec (codec : string)
| ErrUnknownAlgorithm (algorithm : string)
| ErrNotAdvertised (algorithm : string)
| ErrServerRandomLength (n : Z)
| ErrRandom.

(** ** Byte streams *)

(** [io.ReadFull] of [n] bytes: the rest of the stream and the bytes. *)
Definition ReadFull (s : list byte) (n : nat) : list byte * res error (list byte) :=
  if decide (n ≤ length s)%nat then (drop n s, Ok (take n s))
  else ([], Err (match s with [] => ErrEOF | _ => ErrUnexpectedEOF end)).

Record Writer := mkWriter { written : list byte; room : nat }.

(** [Write]: everything, or what fits and an error. *)
Definition Write (w : Writer) (p : list byte) : Writer * res error unit :=
  if decide (length p ≤ room w)%nat
  then (mkWriter (written w ++ p) (room w - length p), Ok tt)
  else (mkWriter (written w ++ take (room w) p) 0, Err ErrWrite).

(** ** Frames *)

Definition ProtocolV1 : string := "v1".
Definition ProtocolV2 : string := "v2".
Definition FrameTypeClientHello : Z := 1.
Definition FrameTypeServerHello : Z := 2.
Definition FrameTypeMessage : Z := 16.
Definition MessageCodecJSON : string := "json".
Definition DefaultMaxFramePayloadSize : Z := 64 * 1024.
(** "FRP\x00\x02\r\n" *)
Definition MagicV2 : list byte := [x46; x52; x50; x00; x02; x0d; x0a].

Record Frame := mkFrame { Type_ : Z; Flags : Z; Payload : list byte }.

(** [Conn]: only the limit, the stream being threaded through. *)
Record Conn := mkConn { maxFramePayloadSize : Z }.

Definition NewConn : Conn := mkConn DefaultMaxFramePayloadSize.

Definition ReadFrame (c : Conn) (s : list byte) : list byte * res error Frame :=
  let '(s, header) := ReadFull s 8 in
  match header with
  | Err e => (s, Err e)
  | Ok header =>
      let frameType := be_get (take 2 header) in
      let flags := be_get (take 2 (drop 2 header)) in
      let length := be_get (take 4 (drop 4 header)) in
      if negb (flags =? 0) then (s, Err (ErrFrameFlags flags))
      else if maxFramePayloadSize c <? length
      then (s, Err (ErrFrameLength length (maxFramePayloadSize c)))
      else
        let '(s, payload) := ReadFull s (Z.to_nat length) in
        match payload with
        | Err e => (s, Err e)
        | Ok payload => (s, Ok (mkFrame frameType flags payload))
        end
  end.

Definition WriteFrame (c : Conn) (w : Writer) (f : Frame) : Writer * res error unit :=
  if negb (Flags f =? 0) then (w, Err (ErrFrameFlags (Flags f)))
  else if maxFramePayloadSize c <? Z.of_nat (length (Payload f))
  then (w, Err (ErrFrameLength (Z.of_nat (length (Payload f))) (maxFramePayloadSize c)))
  else
    let header := be_put 2 (Type_ f) ++ be_put 2 (Flags f) ++
                  be_put 4 (Z.of_nat (length (Payload f))) in
    let '(w, r) := Write w header in
    match r with
    | Err e => (w, Err e)
    | Ok _ => Write w (Payload f)
    end.

(** ** JSON frames

    [encoding/json] for a type [T]: [json.Marshal] and [json.Unmarshal] into
    a fresh value of the type. *)
Class JSON (T : Type) := {
  marshal : T → option (list byte);
  unmarshal : list byte → option T
}.

(** A value that survives: decoding its encoding gives it back. This is
    [encoding/json]'s behaviour on structs of the kind used here whose strings
    are valid UTF-8 (other bytes are replaced by U+FFFD). *)
Definition faithful {T} `{JSON T} (x : T) : Prop :=
  ∀ b, marshal x = Some b → unmarshal b = Some x.

Definition UnmarshalFrame {T} `{JSON T} (f : Frame) : res error T :=
  match unmarshal (Payload f) with Some x => Ok x | None => Err ErrUnmarshal end.

Definition ReadJSONFrame {T} `{JSON T} (c : Conn) (s : list byte) (frameType : Z) :
    list byte * res error T :=
  let '(s, f) := ReadFrame c s in
  match f with
  | Err e => (s, Err e)
  | Ok f =>
      if negb (Type_ f =? frameType) then (s, Err (ErrFrameType (Type_ f) frameType))
      else (s, UnmarshalFrame f)
  end.

Definition NewJSONFrame {T} `{JSON T} (frameType : Z) (x : T) : res error Frame :=
  match marshal x with
  | None => Err ErrMarshal
  | Some payload => Ok (mkFrame frameType 0 payload)
  end.

Definition WriteJSONFrame {T} `{JSON T} (c : Conn) (w : Writer) (frameType : Z) (x : T) :
    Writer * res error unit :=
  match NewJSONFrame frameType x with
  | Err e => (w, Err e)
  | Ok f => WriteFrame c w f
  end.

(** ** The magic *)

Definition WriteMagic (w : Writer) : Writer * res error unit := Write w MagicV2.

Definition WriteMagicIfV2 (w : Writer) (wireProtocol : string) : Writer * res error unit :=
  if negb (String.eqb wireProtocol ProtocolV2) then (w, Ok tt) else WriteMagic w.

(** [libnet.NewSharedConnSize(conn, n)] (github.com/fatedier/golib): what a
    reader of the shared connection sees once [consumed] was read through the
    attached reader and [rest] is still to come. *)
Class SharedConn := shared_view : list byte → list byte → list byte.

(** It replays the consumed bytes. *)
Class SharedConnLaws `{SharedConn} : Prop :=
  shared_view_replays : ∀ consumed rest, shared_view consumed rest = consumed ++ rest.

(** The comparison loop of [CheckMagic]. *)
Fixpoint same_bytes (magic buf : list byte) : bool :=
  match magic, buf with
  | [], _ => true
  | m :: magic', b :: buf' => if Byte.eqb b m then same_bytes magic' buf' else false
  | _ :: _, [] => false
  end.

(** The connection to go on with and whether it speaks v2. *)
Definition CheckMagic `{SharedConn} (s : list byte) : res error (list byte * bool) :=
  let '(rest, buf) := ReadFull s (length MagicV2) in
  match buf with
  | Err e => Err e
  | Ok buf => if same_bytes MagicV2 buf then Ok (rest, true) else Ok (shared_view buf rest, false)
  end.

(** ** Negotiation *)

Definition AEADAlgorithmAES256GCM : string := "aes-256-gcm".
Definition AEADAlgorithmXChaCha20Poly1305 : string := "xchacha20-poly1305".
Definition CryptoRandomSize : nat := 32.
Definition supportedAEADAlgorithms : list string :=
  [AEADAlgorithmAES256GCM; AEADAlgorithmXChaCha20Poly1305].

Record BootstrapInfo := mkBootstrap { Transport : string; TLS : bool; TCPMux : bool }.
Record MessageCapabilities := mkMessageCap { Codecs : list string }.
Record CryptoCapabilities := mkCryptoCap { Algorithms : list string; ClientRandom : list byte }.
Record ClientCapabilities := mkClientCap {
  cap_Message : MessageCapabilities; cap_Crypto : CryptoCapabilities }.
Record ClientHello := mkClientHello {
  Bootstrap : BootstrapInfo; Capabilities : ClientCapabilities }.

Record MessageSelection := mkMessageSel { Codec : string }.
Record CryptoSelection := mkCryptoSel { Algorithm : string; ServerRandom : list byte }.
Record ServerSelection := mkServerSel {
  sel_Message : MessageSelection; sel_Crypto : CryptoSelection }.
Record ServerHello := mkServerHello { Selected : ServerSelection; hello_Error : string }.

(** The processor features [hasFastAESGCM] looks at. *)
Record CPU := mkCPU {
  GOARCH : string;
  X86_HasAES : bool; X86_HasPCLMULQDQ : bool; X86_HasSSE41 : bool; X86_HasSSSE3 : bool;
  ARM64_HasAES : bool; ARM64_HasPMULL : bool;
  S390X_HasAES : bool; S390X_HasAESCTR : bool; S390X_HasGHASH : bool
}.

Definition hasFastAESGCM (cpu : CPU) : bool :=
  if String.eqb (GOARCH cpu) "amd64" then
    X86_HasAES cpu && X86_HasPCLMULQDQ cpu && X86_HasSSE41 cpu && X86_HasSSSE3 cpu
  else if String.eqb (GOARCH cpu) "arm64" then ARM64_HasAES cpu && ARM64_HasPMULL cpu
  else if String.eqb (GOARCH cpu) "s390x" then
    S390X_HasAES cpu && S390X_HasAESCTR cpu && S390X_HasGHASH cpu
  else String.eqb (GOARCH cpu) "ppc64" || String.eqb (GOARCH cpu) "ppc64le".

Definition PreferredAEADAlgorithms (cpu : CPU) : list string :=
  if hasFastAESGCM cpu
  then [AEADAlgorithmAES256GCM; AEADAlgorithmXChaCha20Poly1305]
  else [AEADAlgorithmXChaCha20Poly1305; AEADAlgorithmAES256GCM].

Definition Supports (l : list string) (value : string) : bool := bool_decide (value ∈ l).

Definition IsSupportedAEADAlgorithm (algorithm : string) : bool :=
  Supports supportedAEADAlgorithms algorithm.

Definition SelectAEADAlgorithm (clientAlgorithms : list string) : option string :=
  first_match IsSupportedAEADAlgorithm clientAlgorithms.

(** [newCryptoRandom], [random] being what [rand.Read] filled the buffer
    with, [None] when it failed. *)
Definition newCryptoRandom (random : option (list byte)) : res error (list byte) :=
  match random with Some b => Ok b | None => Err ErrRandom end.

Definition clientHelloWithCryptoRandom (cpu : CPU) (bootstrap : BootstrapInfo)
    (clientRandom : list byte) : ClientHello :=
  mkClientHello bootstrap
    (mkClientCap (mkMessageCap [MessageCodecJSON])
       (mkCryptoCap (PreferredAEADAlgorithms cpu) clientRandom)).

Definition NewClientHello (cpu : CPU) (random : option (list byte)) (bootstrap : BootstrapInfo) :
    res error ClientHello :=
  let? clientRandom := newCryptoRandom random in
  Ok (clientHelloWithCryptoRandom cpu bootstrap clientRandom).

Definition DefaultServerHello : ServerHello :=
  mkServerHello (mkServerSel (mkMessageSel MessageCodecJSON) (mkCryptoSel "" [])) "".

Definition ValidateCryptoCapabilities (c : CryptoCapabilities) : res error unit :=
  if negb (Nat.eqb (length (ClientRandom c)) CryptoRandomSize)
  then Err (ErrClientRandomLength (Z.of_nat (length (ClientRandom c))))
  else match SelectAEADAlgorithm (Algorithms c) with
       | None => Err ErrNoAlgorithm
       | Some _ => Ok tt
       end.

Definition ValidateClientHello (h : ClientHello) : res error unit :=
  if negb (Supports (Codecs (cap_Message (Capabilities h))) MessageCodecJSON)
  then Err ErrNoCodec
  else ValidateCryptoCapabilities (cap_Crypto (Capabilities h)).

Definition NewServerHello (random : option (list byte)) (clientHello : ClientHello) :
    res error ServerHello :=
  let? _ := ValidateClientHello clientHello in
  match SelectAEADAlgorithm (Algorithms (cap_Crypto (Capabilities clientHello))) with
  | None => Err ErrNoAlgorithm
  | Some algorithm =>
      let? serverRandom := newCryptoRandom random in
      Ok (mkServerHello
            (mkServerSel (mkMessageSel MessageCodecJSON) (mkCryptoSel algorithm serverRandom)) "")
  end.

Definition ValidateServerHelloForClient (clientHello : ClientHello) (serverHello : ServerHello) :
    res error unit :=
  let codec := Codec (sel_Message (Selected serverHello)) in
  if negb (String.eqb codec MessageCodecJSON) then Err (ErrSelectedCodec codec)
  else
    let cryptoSelection := sel_Crypto (Selected serverHello) in
    if negb (IsSupportedAEADAlgorithm (Algorithm cryptoSelection))
    then Err (ErrUnknownAlgorithm (Algorithm cryptoSelection))
    else if negb (Supports (Algorithms (cap_Crypto (Capabilities clientHello))) (Algorithm cryptoSelection))
    then Err (ErrNotAdvertised (Algorithm cryptoSelection))
    else if negb (Nat.eqb (length (ServerRandom cryptoSelection)) CryptoRandomSize)
    then Err (ErrServerRandomLength (Z.of_nat (length (ServerRandom cryptoSelection))))
    else Ok tt.

Record CryptoContext := mkCryptoContext { ctx_Algorithm : string; TranscriptHash : list byte }.

Definition cryptoTranscriptLabel : list byte :=
  list_byte_of_string "frp wire v2 crypto transcript".

(** The writes of [writeCryptoTranscriptPart]. *)
Definition writeCryptoTranscriptPart (label : string) (payload : list byte) : list byte :=
  [x00] ++ list_byte_of_string label ++ [x00] ++ be_put 8 (Z.of_nat (length payload)) ++ payload.

(** What [HashCryptoTranscript] feeds to SHA-256. *)
Definition transcript (clientHelloPayload serverHelloPayload : list byte) : list byte :=
  cryptoTranscriptLabel ++
  writeCryptoTranscriptPart "client hello" clientHelloPayload ++
  writeCryptoTranscriptPart "server hello" serverHelloPayload.

Definition HashCryptoTranscript (sha256 : list byte → list byte)
    (clientHelloPayload serverHelloPayload : list byte) : list byte :=
  sha256 (transcript clientHelloPayload serverHelloPayload).

Definition NewCryptoContext (sha256 : list byte → list byte) (algorithm : string)
    (clientHelloPayload serverHelloPayload : list byte) : CryptoContext :=
  mkCryptoContext algorithm (HashCryptoTranscript sha256 clientHelloPayload serverHelloPayload).

Definition NewClientCryptoContext `{JSON ClientHello, JSON ServerHello}
    (sha256 : list byte → list byte) (clientHelloPayload serverHelloPayload : list byte) :
    res error CryptoContext :=
  match unmarshal clientHelloPayload with
  | None => Err ErrUnmarshal
  | Some clientHello =>
      match unmarshal serverHelloPayload with
      | None => Err ErrUnmarshal
      | Some serverHello =>
          let? _ := ValidateServerHelloForClient clientHello serverHello in
          Ok (NewCryptoContext sha256 (Algorithm (sel_Crypto (Selected serverHello)))
                clientHelloPayload serverHelloPayload)
      end
  end.

(** ** Reading back what was written *)

Lemma ReadFull_app a r n : n = length a → ReadFull (a ++ r) n = (r, Ok a).
Proof.
  intros ->. unfold ReadFull. rewrite decide_True by (rewrite length_app; lia).
  by rewrite drop_app_length, take_app_length.
Qed.

Lemma ReadFull_Ok s n rest b : ReadFull s n = (rest, Ok b) → s = b ++ rest ∧ length b = n.
Proof.
  unfold ReadFull. case_decide; intros [= <- <-].
  split; [by rewrite take_drop|]. rewrite length_take. lia.
Qed.

Lemma Write_Ok w p w' u : Write w p = (w', Ok u) → written w' = written w ++ p.
Proof. unfold Write. case_decide; by intros [= <- <-]. Qed.

(** The bytes of a frame on the wire. *)
Definition frame_bytes (f : Frame) : list byte :=
  be_put 2 (Type_ f) ++ be_put 2 (Flags f) ++ be_put 4 (Z.of_nat (length (Payload f))) ++ Payload f.

(** A frame a connection may carry: the type is a uint16, no flags, the
    payload is within the limit, which is itself a uint32. *)
Record frame_ok (c : Conn) (f : Frame) : Prop := {
  frame_type_range : 0 ≤ Type_ f < 2 ^ 16;
  frame_flags : Flags f = 0;
  frame_size : Z.of_nat (length (Payload f)) ≤ maxFramePayloadSize c;
  frame_limit : maxFramePayloadSize c < 2 ^ 32
}.

Lemma ReadFrame_bytes c f rest :
  frame_ok c f → ReadFrame c (frame_bytes f ++ rest) = (rest, Ok f).
Proof.
  intros [Ht Hf Hs Hl]. unfold ReadFrame, frame_bytes.
  rewrite (app_assoc (be_put 2 _)), (app_assoc (_ ++ _)), <- app_assoc.
  rewrite ReadFull_app by (rewrite !length_app, !length_be_put; done).
  rewrite <- !app_assoc, take_app_length' by (by rewrite length_be_put).
  rewrite drop_app_length' by (by rewrite length_be_put).
  rewrite take_app_length' by (by rewrite length_be_put).
  rewrite app_assoc, drop_app_length' by (by rewrite length_app, !length_be_put).
  rewrite take_ge by (by rewrite length_be_put).
  rewrite !be_get_put, Hf by lia. simpl.
  rewrite (proj2 (Z.ltb_ge _ _)) by lia. rewrite Nat2Z.id, ReadFull_app by done.
  destruct f as [t fl p]. simpl in *. by subst.
Qed.

Lemma ReadFrame_Ok c s rest f :
  ReadFrame c s = (rest, Ok f) → maxFramePayloadSize c < 2 ^ 32 →
  s = frame_bytes f ++ rest ∧ frame_ok c f.
Proof.
  unfold ReadFrame. destruct (ReadFull s 8) as [s1 [h|e]] eqn:Hh; [|done].
  apply ReadFull_Ok in Hh as [-> Hlen].
  destruct (negb _) eqn:Hfl; [done|]. destruct (_ <? _) eqn:Hlim; [done|]. bool_to_prop.
  destruct (ReadFull s1 _) as [s2 [p|e]] eqn:Hp; [|done].
  apply ReadFull_Ok in Hp as [-> Hplen]. intros [= <- <-] Hmax.
  set (t := take 2 h) in *. set (fl := take 2 (drop 2 h)) in *. set (ln := take 4 (drop 4 h)) in *.
  assert (h = t ++ fl ++ ln) as Hsplit.
  { subst t fl ln. rewrite (take_ge (drop 4 h)) by (rewrite length_drop; lia).
    replace (drop 4 h) with (drop 2 (drop 2 h)) by (by rewrite drop_drop).
    by rewrite !take_drop. }
  assert (length t = 2%nat ∧ length fl = 2%nat ∧ length ln = 4%nat) as (Ht & Hf2 & Hl).
  { subst t fl ln. rewrite !length_take, !length_drop. lia. }
  pose proof (be_get_range ln) as Hr. pose proof (be_get_range t) as Hrt.
  rewrite Ht in Hrt. rewrite Hl in Hr.
  split; [|constructor; simpl; lia].
  unfold frame_bytes. cbn [Type_ Flags Payload]. rewrite Hplen, Z2Nat.id by lia.
  assert (∀ l n, length l = n → be_put n (be_get l) = l) as Hpg
    by (intros l n <-; apply be_put_get).
  by rewrite (Hpg t), (Hpg fl), (Hpg ln), Hsplit, <- !app_assoc by done.
Qed.

Lemma WriteFrame_Ok c w f w' u :
  WriteFrame c w f = (w', Ok u) →
  written w' = written w ++ frame_bytes f ∧ Flags f = 0 ∧
  Z.of_nat (length (Payload f)) ≤ maxFramePayloadSize c.
Proof.
  unfold WriteFrame. destruct (negb _) eqn:Hfl; [done|]. destruct (_ <? _) eqn:Hlim; [done|].
  destruct (Write w _) as [w1 [u1|e]] eqn:Hw; [|done]. intros Hw2.
  apply Write_Ok in Hw. apply Write_Ok in Hw2. bool_to_prop.
  split; [|done]. rewrite Hw2, Hw. unfold frame_bytes. by rewrite <- !app_assoc.
Qed.

(** A sequence of frames written one after the other, and read. *)
Fixpoint write_frames (c : Conn) (w : Writer) (fs : list Frame) : Writer * res error unit :=
  match fs with
  | [] => (w, Ok tt)
  | f :: fs' =>
      let '(w, r) := WriteFrame c w f in
      match r with Err e => (w, Err e) | Ok _ => write_frames c w fs' end
  end.

Fixpoint read_frames (c : Conn) (n : nat) (s : list byte) : list byte * res error (list Frame) :=
  match n with
  | O => (s, Ok [])
  | S n' =>
      let '(s, f) := ReadFrame c s in
      match f with
      | Err e => (s, Err e)
      | Ok f =>
          let '(s, fs) := read_frames c n' s in
          match fs with Err e => (s, Err e) | Ok fs => (s, Ok (f :: fs)) end
      end
  end.

Lemma write_frames_bytes c w fs w' u :
  write_frames c w fs = (w', Ok u) →
  written w' = written w ++ concat (frame_bytes <$> fs) ∧
  Forall (λ f, Flags f = 0 ∧ Z.of_nat (length (Payload f)) ≤ maxFramePayloadSize c) fs.
Proof.
  revert w. induction fs as [|f fs IH]; intros w; simpl.
  - intros [= <- <-]. by rewrite app_nil_r.
  - destruct (WriteFrame c w f) as [w1 [u1|e]] eqn:Hw; [|done].
    apply WriteFrame_Ok in Hw as (Hw & Hfl & Hsz). intros [Hw' Hfs]%IH.
    rewrite Hw', Hw, <- app_assoc. auto.
Qed.

Lemma read_frames_bytes c fs rest :
  Forall (frame_ok c) fs →
  read_frames c (length fs) (concat (frame_bytes <$> fs) ++ rest) = (rest, Ok fs).
Proof.
  induction 1 as [|f fs Hf Hfs IH]; [done|].
  rewrite fmap_cons. cbn [length read_frames concat].
  by rewrite <- app_assoc, ReadFrame_bytes, IH by done.
Qed.

(** C25. Framing round trip: frames written one after the other on a
    connection are read back, in order and unchanged, by a reader with the
    same limit, which stops exactly at the byte after the last frame. *)
Theorem frames_roundtrip (c : Conn) (w w' : Writer) (fs : list Frame) (u : unit) (rest : list byte) :
  Forall (λ f, 0 ≤ Type_ f < 2 ^ 16) fs → maxFramePayloadSize c < 2 ^ 32 →
  write_frames c w fs = (w', Ok u) →
  ∃ sent, written w' = written w ++ sent ∧
          read_frames c (length fs) (sent ++ rest) = (rest, Ok fs).
Proof.
  intros Ht Hl [Hw Hfs]%write_frames_bytes. eexists. split; [exact Hw|].
  apply read_frames_bytes. rewrite Forall_forall in Ht. rewrite Forall_forall in Hfs.
  apply Forall_forall. intros f Hin. destruct (Hfs f Hin). by constructor; [apply Ht|..].
Qed.

(** [ReadFrame] accepts exactly the encodings of valid frames: it
    returns a frame and a rest precisely when the stream is that frame's
    encoding followed by the rest and the frame has no flags and a payload
    within the connection's limit. *)
Theorem read_frame_exact (c : Conn) (s rest : list byte) (f : Frame) :
  maxFramePayloadSize c < 2 ^ 32 →
  ReadFrame c s = (rest, Ok f) ↔ s = frame_bytes f ++ rest ∧ frame_ok c f.
Proof.
  intros Hl. split; [intros Hr; by apply ReadFrame_Ok|].
  intros [-> Hok]. by apply ReadFrame_bytes.
Qed.

(** ** The magic *)

Lemma same_bytes_spec magic buf :
  length buf = length magic → same_bytes magic buf = true ↔ buf = magic.
Proof.
  revert buf. induction magic as [|m magic IH]; intros [|b buf]; simpl; try done.
  intros [= Hlen]. destruct (Byte.eqb b m) eqn:Hb.
  - apply Byte.byte_dec_bl in Hb as ->. rewrite IH by done. split; congruence.
  - split; [done|]. intros [= -> _]. by rewrite Byte.byte_dec_lb in Hb.
Qed.

(** [CheckMagic] recognises exactly the streams that start with the
    magic, leaving the bytes after it; on any other stream of at least the
    magic's length the connection handed on still delivers every byte; it
    fails exactly on a shorter stream. *)
Theorem check_magic_spec `{SharedConn, !SharedConnLaws} (s : list byte) :
  (∀ rest, CheckMagic s = Ok (rest, true) ↔ s = MagicV2 ++ rest) ∧
  (∀ out, CheckMagic s = Ok (out, false) → out = s) ∧
  (is_ok (CheckMagic s) = false ↔ (length s < length MagicV2)%nat).
Proof.
  unfold CheckMagic, ReadFull. case_decide as Hlen.
  - set (buf := take (length MagicV2) s). set (rest := drop (length MagicV2) s).
    assert (s = buf ++ rest) as Hs by (subst buf rest; by rewrite take_drop).
    assert (length buf = length MagicV2) as Hb by (subst buf; rewrite length_take; lia).
    clearbody buf rest. subst s.
    destruct (same_bytes MagicV2 buf) eqn:Hm.
    + apply same_bytes_spec in Hm; [|done]. split_and!; [|done|].
      * intros r. subst buf. split; [by intros [= ->]|].
        intros Heq%app_inv_head. by subst.
      * split; [done|lia].
    + split_and!.
      * intros r. split; [done|]. intros Heq.
        apply app_inj_1 in Heq as [Heq _]; [|done].
        apply (same_bytes_spec MagicV2 buf Hb) in Heq. congruence.
      * intros out [= <-]. by rewrite shared_view_replays.
      * split; [done|lia].
  - split_and!; [|done|].
    + intros rest. split; [done|]. intros ->. rewrite length_app in Hlen. lia.
    + split; [lia|done].
Qed.

(** ** Negotiation *)

Lemma SelectAEADAlgorithm_Some l a :
  SelectAEADAlgorithm l = Some a → a ∈ l ∧ IsSupportedAEADAlgorithm a = true.
Proof. apply first_match_elem_of. Qed.

Lemma Supports_elem l x : x ∈ l → Supports l x = true.
Proof. intros. by apply bool_decide_eq_true_2. Qed.

Lemma NewServerHello_Ok random ch sh :
  NewServerHello random ch = Ok sh →
  ∃ a rnd, SelectAEADAlgorithm (Algorithms (cap_Crypto (Capabilities ch))) = Some a ∧
    random = Some rnd ∧ ValidateClientHello ch = Ok tt ∧
    sh = mkServerHello (mkServerSel (mkMessageSel MessageCodecJSON) (mkCryptoSel a rnd)) "".
Proof.
  unfold NewServerHello. destruct (ValidateClientHello ch) as [[]|]; [|done].
  destruct (SelectAEADAlgorithm _) as [a|] eqn:Ha; [|done].
  destruct random as [rnd|]; simpl; [|done]. intros [= <-]. eauto 10.
Qed.

Lemma ValidateServerHello_selected ch a rnd :
  SelectAEADAlgorithm (Algorithms (cap_Crypto (Capabilities ch))) = Some a →
  length rnd = CryptoRandomSize →
  ValidateServerHelloForClient ch
    (mkServerHello (mkServerSel (mkMessageSel MessageCodecJSON) (mkCryptoSel a rnd)) "") = Ok tt.
Proof.
  intros [Hin Hsup]%SelectAEADAlgorithm_Some Hlen.
  unfold ValidateServerHelloForClient. simpl. by rewrite Hsup, Supports_elem, Hlen.
Qed.

(** Every client's own hello is valid. *)
Lemma ValidateClientHello_own cpu b rnd :
  length rnd = CryptoRandomSize →
  ValidateClientHello (clientHelloWithCryptoRandom cpu b rnd) = Ok tt.
Proof.
  intros Hlen. unfold ValidateClientHello, ValidateCryptoCapabilities. simpl. rewrite Hlen.
  unfold PreferredAEADAlgorithms. by destruct (hasFastAESGCM cpu).
Qed.

Lemma SelectAEADAlgorithm_own cpu :
  SelectAEADAlgorithm (PreferredAEADAlgorithms cpu) = head (PreferredAEADAlgorithms cpu).
Proof. unfold PreferredAEADAlgorithms. by destruct (hasFastAESGCM cpu). Qed.

(** The negotiation is sound: whatever a client offers, when the server
    answers with a hello (its random source having filled the buffer) the
    client's own check accepts that hello; the algorithm selected is the first
    of the client's list that the server supports. *)
Theorem server_hello_acceptable (rnd : list byte) (ch : ClientHello) (sh : ServerHello) :
  length rnd = CryptoRandomSize → NewServerHello (Some rnd) ch = Ok sh →
  ValidateServerHelloForClient ch sh = Ok tt ∧ hello_Error sh = "" ∧
  ∃ l1 l2, Algorithms (cap_Crypto (Capabilities ch)) =
             l1 ++ Algorithm (sel_Crypto (Selected sh)) :: l2 ∧
           Algorithm (sel_Crypto (Selected sh)) ∈ supportedAEADAlgorithms ∧
           Forall (λ a, a ∉ supportedAEADAlgorithms) l1.
Proof.
  intros Hlen (a & r & Ha & [= <-] & _ & ->)%NewServerHello_Ok.
  split; [by apply ValidateServerHello_selected|]. split; [done|]. simpl.
  apply first_match_Some in Ha as (l1 & l2 & -> & Hs & Hf). exists l1, l2.
  split_and!; [done|by apply bool_decide_eq_true in Hs|].
  eapply Forall_impl; [exact Hf|]. intros x Hx. by apply bool_decide_eq_false in Hx.
Qed.

(** ** The transcript *)

Lemma transcript_part_inj label p1 p2 r1 r2 :
  Z.of_nat (length p1) < 2 ^ 64 → Z.of_nat (length p2) < 2 ^ 64 →
  writeCryptoTranscriptPart label p1 ++ r1 = writeCryptoTranscriptPart label p2 ++ r2 →
  p1 = p2 ∧ r1 = r2.
Proof.
  intros H1 H2. unfold writeCryptoTranscriptPart. rewrite <- !app_assoc.
  intros Heq%app_inv_head%app_inv_head%app_inv_head.
  apply app_inj_1 in Heq as [Hl Heq]; [|by rewrite !length_be_put].
  apply be_put_inj in Hl; [|lia..]. by apply app_inj_1 in Heq; [|lia].
Qed.

(** The input of the hash determines both payloads. *)
Lemma transcript_inj (c1 s1 c2 s2 : list byte) :
  Z.of_nat (length c1) < 2 ^ 64 → Z.of_nat (length s1) < 2 ^ 64 →
  Z.of_nat (length c2) < 2 ^ 64 → Z.of_nat (length s2) < 2 ^ 64 →
  transcript c1 s1 = transcript c2 s2 → c1 = c2 ∧ s1 = s2.
Proof.
  intros ? ? ? ?. unfold transcript. intros Heq%app_inv_head.
  apply transcript_part_inj in Heq as [-> Heq]; [|done..]. split; [done|].
  rewrite <- (app_nil_r (writeCryptoTranscriptPart _ s1)),
    <- (app_nil_r (writeCryptoTranscriptPart _ s2)) in Heq.
  by apply transcript_part_inj in Heq as [-> _].
Qed.

(** ** Witnesses *)

Definition demo_frames : list Frame := [mkFrame 16 0 [x01; x02; x03]; mkFrame 1 0 []].

Lemma frames_roundtrip_witness :
  ∃ sent, written (write_frames NewConn (mkWriter [xff] 100) demo_frames).1 = [xff] ++ sent ∧
          read_frames NewConn 2 (sent ++ [x07]) = ([x07], Ok demo_frames).
Proof.
  apply (frames_roundtrip NewConn (mkWriter [xff] 100) _ demo_frames tt [x07]).
  - repeat constructor; simpl; lia.
  - reflexivity.
  - reflexivity.
Defined.

Lemma read_frame_exact_witness :
  ReadFrame NewConn ([x00; x10; x00; x00; x00; x00; x00; x01; xaa] ++ [xbb]) =
    ([xbb], Ok (mkFrame 16 0 [xaa])).
Proof.
  apply (read_frame_exact NewConn); [reflexivity|]. split; [reflexivity|].
  constructor; simpl; unfold DefaultMaxFramePayloadSize; lia.
Defined.

Lemma check_magic_spec_witness :
  let shared : SharedConn := λ consumed rest, consumed ++ rest in
  @CheckMagic shared (MagicV2 ++ [x01]) = Ok ([x01], true).
Proof.
  intros shared. apply (@check_magic_spec shared); [|reflexivity].
  intros consumed rest. reflexivity.
Defined.

Definition demo_cpu : CPU :=
  mkCPU "amd64" true true true true false false false false false.
Definition demo_random : list byte := repeat x2a 32.
Definition demo_client_hello : ClientHello :=
  clientHelloWithCryptoRandom demo_cpu (mkBootstrap "tcp" true true) demo_random.
Definition demo_server_hello : ServerHello :=
  mkServerHello (mkServerSel (mkMessageSel "json") (mkCryptoSel "aes-256-gcm" demo_random)) "".

Lemma server_hello_acceptable_witness :
  ValidateServerHelloForClient demo_client_hello demo_server_hello = Ok tt.
Proof.
  apply (server_hello_acceptable demo_random); vm_compute; reflexivity.
Defined.

End Wire.
