(* ===== verification/Msg.v ===== *)
(** The control messages, pkg/msg/msg.go, and their v2 encoding,
    pkg/msg/wire_v2.go.

    [Message] is the sum of the nineteen message structs. The dynamic types
    that [reflect] inspects at run time are [msg_type] for the registered
    structs and a name for any other type; the JSON codec of the structs is a
    parameter (class [MsgJSON]). *)
From Stdlib Require Import ZArith Lia Strings.Byte String.
From stdpp Require Import base gmap strings list fin_maps.
From S2P Require Import Prelude GoLib Wire.

Local Open Scope Z_scope.
Local Open Scope frp_scope.

Module Msg.

(** ** The messages *)

Record ClientSpec := mkClientSpec { cs_Type : string; cs_AlwaysAuthPass : bool }.

Record Login := mkLogin {
  login_Version : string; login_Hostname : string; login_Os : string; login_Arch : string;
  login_User : string; login_PrivilegeKey : string; login_Timestamp : Z;
  login_RunID : string; login_ClientID : string; login_Metas : gmap string string;
  login_ClientSpec : ClientSpec; login_PoolCount : Z }.

Record LoginResp := mkLoginResp {
  lr_Version : string; lr_RunID : string; lr_Error : string }.

Record NewProxy := mkNewProxy {
  np_ProxyName : string; np_ProxyType : string; np_UseEncryption : bool;
  np_UseCompression : bool; np_BandwidthLimit : string; np_BandwidthLimitMode : string;
  np_Group : string; np_GroupKey : string; np_Metas : gmap string string;
  np_Annotations : gmap string string; np_RemotePort : Z; np_CustomDomains : list string;
  np_SubDomain : string; np_Locations : list string; np_HTTPUser : string;
  np_HTTPPwd : string; np_HostHeaderRewrite : string; np_Headers : gmap string string;
  np_ResponseHeaders : gmap string string; np_RouteByHTTPUser : string; np_Sk : string;
  np_AllowUsers : list string; np_Multiplexer : string }.

Record NewProxyResp := mkNewProxyResp {
  npr_ProxyName : string; npr_RemoteAddr : string; npr_Error : string }.

Record CloseProxy := mkCloseProxy { cp_ProxyName : string }.

Record NewWorkConn := mkNewWorkConn {
  nwc_RunID : string; nwc_PrivilegeKey : string; nwc_Timestamp : Z }.

Record ReqWorkConn := mkReqWorkConn { }.

Record StartWorkConn := mkStartWorkConn {
  swc_ProxyName : string; swc_SrcAddr : string; swc_DstAddr : string;
  swc_SrcPort : Z; swc_DstPort : Z; swc_Error : string; swc_Protocol : string }.

Record NewVisitorConn := mkNewVisitorConn {
  nvc_RunID : string; nvc_ProxyName : string; nvc_SignKey : string; nvc_Timestamp : Z;
  nvc_UseEncryption : bool; nvc_UseCompression : bool }.

Record NewVisitorConnResp := mkNewVisitorConnResp {
  nvr_ProxyName : string; nvr_Error : string }.

Record Ping := mkPing { ping_PrivilegeKey : string; ping_Timestamp : Z }.

Record Pong := mkPong { pong_Error : string }.

(** net.UDPAddr *)
Record UDPAddr := mkUDPAddr { ua_IP : list byte; ua_Port : Z; ua_Zone : string }.

Record UDPPacket := mkUDPPacket {
  udp_Content : list byte; udp_LocalAddr : option UDPAddr; udp_RemoteAddr : option UDPAddr }.

Record NatHoleVisitor := mkNatHoleVisitor {
  nhv_TransactionID : string; nhv_ProxyName : string; nhv_PreCheck : bool;
  nhv_Protocol : string; nhv_SignKey : string; nhv_Timestamp : Z;
  nhv_MappedAddrs : list string; nhv_AssistedAddrs : list string }.

Record NatHoleClient := mkNatHoleClient {
  nhc_TransactionID : string; nhc_ProxyName : string; nhc_Sid : string;
  nhc_MappedAddrs : list string; nhc_AssistedAddrs : list string }.

Record PortsRange := mkPortsRange { pr_From : Z; pr_To : Z }.

Record NatHoleDetectBehavior := mkDetectBehavior {
  db_Role : string; db_Mode : Z; db_TTL : Z; db_SendDelayMs : Z; db_ReadTimeoutMs : Z;
  db_CandidatePorts : list PortsRange; db_SendRandomPorts : Z; db_ListenRandomPorts : Z }.

Record NatHoleResp := mkNatHoleResp {
  nhr_TransactionID : string; nhr_Sid : string; nhr_Protocol : string;
  nhr_CandidateAddrs : list string; nhr_AssistedAddrs : list string;
  nhr_DetectBehavior : NatHoleDetectBehavior; nhr_Error : string }.

Record NatHoleSid := mkNatHoleSid {
  nhs_TransactionID : string; nhs_Sid : string; nhs_Response : bool; nhs_Nonce : string }.

Record NatHoleReport := mkNatHoleReport { nhp_Sid : string; nhp_Success : bool }.

Record ProxyMetrics := mkProxyMetrics {
  pm_ProxyName : string; pm_ConnsDelta : Z; pm_TrafficInDelta : Z; pm_TrafficOutDelta : Z }.

Inductive Message :=
| MLogin (m : Login) | MLoginResp (m : LoginResp) | MNewProxy (m : NewProxy)
| MNewProxyResp (m : NewProxyResp) | MCloseProxy (m : CloseProxy)
| MNewWorkConn (m : NewWorkConn) | MReqWorkConn (m : ReqWorkConn)
| MStartWorkConn (m : StartWorkConn) | MNewVisitorConn (m : NewVisitorConn)
| MNewVisitorConnResp (m : NewVisitorConnResp) | MPing (m : Ping) | MPong (m : Pong)
| MUDPPacket (m : UDPPacket) | MNatHoleVisitor (m : NatHoleVisitor)
| MNatHoleClient (m : NatHoleClient) | MNatHoleResp (m : NatHoleResp)
| MNatHoleSid (m : NatHoleSid) | MNatHoleReport (m : NatHoleReport)
| MProxyMetrics (m : ProxyMetrics).

(** ** Dynamic types *)

Inductive msg_type :=
| TLogin | TLoginResp | TNewProxy | TNewProxyResp | TCloseProxy | TNewWorkConn | TReqWorkConn
| TStartWorkConn | TNewVisitorConn | TNewVisitorConnResp | TPing | TPong | TUDPPacket
| TNatHoleVisitor | TNatHoleClient | TNatHoleResp | TNatHoleSid | TNatHoleReport | TProxyMetrics.

#[export] Instance msg_type_eq_dec : EqDecision msg_type.
Proof. solve_decision. Defined.

Definition type_of (m : Message) : msg_type :=
  match m with
  | MLogin _ => TLogin | MLoginResp _ => TLoginResp | MNewProxy _ => TNewProxy
  | MNewProxyResp _ => TNewProxyResp | MCloseProxy _ => TCloseProxy
  | MNewWorkConn _ => TNewWorkConn | MReqWorkConn _ => TReqWorkConn
  | MStartWorkConn _ => TStartWorkConn | MNewVisitorConn _ => TNewVisitorConn
  | MNewVisitorConnResp _ => TNewVisitorConnResp | MPing _ => TPing | MPong _ => TPong
  | MUDPPacket _ => TUDPPacket | MNatHoleVisitor _ => TNatHoleVisitor
  | MNatHoleClient _ => TNatHoleClient | MNatHoleResp _ => TNatHoleResp
  | MNatHoleSid _ => TNatHoleSid | MNatHoleReport _ => TNatHoleReport
  | MProxyMetrics _ => TProxyMetrics
  end.

(** [msgTypeMap]: the type bytes of protocol v1. *)
Definition msgTypeMap : list (string * msg_type) :=
  [("o", TLogin); ("1", TLoginResp); ("p", TNewProxy); ("2", TNewProxyResp);
   ("c", TCloseProxy); ("w", TNewWorkConn); ("r", TReqWorkConn); ("s", TStartWorkConn);
   ("v", TNewVisitorConn); ("3", TNewVisitorConnResp); ("h", TPing); ("4", TPong);
   ("u", TUDPPacket); ("i", TNatHoleVisitor); ("n", TNatHoleClient); ("m", TNatHoleResp);
   ("5", TNatHoleSid); ("6", TNatHoleReport); ("7", TProxyMetrics)].

(** [v2MsgTypeMap]: the type ids of protocol v2. *)
Definition v2MsgTypeMap : list (Z * msg_type) :=
  [(1, TLogin); (2, TLoginResp); (3, TNewProxy); (4, TNewProxyResp); (5, TCloseProxy);
   (6, TNewWorkConn); (7, TReqWorkConn); (8, TStartWorkConn); (9, TNewVisitorConn);
   (10, TNewVisitorConnResp); (11, TPing); (12, TPong); (13, TUDPPacket);
   (14, TNatHoleVisitor); (15, TNatHoleClient); (16, TNatHoleResp); (17, TNatHoleSid);
   (18, TNatHoleReport); (19, TProxyMetrics)].

(** [buildV2MsgTypeMaps]: the map by id and the map by type, filled by one
    pass over the entries, whatever their order. *)
Definition assoc_set {K V} `{EqDecision K} (k : K) (v : V) (m : list (K * V)) : list (K * V) :=
  (k, v) :: filter (λ kv, kv.1 ≠ k) m.

Definition assoc_get {K V} `{EqDecision K} (k : K) (m : list (K * V)) : option V :=
  snd <$> first_match (λ kv, bool_decide (kv.1 = k)) m.

Definition buildV2MsgTypeMaps (entries : list (Z * msg_type)) :
    list (Z * msg_type) * list (msg_type * Z) :=
  fold_left (λ maps e, (assoc_set e.1 e.2 maps.1, assoc_set e.2 e.1 maps.2)) entries ([], []).

Definition v2MsgReflectTypeMap : list (Z * msg_type) := (buildV2MsgTypeMaps v2MsgTypeMap).1.
Definition v2MsgTypeIDMap : list (msg_type * Z) := (buildV2MsgTypeMaps v2MsgTypeMap).2.

(** ** Encoding *)

Inductive error :=
| ErrWire (e : Wire.error)
| ErrFrameType (got want : Z)
| ErrTooShort
| ErrUnknownTypeID (id : Z)
| ErrUnknownType (name : string)
| ErrNotPointer
| ErrUnexpectedType (actual expected : msg_type)
| ErrNilMessage
| ErrJSON.

(** [json.Marshal] of a message struct and [json.Unmarshal] into a fresh
    struct of a given type. *)
Class MsgJSON := {
  json_marshal : Message → option (list byte);
  json_unmarshal : msg_type → list byte → option Message
}.

(** A message that survives [encoding/json]: decoding its encoding into its
    own type gives it back. (A message holding a string that is not valid
    UTF-8, or a four-byte IP, does not.) *)
Definition json_faithful `{MsgJSON} (m : Message) : Prop :=
  ∀ b, json_marshal m = Some b → json_unmarshal (type_of m) b = Some m.

(** A value of type [any] given to the encoder: nil, a registered struct or a
    pointer to one, or a value of some other type. *)
Inductive any :=
| ANil
| AMsg (pointer : bool) (m : Message)
| AOther (name : string).

(** A decoding target: nil, a pointer to a struct, or something else. *)
Inductive target :=
| TargetNil
| TargetPointer (t : msg_type)
| TargetOtherPointer (name : string)
| TargetValue.

Section Codec.
Context `{MsgJSON}.

Definition EncodeV2MessageFrame (m : any) : res error Wire.Frame :=
  match m with
  | ANil => Err ErrNilMessage
  | AOther name => Err (ErrUnknownType name)
  | AMsg _ m =>
      match assoc_get (type_of m) v2MsgTypeIDMap with
      | None => Err (ErrUnknownType "")
      | Some typeID =>
          match json_marshal m with
          | None => Err ErrJSON
          | Some content =>
              let payload := be_put 2 typeID ++ content in
              Ok (Wire.mkFrame Wire.FrameTypeMessage 0 payload)
          end
      end
  end.

Definition DecodeV2MessageFrame (f : Wire.Frame) : res error Message :=
  if negb (Wire.Type_ f =? Wire.FrameTypeMessage)
  then Err (ErrFrameType (Wire.Type_ f) Wire.FrameTypeMessage)
  else if (length (Wire.Payload f) <? 2)%nat then Err ErrTooShort
  else
    let typeID := be_get (take 2 (Wire.Payload f)) in
    match assoc_get typeID v2MsgReflectTypeMap with
    | None => Err (ErrUnknownTypeID typeID)
    | Some t =>
        match json_unmarshal t (drop 2 (Wire.Payload f)) with
        | None => Err ErrJSON
        | Some m => Ok m
        end
    end.

Definition DecodeV2MessageFrameInto (f : Wire.Frame) (out : target) : res error Message :=
  if negb (Wire.Type_ f =? Wire.FrameTypeMessage)
  then Err (ErrFrameType (Wire.Type_ f) Wire.FrameTypeMessage)
  else if (length (Wire.Payload f) <? 2)%nat then Err ErrTooShort
  else
    let typeID := be_get (take 2 (Wire.Payload f)) in
    match out with
    | TargetNil | TargetValue => Err ErrNotPointer
    | TargetOtherPointer name => Err (ErrUnknownType name)
    | TargetPointer elemType =>
        match assoc_get elemType v2MsgTypeIDMap with
        | None => Err (ErrUnknownType "")
        | Some expectedTypeID =>
            if negb (typeID =? expectedTypeID) then
              match assoc_get typeID v2MsgReflectTypeMap with
              | None => Err (ErrUnknownTypeID typeID)
              | Some actualType => Err (ErrUnexpectedType actualType elemType)
              end
            else match json_unmarshal elemType (drop 2 (Wire.Payload f)) with
                 | None => Err ErrJSON
                 | Some m => Ok m
                 end
        end
    end.

(** [V2ReadWriter] over a connection. *)
Definition ReadMsg (c : Wire.Conn) (s : list byte) : list byte * res error Message :=
  let '(s, f) := Wire.ReadFrame c s in
  match f with
  | Err e => (s, Err (ErrWire e))
  | Ok f => (s, DecodeV2MessageFrame f)
  end.

Definition ReadMsgInto (c : Wire.Conn) (s : list byte) (out : target) :
    list byte * res error Message :=
  let '(s, f) := Wire.ReadFrame c s in
  match f with
  | Err e => (s, Err (ErrWire e))
  | Ok f => (s, DecodeV2MessageFrameInto f out)
  end.

Definition WriteMsg (c : Wire.Conn) (w : Wire.Writer) (m : any) : Wire.Writer * res error unit :=
  match EncodeV2MessageFrame m with
  | Err e => (w, Err e)
  | Ok f =>
      let '(w, r) := Wire.WriteFrame c w f in
      match r with Err e => (w, Err (ErrWire e)) | Ok u => (w, Ok u) end
  end.

End Codec.

(** ** The type tables *)

Section Assoc.
Context {K V : Type} `{EqDecision K}.

Lemma assoc_get_filter (k k' : K) (m : list (K * V)) :
  k ≠ k' → assoc_get k' (filter (λ kv, kv.1 ≠ k) m) = assoc_get k' m.
Proof.
  intros Hne. unfold assoc_get. induction m as [|[x v] m IH]; [done|].
  rewrite filter_cons. simpl. case_decide as Hx; simpl.
  - case_bool_decide; [done|exact IH].
  - subst x. rewrite bool_decide_false by done. exact IH.
Qed.

Lemma assoc_get_set (k k' : K) (v : V) m :
  assoc_get k' (assoc_set k v m) = if decide (k = k') then Some v else assoc_get k' m.
Proof.
  unfold assoc_set. case_decide as Hk.
  - subst. unfold assoc_get. simpl. by rewrite bool_decide_true.
  - rewrite <- (assoc_get_filter k k' m) by done. unfold assoc_get at 1. simpl.
    by rewrite bool_decide_false.
Qed.

(** A table filled from entries with distinct keys holds exactly those
    entries, in whatever order they came. *)
Lemma assoc_build (l m : list (K * V)) k v :
  NoDup l.*1 →
  assoc_get k (fold_left (λ m e, assoc_set e.1 e.2 m) l m) = Some v ↔
  (k, v) ∈ l ∨ k ∉ l.*1 ∧ assoc_get k m = Some v.
Proof.
  revert m. induction l as [|[k0 v0] l IH]; intros m Hnd; simpl.
  - set_solver.
  - apply NoDup_cons in Hnd as [Hn Hnd]. rewrite IH, assoc_get_set by done. simpl in *.
    case_decide as Hk.
    + subst k0. split.
      * intros [Hin|[_ [= ->]]]; [|set_solver].
        exfalso. apply Hn. apply list_elem_of_fmap. by exists (k, v).
      * intros [[[= ->]|Hin]%elem_of_cons|[Hne _]]; [by right|by left|set_solver].
    + split; [|set_solver].
      intros [?|[? ?]]; [set_solver|]. right. set_solver.
Qed.
End Assoc.

Lemma build_fst entries a b :
  (fold_left (λ maps e, (assoc_set e.1 e.2 maps.1, assoc_set e.2 e.1 maps.2)) entries (a, b)).1 =
  fold_left (λ m (e : Z * msg_type), assoc_set e.1 e.2 m) entries a.
Proof. revert a b. by induction entries as [|e entries IH]; intros a b; simpl; [|rewrite IH]. Qed.

Lemma build_snd entries a b :
  (fold_left (λ maps e, (assoc_set e.1 e.2 maps.1, assoc_set e.2 e.1 maps.2)) entries (a, b)).2 =
  fold_left (λ m (e : msg_type * Z), assoc_set e.1 e.2 m) ((λ e : Z * msg_type, (e.2, e.1)) <$> entries) b.
Proof. revert a b. by induction entries as [|e entries IH]; intros a b; simpl; [|rewrite IH]. Qed.

Lemma v2_ids_distinct : NoDup v2MsgTypeMap.*1.
Proof. apply (bool_decide_unpack (NoDup v2MsgTypeMap.*1)). vm_compute. exact I. Qed.

Lemma v2_types_distinct : NoDup v2MsgTypeMap.*2.
Proof. apply (bool_decide_unpack (NoDup v2MsgTypeMap.*2)). vm_compute. exact I. Qed.

Lemma build_spec entries t id :
  entries ≡ₚ v2MsgTypeMap →
  (assoc_get id (buildV2MsgTypeMaps entries).1 = Some t ↔ (id, t) ∈ v2MsgTypeMap) ∧
  (assoc_get t (buildV2MsgTypeMaps entries).2 = Some id ↔ (id, t) ∈ v2MsgTypeMap).
Proof.
  intros Hp. unfold buildV2MsgTypeMaps. rewrite build_fst, build_snd.
  rewrite !assoc_build.
  - split; split.
    + intros [Hin|[_ ?]]; [by rewrite <- Hp|done].
    + intros Hin. left. by rewrite Hp.
    + intros [Hin|[_ ?]]; [|done].
      apply list_elem_of_fmap in Hin as ([id' t'] & [= -> ->] & Hin). by rewrite <- Hp.
    + intros Hin. left. apply list_elem_of_fmap. exists (id, t). by rewrite Hp.
  - rewrite <- list_fmap_compose. change (NoDup (snd <$> entries)). rewrite Hp. apply v2_types_distinct.
  - rewrite Hp. apply v2_ids_distinct.
Qed.

Lemma v2_id_total t : ∃ id, (id, t) ∈ v2MsgTypeMap ∧ 1 ≤ id ≤ 19.
Proof.
  assert (∀ id, assoc_get t v2MsgTypeIDMap = Some id → (id, t) ∈ v2MsgTypeMap) as Hid.
  { intros id. by apply build_spec. }
  destruct t; (eexists; split; [apply Hid; vm_compute; reflexivity|lia]).
Qed.

(** The v2 type tables are inverse to each other and complete: in
    whatever order Go iterates over [v2MsgTypeMap] when it builds them, every
    message type has one id between 1 and 19, an id decodes to a type exactly
    when that type encodes to the id, and the type bytes of v1 are distinct. *)
Theorem v2_type_tables_inverse (entries : list (Z * msg_type)) :
  entries ≡ₚ v2MsgTypeMap →
  let '(reflectTypeMap, typeIDMap) := buildV2MsgTypeMaps entries in
  (∀ t id, assoc_get id reflectTypeMap = Some t ↔ assoc_get t typeIDMap = Some id) ∧
  (∀ t, ∃ id, assoc_get t typeIDMap = Some id ∧ 1 ≤ id ≤ 19) ∧
  NoDup msgTypeMap.*1 ∧ msgTypeMap.*2 = v2MsgTypeMap.*2.
Proof.
  intros Hp. destruct (buildV2MsgTypeMaps entries) as [m1 m2] eqn:Hb.
  assert (∀ t id, (assoc_get id m1 = Some t ↔ (id, t) ∈ v2MsgTypeMap) ∧
                  (assoc_get t m2 = Some id ↔ (id, t) ∈ v2MsgTypeMap)) as Hspec.
  { intros t id. pose proof (build_spec entries t id Hp) as Hs. by rewrite Hb in Hs. }
  split_and!.
  - intros t id. destruct (Hspec t id) as [-> ->]. done.
  - intros t. destruct (v2_id_total t) as (id & Hin & Hr). exists id.
    split; [by apply Hspec|done].
  - apply (bool_decide_unpack (NoDup msgTypeMap.*1)). vm_compute. exact I.
  - reflexivity.
Qed.

(** ** Round trip *)

Section CodecFacts.
Context `{MsgJSON}.

Lemma tables_inverse t id :
  assoc_get t v2MsgTypeIDMap = Some id →
  assoc_get id v2MsgReflectTypeMap = Some t ∧ 1 ≤ id ≤ 19.
Proof.
  intros Hid. assert ((id, t) ∈ v2MsgTypeMap) as Hin by (by apply (build_spec v2MsgTypeMap)).
  split; [by apply (build_spec v2MsgTypeMap)|].
  destruct (v2_id_total t) as (id' & Hin' & Hr).
  assert (Some id = Some id') as [= ->]; [|done].
  rewrite <- Hid. by apply (build_spec v2MsgTypeMap).
Qed.

Lemma Encode_Ok ptr m f :
  EncodeV2MessageFrame (AMsg ptr m) = Ok f →
  ∃ id content, assoc_get (type_of m) v2MsgTypeIDMap = Some id ∧ json_marshal m = Some content ∧
    f = Wire.mkFrame Wire.FrameTypeMessage 0 (be_put 2 id ++ content).
Proof.
  unfold EncodeV2MessageFrame. destruct (assoc_get _ _) as [id|] eqn:Hid; [|done].
  destruct (json_marshal m) as [content|]; [|done]. intros [= <-]. eauto.
Qed.

(** The header of an encoded message, as the two decoders read it. *)
Lemma encoded_payload id (content : list byte) :
  1 ≤ id ≤ 19 →
  (length (be_put 2 id ++ content) <? 2)%nat = false ∧
  be_get (take 2 (be_put 2 id ++ content)) = id ∧
  drop 2 (be_put 2 id ++ content) = content.
Proof.
  intros Hid. pose proof (length_be_put 2 id) as Hl. split_and!.
  - apply Nat.ltb_ge. rewrite length_app. lia.
  - rewrite take_app_length' by done. apply be_get_put. lia.
  - by apply drop_app_length'.
Qed.

Lemma Decode_Encode ptr m f :
  json_faithful m → EncodeV2MessageFrame (AMsg ptr m) = Ok f → DecodeV2MessageFrame f = Ok m.
Proof.
  intros Hj (id & content & Hid & Hm & ->)%Encode_Ok.
  apply tables_inverse in Hid as [Ht Hr].
  destruct (encoded_payload id content Hr) as (Hs & Hg & Hd).
  unfold DecodeV2MessageFrame. cbn [Wire.Type_ Wire.Payload]. rewrite Z.eqb_refl. cbn [negb].
  rewrite Hs, Hg, Ht, Hd. by rewrite (Hj content).
Qed.

Lemma DecodeInto_Encode ptr m f t :
  json_faithful m → EncodeV2MessageFrame (AMsg ptr m) = Ok f →
  DecodeV2MessageFrameInto f (TargetPointer t) =
    if decide (t = type_of m) then Ok m else Err (ErrUnexpectedType (type_of m) t).
Proof.
  intros Hj (id & content & Hid & Hm & ->)%Encode_Ok.
  pose proof Hid as [Ht Hr]%tables_inverse.
  destruct (encoded_payload id content Hr) as (Hs & Hg & Hd).
  unfold DecodeV2MessageFrameInto. cbn [Wire.Type_ Wire.Payload]. rewrite Z.eqb_refl. cbn [negb].
  rewrite Hs, Hg, Hd. destruct (v2_id_total t) as (id' & Hin & _).
  assert (assoc_get t v2MsgTypeIDMap = Some id') as Hid' by (by apply (build_spec v2MsgTypeMap)).
  rewrite Hid'. case_decide as Hd'.
  - subst t. assert (id' = id) as -> by congruence. rewrite Z.eqb_refl. simpl.
    by rewrite (Hj content).
  - rewrite (proj2 (Z.eqb_neq _ _)); [simpl; by rewrite Ht|].
    intros <-. apply tables_inverse in Hid' as [Ht' _]. congruence.
Qed.

Lemma WriteMsg_Ok c w ptr m w' u :
  WriteMsg c w (AMsg ptr m) = (w', Ok u) → Wire.maxFramePayloadSize c < 2 ^ 32 →
  ∃ f, Wire.written w' = Wire.written w ++ Wire.frame_bytes f ∧
       EncodeV2MessageFrame (AMsg ptr m) = Ok f ∧ Wire.frame_ok c f.
Proof.
  unfold WriteMsg. destruct (EncodeV2MessageFrame _) as [f|] eqn:He; [|done].
  destruct (Wire.WriteFrame c w f) as [w1 [u1|]] eqn:Hw; [|done]. intros [= <- <-] Hl.
  apply Wire.WriteFrame_Ok in Hw as (Hw & Hfl & Hsz). exists f. split_and!; [done..|].
  pose proof He as (id & content & _ & _ & ->)%Encode_Ok. by constructor.
Qed.

(** Messages survive the wire: a message (a struct or a pointer to one)
    whose JSON is faithful and that was written by [WriteMsg] is what [ReadMsg] returns at the other end,
    which stops at the byte after it; [ReadMsgInto] fills a target of the
    message's own type and refuses a target of any other message type by
    naming both types. *)
Theorem message_roundtrip (c : Wire.Conn) (w w' : Wire.Writer) (ptr : bool) (m : Message)
    (u : unit) (rest : list byte) :
  json_faithful m → Wire.maxFramePayloadSize c < 2 ^ 32 →
  WriteMsg c w (AMsg ptr m) = (w', Ok u) →
  ∃ sent, Wire.written w' = Wire.written w ++ sent ∧
    ReadMsg c (sent ++ rest) = (rest, Ok m) ∧
    ∀ t, ReadMsgInto c (sent ++ rest) (TargetPointer t) =
         (rest, if decide (t = type_of m) then Ok m else Err (ErrUnexpectedType (type_of m) t)).
Proof.
  intros Hj Hl (f & -> & He & Hok)%WriteMsg_Ok; [|done]. exists (Wire.frame_bytes f).
  unfold ReadMsg, ReadMsgInto. rewrite Wire.ReadFrame_bytes by done.
  split_and!; [done|by erewrite Decode_Encode|]. intros t. by erewrite DecodeInto_Encode.
Qed.

End CodecFacts.

(** ** Witnesses *)

Lemma v2_type_tables_inverse_witness :
  NoDup msgTypeMap.*1 ∧ msgTypeMap.*2 = v2MsgTypeMap.*2.
Proof.
  pose proof (v2_type_tables_inverse v2MsgTypeMap (reflexivity _)) as H.
  destruct (buildV2MsgTypeMaps v2MsgTypeMap) as [m1 m2]. apply H.
Defined.

(** A codec for the messages of one type, which satisfies the laws. *)
Definition close_json : MsgJSON := {|
  json_marshal m := match m with
                    | MCloseProxy (mkCloseProxy n) => Some (list_byte_of_string n)
                    | _ => None
                    end;
  json_unmarshal t b := match t with
                        | TCloseProxy => Some (MCloseProxy (mkCloseProxy (string_of_list_byte b)))
                        | _ => None
                        end
|}.

Lemma close_json_faithful n : @json_faithful close_json (MCloseProxy (mkCloseProxy n)).
Proof. intros b [= <-]. simpl. by rewrite string_of_list_byte_of_string. Qed.

Lemma message_roundtrip_witness :
  let w' := (@WriteMsg close_json Wire.NewConn (Wire.mkWriter [] 100)
               (AMsg true (MCloseProxy (mkCloseProxy "ssh")))).1 in
  ∃ sent, Wire.written w' = [] ++ sent ∧
    @ReadMsg close_json Wire.NewConn (sent ++ [x00]) = ([x00], Ok (MCloseProxy (mkCloseProxy "ssh"))).
Proof.
  intros w'.
  destruct (@message_roundtrip close_json Wire.NewConn (Wire.mkWriter [] 100) w'
    true (MCloseProxy (mkCloseProxy "ssh")) tt [x00]) as (sent & Hw & Hr & _).
  - apply close_json_faithful.
  - reflexivity.
  - vm_compute. reflexivity.
  - exists sent. split; [exact Hw|exact Hr].
Defined.

End Msg.
