(* ===== verification/Handshake.v ===== *)
(** The login handshake: client/control_session.go ([exchangeLogin],
    [newControlReadWriter]), server/service.go ([acceptConnection],
    [readFirstV2Msg], [handleClientHello], [newControlReadWriter]) and the keys
    of the control channel, pkg/util/net/conn.go ([NewAEADCryptoReadWriter]).

    Both ends are functions on the byte streams of Wire.v. The client writes
    everything it has to say before it reads, so its exchange is a sending half
    followed by a receiving half. Deadlines are left out. *)
From Stdlib Require Import ZArith Lia Strings.Byte String.
From stdpp Require Import base gmap strings list fin_maps.
From S2P Require Import Prelude GoLib Wire Msg.

Local Open Scope Z_scope.
Local Open Scope frp_scope.

Module Handshake.

Inductive error :=
| ErrReadMagic (e : Wire.error)
| ErrReadFrame (e : Wire.error)
| ErrReadFirstFrame (e : Wire.error)
| ErrDecodeMessage (e : Msg.error)
| ErrDecodeClientHello (e : Wire.error)
| ErrHello (e : Wire.error)
| ErrHelloAndWrite (e writeErr : Wire.error)
| ErrEncodeServerHello (e : Wire.error)
| ErrWriteServerHello (e : Wire.error)
| ErrWire (e : Wire.error)
| ErrMsg (e : Msg.error)
| ErrUnexpectedFrameType (got want : Z)
| ErrServerSaid (text : string)
| ErrMissingCrypto
| ErrInvalidRole
| ErrCrypto.

(** ** What the two ends call outside the repository *)

(** github.com/fatedier/golib/msg/json over a stream, the v1 codec. *)
Class V1Codec := {
  v1_read : list byte → list byte * res Msg.error Msg.Message;
  v1_read_into : list byte → Msg.msg_type → list byte * res Msg.error Msg.Message;
  v1_write : Wire.Writer → Msg.Message → Wire.Writer * res Msg.error unit
}.

(** The key derivation (golang.org/x/crypto/hkdf over SHA-256: secret, salt,
    info), the hash, and whether golib's stream constructors accept a key. *)
Class Crypto := {
  sha256 : list byte → list byte;
  hkdf : list byte → list byte → list byte → option (list byte);
  aead_stream_ok : string → list byte → bool;
  v1_crypto_ok : list byte → bool
}.

(** ** Texts of errors, as far as they travel in a ServerHello *)

(** [err.Error()]; [lib] gives the texts the standard library makes. *)
Definition error_text (lib : Wire.error → string) (e : Wire.error) : string :=
  match e with
  | Wire.ErrNoCodec => "unsupported message codec"
  | Wire.ErrClientRandomLength n =>
      "invalid crypto client random length " +:+ Itoa n +:+ ", want " +:+
      Itoa (Z.of_nat Wire.CryptoRandomSize)
  | Wire.ErrNoAlgorithm => "no supported crypto algorithm"
  | Wire.ErrRandom => "generate crypto random: " +:+ lib e
  | _ => lib e
  end.

(** ** The keys of the control channel *)

Inductive AEADCryptoRole := AEADCryptoRoleClient | AEADCryptoRoleServer | AEADCryptoRoleOther.

Definition aeadControlHKDFInfoPrefix : string := "frp wire v2 control aead".
Definition aeadDirectionClientToServer : string := "client-to-server".
Definition aeadDirectionServerToClient : string := "server-to-client".

(** A control stream: the algorithm and the keys of its two directions. *)
Record aead_rw := mkAEAD { rw_algorithm : string; rw_readKey : list byte; rw_writeKey : list byte }.

Inductive control_rw :=
| RWPlain (key : list byte)
| RWAead (rw : aead_rw).

(** The [info] argument of the derivation. *)
Definition hkdf_info (algorithm direction : string) : string :=
  aeadControlHKDFInfoPrefix +:+ " " +:+ algorithm +:+ " " +:+ direction.

Section Keys.
Context `{Crypto}.

Definition deriveAEADControlKey (key : list byte) (algorithm : string)
    (transcriptHash : list byte) (direction : string) : res error (list byte) :=
  match hkdf key transcriptHash (list_byte_of_string (hkdf_info algorithm direction)) with
  | None => Err ErrCrypto
  | Some out => Ok out
  end.

Definition deriveAEADControlKeys (key : list byte) (algorithm : string)
    (transcriptHash : list byte) : res error (list byte * list byte) :=
  let? clientToServerKey :=
    deriveAEADControlKey key algorithm transcriptHash aeadDirectionClientToServer in
  let? serverToClientKey :=
    deriveAEADControlKey key algorithm transcriptHash aeadDirectionServerToClient in
  Ok (clientToServerKey, serverToClientKey).

Definition NewAEADCryptoReadWriter (key : list byte) (role : AEADCryptoRole)
    (algorithm : string) (transcriptHash : list byte) : res error control_rw :=
  let? (clientToServerKey, serverToClientKey) :=
    deriveAEADControlKeys key algorithm transcriptHash in
  match role with
  | AEADCryptoRoleOther => Err ErrInvalidRole
  | _ =>
      let '(readKey, writeKey) :=
        match role with
        | AEADCryptoRoleClient => (serverToClientKey, clientToServerKey)
        | _ => (clientToServerKey, serverToClientKey)
        end in
      if negb (aead_stream_ok algorithm readKey) then Err ErrCrypto
      else if negb (aead_stream_ok algorithm writeKey) then Err ErrCrypto
      else Ok (RWAead (mkAEAD algorithm readKey writeKey))
  end.

Definition NewCryptoReadWriter (key : list byte) : res error control_rw :=
  if v1_crypto_ok key then Ok (RWPlain key) else Err ErrCrypto.

(** [newControlReadWriter] of the two ends, which differ in the role. *)
Definition newControlReadWriter (role : AEADCryptoRole) (wireProtocol : string)
    (cryptoContext : option Wire.CryptoContext) (key : list byte) : res error control_rw :=
  if String.eqb wireProtocol Wire.ProtocolV2 then
    match cryptoContext with
    | None => Err ErrMissingCrypto
    | Some c => NewAEADCryptoReadWriter key role (Wire.ctx_Algorithm c) (Wire.TranscriptHash c)
    end
  else NewCryptoReadWriter key.

End Keys.

Section Ends.
Context `{Crypto, V1Codec, Wire.SharedConn, Msg.MsgJSON,
          Wire.JSON Wire.ClientHello, Wire.JSON Wire.ServerHello}.
(** The texts of the standard library's errors. *)
Variable lib : Wire.error → string.

(** ** The server *)

Record acceptedConnection := mkAccepted {
  ac_wireProtocol : string;
  ac_cryptoContext : option Wire.CryptoContext;
  ac_firstMsg : Msg.Message
}.

(** [random] is what the server's random source gives for this hello. *)
Definition handleClientHello (random : option (list byte)) (w : Wire.Writer)
    (frame : Wire.Frame) : Wire.Writer * res error Wire.CryptoContext :=
  match Wire.UnmarshalFrame (T := Wire.ClientHello) frame with
  | Err e => (w, Err (ErrDecodeClientHello e))
  | Ok hello =>
      match Wire.NewServerHello random hello with
      | Err err =>
          let serverHello :=
            Wire.mkServerHello (Wire.Selected Wire.DefaultServerHello) (error_text lib err) in
          let '(w, r) :=
            Wire.WriteJSONFrame Wire.NewConn w Wire.FrameTypeServerHello serverHello in
          match r with
          | Err writeErr => (w, Err (ErrHelloAndWrite err writeErr))
          | Ok _ => (w, Err (ErrHello err))
          end
      | Ok serverHello =>
          match Wire.NewJSONFrame Wire.FrameTypeServerHello serverHello with
          | Err e => (w, Err (ErrEncodeServerHello e))
          | Ok serverHelloFrame =>
              let cryptoContext :=
                Wire.NewCryptoContext sha256
                  (Wire.Algorithm (Wire.sel_Crypto (Wire.Selected serverHello)))
                  (Wire.Payload frame) (Wire.Payload serverHelloFrame) in
              let '(w, r) := Wire.WriteFrame Wire.NewConn w serverHelloFrame in
              match r with
              | Err e => (w, Err (ErrWriteServerHello e))
              | Ok _ => (w, Ok cryptoContext)
              end
          end
      end
  end.

(** The connection's crypto context (nil when no hello came) and the first
    message. *)
Definition readFirstV2Msg (random : option (list byte)) (w : Wire.Writer) (s : list byte) :
    Wire.Writer * list byte * res error (option Wire.CryptoContext * Msg.Message) :=
  let '(s, frame) := Wire.ReadFrame Wire.NewConn s in
  match frame with
  | Err e => (w, s, Err (ErrReadFrame e))
  | Ok frame =>
      let '(w, s, ready) :=
        if Wire.Type_ frame =? Wire.FrameTypeClientHello then
          let '(w, r) := handleClientHello random w frame in
          match r with
          | Err e => (w, s, Err e)
          | Ok ctx =>
              let '(s, frame) := Wire.ReadFrame Wire.NewConn s in
              match frame with
              | Err e => (w, s, Err (ErrReadFirstFrame e))
              | Ok frame => (w, s, Ok (Some ctx, frame))
              end
          end
        else (w, s, Ok (None, frame)) in
      match ready with
      | Err e => (w, s, Err e)
      | Ok (ctx, frame) =>
          match Msg.DecodeV2MessageFrame frame with
          | Err e => (w, s, Err (ErrDecodeMessage e))
          | Ok m => (w, s, Ok (ctx, m))
          end
      end
  end.

Definition acceptConnection (random : option (list byte)) (w : Wire.Writer) (s : list byte) :
    Wire.Writer * list byte * res error acceptedConnection :=
  match Wire.CheckMagic s with
  | Err e => (w, s, Err (ErrReadMagic e))
  | Ok (s, isV2) =>
      let wireProtocol := if isV2 then Wire.ProtocolV2 else Wire.ProtocolV1 in
      if isV2 then
        let '(w, s, r) := readFirstV2Msg random w s in
        match r with
        | Err e => (w, s, Err e)
        | Ok (ctx, m) => (w, s, Ok (mkAccepted wireProtocol ctx m))
        end
      else
        let '(s, r) := v1_read s in
        match r with
        | Err e => (w, s, Err (ErrMsg e))
        | Ok m => (w, s, Ok (mkAccepted wireProtocol None m))
        end
  end.

(** ** The client *)

(** The transport settings [exchangeLogin] reads ([common.Transport]). *)
Record Transport := mkTransport {
  WireProtocol : string; Protocol : string; TLS_Enable : option bool; TCPMux : option bool }.

Definition FromPtr (b : option bool) : bool := match b with Some b => b | None => false end.

Definition bootstrap (t : Transport) : Wire.BootstrapInfo :=
  Wire.mkBootstrap (Protocol t)
    (FromPtr (TLS_Enable t) || String.eqb (Protocol t) "wss" || String.eqb (Protocol t) "quic")
    (FromPtr (TCPMux t)).

(** Up to [rw.WriteMsg]: the payload of the ClientHello sent, if v2. *)
Definition exchangeLogin_send (cpu : Wire.CPU) (random : option (list byte)) (t : Transport)
    (w : Wire.Writer) (login : Msg.Login) : Wire.Writer * res error (option (list byte)) :=
  if String.eqb (WireProtocol t) Wire.ProtocolV2 then
    let '(w, r) := Wire.WriteMagic w in
    match r with
    | Err e => (w, Err (ErrWire e))
    | Ok _ =>
        match Wire.NewClientHello cpu random (bootstrap t) with
        | Err e => (w, Err (ErrWire e))
        | Ok clientHello =>
            match Wire.NewJSONFrame Wire.FrameTypeClientHello clientHello with
            | Err e => (w, Err (ErrWire e))
            | Ok clientHelloFrame =>
                let '(w, r) := Wire.WriteFrame Wire.NewConn w clientHelloFrame in
                match r with
                | Err e => (w, Err (ErrWire e))
                | Ok _ =>
                    let '(w, r) := Msg.WriteMsg Wire.NewConn w (Msg.AMsg true (Msg.MLogin login)) in
                    match r with
                    | Err e => (w, Err (ErrMsg e))
                    | Ok _ => (w, Ok (Some (Wire.Payload clientHelloFrame)))
                    end
                end
            end
        end
    end
  else
    let '(w, r) := v1_write w (Msg.MLogin login) in
    match r with
    | Err e => (w, Err (ErrMsg e))
    | Ok _ => (w, Ok None)
    end.

(** From the first read on: the response and the crypto context. *)
Definition exchangeLogin_recv (clientHelloPayload : option (list byte)) (s : list byte) :
    list byte * res error (Msg.Message * option Wire.CryptoContext) :=
  match clientHelloPayload with
  | Some clientHelloPayload =>
      let '(s, f) := Wire.ReadFrame Wire.NewConn s in
      match f with
      | Err e => (s, Err (ErrWire e))
      | Ok serverHelloFrame =>
          if negb (Wire.Type_ serverHelloFrame =? Wire.FrameTypeServerHello) then
            (s, Err (ErrUnexpectedFrameType (Wire.Type_ serverHelloFrame) Wire.FrameTypeServerHello))
          else
            match Wire.UnmarshalFrame (T := Wire.ServerHello) serverHelloFrame with
            | Err e => (s, Err (ErrWire e))
            | Ok serverHello =>
                if negb (String.eqb (Wire.hello_Error serverHello) "")
                then (s, Err (ErrServerSaid (Wire.hello_Error serverHello)))
                else
                  match Wire.NewClientCryptoContext sha256 clientHelloPayload
                          (Wire.Payload serverHelloFrame) with
                  | Err e => (s, Err (ErrWire e))
                  | Ok cryptoContext =>
                      let '(s, r) := Msg.ReadMsgInto Wire.NewConn s (Msg.TargetPointer Msg.TLoginResp) in
                      match r with
                      | Err e => (s, Err (ErrMsg e))
                      | Ok m => (s, Ok (m, Some cryptoContext))
                      end
                  end
            end
      end
  | None =>
      let '(s, r) := v1_read_into s Msg.TLoginResp in
      match r with
      | Err e => (s, Err (ErrMsg e))
      | Ok m => (s, Ok (m, None))
      end
  end.

Definition exchangeLogin (cpu : Wire.CPU) (random : option (list byte)) (t : Transport)
    (w : Wire.Writer) (s : list byte) (login : Msg.Login) :
    Wire.Writer * list byte * res error (Msg.Message * option Wire.CryptoContext) :=
  let '(w, r) := exchangeLogin_send cpu random t w login in
  match r with
  | Err e => (w, s, Err e)
  | Ok hello => let '(s, r) := exchangeLogin_recv hello s in (w, s, r)
  end.

(** ** Agreement *)

(** The hellos of an honest run: the client's, and the server's answer. *)
Definition client_hello (cpu : Wire.CPU) (t : Transport) (random : list byte) : Wire.ClientHello :=
  Wire.clientHelloWithCryptoRandom cpu (bootstrap t) random.

Definition server_answer (cpu : Wire.CPU) (random : list byte) : Wire.ServerHello :=
  Wire.mkServerHello
    (Wire.mkServerSel (Wire.mkMessageSel Wire.MessageCodecJSON)
       (Wire.mkCryptoSel (default "" (head (Wire.PreferredAEADAlgorithms cpu))) random)) "".

Lemma NewConn_limit : Wire.maxFramePayloadSize Wire.NewConn < 2 ^ 32.
Proof. reflexivity. Qed.

Lemma NewServerHello_own cpu t crnd srnd :
  length crnd = Wire.CryptoRandomSize →
  Wire.NewServerHello (Some srnd) (client_hello cpu t crnd) = Ok (server_answer cpu srnd).
Proof.
  intros Hl. unfold Wire.NewServerHello, client_hello.
  rewrite Wire.ValidateClientHello_own by done. simpl.
  rewrite Wire.SelectAEADAlgorithm_own. unfold server_answer, Wire.PreferredAEADAlgorithms.
  by destruct (Wire.hasFastAESGCM cpu).
Qed.

Lemma ValidateServerHello_own cpu t crnd srnd :
  length srnd = Wire.CryptoRandomSize →
  Wire.ValidateServerHelloForClient (client_hello cpu t crnd) (server_answer cpu srnd) = Ok tt.
Proof.
  intros Hl. apply Wire.ValidateServerHello_selected; [|done]. simpl.
  rewrite Wire.SelectAEADAlgorithm_own. unfold Wire.PreferredAEADAlgorithms.
  by destruct (Wire.hasFastAESGCM cpu).
Qed.

(** A frame that fits the limit and the writer's room is written whole. *)
Lemma WriteFrame_fits c w f :
  Wire.Flags f = 0 → Z.of_nat (length (Wire.Payload f)) ≤ Wire.maxFramePayloadSize c →
  (8 + length (Wire.Payload f) ≤ Wire.room w)%nat →
  ∃ w', Wire.WriteFrame c w f = (w', Ok tt).
Proof.
  intros Hf Hs Hr. unfold Wire.WriteFrame. rewrite Hf. simpl negb. cbv iota.
  rewrite (proj2 (Z.ltb_ge _ _)) by lia.
  unfold Wire.Write at 1. rewrite decide_True.
  2:{ rewrite !length_app, !length_be_put. lia. }
  unfold Wire.Write. rewrite decide_True; [eauto|].
  cbn [Wire.room]. rewrite !length_app, !length_be_put. lia.
Qed.

(** What a successful v2 sender put on the wire. *)
Lemma exchangeLogin_send_v2 cpu random t w login w' p :
  WireProtocol t = Wire.ProtocolV2 →
  exchangeLogin_send cpu random t w login = (w', Ok p) →
  ∃ rnd cp fl, random = Some rnd ∧ p = Some cp ∧
    Wire.marshal (client_hello cpu t rnd) = Some cp ∧
    Msg.EncodeV2MessageFrame (Msg.AMsg true (Msg.MLogin login)) = Ok fl ∧
    Wire.frame_ok Wire.NewConn (Wire.mkFrame Wire.FrameTypeClientHello 0 cp) ∧
    Wire.frame_ok Wire.NewConn fl ∧
    Wire.written w' = Wire.written w ++ Wire.MagicV2 ++
      Wire.frame_bytes (Wire.mkFrame Wire.FrameTypeClientHello 0 cp) ++ Wire.frame_bytes fl.
Proof.
  intros Ht. unfold exchangeLogin_send. rewrite Ht. cbn [String.eqb Wire.ProtocolV2].
  simpl String.eqb. cbv iota. unfold Wire.WriteMagic.
  destruct (Wire.Write w _) as [w1 [[]|]] eqn:Hw1; [|done]. apply Wire.Write_Ok in Hw1.
  unfold Wire.NewClientHello. destruct random as [rnd|]; [|done]. cbn [Wire.newCryptoRandom].
  unfold Wire.NewJSONFrame.
  destruct (Wire.marshal _) as [cp|] eqn:Hm; [|done].
  destruct (Wire.WriteFrame _ w1 _) as [w2 [[]|]] eqn:Hw2; [|done].
  apply Wire.WriteFrame_Ok in Hw2 as (Hw2 & _ & Hsz).
  destruct (Msg.WriteMsg _ w2 _) as [w3 [u|]] eqn:Hw3; [|done]. intros [= <- <-].
  apply Msg.WriteMsg_Ok in Hw3 as (fl & Hw3 & He & Hok); [|apply NewConn_limit].
  exists rnd, cp, fl. split_and!; [done..| |done|].
  - constructor; [done..|exact Hsz|apply NewConn_limit].
  - by rewrite Hw3, Hw2, Hw1, <- !app_assoc.
Qed.

(** The server on a valid hello. *)
Lemma handleClientHello_Ok random w frame w' ctx :
  handleClientHello random w frame = (w', Ok ctx) →
  ∃ hello sh sp, Wire.unmarshal (Wire.Payload frame) = Some hello ∧
    Wire.NewServerHello random hello = Ok sh ∧ Wire.marshal sh = Some sp ∧
    Wire.written w' = Wire.written w ++
      Wire.frame_bytes (Wire.mkFrame Wire.FrameTypeServerHello 0 sp) ∧
    Z.of_nat (length sp) ≤ Wire.DefaultMaxFramePayloadSize ∧
    ctx = Wire.NewCryptoContext sha256 (Wire.Algorithm (Wire.sel_Crypto (Wire.Selected sh)))
            (Wire.Payload frame) sp.
Proof.
  unfold handleClientHello, Wire.UnmarshalFrame.
  destruct (Wire.unmarshal _) as [hello|] eqn:Hu; [|done].
  destruct (Wire.NewServerHello random hello) as [sh|err] eqn:Hsh.
  - unfold Wire.NewJSONFrame. destruct (Wire.marshal sh) as [sp|] eqn:Hm; [|done].
    destruct (Wire.WriteFrame _ _ _) as [w1 [[]|]] eqn:Hw; [|done]. intros [= <- <-].
    apply Wire.WriteFrame_Ok in Hw as (Hw & _ & Hsz). exists hello, sh, sp. by split_and!.
  - destruct (Wire.WriteJSONFrame _ _ _ _) as [w1 [[]|]]; done.
Qed.

Lemma CheckMagic_v2 rest : Wire.CheckMagic (Wire.MagicV2 ++ rest) = Ok (rest, true).
Proof. unfold Wire.CheckMagic. by rewrite Wire.ReadFull_app. Qed.

(** What the server makes of the bytes of an honest client. *)
Lemma acceptConnection_honest cpu t crnd srnd cp sp login fl ws more :
  length crnd = Wire.CryptoRandomSize →
  Wire.faithful (client_hello cpu t crnd) → Msg.json_faithful (Msg.MLogin login) →
  Wire.marshal (client_hello cpu t crnd) = Some cp →
  Wire.marshal (server_answer cpu srnd) = Some sp →
  Msg.EncodeV2MessageFrame (Msg.AMsg true (Msg.MLogin login)) = Ok fl →
  Wire.frame_ok Wire.NewConn (Wire.mkFrame Wire.FrameTypeClientHello 0 cp) →
  Wire.frame_ok Wire.NewConn fl →
  Z.of_nat (length sp) ≤ Wire.DefaultMaxFramePayloadSize →
  (8 + length sp ≤ Wire.room ws)%nat →
  ∃ ws1, Wire.written ws1 = Wire.written ws ++
           Wire.frame_bytes (Wire.mkFrame Wire.FrameTypeServerHello 0 sp) ∧
    acceptConnection (Some srnd) ws
      (Wire.MagicV2 ++ Wire.frame_bytes (Wire.mkFrame Wire.FrameTypeClientHello 0 cp) ++
       Wire.frame_bytes fl ++ more) =
    (ws1, more, Ok (mkAccepted Wire.ProtocolV2
       (Some (Wire.NewCryptoContext sha256 (default "" (head (Wire.PreferredAEADAlgorithms cpu)))
                cp sp)) (Msg.MLogin login))).
Proof.
  intros Hc Hfc Hfl Hcp Hsp He Hok1 Hok2 Hsz Hroom.
  destruct (WriteFrame_fits Wire.NewConn ws (Wire.mkFrame Wire.FrameTypeServerHello 0 sp))
    as [ws1 Hws]; [done..|]. exists ws1.
  split; [by apply Wire.WriteFrame_Ok in Hws as [? _]|].
  unfold acceptConnection. rewrite CheckMagic_v2. unfold readFirstV2Msg.
  rewrite Wire.ReadFrame_bytes by done. cbn [Wire.Type_]. rewrite Z.eqb_refl.
  unfold handleClientHello, Wire.UnmarshalFrame. cbn [Wire.Payload]. rewrite (Hfc cp Hcp).
  rewrite NewServerHello_own by done. unfold Wire.NewJSONFrame. rewrite Hsp, Hws.
  rewrite Wire.ReadFrame_bytes by done. by rewrite (Msg.Decode_Encode _ _ _ Hfl He).
Qed.

(** What the client makes of an honest server's answer. *)
Lemma exchangeLogin_recv_honest cpu t crnd srnd cp sp resp fr tail :
  length srnd = Wire.CryptoRandomSize →
  Wire.faithful (client_hello cpu t crnd) → Wire.faithful (server_answer cpu srnd) →
  Msg.json_faithful (Msg.MLoginResp resp) →
  Wire.marshal (client_hello cpu t crnd) = Some cp →
  Wire.marshal (server_answer cpu srnd) = Some sp →
  Msg.EncodeV2MessageFrame (Msg.AMsg true (Msg.MLoginResp resp)) = Ok fr →
  Wire.frame_ok Wire.NewConn (Wire.mkFrame Wire.FrameTypeServerHello 0 sp) →
  Wire.frame_ok Wire.NewConn fr →
  exchangeLogin_recv (Some cp)
    (Wire.frame_bytes (Wire.mkFrame Wire.FrameTypeServerHello 0 sp) ++ Wire.frame_bytes fr ++ tail) =
  (tail, Ok (Msg.MLoginResp resp,
     Some (Wire.NewCryptoContext sha256 (default "" (head (Wire.PreferredAEADAlgorithms cpu))) cp sp))).
Proof.
  intros Hs Hfc Hfs Hfr Hcp Hsp He Hok1 Hok2. unfold exchangeLogin_recv.
  rewrite Wire.ReadFrame_bytes by done. cbn [Wire.Type_]. rewrite Z.eqb_refl. cbn [negb].
  unfold Wire.UnmarshalFrame. cbn [Wire.Payload]. rewrite (Hfs sp Hsp).
  cbn [Wire.hello_Error server_answer]. simpl String.eqb. cbn [negb].
  unfold Wire.NewClientCryptoContext. rewrite (Hfc cp Hcp), (Hfs sp Hsp).
  rewrite ValidateServerHello_own by done.
  unfold Msg.ReadMsgInto. rewrite Wire.ReadFrame_bytes by done.
  by rewrite (Msg.DecodeInto_Encode _ _ _ _ Hfr He).
Qed.

(** C1. The handshake reaches agreement. Let a v2 client send its magic,
    hello and login, and let the server read those bytes (and whatever
    [more] follows) with room to write its hello. Then the server accepts the
    connection, has the client's Login as its first message and the rest of
    the stream untouched, and has answered with one hello; and once it has
    written a LoginResp after it, the client's exchange returns that response
    and the very crypto context the server holds, whose algorithm is the
    client's preferred one. *)
Theorem handshake_agrees (cpu : Wire.CPU) (t : Transport) (crnd srnd sp : list byte)
    (w w1 ws : Wire.Writer) (login : Msg.Login) (p : option (list byte)) (more : list byte) :
  WireProtocol t = Wire.ProtocolV2 →
  length crnd = Wire.CryptoRandomSize → length srnd = Wire.CryptoRandomSize →
  Wire.faithful (client_hello cpu t crnd) → Wire.faithful (server_answer cpu srnd) →
  Msg.json_faithful (Msg.MLogin login) →
  Wire.marshal (server_answer cpu srnd) = Some sp →
  Z.of_nat (length sp) ≤ Wire.DefaultMaxFramePayloadSize → (8 + length sp ≤ Wire.room ws)%nat →
  exchangeLogin_send cpu (Some crnd) t w login = (w1, Ok p) →
  ∃ sent ctx ws1,
    Wire.written w1 = Wire.written w ++ sent ∧
    acceptConnection (Some srnd) ws (sent ++ more) =
      (ws1, more, Ok (mkAccepted Wire.ProtocolV2 (Some ctx) (Msg.MLogin login))) ∧
    Some (Wire.ctx_Algorithm ctx) = head (Wire.PreferredAEADAlgorithms cpu) ∧
    ∀ resp ws2 tail, Msg.json_faithful (Msg.MLoginResp resp) →
      Msg.WriteMsg Wire.NewConn ws1 (Msg.AMsg true (Msg.MLoginResp resp)) = (ws2, Ok tt) →
      ∃ answer, Wire.written ws2 = Wire.written ws ++ answer ∧
        exchangeLogin cpu (Some crnd) t w (answer ++ tail) login =
          (w1, tail, Ok (Msg.MLoginResp resp, Some ctx)).
Proof.
  intros Ht Hc Hs Hfc Hfs Hfl Hsp Hsz Hroom Hsend.
  pose proof Hsend as (rnd & cp & fl & [= <-] & -> & Hcp & He & Hok1 & Hok2 & Hw)
    %exchangeLogin_send_v2; [|done].
  destruct (acceptConnection_honest cpu t crnd srnd cp sp login fl ws more) as (ws1 & Hws1 & Hacc);
    [done..|].
  eexists _, _, ws1. split; [exact Hw|]. rewrite <- !app_assoc. split; [exact Hacc|].
  split; [unfold Wire.PreferredAEADAlgorithms; by destruct (Wire.hasFastAESGCM cpu)|].
  intros resp ws2 tail Hfr (fr & Hws2 & Her & Hokr)%Msg.WriteMsg_Ok; [|apply NewConn_limit].
  eexists. rewrite Hws2, Hws1, <- app_assoc. split; [done|].
  unfold exchangeLogin. rewrite Hsend, <- app_assoc.
  erewrite exchangeLogin_recv_honest by (done || (constructor; [done..|apply NewConn_limit])).
  done.
Qed.

(** The errors [NewServerHello] gives are the ones whose texts are known to
    be non-empty. *)
Lemma NewServerHello_error_text random hello e :
  Wire.NewServerHello random hello = Err e → String.eqb (error_text lib e) "" = false.
Proof.
  unfold Wire.NewServerHello, Wire.ValidateClientHello, Wire.ValidateCryptoCapabilities.
  destruct (negb (Wire.Supports _ _)); [by intros [= <-]|].
  destruct (negb (Nat.eqb _ _)); [by intros [= <-]|].
  destruct (Wire.SelectAEADAlgorithm _); [|by intros [= <-]].
  destruct random; simpl; [done|]. by intros [= <-].
Qed.

(** A hello the server refuses is refused on both sides: the server
    returns the reason, and the error hello it wrote (its JSON being faithful
    and fitting the limit and the room) makes the client's exchange fail with
    exactly the reason's text, which is never empty. *)
Theorem hello_refused (random : option (list byte)) (w : Wire.Writer) (frame : Wire.Frame)
    (hello : Wire.ClientHello) (e : Wire.error) (sp cp tail : list byte) :
  let answer := Wire.mkServerHello (Wire.Selected Wire.DefaultServerHello) (error_text lib e) in
  Wire.unmarshal (Wire.Payload frame) = Some hello → Wire.NewServerHello random hello = Err e →
  Wire.faithful answer → Wire.marshal answer = Some sp →
  Z.of_nat (length sp) ≤ Wire.DefaultMaxFramePayloadSize → (8 + length sp ≤ Wire.room w)%nat →
  ∃ w1 sent, handleClientHello random w frame = (w1, Err (ErrHello e)) ∧
    Wire.written w1 = Wire.written w ++ sent ∧
    exchangeLogin_recv (Some cp) (sent ++ tail) = (tail, Err (ErrServerSaid (error_text lib e))) ∧
    error_text lib e ≠ "".
Proof.
  intros answer Hu Hn Hfa Hsp Hsz Hroom.
  pose proof (NewServerHello_error_text _ _ _ Hn) as Htxt.
  destruct (WriteFrame_fits Wire.NewConn w (Wire.mkFrame Wire.FrameTypeServerHello 0 sp))
    as [w1 Hw]; [done..|].
  exists w1, (Wire.frame_bytes (Wire.mkFrame Wire.FrameTypeServerHello 0 sp)). split_and!.
  - unfold handleClientHello, Wire.UnmarshalFrame. rewrite Hu, Hn.
    unfold Wire.WriteJSONFrame, Wire.NewJSONFrame. fold answer. by rewrite Hsp, Hw.
  - by apply Wire.WriteFrame_Ok in Hw as [? _].
  - unfold exchangeLogin_recv. rewrite Wire.ReadFrame_bytes
      by (constructor; [done..|apply NewConn_limit]).
    cbn [Wire.Type_]. rewrite Z.eqb_refl. cbn [negb]. unfold Wire.UnmarshalFrame.
    cbn [Wire.Payload]. rewrite (Hfa sp Hsp). cbn [Wire.hello_Error answer]. by rewrite Htxt.
  - by apply String.eqb_neq.
Qed.

(** The crypto context binds the hellos: when the server's context and
    the client's are equal, the server answered the very hello the client
    sent and the client read the very answer the server wrote, or two
    different inputs of SHA-256 with the same hash have been found. *)
Theorem context_binds_hellos (random : option (list byte)) (w w1 : Wire.Writer)
    (frame : Wire.Frame) (ctx : Wire.CryptoContext) (cp sp : list byte) :
  Z.of_nat (length (Wire.Payload frame)) < 2 ^ 64 → Z.of_nat (length cp) < 2 ^ 64 →
  Z.of_nat (length sp) < 2 ^ 64 →
  handleClientHello random w frame = (w1, Ok ctx) →
  Wire.NewClientCryptoContext sha256 cp sp = Ok ctx →
  (Wire.Payload frame = cp ∧
   Wire.written w1 = Wire.written w ++
     Wire.frame_bytes (Wire.mkFrame Wire.FrameTypeServerHello 0 sp)) ∨
  ∃ x y, x ≠ y ∧ sha256 x = sha256 y.
Proof.
  intros Hl1 Hl2 Hl3 (hello & sh & sp' & _ & _ & _ & Hw & Hsz & ->)%handleClientHello_Ok Hcl.
  assert (sha256 (Wire.transcript (Wire.Payload frame) sp') = sha256 (Wire.transcript cp sp)) as Heq.
  { revert Hcl. unfold Wire.NewClientCryptoContext.
    destruct (Wire.unmarshal cp); [|done]. destruct (Wire.unmarshal sp); [|done].
    destruct (Wire.ValidateServerHelloForClient _ _); [|done].
    unfold Wire.NewCryptoContext, Wire.HashCryptoTranscript. congruence. }
  destruct (decide (Wire.transcript (Wire.Payload frame) sp' = Wire.transcript cp sp)) as [Ht|Ht];
    [left|right; eauto].
  unfold Wire.DefaultMaxFramePayloadSize in Hsz.
  apply Wire.transcript_inj in Ht as [-> ->]; [done|lia..].
Qed.

End Ends.

(** ** Keys *)

(** The derivation's info strings of the two directions differ. *)
Lemma hkdf_info_inj algorithm d1 d2 :
  hkdf_info algorithm d1 = hkdf_info algorithm d2 → d1 = d2.
Proof.
  unfold hkdf_info. intros Heq.
  by repeat apply string_app_inv_head in Heq.
Qed.

(** The control channel's keys match: with the same key and the same
    crypto context the client and the server get their v2 streams or fail
    together, each end reads with the key the other writes with, the two
    directions are derived from different infos, and without a negotiated
    context neither end gets a stream. *)
Theorem control_keys_match `{Crypto} (ctx : option Wire.CryptoContext) (key : list byte)
    (rw : aead_rw) :
  newControlReadWriter AEADCryptoRoleClient Wire.ProtocolV2 ctx key = Ok (RWAead rw) ↔
  ∃ c, ctx = Some c ∧ rw_algorithm rw = Wire.ctx_Algorithm c ∧
    hkdf_info (Wire.ctx_Algorithm c) aeadDirectionClientToServer ≠
      hkdf_info (Wire.ctx_Algorithm c) aeadDirectionServerToClient ∧
    newControlReadWriter AEADCryptoRoleServer Wire.ProtocolV2 ctx key =
      Ok (RWAead (mkAEAD (rw_algorithm rw) (rw_writeKey rw) (rw_readKey rw))).
Proof.
  unfold newControlReadWriter. simpl String.eqb. cbv iota.
  destruct ctx as [c|]; [|split; [done|intros (c & [=] & _)]].
  unfold NewAEADCryptoReadWriter, deriveAEADControlKeys.
  destruct (deriveAEADControlKey _ _ _ aeadDirectionClientToServer) as [k1|];
    [|split; [done|by intros (c' & _ & _ & _ & [=])]].
  destruct (deriveAEADControlKey _ _ _ aeadDirectionServerToClient) as [k2|];
    [|split; [done|by intros (c' & _ & _ & _ & [=])]].
  destruct (aead_stream_ok _ k1) eqn:H1, (aead_stream_ok _ k2) eqn:H2; simpl; rewrite ?H1, ?H2; simpl;
    (split; [try done|try by intros (c' & _ & _ & _ & [=])]).
  - intros [= <-]. exists c. split_and!; [done..| |done]. by intros ?%hkdf_info_inj.
  - intros (c' & [= <-] & Ha & _ & [= Ha' Hr Hw]). destruct rw; simpl in *. congruence.
Qed.

(** ** Witnesses *)

(** A JSON codec for the hellos of one client and for logins that differ in
    the user, enough to run the handshake. *)
Module Demo.
Definition cpu : Wire.CPU := Wire.demo_cpu.
Definition transport : Transport := mkTransport "v2" "tcp" (Some true) None.
Definition login (user : string) : Msg.Login :=
  Msg.mkLogin "0.65" "host" "linux" "amd64" user "" 0 "" "" ∅ (Msg.mkClientSpec "" false) 1.
Definition resp (runID : string) : Msg.LoginResp := Msg.mkLoginResp "0.65" runID "".

#[export] Instance client_json : Wire.JSON Wire.ClientHello := {|
  Wire.marshal h := Some (Wire.ClientRandom (Wire.cap_Crypto (Wire.Capabilities h)));
  Wire.unmarshal b := Some (client_hello cpu transport b)
|}.

#[export] Instance server_json : Wire.JSON Wire.ServerHello := {|
  Wire.marshal h :=
    Some (if String.eqb (Wire.hello_Error h) ""
          then x01 :: Wire.ServerRandom (Wire.sel_Crypto (Wire.Selected h))
          else x00 :: list_byte_of_string (Wire.hello_Error h));
  Wire.unmarshal b :=
    match b with
    | x01 :: r => Some (server_answer cpu r)
    | x00 :: t => Some (Wire.mkServerHello (Wire.Selected Wire.DefaultServerHello)
                          (string_of_list_byte t))
    | _ => None
    end
|}.

#[export] Instance msg_json : Msg.MsgJSON := {|
  Msg.json_marshal m :=
    match m with
    | Msg.MLogin l => Some (list_byte_of_string (Msg.login_User l))
    | Msg.MLoginResp r => Some (list_byte_of_string (Msg.lr_RunID r))
    | _ => None
    end;
  Msg.json_unmarshal t b :=
    match t with
    | Msg.TLogin => Some (Msg.MLogin (login (string_of_list_byte b)))
    | Msg.TLoginResp => Some (Msg.MLoginResp (resp (string_of_list_byte b)))
    | _ => None
    end
|}.

#[export] Instance crypto : Crypto := {|
  sha256 b := b;
  hkdf key salt info := Some info;
  aead_stream_ok _ _ := true;
  v1_crypto_ok _ := true
|}.

#[export] Instance v1 : V1Codec := {|
  v1_read s := (s, Err Msg.ErrJSON);
  v1_read_into s _ := (s, Err Msg.ErrJSON);
  v1_write w _ := (w, Err Msg.ErrJSON)
|}.

#[export] Instance shared : Wire.SharedConn := λ consumed rest, consumed ++ rest.
End Demo.
Import Demo.

Lemma handshake_agrees_witness :
  ∃ ctx ws1, acceptConnection (λ _, "") (Some Wire.demo_random) (Wire.mkWriter [] 100)
    (Wire.written (exchangeLogin_send Demo.cpu (Some Wire.demo_random) Demo.transport
       (Wire.mkWriter [] 100) (Demo.login "meo")).1 ++ [xee]) =
    (ws1, [xee], Ok (mkAccepted Wire.ProtocolV2 (Some ctx) (Msg.MLogin (Demo.login "meo")))).
Proof.
  destruct (handshake_agrees (λ _, "") Demo.cpu Demo.transport Wire.demo_random Wire.demo_random
    (x01 :: Wire.demo_random) (Wire.mkWriter [] 100)
    (exchangeLogin_send Demo.cpu (Some Wire.demo_random) Demo.transport
       (Wire.mkWriter [] 100) (Demo.login "meo")).1
    (Wire.mkWriter [] 100) (Demo.login "meo") (Some Wire.demo_random) [xee])
    as (sent & ctx & ws1 & Hw & Hacc & _).
  1-3: reflexivity.
  - intros b [= <-]. reflexivity.
  - intros b [= <-]. reflexivity.
  - intros b [= <-]. reflexivity.
  - reflexivity.
  - unfold Wire.DefaultMaxFramePayloadSize. simpl. lia.
  - simpl. lia.
  - vm_compute. reflexivity.
  - exists ctx, ws1. rewrite Hw. exact Hacc.
Defined.

(** A hello whose random is too short. *)
Definition demo_short : Wire.Frame := Wire.mkFrame Wire.FrameTypeClientHello 0 [x2a].

Lemma hello_refused_witness :
  error_text (λ _, "") (Wire.ErrClientRandomLength 1) =
    "invalid crypto client random length 1, want 32" ∧
  ∃ w1, handleClientHello (λ _, "") (Some Wire.demo_random) (Wire.mkWriter [] 100) demo_short =
    (w1, Err (ErrHello (Wire.ErrClientRandomLength 1))).
Proof.
  split; [vm_compute; reflexivity|].
  destruct (hello_refused (λ _, "") (Some Wire.demo_random) (Wire.mkWriter [] 100) demo_short
    (client_hello Demo.cpu Demo.transport [x2a]) (Wire.ErrClientRandomLength 1)
    (x00 :: list_byte_of_string "invalid crypto client random length 1, want 32") [x2a] [])
    as (w1 & sent & Hh & _).
  - reflexivity.
  - vm_compute. reflexivity.
  - intros b [= <-]. vm_compute. reflexivity.
  - vm_compute. reflexivity.
  - vm_compute. congruence.
  - vm_compute. lia.
  - exists w1. exact Hh.
Defined.

Lemma context_binds_hellos_witness :
  let frame := Wire.mkFrame Wire.FrameTypeClientHello 0 Wire.demo_random in
  (Wire.Payload frame = Wire.demo_random ∧
   Wire.written (handleClientHello (λ _, "") (Some Wire.demo_random) (Wire.mkWriter [] 100) frame).1 =
     [] ++ Wire.frame_bytes
       (Wire.mkFrame Wire.FrameTypeServerHello 0 (x01 :: Wire.demo_random))) ∨
  ∃ x y : list byte, x ≠ y ∧ sha256 x = sha256 y.
Proof.
  intros frame.
  apply (context_binds_hellos (λ _, "") (Some Wire.demo_random) (Wire.mkWriter [] 100) _ frame
    (Wire.NewCryptoContext sha256 "aes-256-gcm" Wire.demo_random (x01 :: Wire.demo_random))).
  1-3: reflexivity.
  - vm_compute. reflexivity.
  - vm_compute. reflexivity.
Defined.

End Handshake.
