(* ===== verification/Nathole.v ===== *)
(** NAT traversal, the deciding part: pkg/nathole/classify.go (what kind of
    NAT a peer is behind) and analysis.go (which pair of behaviours to try
    next, and how their scores move).

    Times are nanoseconds; a clock reading is an argument of the operations
    that read the clock. Scores are Go ints kept as integers: one operation
    moves a score by at most two, so their width is never reached. *)
From Stdlib Require Import ZArith Lia String.
From stdpp Require Import base gmap strings list fin_maps relations.
From S2P Require Import Prelude GoLib.

Local Open Scope Z_scope.
Local Open Scope frp_scope.

Module Nathole.

(** ** classify.go *)

Definition EasyNAT : string := "EasyNAT".
Definition HardNAT : string := "HardNAT".
Definition BehaviorNoChange : string := "BehaviorNoChange".
Definition BehaviorIPChanged : string := "BehaviorIPChanged".
Definition BehaviorPortChanged : string := "BehaviorPortChanged".
Definition BehaviorBothChanged : string := "BehaviorBothChanged".

Record NatFeature := mkFeature {
  NatType : string; Behavior : string; PortsDifference : Z;
  RegularPortsChange : bool; PublicNetwork : bool }.

Inductive error :=
| ErrNotEnough
| ErrAddr (addr : string) (e : addr_error)
| ErrPort (port : string).

(** The locals of the loop over the addresses. *)
Record scan := mkScan {
  sc_public : bool; sc_ipChanged : bool; sc_portChanged : bool;
  sc_baseIP : string; sc_basePort : string; sc_portMax : Z; sc_portMin : Z }.

Definition scan_init : scan := mkScan false false false "" "" 0 0.

Definition scan_addr (localIPs : list string) (s : scan) (addr : string) : res error scan :=
  match SplitHostPort addr with
  | Err e => Err (ErrAddr addr e)
  | Ok (ip, port) =>
      match Atoi port with
      | None => Err (ErrPort port)
      | Some portNum =>
          let public := if bool_decide (ip ∈ localIPs) then true else sc_public s in
          if String.eqb (sc_baseIP s) "" then
            Ok (mkScan public (sc_ipChanged s) (sc_portChanged s) ip port portNum portNum)
          else
            Ok (mkScan public
                  (if negb (String.eqb (sc_baseIP s) ip) then true else sc_ipChanged s)
                  (if negb (String.eqb (sc_basePort s) port) then true else sc_portChanged s)
                  (sc_baseIP s) (sc_basePort s)
                  (Z.max (sc_portMax s) portNum) (Z.min (sc_portMin s) portNum))
      end
  end.

Fixpoint scan_all (localIPs : list string) (s : scan) (addrs : list string) : res error scan :=
  match addrs with
  | [] => Ok s
  | a :: addrs' => let? s := scan_addr localIPs s a in scan_all localIPs s addrs'
  end.

Definition ClassifyNATFeature (addresses localIPs : list string) : res error NatFeature :=
  if (length addresses <=? 1)%nat then Err ErrNotEnough
  else
    let? s := scan_all localIPs scan_init addresses in
    let '(natType, behavior) :=
      if sc_ipChanged s && sc_portChanged s then (HardNAT, BehaviorBothChanged)
      else if sc_ipChanged s then (HardNAT, BehaviorIPChanged)
      else if sc_portChanged s then (HardNAT, BehaviorPortChanged)
      else (EasyNAT, BehaviorNoChange) in
    if String.eqb behavior BehaviorPortChanged then
      let diff := sc_portMax s - sc_portMin s in
      Ok (mkFeature natType behavior diff ((diff <=? 5) && (1 <=? diff)) (sc_public s))
    else Ok (mkFeature natType behavior 0 false (sc_public s)).

(** Easy, hard, and hard with regular port changes. *)
Definition ClassifyFeatureCount (features : list NatFeature) : Z * Z * Z :=
  fold_left (λ '(easyCount, hardCount, portsChangedRegularCount) feature,
    if String.eqb (NatType feature) EasyNAT
    then (easyCount + 1, hardCount, portsChangedRegularCount)
    else (easyCount, hardCount + 1,
          if RegularPortsChange feature then portsChangedRegularCount + 1
          else portsChangedRegularCount)) features (0, 0, 0).

(** ** analysis.go: the behaviours *)

Definition DetectMode0 : Z := 0.
Definition DetectMode1 : Z := 1.
Definition DetectMode2 : Z := 2.
Definition DetectMode3 : Z := 3.
Definition DetectMode4 : Z := 4.
Definition DetectRoleSender : string := "sender".
Definition DetectRoleReceiver : string := "receiver".

Record RecommandBehavior := mkRB {
  Role : string; TTL : Z; SendDelayMs : Z; PortsRangeNumber : Z;
  PortsRandomNumber : Z; ListenRandomPorts : Z }.

(** A sender by its delay, range and random numbers, a receiver by its ttl,
    range and number of ports to listen on. *)
Definition sender (delay range random : Z) : RecommandBehavior :=
  mkRB DetectRoleSender 0 delay range random 0.
Definition receiver (ttl range listen : Z) : RecommandBehavior :=
  mkRB DetectRoleReceiver ttl 0 range 0 listen.

Definition mode0Behaviors : list (RecommandBehavior * RecommandBehavior) :=
  [ (sender 0 0 0, receiver 7 0 0);
    (receiver 7 0 0, sender 0 0 0);
    (sender 0 0 0, receiver 4 0 0);
    (receiver 4 0 0, sender 0 0 0);
    (sender 0 0 0, receiver 0 0 0);
    (receiver 0 0 0, sender 0 0 0);
    (sender 5000 0 0, receiver 0 0 0);
    (sender 10000 0 0, receiver 0 0 0);
    (receiver 0 0 0, sender 5000 0 0);
    (receiver 0 0 0, sender 10000 0 0) ].

Definition mode1Behaviors : list (RecommandBehavior * RecommandBehavior) :=
  [ (sender 0 0 0, receiver 7 10 0);
    (sender 2000 0 0, receiver 7 10 0);
    (sender 0 0 0, receiver 4 10 0);
    (sender 2000 0 0, receiver 4 10 0);
    (sender 0 0 0, receiver 0 10 0);
    (sender 2000 0 0, receiver 0 10 0) ].

Definition mode2Behaviors : list (RecommandBehavior * RecommandBehavior) :=
  [ (sender 3000 0 1000, receiver 7 0 256);
    (sender 3000 0 1000, receiver 4 0 256);
    (sender 3000 0 1000, receiver 0 0 256) ].

Definition mode3Behaviors : list (RecommandBehavior * RecommandBehavior) :=
  [ (sender 0 10 0, receiver 7 10 0);
    (sender 0 10 0, receiver 4 10 0);
    (sender 0 10 0, receiver 0 10 0);
    (receiver 7 10 0, sender 0 10 0);
    (receiver 4 10 0, sender 0 10 0);
    (receiver 0 10 0, sender 0 10 0) ].

Definition mode4Behaviors : list (RecommandBehavior * RecommandBehavior) :=
  [ (sender 3000 0 1000, receiver 7 2 256);
    (sender 3000 0 1000, receiver 4 2 256);
    (sender 3000 0 1000, receiver 0 2 256) ].

Definition getBehaviorByMode (mode : Z) : list (RecommandBehavior * RecommandBehavior) :=
  if mode =? 0 then mode0Behaviors
  else if mode =? 1 then mode1Behaviors
  else if mode =? 2 then mode2Behaviors
  else if mode =? 3 then mode3Behaviors
  else if mode =? 4 then mode4Behaviors
  else mode0Behaviors.

Definition getBehaviorByModeAndIndex (mode : Z) (index : nat) :
    RecommandBehavior * RecommandBehavior :=
  match getBehaviorByMode mode !! index with
  | None => (mkRB "" 0 0 0 0 0, mkRB "" 0 0 0 0 0)
  | Some b => b
  end.

(** ** analysis.go: the scores of a pair of peers *)

Record behaviorScore := mkScore { Mode : Z; Index : nat; Score : Z }.

Definition getBehaviorScoresByMode2 (mode senderScore receiverScore : Z) : list behaviorScore :=
  imap (λ i b, mkScore mode i
          (if String.eqb (Role b.1) DetectRoleSender then senderScore else receiverScore))
    (getBehaviorByMode mode).

Definition getBehaviorScoresByMode (mode defaultScore : Z) : list behaviorScore :=
  getBehaviorScoresByMode2 mode defaultScore defaultScore.

Record makeHoleRecords := mkRecords { scores : list behaviorScore; lastUpdateTime : Z }.

Definition newMakeHoleRecords (now : Z) (c v : NatFeature) : makeHoleRecords :=
  let '(easyCount, hardCount, portsChangedRegularCount) := ClassifyFeatureCount [c; v] in
  let mode0 :=
    if PublicNetwork c then getBehaviorScoresByMode2 DetectMode0 0 1
    else if PublicNetwork v then getBehaviorScoresByMode2 DetectMode0 1 0
    else getBehaviorScoresByMode DetectMode0 0 in
  let scores :=
    if easyCount =? 2 then mode0
    else if (hardCount =? 1) && (portsChangedRegularCount =? 1) then
      getBehaviorScoresByMode DetectMode1 0 ++ getBehaviorScoresByMode DetectMode2 0 ++ mode0
    else if (hardCount =? 1) && (portsChangedRegularCount =? 0) then
      getBehaviorScoresByMode DetectMode2 0 ++ getBehaviorScoresByMode DetectMode1 0 ++ mode0
    else if (hardCount =? 2) && (portsChangedRegularCount =? 2) then
      getBehaviorScoresByMode DetectMode3 0 ++ getBehaviorScoresByMode DetectMode4 0
    else if (hardCount =? 2) && (portsChangedRegularCount =? 1) then
      getBehaviorScoresByMode DetectMode4 0
    else
      getBehaviorScoresByMode DetectMode0 1 ++ getBehaviorScoresByMode DetectMode1 1 ++
      getBehaviorScoresByMode DetectMode3 1 in
  mkRecords scores now.

(** The loop of [reportSuccess]: the first entry of that mode and index. *)
Fixpoint raise (mode : Z) (index : nat) (l : list behaviorScore) : list behaviorScore :=
  match l with
  | [] => []
  | b :: l' =>
      if negb (Mode b =? mode) || negb (Nat.eqb (Index b) index)
      then b :: raise mode index l'
      else mkScore (Mode b) (Index b) (Z.min (Score b + 2) 10) :: l'
  end.

Definition reportSuccess (now : Z) (mhr : makeHoleRecords) (mode : Z) (index : nat) :
    makeHoleRecords :=
  mkRecords (raise mode index (scores mhr)) now.

(** [slices.MaxFunc] by score: the position of the first maximal entry; [i] is
    the position of the head of [l], [best] that of the maximum so far. *)
Fixpoint max_from (i best : nat) (bestScore : Z) (l : list behaviorScore) : nat :=
  match l with
  | [] => best
  | b :: l' =>
      if bestScore <? Score b then max_from (S i) i (Score b) l'
      else max_from (S i) best bestScore l'
  end.

Definition MaxFunc (l : list behaviorScore) : nat :=
  match l with [] => 0%nat | b :: l' => max_from 1 0 (Score b) l' end.

Definition lower (b : behaviorScore) : behaviorScore := mkScore (Mode b) (Index b) (Score b - 1).

Definition recommand (now : Z) (mhr : makeHoleRecords) : makeHoleRecords * (Z * nat) :=
  let k := MaxFunc (scores mhr) in
  match scores mhr !! k with
  | None => (mhr, (0, 0%nat))
  | Some b => (mkRecords (alter lower k (scores mhr)) now, (Mode b, Index b))
  end.

(** ** analysis.go: the analyzer *)

Record Analyzer := mkAnalyzer {
  records : gmap string makeHoleRecords; dataReserveDuration : Z }.

Definition NewAnalyzer (dataReserveDuration : Z) : Analyzer := mkAnalyzer ∅ dataReserveDuration.

(** The switch of [GetRecommandBehaviors]: whether the pair of the table is
    exchanged for this client. *)
Definition swapped (mode : Z) (c : NatFeature) : bool :=
  if mode =? DetectMode1 then String.eqb (NatType c) EasyNAT
  else if mode =? DetectMode2 then String.eqb (NatType c) HardNAT
  else if mode =? DetectMode4 then negb (RegularPortsChange c)
  else false.

Definition GetRecommandBehaviors (now : Z) (a : Analyzer) (key : string) (c v : NatFeature) :
    Analyzer * (Z * nat * RecommandBehavior * RecommandBehavior) :=
  let r := match records a !! key with
           | Some r => r
           | None => newMakeHoleRecords now c v
           end in
  let '(r, (mode, index)) := recommand now r in
  let '(cBehavior, vBehavior) := getBehaviorByModeAndIndex mode index in
  (mkAnalyzer (<[key := r]> (records a)) (dataReserveDuration a),
   if swapped mode c then (mode, index, vBehavior, cBehavior) else (mode, index, cBehavior, vBehavior)).

Definition ReportSuccess (now : Z) (a : Analyzer) (key : string) (mode : Z) (index : nat) : Analyzer :=
  match records a !! key with
  | None => a
  | Some r =>
      mkAnalyzer (<[key := reportSuccess now r mode index]> (records a)) (dataReserveDuration a)
  end.

(** The analyzer, how many records were removed, how many there were. *)
Definition Clean (now : Z) (a : Analyzer) : Analyzer * (nat * nat) :=
  let kept := filter (λ kr, ¬ (dataReserveDuration a < now - lastUpdateTime kr.2)) (records a) in
  (mkAnalyzer kept (dataReserveDuration a),
   ((size (records a) - size kept)%nat, size (records a))).

(** The analyzer's executions, its three operations in any order. *)
Inductive step : Analyzer → Analyzer → Prop :=
| StepGet now a key c v : step a (GetRecommandBehaviors now a key c v).1
| StepReport now a key mode index : step a (ReportSuccess now a key mode index)
| StepClean now a : step a (Clean now a).1.

(** ** The first maximal score *)

Section MaxFunc.
Implicit Types l : list behaviorScore.

(** [k] is the position of the first maximal entry [x] of [l]. *)
Definition first_max l (k : nat) (x : behaviorScore) : Prop :=
  l !! k = Some x ∧ (∀ j y, l !! j = Some y → Score y ≤ Score x) ∧
  (∀ j y, (j < k)%nat → l !! j = Some y → Score y < Score x).

Lemma max_from_spec l pre best b :
  first_max pre best b →
  ∃ x, first_max (pre ++ l) (max_from (length pre) best (Score b) l) x.
Proof.
  revert pre best b. induction l as [|y l IH]; intros pre best b (Hb & Hle & Hlt); simpl.
  - rewrite app_nil_r. exists b. by split_and!.
  - rewrite (cons_middle y pre l), app_assoc.
    replace (S (length pre)) with (length (pre ++ [y])) by (rewrite length_app; simpl; lia).
    destruct (Z.ltb_spec (Score b) (Score y)) as [Hy|Hy]; apply IH; split_and!.
    + by rewrite lookup_app_r, Nat.sub_diag by lia.
    + intros j z [Hz|[_ Hz]]%lookup_app_Some; [apply Hle in Hz; lia|].
      by apply list_lookup_singleton_Some in Hz as [_ <-].
    + intros j z Hj [Hz|[? _]]%lookup_app_Some; [apply Hle in Hz|]; lia.
    + by apply lookup_app_l_Some.
    + intros j z [Hz|[_ Hz]]%lookup_app_Some; [eauto|].
      by apply list_lookup_singleton_Some in Hz as [_ <-].
    + intros j z Hj [Hz|[Hn _]]%lookup_app_Some; [eauto|].
      apply lookup_lt_Some in Hb. lia.
Qed.

Lemma MaxFunc_spec l : l ≠ [] → ∃ x, first_max l (MaxFunc l) x.
Proof.
  destruct l as [|b l]; [done|]. intros _. apply (max_from_spec l [b] 0 b).
  split_and!; [done| |intros; lia]. intros [|j] y; [|done]. by intros [= ->].
Qed.

Lemma first_max_unique l k1 k2 x1 x2 :
  first_max l k1 x1 → first_max l k2 x2 → k1 = k2 ∧ x1 = x2.
Proof.
  intros (H1 & Hle1 & Hlt1) (H2 & Hle2 & Hlt2).
  assert (k1 = k2) as ->; [|split; congruence].
  pose proof (Hle1 _ _ H2). pose proof (Hle2 _ _ H1).
  destruct (Nat.lt_trichotomy k1 k2) as [Hk|[Hk|Hk]]; [|done|].
  - specialize (Hlt2 _ _ Hk H1). lia.
  - specialize (Hlt1 _ _ Hk H2). lia.
Qed.

Lemma MaxFunc_eq l k x : first_max l k x → MaxFunc l = k.
Proof.
  intros Hk. destruct (MaxFunc_spec l) as [y Hy].
  { intros ->. destruct Hk as [Hk _]. done. }
  by destruct (first_max_unique _ _ _ _ _ Hk Hy).
Qed.
End MaxFunc.

Lemma recommand_spec now r r' mode index :
  scores r ≠ [] → recommand now r = (r', (mode, index)) →
  ∃ k x, first_max (scores r) k x ∧ mode = Mode x ∧ index = Index x ∧
    r' = mkRecords (alter lower k (scores r)) now.
Proof.
  intros Hne. destruct (MaxFunc_spec (scores r) Hne) as [x Hx].
  unfold recommand. rewrite (proj1 Hx). intros [= <- <- <-]. eauto 10.
Qed.

(** ** The invariant of the records *)

(** Which behaviours a record scores: operations only move the scores. *)
Definition shape (l : list behaviorScore) : list (Z * nat) := (λ b, (Mode b, Index b)) <$> l.

(** Every entry names a behaviour of the tables, no behaviour is scored
    twice, and no score exceeds ten. *)
Record records_ok (r : makeHoleRecords) : Prop := {
  ok_nonempty : scores r ≠ [];
  ok_valid : Forall (λ mi, is_Some (getBehaviorByMode mi.1 !! mi.2)) (shape (scores r));
  ok_nodup : NoDup (shape (scores r));
  ok_max : Forall (λ b, Score b ≤ 10) (scores r)
}.

Lemma shape_alter l k : shape (alter lower k l) = shape l.
Proof.
  unfold shape. revert k. induction l as [|b l IH]; intros [|k]; simpl; [done..|].
  f_equal. apply IH.
Qed.

Lemma shape_raise mode index l : shape (raise mode index l) = shape l.
Proof.
  unfold shape. induction l as [|b l IH]; simpl; [done|].
  destruct (_ || _); simpl; [f_equal; exact IH|done].
Qed.

Lemma shape_nil l : shape l = [] ↔ l = [].
Proof. by destruct l. Qed.

Lemma records_ok_change r r' :
  records_ok r → shape (scores r') = shape (scores r) →
  Forall (λ b, Score b ≤ 10) (scores r') → records_ok r'.
Proof.
  intros [Hn Hv Hd _] Hs Hm. split; [|by rewrite Hs..|done].
  by rewrite <- shape_nil, Hs, shape_nil.
Qed.

Lemma records_ok_report now r mode index :
  records_ok r → records_ok (reportSuccess now r mode index).
Proof.
  intros Hr. apply (records_ok_change r); [done|apply shape_raise|].
  destruct Hr as [_ _ _ Hm]. simpl. induction Hm as [|b l Hb Hl IH]; simpl; [done|].
  destruct (_ || _); constructor; simpl; [done..|lia|done].
Qed.

Lemma records_ok_recommand now r : records_ok r → records_ok (recommand now r).1.
Proof.
  intros Hr. destruct (recommand now r) as [r' [m i]] eqn:Hrec. simpl.
  pose proof (ok_nonempty _ Hr) as Hne.
  apply recommand_spec in Hrec as (k & x & _ & _ & _ & ->); [|done].
  apply (records_ok_change r); [done|apply shape_alter|].
  apply Forall_alter; [by destruct Hr|]. intros b _ Hb. simpl. lia.
Qed.

(** The seven lists a new record may start with. *)
Definition records_okb (l : list behaviorScore) : bool :=
  negb (bool_decide (l = [])) &&
  forallb (λ mi, bool_decide (is_Some (getBehaviorByMode mi.1 !! mi.2))) (shape l) &&
  bool_decide (NoDup (shape l)) && forallb (λ b, (0 <=? Score b) && (Score b <=? 1)) l.

#[export] Instance behaviorScore_eq_dec : EqDecision behaviorScore.
Proof. solve_decision. Defined.

Lemma records_okb_sound r :
  records_okb (scores r) = true →
  records_ok r ∧ Forall (λ b, 0 ≤ Score b ≤ 1) (scores r).
Proof.
  unfold records_okb. intros H. bool_to_prop.
  assert (Forall (λ b, 0 ≤ Score b ≤ 1) (scores r)) as Hs.
  { apply Forall_forall. intros b Hb.
    match goal with H : forallb _ (scores r) = true |- _ => rewrite forallb_forall in H;
      specialize (H b (proj1 (list_elem_of_In _ _) Hb)) end. bool_to_prop. lia. }
  split; [|done]. split; [done| |done|by eapply Forall_impl; [exact Hs|]; simpl; lia].
  apply Forall_forall. intros mi Hmi.
  match goal with H : forallb _ (shape _) = true |- _ => rewrite forallb_forall in H;
    specialize (H mi (proj1 (list_elem_of_In _ _) Hmi)) end. by bool_to_prop.
Qed.

Lemma new_records_okb now c v : records_okb (scores (newMakeHoleRecords now c v)) = true.
Proof.
  unfold newMakeHoleRecords, ClassifyFeatureCount, fold_left.
  destruct (String.eqb (NatType c) EasyNAT), (String.eqb (NatType v) EasyNAT),
    (RegularPortsChange c), (RegularPortsChange v), (PublicNetwork c), (PublicNetwork v);
    vm_compute; reflexivity.
Qed.

Lemma new_records_ok now c v : records_ok (newMakeHoleRecords now c v).
Proof. apply records_okb_sound, new_records_okb. Qed.

Definition analyzer_ok (a : Analyzer) : Prop := map_Forall (λ _ r, records_ok r) (records a).

(** The record a recommendation is taken from. *)
Definition record_for (now : Z) (a : Analyzer) (key : string) (c v : NatFeature) : makeHoleRecords :=
  match records a !! key with Some r => r | None => newMakeHoleRecords now c v end.

Lemma record_for_ok now a key c v : analyzer_ok a → records_ok (record_for now a key c v).
Proof.
  intros Ha. unfold record_for. destruct (records a !! key) as [r|] eqn:Hr; simpl.
  - by apply (Ha key).
  - apply new_records_ok.
Qed.

Lemma Get_records now a key c v :
  records (GetRecommandBehaviors now a key c v).1 =
    <[key := (recommand now (record_for now a key c v)).1]> (records a).
Proof.
  unfold GetRecommandBehaviors. fold (record_for now a key c v). destruct (recommand _ _) as [r [m i]].
  destruct (getBehaviorByModeAndIndex m i). done.
Qed.

Lemma analyzer_ok_step a a' : analyzer_ok a → step a a' → analyzer_ok a'.
Proof.
  intros Ha. destruct 1 as [now a key c v|now a key mode index|now a]; unfold analyzer_ok.
  - rewrite Get_records. apply map_Forall_insert_2; [|done].
    by apply records_ok_recommand, record_for_ok.
  - unfold ReportSuccess. destruct (records a !! key) as [r|] eqn:Hr; [|done].
    apply map_Forall_insert_2; [|done]. by apply records_ok_report, (Ha key).
  - intros k r [Hr _]%map_lookup_filter_Some. by apply (Ha k).
Qed.

Definition reachable (d : Z) (a : Analyzer) : Prop := rtc step (NewAnalyzer d) a.

Lemma analyzer_ok_reachable d a : reachable d a → analyzer_ok a.
Proof.
  intros Hr. apply (rtc_invariant step analyzer_ok analyzer_ok_step _ _ Hr).
  apply map_Forall_empty.
Qed.

(** ** Roles *)

Definition complementary (b1 b2 : RecommandBehavior) : Prop :=
  (Role b1 = DetectRoleSender ∧ Role b2 = DetectRoleReceiver) ∨
  (Role b1 = DetectRoleReceiver ∧ Role b2 = DetectRoleSender).

(** The tables pair one sender with one receiver, and the modes whose roles
    are assigned by the NAT's kind list the sender first. *)
Lemma table_roles mode index b1 b2 :
  getBehaviorByMode mode !! index = Some (b1, b2) →
  complementary b1 b2 ∧
  (mode = DetectMode1 ∨ mode = DetectMode2 ∨ mode = DetectMode4 →
   Role b1 = DetectRoleSender ∧ Role b2 = DetectRoleReceiver).
Proof.
  assert (∀ l, Forall (λ p : RecommandBehavior * RecommandBehavior, complementary p.1 p.2) l →
    l !! index = Some (b1, b2) → complementary b1 b2) as Hc.
  { intros l Hl Hi. by apply (Forall_lookup_1 _ _ _ _ Hl) in Hi. }
  assert (∀ l, Forall (λ p : RecommandBehavior * RecommandBehavior,
      Role p.1 = DetectRoleSender ∧ Role p.2 = DetectRoleReceiver) l →
    l !! index = Some (b1, b2) → Role b1 = DetectRoleSender ∧ Role b2 = DetectRoleReceiver) as Hs.
  { intros l Hl Hi. by apply (Forall_lookup_1 _ _ _ _ Hl) in Hi. }
  intros Hi. split.
  - revert Hi. unfold getBehaviorByMode.
    repeat case_match; apply Hc; repeat apply Forall_cons_2; try apply Forall_nil_2;
      unfold complementary; simpl; auto.
  - intros [-> | [-> | ->]]; revert Hi; apply Hs; repeat constructor; simpl; auto.
Qed.

(** What a recommendation is, in terms of the record it is taken from. *)
Lemma Get_spec now a key c v a' mode index cb vb :
  records_ok (record_for now a key c v) →
  GetRecommandBehaviors now a key c v = (a', (mode, index, cb, vb)) →
  ∃ k x b1 b2, first_max (scores (record_for now a key c v)) k x ∧
    mode = Mode x ∧ index = Index x ∧ getBehaviorByMode mode !! index = Some (b1, b2) ∧
    records a' = <[key := mkRecords (alter lower k (scores (record_for now a key c v))) now]> (records a) ∧
    (cb, vb) = if swapped mode c then (b2, b1) else (b1, b2).
Proof.
  intros Hok. pose proof (Get_records now a key c v) as Hrec. revert Hrec.
  unfold GetRecommandBehaviors. fold (record_for now a key c v). destruct (recommand _ _) as [r' [m i]] eqn:Hr.
  apply recommand_spec in Hr as (k & x & Hmax & -> & -> & ->); [|apply Hok].
  assert (is_Some (getBehaviorByMode (Mode x) !! Index x)) as [[b1 b2] Hb].
  { destruct Hok as [_ Hv _ _]. rewrite Forall_forall in Hv.
    apply (Hv (Mode x, Index x)). apply list_elem_of_fmap. exists x. split; [done|].
    eapply list_elem_of_lookup_2, Hmax. }
  unfold getBehaviorByModeAndIndex. rewrite Hb. intros Hrec Hg.
  assert (records a' = <[key := mkRecords (alter lower k (scores (record_for now a key c v))) now]>
    (records a)) as Ha by (destruct (swapped (Mode x) c); by simplify_eq/=).
  exists k, x, b1, b2. clear Hrec.
  destruct (swapped (Mode x) c) eqn:Hsw; simplify_eq/=; rewrite Hsw; do 5 (split; [done|]); done.
Qed.

Lemma Get_complementary d now a key c v a' mode index cb vb :
  reachable d a → GetRecommandBehaviors now a key c v = (a', (mode, index, cb, vb)) →
  complementary cb vb.
Proof.
  intros Hreach Hg. apply Get_spec in Hg as (k & x & b1 & b2 & _ & -> & -> & Hb & _ & Hsw);
    [|by apply record_for_ok, (analyzer_ok_reachable d)].
  apply table_roles in Hb as [Hc _]. destruct (swapped _ c); injection Hsw as -> ->; [|done].
  destruct Hc as [[? ?]|[? ?]]; [by right|by left].
Qed.

(** Every recommendation is a workable pair. In every state the
    analyzer can reach, the client and the visitor are given one sender and
    one receiver; in mode 1 a hard NAT facing an easy one is the sender, in
    mode 2 it is the receiver, and in mode 4 the peer whose ports change
    regularly, facing one whose ports do not, is the sender. *)
Theorem recommendation_roles (d now : Z) (a a' : Analyzer) (key : string) (c v : NatFeature)
    (mode : Z) (index : nat) (cb vb : RecommandBehavior) :
  reachable d a → GetRecommandBehaviors now a key c v = (a', (mode, index, cb, vb)) →
  complementary cb vb ∧
  (mode = DetectMode1 → NatType c = HardNAT ∧ NatType v = EasyNAT → Role cb = DetectRoleSender) ∧
  (mode = DetectMode1 → NatType c = EasyNAT ∧ NatType v = HardNAT → Role vb = DetectRoleSender) ∧
  (mode = DetectMode2 → NatType c = HardNAT ∧ NatType v = EasyNAT → Role vb = DetectRoleSender) ∧
  (mode = DetectMode2 → NatType c = EasyNAT ∧ NatType v = HardNAT → Role cb = DetectRoleSender) ∧
  (mode = DetectMode4 → RegularPortsChange c = true → Role cb = DetectRoleSender) ∧
  (mode = DetectMode4 → RegularPortsChange c = false ∧ RegularPortsChange v = true →
   Role vb = DetectRoleSender).
Proof.
  intros Hreach Hg. split; [by eapply Get_complementary|].
  apply Get_spec in Hg as (k & x & b1 & b2 & _ & -> & -> & Hb & _ & Hsw);
    [|by apply record_for_ok, (analyzer_ok_reachable d)].
  apply table_roles in Hb as [_ Hs].
  split_and!; intros Hm Hn; rewrite Hm in Hsw, Hs; destruct Hs as [Hs1 Hs2]; auto;
      unfold swapped in Hsw; simpl in Hsw; rewrite ?(proj1 Hn), ?Hn in Hsw; simpl in Hsw;
      injection Hsw as -> ->; done.
Qed.

(** ** Scores *)

Lemma alter_lookup_ne_lower k j (l : list behaviorScore) : k ≠ j → alter lower k l !! j = l !! j.
Proof. apply list_lookup_alter_ne. Qed.

Lemma alter_lookup_lower k (l : list behaviorScore) x :
  l !! k = Some x → alter lower k l !! k = Some (lower x).
Proof. intros Hx. by rewrite list_lookup_alter_eq, Hx. Qed.

(** The entry a success raises, when the record has it at position [k]. *)
Lemma raise_at mode index l k x :
  NoDup (shape l) → l !! k = Some x → Mode x = mode → Index x = index →
  raise mode index l = <[k := mkScore mode index (Z.min (Score x + 2) 10)]> l.
Proof.
  intros Hnd Hk <- <-. revert k Hnd Hk. induction l as [|b l IH]; intros [|k] Hnd Hk; [done..| |].
  - injection Hk as ->. simpl. by rewrite Z.eqb_refl, Nat.eqb_refl.
  - simpl in Hnd, Hk |- *. apply NoDup_cons in Hnd as [Hni Hnd].
    destruct (negb (Mode b =? Mode x) || _) eqn:Hb; [f_equal; by apply IH|].
    bool_to_prop. exfalso. apply Hni.
    match goal with H : Nat.eqb _ _ = true |- _ => apply Nat.eqb_eq in H as -> end.
    replace (Mode b) with (Mode x) by lia.
    apply list_elem_of_fmap. exists x. split; [done|]. by eapply list_elem_of_lookup_2.
Qed.

(** What succeeds is tried again: in a reachable state, when a
    recommendation was taken from scores that are all below ten, and it is
    reported as a success, the next recommendation for the same peers is the
    same behaviour. *)
Theorem success_is_repeated (d now now1 now2 : Z) (a a1 : Analyzer) (key : string)
    (c v c' v' : NatFeature) (mode : Z) (index : nat) (cb vb : RecommandBehavior) :
  reachable d a →
  Forall (λ b, Score b ≤ 9) (scores (record_for now a key c v)) →
  GetRecommandBehaviors now a key c v = (a1, (mode, index, cb, vb)) →
  (GetRecommandBehaviors now2 (ReportSuccess now1 a1 key mode index) key c' v').2.1.1 =
    (mode, index).
Proof.
  intros Hreach H9 Hg. pose proof (record_for_ok now a key c v (analyzer_ok_reachable d a Hreach)) as Hok.
  apply Get_spec in Hg as (k & x & b1 & b2 & (Hk & Hle & _) & -> & -> & _ & Hrec & _); [|done].
  set (l := scores (record_for now a key c v)) in *.
  set (l' := <[k := mkScore (Mode x) (Index x) (Z.min (Score x + 1) 10)]> l).
  assert (records (ReportSuccess now1 a1 key (Mode x) (Index x)) !! key = Some (mkRecords l' now1)) as Ha2.
  { unfold ReportSuccess. rewrite Hrec, lookup_insert_eq. simpl. rewrite lookup_insert_eq.
    unfold reportSuccess. simpl. do 2 f_equal.
    rewrite (raise_at (Mode x) (Index x) _ k (lower x)); [|by rewrite shape_alter; apply Hok|
      by apply alter_lookup_lower|done..].
    unfold l'. apply list_eq. intros j. destruct (decide (k = j)) as [<-|Hj].
    - rewrite !list_lookup_insert_eq; [simpl; do 2 f_equal; lia| |].
      + by eapply lookup_lt_Some.
      + rewrite length_alter. by eapply lookup_lt_Some.
    - by rewrite !list_lookup_insert_ne, alter_lookup_ne_lower by done. }
  assert (first_max l' k (mkScore (Mode x) (Index x) (Z.min (Score x + 1) 10))) as Hmax.
  { assert (Score x ≤ 9) as Hx by (by eapply Forall_lookup_1 in H9).
    assert (∀ j y, j ≠ k → l' !! j = Some y → Score y ≤ Score x) as Hy.
    { intros j y Hj. unfold l'. rewrite list_lookup_insert_ne by done. apply Hle. }
    split_and!; simpl.
    - apply list_lookup_insert_eq. by eapply lookup_lt_Some.
    - intros j y Hjy. destruct (decide (j = k)) as [->|Hj]; [|apply Hy in Hjy; [lia|done]].
      unfold l' in Hjy. rewrite list_lookup_insert_eq in Hjy by (by eapply lookup_lt_Some).
      by injection Hjy as <-.
    - intros j y Hj Hjy. apply Hy in Hjy; [lia|]. lia. }
  unfold GetRecommandBehaviors. rewrite Ha2. unfold recommand. cbn [scores].
  rewrite (MaxFunc_eq _ _ _ Hmax), (proj1 Hmax). cbn [Mode Index].
  destruct (getBehaviorByModeAndIndex _ _). by case_match.
Qed.

(** ** Fairness *)

(** The positions of the next [n] recommendations. *)
Fixpoint positions (n : nat) (l : list behaviorScore) : list nat :=
  match n with
  | O => []
  | S n' => MaxFunc l :: positions n' (alter lower (MaxFunc l) l)
  end.

(** The distance of all scores from a floor. *)
Fixpoint above (floor : Z) (l : list behaviorScore) : Z :=
  match l with [] => 0 | b :: l' => Score b - floor + above floor l' end.

Lemma above_alter floor k l x :
  l !! k = Some x → above floor (alter lower k l) = above floor l - 1.
Proof.
  revert k. induction l as [|b l IH]; intros [|k] Hk; [done..| |].
  - injection Hk as ->. simpl. lia.
  - specialize (IH k Hk). unfold alter in *. simpl. lia.
Qed.

Lemma above_pos floor p l x :
  l !! p = Some x → Forall (λ b, floor ≤ Score b) l → Score x - floor ≤ above floor l.
Proof.
  intros Hp Hl. revert p Hp. induction Hl as [|b l Hb Hl IH]; intros [|p] Hp; [done..| |]; simpl.
  - injection Hp as ->. enough (0 ≤ above floor l) by lia.
    clear -Hl. induction Hl; simpl; lia.
  - specialize (IH p Hp). lia.
Qed.

(** While a position is passed over, every recommendation uses up one unit of
    the distance between the other scores and its own. *)
Lemma passed_over n l p x :
  l !! p = Some x → Forall (λ b, Score x - 1 ≤ Score b) l →
  p ∉ positions n l → Z.of_nat n < above (Score x - 1) l.
Proof.
  revert l. induction n as [|n IH]; intros l Hp Hl Hn.
  - pose proof (above_pos _ _ _ _ Hp Hl). lia.
  - simpl in Hn. apply not_elem_of_cons in Hn as [Hne Hn].
    destruct (MaxFunc_spec l) as [y (Hy & Hle & _)]; [by intros ->|].
    set (k := MaxFunc l) in *. pose proof (Hle _ _ Hp) as Hxy.
    apply IH in Hn; [rewrite (above_alter _ _ _ y) in Hn by done; lia| |].
    + by rewrite alter_lookup_ne_lower.
    + apply Forall_alter; [done|]. intros z Hz _.
      replace z with y by congruence. simpl. lia.
Qed.

(** The next [n] recommendations of a record, nothing being reported. *)
Fixpoint tries (now : Z) (n : nat) (r : makeHoleRecords) : list (Z * nat) :=
  match n with
  | O => []
  | S n' => let '(r', mi) := recommand now r in mi :: tries now n' r'
  end.

Lemma tries_positions now n r :
  scores r ≠ [] →
  Forall2 (λ mi k, ∃ b, shape (scores r) !! k = Some b ∧ mi = b) (tries now n r) (positions n (scores r)).
Proof.
  revert r. induction n as [|n IH]; intros r Hne; simpl; [constructor|].
  destruct (MaxFunc_spec (scores r) Hne) as [x (Hx & _)].
  unfold recommand. rewrite Hx. constructor.
  - exists (Mode x, Index x). split; [|done]. unfold shape. by rewrite list_lookup_fmap, Hx.
  - specialize (IH (mkRecords (alter lower (MaxFunc (scores r)) (scores r)) now)). simpl in IH.
    rewrite shape_alter in IH. apply IH. by rewrite <- shape_nil, shape_alter, shape_nil.
Qed.

(** No behaviour is starved: whatever the two peers' features, the first
    [2 n] recommendations made for them without a reported success try each
    of the [n] behaviours the record holds. *)
Theorem every_behavior_tried (now : Z) (c v : NatFeature) (b : behaviorScore) :
  let r := newMakeHoleRecords now c v in
  b ∈ scores r → (Mode b, Index b) ∈ tries now (2 * length (scores r)) r.
Proof.
  intros r Hb. destruct (records_okb_sound r (new_records_okb now c v)) as [Hok Hs].
  apply list_elem_of_lookup_1 in Hb as [p Hp].
  set (n := (2 * length (scores r))%nat).
  assert (Score b - 1 ≤ 0) as Hb1 by (apply (Forall_lookup_1 _ _ _ _ Hs) in Hp; lia).
  assert (p ∈ positions n (scores r)) as Hin.
  { destruct (decide (p ∈ positions n (scores r))) as [|Hn]; [done|exfalso].
    apply (passed_over n _ p b) in Hn; [|done|].
    2:{ eapply Forall_impl; [exact Hs|]. simpl. lia. }
    assert (0 ≤ Score b) by (apply (Forall_lookup_1 _ _ _ _ Hs) in Hp; lia).
    enough (above (Score b - 1) (scores r) ≤ 2 * Z.of_nat (length (scores r))) by lia.
    clear -Hs H. induction Hs; simpl; lia. }
  apply list_elem_of_lookup_1 in Hin as [j Hj].
  destruct (Forall2_lookup_r _ _ _ _ _ (tries_positions now n r (ok_nonempty _ Hok)) Hj)
    as (mi & Hmi & (b' & Hsh & ->)).
  unfold shape in Hsh. rewrite list_lookup_fmap, Hp in Hsh. injection Hsh as <-.
  by eapply list_elem_of_lookup_2.
Qed.

(** ** Classification *)

(** An observed address: host, port as written, port as a number. *)
Notation endpoint := (string * string * Z)%type.

Definition parsed (addr : string) (p : endpoint) : Prop :=
  SplitHostPort addr = Ok (p.1.1, p.1.2) ∧ Atoi p.1.2 = Some p.2.

Definition same_ip (ps : list endpoint) : Prop := ∀ p q, p ∈ ps → q ∈ ps → p.1.1 = q.1.1.
Definition same_port (ps : list endpoint) : Prop := ∀ p q, p ∈ ps → q ∈ ps → p.1.2 = q.1.2.

Lemma scan_all_parsed localIPs s addrs ps :
  sc_baseIP s ≠ "" → Forall2 parsed addrs ps →
  scan_all localIPs s addrs =
  Ok (mkScan (sc_public s || existsb (λ p, bool_decide (p.1.1 ∈ localIPs)) ps)
        (sc_ipChanged s || existsb (λ p, negb (String.eqb (sc_baseIP s) p.1.1)) ps)
        (sc_portChanged s || existsb (λ p, negb (String.eqb (sc_basePort s) p.1.2)) ps)
        (sc_baseIP s) (sc_basePort s)
        (fold_left (λ m p, Z.max m p.2) ps (sc_portMax s))
        (fold_left (λ m p, Z.min m p.2) ps (sc_portMin s))).
Proof.
  intros Hb Hp. revert s Hb. induction Hp as [|a p addrs ps [Hsp Hat] Hp IH]; intros s Hb.
  - simpl. rewrite !orb_false_r. by destruct s.
  - cbn [scan_all]. unfold scan_addr. rewrite Hsp, Hat.
    rewrite (proj2 (String.eqb_neq _ _) Hb). rewrite IH by done. simpl. do 2 f_equal.
    + by destruct (bool_decide _), (sc_public s).
    + by destruct (negb _), (sc_ipChanged s).
    + by destruct (negb (String.eqb _ p.1.2)), (sc_portChanged s).
Qed.

Lemma existsb_neq_false (base : string) (f : endpoint → string) ps :
  existsb (λ p, negb (String.eqb base (f p))) ps = false ↔ Forall (λ p, f p = base) ps.
Proof.
  induction ps as [|p ps IH]; simpl; [split; auto|].
  rewrite orb_false_iff, IH, Forall_cons_iff, negb_false_iff, String.eqb_eq.
  split; intros [? ?]; auto.
Qed.

(** All the endpoints agree on [f] when they agree with the first one. *)
Lemma all_same (f : endpoint → string) p ps :
  (∀ q r, q ∈ p :: ps → r ∈ p :: ps → f q = f r) ↔ Forall (λ q, f q = f p) ps.
Proof.
  rewrite Forall_forall. split.
  - intros H q Hq. apply H; [by right|by left].
  - intros H q r [->|Hq]%elem_of_cons [->|Hr]%elem_of_cons; auto; [symmetry; auto|].
    by rewrite (H q), (H r).
Qed.

Lemma fold_max_spec p ps (m := fold_left (λ m (q : endpoint), Z.max m q.2) ps p.2) :
  (∀ q, q ∈ p :: ps → q.2 ≤ m) ∧ ∃ q, q ∈ p :: ps ∧ q.2 = m.
Proof.
  assert (∀ l z, z ≤ fold_left (λ m (q : endpoint), Z.max m q.2) l z ∧
    (∀ q, q ∈ l → q.2 ≤ fold_left (λ m (q : endpoint), Z.max m q.2) l z) ∧
    (fold_left (λ m (q : endpoint), Z.max m q.2) l z = z ∨
     ∃ q, q ∈ l ∧ q.2 = fold_left (λ m (q : endpoint), Z.max m q.2) l z)) as H.
  { induction l as [|x l IH]; intros z; simpl.
    - split_and!; [lia|by intros q ?%not_elem_of_nil|by left].
    - destruct (IH (Z.max z x.2)) as (H1 & H2 & H3). split_and!.
      + lia.
      + intros q [->|Hq]%elem_of_cons; [lia|auto].
      + destruct H3 as [H3|(q & Hq & H3)].
        * destruct (Z.max_spec z x.2) as [[_ Hm]|[_ Hm]].
          -- right. exists x. split; [by left|]. lia.
          -- left. lia.
        * right. exists q. split; [by right|done]. }
  destruct (H ps p.2) as (H1 & H2 & H3). subst m. split.
  - intros q [->|Hq]%elem_of_cons; auto.
  - destruct H3 as [H3|(q & Hq & H3)]; [exists p; split; [by left|done]|].
    exists q. split; [by right|done].
Qed.

Lemma fold_min_max ps z :
  fold_left (λ m (q : endpoint), Z.min m q.2) ps z =
  - fold_left (λ m (q : endpoint), Z.max m q.2) ((λ q : endpoint, (q.1, - q.2)) <$> ps) (- z).
Proof.
  revert z. induction ps as [|p ps IH]; intros z; simpl; [lia|].
  rewrite IH. do 2 f_equal. simpl. lia.
Qed.

Lemma fold_min_spec p ps (m := fold_left (λ m (q : endpoint), Z.min m q.2) ps p.2) :
  (∀ q, q ∈ p :: ps → m ≤ q.2) ∧ ∃ q, q ∈ p :: ps ∧ q.2 = m.
Proof.
  subst m. rewrite fold_min_max. set (neg := λ q : endpoint, (q.1, - q.2)).
  destruct (fold_max_spec (neg p) (neg <$> ps)) as [H1 (q & Hq & H2)].
  change (neg p :: (neg <$> ps)) with (neg <$> (p :: ps)) in *. split.
  - intros r Hr. specialize (H1 (neg r)). simpl in H1.
    enough (- r.2 ≤ fold_left (λ m (q : endpoint), Z.max m q.2) (neg <$> ps) (- p.2)) by lia.
    apply H1. exact (list_elem_of_fmap_2 neg (p :: ps) r Hr).
  - apply list_elem_of_fmap in Hq as (r & -> & Hr). exists r. split; [done|]. simpl in H2. lia.
Qed.

(** What the classification says of a peer seen at two or more
    well-formed addresses: it is on the public network exactly when one of
    the hosts is one of its own, its NAT is easy exactly when every server saw
    the same host and port, its behaviour says which of the two varied, and
    when only the port did, the difference is the spread of the port numbers,
    regular exactly when it is between one and five. *)
Theorem classification_spec (addresses localIPs : list string) (ps : list endpoint) :
  Forall2 parsed addresses ps → (2 ≤ length ps)%nat → Forall (λ p, p.1.1 ≠ "") ps →
  ∃ f, ClassifyNATFeature addresses localIPs = Ok f ∧
    (PublicNetwork f = true ↔ ∃ p, p ∈ ps ∧ p.1.1 ∈ localIPs) ∧
    (NatType f = EasyNAT ↔ same_ip ps ∧ same_port ps) ∧
    (Behavior f = BehaviorIPChanged ↔ ¬ same_ip ps ∧ same_port ps) ∧
    (Behavior f = BehaviorPortChanged ↔ same_ip ps ∧ ¬ same_port ps) ∧
    (Behavior f = BehaviorPortChanged →
      (∀ p q, p ∈ ps → q ∈ ps → p.2 - q.2 ≤ PortsDifference f) ∧
      (∃ p q, p ∈ ps ∧ q ∈ ps ∧ p.2 - q.2 = PortsDifference f)) ∧
    (RegularPortsChange f = true ↔
      Behavior f = BehaviorPortChanged ∧ 1 ≤ PortsDifference f ≤ 5).
Proof.
  intros Hp Hlen Hne. unfold ClassifyNATFeature.
  rewrite (proj2 (Nat.leb_gt _ _)) by (rewrite (Forall2_length _ _ _ Hp); lia).
  destruct Hp as [|a p addrs ps [Hsp Hat] Hp]; [simpl in Hlen; lia|].
  apply Forall_cons_iff in Hne as [Hnp _].
  assert (scan_all localIPs scan_init (a :: addrs) = scan_all localIPs
    (mkScan (bool_decide (p.1.1 ∈ localIPs)) false false p.1.1 p.1.2 p.2 p.2) addrs) as ->.
  { cbn [scan_all]. unfold scan_addr. rewrite Hsp, Hat. cbn [sc_baseIP scan_init].
    simpl String.eqb. cbv iota. simpl. by destruct (bool_decide _). }
  rewrite (scan_all_parsed localIPs _ _ ps) by done. cbn [sc_public sc_ipChanged sc_portChanged
    sc_baseIP sc_basePort sc_portMax sc_portMin orb].
  assert (bool_decide (p.1.1 ∈ localIPs) || existsb (λ q, bool_decide (q.1.1 ∈ localIPs)) ps = true ↔
    ∃ q, q ∈ p :: ps ∧ q.1.1 ∈ localIPs) as Hpub.
  { change (existsb (λ q : endpoint, bool_decide (q.1.1 ∈ localIPs)) (p :: ps) = true ↔
            ∃ q, q ∈ p :: ps ∧ q.1.1 ∈ localIPs).
    rewrite existsb_exists. by setoid_rewrite <- list_elem_of_In; setoid_rewrite bool_decide_eq_true. }
  pose proof (all_same (λ q, q.1.1) p ps) as Hip. pose proof (all_same (λ q, q.1.2) p ps) as Hport.
  fold (same_ip (p :: ps)) in Hip. fold (same_port (p :: ps)) in Hport.
  rewrite <- (existsb_neq_false p.1.1 (λ q, q.1.1)) in Hip.
  rewrite <- (existsb_neq_false p.1.2 (λ q, q.1.2)) in Hport.
  destruct (fold_max_spec p ps) as [Hmax (pm & Hpm & Hpmeq)].
  destruct (fold_min_spec p ps) as [Hmin (pn & Hpn & Hpneq)].
  set (b1 := existsb (λ q, negb (String.eqb p.1.1 q.1.1)) ps) in *.
  set (b2 := existsb (λ q, negb (String.eqb p.1.2 q.1.2)) ps) in *.
  clearbody b1 b2. clear Hsp Hat Hp.
  destruct b1, b2; simpl; (eexists; split; [reflexivity|]); simpl;
    (split; [exact Hpub|]); rewrite Hip, Hport; split_and!; try done;
    try (split; [intros Hx; try discriminate Hx; split; done|intros [? ?]; done]).
  - intros _. split; [|eauto 10 with lia].
    intros q r Hq Hr. apply Hmax in Hq. apply Hmin in Hr. lia.
  - split; [intros H; bool_to_prop; split; [done|lia]|].
    intros [_ ?]. apply andb_true_intro. split; apply Z.leb_le; lia.
Qed.

(** A score that leaves the range "between -10 and 10" of the comment on
    [behaviorScore]: thirty-one failed attempts between two hard NATs of
    which one changes its ports regularly. *)
Definition demo_regular : NatFeature := mkFeature HardNAT BehaviorPortChanged 2 true false.
Definition demo_irregular : NatFeature := mkFeature HardNAT BehaviorPortChanged 900 false false.
Definition demo_easy : NatFeature := mkFeature EasyNAT BehaviorNoChange 0 false false.

Fixpoint ask (n : nat) (a : Analyzer) (c v : NatFeature) : Analyzer :=
  match n with O => a | S n' => ask n' (GetRecommandBehaviors 0 a "k" c v).1 c v end.

Lemma ask_reachable d n a c v : reachable d a → reachable d (ask n a c v).
Proof.
  revert a. induction n as [|n IH]; intros a Ha; simpl; [done|].
  apply IH. eapply rtc_r; [exact Ha|constructor].
Qed.

Lemma score_below_minus_ten :
  ∃ a r, reachable 0 a ∧ records a !! "k" = Some r ∧ Exists (λ b, Score b < -10) (scores r).
Proof.
  exists (ask 31 (NewAnalyzer 0) demo_regular demo_irregular). eexists. split_and!.
  - apply ask_reachable, rtc_refl.
  - vm_compute. reflexivity.
  - left. simpl. lia.
Qed.

(** ** Witnesses *)

Lemma recommendation_roles_witness :
  let '(a', (mode, index, cb, vb)) :=
    GetRecommandBehaviors 0 (NewAnalyzer 0) "k" demo_easy demo_regular in
  complementary cb vb ∧ mode = DetectMode1.
Proof.
  pose proof (recommendation_roles 0 0 (NewAnalyzer 0)
    (GetRecommandBehaviors 0 (NewAnalyzer 0) "k" demo_easy demo_regular).1 "k"
    demo_easy demo_regular 1 0 (receiver 7 10 0) (sender 0 0 0)) as H.
  vm_compute. split; [|reflexivity]. apply H; [apply rtc_refl|vm_compute; reflexivity].
Defined.

Lemma success_is_repeated_witness :
  let a1 := (GetRecommandBehaviors 0 (NewAnalyzer 0) "k" demo_easy demo_easy).1 in
  (GetRecommandBehaviors 2 (ReportSuccess 1 a1 "k" 0 0) "k" demo_easy demo_easy).2.1.1 = (0, 0%nat).
Proof.
  intros a1.
  apply (success_is_repeated 0 0 1 2 (NewAnalyzer 0) a1 "k" demo_easy demo_easy demo_easy demo_easy
    0 0 (sender 0 0 0) (receiver 7 0 0)).
  - apply rtc_refl.
  - vm_compute. repeat constructor; discriminate.
  - vm_compute. reflexivity.
Defined.

Lemma every_behavior_tried_witness :
  (2, 2%nat) ∈ tries 0 38 (newMakeHoleRecords 0 demo_regular demo_easy).
Proof.
  apply (every_behavior_tried 0 demo_regular demo_easy (mkScore 2 2 0)).
  apply (list_elem_of_lookup_2 _ 8). vm_compute. reflexivity.
Defined.

Lemma classification_spec_witness :
  ∃ f, ClassifyNATFeature ["1.2.3.4:1000"; "1.2.3.4:1003"] [] = Ok f ∧
    (RegularPortsChange f = true ↔ Behavior f = BehaviorPortChanged ∧ 1 ≤ PortsDifference f ≤ 5).
Proof.
  destruct (classification_spec ["1.2.3.4:1000"; "1.2.3.4:1003"] []
    [("1.2.3.4", "1000", 1000); ("1.2.3.4", "1003", 1003)]) as (f & Hf & _ & _ & _ & _ & _ & Hr).
  - repeat constructor; vm_compute; reflexivity.
  - simpl. lia.
  - repeat constructor; discriminate.
  - exists f. split; [exact Hf|exact Hr].
Defined.
End Nathole.
