(* ===== verification/NatController.v ===== *)
(** NAT traversal, the server's side: pkg/nathole/controller.go. A visitor
    opens a session for a proxy, the proxy's client answers it, and the server
    tells both how to reach each other.

    [HandleVisitor] runs in its own goroutine and blocks three times; its
    pieces between those points are separate operations here ([open], then
    [respond] or nothing, then [close]), and the step relation interleaves
    them with the other handlers. Sleeps are left out; a session id is an
    argument (time and random digits in the code). *)
From Stdlib Require Import ZArith Lia String.
From stdpp Require Import base gmap strings list fin_maps relations.
From S2P Require Import Prelude GoLib Msg Nathole.

Local Open Scope Z_scope.
Local Open Scope frp_scope.

Module NatController.
Import Nathole.

(** ** Slices *)

(** [slices.Compact] of a list: runs of equal neighbours become one. *)
Fixpoint compact (l : list string) : list string :=
  match l with
  | [] => []
  | x :: l' =>
      match compact l' with
      | [] => [x]
      | y :: r => if String.eqb x y then y :: r else x :: y :: r
      end
  end.

(** [slices.Compact s] works in the array of [s] and clears what it no longer
    uses: the result, and what [s] itself holds afterwards. *)
Definition Compact (s : list string) : list string * list string :=
  (compact s, compact s ++ replicate (length s - length (compact s)) "").

(** ** Responses *)

(** [lo.Last]. *)
Definition Last (l : list string) : option string := last l.

Definition getRangePorts (addrs : list string) (difference maxNumber : Z) : list Msg.PortsRange :=
  if maxNumber <=? 0 then []
  else match Last addrs with
  | None => []
  | Some addr =>
      match SplitHostPort addr with
      | Err _ => []
      | Ok (_, portStr) =>
          match Atoi portStr with
          | None => []
          | Some port =>
              [Msg.mkPortsRange
                 (Z.max (Z.max (port - difference - 5) (port - maxNumber)) 1)
                 (Z.min (Z.min (port + difference + 5) (port + maxNumber)) 65535)]
          end
      end
  end.

Definition newNatHoleResponse (transactionID sid protocol : string) (mode : Z)
    (candidateAddrs assistedAddrs : list string) (behavior : RecommandBehavior)
    (readTimeoutMs portsDifference : Z) : Msg.NatHoleResp :=
  let '(compactCandidateAddrs, candidateAddrs) := Compact candidateAddrs in
  let '(compactAssistedAddrs, _) := Compact assistedAddrs in
  Msg.mkNatHoleResp transactionID sid protocol compactCandidateAddrs compactAssistedAddrs
    (Msg.mkDetectBehavior (Role behavior) mode (TTL behavior) (SendDelayMs behavior)
       readTimeoutMs (getRangePorts candidateAddrs portsDifference (PortsRangeNumber behavior))
       (PortsRandomNumber behavior) (ListenRandomPorts behavior))
    "".

(** [GenNatHoleResponse], always called without a session. *)
Definition GenNatHoleResponse (transactionID errInfo : string) : Msg.NatHoleResp :=
  Msg.mkNatHoleResp transactionID "" "" [] [] (Msg.mkDetectBehavior "" 0 0 0 0 [] 0 0) errInfo.

Fixpoint parseIPs (addrs : list string) : list string :=
  match addrs with
  | [] => []
  | addr :: addrs' =>
      match SplitHostPort addr with
      | Ok (ip, _) => ip :: parseIPs addrs'
      | Err _ => parseIPs addrs'
      end
  end.

(** ** The texts of the errors *)

Definition addr_error_text (e : addr_error) : string :=
  match e with
  | ErrMissingPort => "missing port in address"
  | ErrTooManyColons => "too many colons in address"
  | ErrMissingBracket => "missing ']' in address"
  | ErrUnexpectedOpen => "unexpected '[' in address"
  | ErrUnexpectedClose => "unexpected ']' in address"
  end.

(** [atoi_text port] is the text of [strconv.Atoi]'s error. *)
Definition error_text (atoi_text : string → string) (e : error) : string :=
  match e with
  | ErrNotEnough => "not enough addresses"
  | ErrAddr addr e => "address " +:+ addr +:+ ": " +:+ addr_error_text e
  | ErrPort port => atoi_text port
  end.

(** ** Sessions *)

Record ClientCfg := mkClientCfg { cfg_name : string; cfg_sk : string; cfg_allowUsers : list string }.

(** Where the visitor's handler of a session is: handing the sid to the
    proxy, waiting for the client's message, or lingering after the answers. *)
Inductive phase := PSendSid | PWait | PLinger.

Record Session := mkSession {
  s_sid : string; s_analysisKey : string; s_recommandMode : Z; s_recommandIndex : nat;
  s_visitorMsg : Msg.NatHoleVisitor; s_clientMsg : option Msg.NatHoleClient;
  s_notified : bool; s_phase : phase }.

Record Controller := mkController {
  clientCfgs : gmap string ClientCfg;
  sessions : gmap string Session;
  analyzer : Analyzer
}.

(** Whom a message is sent to: the visitor or the client of a session. *)
Inductive dest := ToVisitor | ToClient.

Section Ops.
(** [md5hex]: the hexadecimal MD5 of a string; [atoi_text]: see above. *)
Variable md5hex : string → string.
Variable atoi_text : string → string.

Definition GetAuthKey (token : string) (timestamp : Z) : string :=
  md5hex (token +:+ Itoa timestamp).

Definition FormatBool (b : bool) : string := if b then "true" else "false".

(** What [genAnalysisKey] hashes for one of the two peers. *)
Definition peer_key (mappedAddrs : list string) (f : NatFeature) : string :=
  default "" (head (compact (parseIPs mappedAddrs))) +:+ NatType f +:+ Behavior f +:+
  FormatBool (RegularPortsChange f).

Definition genAnalysisKey (vm : Msg.NatHoleVisitor) (cm : Msg.NatHoleClient)
    (vf cf : NatFeature) : string :=
  md5hex (peer_key (Msg.nhv_MappedAddrs vm) vf +:+ peer_key (Msg.nhc_MappedAddrs cm) cf).

(** [analysis]: the analyzer, and the session's key, mode and index with the
    responses to the visitor and to the client, or the text of an error. *)
Definition analysis (now : Z) (a : Analyzer) (sid : string) (vm : Msg.NatHoleVisitor)
    (cm : Msg.NatHoleClient) :
    Analyzer * res string (string * Z * nat * Msg.NatHoleResp * Msg.NatHoleResp) :=
  match ClassifyNATFeature (Msg.nhc_MappedAddrs cm) (parseIPs (Msg.nhc_AssistedAddrs cm)) with
  | Err e => (a, Err ("classify client nat feature error: " +:+ error_text atoi_text e))
  | Ok cNatFeature =>
      match ClassifyNATFeature (Msg.nhv_MappedAddrs vm) (parseIPs (Msg.nhv_AssistedAddrs vm)) with
      | Err e => (a, Err ("classify visitor nat feature error: " +:+ error_text atoi_text e))
      | Ok vNatFeature =>
          let key := genAnalysisKey vm cm vNatFeature cNatFeature in
          let '(a, (mode, index, cBehavior, vBehavior)) :=
            GetRecommandBehaviors now a key cNatFeature vNatFeature in
          let timeoutMs := Z.max (SendDelayMs cBehavior) (SendDelayMs vBehavior) + 5000 in
          let timeoutMs :=
            if (0 <? ListenRandomPorts cBehavior) || (0 <? ListenRandomPorts vBehavior)
            then timeoutMs + 30000 else timeoutMs in
          let protocol := Msg.nhv_Protocol vm in
          let vResp :=
            newNatHoleResponse (Msg.nhv_TransactionID vm) sid protocol mode
              (Msg.nhc_MappedAddrs cm) (Msg.nhc_AssistedAddrs cm) vBehavior
              (timeoutMs - SendDelayMs vBehavior) (PortsDifference cNatFeature) in
          let cResp :=
            newNatHoleResponse (Msg.nhc_TransactionID cm) sid protocol mode
              (Msg.nhv_MappedAddrs vm) (Msg.nhv_AssistedAddrs vm) cBehavior
              (timeoutMs - SendDelayMs cBehavior) (PortsDifference vNatFeature) in
          (a, Ok (key, mode, index, vResp, cResp))
      end
  end.

Definition NewController (d : Z) : Controller := mkController ∅ ∅ (NewAnalyzer d).

Definition ListenClient (c : Controller) (name sk : string) (allowUsers : list string) :
    Controller * res string unit :=
  match clientCfgs c !! name with
  | Some _ => (c, Err ("proxy [" +:+ name +:+ "] is repeated"))
  | None =>
      (mkController (<[name := mkClientCfg name sk allowUsers]> (clientCfgs c))
         (sessions c) (analyzer c), Ok tt)
  end.

Definition CloseClient (c : Controller) (name : string) : Controller :=
  mkController (delete name (clientCfgs c)) (sessions c) (analyzer c).

Definition set_session (c : Controller) (sid : string) (s : Session) : Controller :=
  mkController (clientCfgs c) (<[sid := s]> (sessions c)) (analyzer c).

(** The [PreCheck] branch of [HandleVisitor]: the response. *)
Definition HandleVisitor_precheck (c : Controller) (m : Msg.NatHoleVisitor) (visitorUser : string) :
    Msg.NatHoleResp :=
  match clientCfgs c !! Msg.nhv_ProxyName m with
  | None =>
      GenNatHoleResponse (Msg.nhv_TransactionID m)
        ("xtcp server for [" +:+ Msg.nhv_ProxyName m +:+ "] doesn't exist")
  | Some cfg =>
      if negb (bool_decide (visitorUser ∈ cfg_allowUsers cfg)) &&
         negb (bool_decide ("*" ∈ cfg_allowUsers cfg)) then
        GenNatHoleResponse (Msg.nhv_TransactionID m)
          ("xtcp visitor user [" +:+ visitorUser +:+ "] not allowed for [" +:+
           Msg.nhv_ProxyName m +:+ "]")
      else GenNatHoleResponse (Msg.nhv_TransactionID m) ""
  end.

(** [HandleVisitor] up to the point where the sid is handed to the proxy:
    the answer sent at once, if any. *)
Definition HandleVisitor_open (c : Controller) (sid : string) (m : Msg.NatHoleVisitor)
    (visitorUser : string) : Controller * option Msg.NatHoleResp :=
  if Msg.nhv_PreCheck m then (c, Some (HandleVisitor_precheck c m visitorUser))
  else
    match clientCfgs c !! Msg.nhv_ProxyName m with
    | None =>
        (c, Some (GenNatHoleResponse (Msg.nhv_TransactionID m)
               ("xtcp server for [" +:+ Msg.nhv_ProxyName m +:+ "] doesn't exist")))
    | Some clientCfg =>
        if negb (String.eqb (Msg.nhv_SignKey m) (GetAuthKey (cfg_sk clientCfg) (Msg.nhv_Timestamp m)))
        then (c, Some (GenNatHoleResponse (Msg.nhv_TransactionID m)
               ("xtcp connection of [" +:+ Msg.nhv_ProxyName m +:+ "] auth failed")))
        else (set_session c sid (mkSession sid "" 0 0 m None false PSendSid), None)
    end.

(** The sid was taken by the proxy: the handler waits for the client. *)
Definition HandleVisitor_sent (c : Controller) (sid : string) (s : Session) : Controller :=
  set_session c sid (mkSession (s_sid s) (s_analysisKey s) (s_recommandMode s) (s_recommandIndex s)
                       (s_visitorMsg s) (s_clientMsg s) (s_notified s) PWait).

(** The handler was notified: the analysis and the two answers. *)
Definition HandleVisitor_respond (now : Z) (c : Controller) (sid : string) (s : Session)
    (cm : Msg.NatHoleClient) : Controller * list (dest * Msg.NatHoleResp) :=
  let '(a, r) := analysis now (analyzer c) (s_sid s) (s_visitorMsg s) cm in
  match r with
  | Err text =>
      (mkController (clientCfgs c)
         (<[sid := mkSession (s_sid s) (s_analysisKey s) (s_recommandMode s) (s_recommandIndex s)
                     (s_visitorMsg s) (s_clientMsg s) false PLinger]> (sessions c)) a,
       [(ToVisitor, GenNatHoleResponse (Msg.nhv_TransactionID (s_visitorMsg s)) text);
        (ToClient, GenNatHoleResponse (Msg.nhc_TransactionID cm) text)])
  | Ok (key, mode, index, vResp, cResp) =>
      (mkController (clientCfgs c)
         (<[sid := mkSession (s_sid s) key mode index
                     (s_visitorMsg s) (s_clientMsg s) false PLinger]> (sessions c)) a,
       [(ToVisitor, vResp); (ToClient, cResp)])
  end.

(** The deferred function of [HandleVisitor]. *)
Definition HandleVisitor_close (c : Controller) (sid : string) : Controller :=
  mkController (clientCfgs c) (delete sid (sessions c)) (analyzer c).

Definition HandleClient (c : Controller) (m : Msg.NatHoleClient) : Controller :=
  match sessions c !! Msg.nhc_Sid m with
  | None => c
  | Some s =>
      set_session c (Msg.nhc_Sid m)
        (mkSession (s_sid s) (s_analysisKey s) (s_recommandMode s) (s_recommandIndex s)
           (s_visitorMsg s) (Some m) true (s_phase s))
  end.

Definition HandleReport (now : Z) (c : Controller) (m : Msg.NatHoleReport) : Controller :=
  match sessions c !! Msg.nhp_Sid m with
  | None => c
  | Some s =>
      if Msg.nhp_Success m then
        mkController (clientCfgs c) (sessions c)
          (ReportSuccess now (analyzer c) (s_analysisKey s) (s_recommandMode s) (s_recommandIndex s))
      else c
  end.

(** One tick of [CleanWorker]. *)
Definition CleanWorker_tick (now : Z) (c : Controller) : Controller :=
  mkController (clientCfgs c) (sessions c) (Clean now (analyzer c)).1.

(** ** Executions

    A handler whose session id has been reused works on the session now under
    that id; the messages sent are a label. *)
Inductive event :=
| Silent
| Answers (l : list (dest * Msg.NatHoleResp)).

Inductive cstep : Controller → event → Controller → Prop :=
| CListen c name sk users : cstep c Silent (ListenClient c name sk users).1
| CClose c name : cstep c Silent (CloseClient c name)
| CVisitor c sid m user c' r :
    HandleVisitor_open c sid m user = (c', r) →
    cstep c (match r with Some r => Answers [(ToVisitor, r)] | None => Silent end) c'
| CSent c sid s :
    sessions c !! sid = Some s → s_phase s = PSendSid → cstep c Silent (HandleVisitor_sent c sid s)
| CRespond now c sid s cm c' l :
    sessions c !! sid = Some s → s_phase s = PWait → s_notified s = true →
    s_clientMsg s = Some cm → HandleVisitor_respond now c sid s cm = (c', l) →
    cstep c (Answers l) c'
| CEnd c sid : cstep c Silent (HandleVisitor_close c sid)
| CClient c m : cstep c Silent (HandleClient c m)
| CReport now c m : cstep c Silent (HandleReport now c m)
| CTick now c : cstep c Silent (CleanWorker_tick now c).

Definition creachable (d : Z) : Controller → Prop :=
  rtc (λ c c', ∃ e, cstep c e c') (NewController d).

(** ** Compacted slices *)

Lemma compact_length l : (length (compact l) ≤ length l)%nat.
Proof.
  induction l as [|x l IH]; simpl; [done|]. destruct (compact l) as [|y r]; simpl in *; [lia|].
  destruct (String.eqb x y); simpl; lia.
Qed.

Lemma compact_same_length l : length (compact l) = length l → compact l = l.
Proof.
  induction l as [|x l IH]; simpl; [done|]. pose proof (compact_length l) as Hl.
  destruct (compact l) as [|y r]; simpl in *.
  - destruct l; simpl in *; [done|lia].
  - destruct (String.eqb x y); simpl; [lia|]. intros [= Hr]. by rewrite <- IH.
Qed.

(** What is left in a slice that lost elements ends in an empty string. *)
Lemma Compact_last l : compact l ≠ l → last (Compact l).2 = Some "".
Proof.
  intros Hne. unfold Compact. cbn [snd]. pose proof (compact_length l) as Hle.
  destruct (length l - length (compact l))%nat as [|k] eqn:Hk.
  - destruct Hne. apply compact_same_length. lia.
  - rewrite replicate_S_end, app_assoc. apply last_snoc.
Qed.

Lemma getRangePorts_bounds addrs d n r :
  r ∈ getRangePorts addrs d n → 1 ≤ Msg.pr_From r ∧ Msg.pr_To r ≤ 65535.
Proof.
  unfold getRangePorts. destruct (n <=? 0); [by intros ?%not_elem_of_nil|].
  destruct (Last addrs); [|by intros ?%not_elem_of_nil].
  destruct (SplitHostPort _) as [[? ?]|]; [|by intros ?%not_elem_of_nil].
  destruct (Atoi _); [|by intros ?%not_elem_of_nil].
  intros ->%list_elem_of_singleton. simpl. lia.
Qed.

(** The candidate ports are told exactly when no observed address
    repeats its neighbour: for a behaviour that asks for a port range and a
    peer whose last address is well formed, the response names a range when
    the peer's address list is free of adjacent repetitions, and names none
    when it has one, because compacting the list cleared the array the range
    is computed from. *)
Theorem candidate_ports_told (transactionID sid protocol : string) (mode : Z)
    (addrs assisted : list string) (behavior : RecommandBehavior) (timeout difference : Z)
    (addr host port : string) (n : Z) :
  last addrs = Some addr → SplitHostPort addr = Ok (host, port) → Atoi port = Some n →
  0 < PortsRangeNumber behavior →
  Msg.db_CandidatePorts (Msg.nhr_DetectBehavior
    (newNatHoleResponse transactionID sid protocol mode addrs assisted behavior timeout difference)) =
  if decide (compact addrs = addrs) then
    [Msg.mkPortsRange
       (Z.max (Z.max (n - difference - 5) (n - PortsRangeNumber behavior)) 1)
       (Z.min (Z.min (n + difference + 5) (n + PortsRangeNumber behavior)) 65535)]
  else [].
Proof.
  intros Hlast Hsp Hat Hn. unfold newNatHoleResponse.
  destruct (Compact addrs) as [r rest] eqn:Hc. destruct (Compact assisted). simpl.
  unfold getRangePorts, Last. rewrite (proj2 (Z.leb_gt _ _)) by lia. case_decide as Hd.
  - unfold Compact in Hc. rewrite Hd, Nat.sub_diag in Hc. injection Hc as <- <-. simpl.
    by rewrite app_nil_r, Hlast, Hsp, Hat.
  - pose proof (Compact_last addrs Hd) as Hl. rewrite Hc in Hl. simpl in Hl. by rewrite Hl.
Qed.

(** ** The two responses *)

(** What the two ends of a session must agree on to meet. *)
Record meet (sid : string) (vm : Msg.NatHoleVisitor) (cm : Msg.NatHoleClient)
    (vResp cResp : Msg.NatHoleResp) : Prop := {
  meet_sid : Msg.nhr_Sid vResp = sid ∧ Msg.nhr_Sid cResp = sid;
  meet_ids : Msg.nhr_TransactionID vResp = Msg.nhv_TransactionID vm ∧
             Msg.nhr_TransactionID cResp = Msg.nhc_TransactionID cm;
  meet_protocol : Msg.nhr_Protocol vResp = Msg.nhv_Protocol vm ∧
                  Msg.nhr_Protocol cResp = Msg.nhv_Protocol vm;
  meet_addrs : Msg.nhr_CandidateAddrs vResp = compact (Msg.nhc_MappedAddrs cm) ∧
               Msg.nhr_CandidateAddrs cResp = compact (Msg.nhv_MappedAddrs vm);
  meet_errors : Msg.nhr_Error vResp = "" ∧ Msg.nhr_Error cResp = "";
  meet_mode : Msg.db_Mode (Msg.nhr_DetectBehavior vResp) = Msg.db_Mode (Msg.nhr_DetectBehavior cResp);
  meet_roles :
    (Msg.db_Role (Msg.nhr_DetectBehavior vResp) = DetectRoleSender ∧
     Msg.db_Role (Msg.nhr_DetectBehavior cResp) = DetectRoleReceiver) ∨
    (Msg.db_Role (Msg.nhr_DetectBehavior vResp) = DetectRoleReceiver ∧
     Msg.db_Role (Msg.nhr_DetectBehavior cResp) = DetectRoleSender);
  meet_time :
    Msg.db_SendDelayMs (Msg.nhr_DetectBehavior vResp) + Msg.db_ReadTimeoutMs (Msg.nhr_DetectBehavior vResp) =
    Msg.db_SendDelayMs (Msg.nhr_DetectBehavior cResp) + Msg.db_ReadTimeoutMs (Msg.nhr_DetectBehavior cResp);
  meet_wait : 5000 ≤ Msg.db_ReadTimeoutMs (Msg.nhr_DetectBehavior vResp) ∧
              5000 ≤ Msg.db_ReadTimeoutMs (Msg.nhr_DetectBehavior cResp);
  meet_ports : Forall (λ r, 1 ≤ Msg.pr_From r ∧ Msg.pr_To r ≤ 65535)
    (Msg.db_CandidatePorts (Msg.nhr_DetectBehavior vResp) ++
     Msg.db_CandidatePorts (Msg.nhr_DetectBehavior cResp))
}.

Lemma meet_responses sid vm cm mode cb vb total cd vd :
  complementary cb vb →
  5000 + SendDelayMs cb ≤ total → 5000 + SendDelayMs vb ≤ total →
  meet sid vm cm
    (newNatHoleResponse (Msg.nhv_TransactionID vm) sid (Msg.nhv_Protocol vm) mode
       (Msg.nhc_MappedAddrs cm) (Msg.nhc_AssistedAddrs cm) vb (total - SendDelayMs vb) cd)
    (newNatHoleResponse (Msg.nhc_TransactionID cm) sid (Msg.nhv_Protocol vm) mode
       (Msg.nhv_MappedAddrs vm) (Msg.nhv_AssistedAddrs vm) cb (total - SendDelayMs cb) vd).
Proof.
  intros Hc H1 H2. split; simpl; try done; try lia.
  - destruct Hc as [[? ?]|[? ?]]; auto.
  - apply Forall_forall. intros r [Hr|Hr]%elem_of_app; by eapply getRangePorts_bounds.
Qed.

Lemma analysis_meet d now a sid vm cm a' key mode index vResp cResp :
  reachable d a → analysis now a sid vm cm = (a', Ok (key, mode, index, vResp, cResp)) →
  meet sid vm cm vResp cResp.
Proof.
  intros Hr. unfold analysis. destruct (ClassifyNATFeature _ _) as [cf|]; [|done].
  destruct (ClassifyNATFeature (Msg.nhv_MappedAddrs vm) _) as [vf|]; [|done].
  set (k := genAnalysisKey vm cm vf cf).
  destruct (GetRecommandBehaviors now a k cf vf) as [a1 [[[m i] cb] vb]] eqn:Hg.
  intros [= <- <- <- <- <- <-].
  apply (Get_complementary d) in Hg; [|done].
  apply meet_responses; [done|..]; destruct (_ || _); lia.
Qed.

(** The session table's shape: the key is the id, and a session that was
    answered or is being answered belongs to a visitor who did not just ask
    for a check. *)
Definition ctl_ok (d : Z) (c : Controller) : Prop :=
  reachable d (analyzer c) ∧
  map_Forall (λ sid s, s_sid s = sid ∧ Msg.nhv_PreCheck (s_visitorMsg s) = false) (sessions c).

Lemma analysis_analyzer d now a sid vm cm :
  reachable d a → reachable d (analysis now a sid vm cm).1.
Proof.
  intros Hr. unfold analysis. destruct (ClassifyNATFeature _ _) as [cf|]; [|done].
  destruct (ClassifyNATFeature (Msg.nhv_MappedAddrs vm) _) as [vf|]; [|done].
  set (k := genAnalysisKey vm cm vf cf).
  pose proof (StepGet now a k cf vf) as Hs.
  destruct (GetRecommandBehaviors now a k cf vf) as [a1 [[[m i] cb] vb]].
  by eapply rtc_r.
Qed.

Lemma HandleVisitor_open_None c sid m user c' :
  HandleVisitor_open c sid m user = (c', None) →
  c' = set_session c sid (mkSession sid "" 0 0 m None false PSendSid) ∧
  Msg.nhv_PreCheck m = false ∧
  ∃ cfg, clientCfgs c !! Msg.nhv_ProxyName m = Some cfg ∧
    Msg.nhv_SignKey m = GetAuthKey (cfg_sk cfg) (Msg.nhv_Timestamp m).
Proof.
  unfold HandleVisitor_open. destruct (Msg.nhv_PreCheck m); [done|].
  destruct (clientCfgs c !! _) as [cfg|]; [|done].
  destruct (negb _) eqn:Hk; [done|]. intros [= <-]. bool_to_prop.
  apply String.eqb_eq in Hk. eauto 10.
Qed.

Lemma HandleVisitor_open_Some c sid m user c' r :
  HandleVisitor_open c sid m user = (c', Some r) → c' = c.
Proof.
  unfold HandleVisitor_open. destruct (Msg.nhv_PreCheck m); [by intros [= <- _]|].
  destruct (clientCfgs c !! _) as [cfg|]; [|by intros [= <- _]].
  destruct (negb _); [by intros [= <- _]|done].
Qed.

Lemma ctl_ok_step d c e c' : ctl_ok d c → cstep c e c' → ctl_ok d c'.
Proof.
  intros [Ha Hs].
  assert (∀ sid s, s_sid s = sid ∧ Msg.nhv_PreCheck (s_visitorMsg s) = false →
    map_Forall (λ sid s, s_sid s = sid ∧ Msg.nhv_PreCheck (s_visitorMsg s) = false)
      (<[sid := s]> (sessions c))) as Hins.
  { intros sid s H. by apply map_Forall_insert_2. }
  destruct 1 as [c name sk users|c name|c sid m user c' r Ho|c sid s Hl Hp|
    now c sid s cm c' l Hl Hp Hn Hc Hr|c sid|c m|now c m|now c]; simpl.
  - unfold ListenClient. by destruct (clientCfgs c !! name).
  - done.
  - destruct r as [r|].
    + by apply HandleVisitor_open_Some in Ho as ->.
    + apply HandleVisitor_open_None in Ho as (-> & Hpre & _). split; [done|]. by apply Hins.
  - split; [done|]. apply Hins. simpl. by apply (Hs sid).
  - revert Hr. unfold HandleVisitor_respond.
    pose proof (analysis_analyzer d now (analyzer c) (s_sid s) (s_visitorMsg s) cm Ha) as Ha'.
    destruct (analysis _ _ _ _ _) as [a' [[[[[key mode] index] vr] cr]|text]];
      intros [= <- <-]; split; simpl; try done; apply Hins; exact (Hs sid s Hl).
  - split; [done|]. simpl. by apply map_Forall_delete.
  - unfold HandleClient. destruct (sessions c !! _) as [s|] eqn:Hl; [|done].
    split; [done|]. apply Hins. by apply (Hs _ _ Hl).
  - unfold HandleReport. destruct (sessions c !! _) as [s|]; [|done].
    destruct (Msg.nhp_Success m); [|done]. split; [|done]. simpl.
    eapply rtc_r; [exact Ha|constructor].
  - split; [|done]. simpl. eapply rtc_r; [exact Ha|constructor].
Qed.

Lemma ctl_ok_reachable d c : creachable d c → ctl_ok d c.
Proof.
  intros Hr. refine (rtc_invariant _ (ctl_ok d) _ _ _ Hr _).
  - intros s s' Hs [e He]. by eapply ctl_ok_step.
  - split; [apply rtc_refl|apply map_Forall_empty].
Qed.

(** C27. The two ends of a session can meet: in every state the controller
    reaches, whenever a session is answered, the visitor and the client get
    one response each, which either both carry the same error or agree on the
    session, the protocol, the mode, complementary roles and the moment they
    give up, each naming the other's addresses and only valid port ranges. *)
Theorem answers_meet (d now : Z) (c c' : Controller) (sid : string) (s : Session)
    (cm : Msg.NatHoleClient) (l : list (dest * Msg.NatHoleResp)) :
  creachable d c → sessions c !! sid = Some s →
  HandleVisitor_respond now c sid s cm = (c', l) →
  ∃ vResp cResp, l = [(ToVisitor, vResp); (ToClient, cResp)] ∧
    (meet sid (s_visitorMsg s) cm vResp cResp ∨
     Msg.nhr_Error vResp = Msg.nhr_Error cResp ∧ Msg.nhr_Error vResp ≠ "").
Proof.
  intros [Ha Hs]%ctl_ok_reachable Hl. destruct (Hs _ _ Hl) as [<- _].
  unfold HandleVisitor_respond.
  destruct (analysis _ _ _ _ _) as [a' [[[[[key mode] index] vr] cr]|text]] eqn:Han;
    intros [= <- <-]; (eexists _, _; split; [reflexivity|]).
  - left. by eapply analysis_meet.
  - right. split; [done|]. simpl. revert Han. unfold analysis.
    destruct (ClassifyNATFeature _ _) as [cf|]; [|intros [= _ <-]; discriminate].
    destruct (ClassifyNATFeature (Msg.nhv_MappedAddrs _) _) as [vf|]; [|intros [= _ <-]; discriminate].
    by destruct (GetRecommandBehaviors _ _ _ _ _) as [? [[[? ?] ?] ?]].
Qed.

(** C28. A session needs the proxy's secret: any step after which a session
    id is in use that was not before is the handling of a visitor's message
    (not a check) for a registered proxy, signed with that proxy's secret. *)
Theorem session_needs_secret (c c' : Controller) (e : event) (sid : string) (s : Session) :
  cstep c e c' → sessions c !! sid = None → sessions c' !! sid = Some s →
  Msg.nhv_PreCheck (s_visitorMsg s) = false ∧ s_phase s = PSendSid ∧ s_clientMsg s = None ∧
  ∃ cfg, clientCfgs c !! Msg.nhv_ProxyName (s_visitorMsg s) = Some cfg ∧
    Msg.nhv_SignKey (s_visitorMsg s) = GetAuthKey (cfg_sk cfg) (Msg.nhv_Timestamp (s_visitorMsg s)).
Proof.
  intros Hstep Hnone Hsome.
  assert (∀ k x y, sessions c !! k = Some x → <[k := y]> (sessions c) !! sid = Some s → False) as Hold.
  { intros k x y Hk. destruct (decide (k = sid)) as [->|Hne]; [congruence|].
    rewrite lookup_insert_ne by done. congruence. }
  destruct Hstep as [c name sk users|c name|c k m user c' r Ho|c k s' Hl Hp|
    now c k s' cm c' l Hl Hp Hn Hc Hr|c k|c m|now c m|now c]; simpl in Hsome.
  - unfold ListenClient in Hsome. destruct (clientCfgs c !! name); simpl in Hsome; congruence.
  - congruence.
  - destruct r as [r|]; [apply HandleVisitor_open_Some in Ho as ->; congruence|].
    apply HandleVisitor_open_None in Ho as (-> & Hpre & Hcfg). simpl in Hsome.
    destruct (decide (k = sid)) as [->|Hne].
    + rewrite lookup_insert_eq in Hsome. injection Hsome as <-. by split_and!.
    + rewrite lookup_insert_ne in Hsome by done. congruence.
  - by destruct (Hold _ _ _ Hl Hsome).
  - exfalso. revert Hr Hsome. unfold HandleVisitor_respond.
    destruct (analysis _ _ _ _ _) as [a' [[[[[key mode] index] vr] cr]|text]];
      intros [= <- <-]; simpl; by eapply Hold.
  - destruct (decide (k = sid)) as [->|Hne]; [by rewrite lookup_delete_eq in Hsome|].
    rewrite lookup_delete_ne in Hsome by done. congruence.
  - unfold HandleClient in Hsome. destruct (sessions c !! Msg.nhc_Sid m) as [s'|] eqn:Hl; [|congruence].
    by destruct (Hold _ _ _ Hl Hsome).
  - unfold HandleReport in Hsome. destruct (sessions c !! Msg.nhp_Sid m); [|congruence].
    destruct (Msg.nhp_Success m); simpl in Hsome; congruence.
  - congruence.
Qed.

End Ops.

(** ** A visitor who is not allowed

    Only the check asks whether the visitor's user is allowed; a visitor that
    holds the secret and skips the check gets its session. *)

(** A visitor of proxy "p" with secret "s", the hash being the identity. *)
Definition demo_visitor (preCheck : bool) : Msg.NatHoleVisitor :=
  Msg.mkNatHoleVisitor "tv" "p" preCheck "quic" "s7" 7
    ["1.1.1.1:1000"; "1.1.1.1:1002"] ["10.0.0.2:9"].

Definition demo_client : Msg.NatHoleClient :=
  Msg.mkNatHoleClient "tc" "p" "sid" ["2.2.2.2:2000"; "2.2.2.2:2000"] ["10.0.0.3:9"].

Definition demo_controller : Controller :=
  (ListenClient (NewController 0) "p" "s" ["alice"]).1.

Definition demo_hash (s : string) : string := s.

Definition demo_session : Session :=
  mkSession "sid" "" 0 0 (demo_visitor false) None false PSendSid.

Lemma demo_controller_reachable : creachable demo_hash demo_hash 0 demo_controller.
Proof. apply rtc_once. exists Silent. apply CListen. Qed.

Lemma allow_users_only_checked :
  ∃ c m user c', creachable demo_hash demo_hash 0 c ∧
    Msg.nhr_Error (HandleVisitor_precheck c m user) =
      "xtcp visitor user [mallory] not allowed for [p]" ∧
    HandleVisitor_open demo_hash c "sid" m user = (c', None) ∧
    sessions c' !! "sid" = Some demo_session.
Proof.
  exists demo_controller, (demo_visitor false), "mallory". eexists.
  split; [apply demo_controller_reachable|].
  split; [vm_compute; reflexivity|]. split; vm_compute; reflexivity.
Qed.

(** ** Witnesses *)

Lemma candidate_ports_told_witness :
  Msg.db_CandidatePorts (Msg.nhr_DetectBehavior
    (newNatHoleResponse "t" "sid" "quic" 1 ["1.1.1.1:1000"; "1.1.1.1:1002"; "1.1.1.1:1002"] []
       (receiver 7 10 0) 5000 2)) = [].
Proof.
  exact (candidate_ports_told "t" "sid" "quic" 1
    ["1.1.1.1:1000"; "1.1.1.1:1002"; "1.1.1.1:1002"] [] (receiver 7 10 0) 5000 2
    "1.1.1.1:1002" "1.1.1.1" "1002" 1002 eq_refl eq_refl eq_refl eq_refl).
Defined.

Definition demo_opened : Controller :=
  (HandleVisitor_open demo_hash demo_controller "sid" (demo_visitor false) "alice").1.

Lemma demo_opened_reachable : creachable demo_hash demo_hash 0 demo_opened.
Proof.
  eapply rtc_r; [apply demo_controller_reachable|]. exists Silent.
  apply (CVisitor demo_hash demo_hash demo_controller "sid" (demo_visitor false) "alice"
    demo_opened None).
  vm_compute. reflexivity.
Qed.

Lemma answers_meet_witness :
  ∃ vResp cResp,
    (HandleVisitor_respond demo_hash demo_hash 5 demo_opened "sid" demo_session demo_client).2 =
      [(ToVisitor, vResp); (ToClient, cResp)] ∧
    (meet "sid" (demo_visitor false) demo_client vResp cResp ∨
     Msg.nhr_Error vResp = Msg.nhr_Error cResp ∧ Msg.nhr_Error vResp ≠ "").
Proof.
  destruct (answers_meet demo_hash demo_hash 0 5 demo_opened
    (HandleVisitor_respond demo_hash demo_hash 5 demo_opened "sid" demo_session demo_client).1
    "sid" demo_session demo_client
    (HandleVisitor_respond demo_hash demo_hash 5 demo_opened "sid" demo_session demo_client).2)
    as (v & c & Hl & Hm).
  - apply demo_opened_reachable.
  - vm_compute. reflexivity.
  - apply surjective_pairing.
  - exists v, c. split; [exact Hl|exact Hm].
Defined.

Lemma session_needs_secret_witness :
  ∃ cfg, clientCfgs demo_controller !! "p" = Some cfg ∧
    "s7" = GetAuthKey demo_hash (cfg_sk cfg) 7.
Proof.
  apply (session_needs_secret demo_hash demo_hash demo_controller demo_opened Silent "sid"
    demo_session).
  - apply (CVisitor demo_hash demo_hash demo_controller "sid" (demo_visitor false) "alice"
      demo_opened None).
    vm_compute. reflexivity.
  - vm_compute. reflexivity.
  - vm_compute. reflexivity.
Defined.

End NatController.
