(* ===== verification/Group.v ===== *)
(** Load-balancing groups, server/group: registry.go (the named groups of a
    controller), base.go (listeners that share one real listener), tcp.go,
    https.go and tcpmux.go (what the real listener is), on top of the port
    manager and of the virtual-host routes.

    A group is an object with an identity: a caller may still hold a group
    that was meanwhile emptied and replaced. So groups live in a heap, the
    registry maps names to locations, and a caller's [Listen] is two steps,
    finding or creating the group and listening on the group it found. Each
    runs under the code's locks and is atomic. The delivery of connections to
    the listeners ([worker], [Accept]) is left out. *)
From Stdlib Require Import ZArith Lia String.
From stdpp Require Import base gmap strings list fin_maps relations.
From S2P Require Import Prelude GoLib Router Ports.

Local Open Scope frp_scope.

Module Group.

Inductive group_error (E : Type) :=
| ErrGroupAuthFailed
| ErrGroupParamsInvalid
| ErrGroupDifferentPort
| errGroupStale
| ErrOpen (e : E).
Arguments ErrGroupAuthFailed {E}.
Arguments ErrGroupParamsInvalid {E}.
Arguments ErrGroupDifferentPort {E}.
Arguments errGroupStale {E}.
Arguments ErrOpen {E} _.

(** What a kind of group supplies: opening the real listener for a request
    (the first member's), closing it again, and comparing a later member's
    request with the first one's. [R] is the state of the component that
    hands out the listeners, [H] identifies one. *)
Class Backend (R Q H E : Type) := {
  b_open : R → Q → R * res E H;
  b_close : Z → R → H → R;
  b_mismatch : Q → Q → option (group_error E)
}.

(** What the groups rely on: [b_held r h] says that [h] is open in [r].
    Opening gives a listener that was not open, closing closes that one, and
    nothing else changes. [b_admissible] is what must be true of a request. *)
Class BackendLaws (R Q H E : Type) `{Backend R Q H E} := {
  b_wf : R → Prop;
  b_held : R → H → Prop;
  b_admissible : R → Q → Prop;
  open_Ok r q r' h : b_wf r → b_admissible r q → b_open r q = (r', Ok h) →
    b_wf r' ∧ ¬ b_held r h ∧ b_held r' h ∧ ∀ h', h' ≠ h → b_held r' h' ↔ b_held r h';
  open_Err r q r' e : b_wf r → b_admissible r q → b_open r q = (r', Err e) →
    b_wf r' ∧ ∀ h', b_held r' h' ↔ b_held r h';
  close_law now r h : b_wf r → b_held r h →
    b_wf (b_close now r h) ∧ ¬ b_held (b_close now r h) h ∧
    ∀ h', h' ≠ h → b_held (b_close now r h) h' ↔ b_held r h';
  mismatch_not_stale q1 q2 : b_mismatch q1 q2 ≠ Some errGroupStale
}.

Section Groups.
Context {R Q H E : Type} `{Backend R Q H E}.

(** The fields [initBase] sets, with the parameters of the first member. *)
Record Base := mkBase {
  bg_group : string; bg_groupKey : string; bg_params : Q; bg_handle : H }.

(** A group object: not initialised yet, or initialised; its listeners. *)
Record baseGroup := mkGroup { base : option Base; lns : list nat }.

Record Ctl := mkCtl {
  backend : R;
  groups : gmap string nat;
  heap : gmap nat baseGroup;
  nextGroup : nat;
  nextLn : nat
}.

Definition getOrCreate (s : Ctl) (key : string) : Ctl * nat :=
  match groups s !! key with
  | Some g => (s, g)
  | None =>
      (mkCtl (backend s) (<[key := nextGroup s]> (groups s))
         (<[nextGroup s := mkGroup None []]> (heap s)) (S (nextGroup s)) (nextLn s), nextGroup s)
  end.

Definition isCurrent (s : Ctl) (key : string) (g : nat) : bool :=
  bool_decide (groups s !! key = Some g).

Definition removeIf (groups : gmap string nat) (key : string) (g : nat) : gmap string nat :=
  if bool_decide (groups !! key = Some g) then delete key groups else groups.

(** [Listen] of a group object (TCPGroup.Listen, HTTPSGroup.Listen,
    TCPMuxGroup.HTTPConnectListen): the new listener and the real one. *)
Definition group_Listen (s : Ctl) (g : nat) (group groupKey : string) (q : Q) :
    Ctl * res (group_error E) (nat * H) :=
  if negb (isCurrent s group g) then (s, Err errGroupStale)
  else
    let bg := default (mkGroup None []) (heap s !! g) in
    match lns bg, base bg with
    | _ :: _, Some b =>
        if negb (String.eqb (bg_group b) group) then (s, Err ErrGroupParamsInvalid)
        else match b_mismatch (bg_params b) q with
        | Some e => (s, Err e)
        | None =>
            if negb (String.eqb (bg_groupKey b) groupKey) then (s, Err ErrGroupAuthFailed)
            else
              (mkCtl (backend s) (groups s)
                 (<[g := mkGroup (base bg) (lns bg ++ [nextLn s])]> (heap s))
                 (nextGroup s) (S (nextLn s)), Ok (nextLn s, bg_handle b))
        end
    | _, _ =>
        let '(r, res) := b_open (backend s) q in
        match res with
        | Err e => (mkCtl r (groups s) (heap s) (nextGroup s) (nextLn s), Err (ErrOpen e))
        | Ok h =>
            (mkCtl r (groups s)
               (<[g := mkGroup (Some (mkBase group groupKey q h)) [nextLn s]]> (heap s))
               (nextGroup s) (S (nextLn s)), Ok (nextLn s, h))
        end
    end.

(** [Listen] of a controller, [fuel] bounding its retries. *)
Fixpoint ctl_Listen (fuel : nat) (s : Ctl) (group groupKey : string) (q : Q) :
    Ctl * option (res (group_error E) (nat * H)) :=
  match fuel with
  | O => (s, None)
  | S fuel' =>
      let '(s, g) := getOrCreate s group in
      let '(s, r) := group_Listen s g group groupKey q in
      match r with
      | Err errGroupStale => ctl_Listen fuel' s group groupKey q
      | _ => (s, Some r)
      end
  end.

(** The loop of [closeListener]: the first occurrence goes. *)
Fixpoint remove_ln (ln : nat) (l : list nat) : list nat :=
  match l with
  | [] => []
  | x :: l' => if Nat.eqb x ln then l' else x :: remove_ln ln l'
  end.

Definition closeListener (now : Z) (s : Ctl) (g ln : nat) : Ctl :=
  match heap s !! g with
  | None => s
  | Some bg =>
      let lns' := remove_ln ln (lns bg) in
      let heap' := <[g := mkGroup (base bg) lns']> (heap s) in
      match lns', base bg with
      | [], Some b =>
          mkCtl (b_close now (backend s) (bg_handle b)) (removeIf (groups s) (bg_group b) g)
            heap' (nextGroup s) (nextLn s)
      | _, _ => mkCtl (backend s) (groups s) heap' (nextGroup s) (nextLn s)
      end
  end.

Definition NewCtl (r : R) : Ctl := mkCtl r ∅ ∅ 0 0.

(** ** Soundness *)

Context `{!BackendLaws R Q H E}.

(** A group that has listeners, and what it was initialised with. *)
Definition live (s : Ctl) (g : nat) (b : Base) : Prop :=
  ∃ bg, heap s !! g = Some bg ∧ lns bg ≠ [] ∧ base bg = Some b.

(** A controller whose backend keeps the laws: the real listeners of the groups
    with members are open, and different. Each call keeps this as long as nobody
    else closes them in between; without that, see the accounts below. *)
Record sound (s : Ctl) : Prop := {
  s_wf : b_wf (backend s);
  s_init : ∀ g bg, heap s !! g = Some bg → lns bg ≠ [] → is_Some (base bg);
  s_current : ∀ g b, live s g b → groups s !! bg_group b = Some g;
  s_held : ∀ g b, live s g b → b_held (backend s) (bg_handle b);
  s_distinct : ∀ g1 g2 b1 b2, live s g1 b1 → live s g2 b2 → bg_handle b1 = bg_handle b2 → g1 = g2;
  s_named : ∀ key g, groups s !! key = Some g →
    is_Some (heap s !! g) ∧ ∀ b, live s g b → bg_group b = key;
  s_inj : ∀ k1 k2 g, groups s !! k1 = Some g → groups s !! k2 = Some g → k1 = k2;
  s_fresh : ∀ g, is_Some (heap s !! g) → (g < nextGroup s)%nat
}.

Lemma live_fun s g b b' : live s g b → live s g b' → b = b'.
Proof. intros (bg & Hh & _ & Hb) (bg' & Hh' & _ & Hb'). congruence. Qed.

(** Which groups are live after a change at [g]. *)
Lemma live_insert r gs hp n m g bg g' b :
  live (mkCtl r gs (<[g := bg]> hp) n m) g' b ↔
  (g' = g ∧ lns bg ≠ [] ∧ base bg = Some b) ∨
  (g' ≠ g ∧ ∃ bg', hp !! g' = Some bg' ∧ lns bg' ≠ [] ∧ base bg' = Some b).
Proof.
  unfold live. simpl. destruct (decide (g' = g)) as [->|Hne].
  - rewrite lookup_insert_eq. split.
    + intros (x & [= <-] & ? & ?). by left.
    + intros [(_ & ? & ?)|[? _]]; [eauto|done].
  - rewrite lookup_insert_ne by done. naive_solver.
Qed.

Lemma sound_getOrCreate s key : sound s → sound (getOrCreate s key).1.
Proof.
  intros [Hwf Hi Hc Hh Hd Hn Hj Hf]. unfold getOrCreate.
  destruct (groups s !! key) as [g|] eqn:Hg; [done|]. simpl.
  assert (heap s !! nextGroup s = None) as Hnone.
  { destruct (heap s !! nextGroup s) eqn:Hx; [|done].
    assert (nextGroup s < nextGroup s)%nat; [apply Hf; eauto|lia]. }
  assert (∀ g b, live (mkCtl (backend s) (<[key := nextGroup s]> (groups s))
    (<[nextGroup s := mkGroup None []]> (heap s)) (S (nextGroup s)) (nextLn s)) g b →
    live s g b ∧ g ≠ nextGroup s) as Hlive.
  { intros g b [(_ & Hx & _)|[Hne Hx]]%live_insert; [done|]. split; [exact Hx|done]. }
  split; simpl.
  - done.
  - intros g bg. rewrite lookup_insert. case_decide; [intros [= <-]; done|apply Hi].
  - intros g b [Hl _]%Hlive. apply Hc in Hl. rewrite lookup_insert_ne; [done|congruence].
  - intros g b [Hl _]%Hlive. by apply (Hh g).
  - intros g1 g2 b1 b2 [H1 _]%Hlive [H2 _]%Hlive. by eapply Hd.
  - intros k g. rewrite lookup_insert. case_decide as Hk.
    + intros [= <-]. split; [rewrite lookup_insert_eq; eauto|].
      intros b [_ Hne]%Hlive. done.
    + intros Hx. apply Hn in Hx as [Hs Hb]. split; [|by intros b [Hl _]%Hlive; apply Hb].
      rewrite lookup_insert_ne; [done|]. intros Heq. rewrite Heq in Hnone.
      destruct Hs as [? Hs]. congruence.
  - assert (∀ k, groups s !! k ≠ Some (nextGroup s)) as Hno.
    { intros k [[? Hx] _]%Hn. congruence. }
    intros k1 k2 g. rewrite !lookup_insert. repeat case_decide; subst; try done.
    + by intros [= <-] Hx%Hno.
    + by intros Hx [= <-]; apply Hno in Hx.
    + apply Hj.
  - intros g. rewrite lookup_insert. case_decide; [lia|]. intros ?%Hf. lia.
Qed.

(** The invariant looks at the backend only through what is held. *)
Lemma sound_backend s r :
  sound s → b_wf r → (∀ g b, live s g b → b_held r (bg_handle b)) →
  sound (mkCtl r (groups s) (heap s) (nextGroup s) (nextLn s)).
Proof. intros [Hwf Hi Hc Hh Hd Hn Hj Hf] Hr Hl. by split. Qed.

(** A group whose first listener was opened. *)
Lemma sound_first s g group groupKey q r h :
  sound s → groups s !! group = Some g → (∀ b, ¬ live s g b) →
  b_wf r → b_held r h → ¬ b_held (backend s) h →
  (∀ h', h' ≠ h → b_held r h' ↔ b_held (backend s) h') →
  sound (mkCtl r (groups s)
    (<[g := mkGroup (Some (mkBase group groupKey q h)) [nextLn s]]> (heap s))
    (nextGroup s) (S (nextLn s))).
Proof.
  intros [Hwf Hi Hc Hh Hd Hn Hj Hf] Hg Hdead Hr Hheld Hnot Hsame.
  assert (∀ g' b, live s g' b → bg_handle b ≠ h) as Hne.
  { intros g' b Hl <-. by apply Hnot, (Hh g'). }
  split; simpl.
  - done.
  - intros g' bg. rewrite lookup_insert. case_decide; [intros [= <-]; eauto|apply Hi].
  - intros g' b [(-> & _ & [= <-])|[_ Hl]]%live_insert; [done|]. by apply Hc.
  - intros g' b [(-> & _ & [= <-])|[_ Hl]]%live_insert; [done|].
    apply Hsame; [by eapply Hne|by apply (Hh g')].
  - intros g1 g2 b1 b2 [(-> & _ & [= <-])|[_ H1]]%live_insert
      [(-> & _ & [= <-])|[_ H2]]%live_insert Heq; simpl in *.
    + done.
    + by destruct (Hne _ _ H2).
    + by destruct (Hne _ _ H1).
    + by eapply Hd.
  - intros key g' Hk. split.
    + destruct (decide (g = g')) as [<-|]; [rewrite lookup_insert_eq; eauto|].
      rewrite lookup_insert_ne by done. by apply (Hn key).
    + intros b [(-> & _ & [= <-])|[_ Hl]]%live_insert; simpl.
      * by apply (Hj group key g).
      * by apply (Hn key g').
  - done.
  - intros g'. rewrite lookup_insert. case_decide as Heq; [|by apply Hf].
    subst g'. intros _. apply Hf. by apply (Hn group).
Qed.

(** A group that stays live with the same base. *)
Lemma sound_relisten s g bg b l m :
  sound s → heap s !! g = Some bg → lns bg ≠ [] → base bg = Some b → l ≠ [] →
  sound (mkCtl (backend s) (groups s) (<[g := mkGroup (base bg) l]> (heap s)) (nextGroup s) m).
Proof.
  intros [Hwf Hi Hc Hh Hd Hn Hj Hf] Hg Hne Hb Hl. rewrite Hb.
  assert (∀ g' b', live (mkCtl (backend s) (groups s) (<[g := mkGroup (Some b) l]> (heap s))
    (nextGroup s) m) g' b' ↔ live s g' b') as Hlive.
  { intros g' b'. rewrite live_insert. simpl. split.
    - intros [(-> & _ & [= <-])|[_ Hx]]; [|exact Hx]. by exists bg.
    - intros (bg' & Hg' & Hne' & Hb'). destruct (decide (g' = g)) as [->|]; [left|right; eauto].
      split_and!; [done..|congruence]. }
  split; simpl; try done.
  - intros g' bg'. rewrite lookup_insert. case_decide; [intros [= <-]; eauto|apply Hi].
  - intros g' b' ?%Hlive. by apply Hc.
  - intros g' b' ?%Hlive. by apply (Hh g').
  - intros g1 g2 b1 b2 ?%Hlive ?%Hlive. by apply Hd.
  - intros key g' Hk. destruct (Hn _ _ Hk) as [Hs Hx]. split.
    + rewrite lookup_insert. case_decide; [eauto|done].
    + intros b' ?%Hlive. by apply Hx.
  - intros g'. rewrite lookup_insert. case_decide as Heq; [|by apply Hf].
    subst g'. intros _. apply Hf. eauto.
Qed.

(** A group whose last listener was closed. *)
Lemma sound_last now s g bg b :
  sound s → heap s !! g = Some bg → lns bg ≠ [] → base bg = Some b →
  sound (mkCtl (b_close now (backend s) (bg_handle b)) (removeIf (groups s) (bg_group b) g)
           (<[g := mkGroup (base bg) []]> (heap s)) (nextGroup s) (nextLn s)).
Proof.
  intros [Hwf Hi Hc Hh Hd Hn Hj Hf] Hg Hne Hb.
  assert (live s g b) as Hlg by (by exists bg).
  destruct (close_law now (backend s) (bg_handle b) Hwf (Hh _ _ Hlg)) as (Hwf' & _ & Hsame).
  assert (groups s !! bg_group b = Some g) as Hcur by (by apply Hc).
  unfold removeIf. rewrite bool_decide_true by done.
  set (s' := mkCtl _ _ _ _ _).
  assert (∀ g' b', live s' g' b' → live s g' b' ∧ g' ≠ g) as Hlive.
  { intros g' b' [(_ & Hx & _)|[Hn' Hx]]%live_insert; [done|]. split; [exact Hx|done]. }
  assert (∀ k g', delete (bg_group b) (groups s) !! k = Some g' → groups s !! k = Some g' ∧ g' ≠ g)
    as Hdel.
  { intros k g' Hk. apply lookup_delete_Some in Hk as [Hk1 Hk2]. split; [done|].
    intros ->. by apply Hk1, (Hj _ _ g). }
  split; simpl.
  - done.
  - intros g' bg'. rewrite lookup_insert. case_decide; [intros [= <-]; done|apply Hi].
  - intros g' b' [Hl Hng]%Hlive. pose proof (Hc _ _ Hl) as Hk.
    rewrite lookup_delete_ne; [done|]. intros Heq. rewrite Heq in Hcur. congruence.
  - intros g' b' [Hl Hng]%Hlive. apply Hsame; [|by apply (Hh g')].
    intros Heq. by apply Hng, (Hd g' g b' b).
  - intros g1 g2 b1 b2 [H1 _]%Hlive [H2 _]%Hlive. by apply Hd.
  - intros k g' [Hk Hng]%Hdel. destruct (Hn _ _ Hk) as [Hs Hx]. split.
    + by rewrite lookup_insert_ne.
    + intros b' [Hl _]%Hlive. by apply Hx.
  - intros k1 k2 g' [H1 _]%Hdel [H2 _]%Hdel. by apply (Hj _ _ g').
  - intros g'. rewrite lookup_insert. case_decide as Heq; [|by apply Hf].
    subst g'. intros _. apply Hf. eauto.
Qed.

(** The two ways a current group answers [Listen]. *)
Lemma group_Listen_current s g group groupKey q bg :
  groups s !! group = Some g → heap s !! g = Some bg →
  group_Listen s g group groupKey q =
  match lns bg, base bg with
  | _ :: _, Some b =>
      if negb (String.eqb (bg_group b) group) then (s, Err ErrGroupParamsInvalid)
      else match b_mismatch (bg_params b) q with
      | Some e => (s, Err e)
      | None =>
          if negb (String.eqb (bg_groupKey b) groupKey) then (s, Err ErrGroupAuthFailed)
          else (mkCtl (backend s) (groups s)
                  (<[g := mkGroup (base bg) (lns bg ++ [nextLn s])]> (heap s))
                  (nextGroup s) (S (nextLn s)), Ok (nextLn s, bg_handle b))
      end
  | _, _ =>
      let '(r, res) := b_open (backend s) q in
      match res with
      | Err e => (mkCtl r (groups s) (heap s) (nextGroup s) (nextLn s), Err (ErrOpen e))
      | Ok h =>
          (mkCtl r (groups s)
             (<[g := mkGroup (Some (mkBase group groupKey q h)) [nextLn s]]> (heap s))
             (nextGroup s) (S (nextLn s)), Ok (nextLn s, h))
      end
  end.
Proof.
  intros Hg Hh. unfold group_Listen, isCurrent. rewrite bool_decide_true by done. simpl.
  by rewrite Hh.
Qed.

Lemma sound_Listen s g group groupKey q :
  sound s → b_admissible (backend s) q → sound (group_Listen s g group groupKey q).1.
Proof.
  intros Hs Ha. destruct (decide (groups s !! group = Some g)) as [Hg|Hg].
  2:{ unfold group_Listen, isCurrent. by rewrite bool_decide_false. }
  destruct (s_named _ Hs _ _ Hg) as [[bg Hh] _].
  rewrite (group_Listen_current s g group groupKey q bg) by done.
  assert ((lns bg = [] ∨ base bg = None) → sound
    (let '(r, o) := b_open (backend s) q in
     match o with
     | Err e => (mkCtl r (groups s) (heap s) (nextGroup s) (nextLn s), Err (ErrOpen e))
     | Ok h => (mkCtl r (groups s)
         (<[g := mkGroup (Some (mkBase group groupKey q h)) [nextLn s]]> (heap s))
         (nextGroup s) (S (nextLn s)), Ok (nextLn s, h))
     end : Ctl * res (group_error E) (nat * H)).1) as Hopen.
  { intros Hdead. destruct (b_open (backend s) q) as [r [h|e]] eqn:Ho; simpl.
    - apply open_Ok in Ho as (Hwf & Hnot & Hheld & Hsame); [|apply Hs|done].
      apply sound_first; try done. intros b (bg' & Hh' & Hne & Hb). destruct Hdead; congruence.
    - apply open_Err in Ho as [Hwf Hsame]; [|by apply Hs|done].
      apply sound_backend; [done..|]. intros g' b Hl. apply Hsame. by apply (s_held _ Hs g'). }
  destruct (lns bg) as [|x l] eqn:Hl; [by apply Hopen; left|].
  destruct (base bg) as [b|] eqn:Hb; [|by apply Hopen; right].
  destruct (negb _); [done|]. destruct (b_mismatch _ _); [done|]. destruct (negb _); [done|].
  simpl. rewrite <- Hb. eapply sound_relisten; try done. by rewrite Hl.
Qed.

Lemma sound_close now s g ln bg :
  sound s → heap s !! g = Some bg → ln ∈ lns bg → sound (closeListener now s g ln).
Proof.
  intros Hs Hh Hin. assert (lns bg ≠ []) as Hne by (intros Hx; rewrite Hx in Hin; by apply not_elem_of_nil in Hin).
  destruct (s_init _ Hs _ _ Hh Hne) as [b Hb].
  unfold closeListener. rewrite Hh. destruct (remove_ln ln (lns bg)) as [|x l] eqn:Hr.
  - rewrite Hb, <- Hb. by apply sound_last.
  - by eapply sound_relisten.
Qed.

Lemma sound_New r : b_wf r → sound (NewCtl r).
Proof.
  intros Hr. split; simpl; try done.
  - intros g b (bg & Hx & _). simpl in Hx. by rewrite lookup_empty in Hx.
  - intros g b (bg & Hx & _). simpl in Hx. by rewrite lookup_empty in Hx.
  - intros g1 g2 b1 b2 (bg & Hx & _). simpl in Hx. by rewrite lookup_empty in Hx.
  - intros g [? Hx]. simpl in Hx. by rewrite lookup_empty in Hx.
Qed.

Lemma getOrCreate_spec s key :
  sound s →
  let '(s1, g) := getOrCreate s key in
  groups s1 !! key = Some g ∧ backend s1 = backend s ∧ nextLn s1 = nextLn s ∧
  ∃ bg, heap s1 !! g = Some bg ∧
    ((∃ b, live s g b ∧ bg_group b = key ∧ heap s !! g = Some bg ∧ s1 = s) ∨
     (lns bg = [] ∧ ∀ g' b, live s g' b → bg_group b ≠ key)).
Proof.
  intros Hs. unfold getOrCreate. destruct (groups s !! key) as [g|] eqn:Hg.
  - destruct (s_named _ Hs _ _ Hg) as [[bg Hh] Hn]. split_and!; [done..|]. exists bg.
    split; [done|]. destruct (decide (lns bg = [])) as [Hl|Hl].
    + right. split; [done|]. intros g' b Hlive Hk. pose proof (s_current _ Hs _ _ Hlive) as Hc.
      rewrite Hk, Hg in Hc. injection Hc as <-. destruct Hlive as (bg' & Hh' & Hne & _). congruence.
    + left. destruct (s_init _ Hs _ _ Hh Hl) as [b Hb]. exists b.
      assert (live s g b) as Hlive by (by exists bg). split_and!; auto.
  - simpl. rewrite lookup_insert_eq. split_and!; [done..|]. eexists. rewrite lookup_insert_eq.
    split; [done|]. right. split; [done|]. intros g' b Hlive Hk.
    pose proof (s_current _ Hs _ _ Hlive) as Hc. congruence.
Qed.

(** *** Listeners of a group, before and after an operation *)

Definition lns_of (s : Ctl) (g : nat) : list nat :=
  match heap s !! g with Some bg => lns bg | None => [] end.

Lemma live_lns_of s g b : live s g b → lns_of s g ≠ [].
Proof. intros (bg & Hh & Hne & _). unfold lns_of. by rewrite Hh. Qed.

Lemma lns_of_live s g : sound s → lns_of s g ≠ [] → ∃ b, live s g b.
Proof.
  intros Hs. unfold lns_of. destruct (heap s !! g) as [bg|] eqn:Hh; [|done].
  intros Hne. destruct (s_init _ Hs _ _ Hh Hne) as [b Hb]. exists b. by exists bg.
Qed.

(** A new group object has no listeners, so creating one changes none. *)
Lemma getOrCreate_same s key :
  sound s → let s1 := (getOrCreate s key).1 in
  backend s1 = backend s ∧ nextLn s1 = nextLn s ∧
  ∀ g, lns_of s1 g = lns_of s g ∧ ∀ b, live s1 g b ↔ live s g b.
Proof.
  intros Hs. unfold getOrCreate. destruct (groups s !! key) eqn:Hg; simpl; [done|].
  split_and!; [done..|]. intros g.
  assert (heap s !! nextGroup s = None) as Hf.
  { destruct (heap s !! nextGroup s) eqn:Hx; [|done].
    assert (nextGroup s < nextGroup s)%nat by (apply (s_fresh _ Hs); eauto). lia. }
  unfold lns_of, live. simpl. destruct (decide (g = nextGroup s)) as [->|Hne].
  - rewrite lookup_insert_eq, Hf. split; [done|]. intros b. split; [|by intros (bg & ? & _)].
    intros (bg & [= <-] & ? & _). done.
  - by rewrite lookup_insert_ne.
Qed.

(** What [Listen] on the registered object of a name does. *)
Lemma group_Listen_spec s g group groupKey q s' o :
  sound s → b_admissible (backend s) q → groups s !! group = Some g →
  group_Listen s g group groupKey q = (s', o) →
  match o with
  | Err e =>
      e ≠ errGroupStale ∧ nextLn s' = nextLn s ∧ (∀ h, b_held (backend s') h ↔ b_held (backend s) h) ∧
      ∀ g, lns_of s' g = lns_of s g ∧ ∀ b, live s' g b ↔ live s g b
  | Ok (ln, h) =>
      ∃ b, groups s' !! group = Some g ∧ live s' g b ∧ bg_handle b = h ∧ ln = nextLn s ∧
        nextLn s' = S (nextLn s) ∧ lns_of s' g = lns_of s g ++ [ln] ∧
        (∀ g', g' ≠ g → lns_of s' g' = lns_of s g' ∧ ∀ b, live s' g' b ↔ live s g' b) ∧
        (live s g b ∧ backend s' = backend s ∨
         lns_of s g = [] ∧ b_open (backend s) q = (backend s', Ok h))
  end.
Proof.
  intros Hs Ha Hg. destruct (s_named _ Hs _ _ Hg) as [[bg Hh] _].
  rewrite (group_Listen_current s g group groupKey q bg) by done.
  assert (∀ r hp n m bg', hp = <[g := bg']> (heap s) → lns bg' ≠ [] → is_Some (base bg') →
    ∀ g', g' ≠ g → let s2 := mkCtl r (groups s) hp n m in
      lns_of s2 g' = lns_of s g' ∧ ∀ b, live s2 g' b ↔ live s g' b) as Hother.
  { intros r hp n m bg' -> _ _ g' Hne. unfold lns_of, live. simpl. by rewrite lookup_insert_ne. }
  assert (lns bg = [] → lns_of s g = []) as Hnil by (intros Hl; unfold lns_of; by rewrite Hh).
  destruct (lns bg) as [|x l] eqn:Hl; [|destruct (base bg) as [b|] eqn:Hb].
  - destruct (b_open (backend s) q) as [r [h|e]] eqn:Ho; intros [= <- <-]; simpl.
    + exists (mkBase group groupKey q h). split_and!; try done.
      * eexists. simpl. rewrite lookup_insert_eq. by split_and!.
      * unfold lns_of at 1. simpl. rewrite lookup_insert_eq, Hnil by done. done.
      * by apply (Hother _ _ _ _ _ eq_refl).
      * right. by rewrite Hnil.
    + apply open_Err in Ho as [_ Hsame]; [|apply Hs|done]. done.
  - destruct (negb (String.eqb (bg_group b) group)); [by intros [= <- <-]|].
    destruct (b_mismatch (bg_params b) q) eqn:Hm.
    { intros [= <- <-]. split; [|done]. intros ->. by apply mismatch_not_stale in Hm. }
    destruct (negb _); intros [= <- <-]; [done|]. exists b. split_and!; try done; simpl.
    + eexists. simpl. rewrite lookup_insert_eq. split_and!; [done| |done]. by destruct l.
    + unfold lns_of. simpl. by rewrite lookup_insert_eq, Hh, Hl.
    + apply (Hother _ _ _ _ _ eq_refl); [by destruct l|simpl; eauto].
    + left. split; [|done]. exists bg. by rewrite Hl.
  - destruct (s_init _ Hs _ _ Hh) as [? ?]; [by rewrite Hl|congruence].
Qed.

(** [Listen] of a controller that nothing else touches. *)
Lemma ctl_Listen_spec s group groupKey q s' o :
  sound s → b_admissible (backend s) q → ctl_Listen 1 s group groupKey q = (s', o) →
  sound s' ∧
  match o with
  | None => False
  | Some (Err _) =>
      nextLn s' = nextLn s ∧ (∀ h, b_held (backend s') h ↔ b_held (backend s) h) ∧
      ∀ g, lns_of s' g = lns_of s g ∧ ∀ b, live s' g b ↔ live s g b
  | Some (Ok (ln, h)) =>
      ∃ g b, groups s' !! group = Some g ∧ live s' g b ∧ bg_handle b = h ∧ ln = nextLn s ∧
        nextLn s' = S (nextLn s) ∧ lns_of s' g = lns_of s g ++ [ln] ∧
        (∀ g', g' ≠ g → lns_of s' g' = lns_of s g' ∧ ∀ b, live s' g' b ↔ live s g' b) ∧
        (live s g b ∧ backend s' = backend s ∨
         lns_of s g = [] ∧ b_open (backend s) q = (backend s', Ok h))
  end.
Proof.
  intros Hs Ha. cbn [ctl_Listen]. pose proof (getOrCreate_same s group Hs) as (Hb1 & Hn1 & Hl1).
  pose proof (sound_getOrCreate s group Hs) as Hs1. pose proof (getOrCreate_spec s group Hs) as Hg.
  destruct (getOrCreate s group) as [s1 g]. simpl in Hb1, Hn1, Hl1, Hs1.
  destruct Hg as (Hcur & _). rewrite <-Hb1 in Ha |- *.
  pose proof (sound_Listen s1 g group groupKey q Hs1 Ha) as Hs2.
  destruct (group_Listen s1 g group groupKey q) as [s2 r] eqn:Hr. simpl in Hs2.
  apply (group_Listen_spec s1) in Hr; [|done..].
  destruct r as [[ln h]|e].
  - intros [= <- <-]. split; [done|]. destruct Hr as (b & ? & ? & ? & ? & ? & Hx & Hy & Hz).
    exists g, b. rewrite <-Hn1. destruct (Hl1 g) as [Hlg Hvg]. split_and!; try done.
    + by rewrite <-Hlg.
    + intros g' Hne. destruct (Hy g' Hne) as [-> Hv]. destruct (Hl1 g') as [-> Hv'].
      split; [done|]. intros b'. by rewrite Hv.
    + destruct Hz as [[? ?]|[? ?]]; [left|right]; by rewrite <-?Hvg, <-?Hlg.
  - destruct Hr as (Hne & Hn & Hheld & Hsame).
    assert ((s2, Some (Err e)) = (s', o) → sound s' ∧ match o with Some (Err _) =>
      nextLn s' = nextLn s ∧ (∀ h, b_held (backend s') h ↔ b_held (backend s1) h) ∧
      ∀ g, lns_of s' g = lns_of s g ∧ ∀ b, live s' g b ↔ live s g b | _ => False end) as Hgoal.
    { intros [= <- <-]. split; [done|]. split_and!; [congruence|done|]. intros g'.
      destruct (Hsame g') as [-> Hv]. destruct (Hl1 g') as [-> Hv']. split; [done|].
      intros b. by rewrite Hv. }
    intros Heq. destruct e; [| | |done|]; specialize (Hgoal Heq);
      (destruct o as [[[? ?]|?]|]; [by destruct Hgoal|exact Hgoal|by destruct Hgoal]).
Qed.

(** Closing one listener of a group. *)
Lemma closeListener_spec now s g ln :
  sound s → ln ∈ lns_of s g →
  let s' := closeListener now s g ln in
  sound s' ∧ nextLn s' = nextLn s ∧ lns_of s' g = remove_ln ln (lns_of s g) ∧
  (∀ g', g' ≠ g → lns_of s' g' = lns_of s g' ∧ ∀ b, live s' g' b ↔ live s g' b) ∧
  ∃ b, live s g b ∧
    if decide (remove_ln ln (lns_of s g) = []) then backend s' = b_close now (backend s) (bg_handle b)
    else backend s' = backend s ∧ live s' g b.
Proof.
  intros Hs Hin. simpl. unfold lns_of in Hin. destruct (heap s !! g) as [bg|] eqn:Hh;
    [|by apply not_elem_of_nil in Hin].
  pose proof (sound_close now s g ln bg Hs Hh Hin) as Hs'. split; [done|].
  assert (lns bg ≠ []) as Hne by (intros Hx; rewrite Hx in Hin; by apply not_elem_of_nil in Hin).
  destruct (s_init _ Hs _ _ Hh Hne) as [b Hb]. unfold lns_of at 2. rewrite Hh.
  clear Hs'. unfold closeListener. rewrite Hh, Hb.
  destruct (remove_ln ln (lns bg)) as [|x l] eqn:Hr; simpl; (split; [done|]);
    (split; [unfold lns_of; simpl; by rewrite lookup_insert_eq|]); (split;
    [intros g' Hg; unfold lns_of, live; simpl; by rewrite lookup_insert_ne|]);
    exists b; (split; [by exists bg|]); unfold lns_of; rewrite Hh, Hr.
  - by rewrite decide_True.
  - rewrite decide_False by done. split; [done|]. eexists. simpl. by rewrite lookup_insert_eq.
Qed.

(** Listening on a group, nothing interfering, needs no retry: the
    controller's loop ends in its first round, and a group with members
    answers by comparing the parameters and then the key, sharing its real
    listener and leaving the backend alone, while a group without members
    answers by opening one. *)
Theorem listen_outcome (s : Ctl) (fuel : nat) (group groupKey : string) (q : Q) :
  sound s →
  ∃ s' o, ctl_Listen (S fuel) s group groupKey q = (s', Some o) ∧
    ((∃ g b, live s g b ∧ bg_group b = group ∧ backend s' = backend s ∧
       o = match b_mismatch (bg_params b) q with
           | Some e => Err e
           | None => if String.eqb (bg_groupKey b) groupKey then Ok (nextLn s, bg_handle b)
                     else Err ErrGroupAuthFailed
           end) ∨
     ((∀ g b, live s g b → bg_group b ≠ group) ∧ backend s' = (b_open (backend s) q).1 ∧
       o = match (b_open (backend s) q).2 with
           | Ok h => Ok (nextLn s, h)
           | Err e => Err (ErrOpen e)
           end)).
Proof.
  intros Hs. cbn [ctl_Listen].
  pose proof (getOrCreate_spec s group Hs) as Hg. destruct (getOrCreate s group) as [s1 g].
  destruct Hg as (Hcur & Hback & Hln & bg & Hh & Hcase).
  rewrite (group_Listen_current s1 g group groupKey q bg) by done.
  destruct Hcase as [(b & Hlive & Hname & Hh' & ->)|[Hl Hdead]].
  - pose proof Hlive as (bg' & Hx & Hne & Hb). assert (bg' = bg) as -> by congruence.
    destruct (lns bg) as [|x l]; [done|]. rewrite Hb, Hname, String.eqb_refl. cbn [negb].
    pose proof (mismatch_not_stale (bg_params b) q) as Hm.
    destruct (b_mismatch (bg_params b) q) as [e|] eqn:He.
    + exists s, (Err e). split; [by destruct e|]. left. exists g, b. by rewrite He.
    + destruct (String.eqb (bg_groupKey b) groupKey) eqn:Hk; simpl;
        eexists _, _; (split; [reflexivity|]); left; exists g, b; by rewrite He, Hk.
  - rewrite Hl, Hback, Hln. destruct (b_open (backend s) q) as [r' [h|e]];
      eexists _, _; (split; [reflexivity|]); by right.
Qed.

Lemma remove_ln_last ln l : remove_ln ln l = [] → ln ∈ l → l = [ln].
Proof.
  destruct l as [|x l]; simpl; [by intros _ ?%not_elem_of_nil|].
  destruct (Nat.eqb_spec x ln) as [->|]; [by intros -> _|done].
Qed.

(** Closing a listener: when others remain, the group keeps its base,
    and the backend and the registry stay as they are; when it was the last
    one, the real listener is closed and the name is free again, so that
    nothing of the group is left behind. *)
Theorem close_outcome (now : Z) (s : Ctl) (g ln : nat) (bg : baseGroup) (b : Base) :
  sound s → heap s !! g = Some bg → ln ∈ lns bg → base bg = Some b →
  let s' := closeListener now s g ln in
  if decide (lns bg = [ln]) then
    ¬ b_held (backend s') (bg_handle b) ∧ groups s' !! bg_group b = None ∧
    ∀ g' b', live s' g' b' ↔ live s g' b' ∧ g' ≠ g
  else backend s' = backend s ∧ groups s' = groups s ∧
       ∀ g' b', live s' g' b' ↔ live s g' b'.
Proof.
  intros Hs Hh Hin Hb. simpl.
  assert (lns bg ≠ []) as Hne by (intros Hx; rewrite Hx in Hin; by apply not_elem_of_nil in Hin).
  assert (live s g b) as Hlive by (by exists bg).
  pose proof (s_current _ Hs _ _ Hlive) as Hcur.
  unfold closeListener. rewrite Hh. case_decide as Hlast.
  - rewrite Hlast. simpl. rewrite Nat.eqb_refl, Hb. simpl.
    split; [apply close_law; [apply Hs|by apply (s_held _ Hs g)]|].
    unfold removeIf. rewrite bool_decide_true by done. split; [apply lookup_delete_eq|].
    intros g' b'. rewrite live_insert. simpl. split.
    + intros [(_ & ? & _)|[? ?]]; [done|]. by split.
    + intros [? ?]. by right.
  - destruct (remove_ln ln (lns bg)) as [|x l] eqn:Hrm; [by apply remove_ln_last in Hrm|].
    simpl. split_and!; [done..|]. intros g' b'. rewrite live_insert. simpl. split.
    + intros [(-> & _ & ?)|[_ ?]]; [|done]. by exists bg.
    + intros Hl'. destruct (decide (g' = g)) as [->|]; [left|by right].
      split_and!; [done..|]. rewrite Hb. f_equal. by eapply live_fun.
Qed.

End Groups.

(** ** Accounts

    What the groups do of themselves, whatever the component behind them answers
    and whoever else uses it. [recording] is a backend that also writes down
    the real listeners that are opened and closed; an account keeps, besides the
    controller, the listeners that calls of [Listen] returned and those that were
    closed. The state of the component may change in any way at any time. *)

Inductive bevent (H : Type) := Opened (h : H) | Shut (h : H).
Arguments Opened {H} _.
Arguments Shut {H} _.

Definition opened_by {H} (e : bevent H) : option H := match e with Opened h => Some h | Shut _ => None end.
Definition shut_by {H} (e : bevent H) : option H := match e with Opened _ => None | Shut h => Some h end.

Section Accounts.
Context {R Q H E : Type} `{B : Backend R Q H E}.

Definition recording : Backend (R * list (bevent H)) Q H E := {|
  b_open rl q :=
    match b_open rl.1 q with
    | (r, Ok h) => ((r, rl.2 ++ [Opened h]), Ok h)
    | (r, Err e) => ((r, rl.2), Err e)
    end;
  b_close now rl h := (b_close now rl.1 h, rl.2 ++ [Shut h]);
  b_mismatch := b_mismatch
|}.
#[local] Existing Instance recording.

(** A listener that [Listen] returned: its number, the group object it belongs
    to, the arguments of the call, and the real listener it got. *)
Record Joined := mkJoin {
  j_ln : nat; j_obj : nat; j_group : string; j_key : string; j_req : Q; j_handle : H }.

Record Account := mkAccount {
  actl : @Ctl (R * list (bevent H)) Q H; joins : list Joined; shut : list nat }.

Inductive astep : Account → Account → Prop :=
| AGet a key : astep a (mkAccount (getOrCreate (actl a) key).1 (joins a) (shut a))
| AListen a g group groupKey q s' r : group_Listen (actl a) g group groupKey q = (s', r) →
    astep a (mkAccount s'
      (match r with Ok (ln, h) => joins a ++ [mkJoin ln g group groupKey q h] | Err _ => joins a end) (shut a))
| AClose a now j : j ∈ joins a → j_ln j ∉ shut a →
    astep a (mkAccount (closeListener now (actl a) (j_obj j) (j_ln j)) (joins a) (j_ln j :: shut a))
| AOther a r : let s := actl a in
    astep a (mkAccount (mkCtl (r, (backend s).2) (groups s) (heap s) (nextGroup s) (nextLn s)) (joins a) (shut a)).

Definition NewAccount (r : R) : Account := mkAccount (NewCtl (r, [])) [] [].
Definition areachable (r : R) : Account → Prop := rtc astep (NewAccount r).

(** The real listeners of the groups with members. *)
Definition handle_of (bg : @baseGroup Q H) : list H :=
  match lns bg, base bg with _ :: _, Some b => [bg_handle b] | _, _ => [] end.
Definition live_handles (hp : gmap nat (@baseGroup Q H)) : list H := concat (handle_of <$> (map_to_list hp).*2).

(** The call that made a listener agrees with its group. *)
Definition fits (j : Joined) (b : @Base Q H) : Prop :=
  j_group j = bg_group b ∧ j_key j = bg_groupKey b ∧ j_handle j = bg_handle b ∧
  (j_req j = bg_params b ∨ b_mismatch (bg_params b) (j_req j) = None).

Record accounted (a : Account) : Prop := {
  a_fresh : ∀ g, is_Some (heap (actl a) !! g) → (g < nextGroup (actl a))%nat;
  a_init : ∀ g bg, heap (actl a) !! g = Some bg → lns bg ≠ [] → is_Some (base bg);
  a_current : ∀ g b, live (actl a) g b → groups (actl a) !! bg_group b = Some g;
  a_named : ∀ key g, groups (actl a) !! key = Some g → is_Some (heap (actl a) !! g);
  a_inj : ∀ k1 k2 g, groups (actl a) !! k1 = Some g → groups (actl a) !! k2 = Some g → k1 = k2;
  a_num : ∀ j, j ∈ joins a → (j_ln j < nextLn (actl a))%nat;
  a_distinct : ∀ j j', j ∈ joins a → j' ∈ joins a → j_ln j = j_ln j' → j = j';
  a_shut : ∀ ln, ln ∈ shut a → (ln < nextLn (actl a))%nat;
  a_join : ∀ j, j ∈ joins a → j_ln j ∉ shut a →
    ∃ b, live (actl a) (j_obj j) b ∧ j_ln j ∈ lns_of (actl a) (j_obj j) ∧ fits j b;
  a_member : ∀ g ln, ln ∈ lns_of (actl a) g → ∃ j, j ∈ joins a ∧ j_ln j = ln ∧ j_obj j = g ∧ ln ∉ shut a;
  a_nodup : ∀ g, NoDup (lns_of (actl a) g);
  a_log : omap opened_by (backend (actl a)).2 ≡ₚ omap shut_by (backend (actl a)).2 ++ live_handles (heap (actl a))
}.

Lemma live_handles_new hp g bg : hp !! g = None → live_handles (<[g := bg]> hp) ≡ₚ handle_of bg ++ live_handles hp.
Proof.
  intros Hg. unfold live_handles. rewrite (map_to_list_insert _ _ _ Hg). done.
Qed.

Lemma live_handles_set hp g bg bg' :
  hp !! g = Some bg → handle_of bg ++ live_handles (<[g := bg']> hp) ≡ₚ handle_of bg' ++ live_handles hp.
Proof.
  intros Hg. rewrite <-(insert_delete_id hp g bg) at 2 by done. rewrite <-insert_delete_eq.
  rewrite !live_handles_new by apply lookup_delete_eq.
  by rewrite !(Permutation_app_comm (handle_of _)), <-!app_assoc, (Permutation_app_comm (handle_of bg')).
Qed.

Lemma lns_of_insert (r : R * list (bevent H)) gs hp n m g (bg : @baseGroup Q H) g' :
  lns_of (mkCtl r gs (<[g := bg]> hp) n m) g' = if decide (g' = g) then lns bg else match hp !! g' with Some x => lns x | None => [] end.
Proof.
  unfold lns_of. simpl. case_decide as Hd; [subst; by rewrite lookup_insert_eq|by rewrite lookup_insert_ne].
Qed.

Lemma accounted_New r : accounted (NewAccount r).
Proof.
  assert (∀ g b, ¬ live (actl (NewAccount r)) g b) as Hl.
  { intros g b (bg & Hx & _). cbn in Hx. by rewrite lookup_empty in Hx. }
  assert (∀ g, lns_of (actl (NewAccount r)) g = []) as He by (intros g; unfold lns_of; cbn; by rewrite lookup_empty).
  split; try (by intros ? ?%not_elem_of_nil); try (by intros j ? ?%not_elem_of_nil).
  - cbn. intros g [? Hx]. by rewrite lookup_empty in Hx.
  - cbn. intros g bg Hx. by rewrite lookup_empty in Hx.
  - by intros g b ?%Hl.
  - cbn. intros k g Hx. by rewrite lookup_empty in Hx.
  - cbn. intros k1 k2 g Hx. by rewrite lookup_empty in Hx.
  - intros g. rewrite He. constructor.
  - done.
Qed.

Lemma accounted_get a key : accounted a → accounted (mkAccount (getOrCreate (actl a) key).1 (joins a) (shut a)).
Proof.
  intros Ha. unfold getOrCreate. destruct (groups (actl a) !! key) as [g0|] eqn:Hg; [by destruct a|].
  destruct Ha as [Hf Hi Hc Hn Hj Hnum Hd Hs Hjo Hm Hnd Hl]. destruct a as [[r gs hp n m] js cs]. cbn in *.
  assert (hp !! n = None) as Hnone by (destruct (hp !! n) eqn:Hx; [|done]; assert (n < n)%nat by (apply Hf; eauto); lia).
  set (s' := mkCtl r (<[key := n]> gs) (<[n := mkGroup None []]> hp) (S n) m).
  assert (∀ g b, live s' g b ↔ live (mkCtl r gs hp n m) g b) as Hlive.
  { intros g b. unfold s'. rewrite live_insert. unfold live. cbn. split; [naive_solver|].
    intros (bg & Hx & ? & ?). right. split; [congruence|eauto]. }
  assert (∀ g, lns_of s' g = lns_of (mkCtl r gs hp n m) g) as Hlns.
  { intros g. unfold s'. rewrite lns_of_insert. unfold lns_of. cbn. case_decide as Hx; [subst; by rewrite Hnone|done]. }
  split; cbn; fold s'.
  - intros g [bg [[<- _]|[_ Hx]]%lookup_insert_Some]; [lia|]. assert (g < n)%nat by eauto. lia.
  - intros g bg [[<- <-]|[_ Hx]]%lookup_insert_Some; [done|by eapply Hi].
  - intros g b Hx%Hlive%Hc. rewrite lookup_insert_ne; [done|congruence].
  - intros k g [[<- <-]|[_ Hx]]%lookup_insert_Some; [by rewrite lookup_insert_eq|].
    destruct (Hn _ _ Hx) as [x Hx']. exists x. rewrite lookup_insert_ne; [done|congruence].
  - assert (∀ k, gs !! k ≠ Some n) as Hno by (intros k [x Hx]%Hn; congruence).
    intros k1 k2 g [[<- <-]|[_ H1]]%lookup_insert_Some [[<- H2]|[_ H2]]%lookup_insert_Some; try done.
    + by apply Hno in H2.
    + subst. by apply Hno in H1.
    + by eapply Hj.
  - done.
  - done.
  - done.
  - intros j Hin Hns. destruct (Hjo j Hin Hns) as (b & ? & ? & ?). exists b. by rewrite Hlive, Hlns.
  - intros g ln. rewrite Hlns. apply Hm.
  - intros g. by rewrite Hlns.
  - by rewrite live_handles_new.
Qed.

(** A listener is added to the registered group of a name, the first one or not. *)
Lemma accounted_add a g bg b r j :
  accounted a → heap (actl a) !! g = Some bg → groups (actl a) !! bg_group b = Some g →
  (lns bg ≠ [] → base bg = Some b) → j_ln j = nextLn (actl a) → j_obj j = g → fits j b →
  omap opened_by r.2 ≡ₚ omap shut_by r.2 ++ live_handles (<[g := mkGroup (Some b) (lns bg ++ [j_ln j])]> (heap (actl a))) →
  accounted (mkAccount
    (mkCtl r (groups (actl a)) (<[g := mkGroup (Some b) (lns bg ++ [j_ln j])]> (heap (actl a))) (nextGroup (actl a))
       (S (nextLn (actl a)))) (joins a ++ [j]) (shut a)).
Proof.
  intros Ha Hg Hcur Hbase Hln Hobj Hfit Hlog.
  destruct Ha as [Hf Hi Hc Hn Hj Hnum Hd Hs Hjo Hm Hnd Hl].
  destruct a as [[r0 gs hp n m] js cs]. cbn in *. set (bg' := mkGroup (Some b) (lns bg ++ [j_ln j])) in *.
  set (s := mkCtl r0 gs hp n m) in *. set (s' := mkCtl r gs (<[g := bg']> hp) n (S m)).
  assert (lns bg ++ [j_ln j] ≠ []) as Hne by (by destruct (lns bg)).
  assert (live s' g b) as Hlg by (exists bg'; cbn; by rewrite lookup_insert_eq).
  assert (∀ g' b', g' ≠ g → live s' g' b' ↔ live s g' b') as Hlive.
  { intros g' b' Hn'. unfold s', live. cbn. by rewrite lookup_insert_ne. }
  assert (∀ b', live s g b' → b' = b) as Hsame by (intros b' (x & Hx & Hnx & Hb'); cbn in Hx; simplify_eq; specialize (Hbase Hnx); congruence).
  assert (lns_of s g = lns bg) as Hlnsg by (unfold lns_of; cbn; by rewrite Hg).
  assert (∀ g', lns_of s' g' = if decide (g' = g) then lns bg ++ [j_ln j] else lns_of s g') as Hlns by (intros g'; apply lns_of_insert).
  assert (∀ j', j' ∈ js → j_ln j' ≠ m) as Hold by (intros j' Hj' Heq; apply Hnum in Hj'; lia).
  split; cbn; fold s'.
  - intros g' [x [[<- _]|[_ Hx]]%lookup_insert_Some]; eauto.
  - intros g' x [[<- <-]|[_ Hx]]%lookup_insert_Some; [by eexists|by eapply Hi].
  - intros g' b' Hx. destruct (decide (g' = g)) as [->|Hn']; [by rewrite (live_fun _ _ _ _ Hx Hlg)|]. apply Hc. by apply Hlive.
  - intros k g' Hx. destruct (decide (g' = g)) as [->|Hn']; [by rewrite lookup_insert_eq|]. rewrite lookup_insert_ne by done. by eapply Hn.
  - done.
  - intros j' [Hx| ->%list_elem_of_singleton]%elem_of_app; [apply Hnum in Hx|]; lia.
  - intros j1 j2 [H1| ->%list_elem_of_singleton]%elem_of_app [H2| ->%list_elem_of_singleton]%elem_of_app Heq; try done.
    + by apply Hd.
    + apply Hold in H1. congruence.
    + apply Hold in H2. congruence.
  - intros ln Hx%Hs. lia.
  - intros j' [Hx| ->%list_elem_of_singleton]%elem_of_app Hns.
    + destruct (Hjo j' Hx Hns) as (b' & Hb' & Hin & Hfit'). destruct (decide (j_obj j' = g)) as [He|He].
      * exists b. rewrite He in *. rewrite Hlns, decide_True, <-(Hsame _ Hb') by done. split_and!; [by rewrite (Hsame _ Hb')| |done].
        rewrite Hlnsg in Hin. set_solver.
      * exists b'. rewrite Hlns, decide_False by done. by rewrite Hlive.
    + exists b. rewrite Hobj, Hlns, decide_True by done. split_and!; [done| |done]. set_solver.
  - intros g' ln. rewrite Hlns. case_decide as He.
    + subst g'. intros [Hx| ->%list_elem_of_singleton]%elem_of_app.
      * rewrite <-Hlnsg in Hx. destruct (Hm _ _ Hx) as (j' & ? & ?). exists j'. split; [set_solver|done].
      * exists j. split_and!; [set_solver|done..|]. intros ?%Hs. lia.
    + intros (j' & ? & ?)%Hm. exists j'. split; [set_solver|done].
  - intros g'. rewrite Hlns. case_decide; [|done]. apply NoDup_app. split_and!; [by rewrite <-Hlnsg| |apply NoDup_singleton].
    intros ln Hx ->%list_elem_of_singleton. rewrite <-Hlnsg in Hx. destruct (Hm _ _ Hx) as (j' & Hj' & Heq & _). apply Hold in Hj'. congruence.
  - done.
Qed.

Lemma accounted_listen a g group groupKey q s' r :
  accounted a → group_Listen (actl a) g group groupKey q = (s', r) →
  accounted (mkAccount s'
    (match r with Ok (ln, h) => joins a ++ [mkJoin ln g group groupKey q h] | Err _ => joins a end) (shut a)).
Proof.
  intros Ha. destruct (decide (groups (actl a) !! group = Some g)) as [Hg|Hg].
  2:{ unfold group_Listen, isCurrent. rewrite bool_decide_false by done. intros [= <- <-]. by destruct a. }
  destruct (a_named _ Ha _ _ Hg) as [bg Hh]. rewrite (group_Listen_current (actl a) g group groupKey q bg) by done.
  pose proof (a_log _ Ha) as Hl.
  assert (lns bg = [] ∨ ∃ b, base bg = Some b ∧ lns bg ≠ []) as [Hnil|(b & Hb & Hne)].
  { destruct (lns bg) eqn:Hx; [by left|right]. destruct (a_init _ Ha _ _ Hh) as [b Hb]; [by rewrite Hx|]. by exists b. }
  - rewrite Hnil. cbn [b_open recording]. destruct (b_open (backend (actl a)).1 q) as [r1 [h|e]]; intros [= <- <-].
    + pose proof (accounted_add a g bg (mkBase group groupKey q h) (r1, (backend (actl a)).2 ++ [Opened h])
        (mkJoin (nextLn (actl a)) g group groupKey q h)) as Hadd. rewrite Hnil in Hadd. apply Hadd; try done.
      { split_and!; [done..|by left]. }
      cbn. rewrite !omap_app. cbn. rewrite app_nil_r, Hl, <-app_assoc.
      pose proof (live_handles_set (heap (actl a)) g bg (mkGroup (Some (mkBase group groupKey q h)) [nextLn (actl a)]) Hh) as Hx.
      unfold handle_of at 1 2 in Hx. rewrite Hnil in Hx. cbn in Hx. rewrite Hx. by rewrite (Permutation_app_comm _ [h]).
    + destruct Ha. by split.
  - destruct (lns bg) as [|x l] eqn:Hx; [done|]. rewrite Hb. rewrite <-Hx, <-Hb.
    destruct (String.eqb_spec (bg_group b) group) as [Hn|]; cbn [negb]; [|intros [= <- <-]; by destruct a].
    destruct (b_mismatch (bg_params b) q) eqn:Hm; [intros [= <- <-]; by destruct a|].
    destruct (String.eqb_spec (bg_groupKey b) groupKey) as [Hk|]; cbn [negb]; intros [= <- <-]; [|by destruct a].
    rewrite Hb. apply (accounted_add a g bg b (backend (actl a)) (mkJoin (nextLn (actl a)) g group groupKey q (bg_handle b))); try done.
    + by rewrite Hn.
    + split_and!; [done..|by right].
    + cbn. pose proof (live_handles_set (heap (actl a)) g bg (mkGroup (Some b) (lns bg ++ [nextLn (actl a)])) Hh) as Hs.
      unfold handle_of at 1 2 in Hs. rewrite Hb, Hx in Hs. cbn in Hs. apply Permutation_cons_inv in Hs. by rewrite Hx, Hs.
Qed.

Lemma remove_ln_elem ln l x : NoDup l → x ∈ remove_ln ln l ↔ x ∈ l ∧ x ≠ ln.
Proof.
  induction 1 as [|y l Hy Hl IH]; simpl; [set_solver|].
  destruct (Nat.eqb_spec y ln) as [->|Hne]; [set_solver|]. rewrite elem_of_cons, IH. set_solver.
Qed.

Lemma remove_ln_NoDup ln l : NoDup l → NoDup (remove_ln ln l).
Proof.
  induction 1 as [|y l Hy Hl IH]; simpl; [constructor|]. destruct (Nat.eqb y ln); [done|].
  constructor; [|done]. by intros [? _]%remove_ln_elem.
Qed.

(** A listener leaves its group: what is left of the object, the table and the
    log are as [closeListener] makes them. *)
Lemma accounted_drop a j bg b gs' r :
  accounted a → j ∈ joins a → j_ln j ∈ lns bg → heap (actl a) !! j_obj j = Some bg → base bg = Some b →
  let l := remove_ln (j_ln j) (lns bg) in
  gs' = (if decide (l = []) then delete (bg_group b) (groups (actl a)) else groups (actl a)) →
  omap opened_by r.2 ≡ₚ omap shut_by r.2 ++ live_handles (<[j_obj j := mkGroup (base bg) l]> (heap (actl a))) →
  accounted (mkAccount (mkCtl r gs' (<[j_obj j := mkGroup (base bg) l]> (heap (actl a))) (nextGroup (actl a)) (nextLn (actl a)))
    (joins a) (j_ln j :: shut a)).
Proof.
  intros Ha Hin Hln Hh Hb l Hgs Hlog.
  destruct Ha as [Hf Hi Hc Hn Hj Hnum Hd Hs Hjo Hm Hnd Hl].
  destruct a as [[r0 gs hp n m] js cs]. cbn in *. set (g := j_obj j) in *.
  set (s := mkCtl r0 gs hp n m) in *. set (s' := mkCtl r gs' (<[g := mkGroup (base bg) l]> hp) n m).
  assert (lns_of s g = lns bg) as Hlnsg by (unfold lns_of; cbn; by rewrite Hh).
  assert (NoDup (lns bg)) as Hndg by (by rewrite <-Hlnsg).
  assert (live s g b) as Hlg by (exists bg; split_and!; [done| |done]; intros Hx; rewrite Hx in Hln; by apply not_elem_of_nil in Hln).
  assert (∀ g', lns_of s' g' = if decide (g' = g) then l else lns_of s g') as Hlns by (intros g'; apply lns_of_insert).
  assert (∀ g' b', g' ≠ g → live s' g' b' ↔ live s g' b') as Hlive by (intros g' b' Hn'; unfold s', live; cbn; by rewrite lookup_insert_ne).
  assert (∀ b', live s' g b' → b' = b ∧ l ≠ []) as Hlg' by (intros b' (x & Hx & ? & ?); cbn in Hx; rewrite lookup_insert_eq in Hx; simplify_eq/=; split; congruence).
  assert (∀ g' k, gs' !! k = Some g' → gs !! k = Some g') as Hsub.
  { intros g' k. rewrite Hgs. case_decide; [|done]. by intros [_ ?]%lookup_delete_Some. }
  assert (∀ g' k, gs !! k = Some g' → g' ≠ g ∨ l ≠ [] → gs' !! k = Some g') as Hkeep.
  { intros g' k Hk Hor. rewrite Hgs. case_decide as Hx; [|done]. destruct Hor as [Hor|]; [|done].
    rewrite lookup_delete_ne; [done|]. intros <-. apply Hc in Hlg. congruence. }
  clear Hgs.
  split; cbn; fold s'.
  - intros g' [x [[<- _]|[_ Hx]]%lookup_insert_Some]; eauto.
  - intros g' x [[<- <-]|[_ Hx]]%lookup_insert_Some; [by eexists|by eapply Hi].
  - intros g' b' Hx. destruct (decide (g' = g)) as [->|Hn'].
    + destruct (Hlg' _ Hx) as [-> ?]. apply Hkeep; [by apply Hc|by right].
    + apply Hlive in Hx; [|done]. apply Hkeep; [by apply Hc|by left].
  - intros k g' Hx%Hsub. destruct (decide (g' = g)) as [->|Hn']; [by rewrite lookup_insert_eq|]. rewrite lookup_insert_ne by done. by eapply Hn.
  - intros k1 k2 g' H1%Hsub H2%Hsub. by eapply Hj.
  - done.
  - done.
  - intros ln [->|Hx]%elem_of_cons; [by apply Hnum|by apply Hs].
  - intros j' Hj' Hns. apply not_elem_of_cons in Hns as [Hne Hns]. destruct (Hjo j' Hj' Hns) as (b' & Hb' & Hin' & Hfit).
    exists b'. rewrite Hlns. case_decide as He; [|split_and!; [by apply Hlive|done|done]].
    rewrite He, Hlnsg in Hin'. assert (j_ln j' ∈ l) as Hl' by (by apply remove_ln_elem). split_and!; [|done|done].
    rewrite He in Hb' |- *. rewrite (live_fun _ _ _ _ Hb' Hlg). eexists. cbn. rewrite lookup_insert_eq. split_and!; [done| |done].
    intros Hx. cbn in Hx. rewrite Hx in Hl'. by apply not_elem_of_nil in Hl'.
  - intros g' ln. rewrite Hlns. case_decide as He.
    + subst g'. intros [Hx Hne]%remove_ln_elem; [|done]. rewrite <-Hlnsg in Hx. destruct (Hm _ _ Hx) as (j' & ? & ? & ? & ?).
      exists j'. split_and!; [done..|]. by apply not_elem_of_cons.
    + intros Hx. destruct (Hm _ _ Hx) as (j' & Hj' & Heq & Ho & Hns). exists j'. split_and!; [done..|]. apply not_elem_of_cons. split; [|done].
      intros ->. rewrite (Hd j' j Hj' Hin Heq) in Ho. by apply He.
  - intros g'. rewrite Hlns. case_decide; [by apply remove_ln_NoDup|done].
  - done.
Qed.

Lemma accounted_close a now j :
  accounted a → j ∈ joins a → j_ln j ∉ shut a →
  accounted (mkAccount (closeListener now (actl a) (j_obj j) (j_ln j)) (joins a) (j_ln j :: shut a)).
Proof.
  intros Ha Hj Hns. destruct (a_join _ Ha j Hj Hns) as (b & (bg & Hh & Hne & Hb) & Hin & _).
  unfold lns_of in Hin. rewrite Hh in Hin. unfold closeListener. rewrite Hh.
  pose proof (live_handles_set (heap (actl a)) (j_obj j) bg (mkGroup (base bg) (remove_ln (j_ln j) (lns bg))) Hh) as Hs.
  pose proof (a_log _ Ha) as Hl. assert (handle_of bg = [bg_handle b]) as Hhb by (unfold handle_of; rewrite Hb; by destruct (lns bg)).
  rewrite Hhb in Hs. destruct (remove_ln (j_ln j) (lns bg)) as [|x l] eqn:Hr; rewrite Hb.
  - rewrite <-Hb, <-Hr. eapply accounted_drop; try done.
    + rewrite Hr, decide_True by done. unfold removeIf. rewrite bool_decide_true; [done|]. apply (a_current _ Ha). by exists bg.
    + cbn [recording b_close snd]. rewrite !omap_app, Hr. cbn. rewrite app_nil_r, <-app_assoc. rewrite Hl. cbn in Hs. by rewrite <-Hs.
  - rewrite <-Hb, <-Hr. eapply accounted_drop; try done.
    + by rewrite Hr, decide_False.
    + rewrite Hr. unfold handle_of in Hs. rewrite Hb in Hs. cbn in Hs. apply Permutation_cons_inv in Hs. by rewrite Hb, Hs.
Qed.

Lemma accounted_step a a' : accounted a → astep a a' → accounted a'.
Proof.
  intros Ha Hs. destruct Hs as [a key|a g group groupKey q s' r Hr|a now j Hj Hns|a r].
  - by apply accounted_get.
  - by eapply accounted_listen.
  - by apply accounted_close.
  - destruct Ha. by split.
Qed.

(** C29. The groups of a controller (of TCP, HTTPS or TCP-mux listeners) keep
    their accounts, whatever the component behind them does: in every
    interleaving of calls of [Listen], on group objects that are still registered
    or no longer so, of closings of the listeners they returned, and of arbitrary
    changes that other users make to the component, (1) a group with members is
    the one registered under its name, and the only one with that name; (2) its
    members are exactly the listeners that [Listen] returned for its name and that
    are not closed, each of them was asked for with the group's key and with
    parameters that do not contradict those of the first member, and got the
    group's real listener; (3) every listener that was returned and not closed is
    a member of such a group; and (4) the real listeners opened are those closed,
    each once, and those of the groups with members: none is leaked and none is
    closed twice. Calls on one group are atomic, as they run under its mutex. *)
Theorem groups_accounted (r : R) (a : Account) :
  areachable r a →
  (∀ g b, live (actl a) g b → groups (actl a) !! bg_group b = Some g ∧
     ∀ g' b', live (actl a) g' b' → bg_group b' = bg_group b → g' = g) ∧
  (∀ g b ln, live (actl a) g b →
     ln ∈ lns_of (actl a) g ↔ ∃ j, j ∈ joins a ∧ j_ln j = ln ∧ ln ∉ shut a ∧ j_group j = bg_group b ∧ fits j b) ∧
  (∀ j, j ∈ joins a → j_ln j ∉ shut a →
     ∃ g b, live (actl a) g b ∧ bg_group b = j_group j ∧ j_ln j ∈ lns_of (actl a) g) ∧
  omap opened_by (backend (actl a)).2 ≡ₚ omap shut_by (backend (actl a)).2 ++ live_handles (heap (actl a)).
Proof.
  intros Hr. assert (accounted a) as Ha by (eapply (rtc_invariant astep); [apply accounted_step|exact Hr|apply accounted_New]).
  split_and!; [| | |apply (a_log _ Ha)].
  - intros g b Hl. split; [by apply (a_current _ Ha)|]. intros g' b' Hl' Heq.
    apply (a_current _ Ha) in Hl, Hl'. rewrite Heq in Hl'. congruence.
  - intros g b ln Hl. split.
    + intros Hin. destruct (a_member _ Ha _ _ Hin) as (j & Hj & <- & Ho & Hns). exists j. split_and!; try done.
      all: destruct (a_join _ Ha j Hj Hns) as (b' & Hb' & _ & Hfit); rewrite Ho in Hb';
        rewrite (live_fun _ _ _ _ Hl Hb'); try done. apply Hfit.
    + intros (j & Hj & <- & Hns & Hg & _). destruct (a_join _ Ha j Hj Hns) as (b' & Hb' & Hin & Hfit & _).
      assert (j_obj j = g) as <-; [|done]. apply (a_current _ Ha) in Hl, Hb'. congruence.
  - intros j Hj Hns. destruct (a_join _ Ha j Hj Hns) as (b & Hb & Hin & Hg & _). by exists (j_obj j), b.
Qed.
End Accounts.

(** ** TCP groups: ports of the port manager *)

Inductive tcp_error := ErrAcquire (e : Ports.error) | ErrNetListen.

(** A request: the arguments of [TCPGroup.Listen], the clock, what the probes
    of ports answer, the iteration order of the free ports, and whether
    [net.Listen] succeeds on the port acquired. *)
Record TCPReq := mkTCPReq {
  tq_proxyName : string; tq_addr : string; tq_port : Z; tq_now : Z;
  tq_avail : Z → bool; tq_order : list Z; tq_bind : bool }.

Definition tcp_open (pm : Ports.Manager) (q : TCPReq) : Ports.Manager * res tcp_error Z :=
  let '(pm, r) :=
    Ports.Acquire pm (tq_now q) (tq_avail q) (tq_order q) (tq_proxyName q) (tq_port q) in
  match r with
  | Err e => (pm, Err (ErrAcquire e))
  | Ok realPort =>
      if tq_bind q then (pm, Ok realPort)
      else (Ports.Release pm (tq_now q) realPort, Err ErrNetListen)
  end.

(** The clean-up function of a TCP group. *)
Definition tcp_close (now : Z) (pm : Ports.Manager) (realPort : Z) : Ports.Manager :=
  Ports.Release pm now realPort.

Definition tcp_mismatch (first q : TCPReq) : option (group_error tcp_error) :=
  if negb (String.eqb (tq_addr first) (tq_addr q)) then Some ErrGroupParamsInvalid
  else if negb (Z.eqb (tq_port first) (tq_port q)) then Some ErrGroupDifferentPort
  else None.

#[export] Instance tcp_backend : Backend Ports.Manager TCPReq Z tcp_error := {|
  b_open := tcp_open; b_close := tcp_close; b_mismatch := tcp_mismatch
|}.

Definition used (pm : Ports.Manager) (p : Z) : Prop := is_Some (Ports.usedPorts pm !! p).

(** A probe never succeeds on a port in use, which holds as long as whoever
    uses a port has bound it; [Ports.acquire_reserved_in_use] shows what
    happens otherwise. *)
Definition tcp_admissible (pm : Ports.Manager) (q : TCPReq) : Prop :=
  tq_order q ≡ₚ elements (Ports.freePorts pm) ∧ ∀ p, used pm p → tq_avail q p = false.

(** An acquisition under that condition. *)
Lemma tcp_acquire allowed pm q pm' o :
  Ports.wf allowed pm → tcp_admissible pm q →
  Ports.Acquire pm (tq_now q) (tq_avail q) (tq_order q) (tq_proxyName q) (tq_port q) = (pm', o) →
  Ports.wf allowed pm' ∧
  match o with
  | Err _ => ∀ p, used pm' p ↔ used pm p
  | Ok p => ¬ used pm p ∧ used pm' p ∧ ∀ p', p' ≠ p → used pm' p' ↔ used pm p'
  end.
Proof.
  intros Hwf [Hord Hav] Ha.
  apply (Ports.Acquire_cases allowed) in Ha as
    [(e & -> & ->)|(p & -> & -> & Hp & Hall & _)]; [| |done..].
  - split; [by apply Ports.wf_new_ctx|]. done.
  - split; [by apply Ports.wf_taken|]. unfold used. simpl. split_and!.
    + intros Hu. apply Hav in Hu. congruence.
    + rewrite lookup_insert_eq. eauto.
    + intros p' Hne. by rewrite lookup_insert_ne.
Qed.

Lemma used_Release pm now p p' : used (Ports.Release pm now p) p' ↔ used pm p' ∧ p' ≠ p.
Proof.
  unfold Ports.Release, used. destruct (Ports.usedPorts pm !! p) as [l|] eqn:Hl; simpl.
  - rewrite lookup_delete_is_Some. naive_solver.
  - split; [|naive_solver]. intros Hs. split; [done|]. intros ->. rewrite Hl in Hs. by destruct Hs.
Qed.

#[export, program] Instance tcp_laws : BackendLaws Ports.Manager TCPReq Z tcp_error := {|
  b_wf pm := ∃ allowed, Ports.wf allowed pm;
  b_held := used;
  b_admissible := tcp_admissible
|}.
Next Obligation.
  intros pm q pm' h [allowed Hwf] Hadm. simpl. unfold tcp_open.
  destruct (Ports.Acquire _ _ _ _ _ _) as [pm1 o] eqn:Ha.
  apply (tcp_acquire allowed) in Ha as [Hwf1 Ho]; [|done..].
  destruct o as [p|]; [|done]. destruct (tq_bind q); [|done]. intros [= <- <-]. split; [eauto|done].
Qed.
Next Obligation.
  intros pm q pm' e [allowed Hwf] Hadm. simpl. unfold tcp_open.
  destruct (Ports.Acquire _ _ _ _ _ _) as [pm1 o] eqn:Ha.
  apply (tcp_acquire allowed) in Ha as [Hwf1 Ho]; [|done..].
  destruct o as [p|]; [|intros [= <- <-]; split; [eauto|done]].
  destruct (tq_bind q); [done|]. intros [= <- <-]. destruct Ho as (Hn & Hu & Hsame).
  split; [exists allowed; by apply Ports.wf_Release|]. intros p'. rewrite used_Release.
  destruct (decide (p' = p)) as [->|Hne]; [naive_solver|]. rewrite Hsame by done. naive_solver.
Qed.
Next Obligation.
  intros now pm p [allowed Hwf] Hu. simpl. unfold tcp_close.
  split; [exists allowed; by apply Ports.wf_Release|]. split; [rewrite used_Release; naive_solver|].
  intros p' Hne. rewrite used_Release. naive_solver.
Qed.
Next Obligation.
  intros q1 q2. simpl. unfold tcp_mismatch. repeat case_match; congruence.
Qed.

(** ** HTTPS and TCP-mux groups: routes of a virtual-host muxer *)

(** The fields of [vhost.RouteConfig] that matter here. *)
Record MuxReq := mkMuxReq {
  mq_Domain : string; mq_Location : string; mq_RouteByHTTPUser : string;
  mq_Username : string; mq_Password : string }.

Notation routes := (gmap string (gmap string (list (@Vhost.Router MuxReq)))).

(** [Muxer.Listen]: the listener (its configuration) becomes the payload of a
    route, and is identified by the route's key. *)
Definition mux_Listen (r : routes) (q : MuxReq) : routes * res Vhost.route_error (string * string * string) :=
  match Vhost.Add r (mq_Domain q) (mq_Location q) (mq_RouteByHTTPUser q) q with
  | Err e => (r, Err e)
  | Ok r' => (r', Ok (ToLower (mq_Domain q), mq_Location q, mq_RouteByHTTPUser q))
  end.

(** [Listener.Close]. *)
Definition mux_Close (_ : Z) (r : routes) (h : string * string * string) : routes :=
  Vhost.Del r h.1.1 h.1.2 h.2.

Definition https_mismatch (first q : MuxReq) : option (group_error Vhost.route_error) :=
  if negb (String.eqb (mq_Domain first) (mq_Domain q)) then Some ErrGroupParamsInvalid else None.

Definition tcpmux_mismatch (first q : MuxReq) : option (group_error Vhost.route_error) :=
  if negb (String.eqb (mq_Domain first) (mq_Domain q)) ||
     negb (String.eqb (mq_RouteByHTTPUser first) (mq_RouteByHTTPUser q)) ||
     negb (String.eqb (mq_Username first) (mq_Username q)) ||
     negb (String.eqb (mq_Password first) (mq_Password q))
  then Some ErrGroupParamsInvalid else None.

Definition https_backend : Backend routes MuxReq (string * string * string) Vhost.route_error := {|
  b_open := mux_Listen; b_close := mux_Close; b_mismatch := https_mismatch
|}.

Definition tcpmux_backend : Backend routes MuxReq (string * string * string) Vhost.route_error := {|
  b_open := mux_Listen; b_close := mux_Close; b_mismatch := tcpmux_mismatch
|}.

Definition routed (r : routes) (h : string * string * string) : Prop :=
  is_Some (Vhost.exist r h.1.1 h.1.2 h.2).

Lemma mux_Listen_Ok r q r' h :
  Vhost.wf r → mux_Listen r q = (r', Ok h) →
  Vhost.wf r' ∧ ¬ routed r h ∧ routed r' h ∧ ∀ h', h' ≠ h → routed r' h' ↔ routed r h'.
Proof.
  intros Hwf. unfold mux_Listen, routed. destruct (Vhost.Add _ _ _ _ _) as [r1|e] eqn:Ha; [|done].
  intros [= <- <-]. simpl. pose proof (Vhost.wf_Add _ _ _ _ _ _ Hwf Ha) as Hwf'.
  split_and!; [done| | |].
  - unfold Vhost.Add in Ha. destruct (Vhost.exist r _ _ _); [done|]. by intros [? ?].
  - rewrite (Vhost.Add_ok_exist _ _ _ _ _ _ _ _ _ Hwf Ha), decide_True by done. eauto.
  - intros [[d l] u] Hne. simpl. rewrite (Vhost.Add_ok_exist _ _ _ _ _ _ _ _ _ Hwf Ha).
    by rewrite decide_False.
Qed.

Lemma mux_Close_law now r h :
  Vhost.wf r → routed r h →
  Vhost.wf (mux_Close now r h) ∧ ¬ routed (mux_Close now r h) h ∧
  ∀ h', h' ≠ h → routed (mux_Close now r h) h' ↔ routed r h'.
Proof.
  destruct h as [[d l] u]. unfold routed, mux_Close. simpl. intros Hwf [x Hx].
  assert (ToLower d = d) as Hd.
  { apply Vhost.exist_Some in Hx as [Hx _]; [|done]. by eapply Vhost.wf_lower. }
  split; [by apply Vhost.wf_Del|]. split.
  - rewrite Vhost.Del_exist, Hd, decide_True by done. by intros [? ?].
  - intros [[d' l'] u'] Hne. simpl. rewrite Vhost.Del_exist, Hd by done.
    by rewrite decide_False.
Qed.

#[program] Definition https_laws : @BackendLaws _ _ _ _ https_backend := {|
  b_wf := Vhost.wf; b_held := routed; b_admissible _ _ := True
|}.
Next Obligation. intros r q r' h Hwf _. simpl. by apply mux_Listen_Ok. Qed.
Next Obligation.
  intros r q r' e Hwf _. simpl. unfold mux_Listen. case_match; intros ?; by simplify_eq.
Qed.
Next Obligation. intros now r h. simpl. by apply mux_Close_law. Qed.
Next Obligation. intros q1 q2. simpl. unfold https_mismatch. by case_match. Qed.

#[program] Definition tcpmux_laws : @BackendLaws _ _ _ _ tcpmux_backend := {|
  b_wf := Vhost.wf; b_held := routed; b_admissible _ _ := True
|}.
Next Obligation. intros r q r' h Hwf _. simpl. by apply mux_Listen_Ok. Qed.
Next Obligation.
  intros r q r' e Hwf _. simpl. unfold mux_Listen. case_match; intros ?; by simplify_eq.
Qed.
Next Obligation. intros now r h. simpl. by apply mux_Close_law. Qed.
Next Obligation. intros q1 q2. simpl. unfold tcpmux_mismatch. by case_match. Qed.

(** ** Witnesses *)

Definition demo_req : TCPReq :=
  mkTCPReq "ssh" "0.0.0.0" 6000 0 (λ _, true) (elements (Ports.freePorts Ports.demo0)) true.
Definition demo_s1 : @Ctl Ports.Manager TCPReq Z := (getOrCreate (NewCtl Ports.demo0) "web").1.
Definition demo_s2 : @Ctl Ports.Manager TCPReq Z := (group_Listen demo_s1 0 "web" "key" demo_req).1.
Definition demo_base : @Base TCPReq Z := mkBase "web" "key" demo_req 6000%Z.

Lemma demo_wf : b_wf Ports.demo0.
Proof. exists (Ports.initial_ports Ports.demo_allow). by apply Ports.ports_wf_New, Ports.demo_zero. Qed.

Lemma demo_s2_sound : sound demo_s2.
Proof.
  apply sound_Listen; [apply sound_getOrCreate, sound_New, demo_wf|]. split; [done|].
  intros p [l Hl]. done.
Qed.

Lemma demo_live : live demo_s2 0 demo_base.
Proof. exists (mkGroup (Some demo_base) [0%nat]). split_and!; vm_compute; [reflexivity|congruence|reflexivity]. Qed.

(** One proxy joins the group and leaves it. *)
Definition demo_j : @Joined TCPReq Z := mkJoin 0 0 "web" "key" demo_req 6000%Z.
Definition demo_a0 : @Account Ports.Manager TCPReq Z := NewAccount Ports.demo0.
Definition demo_a1 : @Account Ports.Manager TCPReq Z :=
  mkAccount (getOrCreate (actl demo_a0) "web").1 [] [].
Definition demo_a2 : @Account Ports.Manager TCPReq Z :=
  mkAccount (group_Listen (H0 := recording) (actl demo_a1) 0 "web" "key" demo_req).1 [demo_j] [].
Definition demo_a3 : @Account Ports.Manager TCPReq Z :=
  mkAccount (closeListener (H0 := recording) 5 (actl demo_a2) 0 0) [demo_j] [0%nat].

Lemma groups_accounted_witness :
  live_handles (heap (actl demo_a2)) = [6000%Z] ∧ (backend (actl demo_a3)).2 = [Opened 6000%Z; Shut 6000%Z] ∧
  omap opened_by (backend (actl demo_a3)).2 ≡ₚ omap shut_by (backend (actl demo_a3)).2 ++ live_handles (heap (actl demo_a3)).
Proof.
  split; [vm_compute; reflexivity|]. split; [vm_compute; reflexivity|].
  apply (groups_accounted Ports.demo0 demo_a3).
  apply (rtc_l _ _ demo_a1); [exact (AGet demo_a0 "web")|]. apply (rtc_l _ _ demo_a2).
  - refine (AListen demo_a1 0 "web" "key" demo_req (actl demo_a2) (Ok (0%nat, 6000%Z)) _). vm_compute. reflexivity.
  - apply rtc_once. refine (AClose demo_a2 5 demo_j _ _); [left|apply not_elem_of_nil].
Defined.

(** A second member with another key is refused. *)
Lemma listen_outcome_witness :
  ∃ s' o, ctl_Listen 1 demo_s2 "web" "other" demo_req = (s', Some o) ∧
    o = Err ErrGroupAuthFailed.
Proof.
  destruct (listen_outcome demo_s2 0 "web" "other" demo_req demo_s2_sound)
    as (s' & o & Hl & _).
  exists s', o. split; [exact Hl|].
  assert ((ctl_Listen 1 demo_s2 "web" "other" demo_req).2 = Some (Err ErrGroupAuthFailed)) as Hc
    by (vm_compute; reflexivity).
  rewrite Hl in Hc. injection Hc as ->. reflexivity.
Defined.

Lemma close_outcome_witness :
  ¬ used (backend (closeListener 5 demo_s2 0 0)) 6000 ∧
  groups (closeListener 5 demo_s2 0 0) !! "web" = None.
Proof.
  destruct (close_outcome 5 demo_s2 0 0 (mkGroup (Some demo_base) [0%nat]) demo_base demo_s2_sound) as (H1 & H2 & _).
  - vm_compute. reflexivity.
  - apply list_elem_of_singleton. reflexivity.
  - reflexivity.
  - split; [exact H1|exact H2].
Defined.

End Group.
