(* ===== verification/HTTPGroup.v ===== *)
(** HTTP groups, server/group/http.go: proxies that share one virtual-host
    route and take turns serving its requests.

    As in Group.v, groups are objects in a heap and the registry maps names
    to them. A member's connection function is a value of type [F]; the
    payload of the route is the group itself. *)
From Stdlib Require Import ZArith Lia String.
From stdpp Require Import base gmap strings list fin_maps relations numbers list_numbers.
From S2P Require Import Prelude GoLib Router.

Local Open Scope Z_scope.
Local Open Scope frp_scope.

Module HTTPGroup.

Inductive error :=
| ErrRoute (e : Vhost.route_error)
| ErrGroupParamsInvalid
| ErrGroupAuthFailed
| ErrProxyRepeated
| errGroupStale
| ErrNoCreateConnFunc
| ErrNoEndpoint.

(** The fields of [vhost.RouteConfig] a group looks at. *)
Record RouteConfig {F : Type} := mkRouteConfig {
  Domain : string; Location : string; RouteByHTTPUser : string; CreateConnFn : F }.
Arguments RouteConfig F : clear implicits.

Section Groups.
Context {F : Type}.

Record HTTPGroup := mkHTTPGroup {
  group : string; groupKey : string;
  domain : string; location : string; routeByHTTPUser : string;
  createFuncs : gmap string F; pxyNames : list string; index : Z }.

Definition NewHTTPGroup : HTTPGroup := mkHTTPGroup "" "" "" "" "" ∅ [] 0.

Notation routes := (gmap string (gmap string (list (@Vhost.Router nat)))).

Record Ctl := mkCtl {
  vhostRouter : routes; groups : gmap string nat; heap : gmap nat HTTPGroup; next : nat }.

Definition NewCtl : Ctl := mkCtl Vhost.NewRouters ∅ ∅ 0.

Definition getOrCreate (s : Ctl) (key : string) : Ctl * nat :=
  match groups s !! key with
  | Some g => (s, g)
  | None =>
      (mkCtl (vhostRouter s) (<[key := next s]> (groups s)) (<[next s := NewHTTPGroup]> (heap s))
         (S (next s)), next s)
  end.

(** The end of [Register], for the group as its fields now are. *)
Definition add_member (g : HTTPGroup) (proxyName : string) (f : F) : res error HTTPGroup :=
  match createFuncs g !! proxyName with
  | Some _ => Err ErrProxyRepeated
  | None =>
      Ok (mkHTTPGroup (group g) (groupKey g) (domain g) (location g) (routeByHTTPUser g)
            (<[proxyName := f]> (createFuncs g)) (pxyNames g ++ [proxyName]) (index g))
  end.

(** [HTTPGroup.Register] on the group at [l]. *)
Definition Register (s : Ctl) (l : nat) (proxyName grp key : string) (rc : RouteConfig F) :
    Ctl * res error unit :=
  if negb (bool_decide (groups s !! grp = Some l)) then (s, Err errGroupStale)
  else
    let g := default NewHTTPGroup (heap s !! l) in
    if bool_decide (createFuncs g = ∅) then
      match Vhost.Add (vhostRouter s) (Domain rc) (Location rc) (RouteByHTTPUser rc) l with
      | Err e => (s, Err (ErrRoute e))
      | Ok vhostRouter =>
          let g := mkHTTPGroup grp key (Domain rc) (Location rc) (RouteByHTTPUser rc)
                     (createFuncs g) (pxyNames g) (index g) in
          match add_member g proxyName (CreateConnFn rc) with
          | Err e => (mkCtl vhostRouter (groups s) (<[l := g]> (heap s)) (next s), Err e)
          | Ok g => (mkCtl vhostRouter (groups s) (<[l := g]> (heap s)) (next s), Ok tt)
          end
      end
    else if negb (String.eqb (group g) grp) || negb (String.eqb (domain g) (Domain rc)) ||
            negb (String.eqb (location g) (Location rc)) ||
            negb (String.eqb (routeByHTTPUser g) (RouteByHTTPUser rc))
    then (s, Err ErrGroupParamsInvalid)
    else if negb (String.eqb (groupKey g) key) then (s, Err ErrGroupAuthFailed)
    else match add_member g proxyName (CreateConnFn rc) with
         | Err e => (s, Err e)
         | Ok g => (mkCtl (vhostRouter s) (groups s) (<[l := g]> (heap s)) (next s), Ok tt)
         end.

(** The loop over [pxyNames] in [UnRegister]. *)
Fixpoint remove_name (name : string) (l : list string) : list string :=
  match l with
  | [] => []
  | x :: l' => if String.eqb x name then l' else x :: remove_name name l'
  end.

(** [HTTPGroup.UnRegister] on the group at [l]. *)
Definition UnRegister (s : Ctl) (l : nat) (proxyName : string) : Ctl :=
  match heap s !! l with
  | None => s
  | Some g =>
      let g := mkHTTPGroup (group g) (groupKey g) (domain g) (location g) (routeByHTTPUser g)
                 (delete proxyName (createFuncs g)) (remove_name proxyName (pxyNames g)) (index g) in
      if bool_decide (createFuncs g = ∅) then
        mkCtl (Vhost.Del (vhostRouter s) (domain g) (location g) (routeByHTTPUser g))
          (if bool_decide (groups s !! group g = Some l) then delete (group g) (groups s) else groups s)
          (<[l := g]> (heap s)) (next s)
      else mkCtl (vhostRouter s) (groups s) (<[l := g]> (heap s)) (next s)
  end.

(** [HTTPGroupController.UnRegister]. *)
Definition ctl_UnRegister (s : Ctl) (proxyName grp : string) : Ctl :=
  match groups s !! grp with
  | None => s
  | Some l => UnRegister s l proxyName
  end.

(** [g.index.Add(1)]: the group, and the new value. *)
Definition next_index (g : HTTPGroup) : HTTPGroup * Z :=
  let i := wrap64 (index g + 1) in
  (mkHTTPGroup (group g) (groupKey g) (domain g) (location g) (routeByHTTPUser g)
     (createFuncs g) (pxyNames g) i, i).

(** [g.pxyNames[newIndex % len]], if there are names. *)
Definition name_at (g : HTTPGroup) (i : Z) : option string :=
  if (0 <? length (pxyNames g))%nat
  then pxyNames g !! Z.to_nat (i `mod` Z.of_nat (length (pxyNames g)))
  else None.

(** [createConn]: the group and the function that is called. *)
Definition createConn (g : HTTPGroup) : HTTPGroup * res error F :=
  let '(g, i) := next_index g in
  (g, match name_at g i with
      | None => Err ErrNoCreateConnFunc
      | Some name =>
          match createFuncs g !! name with None => Err ErrNoCreateConnFunc | Some f => Ok f end
      end).

Definition chooseEndpoint (g : HTTPGroup) : HTTPGroup * res error string :=
  let '(g, i) := next_index g in
  let name := default "" (name_at g i) in
  (g, if String.eqb name "" then Err ErrNoEndpoint else Ok name).

Definition createConnByEndpoint (g : HTTPGroup) (endpoint : string) : res error F :=
  match createFuncs g !! endpoint with None => Err ErrNoCreateConnFunc | Some f => Ok f end.

(** ** Members and routes *)

(** The proxies that leave a group are members of it: a proxy registers once
    and unregisters once. Taking an endpoint only moves the index. *)
Inductive step : Ctl → Ctl → Prop :=
| StepGet s key : step s (getOrCreate s key).1
| StepRegister s l name grp key rc : step s (Register s l name grp key rc).1
| StepUnRegister s l g name :
    heap s !! l = Some g → is_Some (createFuncs g !! name) → step s (UnRegister s l name)
| StepChoose s l g :
    heap s !! l = Some g →
    step s (mkCtl (vhostRouter s) (groups s) (<[l := (next_index g).1]> (heap s)) (next s)).

Definition reachable : Ctl → Prop := rtc step NewCtl.

(** A group's names and functions are those of the same members. *)
Definition members_ok (g : HTTPGroup) : Prop :=
  NoDup (pxyNames g) ∧ ∀ n, n ∈ pxyNames g ↔ is_Some (createFuncs g !! n).

Definition route_of (s : Ctl) (g : HTTPGroup) : option nat :=
  Vhost.payload <$> Vhost.exist (vhostRouter s) (ToLower (domain g)) (location g) (routeByHTTPUser g).

Definition live (s : Ctl) (l : nat) (g : HTTPGroup) : Prop :=
  heap s !! l = Some g ∧ createFuncs g ≠ ∅.

Record sound (s : Ctl) : Prop := {
  s_router : Vhost.wf (vhostRouter s);
  s_members : ∀ l g, heap s !! l = Some g → members_ok g;
  s_current : ∀ l g, live s l g → groups s !! group g = Some l;
  s_route : ∀ l g, live s l g → route_of s g = Some l;
  s_named : ∀ key l, groups s !! key = Some l → ∃ g, heap s !! l = Some g ∧
    (createFuncs g ≠ ∅ → group g = key);
  s_inj : ∀ k1 k2 l, groups s !! k1 = Some l → groups s !! k2 = Some l → k1 = k2;
  s_fresh : ∀ l, is_Some (heap s !! l) → (l < next s)%nat
}.

Lemma http_live_insert r gs hp n l g l' g' :
  live (mkCtl r gs (<[l := g]> hp) n) l' g' ↔
  (l' = l ∧ g' = g ∧ createFuncs g ≠ ∅) ∨ (l' ≠ l ∧ hp !! l' = Some g' ∧ createFuncs g' ≠ ∅).
Proof.
  unfold live. simpl. destruct (decide (l' = l)) as [->|Hne].
  - rewrite lookup_insert_eq. naive_solver.
  - rewrite lookup_insert_ne by done. naive_solver.
Qed.

(** A group changes its members or its index, and stays on its route. *)
Lemma sound_same s l g g' :
  sound s → heap s !! l = Some g → members_ok g' →
  group g' = group g → domain g' = domain g → location g' = location g →
  routeByHTTPUser g' = routeByHTTPUser g → (createFuncs g' ≠ ∅ → createFuncs g ≠ ∅) →
  sound (mkCtl (vhostRouter s) (groups s) (<[l := g']> (heap s)) (next s)).
Proof.
  intros [Hw Hm Hc Hr Hn Hj Hf] Hl Hok Hg Hd Hlo Hu Hne. split; simpl; try done.
  - intros l' x. rewrite lookup_insert. case_decide; [by intros [= <-]|apply Hm].
  - intros l' x [(-> & -> & Hx)|[_ Hx]]%http_live_insert; [|by apply Hc].
    rewrite Hg. apply Hc. split; [done|auto].
  - intros l' x [(-> & -> & Hx)|[_ Hx]]%http_live_insert; [|by apply Hr].
    unfold route_of. simpl. rewrite Hd, Hlo, Hu. apply (Hr l g). split; [done|auto].
  - intros key l' Hk. rewrite lookup_insert. case_decide as Heq; [|by apply Hn].
    subst l'. apply Hn in Hk as (x & Hx & Hname). exists g'. split; [done|].
    intros ?. rewrite Hg. assert (x = g) as -> by congruence. auto.
  - intros l'. rewrite lookup_insert. case_decide as Heq; [|by apply Hf].
    subst. intros _. apply Hf. eauto.
Qed.

(** Live groups are on different routes. *)
Lemma routes_distinct s l1 g1 l2 g2 :
  sound s → live s l1 g1 → live s l2 g2 →
  (ToLower (domain g1), location g1, routeByHTTPUser g1) =
  (ToLower (domain g2), location g2, routeByHTTPUser g2) → l1 = l2.
Proof.
  intros Hs H1%(s_route _ Hs) H2%(s_route _ Hs) [= Hd Hl Hu].
  unfold route_of in *. rewrite Hd, Hl, Hu in H1. congruence.
Qed.

(** A group without members gets its first one. *)
Lemma http_sound_first s l g g' router :
  sound s → groups s !! group g' = Some l → heap s !! l = Some g → createFuncs g = ∅ →
  Vhost.Add (vhostRouter s) (domain g') (location g') (routeByHTTPUser g') l = Ok router →
  members_ok g' →
  sound (mkCtl router (groups s) (<[l := g']> (heap s)) (next s)).
Proof.
  intros [Hw Hm Hc Hr Hn Hj Hf] Hg Hl He Ha Hok.
  assert (∀ h p u, Vhost.exist router h p u = _) as Hex
    by (intros; by apply (Vhost.Add_ok_exist _ _ _ _ _ _ _ _ _ Hw Ha)).
  split; simpl; try done.
  - by eapply Vhost.wf_Add.
  - intros l' x. rewrite lookup_insert. case_decide; [by intros [= <-]|apply Hm].
  - intros l' x [(-> & -> & _)|[_ Hx]]%http_live_insert; [done|]. by apply Hc.
  - intros l' x [(-> & -> & _)|[Hne Hx]]%http_live_insert; unfold route_of; simpl; rewrite Hex.
    + by rewrite decide_True.
    + rewrite decide_False; [by apply (Hr l')|]. intros [= Hd Hlo Hu].
      pose proof (Hr _ _ Hx) as Hroute. unfold route_of in Hroute. rewrite Hd, Hlo, Hu in Hroute.
      unfold Vhost.Add in Ha. by destruct (Vhost.exist (vhostRouter s) _ _ _).
  - intros key l' Hk. rewrite lookup_insert. case_decide as Heq; [|by apply Hn].
    subst l'. exists g'. split; [done|]. intros _. by eapply Hj.
  - intros l'. rewrite lookup_insert. case_decide as Heq; [|by apply Hf].
    subst. intros _. apply Hf. eauto.
Qed.

(** A group loses its last member. *)
Lemma http_sound_last s l g g' :
  sound s → live s l g → members_ok g' → createFuncs g' = ∅ →
  sound (mkCtl (Vhost.Del (vhostRouter s) (domain g) (location g) (routeByHTTPUser g))
           (delete (group g) (groups s)) (<[l := g']> (heap s)) (next s)).
Proof.
  intros Hs Hlive Hok He. pose proof Hs as [Hw Hm Hc Hr Hn Hj Hf].
  assert (∀ l' x, live (mkCtl (Vhost.Del (vhostRouter s) (domain g) (location g) (routeByHTTPUser g))
    (delete (group g) (groups s)) (<[l := g']> (heap s)) (next s)) l' x → live s l' x ∧ l' ≠ l) as Hl'.
  { intros l' x [(-> & -> & Hx)|[Hne Hx]]%http_live_insert; [done|by split]. }
  assert (∀ k l', delete (group g) (groups s) !! k = Some l' → groups s !! k = Some l' ∧ l' ≠ l) as Hdel.
  { intros k l' Hk. apply lookup_delete_Some in Hk as [Hk1 Hk2]. split; [done|].
    intros ->. apply Hk1. apply (Hj _ _ l); [by apply Hc|done]. }
  split; simpl.
  - by apply Vhost.wf_Del.
  - intros l' x. rewrite lookup_insert. case_decide; [by intros [= <-]|apply Hm].
  - intros l' x [Hx Hne]%Hl'. pose proof (Hc _ _ Hx) as Hk. rewrite lookup_delete_ne; [done|].
    intros Heq. pose proof (Hc _ _ Hlive) as Hk2. rewrite Heq in Hk2. congruence.
  - intros l' x [Hx Hne]%Hl'. unfold route_of. simpl. rewrite Vhost.Del_exist by done.
    rewrite decide_False; [by apply (Hr l')|]. intros Heq. apply Hne.
    by apply (routes_distinct s l' x l g).
  - intros key l' [Hk Hne]%Hdel. rewrite lookup_insert_ne by done. by apply Hn.
  - intros k1 k2 l' [H1 _]%Hdel [H2 _]%Hdel. by eapply Hj.
  - intros l'. rewrite lookup_insert. case_decide as Heq; [|by apply Hf].
    subst. intros _. apply Hf. destruct Hlive. eauto.
Qed.

Lemma remove_name_elem name l n :
  NoDup l → n ∈ remove_name name l ↔ n ∈ l ∧ n ≠ name.
Proof.
  induction l as [|x l IH]; simpl.
  - intros _. split; [by intros ?%not_elem_of_nil|by intros [?%not_elem_of_nil _]].
  - intros [Hx Hnd]%NoDup_cons. destruct (String.eqb_spec x name) as [->|Hne].
    + rewrite elem_of_cons. split; [intros Hn; split; [by right|by intros ->]|].
      intros [[->|?] ?]; done.
    + rewrite !elem_of_cons, IH by done. naive_solver.
Qed.

Lemma remove_name_NoDup name l : NoDup l → NoDup (remove_name name l).
Proof.
  induction l as [|x l IH]; simpl; [done|]. intros [Hx Hnd]%NoDup_cons.
  destruct (String.eqb_spec x name); [done|]. apply NoDup_cons. split; [|auto].
  intros [? _]%remove_name_elem; done.
Qed.

Lemma members_ok_remove g name :
  members_ok g →
  members_ok (mkHTTPGroup (group g) (groupKey g) (domain g) (location g) (routeByHTTPUser g)
    (delete name (createFuncs g)) (remove_name name (pxyNames g)) (index g)).
Proof.
  intros [Hnd Hm]. split; simpl; [by apply remove_name_NoDup|]. intros n.
  rewrite remove_name_elem, Hm, lookup_delete_is_Some by done. naive_solver.
Qed.

Lemma add_member_Ok g name f g' :
  add_member g name f = Ok g' → members_ok g →
  members_ok g' ∧ group g' = group g ∧ domain g' = domain g ∧ location g' = location g ∧
  routeByHTTPUser g' = routeByHTTPUser g.
Proof.
  unfold add_member. destruct (createFuncs g !! name) as [?|] eqn:Hn; [done|].
  intros [= <-] [Hnd Hm]. split; [|done]. split; simpl.
  - apply NoDup_app. split_and!; [done| |apply NoDup_singleton].
    intros x Hx ->%list_elem_of_singleton. apply Hm in Hx as [? Hx]. congruence.
  - intros n. rewrite elem_of_app, list_elem_of_singleton, Hm, lookup_insert_is_Some'.
    split; intros [?|?]; auto.
Qed.

Lemma http_sound_getOrCreate s key : sound s → sound (getOrCreate s key).1.
Proof.
  intros [Hw Hm Hc Hr Hn Hj Hf]. unfold getOrCreate.
  destruct (groups s !! key) as [l|] eqn:Hk; [done|]. simpl.
  assert (heap s !! next s = None) as Hnone.
  { destruct (heap s !! next s) eqn:Hx; [|done].
    assert (next s < next s)%nat; [apply Hf; eauto|lia]. }
  assert (∀ k, groups s !! k ≠ Some (next s)) as Hno.
  { intros k (g & Hx & _)%Hn. congruence. }
  split; simpl; try done.
  - intros l g. rewrite lookup_insert. case_decide; [|apply Hm]. intros [= <-].
    split; simpl; [constructor|]. intros n. rewrite lookup_empty.
    split; [by intros ?%not_elem_of_nil|by intros [? ?]].
  - intros l g [(_ & -> & Hx)|[_ Hx]]%http_live_insert; [done|].
    apply Hc in Hx. rewrite lookup_insert_ne; [done|congruence].
  - intros l g [(_ & -> & Hx)|[_ Hx]]%http_live_insert; [done|]. by apply (Hr l).
  - intros k l. rewrite lookup_insert. case_decide as Hkk.
    + intros [= <-]. rewrite lookup_insert_eq. by eexists.
    + intros Hx. rewrite lookup_insert_ne by (intros Heq; rewrite <- Heq in Hx; by apply Hno in Hx).
      by apply Hn.
  - intros k1 k2 l. rewrite !lookup_insert. repeat case_decide; subst; try done.
    + by intros [= <-] Hx%Hno.
    + by intros Hx [= <-]; apply Hno in Hx.
    + apply Hj.
  - intros l. rewrite lookup_insert. case_decide; [lia|]. intros ?%Hf. lia.
Qed.

Lemma sound_Register s l name grp key rc : sound s → sound (Register s l name grp key rc).1.
Proof.
  intros Hs. unfold Register. case_bool_decide as Hg; [|done]. cbn [negb].
  destruct (s_named _ Hs _ _ Hg) as (g & Hh & _). rewrite Hh. change (default NewHTTPGroup (Some g)) with g.
  pose proof (s_members _ Hs _ _ Hh) as Hok. case_bool_decide as He.
  - destruct (Vhost.Add _ _ _ _ _) as [router|e] eqn:Ha; [|done].
    set (g1 := mkHTTPGroup grp key _ _ _ _ _ _).
    assert (members_ok g1) as Hok1 by exact Hok.
    destruct (add_member g1 name _) as [g2|e] eqn:Hadd; simpl.
    + apply add_member_Ok in Hadd as (Hok2 & Hg2 & Hd & Hlo & Hu); [|done].
      eapply (http_sound_first s l g); try done; rewrite ?Hg2, ?Hd, ?Hlo, ?Hu; done.
    + unfold add_member in Hadd. simpl in Hadd. by rewrite He, lookup_empty in Hadd.
  - destruct (_ || _); [done|]. destruct (negb _); [done|].
    destruct (add_member g name _) as [g2|e] eqn:Hadd; [|done]. simpl.
    apply add_member_Ok in Hadd as (Hok2 & ? & ? & ? & ?); [|done]. by eapply sound_same.
Qed.

Lemma sound_UnRegister s l g name :
  sound s → heap s !! l = Some g → is_Some (createFuncs g !! name) → sound (UnRegister s l name).
Proof.
  intros Hs Hh [f Hf]. unfold UnRegister. rewrite Hh.
  assert (live s l g) as Hlive by (split; [done|]; intros Hx; by rewrite Hx, lookup_empty in Hf).
  pose proof (members_ok_remove g name (s_members _ Hs _ _ Hh)) as Hok.
  set (g' := mkHTTPGroup _ _ _ _ _ _ _ _) in *. case_bool_decide as He.
  - change (domain g') with (domain g). change (location g') with (location g).
    change (routeByHTTPUser g') with (routeByHTTPUser g). change (group g') with (group g).
    rewrite bool_decide_true by (by apply Hs). by apply http_sound_last.
  - eapply (sound_same s l g); try done. by intros _; apply Hlive.
Qed.

Lemma http_sound_reachable s : reachable s → sound s.
Proof.
  intros Hr. refine (rtc_invariant step sound _ _ _ Hr _).
  - intros s1 s2 Hs. destruct 1 as [s1 key|s1 l name grp key rc|s1 l g name Hh Hn|s1 l g Hh].
    + by apply http_sound_getOrCreate.
    + by apply sound_Register.
    + by eapply sound_UnRegister.
    + eapply (sound_same s1 l g); try done. exact (s_members _ Hs l g Hh).
  - split; simpl; try done.
    + apply Vhost.wf_New.
    + intros l g [Hx _]. simpl in Hx. by rewrite lookup_empty in Hx.
    + intros l g [Hx _]. simpl in Hx. by rewrite lookup_empty in Hx.
    + intros l [? Hx]. by rewrite lookup_empty in Hx.
Qed.

(** HTTP groups are sound: in every reachable state, a group with
    members is the one registered under its name, its route (lower-cased
    domain, location and user) leads to it and to no other group, and its
    names and its connection functions belong to the same members. *)
Theorem http_groups_sound (s : Ctl) (l : nat) (g : HTTPGroup) :
  reachable s → live s l g →
  groups s !! group g = Some l ∧ route_of s g = Some l ∧ NoDup (pxyNames g) ∧
  (∀ n, n ∈ pxyNames g ↔ is_Some (createFuncs g !! n)) ∧
  ∀ l' g', live s l' g' → group g' = group g ∨ route_of s g' = Some l → l' = l.
Proof.
  intros Hs%http_sound_reachable Hl. destruct (s_members _ Hs _ _ (proj1 Hl)) as [Hnd Hm].
  pose proof (s_current _ Hs _ _ Hl) as Hc.
  split_and!; [done|by apply (s_route _ Hs)|done..|]. intros l' g' Hl' [Hg|Hg].
  - pose proof (s_current _ Hs _ _ Hl') as Hc'. congruence.
  - pose proof (s_route _ Hs _ _ Hl') as Hr'. congruence.
Qed.

(** ** Taking turns *)

(** [n] consecutive calls of [chooseEndpoint]. *)
Fixpoint endpoints (n : nat) (g : HTTPGroup) : list (res error string) :=
  match n with
  | O => []
  | S n' => let '(g', r) := chooseEndpoint g in r :: endpoints n' g'
  end.

Lemma endpoints_lookup n g :
  0 ≤ index g → index g + Z.of_nat n < 2 ^ 64 → pxyNames g ≠ [] → "" ∉ pxyNames g →
  ∀ k, (k < n)%nat →
  endpoints n g !! k =
    Ok <$> (pxyNames g !! Z.to_nat ((index g + 1 + Z.of_nat k) `mod` Z.of_nat (length (pxyNames g)))).
Proof.
  revert g. induction n as [|n IH]; intros g Hi Hb Hne Hemp k Hk; [lia|].
  cbn [endpoints]. unfold chooseEndpoint, next_index, name_at, wrap64.
  cbn [pxyNames]. rewrite (Z.mod_small (index g + 1)) by lia.
  assert (0 < length (pxyNames g))%nat as Hlen by (destruct (pxyNames g); simpl; [done|lia]).
  rewrite (proj2 (Nat.ltb_lt _ _) Hlen). destruct k as [|k]; simpl.
  - rewrite Z.add_0_r.
    pose proof (Z.mod_pos_bound (index g + 1) (Z.of_nat (length (pxyNames g))) ltac:(lia)) as Hm.
    destruct (lookup_lt_is_Some_2 (pxyNames g)
      (Z.to_nat ((index g + 1) `mod` Z.of_nat (length (pxyNames g)))) ltac:(lia)) as [x Hx].
    rewrite Hx. simpl. rewrite (proj2 (String.eqb_neq x "")); [done|].
    intros ->. apply Hemp. by eapply list_elem_of_lookup_2.
  - rewrite IH; simpl; [|lia|lia|done|done|lia]. do 4 f_equal. lia.
Qed.

Lemma mod_window n a b : 0 < n → a `mod` n = b `mod` n → Z.abs (a - b) < n → a = b.
Proof.
  intros Hn Hm Hab. pose proof (Z.div_mod a n ltac:(lia)). pose proof (Z.div_mod b n ltac:(lia)).
  assert (a - b = n * (a / n - b / n)) by lia.
  assert (a / n - b / n = 0) by nia. lia.
Qed.

Lemma endpoints_length n g : length (endpoints n g) = n.
Proof.
  revert g. induction n as [|n IH]; intros g; [done|]. cbn [endpoints].
  destruct (chooseEndpoint g). simpl. by rewrite IH.
Qed.

(** Members take turns: as many consecutive choices as there are
    members give every member exactly once, in some order, whatever the index
    was (below its wrap-around). *)
Theorem endpoints_round_robin (g : HTTPGroup) :
  NoDup (pxyNames g) → "" ∉ pxyNames g → 0 ≤ index g →
  index g + Z.of_nat (length (pxyNames g)) < 2 ^ 64 →
  endpoints (length (pxyNames g)) g ≡ₚ Ok <$> pxyNames g.
Proof.
  intros Hnd Hemp Hi Hb. destruct (decide (pxyNames g = [])) as [->|Hne]; [done|].
  set (n := length (pxyNames g)) in *. pose proof (endpoints_length n g) as Hlen.
  pose proof (endpoints_lookup n g Hi Hb Hne Hemp) as Hlk.
  apply submseteq_length_Permutation; [|rewrite length_fmap, Hlen; lia].
  apply NoDup_submseteq.
  - apply NoDup_alt. intros i j x Hxi Hxj.
    pose proof (lookup_lt_Some _ _ _ Hxi). pose proof (lookup_lt_Some _ _ _ Hxj).
    rewrite Hlen in *. rewrite Hlk in Hxi, Hxj by done.
    apply fmap_Some in Hxi as (y & Hy & ->). apply fmap_Some in Hxj as (z & Hz & [= ->]).
    pose proof (NoDup_lookup _ _ _ _ Hnd Hy Hz) as Heq. fold n in Heq.
    pose proof (Z.mod_pos_bound (index g + 1 + Z.of_nat i) (Z.of_nat n) ltac:(lia)).
    pose proof (Z.mod_pos_bound (index g + 1 + Z.of_nat j) (Z.of_nat n) ltac:(lia)).
    apply Z2Nat.inj in Heq; [|lia..]. apply mod_window in Heq; lia.
  - intros x [i Hxi]%list_elem_of_lookup_1. pose proof (lookup_lt_Some _ _ _ Hxi).
    rewrite Hlen in *. rewrite Hlk in Hxi by done. apply fmap_Some in Hxi as (y & Hy & ->).
    apply list_elem_of_fmap_2. by eapply list_elem_of_lookup_2.
Qed.

End Groups.

(** ** Witnesses *)

Definition demo_s1 : @Ctl nat := (getOrCreate NewCtl "web").1.
Definition demo_s2 : @Ctl nat :=
  (Register demo_s1 0 "a" "web" "k" (mkRouteConfig nat "Example.com" "/" "" 1%nat)).1.
Definition demo_group : @HTTPGroup nat :=
  mkHTTPGroup "web" "k" "Example.com" "/" "" {[ "a" := 1%nat ]} ["a"] 0.

Lemma http_demo_s2_reachable : reachable demo_s2.
Proof. eapply rtc_l; [apply (StepGet NewCtl "web")|]. apply rtc_once, StepRegister. Qed.

Lemma http_groups_sound_witness : groups demo_s2 !! "web" = Some 0%nat ∧ route_of demo_s2 demo_group = Some 0%nat.
Proof.
  destruct (http_groups_sound demo_s2 0 demo_group http_demo_s2_reachable) as (H1 & H2 & _).
  - split; [vm_compute; reflexivity|]. intros Hx. apply (f_equal (lookup "a")) in Hx. discriminate Hx.
  - split; [exact H1|exact H2].
Defined.

Lemma endpoints_round_robin_witness :
  endpoints 3 (mkHTTPGroup "web" "k" "d" "/" "" (∅ : gmap string nat) ["a"; "b"; "c"] 7) ≡ₚ
    [Ok "a"; Ok "b"; Ok "c"].
Proof.
  apply (endpoints_round_robin
    (mkHTTPGroup "web" "k" "d" "/" "" (∅ : gmap string nat) ["a"; "b"; "c"] 7)).
  - apply (bool_decide_unpack (NoDup ["a"; "b"; "c"])). vm_compute. exact I.
  - apply (bool_decide_unpack ("" ∉ ["a"; "b"; "c"])). vm_compute. exact I.
  - simpl. lia.
  - reflexivity.
Defined.

End HTTPGroup.
