(* ===== verification/GoNetip.v ===== *)
(** The part of Go's package [net/netip] the firewall uses: addresses,
    prefixes, their parsers and the text form of an address. *)
From Stdlib Require Import ZArith Lia Ascii String.
From stdpp Require Import base gmap strings list fin_maps numbers.
From S2P Require Import Prelude GoLib.

Local Open Scope Z_scope.

Module Netip.

(** [netip.Addr]: the zero value, an IPv4 address (32 bits), an IPv6 address
    (128 bits) with its zone, the empty zone meaning none. *)
Inductive Addr :=
| NoAddr
| V4 (n : Z)
| V6 (n : Z) (zone : string).

#[export] Instance Addr_eq_dec : EqDecision Addr.
Proof. solve_decision. Defined.

Definition IsValid (a : Addr) : bool := match a with NoAddr => false | _ => true end.

Definition BitLen (a : Addr) : Z := match a with NoAddr => 0 | V4 _ => 32 | V6 _ _ => 128 end.

Definition Is4In6 (a : Addr) : bool :=
  match a with V6 n _ => Z.shiftr n 32 =? 65535 | _ => false end.

Definition Unmap (a : Addr) : Addr :=
  match a with
  | V6 n _ => if Is4In6 a then V4 (n `mod` 2 ^ 32) else a
  | _ => a
  end.

(** ** Parsing *)

Definition digit_value (c : ascii) : option Z :=
  let n := nat_of_ascii c in
  if between 48 n 57 then Some (Z.of_nat n - 48) else None.

Definition hex_value (c : ascii) : option Z :=
  let n := nat_of_ascii c in
  if between 48 n 57 then Some (Z.of_nat n - 48)
  else if between 97 n 102 then Some (Z.of_nat n - 87)
  else if between 65 n 70 then Some (Z.of_nat n - 55)
  else None.

(** The value of a string of decimal digits, [None] when it is empty, has
    another character or a leading zero, or exceeds 255. *)
Fixpoint octet_go (acc : Z) (s : string) : option Z :=
  match s with
  | EmptyString => Some acc
  | String c s' =>
      match digit_value c with
      | None => None
      | Some d => if 255 <? acc * 10 + d then None else octet_go (acc * 10 + d) s'
      end
  end.

Definition octet (s : string) : option Z :=
  match s with
  | EmptyString => None
  | String "0" (String _ _) => None
  | _ => octet_go 0 s
  end.

(** [parseIPv4Fields]: the four fields as one 32-bit number. *)
Definition parseIPv4Fields (s : string) : option Z :=
  match octet <$> Split s "." with
  | [Some a; Some b; Some c; Some d] => Some (((a * 256 + b) * 256 + c) * 256 + d)
  | _ => None
  end.

(** The hexadecimal digits a group starts with, at most four of them: how
    many, their value and the rest; [None] for a fifth digit. *)
Fixpoint hex_group (n : nat) (acc : Z) (s : string) : option (nat * Z * string) :=
  match s with
  | EmptyString => Some (n, acc, s)
  | String c s' =>
      match hex_value c with
      | None => Some (n, acc, s)
      | Some d => if (3 <? n)%nat then None else hex_group (S n) (acc * 16 + d) s'
      end
  end.

(** The loop of [parseIPv6]: the 16-bit groups read so far (an embedded IPv4
    address counts as two), where the ellipsis stood among them, and the rest
    of the text. [fuel] is the number of groups there is still room for. *)
Fixpoint parseIPv6_groups (fuel : nat) (groups : list Z) (ellipsis : option nat) (s : string) :
    option (list Z * option nat * string) :=
  match fuel with
  | O => Some (groups, ellipsis, s)
  | S fuel' =>
      match hex_group 0 0 s with
      | None => None
      | Some (off, acc, rest) =>
          if Nat.eqb off 0 then None
          else match rest with
          | String "." _ =>
              if bool_decide (ellipsis = None) && negb (Nat.eqb (length groups) 6) then None
              else if (8 <? length groups + 2)%nat then None
              else match parseIPv4Fields s with
                   | None => None
                   | Some v => Some (groups ++ [v / 65536; v `mod` 65536], ellipsis, "")
                   end
          | EmptyString => Some (groups ++ [acc], ellipsis, "")
          | String ":" EmptyString => None
          | String ":" (String ":" rest') =>
              match ellipsis with
              | Some _ => None
              | None =>
                  let groups := groups ++ [acc] in
                  match rest' with
                  | EmptyString => Some (groups, Some (length groups), "")
                  | _ => parseIPv6_groups fuel' groups (Some (length groups)) rest'
                  end
              end
          | String ":" rest' => parseIPv6_groups fuel' (groups ++ [acc]) ellipsis rest'
          | _ => None
          end
      end
  end.

Definition groups_value (groups : list Z) : Z := fold_left (λ a g, a * 65536 + g) groups 0.

Definition parseIPv6 (s : string) : option Addr :=
  let '(s, zone, zoned) :=
    match Cut s "%" with Some (s, zone) => (s, zone, true) | None => (s, "", false) end in
  if zoned && String.eqb zone "" then None
  else
    let '(ellipsis, s) :=
      match CutPrefix s "::" with Some s => (Some 0%nat, s) | None => (None, s) end in
    if bool_decide (ellipsis = Some 0%nat) && String.eqb s "" then Some (V6 0 zone)
    else match parseIPv6_groups 8 [] ellipsis s with
    | Some (groups, ellipsis, EmptyString) =>
        if (length groups <? 8)%nat then
          match ellipsis with
          | None => None
          | Some e =>
              Some (V6 (groups_value (take e groups ++ replicate (8 - length groups) 0 ++
                                      drop e groups)) zone)
          end
        else match ellipsis with
             | Some _ => None
             | None => Some (V6 (groups_value groups) zone)
             end
    | _ => None
    end.

(** The first of '.', ':' and '%' decides what is parsed. *)
Fixpoint addr_kind (s : string) : option ascii :=
  match s with
  | EmptyString => None
  | String c s' =>
      if Ascii.eqb c "." || Ascii.eqb c ":" || Ascii.eqb c "%" then Some c else addr_kind s'
  end.

Definition ParseAddr (s : string) : option Addr :=
  match addr_kind s with
  | Some "."%char => V4 <$> parseIPv4Fields s
  | Some ":"%char => parseIPv6 s
  | _ => None
  end.

(** ** Prefixes *)

(** [netip.Prefix], of a valid address and a length within its family. *)
Record Prefix := mkPrefix { p_ip : Addr; p_bits : Z }.

(** [PrefixFrom] drops the zone. *)
Definition PrefixFrom (a : Addr) (bits : Z) : Prefix :=
  mkPrefix (match a with V6 n _ => V6 n "" | _ => a end) bits.

(** The text around the last occurrence of a character. *)
Fixpoint CutLast (s : string) (sep : ascii) : option (string * string) :=
  match s with
  | EmptyString => None
  | String c s' =>
      match CutLast s' sep with
      | Some (a, b) => Some (String c a, b)
      | None => if Ascii.eqb c sep then Some (EmptyString, s') else None
      end
  end.

Definition ParsePrefix (s : string) : option Prefix :=
  match CutLast s "/" with
  | None => None
  | Some (addr, bitsStr) =>
      match ParseAddr addr with
      | None | Some NoAddr => None
      | Some ip =>
          if match ip with V6 _ zone => negb (String.eqb zone "") | _ => false end then None
          else if match bitsStr with
                  | String c (String _ _) => negb (between 49 (nat_of_ascii c) 57)
                  | _ => false
                  end then None
          else match Atoi bitsStr with
               | None => None
               | Some bits =>
                   if (bits <? 0) || (BitLen ip <? bits) then None else Some (PrefixFrom ip bits)
               end
      end
  end.

(** [n] with all but its first [bits] of [width] bits cleared. *)
Definition mask (width bits n : Z) : Z := Z.shiftl (Z.shiftr n (width - bits)) (width - bits).

Definition Masked (p : Prefix) : Prefix :=
  match p_ip p with
  | V4 n => mkPrefix (V4 (mask 32 (p_bits p) n)) (p_bits p)
  | V6 n z => mkPrefix (V6 (mask 128 (p_bits p) n) z) (p_bits p)
  | NoAddr => p
  end.

(** [Prefix.Contains]: the address has no zone, is of the same family and
    agrees with the prefix on its first bits. *)
Definition Contains (p : Prefix) (ip : Addr) : bool :=
  match p_ip p, ip with
  | V4 m, V4 n => Z.shiftr (Z.lxor n m) (32 - p_bits p) =? 0
  | V6 m _, V6 n zone =>
      String.eqb zone "" && (Z.shiftr (Z.lxor n m) (128 - p_bits p) =? 0)
  | _, _ => false
  end.

(** Membership says that the leading bits are equal. *)
Lemma lxor_shiftr_zero m n k : 0 ≤ k → Z.shiftr (Z.lxor n m) k = 0 ↔ Z.shiftr n k = Z.shiftr m k.
Proof. intros Hk. rewrite Z.shiftr_lxor. apply Z.lxor_eq_0_iff. Qed.

Lemma shiftr_mask width bits n :
  0 ≤ width - bits → Z.shiftr (mask width bits n) (width - bits) = Z.shiftr n (width - bits).
Proof. intros Hk. unfold mask. rewrite Z.shiftr_shiftl_l by lia. by rewrite Z.sub_diag, Z.shiftl_0_r. Qed.

(** ** Text *)

Definition hex_digit (n : Z) : ascii :=
  ascii_of_nat (Z.to_nat (if n <? 10 then n + 48 else n + 87)).

(** [appendHex]: no leading zeros. *)
Definition hex_text (g : Z) : string :=
  let d k := String (hex_digit (Z.shiftr g (4 * k) `mod` 16)) EmptyString in
  if 4096 <=? g then d 3 +:+ d 2 +:+ d 1 +:+ d 0
  else if 256 <=? g then d 2 +:+ d 1 +:+ d 0
  else if 16 <=? g then d 1 +:+ d 0
  else d 0.

Definition groups_of (n : Z) : list Z :=
  (λ k, Z.shiftr n (16 * (7 - k)) `mod` 65536) <$> seqZ 0 8.

(** The length of the run of zeros a list starts with. *)
Fixpoint zeros (l : list Z) : nat :=
  match l with 0 :: l' => S (zeros l') | _ => 0 end.

(** The first longest run of at least two zero groups: where and how long. *)
Fixpoint zero_run (i : nat) (l : list Z) (best : nat * nat) : nat * nat :=
  match l with
  | [] => best
  | _ :: l' =>
      let n := zeros l in
      zero_run (S i) l' (if (2 <=? n)%nat && (best.2 <? n)%nat then (i, n) else best)
  end.

Definition v6_text (n : Z) : string :=
  let gs := groups_of n in
  let '(i, len) := zero_run 0 gs (0%nat, 0%nat) in
  if Nat.eqb len 0 then Join (hex_text <$> gs) ":"
  else Join (hex_text <$> take i gs) ":" +:+ "::" +:+ Join (hex_text <$> drop (i + len) gs) ":".

Definition v4_text (n : Z) : string :=
  Join ((λ k, Itoa (Z.shiftr n (8 * (3 - k)) `mod` 256)) <$> seqZ 0 4) ".".

(** [Addr.String] *)
Definition text (a : Addr) : string :=
  match a with
  | NoAddr => "invalid IP"
  | V4 n => v4_text n
  | V6 n zone =>
      (if Is4In6 a then "::ffff:" +:+ v4_text (n `mod` 2 ^ 32) else v6_text n) +:+
      (if String.eqb zone "" then "" else "%" +:+ zone)
  end.

(** A few texts and back. *)
Example netip_examples :
  ParseAddr "1.2.3.4" = Some (V4 16909060) ∧
  ParseAddr "01.2.3.4" = None ∧ ParseAddr "1.2.3" = None ∧ ParseAddr "1.2.3.256" = None ∧
  ParseAddr "::1" = Some (V6 1 "") ∧ ParseAddr "::" = Some (V6 0 "") ∧
  ParseAddr "fe80::1%eth0" = Some (V6 (0xfe80 * 2 ^ 112 + 1) "eth0") ∧
  ParseAddr "::ffff:1.2.3.4" = Some (V6 (0xffff * 2 ^ 32 + 16909060) "") ∧
  ParseAddr "1:2:3:4:5:6:7::8" = None ∧ ParseAddr "1::2::3" = None ∧ ParseAddr "12345::" = None ∧
  ParseAddr "1:2:3:4:5:6:7:8:9" = None ∧ ParseAddr "1:2:3:4:5:6:7:" = None ∧
  text (V6 (0x20010db8 * 2 ^ 96 + 1) "") = "2001:db8::1" ∧ text (V6 0 "") = "::" ∧
  text (V4 16909060) = "1.2.3.4" ∧
  ParsePrefix "10.0.0.0/8" = Some (mkPrefix (V4 (10 * 2 ^ 24)) 8) ∧
  ParsePrefix "10.0.0.0/08" = None ∧ ParsePrefix "10.0.0.0/33" = None ∧
  ParsePrefix "fe80::%eth0/64" = None.
Proof. vm_compute. repeat split; reflexivity. Qed.

End Netip.
