(* ===== verification/Firewall.v ===== *)
(** The firewall of the server, server/firewall/firewall.go: ordered rules by
    source network and port, an external reputation provider with a cache, a
    default policy.

    The provider (an HTTP service), the interfaces of the host, the parser of
    URLs and the name lookup are parameters. Times are Unix seconds. The
    collapsing of concurrent queries for one address is left out: an operation
    runs by itself. *)
From Stdlib Require Import ZArith Lia Ascii String.
From stdpp Require Import base gmap strings list fin_maps.
From S2P Require Import Prelude GoLib GoNetip.

Local Open Scope Z_scope.

Module Firewall.
Import Netip.

(** ** Data *)

Record Rule := mkRule {
  ID : string; Action : string; CIDR : string; Port : string; Note : string; ExpiresAt : Z }.

Record ProviderConfig := mkProvider {
  Mode : string; FRPControlURL : string; FRPControlAPIKey : string;
  URL : string; Method : string; Body : string; Headers : gmap string string;
  BlockedPath : string; ReasonPath : string;
  CacheTTLSec : Z; TimeoutMs : Z; FailOpen : bool; InsecureTLS : bool }.

Record portRange := mkPortRange { lo : Z; hi : Z }.

Record compiledRule := mkCompiled {
  c_rule : Rule; c_allow : bool; c_anyCIDR : bool; c_prefix : Prefix;
  c_anyPort : bool; c_ports : list portRange; c_reason : string; c_never : bool }.

Record Config := mkConfig {
  cfg_Enabled : bool; cfg_ControlPort : bool; cfg_WebPort : bool;
  cfg_Default : string; cfg_Rules : list Rule; cfg_Provider : ProviderConfig }.

(** The state file; [Enabled] may be absent. *)
Record state := mkState {
  st_Enabled : option bool; st_ControlPort : bool; st_WebPort : bool;
  st_Default : string; st_Rules : list Rule; st_Provider : ProviderConfig }.

Record repEntry := mkRepEntry { re_blocked : bool; re_reason : string; re_exp : Z }.

Record Firewall := mkFirewall {
  enabled : bool; controlPort : bool; webPort : bool; def : string;
  rules : list compiledRule; provider : ProviderConfig;
  selfProviderPort : Z; localIPs : gmap string bool;
  repCache : gmap string repEntry }.

(** ** Helpers *)

(** [strings.TrimRight(s, string(c))]. *)
Fixpoint TrimRight (s : string) (c : ascii) : string :=
  match s with
  | EmptyString => EmptyString
  | String d s' =>
      match TrimRight s' c with
      | EmptyString => if Ascii.eqb d c then EmptyString else String d EmptyString
      | t => String d t
      end
  end.

(** The body of an FRPControl query: the JSON object with one list, "ips", of
    one string, the placeholder for the address. *)
Definition provider_body : string :=
  let quote := String (ascii_of_nat 34) EmptyString in
  "{" +:+ quote +:+ "ips" +:+ quote +:+ ":[" +:+ quote +:+ "{ip}" +:+ quote +:+ "]}".

Definition effective (p : ProviderConfig) : ProviderConfig :=
  if negb (String.eqb (Mode p) "frpcontrol") then p
  else mkProvider "custom" "" ""
         (TrimRight (FRPControlURL p) "/" +:+ "/api/fw/check") "POST"
         provider_body {[ "X-API-Key" := FRPControlAPIKey p ]}
         "results.0.blacklisted" "results.0.reason"
         (CacheTTLSec p) (TimeoutMs p) (FailOpen p) (InsecureTLS p).

Definition orDefault (s d : string) : string := if String.eqb s "" then d else s.

Definition parseAddr (remoteAddr : string) : Addr :=
  let host := match SplitHostPort remoteAddr with Ok (h, _) => h | Err _ => remoteAddr end in
  match ParseAddr (TrimSpace host) with
  | None => NoAddr
  | Some addr => Unmap addr
  end.

Definition parsePort (s : string) : option Z :=
  match Atoi (TrimSpace s) with
  | None => None
  | Some n => if (n <? 0) || (65535 <? n) then None else Some n
  end.

Definition parsePortRange (part : string) : option (Z * Z) :=
  let part := TrimSpace part in
  if String.eqb part "" then None
  else match Cut part "-" with
  | None => match parsePort part with None => None | Some lo => Some (lo, lo) end
  | Some (before, after) =>
      match parsePort before with
      | None => None
      | Some lo =>
          match parsePort after with
          | None => None
          | Some hi => if hi <? lo then None else Some (lo, hi)
          end
      end
  end.

(** Whether a port specification stands for every port. *)
Definition any_port (spec : string) : bool :=
  String.eqb spec "" || String.eqb spec "*" || EqualFold spec "all".

(** The entry [ParsePortSpec] complains about, if any. *)
Definition ParsePortSpec (spec : string) : option string :=
  let spec := TrimSpace spec in
  if any_port spec then None
  else match first_match (λ part, match parsePortRange part with None => true | Some _ => false end)
               (Split spec ",") with
       | Some part => Some (TrimSpace part)
       | None => None
       end.

(** ** Compiled rules *)

Definition ruleReason (id : string) (index : nat) : string :=
  let id := TrimSpace id in
  if negb (String.eqb id "") then "rule " +:+ id else "rule #" +:+ Itoa (Z.of_nat index + 1).

Definition compilePorts (spec : string) : list portRange * bool :=
  let spec := TrimSpace spec in
  if any_port spec then ([], true)
  else (omap (λ part, match parsePortRange part with
                      | Some (l, h) => Some (mkPortRange l h)
                      | None => None
                      end) (Split spec ","), false).

(** The zero [netip.Prefix]. *)
Definition no_prefix : Prefix := mkPrefix NoAddr 0.

Definition compileRule (r : Rule) (index : nat) : compiledRule :=
  let allow := EqualFold (TrimSpace (Action r)) "allow" in
  let reason := ruleReason (ID r) index in
  let cidr := TrimSpace (CIDR r) in
  let '(anyCIDR, prefix, never) :=
    if String.eqb cidr "" || String.eqb cidr "*" then (true, no_prefix, false)
    else if ContainsChar cidr "/" then
      match ParsePrefix cidr with
      | None => (false, no_prefix, true)
      | Some p =>
          let p :=
            if Is4In6 (p_ip p) && (96 <=? p_bits p)
            then PrefixFrom (Unmap (p_ip p)) (p_bits p - 96) else p in
          (false, Masked p, false)
      end
    else
      match ParseAddr cidr with
      | None => (false, no_prefix, true)
      | Some addr =>
          let addr := Unmap addr in
          (false, PrefixFrom addr (BitLen addr), false)
      end in
  let '(ports, anyPort) := compilePorts (Port r) in
  mkCompiled r allow anyCIDR prefix anyPort ports reason never.

Definition compileRules (rs : list Rule) : list compiledRule := imap (λ i r, compileRule r i) rs.

Definition plainRules (rs : list compiledRule) : list Rule := c_rule <$> rs.

Fixpoint matchRanges (ranges : list portRange) (port : Z) : bool :=
  match ranges with
  | [] => false
  | r :: ranges' => if (lo r <=? port) && (port <=? hi r) then true else matchRanges ranges' port
  end.

(** [compiledRule.match] *)
Definition rule_match (c : compiledRule) (ip : Addr) (port : Z) : bool :=
  if c_never c then false
  else if negb (c_anyCIDR c) && (negb (IsValid ip) || negb (Contains (c_prefix c) ip)) then false
  else c_anyPort c || matchRanges (c_ports c) port.

Definition expired (now : Z) (r : Rule) : bool := negb (ExpiresAt r =? 0) && (ExpiresAt r <=? now).

(** ** Decisions *)

Section Decisions.
(** The provider's answer for an address, [None] on any error: whether it is
    blocked, and why. *)
Variable queryProvider : string → ProviderConfig → option (bool * string).
(** [net.InterfaceAddrs]: the addresses of the networks of the interfaces, or
    an error; [url.Parse]: scheme, host name and port; [net.LookupHost]. *)
Variable InterfaceAddrs : option (list string).
Variable url_Parse : string → option (string * string * string).
Variable LookupHost : string → option (list string).

(** *** The endpoint of the provider (pkg/util/net/self.go) *)

Definition LocalAddrSet : gmap string bool :=
  match InterfaceAddrs with
  | None => ∅
  | Some addrs => foldl (λ set a, <[a := true]> set) ∅ addrs
  end.

Definition splitEndpoint (raw : string) : string * Z :=
  let raw := TrimSpace raw in
  if String.eqb raw "" then ("", 0)
  else
    let raw := if negb (StringContains raw "://") then "http://" +:+ raw else raw in
    match url_Parse raw with
    | None => ("", 0)
    | Some (scheme, hostname, port) =>
        if String.eqb hostname "" then ("", 0)
        else if negb (String.eqb port "") then
          match Atoi port with None => ("", 0) | Some p => (hostname, p) end
        else if String.eqb scheme "https" then (hostname, 443)
        else if String.eqb scheme "http" then (hostname, 80)
        else ("", 0)
    end.

Definition PortIfLocal (rawEndpoint : string) (local : gmap string bool) : Z :=
  let '(host, port) := splitEndpoint rawEndpoint in
  if String.eqb host "" || (port =? 0) then 0
  else
    match LookupHost host with
    | None => 0
    | Some addrs =>
        if existsb (λ a, default false (local !! a)) addrs then port else 0
    end.

Definition set_cache (f : Firewall) (c : gmap string repEntry) : Firewall :=
  mkFirewall (enabled f) (controlPort f) (webPort f) (def f) (rules f) (provider f)
    (selfProviderPort f) (localIPs f) c.

Definition checkExternal (now : Z) (f : Firewall) (ipStr : string) (p : ProviderConfig) :
    Firewall * (bool * string) :=
  let ask :=
    let '(blocked, reason, ttl) :=
      match queryProvider ipStr p with
      | Some (blocked, reason) =>
          (blocked, reason, if CacheTTLSec p <=? 0 then 300 else CacheTTLSec p)
      | None => (negb (FailOpen p), "provider unavailable", 10)
      end in
    (set_cache f (<[ipStr := mkRepEntry blocked reason (now + ttl)]> (repCache f)),
     (blocked, reason)) in
  match repCache f !! ipStr with
  | Some e => if now <? re_exp e then (f, (re_blocked e, re_reason e)) else ask
  | None => ask
  end.

Definition isSelfCall (f : Firewall) (ip : Addr) (port : Z) : bool :=
  negb (selfProviderPort f =? 0) && (port =? selfProviderPort f) &&
  default false (localIPs f !! text ip).

(** The steps of [Allow] after the rules. *)
Definition allow_unruled (now : Z) (f : Firewall) (ip : Addr) (port : Z) : Firewall * (bool * string) :=
  let selfCall := IsValid ip && isSelfCall f ip port in
  let policy (f : Firewall) :=
    if String.eqb (def f) "allow" then (f, (true, "default allow")) else (f, (false, "default deny")) in
  if (String.eqb (Mode (provider f)) "frpcontrol" || String.eqb (Mode (provider f)) "custom") &&
     IsValid ip && negb selfCall then
    let '(f, (blocked, why)) := checkExternal now f (text ip) (effective (provider f)) in
    if blocked then
      (f, (false, if negb (String.eqb why "") then "reputation (" +:+ why +:+ ")" else "reputation"))
    else policy f
  else policy f.

Definition Allow (now : Z) (f : Firewall) (remoteAddr : string) (port : Z) :
    Firewall * (bool * string) :=
  if negb (enabled f) then (f, (true, "firewall disabled"))
  else
    let ip := parseAddr remoteAddr in
    match first_match (λ c, negb (expired now (c_rule c)) && rule_match c ip port) (rules f) with
    | Some c => (f, (c_allow c, c_reason c))
    | None => allow_unruled now f ip port
    end.

Definition AllowControl (now : Z) (f : Firewall) (remoteAddr : string) (port : Z) :
    Firewall * (bool * string) :=
  if negb (enabled f && controlPort f) then (f, (true, "control port not protected"))
  else Allow now f remoteAddr port.

Definition AllowWeb (now : Z) (f : Firewall) (remoteAddr : string) (port : Z) :
    Firewall * (bool * string) :=
  if negb (enabled f && webPort f) then (f, (true, "web port not protected"))
  else Allow now f remoteAddr port.

(** ** Configuration *)

Definition pruneLocked (now : Z) (f : Firewall) : Firewall * bool :=
  let rs := filter (λ c, expired now (c_rule c) = false) (rules f) in
  (mkFirewall (enabled f) (controlPort f) (webPort f) (def f) rs (provider f)
     (selfProviderPort f) (localIPs f) (repCache f),
   negb (Nat.eqb (length rs) (length (rules f)))).

(** [buildClientLocked] with [resolveSelfProviderLocked]. *)
Definition resolveSelfProviderLocked (f : Firewall) : Firewall :=
  let p := effective (provider f) in
  let port :=
    if String.eqb (Mode p) "off" || String.eqb (URL p) "" then 0
    else PortIfLocal (ReplaceAll (URL p) "{ip}" "0.0.0.0") LocalAddrSet in
  mkFirewall (enabled f) (controlPort f) (webPort f) (def f) (rules f) (provider f)
    port LocalAddrSet (repCache f).

Definition set_mode (p : ProviderConfig) : ProviderConfig :=
  if String.eqb (Mode p) "" then
    mkProvider "off" (FRPControlURL p) (FRPControlAPIKey p) (URL p) (Method p) (Body p) (Headers p)
      (BlockedPath p) (ReasonPath p) (CacheTTLSec p) (TimeoutMs p) (FailOpen p) (InsecureTLS p)
  else p.

(** [New] on the contents of the state file, [None] when there is none. *)
Definition New (now : Z) (s : option state) : Firewall :=
  let '(en, cp, wp, d, rs, p) :=
    match s with
    | Some s =>
        (default true (st_Enabled s), st_ControlPort s, st_WebPort s,
         orDefault (ToLower (st_Default s)) "allow", compileRules (st_Rules s), st_Provider s)
    | None =>
        (true, false, false, "allow", [], mkProvider "" "" "" "" "" "" ∅ "" "" 0 0 false false)
    end in
  resolveSelfProviderLocked
    (pruneLocked now (mkFirewall en cp wp d rs (set_mode p) 0 ∅ ∅)).1.

(** The state [saveLocked] writes. *)
Definition saveLocked (f : Firewall) : state :=
  mkState (Some (enabled f)) (controlPort f) (webPort f) (def f) (plainRules (rules f)) (provider f).

Definition Snapshot (f : Firewall) : Config :=
  mkConfig (enabled f) (controlPort f) (webPort f) (def f) (plainRules (rules f)) (provider f).

Definition SetConfig (c : Config) (f : Firewall) : Firewall :=
  let d := ToLower (cfg_Default c) in
  let d := if negb (String.eqb d "allow") && negb (String.eqb d "deny") then "allow" else d in
  resolveSelfProviderLocked
    (mkFirewall (cfg_Enabled c) (cfg_ControlPort c) (cfg_WebPort c) d (compileRules (cfg_Rules c))
       (set_mode (cfg_Provider c)) (selfProviderPort f) (localIPs f) ∅).

(** ** What a rule means *)

(** The addresses a network names: same family, equal leading bits; a mapped
    network with at least 96 bits names IPv4 addresses, and an address with a
    zone is in no network. *)
Definition in_network (p : Prefix) (ip : Addr) : Prop :=
  match p_ip p, ip with
  | V4 m, V4 n => Z.shiftr n (32 - p_bits p) = Z.shiftr m (32 - p_bits p)
  | V6 m _, V6 n zone =>
      zone = "" ∧ (Is4In6 (p_ip p) = true → p_bits p < 96) ∧
      Z.shiftr n (128 - p_bits p) = Z.shiftr m (128 - p_bits p)
  | V6 m _, V4 n =>
      Is4In6 (p_ip p) = true ∧ 96 ≤ p_bits p ∧
      Z.shiftr n (128 - p_bits p) = Z.shiftr (m `mod` 2 ^ 32) (128 - p_bits p)
  | _, _ => False
  end.

(** The address a single-address rule names. *)
Definition same_host (a ip : Addr) : Prop :=
  match Unmap a, ip with
  | V4 m, V4 n => n = m
  | V6 m _, V6 n zone => n = m ∧ zone = ""
  | _, _ => False
  end.

Definition cidr_covers (cidr : string) (ip : Addr) : Prop :=
  let c := TrimSpace cidr in
  (c = "" ∨ c = "*") ∨
  (¬ (c = "" ∨ c = "*") ∧
   if ContainsChar c "/" then ∃ p, ParsePrefix c = Some p ∧ in_network p ip
   else ∃ a, ParseAddr c = Some a ∧ same_host a ip).

Definition port_covers (spec : string) (port : Z) : Prop :=
  any_port (TrimSpace spec) = true ∨
  (any_port (TrimSpace spec) = false ∧
   ∃ part l h, part ∈ Split (TrimSpace spec) "," ∧ parsePortRange part = Some (l, h) ∧ l ≤ port ≤ h).

Definition covers (r : Rule) (ip : Addr) (port : Z) : Prop :=
  cidr_covers (CIDR r) ip ∧ port_covers (Port r) port.

Lemma ParsePrefix_bits s p :
  ParsePrefix s = Some p → 0 ≤ p_bits p ≤ BitLen (p_ip p) ∧ p_ip p ≠ NoAddr.
Proof.
  unfold ParsePrefix. destruct (CutLast s "/") as [[addr bits]|]; [|done].
  destruct (ParseAddr addr) as [[|n|n z]|]; try done.
  - destruct (match bits with EmptyString => _ | _ => _ end); [done|].
    destruct (Atoi bits) as [b|]; [|done]. destruct (_ || _) eqn:Hb; [done|].
    intros [= <-]. bool_to_prop. simpl in *. split; [lia|done].
  - destruct (negb _); [done|]. destruct (match bits with EmptyString => _ | _ => _ end); [done|].
    destruct (Atoi bits) as [b|]; [|done]. destruct (_ || _) eqn:Hb; [done|].
    intros [= <-]. bool_to_prop. simpl in *. split; [lia|done].
Qed.

Lemma Contains_V4 m bits n :
  0 ≤ bits ≤ 32 →
  Contains (Masked (mkPrefix (V4 m) bits)) (V4 n) = true ↔
  Z.shiftr n (32 - bits) = Z.shiftr m (32 - bits).
Proof.
  intros Hb. unfold Masked, Contains. cbn [p_ip p_bits]. rewrite Z.eqb_eq, lxor_shiftr_zero by lia. by rewrite shiftr_mask by lia.
Qed.

Lemma Contains_V6 m z bits n zone :
  0 ≤ bits ≤ 128 →
  Contains (Masked (mkPrefix (V6 m z) bits)) (V6 n zone) = true ↔
  zone = "" ∧ Z.shiftr n (128 - bits) = Z.shiftr m (128 - bits).
Proof.
  intros Hb. unfold Masked, Contains. cbn [p_ip p_bits].
  rewrite andb_true_iff, String.eqb_eq, Z.eqb_eq, lxor_shiftr_zero by lia.
  by rewrite shiftr_mask by lia.
Qed.

(** The compiled form of a network names the same addresses. *)
Lemma compiled_network p ip :
  0 ≤ p_bits p ≤ BitLen (p_ip p) →
  Contains (Masked (if Is4In6 (p_ip p) && (96 <=? p_bits p)
                    then PrefixFrom (Unmap (p_ip p)) (p_bits p - 96) else p)) ip = true ↔
  in_network p ip.
Proof.
  destruct p as [[|m|m z] bits]; cbn [p_ip p_bits BitLen]; intros Hb.
  - by destruct ip.
  - cbn [Is4In6 andb]. destruct ip as [|n|n zone]; [done| |done]. by apply Contains_V4.
  - unfold in_network. cbn [p_ip p_bits].
    destruct (Is4In6 (V6 m z)) eqn:H46; [destruct (Z.leb_spec 96 bits) as [H96|H96]|];
      cbn [andb].
    + unfold Unmap. rewrite H46. unfold PrefixFrom. destruct ip as [|n|n zone]; [done| |].
      * rewrite Contains_V4 by lia. replace (32 - (bits - 96)) with (128 - bits) by lia.
        split; [done|by intros (_ & _ & ?)].
      * split; [done|]. intros (_ & Hlt & _). specialize (Hlt eq_refl). lia.
    + destruct ip as [|n|n zone]; [done| |].
      * split; [done|]. intros (_ & ? & _). lia.
      * rewrite Contains_V6 by lia. split; [intros [? ?]; by split_and!|by intros (? & _ & ?)].
    + destruct ip as [|n|n zone]; [done| |].
      * split; [done|by intros [? _]].
      * rewrite Contains_V6 by lia. split; [intros [? ?]; by split_and!|by intros (? & _ & ?)].
Qed.

Lemma compiled_host a ip :
  Contains (PrefixFrom (Unmap a) (BitLen (Unmap a))) ip = true ↔ same_host a ip.
Proof.
  unfold same_host. destruct (Unmap a) as [|m|m z], ip as [|n|n zone]; try done;
    cbn [PrefixFrom Contains p_ip p_bits BitLen]; rewrite Z.sub_diag, Z.shiftr_0_r.
  - by rewrite Z.eqb_eq, Z.lxor_eq_0_iff.
  - rewrite andb_true_iff, String.eqb_eq, Z.eqb_eq, Z.lxor_eq_0_iff. tauto.
Qed.

Lemma matchRanges_spec ranges port :
  matchRanges ranges port = true ↔ ∃ r, r ∈ ranges ∧ lo r ≤ port ≤ hi r.
Proof.
  induction ranges as [|r ranges IH]; simpl.
  - split; [done|]. by intros (r & ?%not_elem_of_nil & _).
  - destruct ((lo r <=? port) && (port <=? hi r)) eqn:Hr.
    + split; [|done]. intros _. bool_to_prop. exists r. split; [by left|lia].
    + rewrite IH. split; intros (x & Hx & Hp).
      * exists x. split; [by right|done].
      * apply elem_of_cons in Hx as [->|Hx]; [|eauto].
        rewrite andb_false_iff, !Z.leb_gt in Hr. lia.
Qed.

(** The compiled form of a port specification covers the same ports. *)
Lemma compiled_ports spec port :
  let '(ports, anyPort) := compilePorts spec in
  (anyPort || matchRanges ports port) = true ↔ port_covers spec port.
Proof.
  unfold compilePorts, port_covers. destruct (any_port (TrimSpace spec)); simpl.
  - split; [by left|done].
  - rewrite matchRanges_spec. split.
    + intros (r & Hr & Hp). right. split; [done|].
      apply list_elem_of_omap in Hr as (part & Hpart & Hr).
      destruct (parsePortRange part) as [[l h]|] eqn:Hpr; [|done]. injection Hr as <-.
      exists part, l, h. auto.
    + intros [?|[_ (part & l & h & Hpart & Hpr & Hp)]]; [done|].
      exists (mkPortRange l h). split; [|done]. apply list_elem_of_omap. exists part.
      by rewrite Hpr.
Qed.

(** A compiled rule matches what its rule covers. *)
Lemma compileRule_match r i ip port :
  rule_match (compileRule r i) ip port = true ↔ covers r ip port.
Proof.
  unfold covers, compileRule, cidr_covers. set (c := TrimSpace (CIDR r)). cbv zeta.
  pose proof (compiled_ports (Port r) port) as Hports.
  destruct (compilePorts (Port r)) as [ports anyPort]. rewrite <- Hports.
  assert (∀ b x, rule_match (mkCompiled r (EqualFold (TrimSpace (Action r)) "allow") false x
      anyPort ports (ruleReason (ID r) i) false) ip port = b ↔
    (IsValid ip && Contains x ip) && (anyPort || matchRanges ports port) = b) as Hm.
  { intros b x. unfold rule_match. simpl. destruct (IsValid ip), (Contains x ip); done. }
  assert (∀ x, Contains x ip = true → IsValid ip = true) as Hvalid.
  { intros x. unfold Contains. by destruct ip, (p_ip x). }
  destruct (String.eqb c "" || String.eqb c "*") eqn:Hany.
  { apply orb_true_iff in Hany. rewrite !String.eqb_eq in Hany. unfold rule_match. simpl.
    split; [|by intros [_ ?]]. intros ?. split; [by left|done]. }
  assert (¬ (c = "" ∨ c = "*")) as Hnot.
  { rewrite <- !String.eqb_eq, <- orb_true_iff, Hany. done. }
  destruct (ContainsChar c "/").
  - destruct (ParsePrefix c) as [p|] eqn:Hp.
    + rewrite Hm, !andb_true_iff. apply ParsePrefix_bits in Hp as [Hb _].
      rewrite (compiled_network p ip Hb). split.
      * intros [[_ Hn] Hpt]. split; [|done]. right. split; [done|]. eauto.
      * intros [[?|[_ (p' & [= <-] & Hn)]] Hpt]; [done|]. split; [|done]. split; [|done].
        eapply Hvalid. by apply (compiled_network p ip Hb).
    + simpl. split; [done|]. intros [[?|[_ (p & ? & _)]] _]; done.
  - destruct (ParseAddr c) as [a|] eqn:Ha.
    + rewrite Hm, !andb_true_iff, compiled_host. split.
      * intros [[_ Hn] Hpt]. split; [|done]. right. split; [done|]. eauto.
      * intros [[?|[_ (a' & [= <-] & Hn)]] Hpt]; [done|]. split; [|done]. split; [|done].
        eapply Hvalid. by apply compiled_host.
    + simpl. split; [done|]. intros [[?|[_ (p & ? & _)]] _]; done.
Qed.

(** ** The rules of a firewall are compiled rules *)

Definition compiled (f : Firewall) : Prop := Forall (λ c, ∃ i, c = compileRule (c_rule c) i) (rules f).

Lemma c_rule_compile r i : c_rule (compileRule r i) = r.
Proof.
  unfold compileRule. by repeat case_match; simplify_eq/=.
Qed.

Lemma c_allow_compile r i : c_allow (compileRule r i) = EqualFold (TrimSpace (Action r)) "allow".
Proof. unfold compileRule. by repeat case_match; simplify_eq/=. Qed.

Lemma c_reason_compile r i : c_reason (compileRule r i) = ruleReason (ID r) i.
Proof. unfold compileRule. by repeat case_match; simplify_eq/=. Qed.

Lemma compileRules_compiled rs : Forall (λ c, ∃ i, c = compileRule (c_rule c) i) (compileRules rs).
Proof.
  apply Forall_lookup_2. intros i c Hc. unfold compileRules in Hc. rewrite list_lookup_imap in Hc.
  apply fmap_Some in Hc as (r & _ & ->). exists i. by rewrite c_rule_compile.
Qed.

Lemma plain_compile rs : plainRules (compileRules rs) = rs.
Proof.
  unfold plainRules, compileRules. apply list_eq. intros i.
  rewrite list_lookup_fmap, list_lookup_imap. destruct (rs !! i) as [r|]; [|done].
  simpl. by rewrite c_rule_compile.
Qed.

(** The firewalls the server can have: loaded, reconfigured, swept, asked. *)
Inductive fstep : Firewall → Firewall → Prop :=
| FSetConfig c f : fstep f (SetConfig c f)
| FPrune now f : fstep f (pruneLocked now f).1
| FAllow now f addr port : fstep f (Allow now f addr port).1.

Definition freachable (f : Firewall) : Prop := ∃ now s, rtc fstep (New now s) f.

Lemma allow_keeps_rules now f ip port : rules (allow_unruled now f ip port).1 = rules f.
Proof.
  unfold allow_unruled. destruct (_ && _).
  - unfold checkExternal. repeat case_match; simplify_eq/=; done.
  - by destruct (String.eqb _ _).
Qed.

Lemma compiled_step f f' : compiled f → fstep f f' → compiled f'.
Proof.
  intros Hc. destruct 1 as [c f|now f|now f addr port]; unfold compiled; simpl.
  - apply compileRules_compiled.
  - by apply Forall_filter_1.
  - unfold Allow. destruct (negb (enabled f)); [done|].
    destruct (first_match _ _); [done|]. by rewrite allow_keeps_rules.
Qed.

Lemma compiled_reachable f : freachable f → compiled f.
Proof.
  intros (now & s & Hr). apply (rtc_invariant fstep compiled compiled_step _ _ Hr).
  unfold compiled, New. destruct s as [s|]; simpl; [|constructor].
  apply Forall_filter_1, compileRules_compiled.
Qed.

Lemma elem_of_compiled f c i :
  compiled f → rules f !! i = Some c → ∃ k, c = compileRule (c_rule c) k.
Proof. intros Hc Hi. by eapply Forall_lookup_1 in Hc. Qed.

(** C30. The decision is the first rule's: in every firewall the server can
    have, a connection is decided by the first rule that has not expired and
    that covers its source address and port, by that rule's action; when no
    rule does, by the steps after the rules. A disabled firewall lets
    everything through. *)
Theorem allow_first_match (now : Z) (f : Firewall) (addr : string) (port : Z) :
  freachable f →
  let applies r := expired now r = false ∧ covers r (parseAddr addr) port in
  (enabled f = false ∧ Allow now f addr port = (f, (true, "firewall disabled"))) ∨
  (enabled f = true ∧ ∃ i r k, plainRules (rules f) !! i = Some r ∧ applies r ∧
     (∀ j r', (j < i)%nat → plainRules (rules f) !! j = Some r' → ¬ applies r') ∧
     Allow now f addr port =
       (f, (EqualFold (TrimSpace (Action r)) "allow", ruleReason (ID r) k))) ∨
  (enabled f = true ∧ (∀ r, r ∈ plainRules (rules f) → ¬ applies r) ∧
     Allow now f addr port = allow_unruled now f (parseAddr addr) port).
Proof.
  intros Hc%compiled_reachable applies. unfold compiled in Hc. rewrite Forall_forall in Hc. unfold Allow. destruct (enabled f); [right|by left]. simpl.
  set (test := λ c, negb (expired now (c_rule c)) && rule_match c (parseAddr addr) port).
  assert (∀ c, c ∈ rules f → test c = true ↔ applies (c_rule c)) as Htest.
  { intros c Hin. apply Hc in Hin as [k Hk]. unfold test, applies.
    rewrite andb_true_iff, negb_true_iff. rewrite Hk at 2. by rewrite compileRule_match. }
  destruct (first_match test (rules f)) as [c|] eqn:Hfm.
  - left. split; [done|]. apply first_match_Some in Hfm as (l1 & l2 & Heq & Hok & Hno).
    assert (c ∈ rules f) as Hin by (rewrite Heq; set_solver).
    destruct (Hc c Hin) as [k Hk].
    assert (applies (c_rule c)) as Happ by (by apply Htest).
    exists (length l1), (c_rule c), k. split; [|split; [exact Happ|split]].
    + unfold plainRules. rewrite Heq, fmap_app, lookup_app_r by (by rewrite length_fmap).
      by rewrite length_fmap, Nat.sub_diag.
    + intros j r' Hj Hr'. unfold plainRules in Hr'.
      rewrite Heq, fmap_app, lookup_app_l in Hr' by (by rewrite length_fmap).
      rewrite list_lookup_fmap in Hr'. apply fmap_Some in Hr' as (c' & Hc' & ->).
      assert (c' ∈ rules f) as Hin' by (rewrite Heq; apply elem_of_app; left; by eapply list_elem_of_lookup_2).
      rewrite <- (Htest c' Hin'). apply (Forall_lookup_1 _ _ _ _ Hno) in Hc'. congruence.
    + rewrite Hk at 1 2. by rewrite c_allow_compile, c_reason_compile.
  - right. split; [done|]. split; [|done]. intros r Hr.
    apply list_elem_of_fmap in Hr as (c & -> & Hin). rewrite <- (Htest c Hin).
    apply first_match_None in Hfm. rewrite Forall_forall in Hfm. by rewrite (Hfm c Hin).
Qed.

(** ** Pruning *)

Lemma first_match_filter {A} (f : A → bool) (P : A → Prop) `{!∀ x, Decision (P x)} l :
  (∀ x, f x = true → P x) → first_match f (filter P l) = first_match f l.
Proof.
  intros HP. induction l as [|x l IH]; [done|]. rewrite filter_cons. case_decide as Hx; simpl.
  - by destruct (f x).
  - destruct (f x) eqn:Hf; [by apply HP in Hf|done].
Qed.

Lemma expired_mono now now' r : now ≤ now' → expired now r = true → expired now' r = true.
Proof.
  unfold expired. intros Hle. rewrite !andb_true_iff, !Z.leb_le. intros [? ?]. split; [done|lia].
Qed.

(** Sweeping expired rules changes no decision: from the moment of the
    sweep on, every connection gets the verdict and the reason it would have
    got without it, and the firewall it leaves behind is the swept one. *)
Theorem prune_keeps_decisions (now now' : Z) (f : Firewall) (addr : string) (port : Z) :
  now ≤ now' →
  Allow now' (pruneLocked now f).1 addr port =
  ((pruneLocked now (Allow now' f addr port).1).1, (Allow now' f addr port).2).
Proof.
  intros Hle. unfold Allow at 1. unfold pruneLocked at 1 2 3 4. cbn [fst enabled rules].
  unfold Allow. destruct (negb (enabled f)); [done|]. cbn [fst].
  rewrite first_match_filter.
  2:{ intros c Hc. apply andb_true_iff in Hc as [Hx _]. apply negb_true_iff in Hx.
      destruct (expired now (c_rule c)) eqn:He; [|done].
      apply (expired_mono now now') in He; [congruence|done]. }
  destruct (first_match _ (rules f)) as [c|]; [done|].
  unfold allow_unruled, isSelfCall, checkExternal, pruneLocked. cbn [provider selfProviderPort localIPs repCache].
  destruct (_ && negb _); simpl; [|by destruct (String.eqb (def f) "allow")].
  destruct (repCache f !! text (parseAddr addr)) as [e|]; [destruct (now' <? re_exp e)|].
  - by destruct (re_blocked e); simpl; [|destruct (String.eqb (def f) "allow")].
  - by destruct (queryProvider _ _) as [[[] ?]|]; simpl;
      destruct (FailOpen (effective (provider f))); simpl; destruct (String.eqb (def f) "allow").
  - by destruct (queryProvider _ _) as [[[] ?]|]; simpl;
      destruct (FailOpen (effective (provider f))); simpl; destruct (String.eqb (def f) "allow").
Qed.

(** ** Reasons *)

Lemma ruleReason_nonempty id i : ruleReason id i ≠ "".
Proof. unfold ruleReason. destruct (negb _); discriminate. Qed.

Lemma allow_unruled_reason now f ip port : (allow_unruled now f ip port).2.2 ≠ "".
Proof.
  unfold allow_unruled. destruct (_ && negb _).
  - destruct (checkExternal _ _ _ _) as [f' [blocked why]]. destruct blocked; simpl.
    + destruct (negb _); discriminate.
    + destruct (String.eqb (def f') "allow"); discriminate.
  - destruct (String.eqb (def f) "allow"); discriminate.
Qed.

Lemma Allow_reason now f addr port : compiled f → (Allow now f addr port).2.2 ≠ "".
Proof.
  intros Hc. unfold Allow. destruct (negb (enabled f)); [discriminate|].
  destruct (first_match _ _) as [c|] eqn:Hfm; [|apply allow_unruled_reason].
  apply first_match_elem_of in Hfm as [Hin _]. unfold compiled in Hc. rewrite Forall_forall in Hc.
  apply Hc in Hin as [k ->]. simpl. rewrite c_reason_compile. apply ruleReason_nonempty.
Qed.

(** A decision always has a reason, whichever of the three entrances
    asks and whichever way it goes. *)
Theorem decisions_have_reasons (now : Z) (f : Firewall) (addr : string) (port : Z) :
  freachable f →
  (Allow now f addr port).2.2 ≠ "" ∧ (AllowControl now f addr port).2.2 ≠ "" ∧
  (AllowWeb now f addr port).2.2 ≠ "".
Proof.
  intros Hc%compiled_reachable. pose proof (Allow_reason now f addr port Hc) as Hr.
  unfold AllowControl, AllowWeb. split; [done|].
  split; [destruct (negb (enabled f && controlPort f))|destruct (negb (enabled f && webPort f))];
    done.
Qed.

(** ** Restarting *)

(** The default is a lower-case word and the mode is set. *)
Definition normal (f : Firewall) : Prop :=
  orDefault (ToLower (def f)) "allow" = def f ∧ set_mode (provider f) = provider f.

Lemma orDefault_ToLower s :
  orDefault (ToLower (orDefault (ToLower s) "allow")) "allow" = orDefault (ToLower s) "allow".
Proof.
  unfold orDefault. destruct (String.eqb (ToLower s) "") eqn:Hs; [done|].
  by rewrite ToLower_idem, Hs.
Qed.

Lemma set_mode_idem p : set_mode (set_mode p) = set_mode p.
Proof. unfold set_mode. destruct (String.eqb (Mode p) "") eqn:Hm; simpl; [done|by rewrite Hm]. Qed.

Lemma allow_keeps_normal now f ip port :
  def (allow_unruled now f ip port).1 = def f ∧
  provider (allow_unruled now f ip port).1 = provider f.
Proof.
  unfold allow_unruled. destruct (_ && _).
  - unfold checkExternal. repeat case_match; simplify_eq/=; done.
  - by destruct (String.eqb _ _).
Qed.

Lemma normal_step f f' : normal f → fstep f f' → normal f'.
Proof.
  intros Hn. destruct 1 as [c f|now f|now f addr port]; unfold normal; simpl.
  - split; [|apply set_mode_idem].
    destruct (String.eqb_spec (ToLower (cfg_Default c)) "allow") as [->|H1]; [done|].
    destruct (String.eqb_spec (ToLower (cfg_Default c)) "deny") as [->|H2]; done.
  - done.
  - unfold Allow. destruct (negb (enabled f)); [done|]. destruct (first_match _ _); [done|].
    destruct (allow_keeps_normal now f (parseAddr addr) port) as [-> ->]. done.
Qed.

Lemma normal_reachable f : freachable f → normal f.
Proof.
  intros (now & s & Hr). apply (rtc_invariant fstep normal normal_step _ _ Hr).
  unfold normal, New. destruct s as [s|]; simpl; [|done].
  split; [apply orDefault_ToLower|apply set_mode_idem].
Qed.

(** The firewall survives a restart: loading what was saved gives the
    same configuration, less the rules that have expired by then. *)
Theorem restart_keeps_config (now : Z) (f : Firewall) :
  freachable f →
  Snapshot (New now (Some (saveLocked f))) = Snapshot (pruneLocked now f).1.
Proof.
  intros [Hd Hp]%normal_reachable. unfold Snapshot, New, saveLocked. simpl. rewrite Hd, Hp. f_equal.
  assert (∀ l, plainRules (filter (λ c, expired now (c_rule c) = false) l) =
               filter (λ r, expired now r = false) (plainRules l)) as Hf.
  { unfold plainRules. induction l as [|c l IH]; [done|].
    rewrite fmap_cons, !filter_cons. repeat case_decide; try done; by rewrite ?fmap_cons, IH. }
  by rewrite !Hf, plain_compile.
Qed.

(** What [SetConfig] leaves for [isSelfCall]. *)
Lemma SetConfig_self c f ip :
  let p := effective (set_mode (cfg_Provider c)) in
  Mode p ≠ "off" → URL p ≠ "" →
  PortIfLocal (ReplaceAll (URL p) "{ip}" "0.0.0.0") LocalAddrSet ≠ 0 →
  LocalAddrSet !! text ip = Some true →
  isSelfCall (SetConfig c f) ip (PortIfLocal (ReplaceAll (URL p) "{ip}" "0.0.0.0") LocalAddrSet) = true.
Proof.
  intros p Hm Hu Hp Hl. unfold isSelfCall, SetConfig, resolveSelfProviderLocked.
  cbn [provider selfProviderPort localIPs]. fold p.
  apply String.eqb_neq in Hm, Hu. rewrite Hm, Hu. cbn [orb]. rewrite Hl. simpl.
  apply Z.eqb_neq in Hp. by rewrite Hp, Z.eqb_refl.
Qed.

End Decisions.

(** The provider plays no part in a call of the server to itself. *)
Lemma Allow_self_call q q' now f addr port :
  IsValid (parseAddr addr) = true → isSelfCall f (parseAddr addr) port = true →
  Allow q now f addr port = Allow q' now f addr port ∧ (Allow q now f addr port).1 = f.
Proof.
  intros Hv Hs. unfold Allow. destruct (enabled f); simpl; [|done].
  destruct (first_match _ _); [done|]. unfold allow_unruled. rewrite Hv, Hs. simpl.
  rewrite andb_false_r. by destruct (String.eqb _ _).
Qed.

(** No query loop: once a configuration is set whose provider URL leads
    to a local port, a connection from one of the host's own addresses to that
    port is decided without asking the provider (the decision is the same for
    any two providers, and nothing is cached). *)
Theorem provider_loop_broken (q q' : string → ProviderConfig → option (bool * string))
    (ifs : option (list string)) (parse : string → option (string * string * string))
    (lookup : string → option (list string)) (now : Z) (c : Config) (f0 : Firewall) (addr : string) :
  let f := SetConfig ifs parse lookup c f0 in
  let url := URL (effective (provider f)) in
  let port := PortIfLocal parse lookup (ReplaceAll url "{ip}" "0.0.0.0") (LocalAddrSet ifs) in
  Mode (provider f) ≠ "off" → url ≠ "" → port ≠ 0 →
  IsValid (parseAddr addr) = true →
  LocalAddrSet ifs !! text (parseAddr addr) = Some true →
  Allow q now f addr port = Allow q' now f addr port ∧ (Allow q now f addr port).1 = f.
Proof.
  intros f url port Hm Hu Hp Hv Hl. apply Allow_self_call; [done|]. apply SetConfig_self; try done.
  change (Mode (effective (provider f)) ≠ "off"). unfold effective.
  destruct (String.eqb _ _); [discriminate|exact Hm].
Qed.

(** ** Witnesses *)

Definition demo_provider : ProviderConfig :=
  mkProvider "off" "" "" "" "" "" ∅ "" "" 0 0 false false.

Definition demo_state : state :=
  mkState None false true "Deny"
    [mkRule "" "allow" "10.0.0.0/8" "80,443" "" 0; mkRule "r2" "deny" "" "" "" 100] demo_provider.

Definition demo_query (ip : string) (p : ProviderConfig) : option (bool * string) := None.
Definition demo_parse (url : string) : option (string * string * string) :=
  if String.eqb url "http://panel:7002/check" then Some ("http", "panel", "7002") else None.
Definition demo_lookup (host : string) : option (list string) :=
  if String.eqb host "panel" then Some ["192.0.2.1"] else None.
Definition demo_fw : Firewall := New None demo_parse demo_lookup 50 (Some demo_state).

Lemma fw_demo_reachable : freachable demo_query None demo_parse demo_lookup demo_fw.
Proof. exists 50, (Some demo_state). apply rtc_refl. Qed.

Lemma allow_first_match_witness :
  (Allow demo_query 60 demo_fw "10.1.2.3:5555" 443).2 = (true, "rule #1") ∧
  (Allow demo_query 60 demo_fw "11.1.2.3:5555" 443).2 = (false, "rule r2") ∧
  (enabled demo_fw = false ∨ enabled demo_fw = true).
Proof.
  split; [vm_compute; reflexivity|]. split; [vm_compute; reflexivity|].
  destruct (allow_first_match demo_query None demo_parse demo_lookup 60 demo_fw "10.1.2.3:5555" 443 fw_demo_reachable)
    as [[H _]|[[H _]|[H _]]]; [left|right|right]; exact H.
Defined.

Lemma prune_keeps_decisions_witness :
  (Allow demo_query 200 (pruneLocked 150 demo_fw).1 "11.1.2.3:5555" 443).2 =
    (Allow demo_query 200 demo_fw "11.1.2.3:5555" 443).2.
Proof.
  rewrite (prune_keeps_decisions demo_query 150 200 demo_fw "11.1.2.3:5555" 443); [reflexivity|lia].
Defined.

Lemma decisions_have_reasons_witness :
  (Allow demo_query 60 demo_fw "garbage" 443).2.2 ≠ "".
Proof. apply (decisions_have_reasons demo_query None demo_parse demo_lookup 60 demo_fw "garbage" 443 fw_demo_reachable). Defined.

Lemma restart_keeps_config_witness :
  Snapshot (New None demo_parse demo_lookup 120 (Some (saveLocked demo_fw))) = Snapshot (pruneLocked 120 demo_fw).1.
Proof. apply (restart_keeps_config demo_query None demo_parse demo_lookup 120 demo_fw fw_demo_reachable). Defined.

Definition demo_config : Config :=
  mkConfig true false false "deny" []
    (mkProvider "custom" "" "" "http://panel:7002/check" "" "" ∅ "blocked" "" 0 0 false false).

Lemma provider_loop_broken_witness :
  (Allow (λ _ _, Some (true, "loop")) 60
     (SetConfig (Some ["192.0.2.1"]) demo_parse demo_lookup demo_config demo_fw)
     "192.0.2.1:40000" 7002).2 = (false, "default deny") ∧
  Allow (λ _ _, Some (true, "loop")) 60
     (SetConfig (Some ["192.0.2.1"]) demo_parse demo_lookup demo_config demo_fw)
     "192.0.2.1:40000" 7002 =
  Allow demo_query 60
     (SetConfig (Some ["192.0.2.1"]) demo_parse demo_lookup demo_config demo_fw)
     "192.0.2.1:40000" 7002.
Proof.
  split; [vm_compute; reflexivity|].
  refine (proj1 (provider_loop_broken (λ _ _, Some (true, "loop")) demo_query (Some ["192.0.2.1"])
    demo_parse demo_lookup 60 demo_config demo_fw "192.0.2.1:40000" _ _ _ _ _));
    first [discriminate | vm_compute; reflexivity | vm_compute; discriminate].
Defined.

End Firewall.
