(* ===== verification/Sessions.v ===== *)
(** The control sessions of the server: server/control.go (ControlManager and
    the life of a Control) and the login path of server/service.go
    (RegisterControl, the Login case of handleConnection).

    A login runs in a goroutine of its own, and a started control has a
    worker; both are modelled by a program counter and one function that does
    the thread's next action, an action being what happens under one lock or
    one call of another component. The executions of the server are the
    interleavings of these actions. Writing the login response, the random run
    id, authentication and the clock are arguments.

    The fields of Control that belong to its proxies and to its pool of work
    connections are in the files Proxies and WorkConns. *)
From Stdlib Require Import ZArith Lia.
From stdpp Require Import base gmap strings list fin_maps relations.
From S2P Require Import Prelude Registry.

Module Sessions.
Import Registry.
Local Open Scope Z_scope.

(** ** Controls *)

Record Control := mkControl {
  LoginMsg : Login;
  poolCount : Z;
  runID : string;
  started : bool;
  replaced : bool;
  doneCh : bool;        (* closed *)
  connClosed : bool     (* the control connection, by the server *)
}.

(** Where the goroutine of a login is. *)
Inductive login_pc :=
| LWaitClosed (old : option nat)   (* RegisterControl: oldCtl.WaitClosed() *)
| LConflict                        (* ctlManager.Del, then the error response *)
| LRespond                         (* writing the LoginResp *)
| LFailDel                         (* the write failed: ctlManager.Del *)
| LFailOffline                     (* ... then MarkOfflineByRunID *)
| LStart
| LMetrics                         (* metrics.Server.NewClient *)
| LAwait                           (* WaitClosed, then ctlManager.Del *)
| LEnd.

(** Where the worker of a control is. *)
Inductive worker_pc :=
| WIdle                            (* not started *)
| WRun                             (* waiting for the dispatcher *)
| WCleanup                         (* closing work connections and proxies *)
| WCloseClient                     (* metrics.Server.CloseClient, reading runID *)
| WMark (r : string)               (* MarkOfflineByRunID(r) *)
| WCloseDone
| WEnd.

#[export] Instance login_pc_eq_dec : EqDecision login_pc.
Proof. solve_decision. Defined.

#[export] Instance worker_pc_eq_dec : EqDecision worker_pc.
Proof. solve_decision. Defined.

(** A control and the two threads that work for it. *)
Record Session := mkSession { ctl : Control; lpc : login_pc; wpc : worker_pc }.

Record Service := mkService {
  heap : gmap nat Session;
  next : nat;
  ctlsByRunID : gmap string nat;
  clientRegistry : ClientRegistry;
  clientCount : Z
}.

Definition NewService : Service := mkService ∅ 0 ∅ NewClientRegistry 0.

(** [NewControl]; a channel of negative capacity panics. *)
Definition NewControl (maxPoolCount loginPoolCount : Z) (m : Login) : option Control :=
  let poolCount := Z.min loginPoolCount maxPoolCount in
  if poolCount + 10 <? 0 then None
  else Some (mkControl m poolCount (l_runID m) false false false false).

(** [sync.Once] makes a second call do nothing, as closing a closed flag does. *)
Definition closeDone (k : Control) : Control :=
  mkControl (LoginMsg k) (poolCount k) (runID k) (started k) (replaced k) true (connClosed k).

Definition Close (k : Control) : Control :=
  mkControl (LoginMsg k) (poolCount k) (runID k) (started k) (replaced k) (doneCh k) true.

Definition Replaced (k : Control) : Control :=
  let started := started k in
  let k := Close (mkControl (LoginMsg k) (poolCount k) "" started true (doneCh k) (connClosed k)) in
  if negb started then closeDone k else k.

(** [Start], and whether it spawned the worker. *)
Definition Start (k : Control) : Control * bool :=
  if replaced k then (k, false)
  else (mkControl (LoginMsg k) (poolCount k) (runID k) true (replaced k) (doneCh k) (connClosed k), true).

(** ** The manager of controls *)

Definition set_heap (s : Service) (h : gmap nat Session) : Service :=
  mkService h (next s) (ctlsByRunID s) (clientRegistry s) (clientCount s).

Definition set_cm (s : Service) (cm : gmap string nat) : Service :=
  mkService (heap s) (next s) cm (clientRegistry s) (clientCount s).

Definition set_reg (s : Service) (cr : ClientRegistry) : Service :=
  mkService (heap s) (next s) (ctlsByRunID s) cr (clientCount s).

Definition set_count (s : Service) (n : Z) : Service :=
  mkService (heap s) (next s) (ctlsByRunID s) (clientRegistry s) n.

Definition on_ctl (f : Control → Control) (e : Session) : Session :=
  mkSession (f (ctl e)) (lpc e) (wpc e).

Definition cm_Add (s : Service) (run : string) (c : nat) : Service * option nat :=
  match ctlsByRunID s !! run with
  | Some old =>
      (set_cm (set_heap s (alter (on_ctl Replaced) old (heap s))) (<[run := c]> (ctlsByRunID s)), Some old)
  | None => (set_cm s (<[run := c]> (ctlsByRunID s)), None)
  end.

Definition cm_Del (s : Service) (run : string) (c : nat) : Service :=
  if bool_decide (ctlsByRunID s !! run = Some c) then set_cm s (delete run (ctlsByRunID s)) else s.

Definition cm_GetByID (s : Service) (run : string) : option nat := ctlsByRunID s !! run.

Definition cm_Close (s : Service) : Service :=
  set_cm (set_heap s
    (map_imap (λ c e, Some (if bool_decide (ctlsByRunID s !! l_runID (LoginMsg (ctl e)) = Some c)
                            then on_ctl Close e else e)) (heap s))) ∅.

(** ** Logins *)

Definition with_runID (m : Login) (r : string) : Login :=
  mkLogin (l_user m) (l_rawClientID m) r (l_hostname m) (l_version m) (l_remoteAddr m) (l_wireProtocol m).

Inductive admission := Refused | Panicked | Waiting (c : nat).

(** [RegisterControl] up to the point where it waits for the old control. *)
Definition RegisterControl_add (randID : option string) (authOK : bool) (maxPoolCount loginPoolCount : Z)
    (s : Service) (m : Login) : Service * admission :=
  match (if String.eqb (l_runID m) "" then with_runID m <$> randID else Some m) with
  | None => (s, Refused)
  | Some m =>
      if negb authOK then (s, Refused)
      else
        match NewControl maxPoolCount loginPoolCount m with
        | None => (s, Panicked)
        | Some k =>
            let c := next s in
            let '(s, old) := cm_Add s (l_runID m) c in
            (mkService (<[c := mkSession k (LWaitClosed old) WIdle]> (heap s)) (S c)
               (ctlsByRunID s) (clientRegistry s) (clientCount s), Waiting c)
        end
  end.

Definition is_done (s : Service) (c : nat) : bool :=
  match heap s !! c with Some e => doneCh (ctl e) | None => false end.

Definition set_session (s : Service) (c : nat) (e : Session) : Service :=
  set_heap s (<[c := e]> (heap s)).

(** The next action of the login of control [c]; [None] when it is blocked or
    has ended. [writeOK] is the outcome of writing the response. *)
Definition login_step (now : Z) (writeOK : bool) (s : Service) (c : nat) : option Service :=
  match heap s !! c with
  | None => None
  | Some e =>
      let k := ctl e in
      let m := LoginMsg k in
      let goto (pc : login_pc) (s : Service) := set_session s c (mkSession k pc (wpc e)) in
      let fail (pc : login_pc) (s : Service) := set_session s c (mkSession (Close k) pc (wpc e)) in
      match lpc e with
      | LWaitClosed old =>
          if (match old with Some o => is_done s o | None => true end) then
            let '(cr, (_, conflict)) := Register (clientRegistry s) now m in
            Some (goto (if conflict : bool then LConflict else LRespond) (set_reg s cr))
          else None
      | LConflict => Some (fail LEnd (cm_Del s (l_runID m) c))
      | LRespond => Some (goto (if writeOK then LStart else LFailDel) s)
      | LFailDel => Some (goto LFailOffline (cm_Del s (l_runID m) c))
      | LFailOffline =>
          Some (fail LEnd (set_reg s (MarkOfflineByRunID (clientRegistry s) now (l_runID m))))
      | LStart =>
          let '(k, spawned) := Start k in
          Some (set_session s c (mkSession k LMetrics (if spawned : bool then WRun else wpc e)))
      | LMetrics => Some (goto LAwait (set_count s (clientCount s + 1)))
      | LAwait => if doneCh k then Some (goto LEnd (cm_Del s (l_runID m) c)) else None
      | LEnd => None
      end
  end.

(** The next action of the worker of control [c]; the dispatcher of a running
    worker may end at any time. *)
Definition worker_step (now : Z) (s : Service) (c : nat) : option Service :=
  match heap s !! c with
  | None => None
  | Some e =>
      let k := ctl e in
      let goto (k : Control) (pc : worker_pc) (s : Service) := set_session s c (mkSession k (lpc e) pc) in
      match wpc e with
      | WIdle => None
      | WRun => Some (goto (Close k) WCleanup s)
      | WCleanup => Some (goto k WCloseClient s)
      | WCloseClient => Some (goto k (WMark (runID k)) (set_count s (clientCount s - 1)))
      | WMark r => Some (goto k WCloseDone (set_reg s (MarkOfflineByRunID (clientRegistry s) now r)))
      | WCloseDone => Some (goto (closeDone k) WEnd s)
      | WEnd => None
      end
  end.

(** The heartbeat of a running worker timed out: the connection is closed. *)
Definition heartbeat_timeout (s : Service) (c : nat) : Service :=
  match heap s !! c with
  | Some e => match wpc e with WIdle => s | _ => set_session s c (on_ctl Close e) end
  | None => s
  end.

Inductive step : Service → Service → Prop :=
| step_new rnd auth maxPool pool s m : rnd ≠ Some "" → step s (RegisterControl_add rnd auth maxPool pool s m).1
| step_login now ok s c s' : login_step now ok s c = Some s' → step s s'
| step_worker now s c s' : worker_step now s c = Some s' → step s s'
| step_heartbeat s c : step s (heartbeat_timeout s c)
| step_close s : step s (cm_Close s).

Definition reachable : Service → Prop := rtc step NewService.

(** ** What holds of each control *)

(** A login that has not come past [Start], nor failed for good. *)
Definition unfinished (pc : login_pc) : bool :=
  match pc with LMetrics | LAwait | LEnd => false | _ => true end.

Definition session_run (e : Session) : string := l_runID (LoginMsg (ctl e)).

Record session_ok (e : Session) : Prop := {
  ok_run : session_run e ≠ "";
  ok_runID : runID (ctl e) = if replaced (ctl e) then "" else session_run e;
  ok_started : started (ctl e) = true ↔ wpc e ≠ WIdle;
  ok_login : started (ctl e) = true → unfinished (lpc e) = false;
  ok_past : lpc e = LMetrics ∨ lpc e = LAwait → started (ctl e) = true ∨ replaced (ctl e) = true;
  ok_done : doneCh (ctl e) = true ↔ wpc e = WEnd ∨ (started (ctl e) = false ∧ replaced (ctl e) = true);
  ok_conn : replaced (ctl e) = true → connClosed (ctl e) = true;
  ok_mark : ∀ r, wpc e = WMark r → r = session_run e ∨ replaced (ctl e) = true ∧ r = ""
}.

(** [ctlsByRunID] points to controls of its run ids that were not replaced,
    and a waiting login waits for a control that was. *)
Record sessions_ok (s : Service) : Prop := {
  s_each : ∀ c e, heap s !! c = Some e → session_ok e;
  s_fresh : ∀ c, is_Some (heap s !! c) → (c < next s)%nat;
  s_current : ∀ run c, ctlsByRunID s !! run = Some c →
    ∃ e, heap s !! c = Some e ∧ session_run e = run ∧ replaced (ctl e) = false;
  s_waits : ∀ c e o, heap s !! c = Some e → lpc e = LWaitClosed (Some o) →
    ∃ eo, heap s !! o = Some eo ∧ replaced (ctl eo) = true
}.

(** A change of one session that keeps its run id and does not undo a
    replacement. *)
Lemma ok_set_session s c e e' :
  sessions_ok s → heap s !! c = Some e → session_ok e' →
  session_run e' = session_run e → replaced (ctl e') = replaced (ctl e) →
  (∀ o, lpc e' = LWaitClosed (Some o) → lpc e = LWaitClosed (Some o)) →
  sessions_ok (set_session s c e').
Proof.
  intros [He Hf Hcur Hw] Hc Hok Hrun Hrep Hwait. constructor; simpl.
  - intros c1 e1 [[<- <-]|[_ H1]]%lookup_insert_Some; [done|by eapply He].
  - intros c1 [e1 [[<- <-]|[_ H1]]%lookup_insert_Some]; eauto.
  - intros run c1 (e1 & H1 & Hr1 & Hrep1)%Hcur. destruct (decide (c1 = c)) as [->|Hne].
    + simplify_eq. exists e'. rewrite lookup_insert_eq. split_and!; congruence.
    + exists e1. by rewrite lookup_insert_ne.
  - assert (∀ o eo, heap s !! o = Some eo → replaced (ctl eo) = true →
      ∃ eo', <[c := e']> (heap s) !! o = Some eo' ∧ replaced (ctl eo') = true) as Hold.
    { intros o eo Ho Hr. destruct (decide (o = c)) as [->|Hne].
      - simplify_eq. exists e'. rewrite lookup_insert_eq. split; congruence.
      - exists eo. by rewrite lookup_insert_ne. }
    intros c1 e1 o [[<- <-]|[_ H1]]%lookup_insert_Some Hl.
    + apply Hwait in Hl. destruct (Hw _ _ _ Hc Hl) as (eo & ? & ?). eauto.
    + destruct (Hw _ _ _ H1 Hl) as (eo & ? & ?). eauto.
Qed.

Lemma ok_cm_Del s run c : sessions_ok s → sessions_ok (cm_Del s run c).
Proof.
  intros [He Hf Hcur Hw]. unfold cm_Del. case_bool_decide; [|done]. constructor; simpl; try done.
  intros run' c' [_ H']%lookup_delete_Some. by apply Hcur.
Qed.

Lemma ok_set_reg s cr : sessions_ok s → sessions_ok (set_reg s cr).
Proof. by intros []. Qed.

Lemma ok_set_count s n : sessions_ok s → sessions_ok (set_count s n).
Proof. by intros []. Qed.

Lemma heap_cm_Del s run c : heap (cm_Del s run c) = heap s.
Proof. unfold cm_Del. by case_bool_decide. Qed.

#[local] Hint Resolve ok_cm_Del ok_set_reg ok_set_count : frp.

(** The same for the threads, whose other effects leave the sessions alone. *)
Lemma ok_thread s s1 c e k l w :
  sessions_ok s → heap s !! c = Some e → sessions_ok s1 → heap s1 = heap s →
  session_ok (mkSession k l w) → LoginMsg k = LoginMsg (ctl e) → replaced k = replaced (ctl e) →
  (∀ o, l = LWaitClosed (Some o) → lpc e = l) →
  sessions_ok (set_session s1 c (mkSession k l w)).
Proof.
  intros Hs Hc Hs1 Hh Hok Hm Hr Hl. apply (ok_set_session s1 c e); simpl; try done.
  - by rewrite Hh.
  - unfold session_run. simpl. by rewrite Hm.
  - intros o ->. by eapply Hl.
Qed.

(** A session is of one of two shapes: without a worker, or with one. *)
Lemma ok_idle k l :
  l_runID (LoginMsg k) ≠ "" → runID k = (if replaced k then "" else l_runID (LoginMsg k)) →
  started k = false → doneCh k = replaced k → (replaced k = true → connClosed k = true) →
  (l = LMetrics ∨ l = LAwait → replaced k = true) →
  session_ok (mkSession k l WIdle).
Proof.
  intros Hr HrunID Hst Hd Hc Hl. constructor; unfold session_run; simpl; rewrite ?Hst, ?Hd; auto.
  - split; [done|]. by intros [].
  - done.
  - split; [by right|]. by intros [|[_ ?]].
  - done.
Qed.

Lemma ok_active k l w :
  l_runID (LoginMsg k) ≠ "" → runID k = (if replaced k then "" else l_runID (LoginMsg k)) →
  started k = true → w ≠ WIdle → unfinished l = false → (doneCh k = true ↔ w = WEnd) →
  (replaced k = true → connClosed k = true) →
  (∀ r, w = WMark r → r = l_runID (LoginMsg k) ∨ replaced k = true ∧ r = "") →
  session_ok (mkSession k l w).
Proof.
  intros Hr HrunID Hst Hw Hl Hd Hc Hm. constructor; unfold session_run; simpl; rewrite ?Hst; auto.
  - done.
  - rewrite Hd. split; [by left|]. by intros [|[? _]].
Qed.

Lemma session_ok_idle k l w :
  session_ok (mkSession k l w) → w = WIdle →
  started k = false ∧ doneCh k = replaced k ∧ (l = LMetrics ∨ l = LAwait → replaced k = true).
Proof.
  intros [_ _ Hst _ Hpast Hd _ _] ->. simpl in *.
  destruct (started k); [by destruct (proj1 Hst eq_refl)|]. split_and!; [done| |].
  - destruct (doneCh k), (replaced k); try done.
    + by destruct (proj1 Hd eq_refl) as [|[_ ?]].
    + apply Hd. auto.
  - by intros [|]%Hpast.
Qed.

Lemma session_ok_active k l w :
  session_ok (mkSession k l w) → w ≠ WIdle →
  started k = true ∧ unfinished l = false ∧ (doneCh k = true ↔ w = WEnd).
Proof.
  intros [_ _ Hst Hl _ Hd _ _] Hw. simpl in *. apply Hst in Hw. split_and!; [done|auto|].
  rewrite Hd. split; [|by left]. intros [|[? _]]; congruence.
Qed.

Lemma session_ok_unfinished k l w :
  session_ok (mkSession k l w) → unfinished l = true → w = WIdle.
Proof.
  intros Hok Hl. destruct (decide (started k = true)) as [Hst|Hst].
  - apply (ok_login _ Hok) in Hst. simpl in Hst. congruence.
  - destruct w; [done|..]; destruct (session_ok_active _ _ _ Hok) as [? _]; done.
Qed.

(** A login moves on without a worker. *)
Lemma ok_login_move k l l' w :
  session_ok (mkSession k l w) → unfinished l = true → (l' = LMetrics ∨ l' = LAwait → replaced k = true) →
  session_ok (mkSession k l' w) ∧ session_ok (mkSession (Close k) l' w).
Proof.
  intros Hok Hl Hl'. pose proof (session_ok_unfinished _ _ _ Hok Hl) as ->.
  destruct (session_ok_idle _ _ _ Hok eq_refl) as (Hst & Hd & _). destruct Hok as [Hr HrunID _ _ _ _ Hc _].
  split; by apply ok_idle.
Qed.

(** A login that is past its worker's start moves on. *)
Lemma ok_login_past k l l' w :
  session_ok (mkSession k l w) → l = LMetrics ∨ l = LAwait → unfinished l' = false →
  session_ok (mkSession k l' w).
Proof.
  intros Hok Hl Hl'. destruct (decide (started k = true)) as [Hst|Hst].
  - assert (w ≠ WIdle) as Hw by by apply (ok_started _ Hok).
    destruct (session_ok_active _ _ _ Hok Hw) as (_ & _ & Hd). destruct Hok. by apply ok_active.
  - assert (w = WIdle) as ->.
    { destruct w; [done|..]; destruct Hst; by apply (ok_started _ Hok). }
    destruct (session_ok_idle _ _ _ Hok eq_refl) as (? & Hd & Hp). destruct Hok. apply ok_idle; auto.
Qed.

Lemma sessions_ok_login now ok s c s' :
  sessions_ok s → login_step now ok s c = Some s' → sessions_ok s'.
Proof.
  intros Hs. unfold login_step. destruct (heap s !! c) as [e|] eqn:Hc; [|done].
  pose proof (s_each s Hs _ _ Hc) as Hok. destruct e as [k l w]. simpl.
  assert (∀ l', unfinished l = true → l' ≠ LMetrics → l' ≠ LAwait →
    session_ok (mkSession k l' w) ∧ session_ok (mkSession (Close k) l' w)) as Hmove.
  { intros l' Hl ??. eapply ok_login_move; [done..|]. by intros [|]. }
  destruct l as [old| | | | | | | |]; simpl.
  - destruct (match old with Some o => is_done s o | None => true end); [|done].
    destruct (Register _ _ _) as [cr [key conflict]]. intros [= <-].
    apply (ok_thread s _ c _ _ _ _ Hs Hc); eauto with frp; [|by destruct conflict].
    apply Hmove; by destruct conflict.
  - intros [= <-]. apply (ok_thread s _ c _ _ _ _ Hs Hc); eauto using heap_cm_Del with frp; [|done].
    by apply Hmove.
  - intros [= <-]. apply (ok_thread s _ c _ _ _ _ Hs Hc); eauto with frp; [|by destruct ok].
    apply Hmove; by destruct ok.
  - intros [= <-]. apply (ok_thread s _ c _ _ _ _ Hs Hc); eauto using heap_cm_Del with frp; [|done].
    by apply Hmove.
  - intros [= <-]. apply (ok_thread s _ c _ _ _ _ Hs Hc); eauto with frp; [|done]. by apply Hmove.
  - unfold Start. destruct (replaced k) eqn:Hr; simpl; intros [= <-];
      apply (ok_thread s _ c _ _ _ _ Hs Hc); try done.
    + eapply ok_login_move; [done..|]. by intros _.
    + pose proof (session_ok_unfinished _ _ _ Hok eq_refl) as ->.
      destruct (session_ok_idle _ _ _ Hok eq_refl) as (_ & Hd & _). destruct Hok as [? HrunID].
      unfold session_run in HrunID. simpl in *. rewrite Hr in *.
      apply ok_active; simpl; try done; rewrite ?Hr; try done. by rewrite Hd.
  - intros [= <-]. apply (ok_thread s _ c _ _ _ _ Hs Hc); eauto with frp; [|done].
    eapply ok_login_past; eauto.
  - destruct (doneCh k); [|done]. intros [= <-].
    apply (ok_thread s _ c _ _ _ _ Hs Hc); eauto using heap_cm_Del with frp; [|done].
    eapply ok_login_past; eauto.
  - done.
Qed.

Lemma sessions_ok_worker now s c s' :
  sessions_ok s → worker_step now s c = Some s' → sessions_ok s'.
Proof.
  intros Hs. unfold worker_step. destruct (heap s !! c) as [e|] eqn:Hc; [|done].
  pose proof (s_each s Hs _ _ Hc) as Hok. destruct e as [k l w]. simpl.
  assert (∀ k' w' s1, w ≠ WIdle → sessions_ok s1 → heap s1 = heap s → w' ≠ WIdle →
    LoginMsg k' = LoginMsg k → runID k' = runID k → started k' = started k → replaced k' = replaced k →
    (connClosed k = true → connClosed k' = true) → (doneCh k' = true ↔ w' = WEnd) →
    (∀ r, w' = WMark r → r = runID k) →
    sessions_ok (set_session s1 c (mkSession k' l w'))) as Hset.
  { intros k' w' s1 Hw Hs1 Hh Hw' Hm Hrun Hst Hrep Hcl Hd Hmark.
    destruct (session_ok_active _ _ _ Hok Hw) as (Hst' & Hl & _). destruct Hok as [Hr HrunID _ _ _ _ Hconn _].
    unfold session_run in *. simpl in *.
    apply (ok_thread s _ c _ _ _ _ Hs Hc); try done.
    apply ok_active; rewrite ?Hm, ?Hrun, ?Hst, ?Hrep; auto.
    intros r ->%Hmark. rewrite HrunID. destruct (replaced k); auto. }
  destruct w as [| | | |r| |]; try done.
  all: destruct (session_ok_active _ _ _ Hok) as (_ & _ & Hd); [done|].
  all: intros [= <-]; apply Hset; auto with frp; try done.
  all: first [by intros r [= ->] | split; [by intros ?%Hd|done] | done].
Qed.

Lemma ok_Close e : session_ok e → session_ok (on_ctl Close e).
Proof. intros []. by constructor. Qed.

Lemma sessions_ok_heartbeat s c : sessions_ok s → sessions_ok (heartbeat_timeout s c).
Proof.
  intros Hs. unfold heartbeat_timeout. destruct (heap s !! c) as [e|] eqn:Hc; [|done].
  destruct (wpc e); try done; (eapply ok_set_session; try done; apply ok_Close; by eapply s_each).
Qed.

Lemma sessions_ok_Close s : sessions_ok s → sessions_ok (cm_Close s).
Proof.
  intros [He Hf Hcur Hw]. unfold cm_Close. simpl.
  assert (∀ c, (∀ e', map_imap (λ c e, Some (if bool_decide (ctlsByRunID s !! l_runID (LoginMsg (ctl e)) = Some c)
      then on_ctl Close e else e)) (heap s) !! c = Some e' →
      ∃ e, heap s !! c = Some e ∧ (e' = e ∨ e' = on_ctl Close e))) as Hl.
  { intros c e'. rewrite map_lookup_imap. destruct (heap s !! c) as [e|]; simpl; [|done].
    intros [= <-]. exists e. split; [done|]. case_bool_decide; auto. }
  constructor; simpl; try done.
  - intros c e' (e & Hc & [-> | ->])%Hl; [by eapply He|]. eapply ok_Close, He, Hc.
  - intros c [e' (e & Hc & _)%Hl]. eauto.
  - intros c e' o (e & Hc & He')%Hl Hlp.
    destruct (Hw c e o Hc) as (eo & Ho & Hr); [by destruct He' as [-> | ->]|].
    eexists. rewrite map_lookup_imap, Ho. simpl. split; [done|]. by case_bool_decide.
Qed.

Lemma ok_Replaced e : session_ok e → session_ok (on_ctl Replaced e).
Proof.
  intros Hok. destruct e as [k l w]. unfold on_ctl, Replaced. simpl.
  destruct (decide (w = WIdle)) as [->|Hw].
  - destruct (session_ok_idle _ _ _ Hok eq_refl) as (Hst & Hd & Hp). destruct Hok as [Hr _ _ _ _ _ _ _].
    rewrite Hst. by apply ok_idle.
  - destruct (session_ok_active _ _ _ Hok Hw) as (Hst & Hl & Hd). destruct Hok as [Hr _ _ _ _ _ _ Hm].
    rewrite Hst. apply ok_active; try done. simpl. intros r Hwr. destruct (Hm r Hwr) as [|[? ?]]; auto.
Qed.

Lemma replaced_Replaced k : replaced (Replaced k) = true.
Proof. unfold Replaced. by destruct (started k). Qed.

Lemma run_Replaced e : session_run (on_ctl Replaced e) = session_run e.
Proof. unfold session_run, on_ctl, Replaced. simpl. by destruct (started (ctl e)). Qed.

(** The two halves of [Add]: the old control is retired, the new one enters. *)
Lemma sessions_ok_retire s run o :
  sessions_ok s → ctlsByRunID s !! run = Some o →
  sessions_ok (set_cm (set_heap s (alter (on_ctl Replaced) o (heap s))) (delete run (ctlsByRunID s))).
Proof.
  intros [He Hf Hcur Hw] Ho. destruct (Hcur _ _ Ho) as (eo & Heo & Hro & _). constructor; simpl.
  - intros c e [(_ & e0 & H0 & ->)|[_ H]]%lookup_alter_Some; [apply ok_Replaced|]; by eapply He.
  - intros c [e [(-> & e0 & H0 & ->)|[_ H]]%lookup_alter_Some]; eauto.
  - intros run' c [Hne H]%lookup_delete_Some. destruct (Hcur _ _ H) as (e & Hc & Hre & Hrep).
    exists e. by rewrite lookup_alter_ne by (intros ->; congruence).
  - assert (∀ o' e', heap s !! o' = Some e' → replaced (ctl e') = true →
      ∃ e'', alter (on_ctl Replaced) o (heap s) !! o' = Some e'' ∧ replaced (ctl e'') = true) as Hold.
    { intros o' e' H' Hr. destruct (decide (o' = o)) as [->|Hne].
      - rewrite lookup_alter_eq, H'. eexists. split; [done|]. apply replaced_Replaced.
      - exists e'. by rewrite lookup_alter_ne. }
    intros c e o' [(_ & e0 & H0 & ->)|[_ H]]%lookup_alter_Some Hl;
      [destruct (Hw _ _ _ H0 Hl) as (? & ? & ?)|destruct (Hw _ _ _ H Hl) as (? & ? & ?)]; eauto.
Qed.

Lemma sessions_ok_admit s k old :
  sessions_ok s → l_runID (LoginMsg k) ≠ "" →
  k = mkControl (LoginMsg k) (poolCount k) (l_runID (LoginMsg k)) false false false false →
  (∀ o, old = Some o → ∃ eo, heap s !! o = Some eo ∧ replaced (ctl eo) = true) →
  sessions_ok (mkService (<[next s := mkSession k (LWaitClosed old) WIdle]> (heap s)) (S (next s))
    (<[l_runID (LoginMsg k) := next s]> (ctlsByRunID s)) (clientRegistry s) (clientCount s)).
Proof.
  intros [He Hf Hcur Hw] Hne Hk Hold.
  assert (heap s !! next s = None) as Hn.
  { apply eq_None_not_Some. intros H%Hf. lia. }
  assert (∀ c e, heap s !! c = Some e → next s ≠ c) as Hother by (intros c e H <-; congruence).
  constructor; simpl.
  - intros c e [[<- <-]|[Hc H]]%lookup_insert_Some; [|by eapply He].
    rewrite Hk. apply ok_idle; try done. by intros [|].
  - intros c [e [[<- <-]|[Hc H]]%lookup_insert_Some]; [lia|]. eapply Nat.lt_lt_succ_r, Hf; eauto.
  - intros run' c [[<- <-]|[Hr H]]%lookup_insert_Some.
    + eexists. rewrite lookup_insert_eq. split_and!; [done..|]. by rewrite Hk.
    + destruct (Hcur _ _ H) as (e & Hc & Hre & Hrep). exists e.
      by rewrite lookup_insert_ne by eauto.
  - assert (∀ o, (∃ eo, heap s !! o = Some eo ∧ replaced (ctl eo) = true) →
      ∃ eo, <[next s := mkSession k (LWaitClosed old) WIdle]> (heap s) !! o = Some eo ∧
            replaced (ctl eo) = true) as Hkeep.
    { intros o (eo & Ho & Hr). exists eo. by rewrite lookup_insert_ne by eauto. }
    intros c e o [[<- <-]|[Hc H]]%lookup_insert_Some Hl; simpl in Hl; simplify_eq; eauto.
Qed.

Lemma NewControl_Some maxPool pool m k :
  NewControl maxPool pool m = Some k →
  LoginMsg k = m ∧
  k = mkControl (LoginMsg k) (poolCount k) (l_runID (LoginMsg k)) false false false false.
Proof. unfold NewControl. case_match; [done|]. by intros [= <-]. Qed.

(** The random run ids are not empty (util.RandID gives 16 hex digits). *)
Definition run_of (rnd : option string) (m : Login) : option Login :=
  if String.eqb (l_runID m) "" then with_runID m <$> rnd else Some m.

Lemma RegisterControl_cases rnd auth maxPool pool s m s' a :
  rnd ≠ Some "" → RegisterControl_add rnd auth maxPool pool s m = (s', a) →
  (s' = s ∧ (a = Refused ∨ a = Panicked)) ∨
  ∃ k, auth = true ∧ a = Waiting (next s) ∧ l_runID (LoginMsg k) ≠ "" ∧
    run_of rnd m = Some (LoginMsg k) ∧
    k = mkControl (LoginMsg k) (poolCount k) (l_runID (LoginMsg k)) false false false false ∧
    let run := l_runID (LoginMsg k) in
    let h := match ctlsByRunID s !! run with
             | Some o => alter (on_ctl Replaced) o (heap s)
             | None => heap s
             end in
    s' = mkService (<[next s := mkSession k (LWaitClosed (ctlsByRunID s !! run)) WIdle]> h) (S (next s))
           (<[run := next s]> (ctlsByRunID s)) (clientRegistry s) (clientCount s).
Proof.
  intros Hrnd. unfold RegisterControl_add. fold (run_of rnd m).
  destruct (run_of rnd m) as [m'|] eqn:Hm; [|intros [= <- <-]; auto].
  destruct auth; simpl; [|intros [= <- <-]; auto].
  destruct (NewControl _ _ _) as [k|] eqn:Hk; [|intros [= <- <-]; auto].
  apply NewControl_Some in Hk as [<- Hk]. unfold cm_Add. intros Ha. right. exists k.
  assert (l_runID (LoginMsg k) ≠ "") as Hne.
  { unfold run_of in Hm. destruct (String.eqb_spec (l_runID m) "") as [_|]; [|congruence].
    destruct rnd as [r|]; simplify_eq/=. rewrite <- Hm. simpl. congruence. }
  destruct (ctlsByRunID s !! l_runID (LoginMsg k)) as [o|] eqn:Ho; simplify_eq/=; by split_and!.
Qed.

Lemma sessions_ok_new rnd auth maxPool pool s m :
  rnd ≠ Some "" → sessions_ok s → sessions_ok (RegisterControl_add rnd auth maxPool pool s m).1.
Proof.
  intros Hrnd Hs. destruct (RegisterControl_add _ _ _ _ _ _) as [s' a] eqn:Ha. simpl.
  apply RegisterControl_cases in Ha as [[-> _]|(k & _ & _ & Hne & _ & Hk & ->)]; [done| |done].
  destruct (ctlsByRunID s !! l_runID (LoginMsg k)) as [o|] eqn:Ho.
  - pose proof (sessions_ok_retire _ _ _ Hs Ho) as Hs1.
    apply (sessions_ok_admit _ k (Some o)) in Hs1; [|done..|].
    + simpl in Hs1. by rewrite insert_delete_eq in Hs1.
    + intros ? [= <-]. simpl. destruct (s_current _ Hs _ _ Ho) as (eo & Heo & _).
      rewrite lookup_alter_eq, Heo. eexists. split; [done|]. apply replaced_Replaced.
  - by apply sessions_ok_admit.
Qed.

Lemma sessions_ok_New : sessions_ok NewService.
Proof. constructor; simpl; try done. intros c [e H]. done. Qed.

Lemma sessions_ok_step s s' : sessions_ok s → step s s' → sessions_ok s'.
Proof.
  intros Hs Hst. destruct Hst.
  - by apply sessions_ok_new.
  - by eapply sessions_ok_login.
  - by eapply sessions_ok_worker.
  - by apply sessions_ok_heartbeat.
  - by apply sessions_ok_Close.
Qed.

Lemma sessions_ok_reachable s : reachable s → sessions_ok s.
Proof. intros Hr. eapply (rtc_invariant step); [apply sessions_ok_step|exact Hr|apply sessions_ok_New]. Qed.

(** ** No login waits forever *)

(** The worker of [c] alone makes its moves. *)
Definition worker_of (now : Z) (c : nat) (s s' : Service) : Prop := worker_step now s c = Some s'.

Definition remaining (w : worker_pc) : nat :=
  match w with
  | WIdle | WEnd => 0 | WRun => 5 | WCleanup => 4 | WCloseClient => 3 | WMark _ => 2 | WCloseDone => 1
  end.

Lemma worker_moves now s c e :
  heap s !! c = Some e → wpc e ≠ WIdle → wpc e ≠ WEnd →
  ∃ s' e', worker_of now c s s' ∧ heap s' = <[c := e']> (heap s) ∧ lpc e' = lpc e ∧
    wpc e' ≠ WIdle ∧ (remaining (wpc e') < remaining (wpc e))%nat.
Proof.
  intros Hc. unfold worker_of, worker_step. rewrite Hc. destruct e as [k l w]. simpl.
  destruct w; try done; intros _ _; (eexists _, _; split_and!; [done..|simpl; lia]).
Qed.

Lemma worker_finishes now n s c e :
  sessions_ok s → heap s !! c = Some e → wpc e ≠ WIdle → (remaining (wpc e) < n)%nat →
  ∃ s' e', rtc (worker_of now c) s s' ∧ sessions_ok s' ∧ heap s' = <[c := e']> (heap s) ∧
    lpc e' = lpc e ∧ doneCh (ctl e') = true.
Proof.
  revert s e. induction n as [|n IH]; intros s e Hs Hc Hw Hn; [lia|].
  destruct (decide (wpc e = WEnd)) as [He|He].
  { exists s, e. split_and!; [done..|by rewrite insert_id| done|].
    apply (ok_done _ (s_each _ Hs _ _ Hc)). by left. }
  destruct (worker_moves now s c e Hc Hw He) as (s1 & e1 & Hst & Hh & Hl & Hw1 & Hlt).
  destruct (IH s1 e1) as (s' & e' & Hr & Hs' & Hh' & Hl' & Hd).
  - by eapply sessions_ok_worker.
  - by rewrite Hh, lookup_insert_eq.
  - done.
  - lia.
  - exists s', e'. split_and!; [by eapply rtc_l|done| |congruence|done].
    by rewrite Hh', Hh, insert_insert_eq.
Qed.

(** A control that has been replaced or started will be done. *)
Lemma eventually_done now s c e :
  sessions_ok s → heap s !! c = Some e → started (ctl e) = true ∨ replaced (ctl e) = true →
  ∃ s' e', rtc (worker_of now c) s s' ∧ heap s' = <[c := e']> (heap s) ∧ lpc e' = lpc e ∧
    doneCh (ctl e') = true.
Proof.
  intros Hs Hc Hor. pose proof (s_each _ Hs _ _ Hc) as Hok.
  destruct (decide (wpc e = WIdle)) as [Hw|Hw].
  - destruct e as [k l w]. destruct (session_ok_idle _ _ _ Hok Hw) as (Hst & Hd & _). simpl in *.
    exists s, (mkSession k l w). split_and!; [done|by rewrite insert_id|done|].
    simpl. rewrite Hd. destruct Hor; congruence.
  - destruct (worker_finishes now (S (remaining (wpc e))) s c e) as (s' & e' & ? & _ & ? & ? & ?);
      [done..|lia|]. eauto 10.
Qed.

(** C5. No login is stuck. In every reachable state, whatever overtook it, a
    login that has not ended can make its next move, at the latest after the
    worker of one control (the one it waits for) has made the moves it has
    left: there is never a login that waits for a control that has no worker
    to release it. *)
Theorem no_login_stuck (now : Z) (ok : bool) (s : Service) (c : nat) (e : Session) :
  reachable s → heap s !! c = Some e → lpc e ≠ LEnd →
  ∃ o s', rtc (worker_of now o) s s' ∧ is_Some (login_step now ok s' c).
Proof.
  intros Hs%sessions_ok_reachable Hc Hl. pose proof (s_each _ Hs _ _ Hc) as Hok.
  assert (∀ s' e', heap s' !! c = Some e' → lpc e' = lpc e →
    (∀ o, lpc e = LWaitClosed (Some o) → is_done s' o = true) →
    (lpc e = LAwait → doneCh (ctl e') = true) → is_Some (login_step now ok s' c)) as Hgo.
  { intros s' e' Hc' He' Hold Hown. unfold login_step. rewrite Hc', He'.
    destruct (lpc e) as [[o|]| | | | | | | |]; try done; simpl; try by destruct (Start _).
    - rewrite (Hold o eq_refl). by destruct (Register _ _ _) as [? [? ?]].
    - by destruct (Register _ _ _) as [? [? ?]].
    - by rewrite Hown. }
  destruct (lpc e) as [[o|]| | | | | | | |] eqn:Hle; try done.
  all: try (exists c, s; split; [done|]; eapply Hgo; [done..| |]; congruence).
  - destruct (s_waits _ Hs _ _ _ Hc Hle) as (eo & Ho & Hrep).
    destruct (eventually_done now s o eo) as (s' & e' & Hr & Hh & Hle' & Hd); [done..|by right|].
    exists o, s'. split; [done|]. destruct (decide (o = c)) as [->|Hne].
    + simplify_eq. apply (Hgo s' e'); rewrite ?Hh, ?lookup_insert_eq; try done; [congruence|].
      intros ? [= <-]. unfold is_done. by rewrite Hh, lookup_insert_eq.
    + apply (Hgo s' e); rewrite ?Hh, ?lookup_insert_ne by done; try done.
      intros ? [= <-]. unfold is_done. by rewrite Hh, lookup_insert_eq.
  - destruct (eventually_done now s c e) as (s' & e' & Hr & Hh & Hle' & Hd); [done..| |].
    { apply (ok_past _ Hok). by right. }
    exists c, s'. split; [done|]. apply (Hgo s' e'); rewrite ?Hh, ?lookup_insert_eq; try done. congruence.
Qed.

(** ** Sessions and the registry *)

(** The run ids in the registry's index after each of its operations. *)
Lemma index_offline cr now r run :
  runIndex (MarkOfflineByRunID cr now r) !! run = if decide (run = r) then None else runIndex cr !! run.
Proof.
  unfold MarkOfflineByRunID. destruct (runIndex cr !! r) as [k|] eqn:Hr; simpl.
  - case_decide; subst; [by rewrite lookup_delete_eq|by rewrite lookup_delete_ne].
  - by case_decide; subst.
Qed.

Definition active (w : worker_pc) : bool :=
  match w with WIdle | WEnd => false | _ => true end.

(** The session has registered its client, and not yet marked it offline. *)
Definition registered (e : Session) : bool :=
  match lpc e with
  | LRespond | LFailDel | LStart => true
  | _ => match wpc e with WRun | WCleanup | WCloseClient | WMark _ => true | _ => false end
  end.

(** The session was refused, or has marked its client offline. *)
Definition gone (e : Session) : bool :=
  match lpc e with
  | LConflict => true
  | _ => match wpc e with WCloseDone | WEnd => true | _ => false end
  end.

Section Calm.
(** The clients of a server: a run id belongs to one client, and of two
    clients that share a registry key both have an explicit id. *)
Variable client : Login → Prop.
Hypothesis client_key : ∀ m m', client m → client m' → l_runID m = l_runID m' → login_key m = login_key m'.
Hypothesis client_id : ∀ m m', client m → client m' → login_key m = login_key m' →
  l_runID m ≠ l_runID m' → l_rawClientID m ≠ "".

(** The steps of a server that keeps running and in which no login overtakes
    another of the same run id. *)
Inductive calm_step : Service → Service → Prop :=
| calm_new rnd auth maxPool pool s m m' :
    rnd ≠ Some "" → run_of rnd m = Some m' → client m' →
    (∀ c e, heap s !! c = Some e → session_run e = l_runID m' → unfinished (lpc e) = false) →
    calm_step s (RegisterControl_add rnd auth maxPool pool s m).1
| calm_login now ok s c s' : login_step now ok s c = Some s' → calm_step s s'
| calm_worker now s c s' : worker_step now s c = Some s' → calm_step s s'
| calm_heartbeat s c : calm_step s (heartbeat_timeout s c).

Lemma calm_step_step s s' : calm_step s s' → step s s'.
Proof. destruct 1; by econstructor. Qed.

(** What holds of the sessions of one run id: who is current, whom a retired
    worker is awaited by, and what the index says. *)
Record run_ok (run : string) (s : Service) : Prop := {
  r_unf : ∀ c e, heap s !! c = Some e → session_run e = run → unfinished (lpc e) = true →
    ctlsByRunID s !! run = match lpc e with LFailOffline => None | _ => Some c end;
  r_act : ∀ c e, heap s !! c = Some e → session_run e = run → active (wpc e) = true →
    if replaced (ctl e)
    then ∃ c' e', ctlsByRunID s !! run = Some c' ∧ heap s !! c' = Some e' ∧ session_run e' = run ∧
                  lpc e' = LWaitClosed (Some c)
    else ctlsByRunID s !! run = Some c;
  r_on : ∀ c e, ctlsByRunID s !! run = Some c → heap s !! c = Some e → session_run e = run →
    registered e = true → runIndex (clientRegistry s) !! run = Some (login_key (LoginMsg (ctl e)));
  r_off : ∀ c e, ctlsByRunID s !! run = Some c → heap s !! c = Some e → session_run e = run →
    gone e = true → runIndex (clientRegistry s) !! run = None;
  r_in : ∀ k, runIndex (clientRegistry s) !! run = Some k →
    is_Some (ctlsByRunID s !! run) ∨
    ∃ c e, heap s !! c = Some e ∧ session_run e = run ∧ lpc e = LFailOffline;
  r_key : ∀ k, runIndex (clientRegistry s) !! run = Some k →
    ∃ m, client m ∧ l_runID m = run ∧ login_key m = k
}.

Record calm (s : Service) : Prop := {
  k_ok : sessions_ok s;
  k_reg : reg_inv (clientRegistry s);
  k_client : ∀ c e, heap s !! c = Some e → client (LoginMsg (ctl e));
  k_run : ∀ run, run_ok run s
}.

(** Steps of one run id leave the others alone. *)
Lemma run_ok_frame run s s' :
  run_ok run s →
  (∀ c e, session_run e = run → heap s' !! c = Some e ↔ heap s !! c = Some e) →
  ctlsByRunID s' !! run = ctlsByRunID s !! run →
  runIndex (clientRegistry s') !! run = runIndex (clientRegistry s) !! run →
  run_ok run s'.
Proof.
  intros [Hu Ha Hon Hoff Hin Hk] Hh Hcm Hidx. constructor; rewrite ?Hcm, ?Hidx.
  - intros c e Hc Hr. apply Hu; [by apply Hh|done].
  - intros c e Hc Hr Hact. apply Hh in Hc; [|done]. specialize (Ha c e Hc Hr Hact). destruct (replaced (ctl e)); [|done].
    destruct Ha as (c' & e' & H1 & H2 & H3 & H4). exists c', e'. split_and!; [congruence|by apply Hh|done..].
  - intros c e Hc He Hr. apply (Hon c); [done|by apply Hh|done].
  - intros c e Hc He Hr. apply (Hoff c e); [done|by apply Hh|done].
  - intros k [?|(c & e & Hc & Hr & Hl)]%Hin; [by left|]. right. exists c, e. split; [by apply Hh|done].
  - done.
Qed.

Lemma heap_set_frame run s c e e' :
  heap s !! c = Some e → session_run e ≠ run → session_run e' ≠ run →
  ∀ c1 e1, session_run e1 = run → <[c := e']> (heap s) !! c1 = Some e1 ↔ heap s !! c1 = Some e1.
Proof.
  intros Hc Hne Hne' c1 e1 Hr. destruct (decide (c1 = c)) as [->|]; [|by rewrite lookup_insert_ne].
  rewrite lookup_insert_eq, Hc. split; intros [= ->]; done.
Qed.

(** *** The kinds of steps of a thread, for its own run id *)

(** Neither the table of controls nor the index changes. *)
Lemma run_ok_quiet s s' c e e' :
  sessions_ok s → run_ok (session_run e) s → heap s !! c = Some e → heap s' = <[c := e']> (heap s) →
  LoginMsg (ctl e') = LoginMsg (ctl e) → replaced (ctl e') = replaced (ctl e) →
  ctlsByRunID s' !! session_run e = ctlsByRunID s !! session_run e →
  runIndex (clientRegistry s') !! session_run e = runIndex (clientRegistry s) !! session_run e →
  (unfinished (lpc e') = true →
     ctlsByRunID s !! session_run e = match lpc e' with LFailOffline => None | _ => Some c end) →
  (active (wpc e') = true → active (wpc e) = true ∨
     replaced (ctl e) = false ∧ ctlsByRunID s !! session_run e = Some c) →
  (∀ o eo, lpc e = LWaitClosed (Some o) → heap s !! o = Some eo → active (wpc eo) = true → lpc e' = lpc e) →
  (registered e' = true → registered e = true) →
  (ctlsByRunID s !! session_run e = Some c → gone e' = true →
     gone e = true ∨ runIndex (clientRegistry s) !! session_run e = None) →
  (lpc e = LFailOffline → lpc e' = LFailOffline) →
  run_ok (session_run e) s'.
Proof.
  intros Hs [Hu Ha Hon Hoff Hin Hk] Hc Hh Hm Hrep Hcm Hidx Cunf Cact Cwait Creg Cgone Cfail.
  assert (session_run e' = session_run e) as Hrun by (unfold session_run; by rewrite Hm).
  assert (∀ c1 e1, heap s' !! c1 = Some e1 → c1 = c ∧ e1 = e' ∨ c1 ≠ c ∧ heap s !! c1 = Some e1) as Hl.
  { intros c1 e1. rewrite Hh, lookup_insert_Some. naive_solver. }
  assert (heap s' !! c = Some e') as Hc' by by rewrite Hh, lookup_insert_eq.
  constructor; rewrite ?Hcm, ?Hidx.
  - intros c1 e1 [[-> ->]|[_ H1]]%Hl Hr Hf; [by apply Cunf|by apply Hu].
  - assert (∀ c1 e1, heap s !! c1 = Some e1 → session_run e1 = session_run e → active (wpc e1) = true →
      replaced (ctl e1) = true → ∃ c' e'', ctlsByRunID s !! session_run e = Some c' ∧
        heap s' !! c' = Some e'' ∧ session_run e'' = session_run e ∧ lpc e'' = LWaitClosed (Some c1)) as Hrp.
    { intros c1 e1 H1 Hr Hf Hp. specialize (Ha c1 e1 H1 Hr Hf). rewrite Hp in Ha.
      destruct Ha as (c' & e2 & ? & H2 & Hr2 & Hl2). destruct (decide (c' = c)) as [->|Hne].
      - simplify_eq. exists c, e'. split_and!; [done..|]. rewrite <- Hl2. by eapply Cwait.
      - exists c', e2. split_and!; try done. by rewrite Hh, lookup_insert_ne. }
    intros c1 e1 [[-> ->]|[_ H1]]%Hl Hr Hf.
    + rewrite Hrep. destruct (Cact Hf) as [Hf'|[-> ?]]; [|done].
      specialize (Ha c e Hc eq_refl Hf'). destruct (replaced (ctl e)) eqn:Hp; [by eapply Hrp|done].
    + specialize (Ha c1 e1 H1 Hr Hf). destruct (replaced (ctl e1)) eqn:Hp; [by eapply Hrp|done].
  - intros c1 e1 Hc1 [[-> ->]|[_ H1]]%Hl Hr Hf; [rewrite Hm; apply (Hon c); auto|by eapply Hon].
  - intros c1 e1 Hc1 [[-> ->]|[_ H1]]%Hl Hr Hf; [|by eapply Hoff].
    destruct (Cgone Hc1 Hf); [by eapply (Hoff c)|done].
  - intros k [?|(c1 & e1 & H1 & Hr & Hf)]%Hin; [by left|]. right.
    destruct (decide (c1 = c)) as [->|Hne]; [simplify_eq; exists c, e'; auto|].
    exists c1, e1. by rewrite Hh, lookup_insert_ne.
  - done.
Qed.

(** [c], the current control, leaves the table. *)
Lemma run_ok_leave s s' c e e' :
  sessions_ok s → run_ok (session_run e) s → heap s !! c = Some e → heap s' = <[c := e']> (heap s) →
  LoginMsg (ctl e') = LoginMsg (ctl e) →
  ctlsByRunID s !! session_run e = Some c → ctlsByRunID s' !! session_run e = None →
  runIndex (clientRegistry s') !! session_run e = runIndex (clientRegistry s) !! session_run e →
  (∀ o, lpc e ≠ LWaitClosed o) → active (wpc e') = false →
  lpc e' = LFailOffline ∨ (lpc e' = LEnd ∧ gone e = true) →
  run_ok (session_run e) s'.
Proof.
  intros Hs [Hu Ha Hon Hoff Hin Hk] Hc Hh Hm Hcm Hcm' Hidx Hnw Hna Hlpc.
  assert (session_run e' = session_run e) as Hrun by (unfold session_run; by rewrite Hm).
  assert (∀ c1 e1, heap s' !! c1 = Some e1 → c1 = c ∧ e1 = e' ∨ c1 ≠ c ∧ heap s !! c1 = Some e1) as Hl.
  { intros c1 e1. rewrite Hh, lookup_insert_Some. naive_solver. }
  constructor; rewrite ?Hcm', ?Hidx; try done.
  - intros c1 e1 [[-> ->]|[Hne H1]]%Hl Hr Hf; [by destruct Hlpc as [H|[H _]]; rewrite H in *|].
    specialize (Hu c1 e1 H1 Hr Hf). rewrite Hcm in Hu. destruct (lpc e1); simplify_eq.
  - intros c1 e1 [[-> ->]|[Hne H1]]%Hl Hr Hf; [congruence|]. exfalso.
    specialize (Ha c1 e1 H1 Hr Hf). destruct (replaced (ctl e1)); [|congruence].
    destruct Ha as (c' & e2 & Hc2 & H2 & _ & Hl2). simplify_eq. by eapply Hnw.
  - intros k Hk'. right. exists c, e'. rewrite Hh, lookup_insert_eq. split_and!; [done..|].
    destruct Hlpc as [|[_ Hg]]; [done|]. specialize (Hoff c e Hcm Hc eq_refl Hg). congruence.
Qed.

(** The run id leaves the index. *)
Lemma run_ok_unindex s s' c e e' :
  sessions_ok s → run_ok (session_run e) s → heap s !! c = Some e → heap s' = <[c := e']> (heap s) →
  LoginMsg (ctl e') = LoginMsg (ctl e) → replaced (ctl e') = replaced (ctl e) →
  ctlsByRunID s' !! session_run e = ctlsByRunID s !! session_run e →
  runIndex (clientRegistry s') !! session_run e = None →
  (lpc e = LFailOffline ∧ lpc e' = LEnd ∧ wpc e = WIdle ∧ wpc e' = WIdle) ∨
  (active (wpc e) = true ∧ active (wpc e') = true ∧ lpc e' = lpc e ∧ registered e' = false) →
  run_ok (session_run e) s'.
Proof.
  intros Hs [Hu Ha Hon Hoff Hin Hk] Hc Hh Hm Hrep Hcm Hidx Hor.
  assert (session_run e' = session_run e) as Hrun by (unfold session_run; by rewrite Hm).
  assert (∀ c1 e1, heap s' !! c1 = Some e1 → c1 = c ∧ e1 = e' ∨ c1 ≠ c ∧ heap s !! c1 = Some e1) as Hl.
  { intros c1 e1. rewrite Hh, lookup_insert_Some. naive_solver. }
  assert (∀ c1, (∃ c' e2, ctlsByRunID s !! session_run e = Some c' ∧ heap s !! c' = Some e2 ∧
      session_run e2 = session_run e ∧ lpc e2 = LWaitClosed (Some c1)) →
    ∃ c' e2, ctlsByRunID s !! session_run e = Some c' ∧ heap s' !! c' = Some e2 ∧
      session_run e2 = session_run e ∧ lpc e2 = LWaitClosed (Some c1)) as Hw.
  { intros c1 (c' & e2 & Hcm2 & H2 & Hr2 & Hl2). destruct (decide (c' = c)) as [->|Hne].
    - simplify_eq. destruct Hor as [(? & _)|(_ & _ & He & _)]; [congruence|].
      exists c, e'. rewrite Hh, lookup_insert_eq. split_and!; congruence.
    - exists c', e2. by rewrite Hh, lookup_insert_ne. }
  constructor; rewrite ?Hcm, ?Hidx; try done.
  - intros c1 e1 [[-> ->]|[Hne H1]]%Hl Hr Hf; [|by apply Hu].
    destruct Hor as [(_ & He & _)|(_ & _ & He & _)]; [by rewrite He in Hf|].
    rewrite He in *. by apply (Hu c e).
  - intros c1 e1 [[-> ->]|[Hne H1]]%Hl Hr Hf.
    + destruct Hor as [(_ & _ & _ & He)|(Hact & _)]; [by rewrite He in Hf|].
      specialize (Ha c e Hc eq_refl Hact). rewrite Hrep. destruct (replaced (ctl e)); auto.
    + specialize (Ha c1 e1 H1 Hr Hf). destruct (replaced (ctl e1)); auto.
  - intros c1 e1 Hc1 [[-> ->]|[Hne H1]]%Hl Hr Hf; exfalso.
    + destruct Hor as [(_ & He & _ & He')|(_ & _ & _ & He)]; [|congruence].
      unfold registered in Hf. by rewrite He, He' in Hf.
    + destruct Hor as [(He & _ & _)|(Hact & _ & _)].
      * assert (unfinished (lpc e) = true) as Hf' by by rewrite He.
        specialize (Hu c e Hc eq_refl Hf'). rewrite He in Hu. congruence.
      * specialize (Ha c e Hc eq_refl Hact). destruct (replaced (ctl e)); [|congruence].
        destruct Ha as (c' & e2 & ? & H2 & _ & Hl2). simplify_eq.
        destruct e2 as [k2 l2 w2]. simpl in Hl2. subst l2.
        pose proof (session_ok_unfinished _ _ _ (s_each _ Hs _ _ H2) eq_refl) as ->. done.
Qed.

(** The run id enters the index. *)
Lemma run_ok_index s s' c e e' :
  sessions_ok s → run_ok (session_run e) s → heap s !! c = Some e → heap s' = <[c := e']> (heap s) →
  LoginMsg (ctl e') = LoginMsg (ctl e) → client (LoginMsg (ctl e)) →
  (∀ o eo, lpc e = LWaitClosed (Some o) → heap s !! o = Some eo → active (wpc eo) = false) →
  ctlsByRunID s' !! session_run e = ctlsByRunID s !! session_run e →
  runIndex (clientRegistry s') !! session_run e = Some (login_key (LoginMsg (ctl e))) →
  (∃ old, lpc e = LWaitClosed old) → lpc e' = LRespond → wpc e' = WIdle →
  run_ok (session_run e) s'.
Proof.
  intros Hs [Hu Ha Hon Hoff Hin Hk] Hc Hh Hm Hcl Hwait Hcm Hidx [old Hold] Hl' Hw'.
  assert (session_run e' = session_run e) as Hrun by (unfold session_run; by rewrite Hm).
  assert (∀ c1 e1, heap s' !! c1 = Some e1 → c1 = c ∧ e1 = e' ∨ c1 ≠ c ∧ heap s !! c1 = Some e1) as Hl.
  { intros c1 e1. rewrite Hh, lookup_insert_Some. naive_solver. }
  assert (ctlsByRunID s !! session_run e = Some c) as Hcur.
  { specialize (Hu c e Hc eq_refl). rewrite Hold in Hu. by apply Hu. }
  constructor; rewrite ?Hcm, ?Hidx; try done.
  - intros c1 e1 [[-> ->]|[Hne H1]]%Hl Hr Hf; [by rewrite Hl'|by apply Hu].
  - intros c1 e1 [[-> ->]|[Hne H1]]%Hl Hr Hf; [by rewrite Hw' in Hf|]. exfalso.
    specialize (Ha c1 e1 H1 Hr Hf). destruct (replaced (ctl e1)); [|congruence].
    destruct Ha as (c' & e2 & ? & H2 & _ & Hl2). simplify_eq.
    specialize (Hwait c1 e1 Hl2 H1). congruence.
  - intros c1 e1 Hc1 [[-> ->]|[Hne H1]]%Hl Hr Hf; [by rewrite Hm|congruence].
  - intros c1 e1 Hc1 [[-> ->]|[Hne H1]]%Hl Hr Hf; [|congruence].
    unfold gone in Hf. by rewrite Hl', Hw' in Hf.
  - intros k _. left. rewrite Hcur. eauto.
  - intros k [= <-]. eauto.
Qed.

(** *** The threads keep a calm server calm *)

Lemma calm_thread s s' c e e' :
  calm s → heap s !! c = Some e → heap s' = <[c := e']> (heap s) → LoginMsg (ctl e') = LoginMsg (ctl e) →
  sessions_ok s' → reg_inv (clientRegistry s') →
  (∀ run, run ≠ session_run e → ctlsByRunID s' !! run = ctlsByRunID s !! run ∧
     runIndex (clientRegistry s') !! run = runIndex (clientRegistry s) !! run) →
  run_ok (session_run e) s' → calm s'.
Proof.
  intros [Hs Hreg Hcl Hrun] Hc Hh Hm Hs' Hreg' Hfr Hok. constructor; [done..| |].
  - intros c1 e1. rewrite Hh, lookup_insert_Some. intros [[<- <-]|[_ H1]]; [rewrite Hm|]; eauto.
  - intros run. destruct (decide (run = session_run e)) as [->|Hne]; [done|].
    destruct (Hfr run Hne) as [Hcm Hidx]. apply (run_ok_frame run s); try done. rewrite Hh.
    eapply heap_set_frame; [done|congruence|]. unfold session_run. rewrite Hm. by apply not_eq_sym.
Qed.

Lemma cm_Del_frame s run c run' :
  run' ≠ run → ctlsByRunID (cm_Del s run c) !! run' = ctlsByRunID s !! run'.
Proof. intros Hne. unfold cm_Del. case_bool_decide; [|done]. simpl. by rewrite lookup_delete_ne. Qed.

Lemma reg_cm_Del s run c : clientRegistry (cm_Del s run c) = clientRegistry s.
Proof. unfold cm_Del. by case_bool_decide. Qed.

Lemma index_frame_offline cr now r run :
  reg_inv cr → run ≠ r ∨ r = "" → runIndex (MarkOfflineByRunID cr now r) !! run = runIndex cr !! run.
Proof.
  intros [Hok Hidx] Hor. rewrite index_offline. case_decide; [|done]. subst.
  destruct Hor as [|Hr]; [done|]. rewrite Hr. symmetry. apply eq_None_not_Some. intros [k Hk].
  by eapply indexed_run_empty.
Qed.

(** What [Register] does to the index on behalf of a client. *)
Lemma register_index s now m cr key conflict :
  calm s → client m → l_runID m ≠ "" → Register (clientRegistry s) now m = (cr, (key, conflict)) →
  reg_inv cr ∧
  if conflict then cr = clientRegistry s ∧ runIndex cr !! l_runID m = None
  else runIndex cr !! l_runID m = Some (login_key m) ∧
       ∀ run, run ≠ l_runID m → runIndex cr !! run = runIndex (clientRegistry s) !! run.
Proof.
  intros [Hs Hreg Hcl Hrun] Hm Hne Hr.
  assert (∀ k, runIndex (clientRegistry s) !! l_runID m = Some k → k = login_key m) as Hfresh.
  { intros k Hk. destruct (r_key _ _ (Hrun _) k Hk) as (m' & Hm' & Hrm & <-). by apply client_key. }
  split; [by eapply reg_inv_step; [|by eapply fresh_register]|].
  destruct Hreg as [Hok Hidx]. revert Hr. unfold Register. rewrite (proj2 (String.eqb_neq _ _) Hne).
  destruct (clients (clientRegistry s) !! login_key m) as [info|] eqn:Hi.
  - destruct (conflicts m info) eqn:Hconf.
    + intros [= <- _ <-]. split; [done|]. apply eq_None_not_Some. intros [k Hk].
      pose proof (Hfresh k Hk) as ->. apply Hidx in Hk as (i & Hi' & _ & Hri). simplify_eq.
      unfold conflicts in Hconf. rewrite Hri, String.eqb_refl, andb_false_r in Hconf. done.
    + intros [= <- _ <-]. simpl. split; [by rewrite lookup_insert_eq|]. intros run Hrn.
      rewrite lookup_insert_ne by done. destruct (String.eqb_spec (RunID info) "") as [|Hri]; [done|].
      destruct (decide (RunID info = run)) as [<-|]; [|by rewrite lookup_delete_ne]. exfalso.
      destruct (Hok _ _ Hi) as [_ Hon _]. apply Hon in Hri as Hon'.
      assert (runIndex (clientRegistry s) !! RunID info = Some (login_key m)) as Hk.
      { apply Hidx. eauto. }
      destruct (r_key _ _ (Hrun _) _ Hk) as (m' & Hm' & Hrm & Hkm).
      assert (l_rawClientID m ≠ "") as Hid by (apply (client_id m m'); congruence).
      unfold conflicts in Hconf. rewrite Hon' in Hconf.
      apply String.eqb_neq in Hid, Hri. rewrite Hid, Hri in Hconf. simpl in Hconf.
      apply negb_false_iff, String.eqb_eq in Hconf. done.
  - intros [= <- _ <-]. simpl. split; [by rewrite lookup_insert_eq|]. intros run Hrn.
    by rewrite lookup_insert_ne.
Qed.

(** What a retired control's done channel means for its worker. *)
Lemma done_inactive s c e :
  sessions_ok s → heap s !! c = Some e → doneCh (ctl e) = true → active (wpc e) = false.
Proof.
  intros Hs Hc Hd. pose proof (s_each _ Hs _ _ Hc) as Hok.
  apply (ok_done _ Hok) in Hd as [->|[Hst _]]; [done|]. destruct (wpc e) eqn:Hw; try done.
  all: assert (started (ctl e) = true) by (apply (ok_started _ Hok); congruence); congruence.
Qed.

Lemma calm_register now s c k old w cr key conflict :
  calm s → heap s !! c = Some (mkSession k (LWaitClosed old) w) →
  (match old with Some o => is_done s o | None => true end) = true →
  Register (clientRegistry s) now (LoginMsg k) = (cr, (key, conflict)) →
  let s' := set_session (set_reg s cr) c (mkSession k (if conflict : bool then LConflict else LRespond) w) in
  sessions_ok s' → calm s'.
Proof.
  intros Hs Hc Hold Hr s' Hs'. set (e := mkSession k (LWaitClosed old) w) in *.
  pose proof (s_each _ (k_ok _ Hs) _ _ Hc) as Hok.
  pose proof (session_ok_unfinished _ _ _ Hok eq_refl) as Hw.
  destruct (register_index s now (LoginMsg k) cr key conflict) as [Hreg Hidx];
    [done|apply (k_client _ Hs _ _ Hc)|apply (ok_run _ Hok)|done|].
  assert (∀ o eo, lpc e = LWaitClosed (Some o) → heap s !! o = Some eo → active (wpc eo) = false) as Hwait.
  { intros o eo He Ho. injection He as ->. unfold is_done in Hold. rewrite Ho in Hold.
    by eapply done_inactive; [apply (k_ok _ Hs)|..]. }
  destruct conflict.
  - destruct Hidx as [-> Hnone].
    apply (calm_thread s s' c e (mkSession k LConflict w)); try done.
    apply (run_ok_quiet s s' c e (mkSession k LConflict w)); try done; simpl; auto.
    + apply (k_ok _ Hs).
    + apply (k_run _ Hs).
    + intros _. apply (r_unf _ _ (k_run _ Hs (session_run e)) c e); done.
    + intros o eo He Ho Ha. rewrite (Hwait o eo) in Ha; done.
  - destruct Hidx as [Hin Hfr].
    apply (calm_thread s s' c e (mkSession k LRespond w)); try done.
    { intros run Hne. split; [done|]. by apply Hfr. }
    apply (run_ok_index s s' c e (mkSession k LRespond w)); try done; simpl; eauto.
    + apply (k_ok _ Hs).
    + apply (k_run _ Hs).
    + apply (k_client _ Hs _ _ Hc).
Qed.

(** Steps that touch neither the table nor the index. *)
Lemma calm_quiet s s' c e e' :
  calm s → heap s !! c = Some e → heap s' = <[c := e']> (heap s) → sessions_ok s' →
  ctlsByRunID s' = ctlsByRunID s → clientRegistry s' = clientRegistry s →
  LoginMsg (ctl e') = LoginMsg (ctl e) → replaced (ctl e') = replaced (ctl e) →
  (unfinished (lpc e') = true → unfinished (lpc e) = true ∧ lpc e ≠ LFailOffline ∧ lpc e' ≠ LFailOffline ∨
                                lpc e' = lpc e) →
  (active (wpc e') = true → active (wpc e) = true ∨ lpc e = LStart ∧ replaced (ctl e) = false) →
  (∀ o, lpc e = LWaitClosed (Some o) → lpc e' = lpc e) →
  (registered e' = true → registered e = true) →
  (gone e' = true → gone e = true ∨ replaced (ctl e) = true) → (lpc e = LFailOffline → lpc e' = LFailOffline) →
  calm s'.
Proof.
  intros Hs Hc Hh Hs' Hcm Hreg Hm Hrep Cunf Cact Cwait Creg Cgone Cfail.
  pose proof (k_run _ Hs (session_run e)) as Hr.
  apply (calm_thread s s' c e e'); try done.
  { rewrite Hreg. apply (k_reg _ Hs). }
  { intros run _. by rewrite Hcm, Hreg. }
  apply (run_ok_quiet s s' c e e'); rewrite ?Hcm, ?Hreg; auto.
  - apply (k_ok _ Hs).
  - intros Hf. destruct (Cunf Hf) as [(Hf' & Hne & Hne')|Heq].
    + rewrite (r_unf _ _ Hr c e Hc eq_refl Hf'). by destruct (lpc e), (lpc e').
    + rewrite Heq in *. by apply (r_unf _ _ Hr c e).
  - intros Ha. destruct (Cact Ha) as [|[Hl Hp]]; [by left|]. right. split; [done|].
    rewrite (r_unf _ _ Hr c e Hc eq_refl); by rewrite Hl.
  - intros o eo Hl _ _. by eapply Cwait.
  - intros Hcur Hg. destruct (Cgone Hg) as [|Hp]; [by left|].
    destruct (s_current _ (k_ok _ Hs) _ _ Hcur) as (e0 & He0 & _ & Hp0). congruence.
Qed.

(** Steps in which the control may leave the table. *)
Lemma calm_leave s c e k l w :
  let s' := set_session (cm_Del s (session_run e) c) c (mkSession k l w) in
  calm s → heap s !! c = Some e → sessions_ok s' → LoginMsg k = LoginMsg (ctl e) →
  replaced k = replaced (ctl e) → w = wpc e →
  (lpc e = LFailDel ∧ l = LFailOffline) ∨ (lpc e = LConflict ∧ l = LEnd) ∨
  (lpc e = LAwait ∧ l = LEnd ∧ doneCh (ctl e) = true) →
  calm s'.
Proof.
  intros s' Hs Hc Hs' Hm Hrep -> Hor. pose proof (s_each _ (k_ok _ Hs) _ _ Hc) as Hok.
  pose proof (k_run _ Hs (session_run e)) as Hr.
  assert (active (wpc e) = false) as Hna.
  { destruct Hor as [[Hl _]|[[Hl _]|(_ & _ & Hd)]]; [| |by eapply done_inactive; [apply (k_ok _ Hs)|..]].
    all: destruct e as [k0 l0 w0]; simpl in *; subst l0.
    all: by rewrite (session_ok_unfinished _ _ _ Hok eq_refl). }
  apply (calm_thread s s' c e (mkSession k l (wpc e))); try done.
  { simpl. by rewrite heap_cm_Del. }
  { simpl. rewrite reg_cm_Del. apply (k_reg _ Hs). }
  { intros run Hne. simpl. by rewrite reg_cm_Del, cm_Del_frame. }
  destruct (decide (ctlsByRunID s !! session_run e = Some c)) as [Hcur|Hcur].
  - apply (run_ok_leave s s' c e (mkSession k l (wpc e))); simpl; rewrite ?heap_cm_Del, ?reg_cm_Del; try done.
    + apply (k_ok _ Hs).
    + unfold cm_Del. rewrite bool_decide_eq_true_2 by done. simpl. by rewrite lookup_delete_eq.
    + intros o Ho. destruct Hor as [[? _]|[[? _]|[? _]]]; congruence.
    + destruct Hor as [[_ ->]|[[Hl ->]|(Hl & -> & Hd)]]; [by left|right; split; [done|]..].
      * unfold gone. by rewrite Hl.
      * destruct (s_current _ (k_ok _ Hs) _ _ Hcur) as (e0 & He0 & _ & Hp). simplify_eq.
        apply (ok_done _ Hok) in Hd as [Hw|[_ ?]]; [|congruence]. unfold gone. by rewrite Hl, Hw.
  - destruct Hor as [[Hl _]|[[Hl _]|(Hl & -> & Hd)]].
    1-2: destruct Hcur; rewrite (r_unf _ _ Hr c e Hc eq_refl); by rewrite Hl.
    apply (run_ok_quiet s s' c e (mkSession k LEnd (wpc e))); simpl; rewrite ?heap_cm_Del, ?reg_cm_Del; try done.
    + apply (k_ok _ Hs).
    + unfold cm_Del. by rewrite bool_decide_eq_false_2.
    + rewrite Hna. done.
    + intros o eo ?. congruence.
    + unfold registered. simpl. by rewrite Hl.
    + congruence.
Qed.

(** Steps that mark the run id offline. *)
Lemma calm_offline now s c e k l w r :
  let s' := set_session (set_reg s (MarkOfflineByRunID (clientRegistry s) now r)) c (mkSession k l w) in
  calm s → heap s !! c = Some e → sessions_ok s' → LoginMsg k = LoginMsg (ctl e) →
  replaced k = replaced (ctl e) → r = session_run e →
  (lpc e = LFailOffline ∧ l = LEnd ∧ wpc e = WIdle ∧ w = WIdle) ∨
  (active (wpc e) = true ∧ active w = true ∧ l = lpc e ∧ registered (mkSession k l w) = false) →
  calm s'.
Proof.
  intros s' Hs Hc Hs' Hm Hrep -> Hor.
  apply (calm_thread s s' c e (mkSession k l w)); try done.
  { apply (reg_inv_step (clientRegistry s)); [apply (k_reg _ Hs)|]. apply fresh_offline. }
  { intros run Hne. split; [done|]. simpl. apply index_frame_offline; [apply (k_reg _ Hs)|by left]. }
  apply (run_ok_unindex s s' c e (mkSession k l w)); try done.
  - apply (k_ok _ Hs).
  - apply (k_run _ Hs).
  - simpl. by rewrite index_offline, decide_True.
Qed.

Lemma calm_login_step now ok s c s' : calm s → login_step now ok s c = Some s' → calm s'.
Proof.
  intros Hs Hst. pose proof (sessions_ok_login _ _ _ _ _ (k_ok _ Hs) Hst) as Hs'. revert Hst.
  unfold login_step. destruct (heap s !! c) as [e|] eqn:Hc; [|done].
  pose proof (s_each _ (k_ok _ Hs) _ _ Hc) as Hok. destruct e as [k l w].
  destruct l as [old| | | | | | | |]; simpl.
  - destruct (match old with Some o => is_done s o | None => true end) eqn:Hold; [|done].
    destruct (Register _ _ _) as [cr [key conflict]] eqn:Hr. intros [= <-].
    by eapply calm_register.
  - intros [= <-]. eapply (calm_leave s c (mkSession k LConflict w)); eauto.
  - intros [= <-]. eapply (calm_quiet s _ c (mkSession k LRespond w)); try done; by destruct ok; auto.
  - intros [= <-]. eapply (calm_leave s c (mkSession k LFailDel w)); eauto.
  - intros [= <-]. pose proof (session_ok_unfinished _ _ _ Hok eq_refl) as ->.
    eapply (calm_offline now s c (mkSession k LFailOffline WIdle)); eauto.
  - pose proof (session_ok_unfinished _ _ _ Hok eq_refl) as ->.
    unfold Start. destruct (replaced k) eqn:Hp; intros [= <-];
      (eapply (calm_quiet s _ c (mkSession k LStart WIdle)); try done; simpl; auto).
  - intros [= <-]. eapply (calm_quiet s _ c (mkSession k LMetrics w)); try done; auto.
  - destruct (doneCh k) eqn:Hd; [|done]. intros [= <-].
    eapply (calm_leave s c (mkSession k LAwait w)); eauto 10.
  - done.
Qed.

Lemma calm_worker_step now s c s' : calm s → worker_step now s c = Some s' → calm s'.
Proof.
  intros Hs Hst. pose proof (sessions_ok_worker _ _ _ _ (k_ok _ Hs) Hst) as Hs'. revert Hst.
  unfold worker_step. destruct (heap s !! c) as [e|] eqn:Hc; [|done].
  pose proof (s_each _ (k_ok _ Hs) _ _ Hc) as Hok. destruct e as [k l w].
  assert (w ≠ WIdle → unfinished l = false) as Hl.
  { intros Hw. by destruct (session_ok_active _ _ _ Hok Hw) as (_ & ? & _). }
  destruct w as [| | | |r| |]; simpl; try done; intros [= <-]; specialize (Hl ltac:(done)).
  1-3: eapply (calm_quiet s _ c (mkSession k l _)); try done; simpl; auto; by destruct l.
  - destruct (ok_mark _ Hok r eq_refl) as [Hr|[Hp ->]].
    + apply (calm_offline now s c (mkSession k l (WMark r))); try done. right. split_and!; try done.
      by destruct l.
    + assert (MarkOfflineByRunID (clientRegistry s) now "" = clientRegistry s) as Hsame.
      { unfold MarkOfflineByRunID. destruct (k_reg _ Hs) as [Hent Hidx].
        destruct (runIndex (clientRegistry s) !! "") as [key|] eqn:Hk; [|done].
        by eapply indexed_run_empty in Hk. }
      rewrite Hsame in *.
      eapply (calm_quiet s _ c (mkSession k l _)); try done; simpl; auto; destruct l; try done.
  - eapply (calm_quiet s _ c (mkSession k l _)); try done; simpl; auto; by destruct l.
Qed.

Lemma calm_heartbeat_step s c : calm s → calm (heartbeat_timeout s c).
Proof.
  intros Hs. pose proof (sessions_ok_heartbeat s c (k_ok _ Hs)) as Hs'. revert Hs'.
  unfold heartbeat_timeout. destruct (heap s !! c) as [e|] eqn:Hc; [|done].
  destruct (wpc e) eqn:Hw; try done; intros Hs';
    (eapply (calm_quiet s _ c e (on_ctl Close e)); try done; simpl; auto).
Qed.

(** A new control enters when no login of its run id is on its way. *)
Lemma run_ok_enter s k :
  let run := l_runID (LoginMsg k) in
  let h := match ctlsByRunID s !! run with
           | Some o => alter (on_ctl Replaced) o (heap s)
           | None => heap s
           end in
  let s' := mkService (<[next s := mkSession k (LWaitClosed (ctlsByRunID s !! run)) WIdle]> h) (S (next s))
              (<[run := next s]> (ctlsByRunID s)) (clientRegistry s) (clientCount s) in
  sessions_ok s → run_ok run s →
  (∀ c e, heap s !! c = Some e → session_run e = run → unfinished (lpc e) = false) →
  run_ok run s'.
Proof.
  intros run h s' Hs [Hu Ha Hon Hoff Hin Hk] Hcalm.
  assert (ctlsByRunID s' !! run = Some (next s)) as Hcm by (simpl; by rewrite lookup_insert_eq).
  assert (∀ c e, heap s' !! c = Some e →
    c = next s ∧ e = mkSession k (LWaitClosed (ctlsByRunID s !! run)) WIdle ∨
    ∃ e0, heap s !! c = Some e0 ∧ lpc e = lpc e0 ∧ wpc e = wpc e0 ∧ session_run e = session_run e0 ∧
          (ctlsByRunID s !! run = Some c → replaced (ctl e) = true)) as Hl.
  { intros c e Hce. simpl in Hce. apply lookup_insert_Some in Hce as [[<- <-]|[_ H]]; [by left|].
    right. unfold h in H. destruct (ctlsByRunID s !! run) as [o|] eqn:Ho; [|by exists e].
    apply lookup_alter_Some in H as [(-> & e0 & H0 & ->)|[Hne H]]; [|exists e; naive_solver].
    exists e0. split_and!; try done; [apply run_Replaced|]. intros _. apply replaced_Replaced. }
  constructor; simpl; rewrite ?lookup_insert_eq; try done.
  - intros c e [[-> ->]|(e0 & H0 & Hl0 & _ & Hr0 & _)]%Hl Hr Hf; [done|].
    rewrite Hl0, (Hcalm c e0 H0) in Hf by congruence. done.
  - intros c e [[-> ->]|(e0 & H0 & _ & Hw0 & Hr0 & Hor)]%Hl Hr Hf; [done|].
    rewrite Hw0 in Hf. assert (session_run e0 = run) as Hr0' by congruence.
    assert (replaced (ctl e0) = false ∧ ctlsByRunID s !! run = Some c) as [Hp0 Hcur].
    { specialize (Ha c e0 H0 Hr0' Hf). destruct (replaced (ctl e0)); [|done].
      destruct Ha as (c' & e' & _ & H' & Hr' & Hl'). specialize (Hcalm c' e' H' Hr'). by rewrite Hl' in Hcalm. }
    rewrite (Hor Hcur). exists (next s). eexists. rewrite lookup_insert_eq.
    split_and!; [done..|]. by rewrite Hcur.
  - intros c e [= <-] [[_ ->]|(e0 & H0 & _)]%Hl Hr Hf; [done|].
    assert (next s < next s)%nat; [|lia]. apply (s_fresh _ Hs). eauto.
  - intros c e [= <-] [[_ ->]|(e0 & H0 & _)]%Hl Hr Hf; [done|].
    assert (next s < next s)%nat; [|lia]. apply (s_fresh _ Hs). eauto.
  - intros _ _. left. eauto.
Qed.

Lemma enter_frame s k run c e :
  sessions_ok s → session_run e ≠ l_runID (LoginMsg k) → run = l_runID (LoginMsg k) →
  <[next s := mkSession k (LWaitClosed (ctlsByRunID s !! run)) WIdle]>
    (match ctlsByRunID s !! run with
     | Some o => alter (on_ctl Replaced) o (heap s)
     | None => heap s
     end) !! c = Some e ↔ heap s !! c = Some e.
Proof.
  intros Hs Hne ->. destruct (decide (c = next s)) as [->|Hc].
  { rewrite lookup_insert_eq. split; [intros [= <-]; by destruct Hne|].
    intros H. assert (next s < next s)%nat; [|lia]. apply (s_fresh _ Hs). eauto. }
  rewrite lookup_insert_ne by done. destruct (ctlsByRunID s !! _) as [o|] eqn:Ho; [|done].
  destruct (decide (c = o)) as [->|]; [|by rewrite lookup_alter_ne].
  destruct (s_current _ Hs _ _ Ho) as (eo & Heo & Hro & _). rewrite lookup_alter_eq, Heo. simpl.
  split; intros [= <-]; [rewrite run_Replaced in Hne|]; congruence.
Qed.

Lemma calm_new_step rnd auth maxPool pool s m m' :
  calm s → rnd ≠ Some "" → run_of rnd m = Some m' → client m' →
  (∀ c e, heap s !! c = Some e → session_run e = l_runID m' → unfinished (lpc e) = false) →
  calm (RegisterControl_add rnd auth maxPool pool s m).1.
Proof.
  intros Hs Hrnd Hm Hcl Hcalm.
  pose proof (sessions_ok_new rnd auth maxPool pool s m Hrnd (k_ok _ Hs)) as Hs'. revert Hs'.
  destruct (RegisterControl_add _ _ _ _ _ _) as [s' a] eqn:Ha. simpl.
  apply RegisterControl_cases in Ha as [[-> _]|(k & _ & _ & _ & Hm' & _ & Heq)]; [done| |done].
  assert (m' = LoginMsg k) as -> by congruence. intros Hs'.
  assert (∀ c e, heap s' !! c = Some e → e = mkSession k (LWaitClosed (ctlsByRunID s !! l_runID (LoginMsg k))) WIdle ∨
    ∃ e0, heap s !! c = Some e0 ∧ (e = e0 ∨ e = on_ctl Replaced e0)) as Hl.
  { intros c e. rewrite Heq. simpl. intros [[<- <-]|[_ H]]%lookup_insert_Some; [by left|]. right.
    destruct (ctlsByRunID s !! l_runID (LoginMsg k)) as [o|]; [|by eauto].
    apply lookup_alter_Some in H as [(-> & e0 & H0 & ->)|[_ H]]; eauto. }
  constructor; [done|rewrite Heq; apply (k_reg _ Hs)| |].
  - intros c e [-> |(e0 & H0 & [-> | ->])]%Hl; [done|by eapply k_client|].
    unfold on_ctl, Replaced. simpl. destruct (started (ctl e0)); by eapply k_client.
  - intros run. destruct (decide (run = l_runID (LoginMsg k))) as [->|Hne].
    { rewrite Heq. apply run_ok_enter; [apply (k_ok _ Hs)|apply (k_run _ Hs)|done]. }
    apply (run_ok_frame run s); [apply (k_run _ Hs)| | |]; rewrite Heq; simpl.
    + intros c e Hr. apply enter_frame; [apply (k_ok _ Hs)|congruence|done].
    + by rewrite lookup_insert_ne.
    + done.
Qed.

Lemma calm_calm_step s s' : calm s → calm_step s s' → calm s'.
Proof.
  intros Hs Hst. destruct Hst.
  - by eapply calm_new_step.
  - by eapply calm_login_step.
  - by eapply calm_worker_step.
  - by apply calm_heartbeat_step.
Qed.

Lemma calm_New : calm NewService.
Proof.
  constructor; [apply sessions_ok_New|apply reg_inv_New|done|]. intros run. by constructor.
Qed.

Lemma calm_reachable s : rtc calm_step NewService s → calm s.
Proof. intros Hr. eapply (rtc_invariant calm_step); [apply calm_calm_step|exact Hr|apply calm_New]. Qed.

(** What the index of run ids says of the sessions. *)
Lemma calm_online s :
  calm s →
  (∀ c e, heap s !! c = Some e → ctlsByRunID s !! session_run e = Some c → wpc e = WRun →
     ∃ i, clients (clientRegistry s) !! login_key (LoginMsg (ctl e)) = Some i ∧
          Online i = true ∧ RunID i = session_run e) ∧
  (∀ k i, clients (clientRegistry s) !! k = Some i → Online i = true →
     (∃ c e, ctlsByRunID s !! RunID i = Some c ∧ heap s !! c = Some e ∧ session_run e = RunID i ∧
             replaced (ctl e) = false) ∨
     ∃ c e, heap s !! c = Some e ∧ session_run e = RunID i ∧ lpc e = LFailOffline).
Proof.
  intros Hs. destruct (k_reg _ Hs) as [_ Hidx]. split.
  - intros c e Hc Hcur Hw. apply Hidx. apply (r_on _ _ (k_run _ Hs _) c e); try done.
    unfold registered. rewrite Hw. by destruct (lpc e).
  - intros k i Hi Hon. assert (runIndex (clientRegistry s) !! RunID i = Some k) as Hk by (apply Hidx; eauto).
    destruct (r_in _ _ (k_run _ Hs _) k Hk) as [[c Hc]|?]; [left|by right].
    destruct (s_current _ (k_ok _ Hs) _ _ Hc) as (e & ? & ? & ?). eauto 10.
Qed.

End Calm.

(** C4. The registry reflects the sessions of clients that behave, until the
    server is closed. The clients are any set of logins in which a run id belongs
    to one registry key, and in which of two logins with one key and different
    run ids each has an explicit client id; the executions are the interleavings
    of their logins, refused or accepted, of the workers and of the heartbeats, in
    which a login comes in only when no earlier one of its run id is still
    unanswered, and in which the manager of controls is not closed. None of this
    is checked by the server: where a second client uses the run id of another,
    or a login overtakes one of its own run id, the registry can be wrong
    ([shared_run_id_stays_online], [overtaken_logins]). Under these premises, in
    every state reached, the client of a running session that is current for its
    run id is listed online under its key and with that run id; and a client
    listed online has a current session that was not replaced, or one whose login
    response could not be written and that is about to mark it offline. *)
Theorem sessions_match_registry (client : Login → Prop) (s : Service) :
  (∀ m m', client m → client m' → l_runID m = l_runID m' → login_key m = login_key m') →
  (∀ m m', client m → client m' → login_key m = login_key m' → l_runID m ≠ l_runID m' → l_rawClientID m ≠ "") →
  rtc (calm_step client) NewService s →
  (∀ c e, heap s !! c = Some e → ctlsByRunID s !! session_run e = Some c → wpc e = WRun →
     ∃ i, clients (clientRegistry s) !! login_key (LoginMsg (ctl e)) = Some i ∧
          Online i = true ∧ RunID i = session_run e) ∧
  (∀ k i, clients (clientRegistry s) !! k = Some i → Online i = true →
     (∃ c e, ctlsByRunID s !! RunID i = Some c ∧ heap s !! c = Some e ∧ session_run e = RunID i ∧
             replaced (ctl e) = false) ∨
     ∃ c e, heap s !! c = Some e ∧ session_run e = RunID i ∧ lpc e = LFailOffline).
Proof. intros Hkey Hid Hs. apply (calm_online client). by apply calm_reachable. Qed.

(** ** Schedules *)

Inductive action := ANew (m : Login) | ALogin (c : nat) (writeOK : bool) | AWorker (c : nat).

(** The clock is the number of the action. *)
Definition act (now : Z) (s : Service) (a : action) : option Service :=
  match a with
  | ANew m => Some (RegisterControl_add None true 5 1 s m).1
  | ALogin c ok => login_step now ok s c
  | AWorker c => worker_step now s c
  end.

Fixpoint exec (now : Z) (s : Service) (l : list action) : option Service :=
  match l with
  | [] => Some s
  | a :: l => match act now s a with Some s => exec (now + 1) s l | None => None end
  end.

Lemma exec_rtc (R : relation Service) now s l s' :
  (∀ now s a s', act now s a = Some s' → R s s') → exec now s l = Some s' → rtc R s s'.
Proof.
  intros HR. revert now s. induction l as [|a l IH]; simpl; intros now s; [by intros [= <-]|].
  destruct (act now s a) as [s1|] eqn:Ha; [|done]. intros H. eapply rtc_l; eauto.
Qed.

Lemma act_step now s a s' : act now s a = Some s' → step s s'.
Proof.
  destruct a; simpl; [intros [= <-]; by apply step_new|by apply step_login|by apply step_worker].
Qed.

Lemma exec_reachable now l s : exec now NewService l = Some s → reachable s.
Proof. apply exec_rtc, act_step. Qed.

Definition demo_client : Login := mkLogin "alice" "laptop" "r1" "host" "v1" "10.0.0.1" "v2".

(** The second login of a run id overtakes the first. *)
Definition overtake : list action :=
  [ANew demo_client; ANew demo_client; ALogin 1 true; ALogin 1 true; ALogin 1 true; ALogin 1 true;
   ALogin 0 true].

(** ... whose response then cannot be written. *)
Definition overtaken_fails : list action := overtake ++ [ALogin 0 false; ALogin 0 true; ALogin 0 true].

(** ... whose response was written, and both end. *)
Definition overtaken_ends : list action :=
  overtake ++ [ALogin 0 true; ALogin 0 true; ALogin 0 true; ALogin 0 true;
               AWorker 1; AWorker 1; AWorker 1; AWorker 1; AWorker 1; ALogin 1 true].

(** Two logins while the session they replace is still running. *)
Definition third_login : list action :=
  [ANew demo_client; ALogin 0 true; ALogin 0 true; ALogin 0 true; ALogin 0 true;
   ANew demo_client; ANew demo_client; ALogin 2 true; ALogin 2 true; ALogin 2 true].

Definition service_at (l : list action) : Service := default NewService (exec 100 NewService l).

Definition runs (l : list action) : bool := match exec 100 NewService l with Some _ => true | None => false end.

Lemma service_at_reachable l : runs l = true → reachable (service_at l).
Proof.
  unfold runs, service_at. destruct (exec 100 NewService l) as [s|] eqn:Hs; [|done]. intros _.
  by eapply exec_reachable.
Qed.

(** Tests of states that the schedules reach. *)
Definition session_is (s : Service) (c : nat) (run : string) (l : login_pc) (w : worker_pc) : bool :=
  match heap s !! c with
  | Some e => String.eqb (session_run e) run && bool_decide (lpc e = l) && bool_decide (wpc e = w)
  | None => false
  end.

Definition listed_offline (s : Service) (k : string) : bool :=
  match clients (clientRegistry s) !! k with Some i => negb (Online i) | None => false end.

Lemma session_is_spec s c run l w :
  session_is s c run l w = true →
  ∃ e, heap s !! c = Some e ∧ session_run e = run ∧ lpc e = l ∧ wpc e = w.
Proof.
  unfold session_is. destruct (heap s !! c) as [e|]; [|done].
  intros [[Hr%String.eqb_eq Hl%bool_decide_eq_true]%andb_prop Hw%bool_decide_eq_true]%andb_prop. eauto.
Qed.

(** What can happen when a login overtakes another of the same run id
    (the client reconnected before its first login was answered): the
    session that is current and running can be listed as offline; when every
    session has ended the count of clients can be above zero; and a session
    can run although the one before the last of the same run id still runs,
    since a control replaced before it was started releases its waiters at
    once. *)
Theorem overtaken_logins :
  (∃ s e i, reachable s ∧ ctlsByRunID s !! "r1" = Some 1%nat ∧ heap s !! 1%nat = Some e ∧
     session_run e = "r1" ∧ lpc e = LAwait ∧ wpc e = WRun ∧
     clients (clientRegistry s) !! "alice.laptop" = Some i ∧ Online i = false) ∧
  (∃ s, reachable s ∧ ctlsByRunID s = ∅ ∧ clientCount s = 1 ∧
     map_Forall (λ _ e, lpc e = LEnd ∧ active (wpc e) = false) (heap s)) ∧
  (∃ s e0 e2, reachable s ∧ heap s !! 0%nat = Some e0 ∧ heap s !! 2%nat = Some e2 ∧
     session_run e0 = session_run e2 ∧ wpc e0 = WRun ∧ wpc e2 = WRun).
Proof.
  split_and!.
  - assert (session_is (service_at overtaken_fails) 1 "r1" LAwait WRun = true) as Hs by by vm_compute.
    apply session_is_spec in Hs as (e & ? & ? & ? & ?).
    assert (listed_offline (service_at overtaken_fails) "alice.laptop" = true) as Hi by by vm_compute.
    unfold listed_offline in Hi. destruct (clients _ !! _) as [i|] eqn:Hi'; [|done].
    exists (service_at overtaken_fails), e, i. bool_to_prop.
    split; [by apply service_at_reachable; vm_compute|]. split; [by vm_compute|]. by split_and!.
  - exists (service_at overtaken_ends). split; [by apply service_at_reachable; vm_compute|].
    split; [by vm_compute|]. split; [by vm_compute|]. apply (bool_decide_unpack _). by vm_compute.
  - assert (session_is (service_at third_login) 0 "r1" LAwait WRun = true) as H0 by by vm_compute.
    assert (session_is (service_at third_login) 2 "r1" LMetrics WRun = true) as H2 by by vm_compute.
    apply session_is_spec in H0 as (e0 & ? & ? & ? & ?), H2 as (e2 & ? & ? & ? & ?).
    exists (service_at third_login), e0, e2.
    split; [by apply service_at_reachable; vm_compute|]. split_and!; congruence.
Qed.

(** A login message can end the server: [NewControl] makes a channel of
    capacity PoolCount + 10 (at most the configured maximum) and panics in the
    connection's goroutine exactly when an authenticated login asks for fewer
    than -10 connections, unless the configured maximum does so itself. *)
Theorem login_pool_panics (rnd : option string) (auth : bool) (maxPool pool : Z) (s : Service) (m : Login) :
  0 ≤ maxPool →
  (RegisterControl_add rnd auth maxPool pool s m).2 = Panicked ↔
  auth = true ∧ (l_runID m = "" → rnd ≠ None) ∧ pool < -10.
Proof.
  intros Hmax. unfold RegisterControl_add. fold (run_of rnd m). unfold run_of, NewControl.
  destruct (String.eqb_spec (l_runID m) "") as [Hr|Hr], rnd as [r|], auth; simpl.
  all: try (split; [done|naive_solver]).
  all: destruct (Z.ltb_spec (Z.min pool maxPool + 10) 0) as [Hp|Hp]; simpl.
  all: try (split; [intros _; split_and!; [done..|lia]|done]).
  all: unfold cm_Add; destruct (ctlsByRunID s !! _); simpl; (split; [done|]); intros (_ & _ & Hp'); lia.
Qed.

(** ** Witnesses *)

Lemma no_login_stuck_witness :
  login_step 0 true (service_at (take 6 third_login)) 1 = None ∧
  ∃ o s', rtc (worker_of 0 o) (service_at (take 6 third_login)) s' ∧ is_Some (login_step 0 true s' 1).
Proof.
  split; [vm_compute; reflexivity|].
  refine (no_login_stuck 0 true (service_at (take 6 third_login)) 1 _ _ _ _).
  - apply service_at_reachable. vm_compute. reflexivity.
  - vm_compute. reflexivity.
  - discriminate.
Defined.

Lemma login_pool_panics_witness :
  (RegisterControl_add None true 5 (-11) NewService demo_client).2 = Panicked.
Proof. apply login_pool_panics; [lia|]. split; [reflexivity|split; [discriminate|lia]]. Defined.

Definition demo_population (m : Login) : Prop := m = demo_client.

Definition one_session : list action := [ANew demo_client; ALogin 0 true; ALogin 0 true; ALogin 0 true].

Lemma exec_calm client now s n l s' :
  exec now s (replicate n (ALogin l true)) = Some s' → rtc (calm_step client) s s'.
Proof.
  revert now s. induction n as [|n IH]; simpl; intros now s; [by intros [= <-]|].
  destruct (login_step now true s l) as [s1|] eqn:Ha; [|done]. intros H.
  eapply rtc_l; [by eapply calm_login|by eapply IH].
Qed.

Lemma one_session_calm : rtc (calm_step demo_population) NewService (service_at one_session).
Proof.
  eapply rtc_l.
  { apply (calm_new demo_population None true 5 1 NewService demo_client demo_client); try done. }
  unfold service_at. destruct (exec 100 NewService one_session) as [s|] eqn:Hs.
  - by apply (exec_calm _ 101 _ 3 0).
  - assert (runs one_session = true) as Hr by by vm_compute. unfold runs in Hr. by rewrite Hs in Hr.
Qed.

Lemma sessions_match_registry_witness :
  ∃ i, clients (clientRegistry (service_at one_session)) !! "alice.laptop" = Some i ∧
       Online i = true ∧ RunID i = "r1".
Proof.
  destruct (sessions_match_registry demo_population (service_at one_session)) as [H _].
  - intros m m' -> ->. reflexivity.
  - intros m m' -> -> _ Hr. destruct Hr. reflexivity.
  - exact one_session_calm.
  - refine (H 0%nat (mkSession (mkControl demo_client 1 "r1" true false false false) LMetrics WRun) _ _ _);
      vm_compute; reflexivity.
Defined.

End Sessions.
