(* ===== verification/Proxies.v ===== *)
(** Proxies of control sessions: RegisterProxy, CloseProxy and the cleaning up
    of a session's worker in server/control.go, and the proxy manager of
    server/proxy/proxy.go.

    The sessions of the server share one proxy manager. The messages of one
    session are handled one after the other by its dispatcher, and its worker
    cleans up when the dispatcher has ended; the sessions run in parallel.
    Each handler is a program counter and a function that does its next
    action: an action ends where another session could notice. Starting a
    proxy succeeds or fails as an argument says; a proxy is running from a
    successful [Run] until its [Close]. *)
From Stdlib Require Import ZArith Lia.
From stdpp Require Import base gmap strings list fin_maps fin_sets sets relations.
From S2P Require Import Prelude.

Module Proxies.
Local Open Scope Z_scope.

(** A proxy object: [pid] identifies it, [owner] is its session. *)
Record Proxy := mkProxy { pid : nat; GetName : string; GetUsedPortsNum : Z; owner : nat }.

#[export] Instance Proxy_eq_dec : EqDecision Proxy.
Proof. solve_decision. Defined.

(** Where the handler of a session is. *)
Inductive handler_pc :=
| HIdle                (* between messages *)
| HExist (p : Proxy)   (* RegisterProxy: PxyManager.Exist *)
| HRun (p : Proxy)     (* pxy.Run *)
| HAdd (p : Proxy)     (* PxyManager.Add *)
| HDel (p : Proxy).    (* closeProxy: PxyManager.Del *)

(** Where its worker is. *)
Inductive worker_pc :=
| WRun
| WClose (l : list Proxy)             (* the proxies to close *)
| WDel (p : Proxy) (l : list Proxy)   (* closeProxy(p): PxyManager.Del *)
| WDone.

Record Control := mkControl {
  proxies : gmap string Proxy;
  portsUsedNum : Z;
  hpc : handler_pc;
  wpc : worker_pc }.

Record Server := mkServer {
  ctls : gmap nat Control;
  pxys : gmap string Proxy;     (* of the manager *)
  running : gset nat;
  nextPid : nat }.

(** ** The proxy manager *)

Definition pm_Add (m : gmap string Proxy) (name : string) (p : Proxy) : option (gmap string Proxy) :=
  match m !! name with Some _ => None | None => Some (<[name := p]> m) end.

Definition pm_Exist (m : gmap string Proxy) (name : string) : bool := bool_decide (is_Some (m !! name)).

Definition pm_Del (m : gmap string Proxy) (name : string) : gmap string Proxy := delete name m.

Section Config.
(** [ServerCfg.MaxPortsPerClient], 0 for no limit. *)
Variable MaxPortsPerClient : Z.

Definition limited : bool := 0 <? MaxPortsPerClient.

Definition set_ctl (s : Server) (c : nat) (k : Control) : Server :=
  mkServer (<[c := k]> (ctls s)) (pxys s) (running s) (nextPid s).

(** What the client sends. *)
Inductive request := NewProxy (name : string) (usedPorts : Z) | CloseProxy (name : string).

(** A message is read. [RegisterProxy] up to the check of the ports, for a
    valid configuration: the proxy object is made and its ports are counted;
    [CloseProxy] up to the end of pxy.Close. *)
Definition receive (s : Server) (c : nat) (k : Control) (r : request) : Server :=
  match r with
  | NewProxy name used =>
      let p := mkProxy (nextPid s) name used c in
      let s := mkServer (ctls s) (pxys s) (running s) (S (nextPid s)) in
      if limited && (MaxPortsPerClient <? portsUsedNum k + used) then s
      else set_ctl s c (mkControl (proxies k)
             (if limited then portsUsedNum k + used else portsUsedNum k) (HExist p) (wpc k))
  | CloseProxy name =>
      match proxies k !! name with
      | None => s
      | Some p =>
          set_ctl (mkServer (ctls s) (pxys s) (running s ∖ {[ pid p ]}) (nextPid s)) c
            (mkControl (delete name (proxies k))
               (if limited then portsUsedNum k - GetUsedPortsNum p else portsUsedNum k) (HDel p) (wpc k))
      end
  end.

(** The next action of the handler. *)
Definition handler_step (runOK : bool) (s : Server) (c : nat) : option Server :=
  match ctls s !! c with
  | None => None
  | Some k =>
      let goto (pc : handler_pc) := mkControl (proxies k) (portsUsedNum k) pc (wpc k) in
      (* an error: the deferred functions *)
      let fail (p : Proxy) :=
        mkControl (proxies k)
          (if limited then portsUsedNum k - GetUsedPortsNum p else portsUsedNum k) HIdle (wpc k) in
      match hpc k with
      | HIdle => None
      | HExist p => Some (set_ctl s c (if pm_Exist (pxys s) (GetName p) then fail p else goto (HRun p)))
      | HRun p =>
          if runOK then
            Some (set_ctl (mkServer (ctls s) (pxys s) ({[ pid p ]} ∪ running s) (nextPid s)) c
                    (goto (HAdd p)))
          else Some (set_ctl s c (fail p))
      | HAdd p =>
          match pm_Add (pxys s) (GetName p) p with
          | None =>
              Some (set_ctl (mkServer (ctls s) (pxys s) (running s ∖ {[ pid p ]}) (nextPid s)) c (fail p))
          | Some pxys =>
              Some (set_ctl (mkServer (ctls s) pxys (running s) (nextPid s)) c
                      (mkControl (<[GetName p := p]> (proxies k)) (portsUsedNum k) HIdle (wpc k)))
          end
      | HDel p =>
          Some (set_ctl (mkServer (ctls s) (pm_Del (pxys s) (GetName p)) (running s) (nextPid s)) c
                  (goto HIdle))
      end
  end.

(** The next action of the worker: [order] is the order in which the proxies
    are visited. *)
Definition worker_step (order : list Proxy) (s : Server) (c : nat) : option Server :=
  match ctls s !! c with
  | None => None
  | Some k =>
      let goto (pc : worker_pc) := mkControl (proxies k) (portsUsedNum k) (hpc k) pc in
      match wpc k with
      | WRun =>
          match hpc k with
          | HIdle => Some (set_ctl s c (mkControl ∅ (portsUsedNum k) HIdle (WClose order)))
          | _ => None
          end
      | WClose (p :: l) =>
          Some (set_ctl (mkServer (ctls s) (pxys s) (running s ∖ {[ pid p ]}) (nextPid s)) c (goto (WDel p l)))
      | WClose [] => Some (set_ctl s c (goto WDone))
      | WDel p l =>
          Some (set_ctl (mkServer (ctls s) (pm_Del (pxys s) (GetName p)) (running s) (nextPid s)) c
                  (goto (WClose l)))
      | WDone => None
      end
  end.

Inductive step : Server → Server → Prop :=
| step_new s c : ctls s !! c = None → step s (set_ctl s c (mkControl ∅ 0 HIdle WRun))
| step_receive s c k r :
    ctls s !! c = Some k → hpc k = HIdle → wpc k = WRun →
    (∀ name used, r = NewProxy name used → 0 ≤ used) →
    step s (receive s c k r)
| step_handler ok s c s' : handler_step ok s c = Some s' → step s s'
| step_worker order s c s' k :
    ctls s !! c = Some k → (wpc k = WRun → order ≡ₚ (map_to_list (proxies k)).*2) →
    worker_step order s c = Some s' → step s s'.

Definition NewServer : Server := mkServer ∅ ∅ ∅ 0.
Definition reachable : Server → Prop := rtc step NewServer.

(** ** Who holds which proxy *)

(** The proxies of a session that are in the manager. *)
Definition held (k : Control) (p : Proxy) : Prop :=
  proxies k !! GetName p = Some p ∨ hpc k = HDel p ∨
  match wpc k with WClose l => p ∈ l | WDel q l => p = q ∨ p ∈ l | _ => False end.

(** The proxies of a session that are running. *)
Definition up (k : Control) (p : Proxy) : Prop :=
  proxies k !! GetName p = Some p ∨ hpc k = HAdd p ∨
  match wpc k with WClose l => p ∈ l | WDel _ l => p ∈ l | _ => False end.

(** The proxy the handler is working on. *)
Definition pending (k : Control) : option Proxy :=
  match hpc k with HIdle => None | HExist p | HRun p | HAdd p | HDel p => Some p end.

Definition known (k : Control) (p : Proxy) : Prop := held k p ∨ pending k = Some p.

(** ** The invariant *)

Definition worker_list (w : worker_pc) : list Proxy :=
  match w with WClose l => l | WDel p l => p :: l | _ => [] end.

Record ctl_ok (k : Control) : Prop := {
  l_key : ∀ n p, proxies k !! n = Some p → GetName p = n;
  l_pend : ∀ n p, pending k = Some p → proxies k !! n ≠ Some p;
  l_work : wpc k ≠ WRun → proxies k = ∅ ∧ hpc k = HIdle;
  l_nodup : NoDup (worker_list (wpc k))
}.

Definition owned (s : Server) : Prop :=
  ∀ c k p, ctls s !! c = Some k → known k p → owner p = c ∧ (pid p < nextPid s)%nat.

Definition identified (s : Server) : Prop :=
  ∀ c k p c' k' p', ctls s !! c = Some k → known k p → ctls s !! c' = Some k' → known k' p' →
    pid p = pid p' → p = p'.

Definition managed (s : Server) : Prop :=
  ∀ n p, pxys s !! n = Some p ↔
    GetName p = n ∧ ∃ k, ctls s !! owner p = Some k ∧ held k p.

Definition started (s : Server) : Prop :=
  ∀ i, i ∈ running s ↔ ∃ c k p, ctls s !! c = Some k ∧ up k p ∧ pid p = i.

Record inv (s : Server) : Prop := {
  i_ctl : ∀ c k, ctls s !! c = Some k → ctl_ok k;
  i_owned : owned s;
  i_identified : identified s;
  i_managed : managed s;
  i_started : started s
}.

Lemma up_known k p : up k p → known k p.
Proof.
  unfold up, known, held, pending. intros [H|[-> |H]]; [auto|auto|]. left. right. right.
  destruct (wpc k); auto.
Qed.

Section OneControl.
(** One control changes. *)
Context (s s' : Server) (c : nat) (k k' : Control).
Context (Hc : ctls s !! c = Some k) (Hs : ctls s' = <[c := k']> (ctls s)).

Lemma set_cases c1 k1 :
  ctls s' !! c1 = Some k1 → c1 = c ∧ k1 = k' ∨ c1 ≠ c ∧ ctls s !! c1 = Some k1.
Proof. rewrite Hs, lookup_insert_Some. naive_solver. Qed.

Lemma set_other c1 : c1 ≠ c → ctls s' !! c1 = ctls s !! c1.
Proof. intros Hne. by rewrite Hs, lookup_insert_ne. Qed.

Lemma set_self : ctls s' !! c = Some k'.
Proof. by rewrite Hs, lookup_insert_eq. Qed.

(** Nothing new is known. *)
Lemma known_same :
  owned s → identified s → nextPid s' = nextPid s → (∀ p, known k' p → known k p) →
  owned s' ∧ identified s'.
Proof.
  intros Ho Hi Hn Hk.
  assert (∀ c1 k1 p, ctls s' !! c1 = Some k1 → known k1 p → ∃ k2, ctls s !! c1 = Some k2 ∧ known k2 p) as Hold.
  { intros c1 k1 p [[-> ->]|[_ H1]]%set_cases Hp; eauto. }
  split.
  - intros c1 k1 p H1 Hp. rewrite Hn. destruct (Hold _ _ _ H1 Hp) as (k2 & H2 & Hk2).
    exact (Ho c1 k2 p H2 Hk2).
  - intros c1 k1 p c2 k2 p' H1 Hp H2 Hp'.
    destruct (Hold _ _ _ H1 Hp) as (k3 & H3 & Hk3), (Hold _ _ _ H2 Hp') as (k4 & H4 & Hk4).
    exact (Hi _ _ _ _ _ _ H3 Hk3 H4 Hk4).
Qed.

(** A new object is known. *)
Lemma known_new p0 :
  owned s → identified s → pid p0 = nextPid s → owner p0 = c → nextPid s' = S (nextPid s) →
  (∀ p, known k' p → known k p ∨ p = p0) →
  owned s' ∧ identified s'.
Proof.
  intros Ho Hi Hp0 Hown Hn Hk.
  assert (∀ c1 k1 p, ctls s' !! c1 = Some k1 → known k1 p →
    (c1 = c ∧ p = p0) ∨ ∃ k2, ctls s !! c1 = Some k2 ∧ known k2 p) as Hold.
  { intros c1 k1 p [[-> ->]|[_ H1]]%set_cases Hp; [|eauto]. destruct (Hk _ Hp); eauto. }
  split.
  - intros c1 k1 p H1 Hp. rewrite Hn. destruct (Hold _ _ _ H1 Hp) as [[-> ->]|(k2 & H2 & Hk2)]; [lia|].
    destruct (Ho _ _ _ H2 Hk2). lia.
  - intros c1 k1 p c2 k2 p' H1 Hp H2 Hp' Heq.
    destruct (Hold _ _ _ H1 Hp) as [[-> ->]|(k3 & H3 & Hk3)],
      (Hold _ _ _ H2 Hp') as [[-> ->]|(k4 & H4 & Hk4)];
      [done| | |exact (Hi _ _ _ _ _ _ H3 Hk3 H4 Hk4 Heq)].
    + destruct (Ho _ _ _ H4 Hk4). lia.
    + destruct (Ho _ _ _ H3 Hk3). lia.
Qed.

Lemma managed_same :
  managed s → pxys s' = pxys s → (∀ p, held k' p ↔ held k p) → managed s'.
Proof.
  intros Hm Hp Hh n p. rewrite Hp, (Hm n p). apply and_iff_compat_l.
  destruct (decide (owner p = c)) as [->|Hne]; [|by rewrite set_other].
  rewrite set_self, Hc. split; intros (k1 & [= <-] & H); eexists; (split; [done|]); by apply Hh.
Qed.

Lemma managed_add p0 :
  managed s → owner p0 = c → pxys s !! GetName p0 = None → pxys s' = <[GetName p0 := p0]> (pxys s) →
  (∀ p, held k' p ↔ held k p ∨ p = p0) → managed s'.
Proof.
  intros Hm Ho Hn Hp Hh n p. rewrite Hp, lookup_insert_Some. split.
  - intros [[<- <-]|[Hne H]].
    + split; [done|]. rewrite Ho, set_self. exists k'. split; [done|]. apply Hh. by right.
    + apply Hm in H as (Hn' & k1 & H1 & Hk1). split; [done|].
      destruct (decide (owner p = c)) as [Heq|]; [|rewrite set_other by done; eauto].
      rewrite Heq, set_self. exists k'. split; [done|]. apply Hh. left. congruence.
  - intros (Hn' & k1 & H1 & Hk1). assert (p = p0 ∨ pxys s !! n = Some p) as [-> |H]; [|by left|].
    { apply set_cases in H1 as [[Ho' ->]|[Hne H1]]; [|right; apply Hm; eauto].
      apply Hh in Hk1 as [Hk1|]; [|by left]. right. apply Hm. split; [done|]. rewrite Ho'. eauto. }
    right. split; [|done]. intros <-. congruence.
Qed.

Lemma managed_del p0 :
  managed s → owner p0 = c → held k p0 → pxys s' = delete (GetName p0) (pxys s) →
  (∀ p, held k' p ↔ held k p ∧ p ≠ p0) → managed s'.
Proof.
  intros Hm Ho Hk Hp Hh n p.
  assert (pxys s !! GetName p0 = Some p0) as H0 by (apply Hm; split; [done|]; rewrite Ho; eauto).
  rewrite Hp, lookup_delete_Some. split.
  - intros [Hne H]. apply Hm in H as (Hn' & k1 & H1 & Hk1). split; [done|].
    destruct (decide (owner p = c)) as [Heq|]; [|rewrite set_other by done; eauto].
    rewrite Heq, set_self. exists k'. split; [done|]. apply Hh. split; congruence.
  - intros (Hn' & k1 & H1 & Hk1). assert (p ≠ p0 ∧ pxys s !! n = Some p) as [Hne H].
    { apply set_cases in H1 as [[Ho' ->]|[Hne H1]]; [|split; [congruence|apply Hm; eauto]].
      apply Hh in Hk1 as [Hk1 Hne]. split; [done|]. apply Hm. split; [done|]. rewrite Ho'. eauto. }
    split; [|done]. intros <-. congruence.
Qed.

Lemma started_same :
  started s → running s' = running s → (∀ p, up k' p ↔ up k p) → started s'.
Proof.
  intros Hm Hp Hh i. rewrite Hp, (Hm i). split; intros (c1 & k1 & p & H1 & Hu & Hi).
  - destruct (decide (c1 = c)) as [->|Hne]; [|exists c1, k1, p; by rewrite set_other].
    exists c, k', p. rewrite set_self. split_and!; [done| |done]. apply Hh. congruence.
  - apply set_cases in H1 as [[-> ->]|[_ H1]]; [exists c, k, p; by rewrite <- Hh|eauto 10].
Qed.

Lemma started_add p0 :
  started s → running s' = {[ pid p0 ]} ∪ running s → (∀ p, up k' p ↔ up k p ∨ p = p0) → started s'.
Proof.
  intros Hm Hp Hh i. rewrite Hp, elem_of_union, elem_of_singleton, (Hm i). split.
  - intros [-> |(c1 & k1 & p & H1 & Hu & Hi)].
    + exists c, k', p0. rewrite set_self. split_and!; [done| |done]. apply Hh. by right.
    + destruct (decide (c1 = c)) as [->|Hne]; [|exists c1, k1, p; by rewrite set_other].
      exists c, k', p. rewrite set_self. split_and!; [done| |done]. apply Hh. left. congruence.
  - intros (c1 & k1 & p & H1 & Hu & Hi). apply set_cases in H1 as [[-> ->]|[_ H1]]; [|eauto 10].
    apply Hh in Hu as [Hu| ->]; [eauto 10|by left].
Qed.

Lemma started_del p0 :
  started s → identified s → owned s → known k p0 → running s' = running s ∖ {[ pid p0 ]} →
  (∀ p, up k' p ↔ up k p ∧ p ≠ p0) → started s'.
Proof.
  intros Hm Hid Ho Hk Hp Hh i. rewrite Hp, elem_of_difference, elem_of_singleton, (Hm i). split.
  - intros [(c1 & k1 & p & H1 & Hu & Hi) Hne].
    destruct (decide (c1 = c)) as [->|]; [|exists c1, k1, p; by rewrite set_other].
    exists c, k', p. rewrite set_self. split_and!; [done| |done]. apply Hh. split; congruence.
  - intros (c1 & k1 & p & H1 & Hu & Hi).
    assert (∃ k2, ctls s !! c1 = Some k2 ∧ up k2 p ∧ p ≠ p0) as (k2 & H2 & Hu2 & Hne).
    { apply set_cases in H1 as [[-> ->]|[Hne H1]]; [apply Hh in Hu as [? ?]; eauto|].
      exists k1. split_and!; [done..|]. intros ->. destruct (Ho _ _ _ H1 (up_known _ _ Hu)) as [? _].
      destruct (Ho _ _ _ Hc Hk) as [? _]. congruence. }
    split; [eauto 10|]. intros Heq. apply Hne. eapply Hid; [exact H2|by apply up_known|exact Hc|exact Hk|congruence].
Qed.

Lemma ctls_ok_set :
  (∀ c k, ctls s !! c = Some k → ctl_ok k) → ctl_ok k' → ∀ c k, ctls s' !! c = Some k → ctl_ok k.
Proof. intros H Hk c1 k1 [[-> ->]|[_ H1]]%set_cases; eauto. Qed.
End OneControl.

Ltac solve_held := intros ?; unfold known, held, up, pending; simpl; naive_solver.

Lemma inv_pid s n : inv s → (nextPid s ≤ n)%nat → inv (mkServer (ctls s) (pxys s) (running s) n).
Proof.
  intros [Hc Ho Hi Hm Hr] Hn. constructor; try done.
  intros c k p Hk Hp. destruct (Ho c k p Hk Hp). simpl. split; [done|lia].
Qed.

Lemma ctl_ok_handler k : ctl_ok k → hpc k ≠ HIdle → wpc k = WRun.
Proof. intros [_ _ Hw _] Hh. destruct (wpc k); try done; by destruct Hw as [_ ?]. Qed.

Lemma inv_receive s c k r :
  inv s → ctls s !! c = Some k → hpc k = HIdle → wpc k = WRun → inv (receive s c k r).
Proof.
  intros Hs Hc Hh Hw. pose proof Hs as [Hctl Ho Hi Hm Hr]. pose proof (Hctl _ _ Hc) as Hok.
  destruct k as [px pu h w]. simpl in Hh, Hw. subst h w.
  destruct r as [name used|name]; unfold receive; simpl.
  - destruct (limited && _); [apply inv_pid; [done|lia]|].
    set (p0 := mkProxy _ _ _ _). set (k' := mkControl _ _ _ _).
    assert (∀ n, px !! n ≠ Some p0) as Hnew.
    { intros n Hn. assert (known (mkControl px pu HIdle WRun) p0) as Hk.
      { left. left. change (px !! GetName p0 = Some p0). by rewrite (l_key _ Hok n p0 Hn). }
      destruct (Ho _ _ _ Hc Hk) as [_ Hlt]. simpl in Hlt. lia. }
    destruct (known_new s (set_ctl (mkServer (ctls s) (pxys s) (running s) (S (nextPid s))) c k')
      c _ k' Hc eq_refl p0) as [Ho' Hi']; [done..| |].
    { solve_held. }
    constructor; [|done|done| |].
    + eapply ctls_ok_set; [done| |done|]; [done|]. destruct Hok as [Hk Hp _ Hnd].
      constructor; simpl; [done| |done|done]. intros n p [= <-]. apply Hnew.
    + eapply (managed_same s); [done..|]. solve_held.
    + eapply (started_same s); [done..|]. solve_held.
  - destruct (px !! name) as [p0|] eqn:Hp0; [|done].
    assert (held (mkControl px pu HIdle WRun) p0) as Hk0.
    { left. simpl. by rewrite (l_key _ Hok _ _ Hp0). }
    pose proof (l_key _ Hok _ _ Hp0) as Hn0. simpl in Hn0.
    assert (∀ p, delete name px !! GetName p = Some p ↔ px !! GetName p = Some p ∧ p ≠ p0) as Hdel.
    { intros p. rewrite lookup_delete_Some. split.
      - intros [Hne H]. split; [done|]. intros ->. done.
      - intros [H Hne]. split; [|done]. intros Heq. rewrite <- Heq in H. congruence. }
    set (k' := mkControl _ _ _ _). set (s' := set_ctl _ _ _).
    destruct (known_same s s' c _ k' Hc eq_refl) as [Ho' Hi']; [done..| |].
    { intros p. unfold known, held, pending. simpl. rewrite Hdel. naive_solver. }
    constructor; [|done|done| |].
    + eapply ctls_ok_set; [done| |done|]; [done|]. destruct Hok as [Hk Hp _ Hnd].
      constructor; simpl; [|intros n p [= <-]|done|done].
      * intros n p [_ H]%lookup_delete_Some. by apply Hk.
      * intros [Hne H]%lookup_delete_Some. apply Hk in H. simpl in H. congruence.
    + eapply (managed_same s); [done..|]. intros p. unfold held. simpl. rewrite Hdel.
      destruct (decide (p = p0)) as [->|]; [naive_solver|]. split; naive_solver.
    + apply (started_del s s' c _ k' Hc eq_refl p0); [done..|by left|done|].
      intros p. unfold up. simpl. rewrite Hdel. naive_solver.
Qed.

(** The proxy the handler works on is in no other place. *)
Lemma pend_not_mine px pu h p0 p :
  ctl_ok (mkControl px pu h WRun) → pending (mkControl px pu h WRun) = Some p0 →
  px !! GetName p = Some p → p ≠ p0.
Proof. intros Hok Hp H ->. by eapply (l_pend _ Hok). Qed.

Lemma inv_started s c px pu p0 :
  inv s → ctls s !! c = Some (mkControl px pu (HRun p0) WRun) →
  inv (set_ctl (mkServer (ctls s) (pxys s) ({[ pid p0 ]} ∪ running s) (nextPid s)) c
         (mkControl px pu (HAdd p0) WRun)).
Proof.
  intros [Hctl Ho Hi Hm Hr] Hc. pose proof (Hctl _ _ Hc) as Hok. set (s' := set_ctl _ _ _).
  destruct (known_same s s' c _ (mkControl px pu (HAdd p0) WRun) Hc eq_refl) as [Ho' Hi']; [done..|solve_held|].
  constructor; [|done|done| |].
  - eapply ctls_ok_set; [done| |done|]; [done|]. by destruct Hok.
  - eapply (managed_same s); [done..|]. solve_held.
  - apply (started_add s s' c _ _ Hc eq_refl p0); [done..|]. solve_held.
Qed.

Lemma inv_aborted s c px pu pu' p0 :
  inv s → ctls s !! c = Some (mkControl px pu (HAdd p0) WRun) →
  inv (set_ctl (mkServer (ctls s) (pxys s) (running s ∖ {[ pid p0 ]}) (nextPid s)) c
         (mkControl px pu' HIdle WRun)).
Proof.
  intros [Hctl Ho Hi Hm Hr] Hc. pose proof (Hctl _ _ Hc) as Hok. set (s' := set_ctl _ _ _).
  destruct (known_same s s' c _ (mkControl px pu' HIdle WRun) Hc eq_refl) as [Ho' Hi']; [done..|solve_held|].
  constructor; [|done|done| |].
  - eapply ctls_ok_set; [done| |done|]; [done|]. destruct Hok. by constructor.
  - eapply (managed_same s); [done..|]. solve_held.
  - apply (started_del s s' c _ _ Hc eq_refl p0); [done..|by right|done|].
    intros p. unfold up. simpl. pose proof (pend_not_mine px pu _ p0 p Hok eq_refl). naive_solver.
Qed.

Lemma added_free s c px pu p0 :
  inv s → ctls s !! c = Some (mkControl px pu (HAdd p0) WRun) → pxys s !! GetName p0 = None →
  px !! GetName p0 = None.
Proof.
  intros [Hctl Ho Hi Hm Hr] Hc Hfree. pose proof (Hctl _ _ Hc) as Hok.
  destruct (px !! GetName p0) as [q|] eqn:Hq; [|done]. pose proof (l_key _ Hok _ _ Hq) as Hn. exfalso.
  assert (held (mkControl px pu (HAdd p0) WRun) q) as Hk by (left; simpl; by rewrite Hn).
  assert (pxys s !! GetName p0 = Some q); [|congruence]. apply Hm. split; [done|].
  destruct (Ho _ _ _ Hc (or_introl Hk)) as [-> _]. eauto.
Qed.

Lemma inv_added s c px pu p0 pxys' :
  inv s → ctls s !! c = Some (mkControl px pu (HAdd p0) WRun) →
  pm_Add (pxys s) (GetName p0) p0 = Some pxys' →
  inv (set_ctl (mkServer (ctls s) pxys' (running s) (nextPid s)) c
         (mkControl (<[GetName p0 := p0]> px) pu HIdle WRun)).
Proof.
  intros Hs Hc. unfold pm_Add. destruct (pxys s !! GetName p0) eqn:Hfree; [done|]. intros [= <-].
  pose proof (added_free _ _ _ _ _ Hs Hc Hfree) as Hpx. destruct Hs as [Hctl Ho Hi Hm Hr].
  pose proof (Hctl _ _ Hc) as Hok. set (s' := set_ctl _ _ _).
  assert (∀ p, <[GetName p0 := p0]> px !! GetName p = Some p ↔ px !! GetName p = Some p ∨ p = p0) as Hins.
  { intros p. rewrite lookup_insert_Some. split; [naive_solver|]. intros [H| ->]; [|by left].
    right. split; [|done]. intros Heq. rewrite <- Heq in H. congruence. }
  destruct (known_same s s' c _ (mkControl (<[GetName p0 := p0]> px) pu HIdle WRun) Hc eq_refl)
    as [Ho' Hi']; [done..| |].
  { intros p. unfold known, held, pending. simpl. rewrite Hins. naive_solver. }
  constructor; [|done|done| |].
  - eapply ctls_ok_set; [done| |done|]; [done|]. destruct Hok as [Hk _ _ Hnd].
    constructor; simpl; [|done|done|done]. intros n p [[<- <-]|[_ H]]%lookup_insert_Some; [done|by apply Hk].
  - apply (managed_add s s' c _ _ Hc eq_refl p0); [done| |done..|].
    + by apply (Ho _ _ p0 Hc); right.
    + intros p. unfold held. simpl. rewrite Hins. naive_solver.
  - eapply (started_same s); [done..|]. intros p. unfold up. simpl. rewrite Hins. naive_solver.
Qed.

Lemma inv_deleted s c px pu p0 :
  inv s → ctls s !! c = Some (mkControl px pu (HDel p0) WRun) →
  inv (set_ctl (mkServer (ctls s) (pm_Del (pxys s) (GetName p0)) (running s) (nextPid s)) c
         (mkControl px pu HIdle WRun)).
Proof.
  intros [Hctl Ho Hi Hm Hr] Hc. pose proof (Hctl _ _ Hc) as Hok. set (s' := set_ctl _ _ _).
  destruct (known_same s s' c _ (mkControl px pu HIdle WRun) Hc eq_refl) as [Ho' Hi']; [done..|solve_held|].
  constructor; [|done|done| |].
  - eapply ctls_ok_set; [done| |done|]; [done|]. destruct Hok. by constructor.
  - apply (managed_del s s' c _ _ Hc eq_refl p0); [done| |by right; left|done|].
    + by apply (Ho _ _ p0 Hc); right.
    + intros p. unfold held. simpl. pose proof (pend_not_mine px pu _ p0 p Hok eq_refl). naive_solver.
  - eapply (started_same s); [done..|]. solve_held.
Qed.

Lemma inv_handler ok s c s' : inv s → handler_step ok s c = Some s' → inv s'.
Proof.
  intros Hs. unfold handler_step. destruct (ctls s !! c) as [k|] eqn:Hc; [|done].
  pose proof Hs as [Hctl Ho Hi Hm Hr]. pose proof (Hctl _ _ Hc) as Hok.
  destruct k as [px pu h w]. simpl.
  assert (h ≠ HIdle → w = WRun) as Hw by (intros Hh; by apply (ctl_ok_handler _ Hok)).
  assert (∀ h' pu' s1, ctls s1 = <[c := mkControl px pu' h' w]> (ctls s) → h ≠ HIdle →
    pxys s1 = pxys s → running s1 = running s → nextPid s1 = nextPid s →
    (h' = HIdle ∨ ∃ p, h = HExist p ∧ h' = HRun p) → (∀ p, h ≠ HAdd p ∧ h ≠ HDel p) → inv s1) as Hquiet.
  { intros h' pu' s1 Hs1 Hh Hp Hru Hn Hh' Hna. specialize (Hw Hh). subst w.
    destruct (known_same s s1 c _ _ Hc Hs1) as [Ho' Hi']; [done..| |].
    { intros p. unfold known, held, pending. simpl. destruct Hh' as [->|(q & -> & ->)]; naive_solver. }
    constructor; [|done|done| |].
    - eapply ctls_ok_set; [done| |done|]; [done|]. destruct Hok as [Hk Hpe _ Hnd].
      constructor; simpl; [done| |done|done]. unfold pending in *. simpl in *.
      destruct Hh' as [->|(q & -> & ->)]; done.
    - eapply (managed_same s); [done..|]. intros p. unfold held. simpl.
      destruct (Hna p), Hh' as [->|(q & -> & ->)]; naive_solver.
    - eapply (started_same s); [done..|]. intros p. unfold up. simpl.
      destruct (Hna p), Hh' as [->|(q & -> & ->)]; naive_solver. }
  destruct h as [|p0|p0|p0|p0]; [done| | | |].
  - destruct (pm_Exist _ _); intros [= <-]; (eapply Hquiet; try done; eauto).
  - destruct ok; intros [= <-]; [|eapply Hquiet; try done; eauto].
    rewrite (Hw ltac:(done)) in *. by eapply inv_started.
  - rewrite (Hw ltac:(done)) in *. destruct (pm_Add _ _ _) as [px'|] eqn:Ha; intros [= <-];
      [by eapply inv_added|by eapply inv_aborted].
  - rewrite (Hw ltac:(done)) in *. intros [= <-]. by eapply inv_deleted.
Qed.

(** The proxies of a session as a list. *)
Lemma values_spec (px : gmap string Proxy) p :
  (∀ n q, px !! n = Some q → GetName q = n) →
  p ∈ (map_to_list px).*2 ↔ px !! GetName p = Some p.
Proof.
  intros Hk. rewrite list_elem_of_fmap. split.
  - intros ([n q] & -> & H%elem_of_map_to_list). simpl. by rewrite (Hk _ _ H).
  - intros H. exists (GetName p, p). split; [done|]. by apply elem_of_map_to_list.
Qed.

Lemma values_NoDup (px : gmap string Proxy) :
  (∀ n q, px !! n = Some q → GetName q = n) → NoDup (map_to_list px).*2.
Proof.
  intros Hk. apply NoDup_fmap_2_strong; [|apply NoDup_map_to_list].
  intros [n p] [n' p'] H%elem_of_map_to_list H'%elem_of_map_to_list. simpl. intros ->.
  by rewrite <- (Hk _ _ H), <- (Hk _ _ H').
Qed.

Lemma inv_worker order s c s' k :
  inv s → ctls s !! c = Some k → (wpc k = WRun → order ≡ₚ (map_to_list (proxies k)).*2) →
  worker_step order s c = Some s' → inv s'.
Proof.
  intros [Hctl Ho Hi Hm Hr] Hc Hord. unfold worker_step. rewrite Hc. pose proof (Hctl _ _ Hc) as Hok.
  destruct k as [px pu h w]. simpl in *.
  assert (w ≠ WRun → px = ∅ ∧ h = HIdle) as Hw by apply (l_work _ Hok).
  assert (∀ w' s1, ctls s1 = <[c := mkControl ∅ pu HIdle w']> (ctls s) → h = HIdle →
    nextPid s1 = nextPid s → NoDup (worker_list w') →
    (∀ p, known (mkControl ∅ pu HIdle w') p → known (mkControl px pu h w) p) →
    managed s1 → started s1 → inv s1) as Hset.
  { intros w' s1 Hs1 -> Hn Hnd Hkn Hm' Hr'. destruct (known_same s s1 c _ _ Hc Hs1) as [Ho' Hi']; [done..|].
    constructor; [|done..]. eapply ctls_ok_set; [done| |done|]; [done|].
    constructor; simpl; done. }
  destruct w as [|[|p0 l]|p0 l|].
  - destruct h; try done. intros [= <-]. specialize (Hord eq_refl). destruct Hok as [Hk _ _ _]. simpl in Hk.
    assert (∀ p, p ∈ order ↔ px !! GetName p = Some p) as Hin.
    { intros p. by rewrite Hord, values_spec. }
    eapply (Hset (WClose order)); try done.
    + simpl. rewrite Hord. by apply values_NoDup.
    + intros p. unfold known, held, pending. simpl. rewrite lookup_empty, Hin. naive_solver.
    + eapply (managed_same s); [done..|]. intros p. unfold held. simpl. rewrite lookup_empty, Hin. naive_solver.
    + eapply (started_same s); [done..|]. intros p. unfold up. simpl. rewrite lookup_empty, Hin. naive_solver.
  - destruct (Hw ltac:(done)) as [-> ->]. intros [= <-]. eapply (Hset WDone); try done.
    + constructor.
    + solve_held.
    + eapply (managed_same s); [done..|]. intros p. unfold held. simpl. set_solver.
    + eapply (started_same s); [done..|]. intros p. unfold up. simpl. set_solver.
  - destruct (Hw ltac:(done)) as [-> ->]. intros [= <-].
    pose proof (l_nodup _ Hok) as Hnd. simpl in Hnd. pose proof Hnd as [Hn0 _]%NoDup_cons.
    eapply (Hset (WDel p0 l)); try done.
    + intros p. unfold known, held, pending. simpl. rewrite elem_of_cons. naive_solver.
    + eapply (managed_same s); [done..|]. intros p. unfold held. simpl. rewrite elem_of_cons. naive_solver.
    + eapply (started_del s _ c _ _ Hc); [done..| |done|].
      * left. right. right. simpl. by left.
      * intros p. unfold up. simpl. rewrite elem_of_cons, lookup_empty. naive_solver.
  - destruct (Hw ltac:(done)) as [-> ->]. intros [= <-].
    pose proof (l_nodup _ Hok) as Hnd. simpl in Hnd. pose proof Hnd as [Hn0 Hnd']%NoDup_cons.
    assert (held (mkControl ∅ pu HIdle (WDel p0 l)) p0) as Hk0 by (right; right; by left).
    eapply (Hset (WClose l)); try done.
    + intros p. unfold known, held, pending. simpl. naive_solver.
    + eapply (managed_del s _ c _ _ Hc); [done..| |exact Hk0|done|].
      * by apply (Ho _ _ p0 Hc); left.
      * intros p. unfold held. simpl. rewrite lookup_empty. naive_solver.
    + eapply (started_same s); [done..|]. solve_held.
  - done.
Qed.

Lemma inv_new s c : inv s → ctls s !! c = None → inv (set_ctl s c (mkControl ∅ 0 HIdle WRun)).
Proof.
  intros [Hctl Ho Hi Hm Hr] Hc.
  assert (∀ p, ¬ known (mkControl ∅ 0 HIdle WRun) p) as Hno.
  { intros p. unfold known, held, pending. simpl. rewrite lookup_empty. naive_solver. }
  assert (∀ c1 k1 p, ctls (set_ctl s c (mkControl ∅ 0 HIdle WRun)) !! c1 = Some k1 → known k1 p →
    ctls s !! c1 = Some k1) as Hold.
  { simpl. intros c1 k1 p [[<- <-]|[_ H1]]%lookup_insert_Some Hk; [by apply Hno in Hk|done]. }
  constructor.
  - simpl. intros c1 k1 [[<- <-]|[_ H1]]%lookup_insert_Some; [|eauto].
    constructor; simpl; try done. constructor.
  - intros c1 k1 p H1 Hk. exact (Ho c1 k1 p (Hold _ _ _ H1 Hk) Hk).
  - intros c1 k1 p c2 k2 p' H1 Hk H2 Hk'. exact (Hi _ _ _ _ _ _ (Hold _ _ _ H1 Hk) Hk (Hold _ _ _ H2 Hk') Hk').
  - intros n p. simpl. rewrite (Hm n p). apply and_iff_compat_l.
    split; intros (k & H & Hk).
    + exists k. by rewrite lookup_insert_ne by (intros ->; congruence).
    + exists k. split; [|done]. eapply Hold; [exact H|by left].
  - intros i. simpl. rewrite (Hr i). split; intros (c1 & k1 & p & H1 & Hu & Hpi).
    + exists c1, k1, p. by rewrite lookup_insert_ne by (intros <-; congruence).
    + exists c1, k1, p. split; [|done]. eapply Hold; [exact H1|by apply up_known].
Qed.

Lemma inv_step s s' : inv s → step s s' → inv s'.
Proof.
  intros Hs Hst. destruct Hst.
  - by apply inv_new.
  - by apply inv_receive.
  - by eapply inv_handler.
  - by eapply inv_worker.
Qed.

Lemma inv_reachable s : reachable s → inv s.
Proof.
  intros Hr. eapply (rtc_invariant step); [apply inv_step|exact Hr|]. constructor; try done.
  - intros n p. simpl. rewrite lookup_empty. split; [done|]. intros (_ & k & H & _). by rewrite lookup_empty in H.
  - intros i. simpl. split; [by intros ?%elem_of_empty|]. intros (c & k & p & H & _).
    by rewrite lookup_empty in H.
Qed.

(** ** Theorems *)

(** C7. Proxy names are exclusive, also while sessions register at the same
    time: in every reachable state a proxy in a session's table is running,
    belongs to that session and is the one the manager has under its name, so
    no two sessions have a proxy of the same name; and whatever the manager
    has under a name belongs to a session that has it in its table or is
    about to take it out of the manager. *)
Theorem proxy_names_exclusive (s : Server) :
  reachable s →
  (∀ c k n p, ctls s !! c = Some k → proxies k !! n = Some p →
     pxys s !! n = Some p ∧ GetName p = n ∧ owner p = c ∧ pid p ∈ running s) ∧
  (∀ c k c' k' n, ctls s !! c = Some k → ctls s !! c' = Some k' →
     is_Some (proxies k !! n) → is_Some (proxies k' !! n) → c = c') ∧
  (∀ n p, pxys s !! n = Some p → ∃ k, ctls s !! owner p = Some k ∧
     (proxies k !! n = Some p ∨ hpc k = HDel p ∨ wpc k ≠ WRun ∧ p ∈ worker_list (wpc k))).
Proof.
  intros [Hctl Ho Hi Hm Hr]%inv_reachable.
  assert (∀ c k n p, ctls s !! c = Some k → proxies k !! n = Some p →
    pxys s !! n = Some p ∧ GetName p = n ∧ owner p = c ∧ pid p ∈ running s) as Hmine.
  { intros c k n p Hc Hp. pose proof (l_key _ (Hctl _ _ Hc) _ _ Hp) as <-.
    destruct (Ho c k p Hc) as [<- _]; [left; by left|]. split_and!; try done.
    - apply Hm. split; [done|]. exists k. split; [done|by left].
    - apply Hr. exists (owner p), k, p. split_and!; [done|by left|done]. }
  split_and!; [done| |].
  - intros c k c' k' n Hc Hc' [p Hp] [p' Hp'].
    destruct (Hmine _ _ _ _ Hc Hp) as (H & _ & <- & _), (Hmine _ _ _ _ Hc' Hp') as (H' & _ & <- & _).
    congruence.
  - intros n p (<- & k & Hc & Hh)%Hm. exists k. split; [done|].
    destruct Hh as [Hh|[Hh|Hh]]; [auto|auto|]. right. right.
    destruct (wpc k) as [|l|q l|]; try done; split; try done. simpl. apply elem_of_cons. naive_solver.
Qed.

(** C8. A session that has ended leaves nothing behind: once its worker is
    done no proxy of the session is in the manager or running; and between
    messages a running session has exactly the proxies of its table, so every
    failed registration has closed what it had opened. *)
Theorem ended_session_leaves_nothing (s : Server) (c : nat) (k : Control) :
  reachable s → ctls s !! c = Some k →
  (wpc k = WDone → (∀ n p, pxys s !! n = Some p → owner p ≠ c) ∧ ∀ p, ¬ up k p) ∧
  (wpc k = WRun → hpc k = HIdle →
     (∀ n p, pxys s !! n = Some p ∧ owner p = c ↔ proxies k !! n = Some p) ∧
     (∀ p, up k p ↔ proxies k !! GetName p = Some p)) ∧
  (∀ i, i ∈ running s → ∃ c' k' p, ctls s !! c' = Some k' ∧ up k' p ∧ pid p = i).
Proof.
  intros [Hctl Ho Hi Hm Hr]%inv_reachable Hc. pose proof (Hctl _ _ Hc) as Hok. split_and!.
  - intros Hw. destruct (l_work _ Hok) as [Hpx Hh]; [by rewrite Hw|]. unfold up. rewrite Hpx, Hh, Hw.
    split; [|intros p; rewrite lookup_empty; naive_solver].
    intros n p (_ & k' & Hc' & Hh')%Hm Heq. rewrite Heq, Hc in Hc'. injection Hc' as <-.
    unfold held in Hh'. rewrite Hpx, Hh, Hw, lookup_empty in Hh'. naive_solver.
  - intros Hw Hh. split.
    + intros n p. rewrite (Hm n p). split.
      * intros [(<- & k' & Hc' & Hh') Heq]. rewrite Heq, Hc in Hc'. injection Hc' as <-.
        unfold held in Hh'. rewrite Hh, Hw in Hh'. naive_solver.
      * intros Hp. pose proof (l_key _ Hok _ _ Hp) as <-.
        destruct (Ho c k p Hc) as [<- _]; [left; by left|]. split; [|done]. split; [done|].
        exists k. split; [done|by left].
    + intros p. unfold up. rewrite Hh, Hw. naive_solver.
  - intros i Hi'. by apply Hr.
Qed.

(** ** The limit on ports *)

Definition total (px : gmap string Proxy) : Z := map_fold (λ _ p acc, GetUsedPortsNum p + acc) 0 px.

Definition reserved (h : handler_pc) : Z :=
  match h with HExist p | HRun p | HAdd p => GetUsedPortsNum p | _ => 0 end.

Lemma total_insert px n p : px !! n = None → total (<[n := p]> px) = GetUsedPortsNum p + total px.
Proof. intros Hn. unfold total. rewrite map_fold_insert_L; [done| |done]. intros. lia. Qed.

Lemma total_delete px n p : px !! n = Some p → total px = GetUsedPortsNum p + total (delete n px).
Proof.
  intros Hn. rewrite <- (total_insert _ n); [|by rewrite lookup_delete_eq]. by rewrite insert_delete_id.
Qed.

Lemma total_nonneg px : map_Forall (λ _ p, 0 ≤ GetUsedPortsNum p) px → 0 ≤ total px.
Proof.
  induction px as [|n p px Hn IH] using map_ind; [done|]. rewrite total_insert by done.
  intros [Hp Hpx]%map_Forall_insert; [|done]. specialize (IH Hpx). lia.
Qed.

Definition nonneg (k : Control) : Prop :=
  map_Forall (λ _ p, 0 ≤ GetUsedPortsNum p) (proxies k) ∧ ∀ p, pending k = Some p → 0 ≤ GetUsedPortsNum p.

Definition quota_ok (k : Control) : Prop :=
  nonneg k ∧ (wpc k = WRun → portsUsedNum k = total (proxies k) + reserved (hpc k)) ∧
  portsUsedNum k ≤ MaxPortsPerClient.

Definition quota (s : Server) : Prop := ∀ c k, ctls s !! c = Some k → quota_ok k.

Lemma quota_set s c k n px ru : quota s → quota_ok k → quota (set_ctl (mkServer (ctls s) px ru n) c k).
Proof. intros Hq Hk c1 k1. simpl. intros [[<- <-]|[_ H]]%lookup_insert_Some; eauto. Qed.

Lemma quota_receive s c k r :
  limited = true → quota s → ctls s !! c = Some k → hpc k = HIdle → wpc k = WRun →
  (∀ name used, r = NewProxy name used → 0 ≤ used) → quota (receive s c k r).
Proof.
  intros Hlim Hq Hc Hh Hw Hr. destruct (Hq _ _ Hc) as ([Hn Hp] & Heq & Hle). specialize (Heq Hw).
  destruct k as [px pu h w]. simpl in *. subst h w. unfold receive. simpl. rewrite Hlim. simpl.
  destruct r as [name used|name].
  - destruct (Z.ltb_spec MaxPortsPerClient (pu + used)); [done|]. apply quota_set; [done|].
    split; [split; [done|]|split; simpl; [intros _; simpl in *; lia|lia]].
    intros p [= <-]. simpl. by eapply Hr.
  - destruct (px !! name) as [p|] eqn:Hpx; [|done]. apply quota_set; [done|].
    pose proof (Hn _ _ Hpx) as Hp0. simpl in Hp0. pose proof (total_delete _ _ _ Hpx) as Ht.
    split; [split; [by apply map_Forall_delete|]|split; simpl in *; [intros _; lia|lia]].
    by intros ? [= <-].
Qed.

Lemma quota_handler ok s c s' :
  limited = true → inv s → quota s → handler_step ok s c = Some s' → quota s'.
Proof.
  intros Hlim Hs Hq. unfold handler_step. destruct (ctls s !! c) as [k|] eqn:Hc; [|done].
  destruct (Hq _ _ Hc) as ([Hn Hp] & Heq & Hle). pose proof (i_ctl _ Hs _ _ Hc) as Hok.
  destruct k as [px pu h w]. simpl in *. rewrite Hlim.
  assert (∀ p, h = HExist p ∨ h = HRun p ∨ h = HAdd p →
    quota_ok (mkControl px (pu - GetUsedPortsNum p) HIdle w)) as Hfail.
  { intros p Hh. assert (0 ≤ GetUsedPortsNum p).
    { apply Hp. unfold pending. simpl. by destruct Hh as [->|[->| ->]]. }
    split; [split; [done|by intros ?]|split; simpl; [|lia]].
    intros Hw. specialize (Heq Hw). destruct Hh as [->|[->| ->]]; simpl in Heq; lia. }
  destruct h as [|p|p|p|p]; [done| | | |].
  - intros [= <-]. apply (quota_set s c _ (nextPid s) (pxys s) (running s)); [done|].
    destruct (pm_Exist _ _); [apply Hfail; auto|]. by split.
  - destruct ok; intros [= <-]; [by apply quota_set|].
    apply (quota_set s c _ (nextPid s) (pxys s) (running s)); [done|]. apply Hfail; auto.
  - unfold pm_Add. destruct (pxys s !! GetName p) eqn:Hfree; intros [= <-]; apply quota_set; try done.
    { apply Hfail; auto. }
    assert (w = WRun) as -> by by apply (ctl_ok_handler _ Hok).
    pose proof (added_free _ _ _ _ _ Hs Hc Hfree) as Hnone.
    split; [split; [|by intros ?]|split; simpl; [|lia]].
    + apply map_Forall_insert_2; [by apply Hp|done].
    + intros _. rewrite total_insert by done. specialize (Heq eq_refl). simpl in Heq. lia.
  - intros [= <-]. apply quota_set; [done|].
    split; [split; [done|by intros ?]|split; [|done]]. done.
Qed.

Lemma quota_step s s' : limited = true → inv s → quota s → step s s' → quota s'.
Proof.
  intros Hlim Hs Hq Hst. destruct Hst as [s c Hc|s c k r Hc Hh Hw Hr|ok s c s' Hst|order s c s' k Hc _ Hst].
  - apply (quota_set s c _ (nextPid s) (pxys s) (running s)); [done|].
    unfold limited in Hlim. bool_to_prop. split; [split; [apply map_Forall_empty|by intros ?]|].
    split; [done|]. simpl. lia.
  - by apply quota_receive.
  - by eapply quota_handler.
  - revert Hst. unfold worker_step. rewrite Hc. destruct (Hq _ _ Hc) as ([Hn Hp] & Heq & Hle).
    assert (∀ w', w' ≠ WRun → quota_ok (mkControl (proxies k) (portsUsedNum k) (hpc k) w')) as Hk.
    { intros w' Hw'. split; [done|]. by split. }
    destruct (wpc k) as [|[|p l]|p l|].
    + destruct (hpc k); try done. intros [= <-].
      apply (quota_set s c _ (nextPid s) (pxys s) (running s)); [done|].
      split; [split; [apply map_Forall_empty|by intros ?]|]. by split.
    + intros [= <-]. apply (quota_set s c _ (nextPid s) (pxys s) (running s)); [done|]. by apply Hk.
    + intros [= <-]. apply quota_set; [done|]. by apply Hk.
    + intros [= <-]. apply quota_set; [done|]. by apply Hk.
    + done.
Qed.

Lemma inv_quota_reachable s : limited = true → reachable s → inv s ∧ quota s.
Proof.
  intros Hlim Hr. split; [by apply inv_reachable|].
  enough (inv s ∧ quota s) by naive_solver.
  eapply (rtc_invariant step (λ s, inv s ∧ quota s)); [|exact Hr|].
  - intros s1 s2 [Hi Hq] Hst. split; [by eapply inv_step|by eapply quota_step].
  - split; [apply inv_reachable, rtc_refl|]. intros c k H. simpl in H. by rewrite lookup_empty in H.
Qed.

(** The limit on ports: with MaxPortsPerClient above zero, every
    reachable running session counts exactly the ports of the proxies in its
    table and of the one it is registering, and never more than the limit. *)
Theorem ports_within_limit (s : Server) (c : nat) (k : Control) :
  0 < MaxPortsPerClient → reachable s → ctls s !! c = Some k → wpc k = WRun →
  portsUsedNum k = total (proxies k) + reserved (hpc k) ∧
  0 ≤ total (proxies k) ≤ MaxPortsPerClient.
Proof.
  intros Hmax Hr Hc Hw. assert (limited = true) as Hlim by (unfold limited; by apply Z.ltb_lt).
  destruct (inv_quota_reachable s Hlim Hr) as [_ Hq]. destruct (Hq _ _ Hc) as ([Hn Hp] & Heq & Hle).
  specialize (Heq Hw). split; [done|]. pose proof (total_nonneg _ Hn).
  assert (0 ≤ reserved (hpc k)); [|lia]. unfold pending in Hp. destruct (hpc k); simpl; auto; lia.
Qed.

(** ** A race of two sessions for a name *)

Definition fresh_ctl : Control := mkControl ∅ 0 HIdle WRun.
Definition ctl_at (s : Server) (c : nat) : Control := default fresh_ctl (ctls s !! c).
Definition connect (c : nat) (s : Server) : Server := set_ctl s c fresh_ctl.
Definition send (c : nat) (r : request) (s : Server) : Server := receive s c (ctl_at s c) r.
Definition go (c : nat) (s : Server) : Server := default s (handler_step true s c).
Definition quit (c : nat) (s : Server) : Server :=
  default s (worker_step (map_to_list (proxies (ctl_at s c))).*2 s c).

Definition idle (s : Server) (c : nat) : bool :=
  match ctls s !! c with
  | Some (mkControl _ _ HIdle WRun) => true
  | _ => false
  end.

Lemma reach_connect c s : reachable s → bool_decide (ctls s !! c = None) = true → reachable (connect c s).
Proof. intros Hr Hc%bool_decide_eq_true. eapply rtc_r; [exact Hr|by apply step_new]. Qed.

Lemma reach_send c name used s :
  reachable s → idle s c = true → 0 ≤ used → reachable (send c (NewProxy name used) s).
Proof.
  intros Hr Hi Hu. eapply rtc_r; [exact Hr|]. unfold idle in Hi. unfold send, ctl_at.
  destruct (ctls s !! c) as [[px pu h w]|] eqn:Hc; [|done]. destruct h, w; try done.
  apply step_receive; try done. by intros ? ? [= _ <-].
Qed.

Lemma reach_go c s : reachable s → reachable (go c s).
Proof.
  intros Hr. unfold go. destruct (handler_step true s c) as [s'|] eqn:Hs; [|done].
  eapply rtc_r; [exact Hr|by eapply step_handler].
Qed.

Lemma reach_quit c s : reachable s → reachable (quit c s).
Proof.
  intros Hr. unfold quit, ctl_at. destruct (worker_step _ s c) as [s'|] eqn:Hs; [|done].
  destruct (ctls s !! c) as [k|] eqn:Hc; [|unfold worker_step in Hs; by rewrite Hc in Hs].
  eapply rtc_r; [exact Hr|]. by eapply step_worker.
Qed.

End Config.

(** Both pass the check that the name is free, and start. *)
Definition race : Server :=
  go 1 1 (go 1 1 (go 1 0 (go 1 0
    (send 1 1 (NewProxy "web" 1) (send 1 0 (NewProxy "web" 1) (connect 1 (connect 0 NewServer))))))).

(** The first registers; the second is refused and closes what it started. *)
Definition race_over : Server := go 1 1 (go 1 0 race).

(** The session of the first ends. *)
Definition race_end : Server := quit 0 (quit 0 (quit 0 (quit 0 race_over))).

Lemma race_over_reachable : reachable 1 race_over.
Proof.
  unfold race_over, race. do 6 apply reach_go.
  apply reach_send; [|by vm_compute|done]. apply reach_send; [|by vm_compute|done].
  apply reach_connect; [|by vm_compute]. apply reach_connect; [|by vm_compute]. apply rtc_refl.
Qed.

Lemma race_end_reachable : reachable 1 race_end.
Proof. unfold race_end. do 4 apply reach_quit. apply race_over_reachable. Qed.

Lemma proxy_names_exclusive_witness :
  pxys race_over !! "web" = Some (mkProxy 0 "web" 1 0) ∧ running race_over = {[ 0%nat ]} ∧
  ∃ k, ctls race_over !! 0%nat = Some k ∧
    (proxies k !! "web" = Some (mkProxy 0 "web" 1 0) ∨ hpc k = HDel (mkProxy 0 "web" 1 0) ∨
     wpc k ≠ WRun ∧ mkProxy 0 "web" 1 0 ∈ worker_list (wpc k)).
Proof.
  split; [vm_compute; reflexivity|]. split; [vm_compute; reflexivity|].
  destruct (proxy_names_exclusive 1 race_over race_over_reachable) as (_ & _ & H).
  refine (H "web" (mkProxy 0 "web" 1 0) _). vm_compute. reflexivity.
Defined.

Lemma ended_session_leaves_nothing_witness :
  is_Some (pxys race_over !! "web") ∧ ∀ n p, pxys race_end !! n = Some p → owner p ≠ 0%nat.
Proof.
  split; [eexists; vm_compute; reflexivity|].
  refine (proj1 (proj1 (ended_session_leaves_nothing 1 race_end 0 (mkControl ∅ 1 HIdle WDone)
    race_end_reachable _) _)); vm_compute; reflexivity.
Defined.

Lemma ports_within_limit_witness : 0 ≤ total (proxies (ctl_at race_over 0)) ≤ 1.
Proof.
  refine (proj2 (ports_within_limit 1 race_over 0 (ctl_at race_over 0) _ race_over_reachable _ _));
    [lia|vm_compute; reflexivity..].
Defined.

End Proxies.
