(* ===== verification/WorkConns.v ===== *)
(** The pool of work connections of a control session: RegisterWorkConn and
    GetWorkConn of server/control.go, the draining of the pool by the session's
    worker, and the NewWorkConn case of server/service.go.

    A connection is a number, and the pool a buffered channel. A run of a session
    is a sequence of calls, each logged with what it returned or closed: nothing
    is recorded inside the pool. *)
From Stdlib Require Import ZArith Lia.
From stdpp Require Import base gmap strings list fin_maps fin_sets sets relations.
From S2P Require Import Prelude.

Module WorkConns.
Local Open Scope Z_scope.

Inductive error := ErrPoolFull | ErrCtlClosed | ErrSend | ErrTimeout.

Record Pool := mkPool {
  workConnCh : list nat;
  capacity : Z;                       (* poolCount + 10 *)
  chClosed : bool;
  dispatcherDone : bool;
  reqWorkConn : nat;                  (* ReqWorkConn messages sent *)
  waiting : gset nat }.               (* user connections inside GetWorkConn *)

Definition NewPool (poolCount : Z) : Pool := mkPool [] (poolCount + 10) false false 0 ∅.

(** msg.Dispatcher.Send of a ReqWorkConn, and whether it succeeds: when the
    dispatcher has ended, the select may still choose the buffered channel,
    which [lucky] says. *)
Definition Send (lucky : bool) (p : Pool) : Pool * bool :=
  if dispatcherDone p && negb lucky then (p, false)
  else (mkPool (workConnCh p) (capacity p) (chClosed p) (dispatcherDone p) (S (reqWorkConn p))
          (waiting p), true).

(** [RegisterWorkConn]. Sending on a closed channel panics, also in a select
    with a default case; the deferred function recovers and the call returns
    its zero result, a nil error. *)
Definition RegisterWorkConn (p : Pool) (conn : nat) : Pool * res error unit :=
  if chClosed p then (p, Ok tt)
  else if Z.of_nat (length (workConnCh p)) <? capacity p then
    (mkPool (workConnCh p ++ [conn]) (capacity p) (chClosed p) (dispatcherDone p) (reqWorkConn p)
       (waiting p), Ok tt)
  else (p, Err ErrPoolFull).

(** Receiving from the channel: [None] when it would block. *)
Definition receive (p : Pool) : option (Pool * option nat) :=
  match workConnCh p with
  | conn :: l =>
      Some (mkPool l (capacity p) (chClosed p) (dispatcherDone p) (reqWorkConn p) (waiting p), Some conn)
  | [] => if chClosed p then Some (p, None) else None
  end.

Definition set_waiting (p : Pool) (w : gset nat) : Pool :=
  mkPool (workConnCh p) (capacity p) (chClosed p) (dispatcherDone p) (reqWorkConn p) w.

(** [GetWorkConn] for the user connection [u]: its result, or [None] when it
    goes on waiting. *)
Definition GetWorkConn (lucky : bool) (p : Pool) (u : nat) : Pool * option (res error nat) :=
  match receive p with
  | Some (p, Some conn) => ((Send lucky p).1, Some (Ok conn))
  | Some (p, None) => (p, Some (Err ErrCtlClosed))
  | None =>
      let '(p, sent) := Send lucky p in
      if sent then (set_waiting p ({[ u ]} ∪ waiting p), None) else (p, Some (Err ErrSend))
  end.

(** The rest of [GetWorkConn] for a waiting user connection; [timeout] is
    whether its timer has fired. *)
Definition GetWorkConn_wait (lucky timeout : bool) (p : Pool) (u : nat) : Pool * option (res error nat) :=
  let leave (p : Pool) := set_waiting p (waiting p ∖ {[ u ]}) in
  match receive p with
  | Some (p, Some conn) => (leave (Send lucky p).1, Some (Ok conn))
  | Some (p, None) => (leave p, Some (Err ErrCtlClosed))
  | None => if timeout then (leave p, Some (Err ErrTimeout)) else (p, None)
  end.

(** The worker: when the dispatcher has ended the channel is closed, and what
    is left in it is closed one by one. *)
Definition dispatcher_end (p : Pool) : Pool :=
  mkPool (workConnCh p) (capacity p) (chClosed p) true (reqWorkConn p) (waiting p).

Definition worker_close (p : Pool) : Pool :=
  mkPool (workConnCh p) (capacity p) true (dispatcherDone p) (reqWorkConn p) (waiting p).

(** A round of the loop over the closed channel: the connection it closes. *)
Definition worker_drain (p : Pool) : option (Pool * nat) :=
  match receive p with Some (p, Some conn) => Some (p, conn) | _ => None end.

(** The NewWorkConn case of [handleConnection] with svr.RegisterWorkConn: the
    pool of the control found by run id, whether the server plugin and the
    authentication accept; the new pool, and whether the connection was
    closed. *)
Definition handleNewWorkConn (ctl : option Pool) (pluginOK authOK : bool) (conn : nat) :
    option Pool * bool :=
  match ctl with
  | None => (None, true)
  | Some p =>
      if negb (pluginOK && authOK) then (Some p, true)
      else match RegisterWorkConn p conn with
           | (p, Err _) => (Some p, true)
           | (p, Ok _) => (Some p, false)
           end
  end.

(** What is seen of a session's pool from outside: a work connection that a client
    opened, whether the server closed it, and whether the channel was closed by
    then; a call of [GetWorkConn] that has to wait; what a call returned; a
    connection closed by the worker. *)
Inductive event :=
| EArrived (conn : nat) (closed late : bool)
| EWaits (u : nat)
| EResult (u : nat) (r : res error nat)
| EDrained (conn : nat).

Definition result_event (u : nat) (r : option (res error nat)) : event :=
  match r with Some r => EResult u r | None => EWaits u end.
Definition late_result (u : nat) (r : option (res error nat)) : list event :=
  match r with Some r => [EResult u r] | None => [] end.

Inductive step : Pool * list event → Pool * list event → Prop :=
| step_arrive p tr pluginOK authOK conn p' closed :
    handleNewWorkConn (Some p) pluginOK authOK conn = (Some p', closed) →
    step (p, tr) (p', tr ++ [EArrived conn closed (chClosed p)])
| step_get lucky p tr u p' r :
    u ∉ waiting p → GetWorkConn lucky p u = (p', r) → step (p, tr) (p', tr ++ [result_event u r])
| step_wait lucky timeout p tr u p' r :
    u ∈ waiting p → GetWorkConn_wait lucky timeout p u = (p', r) → step (p, tr) (p', tr ++ late_result u r)
| step_done p tr : step (p, tr) (dispatcher_end p, tr)
| step_close p tr : dispatcherDone p = true → chClosed p = false → step (p, tr) (worker_close p, tr)
| step_drain p tr p' conn :
    chClosed p = true → worker_drain p = Some (p', conn) → step (p, tr) (p', tr ++ [EDrained conn]).

(** ** The pool neither loses nor duplicates *)

(** The connections the server kept while the session ran, those that callers got
    or the worker closed, the calls that succeeded or had to wait. *)
Definition kept (tr : list event) : list nat :=
  omap (λ e, match e with EArrived c false false => Some c | _ => None end) tr.
Definition gone (tr : list event) : list nat :=
  omap (λ e, match e with EResult _ (Ok c) | EDrained c => Some c | _ => None end) tr.
Definition requests (tr : list event) : list nat :=
  omap (λ e, match e with EResult u (Ok _) | EWaits u => Some u | _ => None end) tr.
Definition drained (e : event) : bool := match e with EDrained _ => true | _ => false end.

Record pool_ok (n : Z) (s : Pool * list event) : Prop := {
  ok_flow : kept s.2 = gone s.2 ++ workConnCh s.1;
  ok_cap : capacity s.1 = n;
  ok_len : Z.of_nat (length (workConnCh s.1)) ≤ Z.max 0 n;
  ok_open : chClosed s.1 = false → Forall (λ e, drained e = false) s.2;
  ok_req : dispatcherDone s.1 = false → reqWorkConn s.1 = length (requests s.2);
  ok_done : chClosed s.1 = true → dispatcherDone s.1 = true
}.

Lemma kept_snoc tr e : kept (tr ++ [e]) = kept tr ++ kept [e].
Proof. apply omap_app. Qed.
Lemma gone_snoc tr e : gone (tr ++ [e]) = gone tr ++ gone [e].
Proof. apply omap_app. Qed.
Lemma requests_snoc tr e : requests (tr ++ [e]) = requests tr ++ requests [e].
Proof. apply omap_app. Qed.

(** What [Send] and [receive] leave as it is. *)
Lemma Send_frame lucky p q b :
  Send lucky p = (q, b) →
  workConnCh q = workConnCh p ∧ capacity q = capacity p ∧ chClosed q = chClosed p ∧ dispatcherDone q = dispatcherDone p ∧
  (dispatcherDone p = false → b = true ∧ reqWorkConn q = S (reqWorkConn p)).
Proof. unfold Send. destruct (dispatcherDone p) eqn:Hd, lucky; cbn; intros [= <- <-]; split_and!; try done. Qed.

Lemma receive_frame p q r :
  receive p = Some (q, r) →
  workConnCh p = from_option (λ c, [c]) [] r ++ workConnCh q ∧ capacity q = capacity p ∧ chClosed q = chClosed p ∧
  dispatcherDone q = dispatcherDone p ∧ reqWorkConn q = reqWorkConn p ∧ (r = None → q = p ∧ chClosed p = true).
Proof.
  unfold receive. destruct (workConnCh p) as [|c l] eqn:Hch.
  - destruct (chClosed p) eqn:Hc; [|done]. intros [= <- <-]. by rewrite Hch.
  - by intros [= <- <-].
Qed.

Lemma pool_ok_extend n p p' tr e :
  pool_ok n (p, tr) →
  workConnCh p ++ kept [e] = gone [e] ++ workConnCh p' →
  capacity p' = capacity p → chClosed p' = chClosed p → dispatcherDone p' = dispatcherDone p →
  Z.of_nat (length (workConnCh p')) ≤ Z.max 0 n →
  (chClosed p = false → drained e = false) →
  (dispatcherDone p = false → reqWorkConn p' = (reqWorkConn p + length (requests [e]))%nat) →
  pool_ok n (p', tr ++ [e]).
Proof.
  intros [Hf Hc Hl Ho Hr Hd] Hflow H1 H2 H3 H4 H5 H6. cbn [fst snd] in *. constructor; cbn [fst snd].
  - rewrite kept_snoc, gone_snoc, Hf, <- !app_assoc. by f_equal.
  - congruence.
  - done.
  - rewrite H2. intros Hcl. rewrite Forall_app, Forall_singleton. auto.
  - rewrite H3. intros Hdn. rewrite requests_snoc, length_app, H6, Hr by done. done.
  - by rewrite H2, H3.
Qed.

(** The pool is as it was. *)
Local Ltac same_pool := first [done|cbn; by rewrite app_nil_r|cbn; lia|intros; cbn; lia].

Lemma pool_ok_arrive n p tr pluginOK authOK conn p' closed :
  pool_ok n (p, tr) → handleNewWorkConn (Some p) pluginOK authOK conn = (Some p', closed) →
  pool_ok n (p', tr ++ [EArrived conn closed (chClosed p)]).
Proof.
  intros Hp. pose proof Hp as [_ Hc Hl _ _ _]. cbn in Hc, Hl. unfold handleNewWorkConn, RegisterWorkConn.
  destruct (negb (pluginOK && authOK));
    [intros [= <- <-]; apply (pool_ok_extend n p p); same_pool|].
  destruct (chClosed p) eqn:Hcl.
  { intros [= <- <-]. apply (pool_ok_extend n p p); same_pool. }
  destruct (Z.ltb_spec (Z.of_nat (length (workConnCh p))) (capacity p)) as [Hlt|]; intros [= <- <-].
  - apply (pool_ok_extend n p _); try done; cbn; intros; rewrite ?length_app; cbn; lia.
  - apply (pool_ok_extend n p p); same_pool.
Qed.

(** A call that took [r] from the channel, asked for a replacement and returned. *)
Lemma pool_ok_taken n p tr q q' lucky b conn u w :
  pool_ok n (p, tr) → receive p = Some (q, Some conn) → Send lucky q = (q', b) →
  pool_ok n (set_waiting q' w, tr ++ [EResult u (Ok conn)]).
Proof.
  intros Hp (R1 & R2 & R3 & R4 & R5 & _)%receive_frame (S1 & S2 & S3 & S4 & S5)%Send_frame. pose proof Hp as [_ Hc Hl _ _ _].
  cbn in Hc, Hl, R1. rewrite R1 in Hl. cbn in Hl. apply (pool_ok_extend n p); cbn [set_waiting workConnCh capacity chClosed dispatcherDone reqWorkConn]; try congruence.
  - cbn. by rewrite app_nil_r, S1.
  - rewrite S1. lia.
  - done.
  - intros Hd. destruct S5 as [_ ->]; [congruence|]. cbn. rewrite R5. lia.
Qed.

(** A call that failed took nothing. *)
Lemma pool_ok_failed n p tr w u e : pool_ok n (p, tr) → pool_ok n (set_waiting p w, tr ++ [EResult u (Err e)]).
Proof.
  intros Hp. pose proof Hp as [_ Hc Hl _ _ _]. cbn in Hl. apply (pool_ok_extend n p); same_pool.
Qed.

Lemma set_waiting_id p : set_waiting p (waiting p) = p.
Proof. by destruct p. Qed.

Lemma pool_ok_get n lucky p tr u p' r :
  pool_ok n (p, tr) → GetWorkConn lucky p u = (p', r) → pool_ok n (p', tr ++ [result_event u r]).
Proof.
  intros Hp. unfold GetWorkConn. destruct (receive p) as [[q [conn|]]|] eqn:Hr.
  - destruct (Send lucky q) as [q' b] eqn:Hs. intros [= <- <-]. rewrite <- (set_waiting_id q'). by eapply pool_ok_taken.
  - intros [= <- <-]. apply receive_frame in Hr as (_ & _ & _ & _ & _ & Hsame). destruct (Hsame eq_refl) as [-> _].
    rewrite <- (set_waiting_id p). by apply pool_ok_failed.
  - destruct (Send lucky p) as [q b] eqn:Hs. pose proof Hs as (S1 & S2 & S3 & S4 & S5)%Send_frame.
    pose proof Hp as [_ Hc Hl _ _ _]. cbn in Hl. destruct b; intros [= <- <-].
    + apply (pool_ok_extend n p); cbn [set_waiting workConnCh capacity chClosed dispatcherDone reqWorkConn]; try done.
      * cbn. by rewrite app_nil_r, S1.
      * by rewrite S1.
      * intros Hd. destruct (S5 Hd) as [_ ->]. cbn. lia.
    + assert (q = p) as ->. { unfold Send in Hs. destruct (_ && _); by simplify_eq. }
      rewrite <- (set_waiting_id p). by apply pool_ok_failed.
Qed.

Lemma pool_ok_wait n lucky timeout p tr u p' r :
  pool_ok n (p, tr) → GetWorkConn_wait lucky timeout p u = (p', r) → pool_ok n (p', tr ++ late_result u r).
Proof.
  intros Hp. unfold GetWorkConn_wait. destruct (receive p) as [[q [conn|]]|] eqn:Hr.
  - destruct (Send lucky q) as [q' b] eqn:Hs. intros [= <- <-]. by eapply pool_ok_taken.
  - intros [= <- <-]. apply receive_frame in Hr as (_ & _ & _ & _ & _ & Hsame). destruct (Hsame eq_refl) as [-> _]. by apply pool_ok_failed.
  - destruct timeout; intros [= <- <-]; [by apply pool_ok_failed|]. cbn. by rewrite app_nil_r.
Qed.

Lemma pool_ok_step n s s' : pool_ok n s → step s s' → pool_ok n s'.
Proof.
  intros Hp Hst. revert Hp. destruct Hst as [| | |p tr|p tr Hd Hcl|p tr p' conn Hcl Hd]; intros Hp.
  - by eapply pool_ok_arrive.
  - by eapply pool_ok_get.
  - by eapply pool_ok_wait.
  - destruct Hp. by constructor.
  - destruct Hp. by constructor.
  - unfold worker_drain in Hd. destruct (receive p) as [[q [c|]]|] eqn:Hr; simplify_eq.
    apply receive_frame in Hr as (R1 & R2 & R3 & R4 & R5 & _). pose proof Hp as [_ Hc Hl _ _ _]. cbn in Hl, R1.
    rewrite R1 in Hl. cbn in Hl. apply (pool_ok_extend n p); try done.
    + cbn. by rewrite app_nil_r.
    + lia.
    + congruence.
    + intros _. cbn. lia.
Qed.

(** C24. No work connection is lost or handed out twice. Whatever the calls on a
    session's pool return, in their order, the connections that the server kept
    while the session ran are, in order, those that callers of [GetWorkConn] got
    or the ending session closed, followed by those still in the channel, at most
    PoolCount + 10 (PoolCount is at least -10: below, the channel cannot be made);
    a call that fails took none. None is closed before the session
    ends, while it runs the client was asked for one connection for each that was
    handed out and for each call that had to wait, and when the channel is drained
    every kept connection was handed out or closed. *)
Theorem pool_loses_nothing (poolCount : Z) (p : Pool) (tr : list event) :
  -10 ≤ poolCount → rtc step (NewPool poolCount, []) (p, tr) →
  kept tr = gone tr ++ workConnCh p ∧
  Z.of_nat (length (workConnCh p)) ≤ poolCount + 10 ∧
  (chClosed p = false → ∀ conn, EDrained conn ∉ tr) ∧
  (dispatcherDone p = false → reqWorkConn p = length (requests tr)) ∧
  (chClosed p = true → worker_drain p = None → kept tr = gone tr).
Proof.
  intros Hn Hr.
  assert (pool_ok (poolCount + 10) (p, tr)) as [Hf Hc Hl Ho Hq Hd].
  { eapply (rtc_invariant step); [apply pool_ok_step|exact Hr|]. constructor; simpl; try done. lia. }
  cbn [fst snd] in *. split_and!; [done|lia| |done|].
  - intros Hcl conn Hin. specialize (Ho Hcl). rewrite Forall_forall in Ho. by specialize (Ho _ Hin).
  - intros Hcl. unfold worker_drain, receive. rewrite Hf.
    destruct (workConnCh p); [by rewrite app_nil_r|done].
Qed.

(** What becomes of a new work connection: it is closed exactly when no
    session has its run id, the plugin or the authentication refuse it, or the
    pool is open and full; otherwise it is in the pool, unless the session is
    closing: then it is reported as registered, but it is neither in the pool
    nor closed. *)
Theorem work_conn_admission (ctl : option Pool) (pluginOK authOK : bool) (conn : nat) :
  let '(ctl', closed) := handleNewWorkConn ctl pluginOK authOK conn in
  (closed = true ↔
     ctl = None ∨ pluginOK = false ∨ authOK = false ∨
     ∃ p, ctl = Some p ∧ chClosed p = false ∧ capacity p ≤ Z.of_nat (length (workConnCh p))) ∧
  (closed = true → ctl' = ctl) ∧
  (closed = false → ∃ p p', ctl = Some p ∧ ctl' = Some p' ∧
     if chClosed p then p' = p else workConnCh p' = workConnCh p ++ [conn]).
Proof.
  unfold handleNewWorkConn, RegisterWorkConn. destruct ctl as [p|]; [|naive_solver].
  destruct pluginOK, authOK; simpl; try naive_solver.
  destruct (chClosed p) eqn:Hcl.
  - split_and!; [|done|].
    + split; [done|]. naive_solver.
    + intros _. exists p, p. by rewrite Hcl.
  - destruct (Z.ltb_spec (Z.of_nat (length (workConnCh p))) (capacity p)) as [Hlt|Hge].
    + split_and!; [|done|].
      * split; [done|]. intros [?|[?|[?|(q & [= <-] & _ & ?)]]]; [done..|lia].
      * intros _. eexists p, _. rewrite Hcl. done.
    + split_and!; [|done|done]. split; [|done]. intros _. right. right. right. eauto.
Qed.

(** ** Witness *)

Definition demo_pool : Pool := (GetWorkConn false (RegisterWorkConn (NewPool (-9)) 7).1 1).1.
Definition demo_trace : list event := [EArrived 7 false false; EResult 1 (Ok 7%nat)].

Lemma pool_loses_nothing_witness : kept demo_trace = [7%nat] ∧ kept demo_trace = gone demo_trace ++ workConnCh demo_pool ∧ reqWorkConn demo_pool = 1%nat.
Proof.
  destruct (pool_loses_nothing (-9) demo_pool demo_trace) as (H1 & _ & _ & H2 & _); [lia| |split; [done|split; [exact H1|by apply H2]]].
  eapply rtc_l; [by apply (step_arrive _ _ true true 7)|].
  eapply rtc_l; [apply (step_get false _ _ 1); [vm_compute; discriminate|reflexivity]|]. apply rtc_refl.
Defined.

End WorkConns.
