(* ===== verification/Server.v ===== *)
(** The server as a whole: the control sessions of the file Sessions together
    with the proxies of the file Proxies.

    [worker] of server/control.go is in both: Sessions has its place in the
    life of the session, Proxies what it does to the proxies. Here the two run
    together: a session's proxies come with [Start], its messages are handled
    while it runs, and its worker goes on to mark the client offline only when
    it has closed every proxy. Every execution of the whole is an execution of
    each part, so the theorems of both hold of it. *)
From Stdlib Require Import ZArith Lia.
From stdpp Require Import base gmap strings list fin_maps relations.
From S2P Require Import Prelude Registry Sessions Proxies.

Module Server.

Section Config.
Variable MaxPortsPerClient : Z.

(** The login is about to start the worker. *)
Definition spawns (s : Sessions.Service) (c : nat) : bool :=
  match Sessions.heap s !! c with
  | Some e =>
      match Sessions.lpc e with
      | Sessions.LStart => negb (Sessions.replaced (Sessions.ctl e))
      | _ => false
      end
  | None => false
  end.

(** What the worker's move at [w] needs of, and does to, the proxies. *)
Definition worker_sync (order : list Proxies.Proxy) (w : Sessions.worker_pc) (q : Proxies.Server) (c : nat) :
    option Proxies.Server :=
  match Proxies.ctls q !! c with
  | None => None
  | Some k =>
      match w with
      | Sessions.WRun => Proxies.worker_step order q c
      | Sessions.WCleanup => match Proxies.wpc k with Proxies.WDone => Some q | _ => None end
      | _ => Some q
      end
  end.

Inductive step : Sessions.Service * Proxies.Server → Sessions.Service * Proxies.Server → Prop :=
| run_new rnd auth maxPool pool s q m :
    rnd ≠ Some "" → step (s, q) ((Sessions.RegisterControl_add rnd auth maxPool pool s m).1, q)
| run_login now ok s q c s' :
    Sessions.login_step now ok s c = Some s' →
    step (s, q) (s', if spawns s c then Proxies.connect c q else q)
| run_worker now order s q c e s' q' :
    Sessions.heap s !! c = Some e → Sessions.worker_step now s c = Some s' →
    (∀ k, Proxies.ctls q !! c = Some k → order ≡ₚ (map_to_list (Proxies.proxies k)).*2) →
    worker_sync order (Sessions.wpc e) q c = Some q' → step (s, q) (s', q')
| run_heartbeat s q c : step (s, q) (Sessions.heartbeat_timeout s c, q)
| run_close s q : step (s, q) (Sessions.cm_Close s, q)
| run_message s q c k r :
    Proxies.ctls q !! c = Some k → Proxies.hpc k = Proxies.HIdle → Proxies.wpc k = Proxies.WRun →
    (∀ name used, r = Proxies.NewProxy name used → (0 ≤ used)%Z) →
    step (s, q) (s, Proxies.receive MaxPortsPerClient q c k r)
| run_handler ok s q c q' :
    Proxies.handler_step MaxPortsPerClient ok q c = Some q' → step (s, q) (s, q')
| run_cleanup s q c k q' :
    Proxies.ctls q !! c = Some k → Proxies.wpc k ≠ Proxies.WRun →
    Proxies.worker_step [] q c = Some q' → step (s, q) (s, q').

Definition reachable : Sessions.Service * Proxies.Server → Prop :=
  rtc step (Sessions.NewService, Proxies.NewServer).

(** ** How the two views of a session fit *)

Definition fits (w : Sessions.worker_pc) (k : option Proxies.Control) : Prop :=
  match w with
  | Sessions.WIdle => k = None
  | Sessions.WRun => ∃ k', k = Some k' ∧ Proxies.wpc k' = Proxies.WRun
  | Sessions.WCleanup => ∃ k', k = Some k' ∧ Proxies.wpc k' ≠ Proxies.WRun
  | _ => ∃ k', k = Some k' ∧ Proxies.wpc k' = Proxies.WDone
  end.

Definition worker_at (s : Sessions.Service) (c : nat) : Sessions.worker_pc :=
  match Sessions.heap s !! c with Some e => Sessions.wpc e | None => Sessions.WIdle end.

Definition coupled (s : Sessions.Service) (q : Proxies.Server) : Prop :=
  ∀ c, fits (worker_at s c) (Proxies.ctls q !! c).

(** Where the workers are after each step of the sessions. *)
Lemma worker_at_set s c e c' :
  worker_at (Sessions.set_session s c e) c' = if decide (c' = c) then Sessions.wpc e else worker_at s c'.
Proof.
  unfold worker_at. simpl. case_decide as Hc; [subst; by rewrite lookup_insert_eq|].
  by rewrite lookup_insert_ne.
Qed.

Lemma worker_at_cm_Del s run c c' : worker_at (Sessions.cm_Del s run c) c' = worker_at s c'.
Proof. unfold worker_at. by rewrite Sessions.heap_cm_Del. Qed.

Lemma worker_at_login now ok s c s' :
  Sessions.login_step now ok s c = Some s' →
  ∀ c', worker_at s' c' = if decide (c' = c) then (if spawns s c then Sessions.WRun else worker_at s c)
                          else worker_at s c'.
Proof.
  unfold Sessions.login_step, spawns, worker_at at 2. destruct (Sessions.heap s !! c) as [e|] eqn:Hc; [|done].
  destruct e as [k l w]. simpl. destruct l as [old| | | | | | | |]; simpl; try done.
  - destruct (match old with Some o => Sessions.is_done s o | None => true end); [|done].
    destruct (Registry.Register _ _ _) as [cr [key conflict]]. intros [= <-] c'. by rewrite worker_at_set.
  - intros [= <-] c'. by rewrite worker_at_set, worker_at_cm_Del.
  - intros [= <-] c'. by rewrite worker_at_set.
  - intros [= <-] c'. by rewrite worker_at_set, worker_at_cm_Del.
  - intros [= <-] c'. by rewrite worker_at_set.
  - unfold Sessions.Start. destruct (Sessions.replaced k); intros [= <-] c'; by rewrite worker_at_set.
  - intros [= <-] c'. by rewrite worker_at_set.
  - destruct (Sessions.doneCh k); [|done]. intros [= <-] c'. by rewrite worker_at_set, worker_at_cm_Del.
Qed.

Lemma worker_at_worker now s c e s' :
  Sessions.heap s !! c = Some e → Sessions.worker_step now s c = Some s' →
  ∃ w, (∀ c', worker_at s' c' = if decide (c' = c) then w else worker_at s c') ∧
    match Sessions.wpc e with
    | Sessions.WIdle | Sessions.WEnd => False
    | Sessions.WRun => w = Sessions.WCleanup
    | _ => w ≠ Sessions.WIdle ∧ w ≠ Sessions.WRun ∧ w ≠ Sessions.WCleanup
    end.
Proof.
  intros Hc. unfold Sessions.worker_step. rewrite Hc. destruct e as [k l w]. simpl.
  destruct w; try done; intros [= <-]; (eexists; split; [intros c'; by rewrite worker_at_set|done]).
Qed.

Lemma worker_at_new rnd auth maxPool pool s m c :
  rnd ≠ Some "" → Sessions.sessions_ok s →
  worker_at (Sessions.RegisterControl_add rnd auth maxPool pool s m).1 c = worker_at s c.
Proof.
  intros Hrnd Hs. destruct (Sessions.RegisterControl_add _ _ _ _ _ _) as [s' a] eqn:Ha. simpl.
  apply Sessions.RegisterControl_cases in Ha as [[-> _]|(k & _ & _ & _ & _ & _ & ->)]; [done| |done].
  unfold worker_at. simpl. destruct (decide (c = Sessions.next s)) as [->|Hne].
  - rewrite lookup_insert_eq. destruct (Sessions.heap s !! Sessions.next s) as [e|] eqn:He; [|done].
    assert (Sessions.next s < Sessions.next s)%nat; [|lia]. apply (Sessions.s_fresh _ Hs). eauto.
  - rewrite lookup_insert_ne by done. destruct (Sessions.ctlsByRunID s !! _) as [o|]; [|done].
    destruct (decide (c = o)) as [->|]; [|by rewrite lookup_alter_ne]. rewrite lookup_alter_eq.
    by destruct (Sessions.heap s !! o).
Qed.

Lemma worker_at_heartbeat s c c' : worker_at (Sessions.heartbeat_timeout s c) c' = worker_at s c'.
Proof.
  unfold Sessions.heartbeat_timeout. destruct (Sessions.heap s !! c) as [e|] eqn:Hc; [|done].
  assert (worker_at (Sessions.set_session s c (Sessions.on_ctl Sessions.Close e)) c' = worker_at s c') as Hset.
  { rewrite worker_at_set. case_decide; [|done]. subst. unfold worker_at. by rewrite Hc. }
  by destruct (Sessions.wpc e).
Qed.

Lemma worker_at_close s c : worker_at (Sessions.cm_Close s) c = worker_at s c.
Proof.
  unfold worker_at, Sessions.cm_Close. simpl. rewrite map_lookup_imap.
  destruct (Sessions.heap s !! c); [|done]. simpl. by case_bool_decide.
Qed.

(** What the steps of the proxies do to the place of each worker. *)
Definition phase (q : Proxies.Server) (c : nat) : option Proxies.worker_pc := Proxies.wpc <$> Proxies.ctls q !! c.

Lemma fits_phase w k k' : fits w k → Proxies.wpc <$> k' = Proxies.wpc <$> k → fits w k'.
Proof.
  intros Hf Heq. destruct k as [k|], k' as [k'|]; simplify_eq/=; [|done].
  destruct w; simpl in *; try done; destruct Hf as (k1 & [= <-] & Hk); eexists; (split; [done|]); congruence.
Qed.

Lemma phase_set q c k px ru n c' :
  phase (Proxies.set_ctl (Proxies.mkServer (Proxies.ctls q) px ru n) c k) c' =
  if decide (c' = c) then Some (Proxies.wpc k) else phase q c'.
Proof.
  unfold phase. simpl. case_decide as Hc; [subst; by rewrite lookup_insert_eq|]. by rewrite lookup_insert_ne.
Qed.

Lemma phase_set_same q c k k' px ru n c' :
  Proxies.ctls q !! c = Some k → Proxies.wpc k' = Proxies.wpc k →
  phase (Proxies.set_ctl (Proxies.mkServer (Proxies.ctls q) px ru n) c k') c' = phase q c'.
Proof.
  intros Hc Hw. rewrite phase_set. case_decide; [subst|done]. unfold phase. rewrite Hc. simpl. by rewrite Hw.
Qed.

Lemma phase_receive q c k r c' :
  Proxies.ctls q !! c = Some k → phase (Proxies.receive MaxPortsPerClient q c k r) c' = phase q c'.
Proof.
  intros Hc. unfold Proxies.receive. destruct r as [name used|name].
  - destruct (_ && _); [done|]. by apply (phase_set_same q c k).
  - destruct (Proxies.proxies k !! name) as [p|]; [|done]. by apply (phase_set_same q c k).
Qed.

Lemma phase_handler ok q c q' c' :
  Proxies.handler_step MaxPortsPerClient ok q c = Some q' → phase q' c' = phase q c'.
Proof.
  unfold Proxies.handler_step. destruct (Proxies.ctls q !! c) as [k|] eqn:Hc; [|done].
  assert (∀ k', Proxies.wpc k' = Proxies.wpc k → phase (Proxies.set_ctl q c k') c' = phase q c') as Hset.
  { intros k' Hk'. by apply (phase_set_same q c k k' (Proxies.pxys q) (Proxies.running q) (Proxies.nextPid q)). }
  destruct (Proxies.hpc k) as [|p|p|p|p]; [done|..].
  - intros [= <-]. apply Hset. by destruct (Proxies.pm_Exist _ _).
  - destruct ok; intros [= <-]; [by apply (phase_set_same q c k)|by apply Hset].
  - destruct (Proxies.pm_Add _ _ _); intros [= <-]; by apply (phase_set_same q c k).
  - intros [= <-]. by apply (phase_set_same q c k).
Qed.

Lemma phase_worker order q c k q' :
  Proxies.ctls q !! c = Some k → Proxies.worker_step order q c = Some q' →
  (∀ c', c' ≠ c → phase q' c' = phase q c') ∧
  ∃ k', Proxies.ctls q' !! c = Some k' ∧ Proxies.wpc k' ≠ Proxies.WRun ∧ Proxies.wpc k ≠ Proxies.WDone.
Proof.
  intros Hc. unfold Proxies.worker_step. rewrite Hc.
  assert (∀ k' px ru n, Proxies.wpc k' ≠ Proxies.WRun → Proxies.wpc k ≠ Proxies.WDone →
    let q1 := Proxies.set_ctl (Proxies.mkServer (Proxies.ctls q) px ru n) c k' in
    (∀ c', c' ≠ c → phase q1 c' = phase q c') ∧
    ∃ k2, Proxies.ctls q1 !! c = Some k2 ∧ Proxies.wpc k2 ≠ Proxies.WRun ∧ Proxies.wpc k ≠ Proxies.WDone) as Hset.
  { intros k' px ru n Hk Hd q1. split; [|exists k'; simpl; by rewrite lookup_insert_eq].
    intros c' Hne. unfold q1. by rewrite phase_set, decide_False. }
  destruct (Proxies.wpc k) as [|[|p l]|p l|]; [|..|done].
  - destruct (Proxies.hpc k); try done. intros [= <-].
    by apply (Hset _ (Proxies.pxys q) (Proxies.running q) (Proxies.nextPid q)).
  - intros [= <-]. by apply (Hset _ (Proxies.pxys q) (Proxies.running q) (Proxies.nextPid q)).
  - intros [= <-]. by apply Hset.
  - intros [= <-]. by apply Hset.
Qed.

(** ** Every execution of the whole is one of each part *)

Record whole (x : Sessions.Service * Proxies.Server) : Prop := {
  w_sessions : Sessions.reachable x.1;
  w_proxies : Proxies.reachable MaxPortsPerClient x.2;
  w_coupled : coupled x.1 x.2
}.

Lemma coupled_sessions s s' q : coupled s q → (∀ c, worker_at s' c = worker_at s c) → coupled s' q.
Proof. intros Hc Hw c. rewrite Hw. apply Hc. Qed.

Lemma coupled_proxies s q q' : coupled s q → (∀ c, phase q' c = phase q c) → coupled s q'.
Proof. intros Hc Hw c. eapply fits_phase; [apply Hc|apply Hw]. Qed.

Lemma whole_login now ok s q c s' :
  whole (s, q) → Sessions.login_step now ok s c = Some s' →
  whole (s', if spawns s c then Proxies.connect c q else q).
Proof.
  intros [Hs Hq Hc] Hst. simpl in *. pose proof (worker_at_login _ _ _ _ _ Hst) as Hw.
  assert (spawns s c = true → Proxies.ctls q !! c = None) as Hnew.
  { intros Hsp. specialize (Hc c). unfold worker_at in Hc. unfold spawns in Hsp.
    destruct (Sessions.heap s !! c) as [[k l w]|] eqn:He; [|done]. simpl in *. destruct l; try done.
    pose proof (Sessions.s_each _ (Sessions.sessions_ok_reachable _ Hs) _ _ He) as Hok.
    by rewrite (Sessions.session_ok_unfinished _ _ _ Hok eq_refl) in Hc. }
  constructor; simpl.
  - eapply rtc_r; [exact Hs|by eapply Sessions.step_login].
  - destruct (spawns s c); [|done]. eapply rtc_r; [exact Hq|]. apply Proxies.step_new. auto.
  - intros c'. rewrite Hw. destruct (spawns s c); simpl.
    + case_decide; [subst|]; [rewrite lookup_insert_eq; by eexists|rewrite lookup_insert_ne by done; apply Hc].
    + case_decide; [subst|]; apply Hc.
Qed.

Lemma whole_worker now order s q c e s' q' :
  whole (s, q) → Sessions.heap s !! c = Some e → Sessions.worker_step now s c = Some s' →
  (∀ k, Proxies.ctls q !! c = Some k → order ≡ₚ (map_to_list (Proxies.proxies k)).*2) →
  worker_sync order (Sessions.wpc e) q c = Some q' → whole (s', q').
Proof.
  intros [Hs Hq Hc] He Hst Hord Hsync. simpl in *.
  destruct (worker_at_worker _ _ _ _ _ He Hst) as (w & Hw & Hwe).
  pose proof (Hc c) as Hfit. unfold worker_at in Hfit. rewrite He in Hfit.
  unfold worker_sync in Hsync. destruct (Proxies.ctls q !! c) as [k|] eqn:Hk; [|done].
  assert (Sessions.reachable s') as Hs' by (eapply rtc_r; [exact Hs|by eapply Sessions.step_worker]).
  destruct (Sessions.wpc e); try done.
  1: { subst w. destruct (phase_worker _ _ _ _ _ Hk Hsync) as [Hph (k' & Hk' & Hne & _)].
       constructor; simpl; [done| |].
       - eapply rtc_r; [exact Hq|]. eapply Proxies.step_worker; [done| |exact Hsync]. auto.
       - intros c'. rewrite Hw. case_decide; [subst; rewrite Hk'; by eexists|].
         eapply fits_phase; [apply Hc|by apply Hph]. }
  1: destruct (Proxies.wpc k) eqn:Hkw; try done.
  all: injection Hsync as <-; constructor; simpl; [done..|]; intros c'; rewrite Hw;
    (case_decide; [subst|apply Hc]); rewrite Hk; destruct Hwe as (H1 & H2 & H3).
  1: destruct w; try done; by eexists.
  all: destruct Hfit as (k1 & [= <-] & Hk1); destruct w; try done; by eexists.
Qed.

Lemma whole_step x y : whole x → step x y → whole y.
Proof.
  intros Hx Hst. destruct Hst as [rnd auth mp pool s q m Hr|now ok s q c s' H|now order s q c e s' q' He H Ho Hq|
    s q c|s q|s q c k r Hk Hh Hw Hn|ok s q c q' H|s q c k q' Hk Hw H].
  - destruct Hx as [Hs Hq Hc]. constructor; simpl in *; [|done|].
    + eapply rtc_r; [exact Hs|by apply Sessions.step_new].
    + eapply coupled_sessions; [done|]. intros c. apply worker_at_new; [done|].
      by apply Sessions.sessions_ok_reachable.
  - by eapply whole_login.
  - by eapply whole_worker.
  - destruct Hx as [Hs Hq Hc]. constructor; simpl in *; [|done|].
    + eapply rtc_r; [exact Hs|by apply Sessions.step_heartbeat].
    + eapply coupled_sessions; [done|]. intros c'. apply worker_at_heartbeat.
  - destruct Hx as [Hs Hq Hc]. constructor; simpl in *; [|done|].
    + eapply rtc_r; [exact Hs|by apply Sessions.step_close].
    + eapply coupled_sessions; [done|]. intros c'. apply worker_at_close.
  - destruct Hx as [Hs Hq Hc]. constructor; simpl in *; [done| |].
    + eapply rtc_r; [exact Hq|by apply Proxies.step_receive].
    + eapply coupled_proxies; [done|]. intros c'. by apply phase_receive.
  - destruct Hx as [Hs Hq Hc]. constructor; simpl in *; [done| |].
    + eapply rtc_r; [exact Hq|by eapply Proxies.step_handler].
    + eapply coupled_proxies; [done|]. intros c'. by eapply phase_handler.
  - destruct Hx as [Hs Hq Hc]. simpl in *. destruct (phase_worker _ _ _ _ _ Hk H) as [Hph (k' & Hk' & Hne & Hnd)].
    constructor; simpl; [done| |].
    + eapply rtc_r; [exact Hq|]. apply (Proxies.step_worker _ [] q c q' k); [done|by intros ?|done].
    + intros c'. destruct (decide (c' = c)) as [->|Hc']; [|eapply fits_phase; [apply Hc|by apply Hph]].
      specialize (Hc c). rewrite Hk in Hc. rewrite Hk'.
      destruct (worker_at s c); simpl in *; try done; destruct Hc as (k1 & [= <-] & Hk1); try done.
      by eexists.
Qed.

Lemma whole_reachable x : reachable x → whole x.
Proof.
  intros Hr. eapply (rtc_invariant step); [apply whole_step|exact Hr|].
  constructor; [apply rtc_refl..|]. done.
Qed.

(** A session whose done channel is closed has no proxies. *)
Lemma done_no_proxies s q o e :
  whole (s, q) → Sessions.heap s !! o = Some e → Sessions.doneCh (Sessions.ctl e) = true →
  ∀ n p, Proxies.pxys q !! n = Some p → Proxies.owner p ≠ o.
Proof.
  intros [Hs Hq Hc] He Hd n p Hp Heq. simpl in *.
  pose proof (Sessions.s_each _ (Sessions.sessions_ok_reachable _ Hs) _ _ He) as Hok.
  destruct (Proxies.inv_reachable _ _ Hq) as [Hctl _ _ Hm _].
  apply Hm in Hp as (_ & k & Hk & Hh). rewrite Heq in Hk.
  specialize (Hc o). unfold worker_at in Hc. rewrite He, Hk in Hc.
  assert (Sessions.wpc e = Sessions.WEnd) as Hw.
  { apply (Sessions.ok_done _ Hok) in Hd as [|[Hst _]]; [done|].
    destruct (Sessions.wpc e) eqn:Hw; [done|..];
      (assert (Sessions.started (Sessions.ctl e) = true) by (apply (Sessions.ok_started _ Hok); congruence));
      congruence. }
  rewrite Hw in Hc. destruct Hc as (k' & [= <-] & Hkw).
  destruct (Proxies.l_work _ (Hctl _ _ Hk)) as [Hpx Hhp]; [by rewrite Hkw|].
  unfold Proxies.held in Hh. rewrite Hpx, Hhp, Hkw, lookup_empty in Hh. naive_solver.
Qed.

(** C6. A login that waits for the session it replaces goes on only when that
    session has left nothing: in every execution of the whole server, when the
    login of a control that replaced [o] can make its next move, no proxy in
    the manager belongs to [o], so the client's own old proxies are not in the
    way of its new ones; and the execution is one of the sessions and one of
    the proxies, so what holds of them holds here. *)
Theorem replaced_session_is_gone (now : Z) (ok : bool) (s : Sessions.Service) (q : Proxies.Server)
    (c o : nat) (e : Sessions.Session) :
  reachable (s, q) → Sessions.heap s !! c = Some e → Sessions.lpc e = Sessions.LWaitClosed (Some o) →
  is_Some (Sessions.login_step now ok s c) →
  (∀ n p, Proxies.pxys q !! n = Some p → Proxies.owner p ≠ o) ∧
  Sessions.reachable s ∧ Proxies.reachable MaxPortsPerClient q.
Proof.
  intros Hr%whole_reachable Hc Hl [s' Hst]. split; [|by destruct Hr].
  unfold Sessions.login_step in Hst. rewrite Hc, Hl in Hst. unfold Sessions.is_done in Hst.
  destruct (Sessions.heap s !! o) as [eo|] eqn:Ho; [|done].
  destruct (Sessions.doneCh (Sessions.ctl eo)) eqn:Hd; [|done]. by eapply done_no_proxies.
Qed.

(** ** A schedule *)

Inductive action :=
| ANew (m : Registry.Login) | ALogin (c : nat) | AWorker (c : nat)
| AMessage (c : nat) (name : string) | AHandler (c : nat) | ACleanup (c : nat).

Definition values (q : Proxies.Server) (c : nat) : list Proxies.Proxy :=
  match Proxies.ctls q !! c with Some k => (map_to_list (Proxies.proxies k)).*2 | None => [] end.

Definition act (x : Sessions.Service * Proxies.Server) (a : action) :
    option (Sessions.Service * Proxies.Server) :=
  let '(s, q) := x in
  match a with
  | ANew m => Some ((Sessions.RegisterControl_add None true 5 1 s m).1, q)
  | ALogin c =>
      s' ← Sessions.login_step 100 true s c; Some (s', if spawns s c then Proxies.connect c q else q)
  | AWorker c =>
      e ← Sessions.heap s !! c; s' ← Sessions.worker_step 100 s c;
      q' ← worker_sync (values q c) (Sessions.wpc e) q c; Some (s', q')
  | AMessage c name =>
      match Proxies.ctls q !! c with
      | Some (Proxies.mkControl px pu Proxies.HIdle Proxies.WRun as k) =>
          Some (s, Proxies.receive MaxPortsPerClient q c k (Proxies.NewProxy name 1))
      | _ => None
      end
  | AHandler c => q' ← Proxies.handler_step MaxPortsPerClient true q c; Some (s, q')
  | ACleanup c =>
      match Proxies.ctls q !! c with
      | Some k =>
          match Proxies.wpc k with
          | Proxies.WRun => None
          | _ => q' ← Proxies.worker_step [] q c; Some (s, q')
          end
      | None => None
      end
  end.

Lemma server_act_step x a y : act x a = Some y → step x y.
Proof.
  destruct x as [s q], a as [m|c|c|c name|c|c]; unfold act.
  - intros [= <-]. by apply run_new.
  - intros (s' & Hs & [= <-])%bind_Some. by eapply run_login.
  - intros (e & He & (s' & Hs & (q' & Hq & [= <-])%bind_Some)%bind_Some)%bind_Some.
    eapply run_worker; [done..| |done]. intros k Hk. unfold values. by rewrite Hk.
  - destruct (Proxies.ctls q !! c) as [[px pu [] []]|] eqn:Hk; try done. intros Hy.
    injection Hy as <-.
    apply (run_message s q c _ (Proxies.NewProxy name 1) Hk); try done. by intros ? ? [= _ <-].
  - intros (q' & Hq & [= <-])%bind_Some. by eapply run_handler.
  - destruct (Proxies.ctls q !! c) as [k|] eqn:Hk; [|done].
    destruct (Proxies.wpc k) eqn:Hw; try done; intros (q' & Hq & [= <-])%bind_Some;
      (eapply run_cleanup; [done|by rewrite Hw|done]).
Qed.

Fixpoint exec (x : Sessions.Service * Proxies.Server) (l : list action) :
    option (Sessions.Service * Proxies.Server) :=
  match l with [] => Some x | a :: l => y ← act x a; exec y l end.

Lemma server_exec_rtc x l y : exec x l = Some y → rtc step x y.
Proof.
  revert x. induction l as [|a l IH]; simpl; intros x; [by intros [= <-]|].
  intros (z & Hz & Hy)%bind_Some. eapply rtc_l; [by eapply server_act_step|by apply IH].
Qed.

Definition state_at (l : list action) : Sessions.Service * Proxies.Server :=
  default (Sessions.NewService, Proxies.NewServer) (exec (Sessions.NewService, Proxies.NewServer) l).

Lemma state_at_reachable l : reachable (state_at l).
Proof.
  unfold state_at. destruct (exec _ l) as [x|] eqn:Hx; [by eapply server_exec_rtc|apply rtc_refl].
Qed.

End Config.

(** A session registers a proxy, its client logs in again, and the old
    session's worker cleans up. *)
Definition takeover : list action :=
  [ANew Sessions.demo_client; ALogin 0; ALogin 0; ALogin 0; ALogin 0;
   AMessage 0 "web"; AHandler 0; AHandler 0; AHandler 0;
   ANew Sessions.demo_client;
   AWorker 0; ACleanup 0; ACleanup 0; ACleanup 0; AWorker 0; AWorker 0; AWorker 0; AWorker 0].

Lemma replaced_session_is_gone_witness :
  is_Some (Proxies.pxys (state_at 0 (take 9 takeover)).2 !! "web") ∧
  ∀ n p, Proxies.pxys (state_at 0 takeover).2 !! n = Some p → Proxies.owner p ≠ 0%nat.
Proof.
  split; [eexists; vm_compute; reflexivity|].
  refine (proj1 (replaced_session_is_gone 0 100 true (state_at 0 takeover).1 (state_at 0 takeover).2 1 0
    (Sessions.mkSession (Sessions.mkControl Sessions.demo_client 1 "r1" false false false false)
       (Sessions.LWaitClosed (Some 0%nat)) Sessions.WIdle) _ _ _ _)).
  - rewrite <- surjective_pairing. apply state_at_reachable.
  - vm_compute. reflexivity.
  - reflexivity.
  - eexists. vm_compute. reflexivity.
Defined.

End Server.
