(* ===== verification/ConfigTypes.v ===== *)
(** Values of the configuration files, pkg/config/types/types.go: bandwidth
    quantities and lists of port ranges, with [ParseRangeNumbers] of
    pkg/util/util/util.go, which reads the same notation into numbers. *)
From Stdlib Require Import ZArith Lia Ascii String.
From stdpp Require Import base gmap strings list pretty.
From S2P Require Import Prelude GoLib Ports.

Local Open Scope Z_scope.
Local Open Scope frp_scope.

Module ConfigTypes.
Import Ports.

(** ** Bandwidth quantities *)

Definition MB : Z := 1024 * 1024.
Definition KB : Z := 1024.
Definition BandwidthLimitModeClient : string := "client".
Definition BandwidthLimitModeServer : string := "server".

Record BandwidthQuantity := mkBandwidthQuantity { bq_s : string; bq_i : Z }.

Inductive bandwidth_error := ErrUnit | ErrParseFloat (s : string).

Section Bandwidth.
(** Floating-point numbers: [ParseFloat] is strconv.ParseFloat(s, 64), and
    [scale f base] is int64(f * float64(base)). *)
Context {float64 : Type} (ParseFloat : string → option float64) (scale : float64 → Z → Z).

Definition UnmarshalString (q : BandwidthQuantity) (s : string) :
    res bandwidth_error BandwidthQuantity :=
  let s := TrimSpace s in
  if String.eqb s "" then Ok q
  else
    let finish (fstr : string) (base : Z) :=
      match ParseFloat fstr with
      | Some f => Ok (mkBandwidthQuantity s (scale f base))
      | None => Err (ErrParseFloat fstr)
      end in
    match CutSuffix s "MB" with
    | Some fstr => finish fstr MB
    | None =>
        match CutSuffix s "KB" with
        | Some fstr => finish fstr KB
        | None => Err ErrUnit
        end
    end.

Definition NewBandwidthQuantity (s : string) : res bandwidth_error BandwidthQuantity :=
  UnmarshalString (mkBandwidthQuantity "" 0) s.

Definition bq_Equal (q u : option BandwidthQuantity) : bool :=
  match q, u with
  | None, None => true
  | Some q, Some u => (bq_i q =? bq_i u)
  | _, _ => false
  end.

Definition bq_String (q : BandwidthQuantity) : string := bq_s q.

(** The quantities a program can hold: the zero one and those read from a
    text. *)
Definition bq_wf (q : BandwidthQuantity) : Prop := ∃ s, NewBandwidthQuantity s = Ok q.
End Bandwidth.

(** ** Port ranges *)

Definition range_String (v : PortsRange) : string :=
  if 0 <? Single v then Itoa (Single v) else Itoa (Start v) +:+ "-" +:+ Itoa (End_ v).

(** [PortsRangeSlice.String]. *)
Definition PortsRangeSlice_String (p : list PortsRange) : string :=
  match p with
  | [] => ""
  | _ => Join (range_String <$> p) ","
  end.

(** "range number is invalid, %v" with strconv's error for the text, and
    "range number is invalid". *)
Inductive range_error := ErrNumber (s : string) | ErrRangeInvalid.

Definition parse_number (s : string) : res range_error Z :=
  match Atoi (TrimSpace s) with
  | Some n => Ok n
  | None => Err (ErrNumber (TrimSpace s))
  end.

Definition parse_range (numRangeStr : string) : res range_error PortsRange :=
  match Split numRangeStr "-" with
  | [a] =>
      let? singleNum := parse_number a in
      Ok (mkPortsRange 0 0 singleNum)
  | [a; b] =>
      let? minNum := parse_number a in
      let? maxNum := parse_number b in
      if maxNum <? minNum then Err ErrRangeInvalid else Ok (mkPortsRange minNum maxNum 0)
  | _ => Err ErrRangeInvalid
  end.

Fixpoint parse_ranges (out : list PortsRange) (numRanges : list string) :
    res range_error (list PortsRange) :=
  match numRanges with
  | [] => Ok out
  | numRangeStr :: rest =>
      let? r := parse_range numRangeStr in
      parse_ranges (out ++ [r]) rest
  end.

Definition NewPortsRangeSliceFromString (str : string) : res range_error (list PortsRange) :=
  parse_ranges [] (Split (TrimSpace str) ",").

(** ** Range numbers *)

(** [i + 1] on int64. *)
Definition succ64 (i : Z) : Z := (i + 1 + 2 ^ 63) `mod` 2 ^ 64 - 2 ^ 63.

(** [for i := minValue; i <= maxValue; i++ { numbers = append(numbers, i) }];
    [None] is a loop that the fuel does not see the end of. *)
Fixpoint range_loop (fuel : nat) (i maxValue : Z) (numbers : list Z) : option (list Z) :=
  if i <=? maxValue then
    match fuel with
    | O => None
    | S fuel' => range_loop fuel' (succ64 i) maxValue (numbers ++ [i])
    end
  else Some numbers.

(** The two named results: the numbers read so far, and the error. *)
Fixpoint parse_numbers (fuel : nat) (numbers : list Z) (numRanges : list string) :
    option (list Z * option range_error) :=
  match numRanges with
  | [] => Some (numbers, None)
  | numRangeStr :: rest =>
      match Split numRangeStr "-" with
      | [a] =>
          match parse_number a with
          | Ok singleNum => parse_numbers fuel (numbers ++ [singleNum]) rest
          | Err e => Some (numbers, Some e)
          end
      | [a; b] =>
          match parse_number a with
          | Err e => Some (numbers, Some e)
          | Ok minValue =>
              match parse_number b with
              | Err e => Some (numbers, Some e)
              | Ok maxValue =>
                  if maxValue <? minValue then Some (numbers, Some ErrRangeInvalid)
                  else match range_loop fuel minValue maxValue numbers with
                       | Some numbers' => parse_numbers fuel numbers' rest
                       | None => None
                       end
              end
          end
      | _ => Some (numbers, Some ErrRangeInvalid)
      end
  end.

Definition ParseRangeNumbers (fuel : nat) (rangeStr : string) :
    option (list Z * option range_error) :=
  parse_numbers fuel [] (Split (TrimSpace rangeStr) ",").

(** ** Numbers and ranges *)

Lemma parse_number_Itoa z : 0 ≤ z ≤ int64_max → parse_number (Itoa z) = Ok z.
Proof.
  intros Hz. unfold parse_number.
  rewrite TrimSpace_Itoa, Atoi_Itoa by (unfold int64_min; lia). done.
Qed.

Lemma Atoi_range s z :
  Atoi s = Some z → ContainsChar s "-" = false → 0 ≤ z ≤ int64_max.
Proof.
  destruct s as [|c s]; [done|]. cbn [Atoi ContainsChar].
  rewrite (Ascii.eqb_sym "-" c). intros H [Hc _]%orb_false_elim. rewrite Hc in H.
  destruct (Ascii.eqb c "+"); split_cases; bool_to_prop; lia.
Qed.

Lemma parse_number_range s n :
  parse_number s = Ok n → ContainsChar s "-" = false → 0 ≤ n ≤ int64_max.
Proof.
  unfold parse_number. intros H Hs. destruct (Atoi (TrimSpace s)) eqn:E; [|done].
  injection H as <-. apply (Atoi_range _ _ E). by apply TrimSpace_contains.
Qed.

(** What a parsed range looks like: a single number, or ordered bounds. *)
Definition range_wf (r : PortsRange) : Prop :=
  (Start r = 0 ∧ End_ r = 0 ∧ 0 ≤ Single r ≤ int64_max) ∨
  (Single r = 0 ∧ 0 ≤ Start r ≤ End_ r ∧ End_ r ≤ int64_max).

Lemma parse_range_wf s r : parse_range s = Ok r → range_wf r.
Proof.
  unfold parse_range, range_wf. pose proof (Split_words s "-") as Hw.
  destruct (Split s "-") as [|a [|b [|]]]; try done.
  - destruct (parse_number a) eqn:Ea; [|done]. intros [= <-]. left. simpl.
    apply Forall_cons in Hw as [Ha _]. pose proof (parse_number_range _ _ Ea Ha). lia.
  - destruct (parse_number a) eqn:Ea; [|done]. destruct (parse_number b) eqn:Eb; [|done].
    apply Forall_cons in Hw as [Ha Hw]. apply Forall_cons in Hw as [Hb _].
    pose proof (parse_number_range _ _ Ea Ha). pose proof (parse_number_range _ _ Eb Hb).
    destruct (Z.ltb_spec a1 a0); [done|]. intros [= <-]. right. simpl. lia.
Qed.

Definition range_char (c : ascii) : bool := is_digit c || Ascii.eqb c "-".

Lemma range_String_chars r : range_wf r → string_all range_char (range_String r) = true.
Proof.
  intros Hr. assert (∀ z, 0 ≤ z → string_all range_char (Itoa z) = true) as Hz.
  { intros z ?. apply (string_all_impl is_digit); [|by apply Itoa_digits].
    intros c Hc. unfold range_char. by rewrite Hc. }
  unfold range_String. destruct (Z.ltb_spec 0 (Single r)); [by apply Hz; lia|].
  rewrite !string_all_app, !Hz by (destruct Hr; lia). done.
Qed.

Lemma parse_range_String r : range_wf r → parse_range (range_String r) = Ok r.
Proof.
  intros Hr. unfold range_String. assert (∀ z, 0 ≤ z → ContainsChar (Itoa z) "-" = false) as Hz.
  { intros z ?. apply (string_all_contains is_digit); [by apply Itoa_digits|done]. }
  destruct r as [st en si]; simpl in *. unfold parse_range.
  destruct (Z.ltb_spec 0 si) as [Hsi|Hsi]; unfold range_wf in Hr; simpl in Hr.
  - rewrite Split_word by (apply Hz; lia). rewrite parse_number_Itoa by lia.
    f_equal. f_equal; lia.
  - change ("-" +:+ Itoa en) with (String "-" (Itoa en)).
    rewrite Split_app, Split_word by (apply Hz; lia).
    rewrite !parse_number_Itoa by lia.
    destruct (Z.ltb_spec en st); [lia|]. f_equal. f_equal; lia.
Qed.

(** The accumulator of the loop. *)
Lemma parse_ranges_app out l :
  parse_ranges out l = let? p := parse_ranges [] l in Ok (out ++ p).
Proof.
  revert out. induction l as [|w l IH]; intros out; simpl; [by rewrite app_nil_r|].
  destruct (parse_range w) as [r|e]; [|done].
  rewrite (IH (out ++ [r])), (IH [r]). destruct (parse_ranges [] l); [|done].
  by rewrite <-app_assoc.
Qed.

Lemma parse_ranges_cons w l :
  parse_ranges [] (w :: l) =
  let? r := parse_range w in let? p := parse_ranges [] l in Ok (r :: p).
Proof. simpl. destruct (parse_range w); [|done]. by rewrite parse_ranges_app. Qed.

Lemma parse_ranges_wf l p :
  parse_ranges [] l = Ok p → Forall range_wf p ∧ length p = length l.
Proof.
  revert p. induction l as [|w l IH]; intros p.
  - intros [= <-]. by repeat constructor.
  - rewrite parse_ranges_cons. destruct (parse_range w) eqn:Ew; [|done].
    destruct (parse_ranges [] l); [|done]. intros [= <-].
    destruct (IH _ eq_refl) as [? ?]. simpl. split; [|lia].
    constructor; [by eapply parse_range_wf|done].
Qed.

Lemma parse_ranges_String p : Forall range_wf p → parse_ranges [] (range_String <$> p) = Ok p.
Proof.
  induction 1 as [|r p Hr Hp IH]; [done|].
  rewrite fmap_cons, parse_ranges_cons, parse_range_String, IH by done. done.
Qed.

Lemma range_char_no_space c : range_char c = true → no_space c = true.
Proof.
  unfold range_char. intros [Hc|Hc]%orb_true_iff; [by apply digit_no_space|].
  apply Ascii.eqb_eq in Hc. by subst.
Qed.

Lemma string_all_Join f l sep :
  string_all f sep = true → Forall (λ w, string_all f w = true) l →
  string_all f (Join l sep) = true.
Proof.
  intros Hsep Hl. induction Hl as [|w l Hw Hl IH]; [done|].
  destruct l as [|w' l]; [done|]. rewrite Join_cons, !string_all_app by done.
  by rewrite Hw, Hsep, IH.
Qed.

Lemma ranges_parse_String p :
  p ≠ [] → Forall range_wf p → NewPortsRangeSliceFromString (PortsRangeSlice_String p) = Ok p.
Proof.
  intros Hne Hp. unfold NewPortsRangeSliceFromString, PortsRangeSlice_String.
  destruct p as [|r p]; [done|]. set (q := r :: p) in *.
  assert (Forall (λ w, string_all range_char w = true) (range_String <$> q)) as Hw.
  { apply Forall_fmap. eapply Forall_impl; [exact Hp|]. intros x. apply range_String_chars. }
  rewrite TrimSpace_id.
  - rewrite Split_Join; [by apply parse_ranges_String|done|].
    eapply Forall_impl; [exact Hw|]. intros w ?. by apply (string_all_contains range_char).
  - apply string_all_Join; [done|]. eapply Forall_impl; [exact Hw|]. intros w ?.
    eapply string_all_impl; [exact range_char_no_space|done].
Qed.

(** ** The two readers of ranges *)

Definition expand (r : PortsRange) : list Z :=
  if 0 <? Single r then [Single r] else seqZ (Start r) (End_ r - Start r + 1).

Lemma succ64_small i : int64_min ≤ i < int64_max → succ64 i = i + 1.
Proof.
  unfold succ64, int64_min, int64_max. intros. rewrite Z.mod_small; lia.
Qed.

Lemma range_loop_done fuel i max acc :
  int64_min ≤ i ≤ max + 1 → max < int64_max → (Z.to_nat (max - i + 1) ≤ fuel)%nat →
  range_loop fuel i max acc = Some (acc ++ seqZ i (max - i + 1)).
Proof.
  revert i acc. induction fuel as [|fuel IH]; intros i acc Hi Hmax Hf; cbn [range_loop];
    destruct (Z.leb_spec i max) as [Hle|Hlt].
  - lia.
  - rewrite seqZ_nil by lia. by rewrite app_nil_r.
  - rewrite succ64_small by (unfold int64_max in *; lia). rewrite IH by lia.
    rewrite (seqZ_cons i) by lia. rewrite <-app_assoc. simpl.
    by replace (Z.pred (max - i + 1)) with (max - (i + 1) + 1) by lia.
  - rewrite seqZ_nil by lia. by rewrite app_nil_r.
Qed.

(** With the largest int64 as upper bound the counter wraps around below it. *)
Lemma range_loop_stuck fuel i acc : int64_min ≤ i ≤ int64_max → range_loop fuel i int64_max acc = None.
Proof.
  revert i acc. induction fuel as [|fuel IH]; intros i acc Hi; cbn [range_loop];
    rewrite (proj2 (Z.leb_le _ _)) by lia; [done|].
  apply IH. unfold succ64, int64_min, int64_max in *.
  pose proof (Z.mod_pos_bound (i + 1 + 2 ^ 63) (2 ^ 64)). lia.
Qed.

Lemma range_loop_result fuel i max acc l :
  int64_min ≤ i ≤ max → max ≤ int64_max → range_loop fuel i max acc = Some l →
  max < int64_max ∧ l = acc ++ seqZ i (max - i + 1).
Proof.
  intros Hi Hm. destruct (decide (max = int64_max)) as [->|Hne].
  { by rewrite range_loop_stuck by lia. }
  intros Hl. split; [lia|].
  assert (∀ f g j a, (f ≤ g)%nat → range_loop f j max a = Some l → range_loop g j max a = Some l) as Hmono.
  { induction f as [|f IH]; intros g j a Hfg; destruct g as [|g]; cbn [range_loop];
      destruct (j <=? max); try done; try lia. apply IH. lia. }
  apply (Hmono _ (fuel + Z.to_nat (max - i + 1))%nat) in Hl as Hl'; [|lia].
  rewrite range_loop_done in Hl' by lia. congruence.
Qed.

Lemma expand_single z : 0 ≤ z → expand (mkPortsRange 0 0 z) = [z].
Proof.
  intros Hz. unfold expand. simpl. destruct (Z.ltb_spec 0 z); [done|].
  by replace z with 0 by lia.
Qed.

Lemma expand_set r : range_ports r = list_to_set (expand r).
Proof. unfold range_ports, expand. destruct (0 <? Single r); [|done]. simpl. set_solver. Qed.

(** One text of a list of ranges: [o] says that its numbers are all produced. *)
Lemma parse_numbers_cons fuel acc w l :
  match parse_range w with
  | Err e => parse_numbers fuel acc (w :: l) = Some (acc, Some e)
  | Ok r => ∃ o : bool,
      parse_numbers fuel acc (w :: l) =
        (if o then parse_numbers fuel (acc ++ expand r) l else None) ∧
      (End_ r < int64_max → (length (expand r) ≤ fuel)%nat → o = true) ∧
      (o = true → End_ r < int64_max)
  end.
Proof.
  pose proof (parse_range_wf w) as Hwf. cbn [parse_numbers]. unfold parse_range in *.
  pose proof (Split_words w "-") as Hw. destruct (Split w "-") as [|a [|b [|]]]; try done.
  - destruct (parse_number a) as [z|e] eqn:Ea; [|done].
    apply Forall_cons in Hw as [Ha _]. pose proof (parse_number_range _ _ Ea Ha).
    exists true. rewrite expand_single by lia. done.
  - destruct (parse_number a) as [x|]; [|done]. destruct (parse_number b) as [y|]; [|done].
    destruct (y <? x); [done|]. specialize (Hwf _ eq_refl). unfold range_wf in Hwf. simpl in Hwf.
    unfold expand. simpl.
    destruct (range_loop fuel x y acc) as [ns|] eqn:Hl.
    + assert (int64_min ≤ x ≤ y ∧ y ≤ int64_max) as [Hx Hy] by (unfold int64_min; lia).
      destruct (range_loop_result _ _ _ _ _ Hx Hy Hl) as [? ->]. by exists true.
    + exists false. split_and!; [done| |done]. rewrite length_seqZ. intros Hy Hf.
      by rewrite range_loop_done in Hl by (unfold int64_min; lia).
Qed.

Lemma parse_numbers_sound fuel acc l ns oe :
  parse_numbers fuel acc l = Some (ns, oe) →
  match oe with
  | None => ∃ p, parse_ranges [] l = Ok p ∧ ns = acc ++ concat (expand <$> p)
  | Some e => parse_ranges [] l = Err e
  end.
Proof.
  revert acc. induction l as [|w l IH]; intros acc.
  - intros [= <- <-]. exists []. by rewrite app_nil_r.
  - rewrite parse_ranges_cons. pose proof (parse_numbers_cons fuel acc w l) as Hc.
    destruct (parse_range w) as [r|e].
    + destruct Hc as (o & -> & _). destruct o; [|done]. intros H%IH. destruct oe as [e|].
      * by rewrite H.
      * destruct H as (p & -> & ->). exists (r :: p). simpl. by rewrite <-app_assoc.
    + rewrite Hc. by intros [= <- <-].
Qed.

Lemma parse_numbers_complete fuel acc l p :
  parse_ranges [] l = Ok p → Forall (λ r, End_ r < int64_max ∧ (length (expand r) ≤ fuel)%nat) p →
  parse_numbers fuel acc l = Some (acc ++ concat (expand <$> p), None).
Proof.
  revert acc p. induction l as [|w l IH]; intros acc p.
  - intros [= <-] _. simpl. by rewrite app_nil_r.
  - rewrite parse_ranges_cons. pose proof (parse_numbers_cons fuel acc w l) as Hc.
    destruct (parse_range w) as [r|e]; [|done]. destruct (parse_ranges [] l) as [p'|]; [|done].
    intros [= <-] [[Hr Hf] Hp]%Forall_cons. destruct Hc as (o & -> & Ho & _).
    rewrite (Ho Hr Hf), (IH _ p' eq_refl Hp). simpl. by rewrite <-app_assoc.
Qed.

Lemma ranges_union p :
  p ≠ [] → initial_ports p = list_to_set (concat (expand <$> p)).
Proof.
  intros Hne. assert (⋃ (range_ports <$> p) = (list_to_set (concat (expand <$> p)) : gset Z)) as Hu.
  { clear Hne. induction p as [|r p IH]; [done|].
    rewrite !fmap_cons, union_list_cons, IH, expand_set. simpl. by rewrite list_to_set_app_L. }
  destruct p; [congruence|exact Hu].
Qed.

Lemma bq_reparse {F} (ParseFloat : string → option F) (scale : F → Z → Z) s q :
  NewBandwidthQuantity ParseFloat scale s = Ok q →
  NewBandwidthQuantity ParseFloat scale (bq_String q) = Ok q ∧
  (bq_String q = "" ↔ TrimSpace s = "").
Proof.
  unfold NewBandwidthQuantity, UnmarshalString, bq_String. intros H.
  assert (q = mkBandwidthQuantity "" 0 ∧ TrimSpace s = "" ∨ bq_s q = TrimSpace s ∧ TrimSpace s ≠ "") as Hq.
  { destruct (String.eqb_spec (TrimSpace s) ""); [left; split; congruence|].
    right. split_cases; done. }
  destruct Hq as [[-> Hs]|[Hs Hne]]; [done|]. by rewrite Hs, TrimSpace_idem.
Qed.

(** The text of a quantity determines it. *)
Lemma bq_wf_reparse {F} (ParseFloat : string → option F) (scale : F → Z → Z) q :
  bq_wf ParseFloat scale q →
  (bq_String q = "" ∧ q = mkBandwidthQuantity "" 0) ∨
  (bq_String q ≠ "" ∧ NewBandwidthQuantity ParseFloat scale (bq_String q) = Ok q).
Proof.
  intros [s Hs]. destruct (bq_reparse _ _ _ _ Hs) as [Hr He].
  destruct (decide (bq_String q = "")) as [Hq|Hq]; [left|by right].
  split; [done|]. rewrite Hq in Hr. unfold NewBandwidthQuantity, UnmarshalString in Hr.
  simpl in Hr. congruence.
Qed.

(** ** Properties *)

(** A list of port ranges that was read from a text is read back unchanged
    from the text it prints, whatever the spacing, signs or leading zeros of
    the original; so is every list of well-formed ranges. *)
Theorem port_ranges_roundtrip (p : list PortsRange) :
  p ≠ [] →
  Forall range_wf p ∨ (∃ s, NewPortsRangeSliceFromString s = Ok p) →
  NewPortsRangeSliceFromString (PortsRangeSlice_String p) = Ok p.
Proof.
  intros Hne [Hp|[s Hs]]; apply ranges_parse_String; try done.
  by destruct (parse_ranges_wf _ _ Hs).
Qed.

(** [ParseRangeNumbers] and [NewPortsRangeSliceFromString] accept the same
    texts with the same errors, and the numbers of the first are, in order and
    as a set, the ports a port manager is allowed by the second. The first
    returns if no range ends at the largest int64 and never returns on the text
    of a range that does. *)
Theorem range_readers_agree (s : string) :
  (∀ fuel ns e, ParseRangeNumbers fuel s = Some (ns, Some e) →
     NewPortsRangeSliceFromString s = Err e) ∧
  (∀ fuel ns, ParseRangeNumbers fuel s = Some (ns, None) →
     ∃ p, NewPortsRangeSliceFromString s = Ok p ∧ ns = concat (expand <$> p) ∧
          initial_ports p = list_to_set ns) ∧
  (∀ p fuel, NewPortsRangeSliceFromString s = Ok p →
     Forall (λ r, End_ r < int64_max ∧ (length (expand r) ≤ fuel)%nat) p →
     ParseRangeNumbers fuel s = Some (concat (expand <$> p), None)) ∧
  (∀ fuel i, 0 ≤ i ≤ int64_max →
     ParseRangeNumbers fuel (range_String (mkPortsRange i int64_max 0)) = None).
Proof.
  unfold ParseRangeNumbers, NewPortsRangeSliceFromString. split_and!.
  - intros fuel ns e H. by apply parse_numbers_sound in H.
  - intros fuel ns H. apply parse_numbers_sound in H as (p & Hp & ->). exists p.
    split_and!; [done..|]. apply ranges_union. intros ->.
    apply parse_ranges_wf in Hp as [_ Hlen]. destruct (Split _ _) eqn:E; [|done].
    by apply Split_nonempty in E.
  - intros p fuel Hp Hf. exact (parse_numbers_complete fuel [] _ p Hp Hf).
  - intros fuel i Hi. set (r := mkPortsRange i int64_max 0).
    assert (range_wf r) as Hr by (right; simpl; lia).
    pose proof (range_String_chars r Hr) as Hc.
    rewrite TrimSpace_id by (eapply string_all_impl; [exact range_char_no_space|exact Hc]).
    rewrite Split_word by by apply (string_all_contains range_char).
    pose proof (parse_numbers_cons fuel [] (range_String r) []) as H.
    rewrite (parse_range_String r Hr) in H. destruct H as ([] & -> & _ & Ho); [|done].
    specialize (Ho eq_refl). simpl in Ho. lia.
Qed.

(** A bandwidth quantity that was read from a text prints a text that is
    read back as the same quantity; equal quantities need not print equally. *)
Theorem bandwidth_roundtrip {F} (ParseFloat : string → option F) (scale : F → Z → Z)
    (s : string) (q : BandwidthQuantity) :
  NewBandwidthQuantity ParseFloat scale s = Ok q →
  NewBandwidthQuantity ParseFloat scale (bq_String q) = Ok q ∧
  bq_Equal (Some q) (Some q) = true ∧
  (bq_String q = "" ↔ TrimSpace s = "").
Proof.
  intros H. destruct (bq_reparse _ _ _ _ H) as [Hr Hs]. unfold bq_Equal.
  rewrite Z.eqb_refl. done.
Qed.

(** ** Witnesses *)

Definition demo_text : string := " 1000-1002, 7,+08".
Definition demo_ranges : list PortsRange :=
  [mkPortsRange 1000 1002 0; mkPortsRange 0 0 7; mkPortsRange 0 0 8].

Lemma port_ranges_roundtrip_witness :
  NewPortsRangeSliceFromString demo_text = Ok demo_ranges ∧
  NewPortsRangeSliceFromString "1000-1002,7,8" = Ok demo_ranges.
Proof.
  split; [by vm_compute|].
  apply (port_ranges_roundtrip demo_ranges); [done|]. right. exists demo_text. by vm_compute.
Defined.

(** A stand-in for floating-point numbers: decimal integers. *)
Lemma bandwidth_roundtrip_witness :
  NewBandwidthQuantity Atoi Z.mul "1MB" = Ok (mkBandwidthQuantity "1MB" 1048576) ∧
  bq_Equal (Some (mkBandwidthQuantity "1MB" 1048576)) (Some (mkBandwidthQuantity "1024KB" 1048576)) = true.
Proof.
  split; [|done].
  exact (proj1 (bandwidth_roundtrip Atoi Z.mul " 1MB " (mkBandwidthQuantity "1MB" 1048576) eq_refl)).
Defined.

End ConfigTypes.
