(* ===== verification/Config.v ===== *)
(** The configuration of a proxy, pkg/config/v1/proxy.go and proxy_plugin.go:
    what frpc reads from its configuration, sends to frps in a NewProxy message
    (pkg/msg/msg.go) and frps rebuilds from it ([NewProxyConfigurerFromMsg] of
    pkg/config/load.go), and its validation on both sides
    (pkg/config/v1/validation/proxy.go, plugin.go, common.go).

    A configurer is one of fourteen structs, which embed [ProxyBaseConfig]; the
    methods Go finds by dynamic dispatch are matches on [ProxyConfigurer]. *)
From Stdlib Require Import ZArith Lia Ascii String.
From stdpp Require Import base gmap strings list fin_maps.
From S2P Require Import Prelude GoLib Wire Msg Ports ConfigTypes.

Local Open Scope Z_scope.
Local Open Scope frp_scope.

Module Config.
Import ConfigTypes.

(** [util.EmptyOr] on strings and on pointers. *)
Definition EmptyOr (v fallback : string) : string := if String.eqb v "" then fallback else v.
Definition EmptyOrPtr {A} (v fallback : option A) : option A :=
  match v with None => fallback | Some _ => v end.

(** ** Client plugins *)

Record HeaderOperations := mkHeaderOperations { Set_ : gmap string string }.

Record HTTP2HTTPSPluginOptions := mkHTTP2HTTPSOptions {
  p2s_Type : string; p2s_LocalAddr : string; p2s_HostHeaderRewrite : string;
  p2s_RequestHeaders : HeaderOperations }.
Record HTTPProxyPluginOptions := mkHTTPProxyOptions {
  php_Type : string; php_HTTPUser : string; php_HTTPPassword : string }.
Record HTTPS2HTTPPluginOptions := mkHTTPS2HTTPOptions {
  ps2_Type : string; ps2_LocalAddr : string; ps2_HostHeaderRewrite : string;
  ps2_RequestHeaders : HeaderOperations; ps2_EnableHTTP2 : option bool; ps2_CrtPath : string;
  ps2_KeyPath : string }.
Record HTTPS2HTTPSPluginOptions := mkHTTPS2HTTPSOptions {
  ps2s_Type : string; ps2s_LocalAddr : string; ps2s_HostHeaderRewrite : string;
  ps2s_RequestHeaders : HeaderOperations; ps2s_EnableHTTP2 : option bool; ps2s_CrtPath : string;
  ps2s_KeyPath : string }.
Record HTTP2HTTPPluginOptions := mkHTTP2HTTPOptions {
  p22_Type : string; p22_LocalAddr : string; p22_HostHeaderRewrite : string;
  p22_RequestHeaders : HeaderOperations }.
Record Socks5PluginOptions := mkSocks5Options {
  pso_Type : string; pso_Username : string; pso_Password : string }.
Record StaticFilePluginOptions := mkStaticFileOptions {
  psf_Type : string; psf_LocalPath : string; psf_StripPrefix : string;
  psf_HTTPUser : string; psf_HTTPPassword : string }.
Record UnixDomainSocketPluginOptions := mkUnixDomainSocketOptions {
  pud_Type : string; pud_UnixPath : string }.
Record TLS2RawPluginOptions := mkTLS2RawOptions {
  ptr_Type : string; ptr_LocalAddr : string; ptr_CrtPath : string;
  ptr_KeyPath : string }.
Record VirtualNetPluginOptions := mkVirtualNetOptions {
  pvn_Type : string }.

Inductive ClientPluginOptions :=
| PHTTP2HTTPS (o : HTTP2HTTPSPluginOptions)
| PHTTPProxy (o : HTTPProxyPluginOptions)
| PHTTPS2HTTP (o : HTTPS2HTTPPluginOptions)
| PHTTPS2HTTPS (o : HTTPS2HTTPSPluginOptions)
| PHTTP2HTTP (o : HTTP2HTTPPluginOptions)
| PSocks5 (o : Socks5PluginOptions)
| PStaticFile (o : StaticFilePluginOptions)
| PUnixDomainSocket (o : UnixDomainSocketPluginOptions)
| PTLS2Raw (o : TLS2RawPluginOptions)
| PVirtualNet (o : VirtualNetPluginOptions).

Definition HTTPS2HTTP_Complete (o : HTTPS2HTTPPluginOptions) : HTTPS2HTTPPluginOptions :=
  mkHTTPS2HTTPOptions (ps2_Type o) (ps2_LocalAddr o) (ps2_HostHeaderRewrite o) (ps2_RequestHeaders o)
    (EmptyOrPtr (ps2_EnableHTTP2 o) (Some true)) (ps2_CrtPath o) (ps2_KeyPath o).
Definition HTTPS2HTTPS_Complete (o : HTTPS2HTTPSPluginOptions) : HTTPS2HTTPSPluginOptions :=
  mkHTTPS2HTTPSOptions (ps2s_Type o) (ps2s_LocalAddr o) (ps2s_HostHeaderRewrite o) (ps2s_RequestHeaders o)
    (EmptyOrPtr (ps2s_EnableHTTP2 o) (Some true)) (ps2s_CrtPath o) (ps2s_KeyPath o).

(** The other plugins' [Complete] does nothing. *)
Definition plugin_Complete (o : ClientPluginOptions) : ClientPluginOptions :=
  match o with
  | PHTTPS2HTTP o => PHTTPS2HTTP (HTTPS2HTTP_Complete o)
  | PHTTPS2HTTPS o => PHTTPS2HTTPS (HTTPS2HTTPS_Complete o)
  | _ => o
  end.

Record TypedClientPluginOptions := mkTypedPlugin {
  plugin_Type : string; plugin_Options : option ClientPluginOptions }.

(** ** Proxy configurations *)

Record ProxyTransport := mkProxyTransport {
  UseEncryption : bool; UseCompression : bool; BandwidthLimit : BandwidthQuantity;
  BandwidthLimitMode : string; ProxyProtocolVersion : string }.

Record LoadBalancerConfig := mkLoadBalancer { Group : string; GroupKey : string }.

Record ProxyBackend := mkProxyBackend {
  LocalIP : string; LocalPort : Z; Plugin : TypedClientPluginOptions }.

Record HTTPHeader := mkHTTPHeader { header_Name : string; header_Value : string }.

Record HealthCheckConfig := mkHealthCheck {
  health_Type : string; TimeoutSeconds : Z; MaxFailed : Z; IntervalSeconds : Z;
  health_Path : string; HTTPHeaders : list HTTPHeader }.

Record DomainConfig := mkDomainConfig { CustomDomains : list string; SubDomain : string }.

Record ProxyBaseConfig := mkProxyBase {
  Name : string; Type_ : string; Enabled : option bool; Annotations : gmap string string;
  Transport : ProxyTransport; Metadatas : gmap string string;
  LoadBalancer : LoadBalancerConfig; HealthCheck : HealthCheckConfig; Backend : ProxyBackend }.

Record TCPProxyConfig := mkTCP { tcp_base : ProxyBaseConfig; tcp_RemotePort : Z }.
Record UDPProxyConfig := mkUDP { udp_base : ProxyBaseConfig; udp_RemotePort : Z }.
Record TCPUDPProxyConfig := mkTCPUDP {
  tu_base : ProxyBaseConfig; tu_RemotePort : Z; tu_LocalPortUDP : Z }.
Record HTTPProxyConfig := mkHTTP {
  http_base : ProxyBaseConfig; http_Domain : DomainConfig; http_Locations : list string;
  http_HTTPUser : string; http_HTTPPassword : string; http_HostHeaderRewrite : string;
  http_RequestHeaders : HeaderOperations; http_ResponseHeaders : HeaderOperations;
  http_RouteByHTTPUser : string }.
Record HTTPSProxyConfig := mkHTTPS { https_base : ProxyBaseConfig; https_Domain : DomainConfig }.
Record MCProxyConfig := mkMC {
  mc_base : ProxyBaseConfig; mc_Domain : DomainConfig; mc_RemotePort : Z }.
Record PEProxyConfig := mkPE {
  pe_base : ProxyBaseConfig; pe_RemotePort : Z; pe_ForcedHosts : gmap string string }.
Record TCPMuxProxyConfig := mkTCPMux {
  mux_base : ProxyBaseConfig; mux_Domain : DomainConfig; mux_HTTPUser : string;
  mux_HTTPPassword : string; mux_RouteByHTTPUser : string; mux_Multiplexer : string }.

Record NatTraversalConfig := mkNatTraversal { DisableAssistedAddrs : bool }.

Record STCPProxyConfig := mkSTCP {
  stcp_base : ProxyBaseConfig; stcp_Secretkey : string; stcp_AllowUsers : list string }.
Record SUDPProxyConfig := mkSUDP {
  sudp_base : ProxyBaseConfig; sudp_Secretkey : string; sudp_AllowUsers : list string }.
Record XTCPProxyConfig := mkXTCP {
  xtcp_base : ProxyBaseConfig; xtcp_Secretkey : string; xtcp_AllowUsers : list string;
  xtcp_NatTraversal : option NatTraversalConfig }.
Record XUDPProxyConfig := mkXUDP {
  xudp_base : ProxyBaseConfig; xudp_Secretkey : string; xudp_AllowUsers : list string;
  xudp_NatTraversal : option NatTraversalConfig }.
Record XTCPXUDPProxyConfig := mkXTCPXUDP {
  xx_base : ProxyBaseConfig; xx_Secretkey : string; xx_AllowUsers : list string;
  xx_LocalPortUDP : Z; xx_NatTraversal : option NatTraversalConfig }.
Record STCPSUDPProxyConfig := mkSTCPSUDP {
  ss_base : ProxyBaseConfig; ss_Secretkey : string; ss_AllowUsers : list string;
  ss_LocalPortUDP : Z }.

Inductive ProxyConfigurer :=
| CTCP (c : TCPProxyConfig) | CUDP (c : UDPProxyConfig) | CTCPUDP (c : TCPUDPProxyConfig)
| CHTTP (c : HTTPProxyConfig) | CHTTPS (c : HTTPSProxyConfig) | CMC (c : MCProxyConfig)
| CPE (c : PEProxyConfig) | CTCPMux (c : TCPMuxProxyConfig) | CSTCP (c : STCPProxyConfig)
| CSUDP (c : SUDPProxyConfig) | CXTCP (c : XTCPProxyConfig) | CXUDP (c : XUDPProxyConfig)
| CXTCPXUDP (c : XTCPXUDPProxyConfig) | CSTCPSUDP (c : STCPSUDPProxyConfig).

Definition GetBaseConfig (c : ProxyConfigurer) : ProxyBaseConfig :=
  match c with
  | CTCP c => tcp_base c | CUDP c => udp_base c | CTCPUDP c => tu_base c | CHTTP c => http_base c
  | CHTTPS c => https_base c | CMC c => mc_base c | CPE c => pe_base c | CTCPMux c => mux_base c
  | CSTCP c => stcp_base c | CSUDP c => sudp_base c | CXTCP c => xtcp_base c
  | CXUDP c => xudp_base c | CXTCPXUDP c => xx_base c | CSTCPSUDP c => ss_base c
  end.

(** A write through the pointer [GetBaseConfig] returns. *)
Definition set_base (c : ProxyConfigurer) (b : ProxyBaseConfig) : ProxyConfigurer :=
  match c with
  | CTCP c => CTCP (mkTCP b (tcp_RemotePort c))
  | CUDP c => CUDP (mkUDP b (udp_RemotePort c))
  | CTCPUDP c => CTCPUDP (mkTCPUDP b (tu_RemotePort c) (tu_LocalPortUDP c))
  | CHTTP c => CHTTP (mkHTTP b (http_Domain c) (http_Locations c) (http_HTTPUser c)
      (http_HTTPPassword c) (http_HostHeaderRewrite c) (http_RequestHeaders c)
      (http_ResponseHeaders c) (http_RouteByHTTPUser c))
  | CHTTPS c => CHTTPS (mkHTTPS b (https_Domain c))
  | CMC c => CMC (mkMC b (mc_Domain c) (mc_RemotePort c))
  | CPE c => CPE (mkPE b (pe_RemotePort c) (pe_ForcedHosts c))
  | CTCPMux c => CTCPMux (mkTCPMux b (mux_Domain c) (mux_HTTPUser c) (mux_HTTPPassword c)
      (mux_RouteByHTTPUser c) (mux_Multiplexer c))
  | CSTCP c => CSTCP (mkSTCP b (stcp_Secretkey c) (stcp_AllowUsers c))
  | CSUDP c => CSUDP (mkSUDP b (sudp_Secretkey c) (sudp_AllowUsers c))
  | CXTCP c => CXTCP (mkXTCP b (xtcp_Secretkey c) (xtcp_AllowUsers c) (xtcp_NatTraversal c))
  | CXUDP c => CXUDP (mkXUDP b (xudp_Secretkey c) (xudp_AllowUsers c) (xudp_NatTraversal c))
  | CXTCPXUDP c => CXTCPXUDP (mkXTCPXUDP b (xx_Secretkey c) (xx_AllowUsers c)
      (xx_LocalPortUDP c) (xx_NatTraversal c))
  | CSTCPSUDP c => CSTCPSUDP (mkSTCPSUDP b (ss_Secretkey c) (ss_AllowUsers c) (ss_LocalPortUDP c))
  end.

(** The [Type] a struct is registered under in [proxyConfigTypeMap]. *)
Definition type_of (c : ProxyConfigurer) : string :=
  match c with
  | CTCP _ => "tcp" | CUDP _ => "udp" | CTCPUDP _ => "tcp+udp" | CHTTP _ => "http"
  | CHTTPS _ => "https" | CMC _ => "mc" | CPE _ => "pe" | CTCPMux _ => "tcpmux"
  | CSTCP _ => "stcp" | CSUDP _ => "sudp" | CXTCP _ => "xtcp" | CXUDP _ => "xudp"
  | CXTCPXUDP _ => "xtcp+xudp" | CSTCPSUDP _ => "stcp+sudp"
  end.

(** *** Zero values *)

Definition zero_plugin := mkTypedPlugin "" None.
Definition zero_base : ProxyBaseConfig :=
  mkProxyBase "" "" None ∅ (mkProxyTransport false false (mkBandwidthQuantity "" 0) "" "") ∅
    (mkLoadBalancer "" "") (mkHealthCheck "" 0 0 0 "" []) (mkProxyBackend "" 0 zero_plugin).
Definition zero_domain := mkDomainConfig [] "".
Definition zero_headers := mkHeaderOperations ∅.

Definition proxyConfigTypeMap : list (string * ProxyConfigurer) :=
  [("tcp", CTCP (mkTCP zero_base 0)); ("udp", CUDP (mkUDP zero_base 0));
   ("http", CHTTP (mkHTTP zero_base zero_domain [] "" "" "" zero_headers zero_headers ""));
   ("https", CHTTPS (mkHTTPS zero_base zero_domain));
   ("tcpmux", CTCPMux (mkTCPMux zero_base zero_domain "" "" "" ""));
   ("stcp", CSTCP (mkSTCP zero_base "" [])); ("xtcp", CXTCP (mkXTCP zero_base "" [] None));
   ("sudp", CSUDP (mkSUDP zero_base "" [])); ("xudp", CXUDP (mkXUDP zero_base "" [] None));
   ("tcp+udp", CTCPUDP (mkTCPUDP zero_base 0 0));
   ("stcp+sudp", CSTCPSUDP (mkSTCPSUDP zero_base "" [] 0));
   ("xtcp+xudp", CXTCPXUDP (mkXTCPXUDP zero_base "" [] 0 None));
   ("mc", CMC (mkMC zero_base zero_domain 0)); ("pe", CPE (mkPE zero_base 0 ∅))].

Definition set_Type (b : ProxyBaseConfig) (t : string) : ProxyBaseConfig :=
  mkProxyBase (Name b) t (Enabled b) (Annotations b) (Transport b) (Metadatas b)
    (LoadBalancer b) (HealthCheck b) (Backend b).

Definition NewProxyConfigurerByType (proxyType : string) : option ProxyConfigurer :=
  match first_match (λ e, String.eqb (fst e) proxyType) proxyConfigTypeMap with
  | None => None
  | Some (_, pc) => Some (set_base pc (set_Type (GetBaseConfig pc) proxyType))
  end.

(** ** Completion *)

Definition base_Complete (c : ProxyBaseConfig) : ProxyBaseConfig :=
  let tr := Transport c in
  let be := Backend c in
  mkProxyBase (Name c) (Type_ c) (Enabled c) (Annotations c)
    (mkProxyTransport (UseEncryption tr) (UseCompression tr) (BandwidthLimit tr)
       (EmptyOr (BandwidthLimitMode tr) BandwidthLimitModeClient) (ProxyProtocolVersion tr))
    (Metadatas c) (LoadBalancer c) (HealthCheck c)
    (mkProxyBackend (EmptyOr (LocalIP be) "127.0.0.1") (LocalPort be)
       (mkTypedPlugin (plugin_Type (Plugin be)) (plugin_Complete <$> plugin_Options (Plugin be)))).

(** [Complete] is promoted from the embedded base configuration. *)
Definition Complete (c : ProxyConfigurer) : ProxyConfigurer :=
  set_base c (base_Complete (GetBaseConfig c)).

(** ** Messages *)

Section Messages.
Context {float64 : Type} (ParseFloat : string → option float64) (scale : float64 → Z → Z).

(** [ProxyBaseConfig.MarshalToMsg]: the fields it writes, over [m]. *)
Definition base_MarshalToMsg (c : ProxyBaseConfig) (m : Msg.NewProxy) : Msg.NewProxy :=
  let tr := Transport c in
  Msg.mkNewProxy (Name c) (Type_ c) (UseEncryption tr) (UseCompression tr)
    (bq_String (BandwidthLimit tr))
    (if String.eqb (BandwidthLimitMode tr) "client" then Msg.np_BandwidthLimitMode m
     else BandwidthLimitMode tr)
    (Group (LoadBalancer c)) (GroupKey (LoadBalancer c)) (Metadatas c) (Annotations c)
    (Msg.np_RemotePort m) (Msg.np_CustomDomains m) (Msg.np_SubDomain m) (Msg.np_Locations m)
    (Msg.np_HTTPUser m) (Msg.np_HTTPPwd m) (Msg.np_HostHeaderRewrite m) (Msg.np_Headers m)
    (Msg.np_ResponseHeaders m) (Msg.np_RouteByHTTPUser m) (Msg.np_Sk m) (Msg.np_AllowUsers m)
    (Msg.np_Multiplexer m).

Definition put_RemotePort (p : Z) (m : Msg.NewProxy) : Msg.NewProxy :=
  let '(Msg.mkNewProxy a1 a2 a3 a4 a5 a6 a7 a8 a9 a10 _ b1 b2 b3 b4 b5 b6 b7 b8 b9 b10 b11 b12) := m in
  Msg.mkNewProxy a1 a2 a3 a4 a5 a6 a7 a8 a9 a10 p b1 b2 b3 b4 b5 b6 b7 b8 b9 b10 b11 b12.

Definition put_Domain (d : DomainConfig) (m : Msg.NewProxy) : Msg.NewProxy :=
  let '(Msg.mkNewProxy a1 a2 a3 a4 a5 a6 a7 a8 a9 a10 p _ _ b3 b4 b5 b6 b7 b8 b9 b10 b11 b12) := m in
  Msg.mkNewProxy a1 a2 a3 a4 a5 a6 a7 a8 a9 a10 p (CustomDomains d) (SubDomain d)
    b3 b4 b5 b6 b7 b8 b9 b10 b11 b12.

Definition put_Secret (sk : string) (users : list string) (m : Msg.NewProxy) : Msg.NewProxy :=
  let '(Msg.mkNewProxy a1 a2 a3 a4 a5 a6 a7 a8 a9 a10 p b1 b2 b3 b4 b5 b6 b7 b8 b9 _ _ b12) := m in
  Msg.mkNewProxy a1 a2 a3 a4 a5 a6 a7 a8 a9 a10 p b1 b2 b3 b4 b5 b6 b7 b8 b9 sk users b12.

Definition put_HTTP (c : HTTPProxyConfig) (m : Msg.NewProxy) : Msg.NewProxy :=
  let '(Msg.mkNewProxy a1 a2 a3 a4 a5 a6 a7 a8 a9 a10 p b1 b2 _ _ _ _ _ _ _ b10 b11 b12) := m in
  Msg.mkNewProxy a1 a2 a3 a4 a5 a6 a7 a8 a9 a10 p b1 b2 (http_Locations c) (http_HTTPUser c)
    (http_HTTPPassword c) (http_HostHeaderRewrite c) (Set_ (http_RequestHeaders c))
    (Set_ (http_ResponseHeaders c)) (http_RouteByHTTPUser c) b10 b11 b12.

Definition put_Mux (c : TCPMuxProxyConfig) (m : Msg.NewProxy) : Msg.NewProxy :=
  let '(Msg.mkNewProxy a1 a2 a3 a4 a5 a6 a7 a8 a9 a10 p b1 b2 b3 _ _ b6 b7 b8 _ b10 b11 _) := m in
  Msg.mkNewProxy a1 a2 a3 a4 a5 a6 a7 a8 a9 a10 p b1 b2 b3 (mux_HTTPUser c) (mux_HTTPPassword c)
    b6 b7 b8 (mux_RouteByHTTPUser c) b10 b11 (mux_Multiplexer c).

(** The fourteen [MarshalToMsg] methods. *)
Definition TCP_MarshalToMsg (c : TCPProxyConfig) (m : Msg.NewProxy) : Msg.NewProxy :=
  put_RemotePort (tcp_RemotePort c) (base_MarshalToMsg (tcp_base c) m).
Definition UDP_MarshalToMsg (c : UDPProxyConfig) (m : Msg.NewProxy) : Msg.NewProxy :=
  put_RemotePort (udp_RemotePort c) (base_MarshalToMsg (udp_base c) m).
Definition TCPUDP_MarshalToMsg (c : TCPUDPProxyConfig) (m : Msg.NewProxy) : Msg.NewProxy :=
  put_RemotePort (tu_RemotePort c) (base_MarshalToMsg (tu_base c) m).
Definition HTTP_MarshalToMsg (c : HTTPProxyConfig) (m : Msg.NewProxy) : Msg.NewProxy :=
  put_HTTP c (put_Domain (http_Domain c) (base_MarshalToMsg (http_base c) m)).
Definition HTTPS_MarshalToMsg (c : HTTPSProxyConfig) (m : Msg.NewProxy) : Msg.NewProxy :=
  put_Domain (https_Domain c) (base_MarshalToMsg (https_base c) m).
Definition MC_MarshalToMsg (c : MCProxyConfig) (m : Msg.NewProxy) : Msg.NewProxy :=
  put_RemotePort (mc_RemotePort c) (put_Domain (mc_Domain c) (base_MarshalToMsg (mc_base c) m)).
Definition PE_MarshalToMsg (c : PEProxyConfig) (m : Msg.NewProxy) : Msg.NewProxy :=
  put_RemotePort (pe_RemotePort c) (base_MarshalToMsg (pe_base c) m).
Definition TCPMux_MarshalToMsg (c : TCPMuxProxyConfig) (m : Msg.NewProxy) : Msg.NewProxy :=
  put_Mux c (put_Domain (mux_Domain c) (base_MarshalToMsg (mux_base c) m)).
Definition STCP_MarshalToMsg (c : STCPProxyConfig) (m : Msg.NewProxy) : Msg.NewProxy :=
  put_Secret (stcp_Secretkey c) (stcp_AllowUsers c) (base_MarshalToMsg (stcp_base c) m).
Definition SUDP_MarshalToMsg (c : SUDPProxyConfig) (m : Msg.NewProxy) : Msg.NewProxy :=
  put_Secret (sudp_Secretkey c) (sudp_AllowUsers c) (base_MarshalToMsg (sudp_base c) m).
Definition XTCP_MarshalToMsg (c : XTCPProxyConfig) (m : Msg.NewProxy) : Msg.NewProxy :=
  put_Secret (xtcp_Secretkey c) (xtcp_AllowUsers c) (base_MarshalToMsg (xtcp_base c) m).
Definition XUDP_MarshalToMsg (c : XUDPProxyConfig) (m : Msg.NewProxy) : Msg.NewProxy :=
  put_Secret (xudp_Secretkey c) (xudp_AllowUsers c) (base_MarshalToMsg (xudp_base c) m).
Definition XTCPXUDP_MarshalToMsg (c : XTCPXUDPProxyConfig) (m : Msg.NewProxy) : Msg.NewProxy :=
  put_Secret (xx_Secretkey c) (xx_AllowUsers c) (base_MarshalToMsg (xx_base c) m).
Definition STCPSUDP_MarshalToMsg (c : STCPSUDPProxyConfig) (m : Msg.NewProxy) : Msg.NewProxy :=
  put_Secret (ss_Secretkey c) (ss_AllowUsers c) (base_MarshalToMsg (ss_base c) m).

Definition MarshalToMsg (c : ProxyConfigurer) : Msg.NewProxy → Msg.NewProxy :=
  match c with
  | CTCP c => TCP_MarshalToMsg c | CUDP c => UDP_MarshalToMsg c | CTCPUDP c => TCPUDP_MarshalToMsg c
  | CHTTP c => HTTP_MarshalToMsg c | CHTTPS c => HTTPS_MarshalToMsg c | CMC c => MC_MarshalToMsg c
  | CPE c => PE_MarshalToMsg c | CTCPMux c => TCPMux_MarshalToMsg c | CSTCP c => STCP_MarshalToMsg c
  | CSUDP c => SUDP_MarshalToMsg c | CXTCP c => XTCP_MarshalToMsg c | CXUDP c => XUDP_MarshalToMsg c
  | CXTCPXUDP c => XTCPXUDP_MarshalToMsg c | CSTCPSUDP c => STCPSUDP_MarshalToMsg c
  end.

(** [ProxyBaseConfig.UnmarshalFromMsg]. The error of [NewBandwidthQuantity] is
    dropped, and with an error the quantity is the zero one. *)
Definition base_UnmarshalFromMsg (c : ProxyBaseConfig) (m : Msg.NewProxy) : ProxyBaseConfig :=
  let tr := Transport c in
  let limit :=
    if String.eqb (Msg.np_BandwidthLimit m) "" then BandwidthLimit tr
    else match NewBandwidthQuantity ParseFloat scale (Msg.np_BandwidthLimit m) with
         | Ok q => q
         | Err _ => mkBandwidthQuantity "" 0
         end in
  let mode :=
    if String.eqb (Msg.np_BandwidthLimitMode m) "" then BandwidthLimitMode tr
    else Msg.np_BandwidthLimitMode m in
  mkProxyBase (Msg.np_ProxyName m) (Msg.np_ProxyType m) (Enabled c) (Msg.np_Annotations m)
    (mkProxyTransport (Msg.np_UseEncryption m) (Msg.np_UseCompression m) limit mode
       (ProxyProtocolVersion tr))
    (Msg.np_Metas m) (mkLoadBalancer (Msg.np_Group m) (Msg.np_GroupKey m))
    (HealthCheck c) (Backend c).

Definition msg_Domain (m : Msg.NewProxy) : DomainConfig :=
  mkDomainConfig (Msg.np_CustomDomains m) (Msg.np_SubDomain m).

(** The fourteen [UnmarshalFromMsg] methods. *)
Definition TCP_UnmarshalFromMsg (c : TCPProxyConfig) (m : Msg.NewProxy) : TCPProxyConfig :=
  mkTCP (base_UnmarshalFromMsg (tcp_base c) m) (Msg.np_RemotePort m).
Definition UDP_UnmarshalFromMsg (c : UDPProxyConfig) (m : Msg.NewProxy) : UDPProxyConfig :=
  mkUDP (base_UnmarshalFromMsg (udp_base c) m) (Msg.np_RemotePort m).
Definition TCPUDP_UnmarshalFromMsg (c : TCPUDPProxyConfig) (m : Msg.NewProxy) : TCPUDPProxyConfig :=
  mkTCPUDP (base_UnmarshalFromMsg (tu_base c) m) (Msg.np_RemotePort m) (tu_LocalPortUDP c).
Definition HTTP_UnmarshalFromMsg (c : HTTPProxyConfig) (m : Msg.NewProxy) : HTTPProxyConfig :=
  mkHTTP (base_UnmarshalFromMsg (http_base c) m) (msg_Domain m) (Msg.np_Locations m) (Msg.np_HTTPUser m)
      (Msg.np_HTTPPwd m) (Msg.np_HostHeaderRewrite m) (mkHeaderOperations (Msg.np_Headers m))
      (mkHeaderOperations (Msg.np_ResponseHeaders m)) (Msg.np_RouteByHTTPUser m).
Definition HTTPS_UnmarshalFromMsg (c : HTTPSProxyConfig) (m : Msg.NewProxy) : HTTPSProxyConfig :=
  mkHTTPS (base_UnmarshalFromMsg (https_base c) m) (msg_Domain m).
Definition MC_UnmarshalFromMsg (c : MCProxyConfig) (m : Msg.NewProxy) : MCProxyConfig :=
  mkMC (base_UnmarshalFromMsg (mc_base c) m) (msg_Domain m) (Msg.np_RemotePort m).
Definition PE_UnmarshalFromMsg (c : PEProxyConfig) (m : Msg.NewProxy) : PEProxyConfig :=
  mkPE (base_UnmarshalFromMsg (pe_base c) m) (Msg.np_RemotePort m) (pe_ForcedHosts c).
Definition TCPMux_UnmarshalFromMsg (c : TCPMuxProxyConfig) (m : Msg.NewProxy) : TCPMuxProxyConfig :=
  mkTCPMux (base_UnmarshalFromMsg (mux_base c) m) (msg_Domain m) (Msg.np_HTTPUser m) (Msg.np_HTTPPwd m)
      (Msg.np_RouteByHTTPUser m) (Msg.np_Multiplexer m).
Definition STCP_UnmarshalFromMsg (c : STCPProxyConfig) (m : Msg.NewProxy) : STCPProxyConfig :=
  mkSTCP (base_UnmarshalFromMsg (stcp_base c) m) (Msg.np_Sk m) (Msg.np_AllowUsers m).
Definition SUDP_UnmarshalFromMsg (c : SUDPProxyConfig) (m : Msg.NewProxy) : SUDPProxyConfig :=
  mkSUDP (base_UnmarshalFromMsg (sudp_base c) m) (Msg.np_Sk m) (Msg.np_AllowUsers m).
Definition XTCP_UnmarshalFromMsg (c : XTCPProxyConfig) (m : Msg.NewProxy) : XTCPProxyConfig :=
  mkXTCP (base_UnmarshalFromMsg (xtcp_base c) m) (Msg.np_Sk m) (Msg.np_AllowUsers m) (xtcp_NatTraversal c).
Definition XUDP_UnmarshalFromMsg (c : XUDPProxyConfig) (m : Msg.NewProxy) : XUDPProxyConfig :=
  mkXUDP (base_UnmarshalFromMsg (xudp_base c) m) (Msg.np_Sk m) (Msg.np_AllowUsers m) (xudp_NatTraversal c).
Definition XTCPXUDP_UnmarshalFromMsg (c : XTCPXUDPProxyConfig) (m : Msg.NewProxy) : XTCPXUDPProxyConfig :=
  mkXTCPXUDP (base_UnmarshalFromMsg (xx_base c) m) (Msg.np_Sk m) (Msg.np_AllowUsers m) (xx_LocalPortUDP c) (xx_NatTraversal c).
Definition STCPSUDP_UnmarshalFromMsg (c : STCPSUDPProxyConfig) (m : Msg.NewProxy) : STCPSUDPProxyConfig :=
  mkSTCPSUDP (base_UnmarshalFromMsg (ss_base c) m) (Msg.np_Sk m) (Msg.np_AllowUsers m) (ss_LocalPortUDP c).

Definition UnmarshalFromMsg (c : ProxyConfigurer) (m : Msg.NewProxy) : ProxyConfigurer :=
  match c with
  | CTCP c => CTCP (TCP_UnmarshalFromMsg c m) | CUDP c => CUDP (UDP_UnmarshalFromMsg c m)
  | CTCPUDP c => CTCPUDP (TCPUDP_UnmarshalFromMsg c m) | CHTTP c => CHTTP (HTTP_UnmarshalFromMsg c m)
  | CHTTPS c => CHTTPS (HTTPS_UnmarshalFromMsg c m) | CMC c => CMC (MC_UnmarshalFromMsg c m)
  | CPE c => CPE (PE_UnmarshalFromMsg c m) | CTCPMux c => CTCPMux (TCPMux_UnmarshalFromMsg c m)
  | CSTCP c => CSTCP (STCP_UnmarshalFromMsg c m) | CSUDP c => CSUDP (SUDP_UnmarshalFromMsg c m)
  | CXTCP c => CXTCP (XTCP_UnmarshalFromMsg c m) | CXUDP c => CXUDP (XUDP_UnmarshalFromMsg c m)
  | CXTCPXUDP c => CXTCPXUDP (XTCPXUDP_UnmarshalFromMsg c m) | CSTCPSUDP c => CSTCPSUDP (STCPSUDP_UnmarshalFromMsg c m)
  end.
End Messages.

(** ** Validation *)

(** The fields of the server's configuration that validation reads. *)
Record ServerConfig := mkServerConfig {
  SubDomainHost : string; VhostHTTPPort : Z; VhostHTTPSPort : Z; TCPMuxHTTPConnectPort : Z }.

Inductive plugin_error := ErrLocalAddr | ErrLocalPath | ErrUnixPath.

Inductive config_error :=
| ErrNameEmpty
| ErrAnnotations (keys : list (string * string)) (size : option Z)
| ErrProxyProtocol (v : string)
| ErrBandwidthLimitMode
| ErrPort (field : string) (port : Z)
| ErrHealthCheckType (t : string)
| ErrHealthCheckPath
| ErrPlugin (t : string) (e : plugin_error)
| ErrNoDomain
| ErrCustomDomain (domain host : string)
| ErrSubDomainNotEnabled
| ErrSubDomainChars
| ErrMultiplexer (m : string)
| ErrRemotePortRequired (t : string)
| ErrForcedHosts
| ErrHTTPConnectNotEnabled
| ErrVhostHTTPNotSet
| ErrVhostHTTPSNotSet
| ErrUnknownProxyType (t : string).

(** The steps of a validation: the first error is returned. *)
Fixpoint first_error (checks : list (option config_error)) : option config_error :=
  match checks with
  | [] => None
  | Some e :: _ => Some e
  | None :: rest => first_error rest
  end.

Definition require (ok : bool) (e : config_error) : option config_error := if ok then None else Some e.
Definition str_in (s : string) (l : list string) : bool := existsb (String.eqb s) l.

Definition ValidatePort (port : Z) (fieldPath : string) : option config_error :=
  if (0 <=? port) && (port <=? 65535) then None else Some (ErrPort fieldPath port).

Definition validateHTTP2HTTPSPluginOptions (c : HTTP2HTTPSPluginOptions) : option plugin_error :=
  if String.eqb (p2s_LocalAddr c) "" then Some ErrLocalAddr else None.
Definition validateHTTPS2HTTPPluginOptions (c : HTTPS2HTTPPluginOptions) : option plugin_error :=
  if String.eqb (ps2_LocalAddr c) "" then Some ErrLocalAddr else None.
Definition validateHTTPS2HTTPSPluginOptions (c : HTTPS2HTTPSPluginOptions) : option plugin_error :=
  if String.eqb (ps2s_LocalAddr c) "" then Some ErrLocalAddr else None.
Definition validateStaticFilePluginOptions (c : StaticFilePluginOptions) : option plugin_error :=
  if String.eqb (psf_LocalPath c) "" then Some ErrLocalPath else None.
Definition validateUnixDomainSocketPluginOptions (c : UnixDomainSocketPluginOptions) : option plugin_error :=
  if String.eqb (pud_UnixPath c) "" then Some ErrUnixPath else None.
Definition validateTLS2RawPluginOptions (c : TLS2RawPluginOptions) : option plugin_error :=
  if String.eqb (ptr_LocalAddr c) "" then Some ErrLocalAddr else None.

Definition ValidateClientPluginOptions (c : ClientPluginOptions) : option plugin_error :=
  match c with
  | PHTTP2HTTPS v => validateHTTP2HTTPSPluginOptions v
  | PHTTPS2HTTP v => validateHTTPS2HTTPPluginOptions v
  | PHTTPS2HTTPS v => validateHTTPS2HTTPSPluginOptions v
  | PStaticFile v => validateStaticFilePluginOptions v
  | PUnixDomainSocket v => validateUnixDomainSocketPluginOptions v
  | PTLS2Raw v => validateTLS2RawPluginOptions v
  | PHTTPProxy _ | PHTTP2HTTP _ | PSocks5 _ | PVirtualNet _ => None
  end.

Definition TotalAnnotationSizeLimitB : Z := 256 * Z.shiftl 1 10.

Definition annotations_size (annotations : gmap string string) : Z :=
  map_fold (λ k v acc, Z.of_nat (String.length k) + Z.of_nat (String.length v) + acc) 0 annotations.

Definition ValidateAnnotationsSize (annotations : gmap string string) : option Z :=
  if TotalAnnotationSizeLimitB <? annotations_size annotations
  then Some (annotations_size annotations) else None.

Section Validation.
(** k8s.io/apimachinery's [validation.IsQualifiedName]: the complaints about a
    name, none when it is one. *)
Context (IsQualifiedName : string → list string).

(** All complaints are joined; the order of the keys in the text is that of
    Go's map iteration, here the map's own. *)
Definition ValidateAnnotations (annotations : gmap string string) : option config_error :=
  let keys := map_to_list annotations ≫= λ kv, (λ msg, (kv.1, msg)) <$> IsQualifiedName (ToLower kv.1) in
  match keys, ValidateAnnotationsSize annotations with
  | [], None => None
  | _, size => Some (ErrAnnotations keys size)
  end.

Definition validateProxyBaseConfigForClient (c : ProxyBaseConfig) : option config_error :=
  let plugin := Plugin (Backend c) in
  first_error [
    require (negb (String.eqb (Name c) "")) ErrNameEmpty;
    ValidateAnnotations (Annotations c);
    require (str_in (ProxyProtocolVersion (Transport c)) [""; "v1"; "v2"])
      (ErrProxyProtocol (ProxyProtocolVersion (Transport c)));
    require (str_in (BandwidthLimitMode (Transport c)) ["client"; "server"]) ErrBandwidthLimitMode;
    (if String.eqb (plugin_Type plugin) "" then ValidatePort (LocalPort (Backend c)) "localPort" else None);
    require (str_in (health_Type (HealthCheck c)) [""; "tcp"; "http"])
      (ErrHealthCheckType (health_Type (HealthCheck c)));
    require (negb (String.eqb (health_Type (HealthCheck c)) "http" &&
                   String.eqb (health_Path (HealthCheck c)) "")) ErrHealthCheckPath;
    (if String.eqb (plugin_Type plugin) "" then None
     else match plugin_Options plugin with
          | Some o => ErrPlugin (plugin_Type plugin) <$> ValidateClientPluginOptions o
          | None => None
          end)].

Definition validateProxyBaseConfigForServer (c : ProxyBaseConfig) : option config_error :=
  ValidateAnnotations (Annotations c).

Definition validateDomainConfigForClient (c : DomainConfig) : option config_error :=
  match SubDomain c, CustomDomains c with
  | EmptyString, [] => Some ErrNoDomain
  | _, _ => None
  end.

Definition custom_domain_clash (s : ServerConfig) (domain : string) : bool :=
  negb (String.eqb (SubDomainHost s) "") &&
  (length (Split (SubDomainHost s) ".") <? length (Split domain "."))%nat &&
  HasSuffix domain ("." +:+ SubDomainHost s).

Definition validateDomainConfigForServer (c : DomainConfig) (s : ServerConfig) : option config_error :=
  match first_match (custom_domain_clash s) (CustomDomains c) with
  | Some domain => Some (ErrCustomDomain domain (SubDomainHost s))
  | None =>
      if String.eqb (SubDomain c) "" then None
      else if String.eqb (SubDomainHost s) "" then Some ErrSubDomainNotEnabled
      else if ContainsChar (SubDomain c) "." || ContainsChar (SubDomain c) "*"
      then Some ErrSubDomainChars else None
  end.

Definition validateTCPMuxProxyConfigForClient (c : TCPMuxProxyConfig) : option config_error :=
  first_error [validateDomainConfigForClient (mux_Domain c);
               require (String.eqb (mux_Multiplexer c) "httpconnect") (ErrMultiplexer (mux_Multiplexer c))].
Definition validateHTTPProxyConfigForClient (c : HTTPProxyConfig) : option config_error :=
  validateDomainConfigForClient (http_Domain c).
Definition validateHTTPSProxyConfigForClient (c : HTTPSProxyConfig) : option config_error :=
  validateDomainConfigForClient (https_Domain c).
Definition validateMCProxyConfigForClient (c : MCProxyConfig) : option config_error :=
  first_error [require (negb (mc_RemotePort c =? 0)) (ErrRemotePortRequired "mc");
               validateDomainConfigForClient (mc_Domain c)].
Definition validatePEProxyConfigForClient (c : PEProxyConfig) : option config_error :=
  first_error [require (negb (pe_RemotePort c =? 0)) (ErrRemotePortRequired "pe");
               require (negb (bool_decide (pe_ForcedHosts c = ∅))) ErrForcedHosts].

Definition ValidateProxyConfigurerForClient (c : ProxyConfigurer) : option config_error :=
  match validateProxyBaseConfigForClient (GetBaseConfig c) with
  | Some e => Some e
  | None =>
      match c with
      | CTCPMux c => validateTCPMuxProxyConfigForClient c
      | CHTTP c => validateHTTPProxyConfigForClient c
      | CHTTPS c => validateHTTPSProxyConfigForClient c
      | CMC c => validateMCProxyConfigForClient c
      | CPE c => validatePEProxyConfigForClient c
      | CTCP _ | CUDP _ | CTCPUDP _ | CSTCP _ | CSUDP _ | CXTCP _ | CXUDP _ | CXTCPXUDP _
      | CSTCPSUDP _ => None
      end
  end.

Definition validateTCPMuxProxyConfigForServer (c : TCPMuxProxyConfig) (s : ServerConfig) : option config_error :=
  first_error [require (negb (String.eqb (mux_Multiplexer c) "httpconnect" &&
                              (TCPMuxHTTPConnectPort s =? 0))) ErrHTTPConnectNotEnabled;
               validateDomainConfigForServer (mux_Domain c) s].
Definition validateHTTPProxyConfigForServer (c : HTTPProxyConfig) (s : ServerConfig) : option config_error :=
  first_error [require (negb (VhostHTTPPort s =? 0)) ErrVhostHTTPNotSet;
               validateDomainConfigForServer (http_Domain c) s].
Definition validateHTTPSProxyConfigForServer (c : HTTPSProxyConfig) (s : ServerConfig) : option config_error :=
  first_error [require (negb (VhostHTTPSPort s =? 0)) ErrVhostHTTPSNotSet;
               validateDomainConfigForServer (https_Domain c) s].
Definition validateMCProxyConfigForServer (c : MCProxyConfig) (s : ServerConfig) : option config_error :=
  first_error [require (negb (mc_RemotePort c =? 0)) (ErrRemotePortRequired "mc");
               validateDomainConfigForServer (mc_Domain c) s].
Definition validatePEProxyConfigForServer (c : PEProxyConfig) (_ : ServerConfig) : option config_error :=
  require (negb (pe_RemotePort c =? 0)) (ErrRemotePortRequired "pe").

Definition ValidateProxyConfigurerForServer (c : ProxyConfigurer) (s : ServerConfig) :
    option config_error :=
  match validateProxyBaseConfigForServer (GetBaseConfig c) with
  | Some e => Some e
  | None =>
      match c with
      | CTCPMux c => validateTCPMuxProxyConfigForServer c s
      | CHTTP c => validateHTTPProxyConfigForServer c s
      | CHTTPS c => validateHTTPSProxyConfigForServer c s
      | CMC c => validateMCProxyConfigForServer c s
      | CPE c => validatePEProxyConfigForServer c s
      | CTCP _ | CUDP _ | CTCPUDP _ | CSTCP _ | CSUDP _ | CXTCP _ | CXUDP _ | CXTCPXUDP _
      | CSTCPSUDP _ => None
      end
  end.

(** *** The server's configurer *)

Context {float64 : Type} (ParseFloat : string → option float64) (scale : float64 → Z → Z).

(** [m.ProxyType = util.EmptyOr(m.ProxyType, "tcp")] *)
Definition default_type (m : Msg.NewProxy) : Msg.NewProxy :=
  let '(Msg.mkNewProxy a1 a2 a3 a4 a5 a6 a7 a8 a9 a10 p b1 b2 b3 b4 b5 b6 b7 b8 b9 b10 b11 b12) := m in
  Msg.mkNewProxy a1 (EmptyOr a2 "tcp") a3 a4 a5 a6 a7 a8 a9 a10 p b1 b2 b3 b4 b5 b6 b7 b8 b9 b10 b11 b12.

Definition NewProxyConfigurerFromMsg (m : Msg.NewProxy) (serverCfg : ServerConfig) :
    res config_error ProxyConfigurer :=
  let m := default_type m in
  match NewProxyConfigurerByType (Msg.np_ProxyType m) with
  | None => Err (ErrUnknownProxyType (Msg.np_ProxyType m))
  | Some configurer =>
      let configurer := Complete (UnmarshalFromMsg ParseFloat scale configurer m) in
      match ValidateProxyConfigurerForServer configurer serverCfg with
      | Some e => Err e
      | None => Ok configurer
      end
  end.

(** ** What the server knows of a configuration *)

(** The part of the base configuration that is sent. *)
Definition base_view (c : ProxyBaseConfig) : ProxyBaseConfig :=
  let tr := Transport c in
  mkProxyBase (Name c) (Type_ c) None (Annotations c)
    (mkProxyTransport (UseEncryption tr) (UseCompression tr) (BandwidthLimit tr)
       (EmptyOr (BandwidthLimitMode tr) "client") "")
    (Metadatas c) (LoadBalancer c) (mkHealthCheck "" 0 0 0 "" [])
    (mkProxyBackend "127.0.0.1" 0 zero_plugin).

(** The server's copy: local addresses, plugins, health checks, hosts and NAT
    settings stay with the client. *)
Definition server_view (c : ProxyConfigurer) : ProxyConfigurer :=
  set_base (match c with
            | CTCPUDP c => CTCPUDP (mkTCPUDP (tu_base c) (tu_RemotePort c) 0)
            | CPE c => CPE (mkPE (pe_base c) (pe_RemotePort c) ∅)
            | CXTCP c => CXTCP (mkXTCP (xtcp_base c) (xtcp_Secretkey c) (xtcp_AllowUsers c) None)
            | CXUDP c => CXUDP (mkXUDP (xudp_base c) (xudp_Secretkey c) (xudp_AllowUsers c) None)
            | CXTCPXUDP c =>
                CXTCPXUDP (mkXTCPXUDP (xx_base c) (xx_Secretkey c) (xx_AllowUsers c) 0 None)
            | CSTCPSUDP c => CSTCPSUDP (mkSTCPSUDP (ss_base c) (ss_Secretkey c) (ss_AllowUsers c) 0)
            | _ => c
            end) (base_view (GetBaseConfig c)).

(** The message of a client: [var newProxyMsg msg.NewProxy]. *)
Definition zero_msg : Msg.NewProxy :=
  Msg.mkNewProxy "" "" false false "" "" "" "" ∅ ∅ 0 [] "" [] "" "" "" ∅ ∅ "" "" [] "".

(** A configuration whose [Type] is that of its struct. *)
Definition typed (c : ProxyConfigurer) : Prop := Type_ (GetBaseConfig c) = type_of c.

Lemma base_roundtrip (b b0 : ProxyBaseConfig) m :
  bq_wf ParseFloat scale (BandwidthLimit (Transport b)) →
  Msg.np_BandwidthLimitMode m = "" →
  b0 = set_Type zero_base (Type_ b0) →
  base_Complete (base_UnmarshalFromMsg ParseFloat scale b0 (base_MarshalToMsg b m)) = base_view b.
Proof.
  intros Hq Hm ->. destruct b as [n t en an [ue uc bl bm pv] me [g gk] hc be]. simpl in Hq.
  unfold base_view, base_Complete, base_UnmarshalFromMsg, base_MarshalToMsg. simpl.
  rewrite Hm. do 2 f_equal.
  - destruct (bq_wf_reparse _ _ _ Hq) as [[-> ->]|[Hne ->]]; [done|].
    by destruct (String.eqb_spec (bq_String bl) "").
  - unfold EmptyOr. destruct (String.eqb_spec bm "client") as [->|Hc]; simpl; [done|].
    destruct (String.eqb_spec bm "") as [->|Hb]; [done|].
    by rewrite (proj2 (String.eqb_neq _ _) Hb).
Qed.

Lemma default_type_typed t : t ≠ "" → EmptyOr t "tcp" = t.
Proof. intros. unfold EmptyOr. by destruct (String.eqb_spec t ""). Qed.

(** Putting a base configuration in or taking it out. *)
Lemma GetBaseConfig_set c b : GetBaseConfig (set_base c b) = b.
Proof. by destruct c. Qed.

Lemma set_base_set c b b' : set_base (set_base c b) b' = set_base c b'.
Proof. by destruct c. Qed.

Lemma set_base_get c : set_base c (GetBaseConfig c) = c.
Proof. by destruct c as [[]|[]|[]|[]|[]|[]|[]|[]|[]|[]|[]|[]|[]|[]]. Qed.

Lemma type_of_set c b : type_of (set_base c b) = type_of c.
Proof. by destruct c. Qed.

(** The configurer of a type, with no field set but the type. *)
Lemma NewProxyConfigurerByType_Some t pc :
  NewProxyConfigurerByType t = Some pc → type_of pc = t ∧ GetBaseConfig pc = set_Type zero_base t.
Proof.
  unfold NewProxyConfigurerByType. intros H.
  destruct (first_match _ _) as [[t' pc']|] eqn:Hm; [|done]. injection H as <-.
  apply first_match_elem_of in Hm as [Hin Ht]. simpl in Ht. apply String.eqb_eq in Ht as <-.
  rewrite GetBaseConfig_set, type_of_set. unfold proxyConfigTypeMap in Hin.
  repeat (apply elem_of_cons in Hin as [[= -> ->]|Hin]; [done|]). set_solver.
Qed.

Lemma NewProxyConfigurerByType_of c :
  ∃ pc, NewProxyConfigurerByType (type_of c) = Some pc ∧ type_of pc = type_of c.
Proof. destruct c; eexists; done. Qed.

Lemma server_view_unmarshal c pc m :
  Msg.np_BandwidthLimitMode m = "" →
  bq_wf ParseFloat scale (BandwidthLimit (Transport (GetBaseConfig c))) →
  NewProxyConfigurerByType (type_of c) = Some pc →
  Complete (UnmarshalFromMsg ParseFloat scale pc (MarshalToMsg c m)) = server_view c.
Proof.
  intros Hm Hq Hpc.
  pose proof (NewProxyConfigurerByType_Some _ _ Hpc) as [_ Hb].
  pose proof (base_roundtrip (GetBaseConfig c) (GetBaseConfig pc) m Hq Hm) as Hr.
  rewrite Hb in Hr. specialize (Hr eq_refl). unfold Complete, server_view.
  destruct c as [[]|[]|[]|[]|[]|[]|[]|[]|[]|[]|[]|[]|[]|[]]; cbn in Hpc; injection Hpc as <-;
    repeat match goal with
           | d : DomainConfig |- _ => destruct d
           | h : HeaderOperations |- _ => destruct h
           end; cbn in Hr |- *; by rewrite <-Hr.
Qed.

Lemma default_type_marshal c m : typed c → default_type (MarshalToMsg c m) = MarshalToMsg c m.
Proof.
  unfold typed. intros Ht. destruct c as [[]|[]|[]|[]|[]|[]|[]|[]|[]|[]|[]|[]|[]|[]]; cbn in Ht;
    cbn; unfold default_type; cbn; rewrite Ht; done.
Qed.

Lemma np_ProxyType_marshal c m : Msg.np_ProxyType (MarshalToMsg c m) = Type_ (GetBaseConfig c).
Proof. by destruct c. Qed.

(** Server-side validation reads only what was sent. *)
Lemma validate_view c s :
  ValidateProxyConfigurerForServer (server_view c) s = ValidateProxyConfigurerForServer c s.
Proof. by destruct c as [[]|[]|[]|[]|[]|[]|[]|[]|[]|[]|[]|[]|[]|[]]. Qed.

(** *** Domains *)

(** The comparison of label counts adds nothing to that of suffixes. *)
Lemma custom_domain_clash_spec s domain :
  custom_domain_clash s domain = true ↔
  SubDomainHost s ≠ "" ∧ ∃ t, domain = t +:+ "." +:+ SubDomainHost s.
Proof using.
  unfold custom_domain_clash. rewrite !andb_true_iff, negb_true_iff, String.eqb_neq, HasSuffix_spec.
  split; [by intros [[? _] ?]|]. intros [Hs [t ->]]. split_and!; [done| |by exists t].
  apply Nat.ltb_lt. change ("." +:+ SubDomainHost s) with (String "." (SubDomainHost s)).
  rewrite Split_app_sep, length_app. pose proof (Split_nonempty t ".").
  destruct (Split t "."); [done|]. simpl. lia.
Qed.

Lemma validateDomain_spec d s :
  validateDomainConfigForServer d s = None ↔
  (∀ domain t, domain ∈ CustomDomains d → domain = t +:+ "." +:+ SubDomainHost s →
     SubDomainHost s = "") ∧
  (SubDomain d ≠ "" → SubDomainHost s ≠ "" ∧
     ContainsChar (SubDomain d) "." = false ∧ ContainsChar (SubDomain d) "*" = false).
Proof using.
  unfold validateDomainConfigForServer. destruct (first_match _ _) as [x|] eqn:Hm.
  - apply first_match_elem_of in Hm as [Hx [Hs [t Ht]]%custom_domain_clash_spec]; [].
    split; [done|]. intros [Hd _]. by destruct Hs; eapply Hd.
  - apply first_match_None in Hm. rewrite Forall_forall in Hm.
    assert (∀ domain t, domain ∈ CustomDomains d → domain = t +:+ "." +:+ SubDomainHost s →
      SubDomainHost s = "") as Hd.
    { intros domain t Hin Ht. destruct (decide (SubDomainHost s = "")) as [|Hs]; [done|].
      specialize (Hm domain Hin). rewrite (proj2 (custom_domain_clash_spec s domain)) in Hm; [done|].
      split; [done|by exists t]. }
    destruct (String.eqb_spec (SubDomain d) "") as [Hs|Hs]; [by split|].
    destruct (String.eqb_spec (SubDomainHost s) "") as [Hh|Hh];
      [split; [done|]; intros [_ H]; by destruct (H Hs)|].
    destruct (ContainsChar _ "."), (ContainsChar _ "*"); simpl; split; try done;
      intros [_ H]; destruct (H Hs) as (? & ? & ?); done.
Qed.

Lemma validate_not_unknown c s t :
  ValidateProxyConfigurerForServer c s ≠ Some (ErrUnknownProxyType t).
Proof.
  unfold ValidateProxyConfigurerForServer, validateProxyBaseConfigForServer, ValidateAnnotations,
    validateTCPMuxProxyConfigForServer, validateHTTPProxyConfigForServer, validateHTTPSProxyConfigForServer,
    validateMCProxyConfigForServer, validatePEProxyConfigForServer,
    validateDomainConfigForServer, first_error, require.
  destruct c; repeat case_match; simplify_eq; done.
Qed.

(** What unmarshalling into a blank configurer gives. *)
Lemma unmarshal_typed t pc m :
  Msg.np_ProxyType m = t → NewProxyConfigurerByType t = Some pc →
  let c := Complete (UnmarshalFromMsg ParseFloat scale pc m) in
  typed c ∧ Type_ (GetBaseConfig c) = t ∧ Name (GetBaseConfig c) = Msg.np_ProxyName m ∧
  server_view c = c ∧ BandwidthLimitMode (Transport (GetBaseConfig c)) ≠ "".
Proof.
  intros <- Hpc. unfold NewProxyConfigurerByType in Hpc.
  destruct (first_match _ _) as [[t' pc']|] eqn:Hm; [|done]. injection Hpc as <-.
  apply first_match_elem_of in Hm as [Hin Ht]. simpl in Ht. apply String.eqb_eq in Ht.
  assert (∀ s, EmptyOr s "client" ≠ "") as He.
  { intros s. unfold EmptyOr. by destruct (String.eqb_spec s ""). }
  assert (∀ s, EmptyOr (EmptyOr s "client") "client" = EmptyOr s "client") as Hi.
  { intros s. unfold EmptyOr. destruct (String.eqb s "") eqn:E; [done|]. by rewrite E. }
  unfold proxyConfigTypeMap in Hin.
  repeat (apply elem_of_cons in Hin as [[= -> ->]|Hin];
    [unfold typed, server_view, base_view; cbn; unfold BandwidthLimitModeClient;
     rewrite Hi; split_and!; auto|]).
  set_solver.
Qed.

(** ** Properties *)

(** C18. What a client sends is what the server works with: from the message of
    any configuration whose type is that of its struct and whose bandwidth limit
    was read from a text, the server builds exactly the shared part of the
    configuration, or refuses it with the error its own validation gives on the
    client's configuration. *)
Theorem config_travels (c : ProxyConfigurer) (s : ServerConfig) :
  typed c →
  bq_wf ParseFloat scale (BandwidthLimit (Transport (GetBaseConfig c))) →
  NewProxyConfigurerFromMsg (MarshalToMsg c zero_msg) s =
  match ValidateProxyConfigurerForServer c s with
  | None => Ok (server_view c)
  | Some e => Err e
  end.
Proof.
  intros Ht Hq. unfold NewProxyConfigurerFromMsg.
  rewrite default_type_marshal, np_ProxyType_marshal, Ht by done.
  destruct (NewProxyConfigurerByType_of c) as (pc & Hpc & _). rewrite Hpc.
  rewrite (server_view_unmarshal c pc) by done. by rewrite validate_view.
Qed.

(** C19. Every configurer the server builds from a message, whoever sent it, is
    well formed: its struct is the one of its type, which is the message's or
    tcp, its name is the message's, nothing of it is client-side, its bandwidth
    mode is set, and it has passed the server's validation. A message of an
    unknown type is refused by name. *)
Theorem server_configurer_typed (m : Msg.NewProxy) (s : ServerConfig) :
  match NewProxyConfigurerFromMsg m s with
  | Ok c =>
      typed c ∧ Type_ (GetBaseConfig c) = EmptyOr (Msg.np_ProxyType m) "tcp" ∧
      Name (GetBaseConfig c) = Msg.np_ProxyName m ∧ server_view c = c ∧
      BandwidthLimitMode (Transport (GetBaseConfig c)) ≠ "" ∧
      ValidateProxyConfigurerForServer c s = None
  | Err (ErrUnknownProxyType t) =>
      t = EmptyOr (Msg.np_ProxyType m) "tcp" ∧ ∀ c, type_of c ≠ t
  | Err _ => ∃ c, type_of c = EmptyOr (Msg.np_ProxyType m) "tcp"
  end.
Proof.
  assert (Msg.np_ProxyType (default_type m) = EmptyOr (Msg.np_ProxyType m) "tcp") as Hty by by destruct m.
  assert (Msg.np_ProxyName (default_type m) = Msg.np_ProxyName m) as Hn by by destruct m.
  unfold NewProxyConfigurerFromMsg. rewrite Hty.
  set (t := EmptyOr (Msg.np_ProxyType m) "tcp") in *.
  destruct (NewProxyConfigurerByType t) as [pc|] eqn:Hpc; [|split; [done|]].
  2:{ intros c Hc. destruct (NewProxyConfigurerByType_of c) as (pc & Hpc' & _). congruence. }
  destruct (NewProxyConfigurerByType_Some _ _ Hpc) as [Ht Hb].
  destruct (ValidateProxyConfigurerForServer _ s) as [e|] eqn:Hv.
  - assert (∃ c, type_of c = t) as Hex by by exists pc.
    destruct e; try exact Hex. by apply validate_not_unknown in Hv.
  - destruct (unmarshal_typed t pc (default_type m) Hty Hpc) as (? & Ht' & ? & ? & ?).
    split_and!; try done; congruence.
Qed.
End Validation.

(** ** Witnesses *)

Definition demo_base : ProxyBaseConfig :=
  mkProxyBase "web" "http" None ∅
    (mkProxyTransport true false (mkBandwidthQuantity "2KB" 2048) "server" "v2")
    ∅ (mkLoadBalancer "" "") (mkHealthCheck "tcp" 3 1 10 "" [])
    (mkProxyBackend "10.0.0.1" 8080 zero_plugin).

Definition demo_http : ProxyConfigurer :=
  CHTTP (mkHTTP demo_base (mkDomainConfig ["www.example.com"] "web") ["/"] "" "" "" zero_headers
    zero_headers "").

Definition demo_server : ServerConfig := mkServerConfig "frp.com" 80 443 0.

(** Decimal integers stand in for floating-point numbers, and every key is a
    qualified name. *)
Lemma config_travels_witness :
  ValidateProxyConfigurerForServer (λ _, []) demo_http demo_server = None ∧
  NewProxyConfigurerFromMsg (λ _, []) Atoi Z.mul (MarshalToMsg demo_http zero_msg) demo_server =
    Ok (server_view demo_http).
Proof.
  split; [done|].
  refine (config_travels (λ _, []) Atoi Z.mul demo_http demo_server eq_refl _).
  exists "2KB". done.
Defined.

End Config.
