(* ===== verification/PortProxies.v ===== *)
(** Proxies on a port of the server: server/proxy/tcp.go, udp.go (also the
    Bedrock proxy, which the server runs as a udp proxy) and tcpudp.go.

    [RC] is the part of the server's resource controller that they use: the
    TCP port manager inside the TCP group controller, which shares it, the UDP
    port manager, and the ports on which the process has sockets. A probe or a
    listen on a port of the process's own fails; otherwise the operating
    system decides ([Env]).

    The proxies run concurrently, and only the calls of the port manager are under
    a lock: [ustep] has acquiring, listening, closing and releasing as actions of
    their own, of all users of the TCP port manager, and the runs and closings of
    the code are shown to be sequences of them. *)
From Stdlib Require Import ZArith Lia String.
From stdpp Require Import base gmap strings list fin_maps relations.
From S2P Require Import Prelude GoLib Ports Router Group.

Local Open Scope Z_scope.
Local Open Scope frp_scope.

Module PortProxies.
Import Group.

Notation TCPGroups := (@Group.Ctl Ports.Manager TCPReq Z).

Record RC := mkRC {
  tcpGroups : TCPGroups; udpPM : Ports.Manager; tcpSocks : gset Z; udpSocks : gset Z }.

(** The clock, what other programs leave free, the iteration orders of the
    managers' free ports, and whether binding succeeds. *)
Record Env := mkEnv {
  now : Z; os_tcp : Z → bool; os_udp : Z → bool; order_tcp : list Z; order_udp : list Z;
  bind_tcp : bool; bind_udp : bool }.

Definition avail_tcp (rc : RC) (e : Env) (p : Z) : bool :=
  os_tcp e p && bool_decide (p ∉ tcpSocks rc).
Definition avail_udp (rc : RC) (e : Env) (p : Z) : bool :=
  os_udp e p && bool_decide (p ∉ udpSocks rc).

Definition tcpPM (rc : RC) : Ports.Manager := backend (tcpGroups rc).
Definition set_tcpPM (rc : RC) (pm : Ports.Manager) : RC :=
  let g := tcpGroups rc in
  mkRC (mkCtl pm (groups g) (heap g) (nextGroup g) (nextLn g)) (udpPM rc) (tcpSocks rc) (udpSocks rc).
Definition set_tcpGroups (rc : RC) (g : TCPGroups) : RC := mkRC g (udpPM rc) (tcpSocks rc) (udpSocks rc).
Definition set_udpPM (rc : RC) (pm : Ports.Manager) : RC :=
  mkRC (tcpGroups rc) pm (tcpSocks rc) (udpSocks rc).
Definition set_tcpSocks (rc : RC) (ps : gset Z) : RC := mkRC (tcpGroups rc) (udpPM rc) ps (udpSocks rc).
Definition set_udpSocks (rc : RC) (ps : gset Z) : RC := mkRC (tcpGroups rc) (udpPM rc) (tcpSocks rc) ps.

Inductive run_error :=
| ErrGroup (e : group_error tcp_error)
| ErrTCPAcquire (e : Ports.error)
| ErrUDPAcquire (e : Ports.error)
| ErrTCPListen
| ErrUDPListen.

(** What a proxy has to remember for its [Close]: the port, and its listener
    of a group (the group and the listener's number). *)
Record Pxy := mkPxy {
  realBindPort : Z; member : option (nat * nat); isClosed : bool }.

(** [TCPPortManager.Acquire] and [Release], [UDPPortManager]'s. *)
Definition acquire_tcp (rc : RC) (e : Env) (name : string) (port : Z) : RC * res Ports.error Z :=
  let '(pm, r) := Ports.Acquire (tcpPM rc) (now e) (avail_tcp rc e) (order_tcp e) name port in
  (set_tcpPM rc pm, r).
Definition acquire_udp (rc : RC) (e : Env) (name : string) (port : Z) : RC * res Ports.error Z :=
  let '(pm, r) := Ports.Acquire (udpPM rc) (now e) (avail_udp rc e) (order_udp e) name port in
  (set_udpPM rc pm, r).
Definition release_tcp (rc : RC) (t : Z) (port : Z) : RC := set_tcpPM rc (Ports.Release (tcpPM rc) t port).
Definition release_udp (rc : RC) (t : Z) (port : Z) : RC := set_udpPM rc (Ports.Release (udpPM rc) t port).

(** [net.Listen("tcp", ...)] and [net.ListenUDP("udp", ...)]. *)
Definition listen_tcp (rc : RC) (e : Env) (port : Z) : option RC :=
  if bind_tcp e && bool_decide (port ∉ tcpSocks rc)
  then Some (set_tcpSocks rc ({[port]} ∪ tcpSocks rc)) else None.
Definition listen_udp (rc : RC) (e : Env) (port : Z) : option RC :=
  if bind_udp e && bool_decide (port ∉ udpSocks rc)
  then Some (set_udpSocks rc ({[port]} ∪ udpSocks rc)) else None.

(** The request a group's [Listen] makes to the port manager. *)
Definition tcp_request (rc : RC) (e : Env) (name addr : string) (port : Z) : TCPReq :=
  mkTCPReq name addr port (now e) (avail_tcp rc e) (order_tcp e) (bind_tcp e).

(** ** TCP proxies *)

(** [TCPProxy.Run]. Joining a group opens a socket when the group has none. *)
Definition TCP_Run (rc : RC) (e : Env) (name group groupKey addr : string) (port : Z) :
    RC * res run_error Pxy :=
  if negb (String.eqb group "") then
    match ctl_Listen 1 (tcpGroups rc) group groupKey (tcp_request rc e name addr port) with
    | (gs, Some (Ok (ln, realPort))) =>
        let g := default 0%nat (groups gs !! group) in
        (set_tcpSocks (set_tcpGroups rc gs) ({[realPort]} ∪ tcpSocks rc),
         Ok (mkPxy realPort (Some (g, ln)) false))
    | (gs, Some (Err er)) => (set_tcpGroups rc gs, Err (ErrGroup er))
    | (gs, None) => (set_tcpGroups rc gs, Err (ErrGroup errGroupStale))
    end
  else
    let '(rc, r) := acquire_tcp rc e name port in
    match r with
    | Err er => (rc, Err (ErrTCPAcquire er))
    | Ok realPort =>
        match listen_tcp rc e realPort with
        | None => (release_tcp rc (now e) realPort, Err ErrTCPListen)
        | Some rc => (rc, Ok (mkPxy realPort None false))
        end
    end.

(** [TCPProxy.Close]: the listeners, then the port when it is not a group's.
    The last listener of a group closes its socket. *)
Definition TCP_Close (rc : RC) (t : Z) (x : Pxy) : RC :=
  match member x with
  | Some (g, ln) =>
      let gs := closeListener t (tcpGroups rc) g ln in
      let last := match heap gs !! g with Some bg => bool_decide (lns bg = []) | None => false end in
      set_tcpGroups (if last then set_tcpSocks rc (tcpSocks rc ∖ {[realBindPort x]}) else rc) gs
  | None => release_tcp (set_tcpSocks rc (tcpSocks rc ∖ {[realBindPort x]})) t (realBindPort x)
  end.

(** ** UDP proxies *)

(** [UDPProxy.Run]. *)
Definition UDP_Run (rc : RC) (e : Env) (name : string) (port : Z) : RC * res run_error Pxy :=
  let '(rc, r) := acquire_udp rc e name port in
  match r with
  | Err er => (rc, Err (ErrUDPAcquire er))
  | Ok realPort =>
      match listen_udp rc e realPort with
      | None => (release_udp rc (now e) realPort, Err ErrUDPListen)
      | Some rc => (rc, Ok (mkPxy realPort None false))
      end
  end.

(** [UDPProxy.Close]: called when the proxy is closed and again by the
    goroutine that forwards the packets of the users, when the socket it reads
    from is closed. The port is released by every call. *)
Definition UDP_Close (rc : RC) (t : Z) (x : Pxy) : RC * Pxy :=
  let rc :=
    if isClosed x then rc else set_udpSocks rc (udpSocks rc ∖ {[realBindPort x]}) in
  (release_udp rc t (realBindPort x), mkPxy (realBindPort x) (member x) true).

(** ** TCP and UDP on the same port *)

(** [TCPUDPProxy.Run]: its deferred functions release the ports on an error;
    the listener it may have opened is in [listeners], which only [Close]
    closes. *)
Definition TCPUDP_Run (rc : RC) (e : Env) (name : string) (port : Z) : RC * res run_error Pxy :=
  let '(rc, r) := acquire_tcp rc e name port in
  match r with
  | Err er => (rc, Err (ErrTCPAcquire er))
  | Ok realPort =>
      let '(rc, r) := acquire_udp rc e name realPort in
      match r with
      | Err er => (release_tcp rc (now e) realPort, Err (ErrUDPAcquire er))
      | Ok _ =>
          match listen_tcp rc e realPort with
          | None => (release_tcp (release_udp rc (now e) realPort) (now e) realPort, Err ErrTCPListen)
          | Some rc =>
              match listen_udp rc e realPort with
              | None => (release_tcp (release_udp rc (now e) realPort) (now e) realPort, Err ErrUDPListen)
              | Some rc => (rc, Ok (mkPxy realPort None false))
              end
          end
      end
  end.

Definition TCPUDP_Close (rc : RC) (t : Z) (x : Pxy) : RC * Pxy :=
  let rc :=
    if isClosed x then rc
    else set_udpSocks (set_tcpSocks rc (tcpSocks rc ∖ {[realBindPort x]}))
           (udpSocks rc ∖ {[realBindPort x]}) in
  (release_udp (release_tcp rc t (realBindPort x)) t (realBindPort x),
   mkPxy (realBindPort x) (member x) true).

Definition NewRC (allowPorts : list Ports.PortsRange) : RC :=
  mkRC (NewCtl (Ports.NewManager allowPorts)) (Ports.NewManager allowPorts) ∅ ∅.

(** ** The users of the TCP port manager, interleaved

    Every user of the manager acquires a port, opens a socket on it, closes the
    socket and releases the port, each of them an action of its own between
    which the others run. A [Plain] user is a TCP proxy without a group
    (tcp.go), the socket of a TCP group (server/group/tcp.go) or a port of the
    Minecraft controller (server/group/minecraft.go); a [TCPUDP] user is the TCP
    half of a tcp+udp proxy, which releases its port without closing the socket
    when its UDP half fails, and which the goroutine of its UDP half closes
    again, and so releases again, after it was closed. *)

Inductive kind := Plain | TCPUDP.

Inductive phase :=
| Acquired (p : Z)     (* [Acquire] has returned the port *)
| Listening (p : Z)    (* with its socket *)
| Releasing (p : Z)    (* no socket, before [Release] *)
| Abandoning (p : Z)   (* tcp+udp: the UDP half failed, before [Release] *)
| Stray (p : Z)        (* ... after it: nobody closes the socket *)
| Late (p : Z).        (* tcp+udp: closed, and to be closed again *)

Record Users := mkUsers { pm : Ports.Manager; socks : gset Z; users : gmap nat (kind * phase) }.

Definition set_user (u : Users) (id : nat) (k : kind) (ph : phase) : Users :=
  mkUsers (pm u) (socks u) (<[id := (k, ph)]> (users u)).

(** [strict]: every port is asked for by its number, and there are no tcp+udp
    proxies. *)
Inductive ustep (strict : bool) : Users → Users → Prop :=
| UAcquire u id k t os order name port pm' p :
    users u !! id = None → order ≡ₚ elements (Ports.freePorts (pm u)) → (strict = true → port ≠ 0 ∧ k = Plain) →
    Ports.Acquire (pm u) t (λ q, os q && bool_decide (q ∉ socks u)) order name port = (pm', Ok p) →
    ustep strict u (mkUsers pm' (socks u) (<[id := (k, Acquired p)]> (users u)))
| URefused u t os order name port pm' e :
    order ≡ₚ elements (Ports.freePorts (pm u)) →
    Ports.Acquire (pm u) t (λ q, os q && bool_decide (q ∉ socks u)) order name port = (pm', Err e) →
    ustep strict u (mkUsers pm' (socks u) (users u))
| UListen u id k p : users u !! id = Some (k, Acquired p) → p ∉ socks u →
    ustep strict u (mkUsers (pm u) ({[p]} ∪ socks u) (<[id := (k, Listening p)]> (users u)))
| UListenFailed u id k p : users u !! id = Some (k, Acquired p) → ustep strict u (set_user u id k (Releasing p))
| UClose u id k p : users u !! id = Some (k, Listening p) →
    ustep strict u (mkUsers (pm u) (socks u ∖ {[p]}) (<[id := (k, Releasing p)]> (users u)))
| URelease u id k p t : users u !! id = Some (k, Releasing p) →
    ustep strict u (mkUsers (Ports.Release (pm u) t p) (socks u) (delete id (users u)))
| UUDPFailed u id p : users u !! id = Some (TCPUDP, Listening p) → ustep strict u (set_user u id TCPUDP (Abandoning p))
| UAbandon u id p t : users u !! id = Some (TCPUDP, Abandoning p) →
    ustep strict u (mkUsers (Ports.Release (pm u) t p) (socks u) (<[id := (TCPUDP, Stray p)]> (users u)))
| UReleaseLate u id p t : users u !! id = Some (TCPUDP, Releasing p) →
    ustep strict u (mkUsers (Ports.Release (pm u) t p) (socks u) (<[id := (TCPUDP, Late p)]> (users u)))
| ULate u id p t : users u !! id = Some (TCPUDP, Late p) →
    ustep strict u (mkUsers (Ports.Release (pm u) t p) (socks u) (delete id (users u)))
| UClean u t : ustep strict u (mkUsers (Ports.cleanReservedPortsOnce (pm u) t) (socks u) (users u)).

Definition NewUsers (allowPorts : list Ports.PortsRange) : Users := mkUsers (Ports.NewManager allowPorts) ∅ ∅.
Definition ureachable (strict : bool) (allowPorts : list Ports.PortsRange) : Users → Prop :=
  rtc (ustep strict) (NewUsers allowPorts).

(** The port a user has acquired and not released, and the one it has a socket
    on. *)
Definition held (ph : phase) : option Z :=
  match ph with Acquired p | Listening p | Releasing p | Abandoning p => Some p | Stray _ | Late _ => None end.
Definition bound (ph : phase) : option Z :=
  match ph with Listening p | Abandoning p | Stray p => Some p | _ => None end.

Definition holds (u : Users) (id : nat) (p : Z) : Prop := ∃ k ph, users u !! id = Some (k, ph) ∧ held ph = Some p.
Definition listens (u : Users) (id : nat) (p : Z) : Prop := ∃ k ph, users u !! id = Some (k, ph) ∧ bound ph = Some p.

Record uinv (strict : bool) (allowed : gset Z) (u : Users) : Prop := {
  u_wf : Ports.wf allowed (pm u);
  u_used : ∀ p, used (pm u) p → ∃ id, holds u id p;
  u_socks : ∀ p, p ∈ socks u ↔ ∃ id, listens u id p;
  u_one : ∀ id1 id2 p, listens u id1 p → listens u id2 p → id1 = id2;
  u_kind : strict = true → ∀ id k ph, users u !! id = Some (k, ph) → k = Plain;
  u_own : strict = true → ∀ id p, holds u id p → used (pm u) p;
  u_excl : strict = true → ∀ id1 id2 p, holds u id1 p → holds u id2 p → id1 = id2
}.

(** A change at one user. *)
Definition changed (us us' : gmap nat (kind * phase)) (id : nat) (o : option (kind * phase)) : Prop :=
  us' !! id = o ∧ ∀ i, i ≠ id → us' !! i = us !! i.

Lemma changed_insert us id x : changed us (<[id := x]> us) id (Some x).
Proof. split; [apply lookup_insert_eq|]. intros i Hi. by rewrite lookup_insert_ne. Qed.

Lemma changed_delete us id : changed us (delete id us) id None.
Proof. split; [apply lookup_delete_eq|]. intros i Hi. by rewrite lookup_delete_ne. Qed.

Lemma holds_changed u m s us' id o i p :
  changed (users u) us' id o →
  holds (mkUsers m s us') i p ↔ (i = id ∧ o ≫= (λ x, held x.2) = Some p) ∨ (i ≠ id ∧ holds u i p).
Proof.
  intros [H1 H2]. unfold holds. cbn. destruct (decide (i = id)) as [->|Hi].
  - rewrite H1. destruct o as [[k ph]|]; naive_solver.
  - rewrite H2 by done. naive_solver.
Qed.

Lemma listens_changed u m s us' id o i p :
  changed (users u) us' id o →
  listens (mkUsers m s us') i p ↔ (i = id ∧ o ≫= (λ x, bound x.2) = Some p) ∨ (i ≠ id ∧ listens u i p).
Proof.
  intros [H1 H2]. unfold listens. cbn. destruct (decide (i = id)) as [->|Hi].
  - rewrite H1. destruct o as [[k ph]|]; naive_solver.
  - rewrite H2 by done. naive_solver.
Qed.

(** An action of one user. [released] is the port it released: its own, or, only
    for a tcp+udp proxy, one it had released before. *)
Lemma uinv_user strict allowed u id k ph o released m' s' us' :
  uinv strict allowed u → users u !! id = Some (k, ph) → changed (users u) us' id (pair k <$> o) →
  Ports.wf allowed m' → (∀ q, used m' q ↔ used (pm u) q ∧ released ≠ Some q) →
  (o ≫= held = held ph ∧ released = None ∨ o ≫= held = None ∧ released = held ph ∨
   k = TCPUDP ∧ o ≫= held = None ∧ held ph = None) →
  (∀ q, q ∈ s' ↔ o ≫= bound = Some q ∨ q ∈ socks u ∧ bound ph ≠ Some q) →
  (∀ q, o ≫= bound = Some q → bound ph = Some q ∨ q ∉ socks u) →
  uinv strict allowed (mkUsers m' s' us').
Proof.
  intros [Hwf Hu Hs H1 Hk Ho He] Hid Hch Hwf' Hu' Hrel Hs' Hnew.
  assert (∀ i p, holds (mkUsers m' s' us') i p ↔ (i = id ∧ o ≫= held = Some p) ∨ (i ≠ id ∧ holds u i p)) as Hh.
  { intros i p. rewrite (holds_changed u) by done. by destruct o. }
  assert (∀ i p, listens (mkUsers m' s' us') i p ↔ (i = id ∧ o ≫= bound = Some p) ∨ (i ≠ id ∧ listens u i p)) as Hl.
  { intros i p. rewrite (listens_changed u) by done. by destruct o. }
  assert (∀ p, holds u id p ↔ held ph = Some p) as Hidh by (unfold holds; naive_solver).
  assert (∀ p, listens u id p ↔ bound ph = Some p) as Hidl by (unfold listens; naive_solver).
  split; cbn.
  - done.
  - intros p [Hp Hnr]%Hu'. destruct (Hu p Hp) as [i Hi]. destruct (decide (i = id)) as [->|Hne]; [|exists i; apply Hh; by right].
    apply Hidh in Hi. exists id. apply Hh. left. split; [done|]. destruct Hrel as [[-> _]|[[_ ->]|(_ & _ & Hx)]]; [done|done|congruence].
  - intros p. rewrite Hs', Hs. setoid_rewrite Hl. split.
    + intros [Hp|[[i Hi] Hn]]; [by eauto|]. exists i. right. split; [|done]. intros ->. by apply Hidl in Hi.
    + intros [i [[_ Hp]|[Hne Hi]]]; [by left|]. right. split; [eauto|]. intros Hp. by apply Hne, (H1 i id p), Hidl.
  - intros i1 i2 p [[-> Hp1]|[Hn1 Hi1]]%Hl [[-> Hp2]|[Hn2 Hi2]]%Hl; [done|..|by apply (H1 i1 i2 p)].
    + destruct (Hnew _ Hp1) as [Hb|Hb]; [by apply (H1 id i2 p); [apply Hidl|]|]. destruct Hb. apply Hs. eauto.
    + destruct (Hnew _ Hp2) as [Hb|Hb]; [by apply (H1 i1 id p); [|apply Hidl]|]. destruct Hb. apply Hs. eauto.
  - intros Hst i k' ph' Hi. destruct (decide (i = id)) as [->|Hne].
    + rewrite (proj1 Hch) in Hi. destruct o; simplify_eq/=. by eapply Hk.
    + rewrite (proj2 Hch) in Hi by done. by eapply Hk.
  - intros Hst i p Hi%Hh. apply Hu'. assert (holds u i p ∧ (i = id → released = None)) as [Hi' Hr].
    { destruct Hi as [[-> Hp]|[Hne Hi]]; [|done]. destruct Hrel as [[Hx ->]|[[Hx _]|(Hx & _)]]; [|congruence|].
      - rewrite Hidh. split; [congruence|done].
      - rewrite (Hk Hst _ _ _ Hid) in Hx. done. }
    split; [by eapply Ho|]. intros Hrp. destruct Hrel as [[_ ->]|[[_ Hx]|(Hx & _)]]; [done| |by rewrite (Hk Hst _ _ _ Hid) in Hx].
    assert (i = id) as ->; [|by rewrite Hr in Hrp]. apply (He Hst i id p); [done|]. apply Hidh. congruence.
  - intros Hst i1 i2 p Hi1%Hh Hi2%Hh.
    assert (o ≫= held = Some p → held ph = Some p) as Hx.
    { intros Hp; destruct Hrel as [[<- _]|[[Hy _]|(Hy & _)]]; [done|congruence|by rewrite (Hk Hst _ _ _ Hid) in Hy]. }
    apply (He Hst i1 i2 p).
    + destruct Hi1 as [[-> Hp]|[_ ?]]; [apply Hidh; auto|done].
    + destruct Hi2 as [[-> Hp]|[_ ?]]; [apply Hidh; auto|done].
Qed.

Lemma used_new_ctx m name t q : used (Ports.new_ctx m name t) q ↔ used m q.
Proof. done. Qed.

Lemma used_taken m t name p q : used (Ports.taken m t name p) q ↔ q = p ∨ used m q.
Proof. unfold used. cbn. rewrite lookup_insert_is_Some. destruct (decide (q = p)); naive_solver. Qed.

Lemma uinv_acquire strict allowed u id k t os order name port m' p :
  uinv strict allowed u → users u !! id = None → order ≡ₚ elements (Ports.freePorts (pm u)) → (strict = true → port ≠ 0 ∧ k = Plain) →
  Ports.Acquire (pm u) t (λ q, os q && bool_decide (q ∉ socks u)) order name port = (m', Ok p) →
  uinv strict allowed (mkUsers m' (socks u) (<[id := (k, Acquired p)]> (users u))).
Proof.
  intros [Hwf Hu Hs H1 Hk Ho He] Hid Hord Hst Ha.
  apply (Ports.Acquire_cases allowed) in Ha as [(e & ? & _)|(p' & [= <-] & -> & _ & Hall & Hport & Hfree)]; [done| |done..].
  pose proof (λ i q, holds_changed u (Ports.taken (pm u) t name p) (socks u) _ id _ i q (changed_insert (users u) id (k, Acquired p))) as Hh.
  pose proof (λ i q, listens_changed u (Ports.taken (pm u) t name p) (socks u) _ id _ i q (changed_insert (users u) id (k, Acquired p))) as Hl.
  assert (strict = true → ¬ used (pm u) p) as Hnu.
  { intros Hx. destruct (Hst Hx) as [Hp0 _]. destruct Hfree as [Hf|[? _]]; [|done].
    intros Hup. apply (Ports.wf_disj _ _ Hwf p Hf). by apply elem_of_dom. }
  assert (∀ q, ¬ holds u id q ∧ ¬ listens u id q) as Hnone by (intros q; split; intros (? & ? & ? & _); congruence).
  split; cbn.
  - by apply Ports.wf_taken.
  - intros q [->|Hq]%used_taken; [exists id; apply Hh; by left|]. destruct (Hu q Hq) as [i Hi].
    exists i. apply Hh. right. split; [|done]. intros ->. by destruct (Hnone q).
  - intros q. rewrite Hs. setoid_rewrite Hl. split.
    + intros [i Hi]. exists i. right. split; [|done]. intros ->. by destruct (Hnone q).
    + intros [i [[_ ?]|[_ ?]]]; [done|eauto].
  - intros i1 i2 q [[_ ?]|[_ ?]]%Hl [[_ ?]|[_ ?]]%Hl; try done. by apply (H1 i1 i2 q).
  - intros Hx i k' ph' [[<- [= <- _]]|[_ ?]]%lookup_insert_Some; [by apply Hst|by eapply Hk].
  - intros Hx i q [[-> [= <-]]|[_ Hi]]%Hh; apply used_taken; [by left|right; by eapply Ho].
  - intros Hx i1 i2 q [[-> [= <-]]|[_ Hi1]]%Hh [[-> Hq]|[_ Hi2]]%Hh; [done|..|by apply (He Hx i1 i2 q)].
    + by apply (Ho Hx), Hnu in Hi2.
    + injection Hq as <-. by apply (Ho Hx), Hnu in Hi1.
Qed.

Lemma uinv_step strict allowed u u' : uinv strict allowed u → ustep strict u u' → uinv strict allowed u'.
Proof.
  intros Hi Hs. revert Hi.
  destruct Hs as [u id k t os order name port m' p Hid Hord Hst Ha|u t os order name port m' e Hord Ha
    |u id k p Hid Hns|u id k p Hid|u id k p Hid|u id k p t Hid|u id p Hid|u id p t Hid|u id p t Hid|u id p t Hid|u t]; intros Hi; pose proof (u_wf _ _ _ Hi) as Hwf.
  - by eapply uinv_acquire.
  - apply (Ports.Acquire_cases allowed) in Ha as [(e' & _ & ->)|(p' & ? & _)]; [|done..].
    destruct Hi. split; cbn; try done. by apply Ports.wf_new_ctx.
  - eapply (uinv_user _ _ _ id k _ (Some (Listening p)) None); [done..|apply changed_insert|done|naive_solver|by left|set_solver|].
    cbn. intros q [= <-]. by right.
  - eapply (uinv_user _ _ _ id k _ (Some (Releasing p)) None); [done..|apply changed_insert|done|naive_solver|by left|set_solver|done].
  - eapply (uinv_user _ _ _ id k _ (Some (Releasing p)) None); [done..|apply changed_insert|done|naive_solver|by left|set_solver|done].
  - eapply (uinv_user _ _ _ id k _ None (Some p)); [done..|apply changed_delete|by apply Ports.wf_Release| |by right; left|set_solver|done].
    intros q. rewrite used_Release. naive_solver.
  - eapply (uinv_user _ _ _ id TCPUDP _ (Some (Abandoning p)) None); [done..|apply changed_insert|done|naive_solver|by left| |].
    + cbn. intros q. split; [destruct (decide (p = q)); naive_solver|]. intros [[= <-]|[? _]]; [|done]. apply (u_socks _ _ _ Hi). by exists id, TCPUDP, (Listening p).
    + cbn. intros q [= <-]. by left.
  - eapply (uinv_user _ _ _ id TCPUDP _ (Some (Stray p)) (Some p)); [done..|apply changed_insert|by apply Ports.wf_Release| |by right; left| |].
    + intros q. rewrite used_Release. naive_solver.
    + cbn. intros q. split; [destruct (decide (p = q)); naive_solver|]. intros [[= <-]|[? _]]; [|done]. apply (u_socks _ _ _ Hi). by exists id, TCPUDP, (Abandoning p).
    + cbn. intros q [= <-]. by left.
  - eapply (uinv_user _ _ _ id TCPUDP _ (Some (Late p)) (Some p)); [done..|apply changed_insert|by apply Ports.wf_Release| |by right; left|set_solver|done].
    intros q. rewrite used_Release. naive_solver.
  - eapply (uinv_user _ _ _ id TCPUDP _ None (Some p)); [done..|apply changed_delete|by apply Ports.wf_Release| |by right; right|set_solver|done].
    intros q. rewrite used_Release. naive_solver.
  - destruct Hi. split; cbn; try done. by apply Ports.wf_clean.
Qed.

Lemma uinv_reachable strict allowPorts u :
  0 ∉ Ports.initial_ports allowPorts → ureachable strict allowPorts u → uinv strict (Ports.initial_ports allowPorts) u.
Proof.
  intros H0 Hr. eapply (rtc_invariant (ustep strict)); [apply uinv_step|exact Hr|].
  split.
  - by apply Ports.ports_wf_New.
  - intros p. unfold used. cbn. rewrite lookup_empty. by intros [? ?].
  - intros p. split; [set_solver|]. intros (id & k & ph & Hx & _). cbn in Hx. by rewrite lookup_empty in Hx.
  - intros id1 id2 p (k & ph & Hx & _). cbn in Hx. by rewrite lookup_empty in Hx.
  - intros _ id k ph Hx. cbn in Hx. by rewrite lookup_empty in Hx.
  - intros _ id p (k & ph & Hx & _). cbn in Hx. by rewrite lookup_empty in Hx.
  - intros _ id1 id2 p (k & ph & Hx & _). cbn in Hx. by rewrite lookup_empty in Hx.
Qed.

(** *** The calls as sequences of actions *)

(** [TCPProxy.Run] without a group, and [TCPProxy.Close] of such a proxy. *)
Lemma TCP_Run_actions strict rc e name groupKey addr port rc' r us id :
  us !! id = None → order_tcp e ≡ₚ elements (Ports.freePorts (tcpPM rc)) → (strict = true → port ≠ 0) →
  TCP_Run rc e name "" groupKey addr port = (rc', r) →
  rtc (ustep strict) (mkUsers (tcpPM rc) (tcpSocks rc) us)
    (mkUsers (tcpPM rc') (tcpSocks rc')
       match r with Ok x => <[id := (Plain, Listening (realBindPort x))]> us | Err _ => us end).
Proof.
  intros Hid Hord Hst. unfold TCP_Run, acquire_tcp, avail_tcp. cbn [negb String.eqb].
  destruct (Ports.Acquire _ _ _ _ _ _) as [m [p|er]] eqn:Ha.
  2:{ intros [= <- <-]. apply rtc_once. exact (URefused strict (mkUsers (tcpPM rc) (tcpSocks rc) us) _ _ _ _ _ _ _ Hord Ha). }
  intros Hr. eapply rtc_l; [refine (UAcquire strict (mkUsers (tcpPM rc) (tcpSocks rc) us) id Plain _ _ _ _ _ m p Hid Hord _ Ha); auto|].
  revert Hr. unfold listen_tcp. cbn [tcpSocks set_tcpPM users socks].
  destruct (bind_tcp e && bool_decide (p ∉ tcpSocks rc)) eqn:Hb; intros [= <- <-].
  - apply andb_true_iff in Hb as [_ Hb%bool_decide_eq_true]. apply rtc_once.
    pose proof (UListen strict (mkUsers m (tcpSocks rc) (<[id := (Plain, Acquired p)]> us)) id Plain p (lookup_insert_eq _ _ _) Hb) as Hx.
    cbn [users socks pm] in Hx. by rewrite insert_insert_eq in Hx.
  - eapply rtc_l; [apply (UListenFailed strict (mkUsers m (tcpSocks rc) (<[id := (Plain, Acquired p)]> us)) id Plain p); apply lookup_insert_eq|].
    apply rtc_once. pose proof (URelease strict (mkUsers m (tcpSocks rc) (<[id := (Plain, Releasing p)]> us)) id Plain p (now e) (lookup_insert_eq _ _ _)) as Hx.
    cbn [users socks pm] in Hx. rewrite delete_insert_id in Hx by done. unfold set_user. cbn [users socks pm]. by rewrite insert_insert_eq.
Qed.

Lemma TCP_Close_actions strict rc t x us id :
  us !! id = Some (Plain, Listening (realBindPort x)) → member x = None →
  rtc (ustep strict) (mkUsers (tcpPM rc) (tcpSocks rc) us)
    (mkUsers (tcpPM (TCP_Close rc t x)) (tcpSocks (TCP_Close rc t x)) (delete id us)).
Proof.
  intros Hid Hm. unfold TCP_Close. rewrite Hm. eapply rtc_l; [by apply (UClose strict (mkUsers (tcpPM rc) (tcpSocks rc) us) id Plain)|].
  apply rtc_once. pose proof (URelease strict (mkUsers (tcpPM rc) (tcpSocks rc ∖ {[realBindPort x]}) (<[id := (Plain, Releasing (realBindPort x))]> us))
    id Plain (realBindPort x) t (lookup_insert_eq _ _ _)) as Hx. cbn [users socks pm] in Hx. by rewrite delete_insert_eq in Hx.
Qed.

(** The TCP half of [TCPUDPProxy.Run]. *)
Lemma TCPUDP_Run_actions rc e name port rc' r us id :
  us !! id = None → order_tcp e ≡ₚ elements (Ports.freePorts (tcpPM rc)) →
  TCPUDP_Run rc e name port = (rc', r) →
  ∃ us', rtc (ustep false) (mkUsers (tcpPM rc) (tcpSocks rc) us) (mkUsers (tcpPM rc') (tcpSocks rc') us') ∧
    match r with
    | Ok x => us' = <[id := (TCPUDP, Listening (realBindPort x))]> us
    | Err ErrUDPListen => ∃ p, us' = <[id := (TCPUDP, Stray p)]> us
    | Err _ => us' = us
    end.
Proof.
  intros Hid Hord. unfold TCPUDP_Run, acquire_tcp, avail_tcp.
  destruct (Ports.Acquire _ _ _ _ _ _) as [m [p|er]] eqn:Ha.
  2:{ intros [= <- <-]. exists us. split; [|done]. apply rtc_once. exact (URefused false (mkUsers (tcpPM rc) (tcpSocks rc) us) _ _ _ _ _ _ _ Hord Ha). }
  assert (ustep false (mkUsers (tcpPM rc) (tcpSocks rc) us) (mkUsers m (tcpSocks rc) (<[id := (TCPUDP, Acquired p)]> us))) as H1.
  { by refine (UAcquire false (mkUsers (tcpPM rc) (tcpSocks rc) us) id TCPUDP _ _ _ _ _ m p Hid Hord _ Ha). }
  assert (∀ t, rtc (ustep false) (mkUsers (tcpPM rc) (tcpSocks rc) us) (mkUsers (Ports.Release m t p) (tcpSocks rc) us)) as Hfail.
  { intros t. eapply rtc_l; [exact H1|]. eapply rtc_l; [apply (UListenFailed false (mkUsers m (tcpSocks rc) (<[id := (TCPUDP, Acquired p)]> us)) id TCPUDP p); apply lookup_insert_eq|].
    apply rtc_once. pose proof (URelease false (mkUsers m (tcpSocks rc) (<[id := (TCPUDP, Releasing p)]> us)) id TCPUDP p t (lookup_insert_eq _ _ _)) as Hx.
    cbn [users socks pm] in Hx. rewrite delete_insert_id in Hx by done. unfold set_user. cbn [users socks pm]. by rewrite insert_insert_eq. }
  unfold acquire_udp. destruct (Ports.Acquire (udpPM _) _ _ _ _ _) as [m2 [q|er]]; [|intros [= <- <-]; exists us; split; [apply Hfail|done]].
  unfold listen_tcp, listen_udp. cbn [tcpSocks udpSocks set_tcpPM set_udpPM set_tcpSocks].
  destruct (bind_tcp e && bool_decide (p ∉ tcpSocks rc)) eqn:Hb; [|intros [= <- <-]; exists us; split; [apply Hfail|done]].
  apply andb_true_iff in Hb as [_ Hb%bool_decide_eq_true].
  pose proof (UListen false (mkUsers m (tcpSocks rc) (<[id := (TCPUDP, Acquired p)]> us)) id TCPUDP p (lookup_insert_eq _ _ _) Hb) as H2.
  cbn [users socks pm] in H2. rewrite insert_insert_eq in H2.
  destruct (bind_udp e && _); intros [= <- <-]; eexists; (split; [|done || by eexists]).
  - eapply rtc_l; [exact H1|]. by apply rtc_once.
  - eapply rtc_l; [exact H1|]. eapply rtc_l; [exact H2|]. eapply rtc_l; [apply UUDPFailed; apply lookup_insert_eq|].
    apply rtc_once. unfold set_user. cbn [users socks pm]. rewrite insert_insert_eq.
    pose proof (UAbandon false (mkUsers m ({[p]} ∪ tcpSocks rc) (<[id := (TCPUDP, Abandoning p)]> us)) id p (now e) (lookup_insert_eq _ _ _)) as Hx.
    cbn [users socks pm] in Hx. rewrite insert_insert_eq in Hx. exact Hx.
Qed.

(** The socket of a TCP group: its opening and its closing. *)
Lemma tcp_group_actions strict rc e name addr port m' r us id :
  us !! id = None → order_tcp e ≡ₚ elements (Ports.freePorts (tcpPM rc)) → (strict = true → port ≠ 0) →
  tcp_open (tcpPM rc) (tcp_request rc e name addr port) = (m', r) →
  match r with
  | Ok p => p ∉ tcpSocks rc → rtc (ustep strict) (mkUsers (tcpPM rc) (tcpSocks rc) us)
      (mkUsers m' ({[p]} ∪ tcpSocks rc) (<[id := (Plain, Listening p)]> us))
  | Err _ => rtc (ustep strict) (mkUsers (tcpPM rc) (tcpSocks rc) us) (mkUsers m' (tcpSocks rc) us)
  end.
Proof.
  intros Hid Hord Hst. pose proof (TCP_Run_actions strict rc (mkEnv (now e) (os_tcp e) (os_udp e) (order_tcp e) (order_udp e) (bind_tcp e) (bind_udp e))
    name "" addr port) as Hrun. unfold tcp_open, tcp_request, avail_tcp. cbn [tq_now tq_avail tq_order tq_proxyName tq_port tq_bind].
  unfold TCP_Run, acquire_tcp, avail_tcp, listen_tcp in Hrun. cbn [negb String.eqb now os_tcp order_tcp bind_tcp tcpSocks set_tcpPM] in Hrun.
  destruct (Ports.Acquire _ _ _ _ _ _) as [m [p|er]]; cbn iota beta in *.
  - destruct (bind_tcp e); intros [= <- <-]; cbn [andb] in Hrun.
    + intros Hp. rewrite bool_decide_true in Hrun by done. exact (Hrun _ _ us id Hid Hord Hst eq_refl).
    + exact (Hrun _ _ us id Hid Hord Hst eq_refl).
  - intros [= <- <-]. exact (Hrun _ _ us id Hid Hord Hst eq_refl).
Qed.

(** C10. The TCP ports, in every interleaving of what its users do with the port
    manager: acquiring a port, opening a socket on it, closing it and releasing
    the port are separate actions, of any number of TCP proxies, TCP groups,
    Minecraft ports and tcp+udp proxies, with the latter's failing UDP halves and
    second closings. (1) No port is lost: a port the manager counts as used is
    one that a user acquired and has not released; so when nobody holds a port,
    all allowed ports are free. (2) A port with a socket of the process is the
    port of exactly one user, which acquired it. (3) If every port is asked for by
    its number and there are no tcp+udp proxies ([strict]), a port that is held is
    used and has one holder, so that whoever listens has its port to itself in the
    manager as well; without that, a port can be counted free while a proxy
    listens on it ([port_race]). (4) The calls of the code are sequences of these
    actions: a run of a TCP proxy outside of a group, which ends listening or, on
    an error, with nothing held, and its closing. Assumed: 0 is not among the
    allowed ports, as by default. *)
Theorem tcp_ports_return (strict : bool) (allowPorts : list Ports.PortsRange) (u : Users) :
  0 ∉ Ports.initial_ports allowPorts → ureachable strict allowPorts u →
  (∀ p, used (pm u) p → ∃ id, holds u id p) ∧
  ((∀ id p, ¬ holds u id p) → Ports.freePorts (pm u) = Ports.initial_ports allowPorts) ∧
  (∀ p, p ∈ socks u ↔ ∃ id, listens u id p ∧ ∀ id', listens u id' p → id' = id) ∧
  (strict = true → ∀ id p, holds u id p → used (pm u) p ∧ ∀ id', holds u id' p → id' = id) ∧
  (∀ rc e name groupKey addr port rc' r id, tcpPM rc = pm u → tcpSocks rc = socks u →
     users u !! id = None → order_tcp e ≡ₚ elements (Ports.freePorts (pm u)) → (strict = true → port ≠ 0) →
     TCP_Run rc e name "" groupKey addr port = (rc', r) →
     ureachable strict allowPorts (mkUsers (tcpPM rc') (tcpSocks rc')
       match r with Ok x => <[id := (Plain, Listening (realBindPort x))]> (users u) | Err _ => users u end)) ∧
  (∀ rc t x id, tcpPM rc = pm u → tcpSocks rc = socks u →
     users u !! id = Some (Plain, Listening (realBindPort x)) → member x = None →
     ureachable strict allowPorts (mkUsers (tcpPM (TCP_Close rc t x)) (tcpSocks (TCP_Close rc t x)) (delete id (users u)))).
Proof.
  intros H0 Hr. pose proof (uinv_reachable _ _ _ H0 Hr) as Hi. split_and!.
  - apply (u_used _ _ _ Hi).
  - intros Hno. destruct (u_wf _ _ _ Hi) as [_ Hun _ _ _ _]. rewrite <-Hun.
    assert (dom (Ports.usedPorts (pm u)) = ∅) as ->; [|set_solver]. apply elem_of_equiv_empty_L.
    intros p Hp%elem_of_dom. by destruct (u_used _ _ _ Hi p Hp) as [id Hid%Hno].
  - intros p. rewrite (u_socks _ _ _ Hi). split; [|by intros (id & Hid & _); exists id]. intros [id Hid]. exists id. split; [done|].
    intros id' Hid'. by apply (u_one _ _ _ Hi id' id p).
  - intros Hst id p Hh. split; [by eapply (u_own _ _ _ Hi)|]. intros id' Hh'. by apply (u_excl _ _ _ Hi Hst id' id p).
  - intros rc e name gk addr port rc' r id Hpm Hsk Hid Hord Hst Hrun. unfold ureachable. etrans; [exact Hr|].
    destruct u as [m s us]. cbn [pm socks users] in *. subst m s. by eapply TCP_Run_actions.
  - intros rc t x id Hpm Hsk Hid Hm. unfold ureachable. etrans; [exact Hr|].
    destruct u as [m s us]. cbn [pm socks users] in *. subst m s. by apply TCP_Close_actions.
Qed.

(** The race that [strict] excludes, on a server with the two ports 6000 and
    6001: proxy a held 6000 before, and asks for any port again, while b has
    acquired 6000 by its number and is about to listen on it. The manager offers
    a the port it had reserved for it, without asking whether it is in use, and the
    probe succeeds as b has no socket yet. Now both hold 6000; b listens, a's listen
    fails, and a's release frees the port in the manager while b listens on it. *)
Definition race_allow : list Ports.PortsRange := [Ports.mkPortsRange 6000 6001 0].
Definition race_acquire (m : Ports.Manager) (name : string) (port : Z) : Ports.Manager :=
  (Ports.Acquire m 0 (λ q, true && bool_decide (q ∉ (∅ : gset Z))) (elements (Ports.freePorts m)) name port).1.
Definition race_m1 : Ports.Manager := Ports.Release (race_acquire (Ports.NewManager race_allow) "a" 6000) 0 6000.
Definition race_m2 : Ports.Manager := race_acquire (race_acquire race_m1 "b" 6000) "a" 0.
Definition race_end : Users := mkUsers (Ports.Release race_m2 0 6000) {[6000]} {[1%nat := (Plain, Listening 6000)]}.

Lemma race_acquired us id m name port :
  us !! id = None → (Ports.Acquire m 0 (λ q, true && bool_decide (q ∉ (∅ : gset Z))) (elements (Ports.freePorts m)) name port).2 = Ok 6000 →
  ustep false (mkUsers m ∅ us) (mkUsers (race_acquire m name port) ∅ (<[id := (Plain, Acquired 6000)]> us)).
Proof.
  intros Hid Hr. refine (UAcquire false (mkUsers m ∅ us) id Plain 0 (λ _, true) _ name port _ 6000 Hid (reflexivity _) _ _); [done|].
  cbn [pm socks]. unfold race_acquire. destruct (Ports.Acquire _ _ _ _ _ _) as [m' r]. cbn in *. by rewrite Hr.
Qed.

Lemma race_tail m s us :
  us !! 0%nat = None →
  rtc (ustep false) (mkUsers m s (<[0%nat := (Plain, Acquired 6000)]> us)) (mkUsers (Ports.Release m 0 6000) s us).
Proof.
  intros Hn. eapply rtc_l; [by apply (UListenFailed _ _ 0 Plain 6000), lookup_insert_eq|]. apply rtc_once.
  unfold set_user. cbn [pm socks users]. rewrite insert_insert_eq.
  pose proof (URelease false (mkUsers m s (<[0%nat := (Plain, Releasing 6000)]> us)) 0 Plain 6000 0 (lookup_insert_eq _ _ _)) as Hx.
  cbn [pm socks users] in Hx. by rewrite delete_insert_id in Hx.
Qed.

Definition race_result (m : Ports.Manager) (name : string) (port : Z) : res Ports.error Z :=
  (Ports.Acquire m 0 (λ q, true && bool_decide (q ∉ (∅ : gset Z))) (elements (Ports.freePorts m)) name port).2.

Lemma race_steps m :
  let m1 := Ports.Release (race_acquire m "a" 6000) 0 6000 in let m2 := race_acquire m1 "b" 6000 in
  race_result m "a" 6000 = Ok 6000 → race_result m1 "b" 6000 = Ok 6000 → race_result m2 "a" 0 = Ok 6000 →
  rtc (ustep false) (mkUsers m ∅ ∅)
    (mkUsers (Ports.Release (race_acquire m2 "a" 0) 0 6000) {[6000]} {[1%nat := (Plain, Listening 6000)]}).
Proof.
  intros m1 m2 H1 H2 H3. eapply rtc_l; [by apply (race_acquired ∅ 0 _ "a" 6000)|]. etrans; [by apply race_tail|].
  eapply rtc_l; [by apply (race_acquired ∅ 1 _ "b" 6000)|]. eapply rtc_l; [by apply (race_acquired _ 0 _ "a" 0)|].
  fold m1 m2. generalize (race_acquire m2 "a" 0). intros m3. rewrite (insert_insert_ne _ 0%nat 1%nat) by done.
  eapply rtc_l; [apply (UListen _ _ 1 Plain 6000); [apply lookup_insert_eq|set_solver]|].
  cbn [pm socks users]. rewrite insert_insert_eq, union_empty_r_L, (insert_insert_ne _ 1%nat 0%nat) by done. by apply race_tail.
Qed.

(** So a port can be counted free while a proxy listens on it. *)
Theorem port_race :
  ureachable false race_allow race_end ∧ listens race_end 1 6000 ∧ 6000 ∈ Ports.freePorts (pm race_end).
Proof.
  split_and!; [|by exists Plain, (Listening 6000)|apply (bool_decide_eq_true_1 _); by vm_compute].
  unfold ureachable, NewUsers, race_end, race_m2, race_m1. apply race_steps; by vm_compute.
Qed.

(** A tcp+udp proxy whose UDP socket cannot be opened leaves its TCP socket
    behind: Run reports the error and both managers have the port free again,
    but the process still listens on it, and no proxy is left that would close
    it. The later errors of Run are those of a port whose TCP socket was not
    opened, which leave the sockets as they were. *)
Theorem tcpudp_run_leaks (rc rc' : RC) (e : Env) (name : string) (port : Z) (er : run_error) :
  TCPUDP_Run rc e name port = (rc', Err er) →
  udpSocks rc' = udpSocks rc ∧
  match er with
  | ErrUDPListen =>
      ∃ p, p ∉ tcpSocks rc ∧ tcpSocks rc' = {[p]} ∪ tcpSocks rc ∧
           ¬ used (tcpPM rc') p ∧ ¬ used (udpPM rc') p
  | _ => tcpSocks rc' = tcpSocks rc
  end.
Proof.
  unfold TCPUDP_Run, acquire_tcp, acquire_udp. destruct (Ports.Acquire (tcpPM rc) _ _ _ _ _) as [pm [p|]].
  2:{ by intros [= <- <-]. }
  destruct (Ports.Acquire (udpPM _) _ _ _ _ _) as [upm [q|]]; [|by intros [= <- <-]].
  unfold listen_tcp, listen_udp. cbn. case_bool_decide as Hp; [|rewrite andb_false_r; by intros [= <- <-]].
  destruct (bind_tcp e); cbn; [|by intros [= <- <-]].
  destruct (bind_udp e && _); [done|]. intros [= <- <-]. cbn. split; [done|]. exists p.
  split_and!; [done..| |]; unfold tcpPM; cbn; rewrite used_Release; tauto.
Qed.

(** The second Close of a udp proxy, by the goroutine that forwards its
    packets, releases the port whoever has it by then: afterwards the manager
    has the port free although the sockets are as before. It does nothing only
    when nobody has taken the port since. *)
Theorem udp_late_close (rc : RC) (t : Z) (x : Pxy) :
  isClosed x = true →
  let rc' := (UDP_Close rc t x).1 in
  ¬ used (udpPM rc') (realBindPort x) ∧ udpSocks rc' = udpSocks rc ∧
  (rc' = rc ↔ ¬ used (udpPM rc) (realBindPort x)).
Proof.
  intros Hc. unfold UDP_Close, release_udp. rewrite Hc. cbn. split_and!; [|done|].
  - rewrite used_Release. tauto.
  - split.
    + intros Heq Hu. rewrite <-Heq in Hu. cbn in Hu. rewrite used_Release in Hu. tauto.
    + intros Hn. unfold Ports.Release, used in *. destruct rc as [gs upm ts us]. cbn in *.
      destruct (Ports.usedPorts upm !! realBindPort x); [destruct Hn; eauto|done].
Qed.

(** ** Witnesses *)

Definition demo_allow : list Ports.PortsRange := [Ports.mkPortsRange 6000 6001 0].
Definition demo_rc : RC := NewRC demo_allow.
Definition demo_env (bind_udp : bool) : Env :=
  mkEnv 0 (λ _, true) (λ _, true) (elements (Ports.freePorts (tcpPM demo_rc))) [6000; 6001] true bind_udp.

Definition demo_run1 : RC * res run_error Pxy := TCP_Run demo_rc (demo_env true) "a" "" "" "" 6000.
Definition demo_u : Users := mkUsers (tcpPM demo_run1.1) (tcpSocks demo_run1.1) {[1%nat := (Plain, Listening 6000)]}.

Lemma tcp_ports_return_witness :
  used (pm demo_u) 6000 ∧ Ports.freePorts (tcpPM (TCP_Close demo_run1.1 0 (mkPxy 6000 None false))) = Ports.initial_ports demo_allow.
Proof.
  assert (0 ∉ Ports.initial_ports demo_allow) as H0 by (exact (bool_decide_eq_true_1 (0 ∉ Ports.initial_ports demo_allow) eq_refl)).
  assert (ureachable true demo_allow demo_u) as Hu.
  { destruct (tcp_ports_return true demo_allow (NewUsers demo_allow) H0 (rtc_refl _ _)) as (_ & _ & _ & _ & Hrun & _).
    refine (Hrun demo_rc (demo_env true) "a" "" "" 6000 demo_run1.1 (Ok (mkPxy 6000 None false)) 1%nat eq_refl eq_refl eq_refl _ _ _);
      [reflexivity|done|vm_compute; reflexivity]. }
  destruct (tcp_ports_return true demo_allow demo_u H0 Hu) as (_ & _ & _ & Hown & _ & Hclose). split.
  - apply (Hown eq_refl 1%nat). by exists Plain, (Listening 6000).
  - specialize (Hclose demo_run1.1 0 (mkPxy 6000 None false) 1%nat eq_refl eq_refl eq_refl eq_refl).
    destruct (tcp_ports_return true demo_allow _ H0 Hclose) as (_ & Hfree & _). apply Hfree. intros id p (k & ph & Hx & _).
    cbn [users] in Hx. apply lookup_delete_Some in Hx as [Hne Hx]. unfold demo_u in Hx. cbn [users] in Hx. apply (lookup_singleton_Some 1%nat) in Hx as [? _]. done.
Defined.

Definition leak_run : RC * res run_error Pxy := TCPUDP_Run demo_rc (demo_env false) "ab" 6000.

Lemma tcpudp_run_leaks_witness : 6000 ∈ tcpSocks leak_run.1 ∧ ¬ used (tcpPM leak_run.1) 6000.
Proof.
  assert (TCPUDP_Run demo_rc (demo_env false) "ab" 6000 = (leak_run.1, Err ErrUDPListen)) as Hr by by vm_compute.
  destruct (tcpudp_run_leaks _ _ _ _ _ _ Hr) as [_ (p & Hp & Hs & Hu & _)].
  assert (6000 ∈ tcpSocks leak_run.1) as Hin by (exact (bool_decide_eq_true_1 (6000 ∈ tcpSocks leak_run.1) eq_refl)).
  rewrite Hs in Hin. assert (6000 = p) as Heq by (clear -Hin; set_solver).
  rewrite Hs, Heq. split; [set_solver|exact Hu].
Defined.

(** Proxy a runs on 6000 and is closed, b runs on 6000, then a's goroutine
    ends: b listens on 6000, which the manager has free. *)
Definition late_a : RC := (UDP_Run demo_rc (demo_env true) "a" 6000).1.
Definition late_x : Pxy := mkPxy 6000 None true.
Definition late_closed : RC := (UDP_Close late_a 0 (mkPxy 6000 None false)).1.
Definition late_b : RC := (UDP_Run late_closed (demo_env true) "b" 6000).1.

Lemma udp_late_close_witness :
  (UDP_Run late_closed (demo_env true) "b" 6000).2 = Ok (mkPxy 6000 None false) ∧
  ¬ used (udpPM (UDP_Close late_b 0 late_x).1) 6000 ∧
  udpSocks (UDP_Close late_b 0 late_x).1 = {[6000]}.
Proof.
  split; [by vm_compute|]. destruct (udp_late_close late_b 0 late_x eq_refl) as (H1 & H2 & _).
  split; [exact H1|]. rewrite H2. by vm_compute.
Defined.

End PortProxies.
