(* ===== verification/DomainProxies.v ===== *)
(** Proxies that listen for several domains on a virtual-host muxer:
    server/proxy/https.go and tcpmux.go, with [buildDomains] and
    [BaseProxy.Close] of server/proxy/proxy.go.

    Both run the same loop: one listener per domain, from a group or from the
    muxer itself, and on an error everything opened so far is closed again. The
    loop is written over the interface [Group.Backend] of what hands out the
    listeners, and its properties are proved from [Group.BackendLaws]. *)
From Stdlib Require Import ZArith Lia Ascii String.
From stdpp Require Import base gmap strings list fin_maps relations.
From S2P Require Import Prelude GoLib Wire Msg Ports ConfigTypes Config Router Group.

Local Open Scope Z_scope.
Local Open Scope frp_scope.

Module DomainProxies.
Import Group.

(** ** Listeners *)

Section Listeners.
Context {R Q H E : Type} `{Backend R Q H E}.

(** A listener of a group, or of the backend itself. *)
Inductive Ln := LnRaw (h : H) | LnGroup (g ln : nat).

(** [listenForDomain] of https proxies and [httpConnectListen] of tcpmux
    proxies. *)
Definition listen_one (s : @Ctl R Q H) (group groupKey : string) (q : Q) :
    @Ctl R Q H * res (group_error E) Ln :=
  if negb (String.eqb group "") then
    match ctl_Listen 1 s group groupKey q with
    | (s, Some (Ok (ln, _))) => (s, Ok (LnGroup (default 0%nat (groups s !! group)) ln))
    | (s, Some (Err e)) => (s, Err e)
    | (s, None) => (s, Err errGroupStale)
    end
  else
    let '(r, o) := b_open (backend s) q in
    let s := mkCtl r (groups s) (heap s) (nextGroup s) (nextLn s) in
    (s, match o with Ok h => Ok (LnRaw h) | Err e => Err (ErrOpen e) end).

(** The loop over the domains: the listeners opened, and the error. *)
Fixpoint listen_all (s : @Ctl R Q H) (group groupKey : string) (reqs : list Q) (listeners : list Ln) :
    @Ctl R Q H * list Ln * option (group_error E) :=
  match reqs with
  | [] => (s, listeners, None)
  | q :: reqs =>
      match listen_one s group groupKey q with
      | (s, Err e) => (s, listeners, Some e)
      | (s, Ok l) => listen_all s group groupKey reqs (listeners ++ [l])
      end
  end.

Definition close_one (now : Z) (s : @Ctl R Q H) (l : Ln) : @Ctl R Q H :=
  match l with
  | LnRaw h => mkCtl (b_close now (backend s) h) (groups s) (heap s) (nextGroup s) (nextLn s)
  | LnGroup g ln => closeListener now s g ln
  end.

(** [BaseProxy.Close]: in the order of opening. *)
Definition close_all (now : Z) (s : @Ctl R Q H) (listeners : list Ln) : @Ctl R Q H :=
  foldl (close_one now) s listeners.

(** [Run]: the listeners of the running proxy, or everything closed again. *)
Definition run_all (now : Z) (s : @Ctl R Q H) (group groupKey : string) (reqs : list Q) :
    @Ctl R Q H * res (group_error E) (list Ln) :=
  match listen_all s group groupKey reqs [] with
  | (s, listeners, None) => (s, Ok listeners)
  | (s, listeners, Some e) => (close_all now s listeners, Err e)
  end.

(** ** All or nothing *)

Context `{!BackendLaws R Q H E, !EqDecision H}.

(** The same listeners are open, and the same groups have them. *)
Definition same (s s' : @Ctl R Q H) : Prop :=
  (∀ h, b_held (backend s') h ↔ b_held (backend s) h) ∧
  ∀ g, lns_of s' g = lns_of s g ∧ ∀ b, live s' g b ↔ live s g b.

Lemma same_refl s : same s s.
Proof. done. Qed.

Lemma same_trans s1 s2 s3 : same s1 s2 → same s2 s3 → same s1 s3.
Proof.
  intros [H1 L1] [H2 L2]. split; [intros h; by rewrite H2|]. intros g.
  destruct (L1 g) as [E1 V1], (L2 g) as [E2 V2]. split; [congruence|]. intros b. by rewrite V2.
Qed.

Definition fresh (s : @Ctl R Q H) : Prop := ∀ g ln, ln ∈ lns_of s g → (ln < nextLn s)%nat.

(** *** Without a group *)

(** [s] is [s0] with the listeners [hs] opened. *)
Record raised (s0 s : @Ctl R Q H) (hs : list H) : Prop := {
  r_sound : sound s;
  r_groups : ∀ g, lns_of s g = lns_of s0 g ∧ ∀ b, live s g b ↔ live s0 g b;
  r_held : ∀ h, b_held (backend s) h ↔ b_held (backend s0) h ∨ h ∈ hs;
  r_new : ∀ h, h ∈ hs → ¬ b_held (backend s0) h;
  r_nodup : NoDup hs
}.

Lemma raised_open s0 s hs q r h :
  sound s0 → raised s0 s hs → b_admissible (backend s) q → b_open (backend s) q = (r, Ok h) →
  raised s0 (mkCtl r (groups s) (heap s) (nextGroup s) (nextLn s)) (hs ++ [h]).
Proof.
  intros Hs0 [Hs Hg Hh Hn Hd] Ha Ho. apply open_Ok in Ho as (Hwf & Hnot & Hheld & Hsame); [|apply Hs|done].
  assert (¬ b_held (backend s0) h ∧ h ∉ hs) as [Hn0 Hnh] by (split; intros Hx; apply Hnot, Hh; auto).
  split; simpl.
  - apply sound_backend; [done..|]. intros g b Hlive. apply Hsame; [|by apply (s_held _ Hs g)].
    intros <-. apply Hnot. by apply (s_held _ Hs g).
  - done.
  - intros h'. rewrite elem_of_app, list_elem_of_singleton.
    destruct (decide (h' = h)) as [->|Hne]; [tauto|]. rewrite Hsame, Hh by done. tauto.
  - intros h' [Hin| ->%list_elem_of_singleton]%elem_of_app; [by apply Hn|done].
  - apply NoDup_app. split_and!; [done| |by apply NoDup_singleton].
    by intros h' Hin ->%list_elem_of_singleton.
Qed.

Lemma raised_close now s0 s h hs :
  sound s0 → raised s0 s (h :: hs) → raised s0 (close_one now s (LnRaw h)) hs.
Proof.
  intros Hs0 [Hs Hg Hh Hn Hd]. apply NoDup_cons in Hd as [Hnh Hd].
  assert (b_held (backend s) h) as Hheld by (apply Hh; set_solver).
  destruct (close_law now (backend s) h (s_wf _ Hs) Hheld) as (Hwf & Hnot & Hsame).
  split; simpl; try done.
  - apply sound_backend; [done..|]. intros g b Hlive. apply Hsame; [|by apply (s_held _ Hs g)].
    intros Heq. apply (Hn h); [left|]. rewrite <-Heq. apply (s_held _ Hs0 g). by apply Hg.
  - intros h'. destruct (decide (h' = h)) as [->|Hne].
    + split; [done|]. intros [Hx|Hx]; [|done]. by destruct (Hn h (list_elem_of_here _ _)).
    + rewrite Hsame, Hh by done. rewrite elem_of_cons. tauto.
  - intros h' Hin. apply Hn. by right.
Qed.

Lemma raised_close_all now s0 s hs :
  sound s0 → raised s0 s hs → same s0 (close_all now s (LnRaw <$> hs)).
Proof.
  intros Hs0. revert s. induction hs as [|h hs IH]; intros s Hr; simpl.
  - destruct Hr as [_ Hg Hh _ _]. split; [|done]. intros h. rewrite Hh. set_solver.
  - by apply IH, raised_close.
Qed.

Lemma raised_failed s0 s hs q r e :
  sound s0 → raised s0 s hs → b_admissible (backend s) q → b_open (backend s) q = (r, Err e) →
  raised s0 (mkCtl r (groups s) (heap s) (nextGroup s) (nextLn s)) hs.
Proof.
  intros Hs0 [Hs Hg Hh Hn Hd] Ha Ho. apply open_Err in Ho as [Hwf Hsame]; [|apply Hs|done].
  split; simpl; try done.
  - apply sound_backend; [done..|]. intros g b Hlive. apply Hsame. by apply (s_held _ Hs g).
  - intros h. by rewrite Hsame.
Qed.

Lemma listen_all_raw s0 s groupKey reqs hs s' ls oe :
  sound s0 → (∀ r q, q ∈ reqs → b_admissible r q) → raised s0 s hs →
  listen_all s "" groupKey reqs (LnRaw <$> hs) = (s', ls, oe) →
  ∃ hs', ls = LnRaw <$> hs' ∧ raised s0 s' hs' ∧
    (oe = None → length ls = (length hs + length reqs)%nat).
Proof.
  intros Hs0. revert s hs. induction reqs as [|q reqs IH]; intros s hs Ha Hr.
  { intros [= <- <- <-]. exists hs. split_and!; try done. intros _. rewrite length_fmap. simpl. lia. }
  cbn [listen_all]. unfold listen_one. cbn [String.eqb negb].
  pose proof (Ha (backend s) q (list_elem_of_here _ _)) as Hq.
  destruct (b_open (backend s) q) as [r [h|e]] eqn:Ho; intros Hl.
  - replace ((LnRaw <$> hs) ++ [LnRaw h]) with (LnRaw <$> (hs ++ [h])) in Hl by by rewrite fmap_app.
    apply IH in Hl; [|intros; apply Ha; by right|by eapply raised_open].
    destruct Hl as (hs' & ? & ? & Hok). exists hs'. split_and!; try done.
    intros Hoe. rewrite (Hok Hoe), length_app. simpl. lia.
  - injection Hl as <- <- <-. exists hs. split_and!; try done. by eapply raised_failed.
Qed.

(** *** In a group *)

(** [s] is [s0] with the listeners [ls] added to the group at [g]. *)
Record grown (s0 s : @Ctl R Q H) (g : nat) (ls : list nat) : Prop := {
  g_sound : sound s;
  g_next : ∀ ln, ln ∈ ls → (nextLn s0 ≤ ln < nextLn s)%nat;
  g_next0 : (nextLn s0 ≤ nextLn s)%nat;
  g_lns : lns_of s g = lns_of s0 g ++ ls;
  g_other : ∀ g', g' ≠ g → lns_of s g' = lns_of s0 g' ∧ ∀ b, live s g' b ↔ live s0 g' b;
  g_same : lns_of s0 g ≠ [] ∨ ls = [] →
    (∀ h, b_held (backend s) h ↔ b_held (backend s0) h) ∧ ∀ b, live s g b ↔ live s0 g b;
  g_first : lns_of s0 g = [] → ls ≠ [] → ∃ b, live s g b ∧
    ¬ b_held (backend s0) (bg_handle b) ∧
    ∀ h, b_held (backend s) h ↔ b_held (backend s0) h ∨ h = bg_handle b;
  g_nodup : NoDup ls
}.

Lemma grown_nil s0 s g : grown s0 s g [] → same s0 s.
Proof.
  intros [_ _ _ Hl Ho Hs _ _]. destruct Hs as [Hh Hv]; [by right|]. split; [done|].
  intros g'. destruct (decide (g' = g)) as [->|Hne]; [|by apply Ho].
  by rewrite Hl, app_nil_r.
Qed.

Lemma remove_ln_app ln l l' : ln ∉ l → remove_ln ln (l ++ ln :: l') = l ++ l'.
Proof.
  induction l as [|x l IH]; simpl; intros Hn.
  - by rewrite Nat.eqb_refl.
  - destruct (Nat.eqb_spec x ln) as [->|]; [set_solver|]. rewrite IH by set_solver. done.
Qed.

Lemma grown_close now s0 s g ln ls :
  sound s0 → fresh s0 → grown s0 s g (ln :: ls) → grown s0 (closeListener now s g ln) g ls.
Proof.
  intros Hs0 Hf [Hs Hn Hn0 Hl Ho Hsm Hfi Hd]. apply NoDup_cons in Hd as [Hnl Hd].
  assert (ln ∈ lns_of s g) as Hin by (rewrite Hl; set_solver).
  assert (ln ∉ lns_of s0 g) as Hnin.
  { intros Hx%Hf. destruct (Hn ln (list_elem_of_here _ _)). lia. }
  destruct (closeListener_spec now s g ln Hs Hin) as (Hs' & Hnx & Hlns & Hother & b & Hlive & Hcase).
  rewrite Hl, remove_ln_app in Hlns by done. rewrite Hl, remove_ln_app in Hcase by done.
  split; try done.
  - intros x Hx. rewrite Hnx. apply Hn. by right.
  - by rewrite Hnx.
  - intros g' Hne. destruct (Hother g' Hne) as [-> Hv]. destruct (Ho g' Hne) as [-> Hv'].
    split; [done|]. intros b'. by rewrite Hv.
  - intros Hc. destruct (decide (lns_of s0 g = [])) as [Hnil|Hnil].
    + destruct Hc as [?| ->]; [done|]. rewrite Hnil in Hcase. simpl in Hcase.
      destruct (Hfi Hnil) as (b1 & Hb1 & Hnh & Hheld); [done|].
      rewrite (live_fun _ _ _ _ Hlive Hb1) in Hcase. rewrite Hcase.
      destruct (close_law now (backend s) (bg_handle b1) (s_wf _ Hs)) as (_ & Hnot & Hsame).
      { by apply (s_held _ Hs g). }
      split.
      * intros h. destruct (decide (h = bg_handle b1)) as [->|Hne]; [tauto|].
        rewrite Hsame, Hheld by done. tauto.
      * intros b'. split; intros Hx%live_lns_of; [rewrite Hlns, Hnil in Hx|]; done.
    + destruct (Hsm (or_introl Hnil)) as [Hh Hv]. rewrite decide_False in Hcase
        by (intros Hx; apply app_nil in Hx; tauto).
      destruct Hcase as [-> Hlive']. split; [done|]. intros b'. split.
      * intros Hx. rewrite (live_fun _ _ _ _ Hx Hlive'). by apply Hv.
      * intros Hx%Hv. by rewrite (live_fun _ _ _ _ Hx Hlive).
  - intros Hnil Hne. destruct (Hfi Hnil) as (b1 & Hb1 & Hnh & Hheld); [done|].
    rewrite Hnil, decide_False in Hcase by done. destruct Hcase as [-> Hlive'].
    rewrite (live_fun _ _ _ _ Hlive Hb1) in Hlive'. by exists b1.
Qed.

Lemma grown_any s0 s g g' : grown s0 s g [] → grown s0 s g' [].
Proof.
  intros Hg. pose proof (grown_nil _ _ _ Hg) as [Hh Hl]. destruct Hg as [Hs _ Hn _ _ _ _ _].
  split; try done.
  - by intros ? ?%not_elem_of_nil.
  - rewrite app_nil_r. apply Hl.
  - intros _. split; [done|apply Hl].
  - constructor.
Qed.

(** One more listener of the group. *)
Lemma grown_listen s0 s s' g ls b q :
  grown s0 s g ls → sound s' → b_admissible (backend s) q → live s' g b →
  nextLn s' = S (nextLn s) → lns_of s' g = lns_of s g ++ [nextLn s] →
  (∀ g', g' ≠ g → lns_of s' g' = lns_of s g' ∧ ∀ b, live s' g' b ↔ live s g' b) →
  (live s g b ∧ backend s' = backend s ∨
   lns_of s g = [] ∧ b_open (backend s) q = (backend s', Ok (bg_handle b))) →
  grown s0 s' g (ls ++ [nextLn s]).
Proof.
  intros [Hs Hn Hn0 Hl Ho Hsm Hfi Hd] Hs' Ha Hlive Hnx Hlns Hother Hcase. split; try done.
  - intros x [Hx| ->%list_elem_of_singleton]%elem_of_app; [apply Hn in Hx; lia|lia].
  - lia.
  - by rewrite Hlns, Hl, <-app_assoc.
  - intros g' Hne. destruct (Hother g' Hne) as [-> Hv]. destruct (Ho g' Hne) as [-> Hv'].
    split; [done|]. intros b'. by rewrite Hv.
  - intros [Hne|Hx]; [|by destruct ls]. destruct (Hsm (or_introl Hne)) as [Hh Hv].
    destruct Hcase as [[Hb ->]|[Hnil _]]; [|rewrite Hl in Hnil; by apply app_nil in Hnil as [? _]].
    split; [done|]. intros b'. split; [intros Hx|intros Hx%Hv].
    + rewrite (live_fun _ _ _ _ Hx Hlive). by apply Hv.
    + by rewrite (live_fun _ _ _ _ Hx Hb).
  - intros Hnil _. exists b. split; [done|]. destruct Hcase as [[Hb Hback]|[Hnil' Hop]].
    + assert (ls ≠ []) as Hne.
      { intros ->. apply live_lns_of in Hb. by rewrite Hl, Hnil in Hb. }
      destruct (Hfi Hnil Hne) as (b1 & Hb1 & ? & ?). rewrite (live_fun _ _ _ _ Hb Hb1), Hback. done.
    + assert (ls = []) as ->.
      { destruct ls; [done|]. destruct (Hfi Hnil) as (b1 & Hb1 & _); [done|].
        by apply live_lns_of in Hb1. }
      destruct (Hsm (or_intror eq_refl)) as [Hh _].
      apply open_Ok in Hop as (_ & Hnot & Hheld & Hsame); [|apply Hs|done].
      split; [by rewrite <-Hh|]. intros h. rewrite <-Hh.
      destruct (decide (h = bg_handle b)) as [->|Hne]; [tauto|]. rewrite Hsame by done. tauto.
  - apply NoDup_app. split_and!; [done| |by apply NoDup_singleton].
    intros x Hx ->%list_elem_of_singleton. apply Hn in Hx. lia.
Qed.

(** A failed [Listen] in a group. *)
Lemma grown_same s0 s s' g ls :
  grown s0 s g ls → sound s' → nextLn s' = nextLn s → same s s' → grown s0 s' g ls.
Proof.
  intros [Hs Hn Hn0 Hl Ho Hsm Hfi Hd] Hs' Hnx [Hh Hv]. split; try done.
  - by rewrite Hnx.
  - by rewrite Hnx.
  - rewrite (proj1 (Hv g)). done.
  - intros g' Hne. destruct (Hv g') as [-> Hv']. destruct (Ho g' Hne) as [-> Hv2].
    split; [done|]. intros b. by rewrite Hv'.
  - intros Hc. destruct (Hsm Hc) as [Hh' Hv']. split; [intros h; by rewrite Hh|].
    intros b. by rewrite (proj2 (Hv g)).
  - intros Hnil Hne. destruct (Hfi Hnil Hne) as (b & Hb & ? & Hheld). exists b.
    split_and!; [by apply Hv|done|]. intros h. by rewrite Hh.
Qed.

Lemma listen_all_group s0 s g group groupKey reqs ls s' lns oe :
  group ≠ "" → (∀ r q, q ∈ reqs → b_admissible r q) → grown s0 s g ls →
  (ls ≠ [] → ∀ b, live s g b → bg_group b = group) →
  listen_all s group groupKey reqs (LnGroup g <$> ls) = (s', lns, oe) →
  ∃ g' ls', lns = LnGroup g' <$> ls' ∧ grown s0 s' g' ls' ∧
    (oe = None → length lns = (length ls + length reqs)%nat).
Proof.
  intros Hgr. revert s g ls. induction reqs as [|q reqs IH]; intros s g ls Ha Hg Hname.
  { intros [= <- <- <-]. exists g, ls. split_and!; try done. intros _. rewrite length_fmap. simpl. lia. }
  cbn [listen_all]. unfold listen_one. rewrite (proj2 (String.eqb_neq _ _) Hgr). cbn [negb].
  pose proof (Ha (backend s) q (list_elem_of_here _ _)) as Hq.
  destruct (ctl_Listen 1 s group groupKey q) as [s1 o] eqn:Hl.
  apply ctl_Listen_spec in Hl as [Hs1 Hcase]; [|apply Hg|done].
  destruct o as [[[ln h]|e]|]; [|intros [= <- <- <-]|done].
  2:{ destruct Hcase as (Hnx & Hh & Hv). exists g, ls. split_and!; try done. by eapply grown_same. }
  destruct Hcase as (g1 & b & Hcur & Hlive & <- & -> & Hnx & Hlns & Hother & Hc). rewrite Hcur. simpl.
  assert (ls ≠ [] → g1 = g) as Hsame.
  { intros Hne. destruct (decide (g1 = g)) as [|Hneq]; [done|].
    destruct (lns_of_live s g) as [b0 Hb0]; [apply Hg| |].
    { rewrite (g_lns _ _ _ _ Hg). intros Hx. by apply app_nil in Hx as [_ ?]. }
    pose proof (s_current _ Hs1 g b0) as Hcur0. rewrite (Hname Hne b0 Hb0) in Hcur0.
    specialize (Hcur0 (proj2 (proj2 (Hother g ltac:(congruence)) b0) Hb0)). congruence. }
  assert (LnGroup g <$> ls = LnGroup g1 <$> ls ∧ grown s0 s g1 ls) as [-> Hg1].
  { destruct ls as [|x ls]; [split; [done|by eapply grown_any]|]. by rewrite Hsame. }
  intros Hrest. replace ((LnGroup g1 <$> ls) ++ [LnGroup g1 (nextLn s)])
    with (LnGroup g1 <$> (ls ++ [nextLn s])) in Hrest by by rewrite fmap_app.
  apply IH in Hrest.
  - destruct Hrest as (g' & ls' & ? & ? & Hok). exists g', ls'. split_and!; try done.
    intros Hoe. rewrite (Hok Hoe), length_app. simpl. lia.
  - intros; apply Ha; by right.
  - by eapply grown_listen.
  - intros _ b' Hb'. by apply (s_named _ Hs1 group g1).
Qed.

Lemma grown_close_all now s0 s g ls :
  sound s0 → fresh s0 → grown s0 s g ls → same s0 (close_all now s (LnGroup g <$> ls)).
Proof.
  intros Hs0 Hf. revert s. induction ls as [|ln ls IH]; intros s Hg; simpl.
  - by eapply grown_nil.
  - by apply IH, grown_close.
Qed.

(** ** Properties *)

(** C11. Running a proxy for a list of domains is all or nothing, in a group or
    not: if some domain cannot be listened for, the listeners of the earlier
    ones are closed and the muxer and the groups are as before; if Run succeeds
    there is a listener for every domain, and closing the proxy undoes exactly
    what Run did. *)
Theorem domains_all_or_nothing (now : Z) (s : @Ctl R Q H) (group groupKey : string) (reqs : list Q) :
  sound s → fresh s → (∀ r q, q ∈ reqs → b_admissible r q) →
  match run_all now s group groupKey reqs with
  | (s', Err _) => same s s'
  | (s', Ok listeners) =>
      length listeners = length reqs ∧ same s (close_all now s' listeners)
  end.
Proof.
  intros Hs Hf Ha. unfold run_all.
  destruct (listen_all s group groupKey reqs []) as [[s' ls] oe] eqn:Hl.
  destruct (decide (group = "")) as [->|Hg].
  - apply (listen_all_raw s s groupKey reqs []) in Hl as (hs & -> & Hr & Hlen); [|done..|].
    + destruct oe; [|split; [by apply Hlen|]]; by apply raised_close_all.
    + split; try done; try constructor; set_solver.
  - apply (listen_all_group s s 0 group groupKey reqs []) in Hl as (g & ls' & -> & Hr & Hlen); [|done..| |done].
    + destruct oe; [|split; [by apply Hlen|]]; by apply grown_close_all.
    + split; rewrite ?app_nil_r; try done; try (by apply NoDup_nil); by intros ? ?%not_elem_of_nil.
Qed.
End Listeners.

(** ** HTTPS and TCP-mux proxies *)

(** [BaseProxy.buildDomains]. *)
Definition buildDomains (customDomains : list string) (subDomain subDomainHost : string) : list string :=
  filter (λ d, d ≠ "") customDomains ++
  (if String.eqb subDomain "" then [] else [subDomain +:+ "." +:+ subDomainHost]).

(** [util.CanonicalAddr]. *)
Definition CanonicalAddr (host : string) (port : Z) : string :=
  if (port =? 80) || (port =? 443) then host else JoinHostPort host (Itoa port).

Notation routes := (gmap string (gmap string (list (@Vhost.Router MuxReq)))).
Notation MuxCtl := (@Ctl routes MuxReq (string * string * string)).
Notation MuxLn := (@Ln (string * string * string)).

Inductive domain_error :=
| ErrListen (e : group_error Vhost.route_error)
| ErrUnknownMultiplexer (m : string).

Definition domains_of (d : Config.DomainConfig) (scfg : Config.ServerConfig) : list string :=
  buildDomains (Config.CustomDomains d) (Config.SubDomain d) (Config.SubDomainHost scfg).

Definition run_domains (be : Backend routes MuxReq (string * string * string) Vhost.route_error)
    (now : Z) (s : MuxCtl) (lb : Config.LoadBalancerConfig) (reqs : list MuxReq) (addrs : list string) :
    MuxCtl * res domain_error (list MuxLn * string) :=
  let '(s, r) := @run_all _ _ _ _ be now s (Config.Group lb) (Config.GroupKey lb) reqs in
  (s, match r with
      | Ok listeners => Ok (listeners, Join addrs ",")
      | Err e => Err (ErrListen e)
      end).

(** [HTTPSProxy.Run]: the listeners and the remote address. *)
Definition HTTPS_Run (now : Z) (s : MuxCtl) (cfg : Config.HTTPSProxyConfig) (scfg : Config.ServerConfig) :
    MuxCtl * res domain_error (list MuxLn * string) :=
  let domains := domains_of (Config.https_Domain cfg) scfg in
  run_domains https_backend now s (Config.LoadBalancer (Config.https_base cfg))
    ((λ d, mkMuxReq d "" "" "" "") <$> domains)
    ((λ d, CanonicalAddr d (Config.VhostHTTPSPort scfg)) <$> domains).

(** [TCPMuxProxy.Run]. *)
Definition TCPMux_Run (now : Z) (s : MuxCtl) (cfg : Config.TCPMuxProxyConfig) (scfg : Config.ServerConfig) :
    MuxCtl * res domain_error (list MuxLn * string) :=
  if String.eqb (Config.mux_Multiplexer cfg) "httpconnect" then
    let domains := domains_of (Config.mux_Domain cfg) scfg in
    run_domains tcpmux_backend now s (Config.LoadBalancer (Config.mux_base cfg))
      ((λ d, mkMuxReq d "" (Config.mux_RouteByHTTPUser cfg) (Config.mux_HTTPUser cfg)
               (Config.mux_HTTPPassword cfg)) <$> domains)
      ((λ d, CanonicalAddr d (Config.TCPMuxHTTPConnectPort scfg)) <$> domains)
  else (s, Err (ErrUnknownMultiplexer (Config.mux_Multiplexer cfg))).

(** *** A subdomain under another spelling of its host *)

#[local] Arguments String.append !_ _ / : simpl nomatch.

Lemma ToLower_app s t : ToLower (s +:+ t) = ToLower s +:+ ToLower t.
Proof. induction s as [|c s IH]; simpl; [done|]. unfold ToLower in *. simpl. by rewrite IH. Qed.

Lemma ToLower_length s : String.length (ToLower s) = String.length s.
Proof. induction s as [|c s IH]; simpl; [done|]. unfold ToLower in *. simpl. by rewrite IH. Qed.

Lemma string_app_inv_len s t u v :
  String.length t = String.length v → s +:+ t = u +:+ v → t = v.
Proof.
  intros Hlen. revert u. induction s as [|c s IH]; intros [|d u]; simpl; try done.
  - intros ->. simpl in Hlen. rewrite string_length_app in Hlen. lia.
  - intros <-. simpl in Hlen. rewrite string_length_app in Hlen. lia.
  - intros [= _ Heq]. by eapply IH.
Qed.

Definition https_config (d : Config.DomainConfig) : Config.HTTPSProxyConfig :=
  Config.mkHTTPS (Config.set_Type Config.zero_base "https") d.
Definition empty_mux : MuxCtl := NewCtl Vhost.NewRouters.

Lemma validate_https q d scfg :
  Config.VhostHTTPSPort scfg ≠ 0 →
  Config.ValidateProxyConfigurerForServer q (Config.CHTTPS (https_config d)) scfg =
  Config.validateDomainConfigForServer d scfg.
Proof.
  intros Hp. unfold Config.ValidateProxyConfigurerForServer, Config.validateProxyBaseConfigForServer,
    Config.ValidateAnnotations. cbn. rewrite (proj2 (Z.eqb_neq _ _) Hp). cbn.
  by destruct (Config.validateDomainConfigForServer d scfg).
Qed.

(** Running an https proxy for one domain, without a group. *)
Lemma https_run_one now s d scfg domain :
  domains_of d scfg = [domain] →
  HTTPS_Run now s (https_config d) scfg =
  match Vhost.Add (backend s) domain "" "" (mkMuxReq domain "" "" "" "") with
  | Ok r => (mkCtl r (groups s) (heap s) (nextGroup s) (nextLn s),
             Ok ([LnRaw (ToLower domain, "", "")], CanonicalAddr domain (Config.VhostHTTPSPort scfg)))
  | Err e => (s, Err (ErrListen (ErrOpen e)))
  end.
Proof.
  intros Hd. unfold HTTPS_Run, run_domains. cbn [https_config Config.https_Domain]. rewrite Hd. cbn.
  unfold run_all. cbn. unfold listen_one. cbn. unfold mux_Listen. cbn.
  destruct (Vhost.Add _ _ _ _ _); cbn; [done|]. by destruct s.
Qed.

(** The subdomains of the server are not protected: a custom domain that
    spells the server's subdomain host with other cases passes the server's
    validation, and once its proxy runs, the proxy that owns the subdomain is
    refused with a route conflict, since routes ignore case. *)
Theorem subdomain_squatted (now : Z) (sub host host' : string) (q : string → list string)
    (scfg : Config.ServerConfig) :
  Config.SubDomainHost scfg = host → Config.VhostHTTPSPort scfg ≠ 0 → host ≠ "" →
  host' ≠ host → ToLower host' = ToLower host → sub ≠ "" →
  ContainsChar sub "." = false → ContainsChar sub "*" = false →
  let squat := https_config (Config.mkDomainConfig [sub +:+ "." +:+ host'] "") in
  let owner := https_config (Config.mkDomainConfig [] sub) in
  Config.ValidateProxyConfigurerForServer q (Config.CHTTPS squat) scfg = None ∧
  Config.ValidateProxyConfigurerForServer q (Config.CHTTPS owner) scfg = None ∧
  ∃ s ls addr, HTTPS_Run now empty_mux squat scfg = (s, Ok (ls, addr)) ∧
    HTTPS_Run now s owner scfg = (s, Err (ErrListen (ErrOpen Vhost.ErrRouterConfigConflict))).
Proof.
  intros Hh Hp Hne Hdiff Hlow Hsub Hdot Hstar. cbn zeta. rewrite !validate_https by done. split_and!.
  - apply Config.validateDomain_spec. split; [|done]. simpl. rewrite Hh.
    intros domain t ->%list_elem_of_singleton Ht. exfalso. apply Hdiff.
    apply (string_app_inv_len (sub +:+ ".") _ (t +:+ ".")).
    + by rewrite <-(ToLower_length host'), Hlow, ToLower_length.
    + by rewrite !string_app_assoc.
  - apply Config.validateDomain_spec. split; [by intros ? ? ?%not_elem_of_nil|]. simpl. by rewrite Hh.
  - assert (domains_of (Config.mkDomainConfig [sub +:+ "." +:+ host'] "") scfg = [sub +:+ "." +:+ host']) as H1.
    { unfold domains_of, buildDomains. cbn [Config.CustomDomains Config.SubDomain String.eqb].
      rewrite filter_cons_True, app_nil_r; [done|]. by destruct sub. }
    assert (domains_of (Config.mkDomainConfig [] sub) scfg = [sub +:+ "." +:+ host]) as H2.
    { unfold domains_of, buildDomains. cbn. rewrite (proj2 (String.eqb_neq _ _) Hsub). by rewrite Hh. }
    rewrite (https_run_one _ _ _ _ _ H1).
    destruct (Vhost.Add (backend empty_mux) (sub +:+ "." +:+ host') "" "" _) as [r|e] eqn:Ha; [|done].
    eexists _, _, _. split; [done|]. rewrite (https_run_one _ _ _ _ _ H2). cbn [backend].
    unfold Vhost.Add at 1. rewrite (Vhost.Add_ok_exist _ _ _ _ _ _ _ _ _ Vhost.wf_New Ha).
    rewrite decide_True; [done|]. by rewrite !ToLower_app, Hlow.
Qed.

(** ** Witnesses *)

(** The second domain is another spelling of the first: nothing is left. *)
Definition demo_reqs : list MuxReq :=
  [mkMuxReq "a.com" "" "" "" ""; mkMuxReq "A.com" "" "" "" ""].

Lemma empty_mux_sound : @sound _ _ _ _ https_backend https_laws empty_mux.
Proof. apply (@sound_New _ _ _ _ https_backend https_laws Vhost.NewRouters), Vhost.wf_New. Qed.

Lemma empty_mux_fresh : fresh empty_mux.
Proof. intros g ln. unfold lns_of. cbn. rewrite lookup_empty. by intros ?%not_elem_of_nil. Qed.

Lemma domains_all_or_nothing_witness :
  (@run_all _ _ _ _ https_backend 0 empty_mux "" "" demo_reqs).2 =
    Err (ErrOpen Vhost.ErrRouterConfigConflict) ∧
  @same _ _ _ _ https_backend https_laws empty_mux
    (@run_all _ _ _ _ https_backend 0 empty_mux "" "" demo_reqs).1.
Proof.
  split; [by vm_compute|].
  pose proof (@domains_all_or_nothing _ _ _ _ https_backend https_laws _ 0 empty_mux "" "" demo_reqs
    empty_mux_sound empty_mux_fresh (λ _ _ _, I)) as Hrun.
  destruct (run_all 0 empty_mux "" "" demo_reqs) as [s' [ls|e]] eqn:Hr; [|exact Hrun].
  exfalso. apply (f_equal (λ x, is_ok x.2)) in Hr. vm_compute in Hr. discriminate.
Defined.

Lemma subdomain_squatted_witness :
  Config.ValidateProxyConfigurerForServer (λ _, [])
    (Config.CHTTPS (https_config (Config.mkDomainConfig ["foo.FRP.com"] ""))) Config.demo_server = None.
Proof.
  refine (proj1 (subdomain_squatted 0 "foo" "frp.com" "FRP.com" (λ _, []) Config.demo_server
    eq_refl _ _ _ eq_refl _ eq_refl eq_refl)); done.
Defined.
End DomainProxies.
