(* ===== verification/HTTPProxies.v ===== *)
(** HTTP proxies, server/proxy/http.go, with [HTTPReverseProxy.Register] and
    [UnRegister] of pkg/util/vhost/http.go.

    The state is that of the HTTP group controller, whose route table the
    reverse proxy shares. The payload of a route is the identity of the
    registered object: a group, or the route configuration of a proxy of its
    own, which takes the next free identity. *)
From Stdlib Require Import ZArith Lia Ascii String.
From stdpp Require Import base gmap strings list fin_maps relations.
From S2P Require Import Prelude GoLib Wire Msg Ports ConfigTypes Config Router Group HTTPGroup DomainProxies.

Local Open Scope Z_scope.
Local Open Scope frp_scope.

Module HTTPProxies.
Import HTTPGroup.

Section Proxies.
Context {F : Type}.
Notation Ctl := (@HTTPGroup.Ctl F).
Notation RouteConfig := (HTTPGroup.RouteConfig F).

(** [HTTPReverseProxy.Register]. *)
Definition rp_Register (s : Ctl) (rc : RouteConfig) : Ctl * res error unit :=
  match Vhost.Add (vhostRouter s) (Domain rc) (Location rc) (RouteByHTTPUser rc) (next s) with
  | Err e => (s, Err (ErrRoute e))
  | Ok router => (mkCtl router (groups s) (heap s) (S (next s)), Ok tt)
  end.

(** [HTTPReverseProxy.UnRegister]. *)
Definition rp_UnRegister (s : Ctl) (rc : RouteConfig) : Ctl :=
  mkCtl (Vhost.Del (vhostRouter s) (Domain rc) (Location rc) (RouteByHTTPUser rc)) (groups s) (heap s) (next s).

(** [HTTPGroupController.Register], [fuel] bounding its retries. *)
Fixpoint ctl_Register (fuel : nat) (s : Ctl) (proxyName group groupKey : string) (rc : RouteConfig) :
    Ctl * option (res error unit) :=
  match fuel with
  | O => (s, None)
  | S fuel' =>
      let '(s, g) := getOrCreate s group in
      let '(s, r) := Register s g proxyName group groupKey rc in
      match r with
      | Err errGroupStale => ctl_Register fuel' s proxyName group groupKey rc
      | _ => (s, Some r)
      end
  end.

(** The functions in [closeFuncs]. *)
Inductive closeFn := UnRegisterGroup (group : string) | UnRegisterRoute (rc : RouteConfig).

Definition call_closeFn (name : string) (s : Ctl) (f : closeFn) : Ctl :=
  match f with
  | UnRegisterGroup group => ctl_UnRegister s name group
  | UnRegisterRoute rc => rp_UnRegister s rc
  end.

(** [HTTPProxy.Close]. *)
Definition HTTP_Close (name : string) (s : Ctl) (closeFuncs : list closeFn) : Ctl :=
  foldl (call_closeFn name) s closeFuncs.

(** The body of the loops of [Run]. *)
Definition register_one (s : Ctl) (name group groupKey : string) (rc : RouteConfig) :
    Ctl * res error closeFn :=
  if negb (String.eqb group "") then
    match ctl_Register 1 s name group groupKey rc with
    | (s, Some (Ok _)) => (s, Ok (UnRegisterGroup group))
    | (s, Some (Err e)) => (s, Err e)
    | (s, None) => (s, Err errGroupStale)
    end
  else
    match rp_Register s rc with
    | (s, Ok _) => (s, Ok (UnRegisterRoute rc))
    | (s, Err e) => (s, Err e)
    end.

Fixpoint register_all (s : Ctl) (name group groupKey : string) (rcs : list RouteConfig)
    (closeFuncs : list closeFn) : Ctl * list closeFn * option error :=
  match rcs with
  | [] => (s, closeFuncs, None)
  | rc :: rcs =>
      match register_one s name group groupKey rc with
      | (s, Ok f) => register_all s name group groupKey rcs (closeFuncs ++ [f])
      | (s, Err e) => (s, closeFuncs, Some e)
      end
  end.

(** The route configurations of [Run]: every domain with every location, one
    empty location when there are none. *)
Definition route_configs (domains locations : list string) (user : string) (f : F) : list RouteConfig :=
  let locations := match locations with [] => [""] | _ => locations end in
  domains ≫= λ d, (λ l, mkRouteConfig F d l user f) <$> locations.

Definition HTTP_Run (s : Ctl) (name : string) (cfg : Config.HTTPProxyConfig)
    (scfg : Config.ServerConfig) (f : F) : Ctl * list closeFn * res error string :=
  let lb := Config.LoadBalancer (Config.http_base cfg) in
  let rcs := route_configs (DomainProxies.domains_of (Config.http_Domain cfg) scfg)
               (Config.http_Locations cfg) (Config.http_RouteByHTTPUser cfg) f in
  match register_all s name (Config.Group lb) (Config.GroupKey lb) rcs [] with
  | (s, closeFuncs, None) =>
      (s, closeFuncs, Ok (Join ((λ rc, DomainProxies.CanonicalAddr (Domain rc) (Config.VhostHTTPPort scfg)) <$> rcs) ","))
  | (s, closeFuncs, Some e) => (HTTP_Close name s closeFuncs, closeFuncs, Err e)
  end.

(** ** Routes *)

(** The object a route leads to. *)
Definition route (s : Ctl) (k : string * string * string) : option nat :=
  Vhost.payload <$> Vhost.exist (vhostRouter s) k.1.1 k.1.2 k.2.

Definition key (rc : RouteConfig) : string * string * string :=
  (ToLower (Domain rc), Location rc, RouteByHTTPUser rc).

Lemma rp_Register_Ok s rc s' :
  Vhost.wf (vhostRouter s) → rp_Register s rc = (s', Ok tt) →
  Vhost.wf (vhostRouter s') ∧ route s (key rc) = None ∧ groups s' = groups s ∧ heap s' = heap s ∧
  ∀ k, route s' k = if decide (k = key rc) then Some (next s) else route s k.
Proof.
  intros Hwf. unfold rp_Register. destruct (Vhost.Add _ _ _ _ _) as [r|] eqn:Ha; [|done].
  intros [= <-]. simpl. split_and!; try done.
  - by eapply Vhost.wf_Add.
  - unfold route, key. simpl. unfold Vhost.Add in Ha. by destruct (Vhost.exist _ _ _ _).
  - intros [[d l] u]. unfold route, key. simpl.
    rewrite (Vhost.Add_ok_exist _ _ _ _ _ _ _ _ _ Hwf Ha). by case_decide.
Qed.

Lemma rp_Register_Err s rc s' e :
  rp_Register s rc = (s', Err e) →
  s' = s ∧ is_Some (route s (key rc)) ∧ e = ErrRoute Vhost.ErrRouterConfigConflict.
Proof.
  unfold rp_Register, route, key, Vhost.Add. simpl.
  destruct (Vhost.exist _ _ _ _); [|done]. intros [= <- <-]. simpl. eauto.
Qed.

Lemma rp_UnRegister_route s rc k :
  Vhost.wf (vhostRouter s) →
  Vhost.wf (vhostRouter (rp_UnRegister s rc)) ∧
  route (rp_UnRegister s rc) k = if decide (k = key rc) then None else route s k.
Proof.
  intros Hwf. split; [by apply Vhost.wf_Del|]. destruct k as [[d l] u]. unfold route, key. simpl.
  rewrite Vhost.Del_exist by done. by case_decide.
Qed.

(** Closing a proxy of its own removes exactly its routes. *)
Lemma HTTP_Close_route name s rcs k :
  Vhost.wf (vhostRouter s) →
  route (HTTP_Close name s (UnRegisterRoute <$> rcs)) k =
  if decide (k ∈ key <$> rcs) then None else route s k.
Proof.
  revert s. induction rcs as [|rc rcs IH]; intros s Hwf; [done|]. unfold HTTP_Close in *. simpl.
  destruct (rp_UnRegister_route s rc k Hwf) as [Hwf' Hr]. rewrite IH, Hr by done.
  repeat case_decide; set_solver.
Qed.

(** The loop without a group. *)
Lemma register_all_plain s0 s name groupKey rcs done_ s' fns oe :
  Vhost.wf (vhostRouter s) → NoDup (key <$> done_) →
  (∀ k, k ∈ key <$> done_ → route s0 k = None) →
  (∀ k, is_Some (route s k) ↔ k ∈ key <$> done_ ∨ is_Some (route s0 k)) →
  (∀ k, k ∉ key <$> done_ → route s k = route s0 k) →
  register_all s name "" groupKey rcs (UnRegisterRoute <$> done_) = (s', fns, oe) →
  ∃ all, fns = UnRegisterRoute <$> all ∧ Vhost.wf (vhostRouter s') ∧ NoDup (key <$> all) ∧
    (∀ k, k ∈ key <$> all → route s0 k = None) ∧
    (∀ k, is_Some (route s' k) ↔ k ∈ key <$> all ∨ is_Some (route s0 k)) ∧
    (∀ k, k ∉ key <$> all → route s' k = route s0 k) ∧
    match oe with
    | None => all = done_ ++ rcs
    | Some e => e = ErrRoute Vhost.ErrRouterConfigConflict ∧
        ¬ (NoDup (key <$> (done_ ++ rcs)) ∧ ∀ k, k ∈ key <$> (done_ ++ rcs) → route s0 k = None)
    end.
Proof.
  revert s done_. induction rcs as [|rc rcs IH]; intros s ds Hwf Hnd Hnew Hsome Hsame.
  { intros [= <- <- <-]. exists ds. rewrite app_nil_r. by split_and!. }
  cbn [register_all]. unfold register_one. cbn [String.eqb negb].
  destruct (rp_Register s rc) as [s1 [[]|e]] eqn:Hr.
  - apply rp_Register_Ok in Hr as (Hwf1 & Hnone & _ & _ & Hroute); [|done]. intros Hl.
    assert (key rc ∉ key <$> ds) as Hni.
    { intros Hin. assert (is_Some (route s (key rc))) as [? Hx] by (apply Hsome; by left). congruence. }
    replace ((UnRegisterRoute <$> ds) ++ [UnRegisterRoute rc])
      with (UnRegisterRoute <$> (ds ++ [rc])) in Hl by by rewrite fmap_app.
    assert (key <$> (ds ++ [rc]) = (key <$> ds) ++ [key rc]) as Hk by by rewrite fmap_app.
    apply IH in Hl; rewrite ?Hk; try done.
    + by rewrite <-app_assoc in Hl.
    + apply NoDup_app. split_and!; [done| |by apply NoDup_singleton].
      by intros k Hin ->%list_elem_of_singleton.
    + intros k [Hin| ->%list_elem_of_singleton]%elem_of_app; [by apply Hnew|].
      by rewrite <-(Hsame _ Hni).
    + intros k. rewrite Hroute, elem_of_app, list_elem_of_singleton.
      case_decide as Hkk; [subst; naive_solver|]. rewrite Hsome. naive_solver.
    + intros k Hin. rewrite Hroute, decide_False by set_solver. apply Hsame. set_solver.
  - apply rp_Register_Err in Hr as (-> & Hex & ->). intros [= <- <- <-]. exists ds.
    split_and!; try done. intros [Hnd' Hnone]. rewrite fmap_app in Hnd', Hnone. simpl in *.
    apply Hsome in Hex as [Hin|[x Hx]].
    + apply NoDup_app in Hnd' as (_ & Hdis & _). by destruct (Hdis _ Hin (list_elem_of_here _ _)).
    + rewrite Hnone in Hx; [done|]. set_solver.
Qed.

(** ** Groups *)

Definition member (s : Ctl) (group name : string) : option F :=
  match groups s !! group with
  | Some l => match heap s !! l with Some g => createFuncs g !! name | None => None end
  | None => None
  end.

(** The same routes, and the same members of the same groups. *)
Definition same (s s' : Ctl) : Prop :=
  (∀ k, route s' k = route s k) ∧ ∀ group name, member s' group name = member s group name.

(** What [ctl_Register] finds under the name of the group. *)
Lemma getOrCreate_http s group s1 l :
  sound s → getOrCreate s group = (s1, l) →
  vhostRouter s1 = vhostRouter s ∧ groups s1 !! group = Some l ∧ same s s1 ∧ sound s1 ∧
  ∃ g, heap s1 !! l = Some g.
Proof.
  intros Hs Hg. pose proof (http_sound_getOrCreate s group Hs) as Hs1. rewrite Hg in Hs1. simpl in Hs1.
  unfold getOrCreate in Hg. destruct (groups s !! group) as [l0|] eqn:Hl.
  - injection Hg as <- <-. split_and!; try done. destruct (s_named _ Hs _ _ Hl) as (g & Hg & _). eauto.
  - injection Hg as <- <-. split_and!; try done; simpl; [by rewrite lookup_insert_eq| |].
    + split; [done|]. intros gr n. unfold member. simpl. rewrite lookup_insert. case_decide as Heq.
      * subst. by rewrite Hl, lookup_insert_eq.
      * destruct (groups s !! gr) as [l1|] eqn:Hl1; [|done]. rewrite lookup_insert_ne; [done|].
        destruct (s_named _ Hs _ _ Hl1) as (g & Hg & _). intros <-.
        assert (next s < next s)%nat by (apply (s_fresh _ Hs); eauto). lia.
    + eexists. by rewrite lookup_insert_eq.
Qed.

(** Registering in a group: nothing changes but the group and, for its first
    member, the route. *)
Lemma Register_http (s : Ctl) (l : nat) (g : @HTTPGroup F) name grp groupKey rc s' r :
  sound s → groups s !! grp = Some l → heap s !! l = Some g →
  Register s l name grp groupKey rc = (s', r) →
  match r with
  | Err e => s' = s ∧ e ≠ errGroupStale
  | Ok _ => ∃ g1 router, s' = mkCtl router (groups s) (<[l := g1]> (heap s)) (next s) ∧
      createFuncs g !! name = None ∧ createFuncs g1 = <[name := CreateConnFn rc]> (createFuncs g) ∧
      group g1 = grp ∧
      (createFuncs g = ∅ ∧
       Vhost.Add (vhostRouter s) (domain g1) (location g1) (routeByHTTPUser g1) l = Ok router ∨
       createFuncs g ≠ ∅ ∧ router = vhostRouter s)
  end.
Proof.
  intros Hs Hg Hh. unfold Register. rewrite bool_decide_true by done. cbn [negb].
  rewrite Hh. cbn [default from_option id]. case_bool_decide as He.
  - destruct (Vhost.Add _ _ _ _ _) as [router|] eqn:Ha; [|by intros [= <- <-]].
    unfold add_member. cbn. rewrite He, lookup_empty. intros [= <- <-].
    eexists _, _. split; [done|]. cbn. split_and!; try done. by left.
  - destruct (String.eqb_spec (group g) grp) as [Hgrp|]; cbn [negb orb]; [|by intros [= <- <-]].
    destruct (negb _ || _ || _); [by intros [= <- <-]|]. destruct (negb _); [by intros [= <- <-]|].
    unfold add_member. destruct (createFuncs g !! name) eqn:Hn; intros [= <- <-]; [done|].
    eexists _, _. split; [done|]. cbn. split_and!; try done. by right.
Qed.

(** A member cannot register again, and leaving undoes its registration. *)
Lemma Register_twice (s : Ctl) (l : nat) (g : @HTTPGroup F) name grp groupKey rc :
  groups s !! grp = Some l → heap s !! l = Some g → is_Some (createFuncs g !! name) →
  ∃ e, Register s l name grp groupKey rc = (s, Err e) ∧ e ≠ errGroupStale.
Proof.
  intros Hg Hh [f Hf]. unfold Register. rewrite bool_decide_true by done. cbn [negb].
  rewrite Hh. cbn [default from_option id]. rewrite bool_decide_false.
  2:{ intros He. by rewrite He, lookup_empty in Hf. }
  destruct (negb _ || _ || _ || _); [by eexists|]. destruct (negb _); [by eexists|].
  unfold add_member. rewrite Hf. by eexists.
Qed.

Lemma Register_undo (s : Ctl) (l : nat) (g : @HTTPGroup F) name grp groupKey rc s' :
  sound s → groups s !! grp = Some l → heap s !! l = Some g →
  Register s l name grp groupKey rc = (s', Ok tt) → same s (ctl_UnRegister s' name grp).
Proof.
  intros Hs Hg Hh Hr. apply (Register_http _ _ g) in Hr; [|done..].
  destruct Hr as (g1 & router & -> & Hnone & Hf1 & Hgrp & Hcase).
  unfold ctl_UnRegister. simpl. rewrite Hg. unfold UnRegister. simpl. rewrite lookup_insert_eq. simpl.
  rewrite Hf1, delete_insert_id by done.
  assert (∀ gs hp', (∀ gr, gr ≠ grp → gs !! gr = groups s !! gr) →
    (∀ l', l' ≠ l → hp' !! l' = heap s !! l') → ∀ r' n', ∀ gr nm, gr ≠ grp →
    member (mkCtl r' gs hp' n') gr nm = member s gr nm) as Hother.
  { intros gs hp' Hgs Hhp r' n' gr nm Hne. unfold member. simpl. rewrite Hgs by done.
    destruct (groups s !! gr) as [l'|] eqn:Hl'; [|done]. rewrite Hhp; [done|].
    intros ->. apply Hne. by apply (s_inj _ Hs gr grp l). }
  case_bool_decide as He.
  - destruct Hcase as [[_ Ha]|[? _]]; [|done]. rewrite Hgrp, bool_decide_true by done. split.
    + intros [[d lo] u]. unfold route. simpl.
      rewrite Vhost.Del_exist by (eapply Vhost.wf_Add; [apply Hs|done]).
      rewrite (Vhost.Add_ok_exist _ _ _ _ _ _ _ _ _ (s_router _ Hs) Ha).
      case_decide as Hk; [|done]. injection Hk as -> -> ->.
      unfold Vhost.Add in Ha. by destruct (Vhost.exist (vhostRouter s) _ _ _).
    + intros gr nm. destruct (decide (gr = grp)) as [->|Hne].
      * unfold member. simpl. by rewrite lookup_delete_eq, Hg, Hh, He, lookup_empty.
      * apply Hother; [|by intros; rewrite !lookup_insert_ne|done].
        intros; by rewrite lookup_delete_ne.
  - destruct Hcase as [[? _]|[_ ->]]; [done|]. split; [done|].
    intros gr nm. destruct (decide (gr = grp)) as [->|Hne].
    + unfold member. simpl. rewrite Hg, lookup_insert_eq, Hh. done.
    + apply Hother; [done|by intros; rewrite !lookup_insert_ne|done].
Qed.

(** ** Properties *)

(** An http proxy of its own runs exactly when its routes, one for every
    domain and location, differ from each other and from all registered ones,
    domains compared without case; then they are registered and no other route
    changes, and closing the proxy restores the table. Otherwise the error is a
    route conflict and the table is as before. *)
Theorem http_run_plain (s : Ctl) (name : string) (cfg : Config.HTTPProxyConfig)
    (scfg : Config.ServerConfig) (f : F) :
  Vhost.wf (vhostRouter s) → Config.Group (Config.LoadBalancer (Config.http_base cfg)) = "" →
  let keys := key <$> route_configs (DomainProxies.domains_of (Config.http_Domain cfg) scfg)
                        (Config.http_Locations cfg) (Config.http_RouteByHTTPUser cfg) f in
  let available := NoDup keys ∧ ∀ k, k ∈ keys → route s k = None in
  match HTTP_Run s name cfg scfg f with
  | (s', closeFuncs, Ok _) =>
      available ∧ (∀ k, k ∈ keys → is_Some (route s' k)) ∧
      (∀ k, k ∉ keys → route s' k = route s k) ∧
      ∀ k, route (HTTP_Close name s' closeFuncs) k = route s k
  | (s', _, Err e) =>
      e = ErrRoute Vhost.ErrRouterConfigConflict ∧ ¬ available ∧ ∀ k, route s' k = route s k
  end.
Proof.
  intros Hwf Hg. cbn zeta. unfold HTTP_Run. rewrite Hg. set (rcs := route_configs _ _ _ _).
  destruct (register_all s name "" _ rcs []) as [[s' fns] oe] eqn:Hl.
  apply (register_all_plain s s name _ rcs []) in Hl as
    (all & -> & Hwf' & Hnd & Hnew & Hsome & Hsame & Hoe); try done;
    [|by constructor|by intros k ?%not_elem_of_nil|set_solver].
  assert (∀ k, route (HTTP_Close name s' (UnRegisterRoute <$> all)) k = route s k) as Hclose.
  { intros k. rewrite HTTP_Close_route by done. case_decide as Hk; [by rewrite Hnew|by apply Hsame]. }
  destruct oe as [e|].
  - destruct Hoe as [-> Hna]. by split_and!.
  - subst all. simpl in *. split_and!; try done. intros k Hk. apply Hsome. by left.
Qed.

Lemma ctl_Register_one s name grp groupKey rc s' o :
  sound s → ctl_Register 1 s name grp groupKey rc = (s', o) →
  ∃ s1 l g r, getOrCreate s grp = (s1, l) ∧ heap s1 !! l = Some g ∧ groups s1 !! grp = Some l ∧
    sound s1 ∧ same s s1 ∧ Register s1 l name grp groupKey rc = (s', r) ∧ o = Some r.
Proof.
  intros Hs. cbn [ctl_Register]. destruct (getOrCreate s grp) as [s1 l] eqn:Hg.
  destruct (getOrCreate_http _ _ _ _ Hs Hg) as (_ & Hcur & Hsame & Hs1 & g & Hh).
  destruct (Register s1 l name grp groupKey rc) as [s2 r] eqn:Hr. intros Ho.
  assert ((s2, Some r) = (s', o)) as [= <- <-].
  { destruct r as [|e]; [done|]. apply (Register_http _ _ g) in Hr; [|done..].
    destruct Hr as [_ Hne]. by destruct e. }
  exists s1, l, g, r. by split_and!.
Qed.

(** An http proxy in a group runs only with one route: with two or more
    pairs of domain and location, Run fails whatever the state of the group,
    because the group takes a proxy once, and leaves the routes and the members
    of all groups as they were. With one pair it is the outcome of registering
    in the group, undone by Close. *)
Theorem http_group_one_route (s : Ctl) (name : string) (cfg : Config.HTTPProxyConfig)
    (scfg : Config.ServerConfig) (f : F) :
  sound s → Config.Group (Config.LoadBalancer (Config.http_base cfg)) ≠ "" →
  match HTTP_Run s name cfg scfg f with
  | (s', closeFuncs, Ok _) =>
      (length (route_configs (DomainProxies.domains_of (Config.http_Domain cfg) scfg)
                 (Config.http_Locations cfg) (Config.http_RouteByHTTPUser cfg) f) ≤ 1)%nat ∧
      same s (HTTP_Close name s' closeFuncs)
  | (s', _, Err _) => same s s'
  end.
Proof.
  intros Hs Hg. unfold HTTP_Run. set (grp := Config.Group _) in *. set (rcs := route_configs _ _ _ _).
  destruct rcs as [|rc1 rcs]; [simpl; split; [lia|done]|].
  cbn [register_all]. unfold register_one. rewrite (proj2 (String.eqb_neq _ _) Hg). cbn [negb].
  destruct (ctl_Register 1 s name grp _ rc1) as [s2 o] eqn:H1.
  destruct (ctl_Register_one _ _ _ _ _ _ _ Hs H1) as (s1 & l & g & r & _ & Hh & Hcur & Hs1 & [Hsr Hsm] & Hr & ->).
  pose proof Hr as Hr'. apply (Register_http _ _ g) in Hr'; [|done..].
  assert (∀ s', same s1 s' → same s s') as Htrans.
  { intros s' [Hr1 Hm1]. split; [intros k; by rewrite Hr1|intros gr nm; by rewrite Hm1]. }
  destruct r as [[]|e]; [|destruct Hr' as [-> _]; by apply Htrans].
  apply (Register_undo _ _ g) in Hr; [|done..]. apply Htrans in Hr.
  destruct rcs as [|rc2 rcs]; [simpl; split; [lia|exact Hr]|].
  destruct Hr' as (g1 & router & Heq & _ & Hf1 & _).
  cbn [register_all]. unfold register_one. rewrite (proj2 (String.eqb_neq _ _) Hg). cbn [negb ctl_Register].
  assert (groups s2 !! grp = Some l) as Hcur2 by by rewrite Heq.
  assert (heap s2 !! l = Some g1) as Hh2 by (rewrite Heq; simpl; by rewrite lookup_insert_eq).
  assert (getOrCreate s2 grp = (s2, l)) as -> by (unfold getOrCreate; by rewrite Hcur2).
  destruct (Register_twice s2 l g1 name grp (Config.GroupKey (Config.LoadBalancer (Config.http_base cfg))) rc2)
    as (e & -> & Hne); [done..| |].
  { rewrite Hf1, lookup_insert_eq. eauto. }
  by destruct e.
Qed.
End Proxies.

(** ** Witnesses *)

Definition demo_http (group : string) (locations : list string) : Config.HTTPProxyConfig :=
  Config.mkHTTP (Config.mkProxyBase "web" "http" None ∅
      (Config.Transport Config.zero_base) ∅ (Config.mkLoadBalancer group "") (Config.HealthCheck Config.zero_base)
      (Config.Backend Config.zero_base))
    (Config.mkDomainConfig ["www.example.com"] "web") locations "" "" "" Config.zero_headers
    Config.zero_headers "".

Lemma http_run_plain_witness :
  is_ok (HTTP_Run (F := nat) NewCtl "web" (demo_http "" ["/a"; "/b"]) Config.demo_server 7%nat).2 = true ∧
  ∀ k, route (HTTP_Close "web" (HTTP_Run (F := nat) NewCtl "web" (demo_http "" ["/a"; "/b"]) Config.demo_server 7%nat).1.1
    (HTTP_Run (F := nat) NewCtl "web" (demo_http "" ["/a"; "/b"]) Config.demo_server 7%nat).1.2) k = route (F := nat) NewCtl k.
Proof.
  split; [by vm_compute|].
  pose proof (http_run_plain (F := nat) NewCtl "web" (demo_http "" ["/a"; "/b"]) Config.demo_server 7%nat
    Vhost.wf_New eq_refl) as Hrun.
  destruct (HTTP_Run NewCtl "web" _ _ _) as [[s' fns] [a|e]] eqn:Hr; [apply Hrun|].
  exfalso. apply (f_equal (λ x, is_ok x.2)) in Hr. vm_compute in Hr. discriminate.
Defined.

Lemma http_new_sound : sound (F := nat) NewCtl.
Proof. apply http_sound_reachable. constructor. Qed.

Lemma http_group_one_route_witness :
  (HTTP_Run (F := nat) NewCtl "web" (demo_http "g" ["/a"; "/b"]) Config.demo_server 7%nat).2 =
    Err ErrGroupParamsInvalid ∧
  same NewCtl (HTTP_Run (F := nat) NewCtl "web" (demo_http "g" ["/a"; "/b"]) Config.demo_server 7%nat).1.1.
Proof.
  split; [by vm_compute|].
  pose proof (http_group_one_route (F := nat) NewCtl "web" (demo_http "g" ["/a"; "/b"]) Config.demo_server 7%nat
    http_new_sound ltac:(done)) as Hrun.
  destruct (HTTP_Run NewCtl "web" _ _ _) as [[s' fns] [a|e]] eqn:Hr; [|exact Hrun].
  exfalso. apply (f_equal (λ x, is_ok x.2)) in Hr. vm_compute in Hr. discriminate.
Defined.
End HTTPProxies.
