(* ===== verification/Health.v ===== *)
(** The health checks of a client's proxies, client/health/health.go: the
    monitor of one proxy, which calls back when the state of the local service
    changes. A round of [checkWorker] is a function of the outcome of the
    check; the dialling and the HTTP request are not modelled. *)
From Stdlib Require Import ZArith Lia Ascii String.
From stdpp Require Import base gmap strings list.
From S2P Require Import Prelude GoLib Wire Msg Ports ConfigTypes Config.

Local Open Scope Z_scope.

Module Health.

Definition Second : Z := 10 ^ 9.

Record Monitor := mkMonitor {
  checkType : string; interval : Z; timeout : Z; maxFailedTimes : Z; addr : string; url : string;
  failedTimes : Z; statusOK : bool }.

Definition NewMonitor (cfg : Config.HealthCheckConfig) (addr : string) : Monitor :=
  let positive (v dflt : Z) := if v <=? 0 then dflt else v in
  let path := Config.health_Path cfg in
  mkMonitor (Config.health_Type cfg)
    (positive (Config.IntervalSeconds cfg) 10 * Second)
    (positive (Config.TimeoutSeconds cfg) 3 * Second)
    (positive (Config.MaxFailed cfg) 1) addr
    (if String.eqb (Config.health_Type cfg) "http" && negb (String.eqb path "")
     then "http://" +:+ addr +:+ (if HasPrefix path "/" then "" else "/") +:+ path
     else "")
    0 false.

(** The callback a round makes. *)
Inductive callback := StatusNormal | StatusFailed.

(** [int(monitor.failedTimes)] of a uint64. *)
Definition int_of_uint64 (z : Z) : Z := if z <? 2 ^ 63 then z else z - 2 ^ 64.

(** One round of [checkWorker] after [doCheck] has returned; both callbacks are
    set by [NewWrapper]. *)
Definition check_round (m : Monitor) (success : bool) : Monitor * option callback :=
  let set (failed : Z) (ok : bool) :=
    mkMonitor (checkType m) (interval m) (timeout m) (maxFailedTimes m) (addr m) (url m) failed ok in
  if success then
    if negb (statusOK m) then (set (failedTimes m) true, Some StatusNormal)
    else (m, None)
  else
    let failed := wrap64 (failedTimes m + 1) in
    if statusOK m && (maxFailedTimes m <=? int_of_uint64 failed)
    then (set failed false, Some StatusFailed)
    else (set failed (statusOK m), None).

(** The rounds of a run of checks, with the callbacks made. *)
Fixpoint rounds (m : Monitor) (outcomes : list bool) : Monitor * list callback :=
  match outcomes with
  | [] => (m, [])
  | b :: rest =>
      let '(m, c) := check_round m b in
      let '(m, cs) := rounds m rest in
      (m, match c with Some c => c :: cs | None => cs end)
  end.

(** ** Runs *)

Definition failures (outcomes : list bool) : Z :=
  Z.of_nat (length (filter (λ b, b = false) outcomes)).

Lemma failures_cons b l : failures (b :: l) = (if b then 0 else 1) + failures l.
Proof.
  unfold failures. rewrite filter_cons. destruct b; [rewrite decide_False by done; lia|].
  rewrite decide_True by done. simpl. lia.
Qed.

Lemma failures_nonneg l : 0 ≤ failures l.
Proof. unfold failures. lia. Qed.

(** As long as the counter does not overflow it is the number of failures. *)
Lemma check_round_counts m b :
  0 ≤ failedTimes m < 2 ^ 62 →
  let '(m', c) := check_round m b in
  failedTimes m' = failedTimes m + (if b then 0 else 1) ∧ maxFailedTimes m' = maxFailedTimes m ∧
  statusOK m' = (if b then true else statusOK m && negb (maxFailedTimes m <=? failedTimes m + 1)) ∧
  c = (if b then if statusOK m then None else Some StatusNormal
       else if statusOK m && (maxFailedTimes m <=? failedTimes m + 1) then Some StatusFailed else None).
Proof.
  intros Hf. unfold check_round. destruct b.
  - destruct (statusOK m) eqn:Hok; simpl; split_and!; try done; lia.
  - assert (wrap64 (failedTimes m + 1) = failedTimes m + 1) as ->
      by (unfold wrap64; rewrite Z.mod_small; lia).
    assert (int_of_uint64 (failedTimes m + 1) = failedTimes m + 1) as ->.
    { unfold int_of_uint64. by rewrite (proj2 (Z.ltb_lt _ _)) by lia. }
    destruct (statusOK m), (_ <=? _); simpl; by split_and!.
Qed.

Lemma rounds_app m l1 l2 :
  rounds m (l1 ++ l2) =
  let '(m1, c1) := rounds m l1 in let '(m2, c2) := rounds m1 l2 in (m2, c1 ++ c2).
Proof.
  revert m. induction l1 as [|b l1 IH]; intros m; simpl.
  - by destruct (rounds m l2).
  - destruct (check_round m b) as [m1 c]. rewrite IH. destruct (rounds m1 l1) as [m2 c2].
    destruct (rounds m2 l2). by destruct c.
Qed.

Lemma rounds_counts m l :
  0 ≤ failedTimes m → failedTimes m + failures l < 2 ^ 62 →
  let m' := (rounds m l).1 in
  failedTimes m' = failedTimes m + failures l ∧ maxFailedTimes m' = maxFailedTimes m.
Proof.
  revert m. induction l as [|b l IH]; intros m H0 Hl; simpl; [unfold failures; simpl; lia|].
  rewrite failures_cons in Hl |- *. pose proof (failures_nonneg l).
  pose proof (check_round_counts m b) as Hc. destruct (check_round m b) as [m1 c] eqn:Hr.
  destruct Hc as (Hf & Hm & _); [destruct b; lia|].
  destruct (IH m1) as [H1 H2]; [destruct b; lia..|].
  destruct (rounds m1 l) as [m2 cs]. simpl in *. destruct c; simpl; lia.
Qed.

(** Callbacks alternate, the first one being of the state that is not the
    current one. *)
Fixpoint alternates (ok : bool) (cs : list callback) : Prop :=
  match cs with
  | [] => True
  | c :: cs => c = (if ok then StatusFailed else StatusNormal) ∧ alternates (negb ok) cs
  end.

Definition after (ok : bool) (cs : list callback) : bool :=
  match last cs with None => ok | Some StatusNormal => true | Some StatusFailed => false end.

Lemma check_round_status m b :
  let '(m', c) := check_round m b in
  match c with
  | None => statusOK m' = statusOK m
  | Some c => c = (if statusOK m then StatusFailed else StatusNormal) ∧ statusOK m' = negb (statusOK m)
  end.
Proof.
  unfold check_round. destruct b, (statusOK m) eqn:Hok; simpl; try done.
  by destruct (_ <=? _).
Qed.

Lemma last_cons_some {A} (x : A) l : last (x :: l) = match last l with None => Some x | Some y => Some y end.
Proof. revert x. induction l as [|y l IH]; intros x; [done|]. simpl. rewrite IH. by destruct (last l). Qed.

(** ** Properties *)

(** The monitor's callbacks alternate between normal and failed, starting
    with normal, and the last one tells the monitor's status, so whoever keeps
    the last callback knows the status. *)
Theorem callbacks_alternate (m : Monitor) (outcomes : list bool) :
  alternates (statusOK m) (rounds m outcomes).2 ∧
  statusOK (rounds m outcomes).1 = after (statusOK m) (rounds m outcomes).2.
Proof.
  revert m. induction outcomes as [|b l IH]; intros m; simpl; [done|].
  pose proof (check_round_status m b) as Hc. destruct (check_round m b) as [m1 c].
  specialize (IH m1). destruct (rounds m1 l) as [m2 cs]. simpl in *. destruct IH as [IH1 IH2].
  destruct c as [c|]; [destruct Hc as [-> Hs]|]; rewrite <-?Hc in *; [|done].
  simpl. rewrite Hs in IH1, IH2. split_and!; [done|done|]. rewrite IH2. unfold after.
  rewrite last_cons_some. destruct (last cs); [done|]. by destruct (statusOK m).
Qed.

(** The number of failures the monitor compares with the limit is that of
    all failures since the start, successes in between or not: the monitor of a
    healthy service reports a failure as soon as a check fails and the failures
    of the whole run have reached the limit. *)
Theorem failures_accumulate (cfg : Config.HealthCheckConfig) (a : string) (outcomes : list bool) :
  failures outcomes < 2 ^ 61 →
  let m := NewMonitor cfg a in
  let limit := if Config.MaxFailed cfg <=? 0 then 1 else Config.MaxFailed cfg in
  let m1 := (rounds m (outcomes ++ [true])).1 in
  statusOK m1 = true ∧
  (check_round m1 false).2 =
    (if limit <=? failures outcomes + 1 then Some StatusFailed else None).
Proof.
  intros Hf. cbn zeta. rewrite rounds_app.
  pose proof (rounds_counts (NewMonitor cfg a) outcomes) as Hc.
  destruct (rounds (NewMonitor cfg a) outcomes) as [m2 cs]. simpl in Hc.
  destruct Hc as [Hft Hmx]; [lia..|]. rewrite Z.add_0_l in Hft. pose proof (failures_nonneg outcomes).
  cbn [rounds]. pose proof (check_round_counts m2 true) as H1.
  destruct (check_round m2 true) as [m3 c3]. destruct H1 as (Hf3 & Hm3 & Hok & _); [lia|].
  cbn [fst]. split; [done|]. pose proof (check_round_counts m3 false) as H2.
  destruct (check_round m3 false) as [m4 c4]. destruct H2 as (_ & _ & _ & ->); [lia|].
  cbn [snd]. rewrite Hok, Hm3, Hmx, Hf3, Hft. simpl. by rewrite Z.add_0_r.
Qed.

(** ** Witnesses *)

Definition demo_cfg : Config.HealthCheckConfig := Config.mkHealthCheck "tcp" 3 3 10 "" [].

(** Three failures, never two in a row, reach a limit of three. *)
Lemma failures_accumulate_witness :
  failures [true; false; true; false] = 2 ∧
  (check_round (rounds (NewMonitor demo_cfg "") [true; false; true; false; true]).1 false).2 =
    Some StatusFailed.
Proof.
  split; [done|].
  exact (proj2 (failures_accumulate demo_cfg "" [true; false; true; false] eq_refl)).
Defined.

End Health.
