(* ===== verification/ClientProxies.v ===== *)
(** The proxies of a client: client/proxy/proxy_wrapper.go and
    proxy_manager.go, with the wire names of pkg/naming/names.go.

    A wrapper is the state machine of one proxy. Wrappers are objects that
    outlive their place in the manager's table: the goroutine of a replaced one
    goes on until it sees that it was stopped. What they send to the server is
    returned by the operations, in order. *)
From Stdlib Require Import ZArith Lia Ascii String.
From stdpp Require Import base gmap strings list fin_maps relations.
From S2P Require Import Prelude GoLib Wire Msg Ports ConfigTypes Config Health.

Local Open Scope Z_scope.

Module ClientProxies.
Import Config.

(** ** Names *)

Definition AddUserPrefix (user name : string) : string :=
  if String.eqb user "" then name else user +:+ "." +:+ name.

Definition StripUserPrefix (user name : string) : string :=
  if String.eqb user "" then name
  else match CutPrefix name (user +:+ ".") with Some trimmed => trimmed | None => name end.

Definition BuildTargetServerProxyName (localUser serverUser serverName : string) : string :=
  if String.eqb serverUser "" then AddUserPrefix localUser serverName
  else AddUserPrefix serverUser serverName.

(** ** Equality of configurations

    [reflect.DeepEqual], except that a nil map or slice equals an empty one. *)

#[export] Instance BandwidthQuantity_eq_dec : EqDecision ConfigTypes.BandwidthQuantity.
Proof. solve_decision. Defined.
#[export] Instance HeaderOperations_eq_dec : EqDecision HeaderOperations.
Proof. solve_decision. Defined.
#[export] Instance HTTP2HTTPSPluginOptions_eq_dec : EqDecision HTTP2HTTPSPluginOptions.
Proof. solve_decision. Defined.
#[export] Instance HTTPProxyPluginOptions_eq_dec : EqDecision HTTPProxyPluginOptions.
Proof. solve_decision. Defined.
#[export] Instance HTTPS2HTTPPluginOptions_eq_dec : EqDecision HTTPS2HTTPPluginOptions.
Proof. solve_decision. Defined.
#[export] Instance HTTPS2HTTPSPluginOptions_eq_dec : EqDecision HTTPS2HTTPSPluginOptions.
Proof. solve_decision. Defined.
#[export] Instance HTTP2HTTPPluginOptions_eq_dec : EqDecision HTTP2HTTPPluginOptions.
Proof. solve_decision. Defined.
#[export] Instance Socks5PluginOptions_eq_dec : EqDecision Socks5PluginOptions.
Proof. solve_decision. Defined.
#[export] Instance StaticFilePluginOptions_eq_dec : EqDecision StaticFilePluginOptions.
Proof. solve_decision. Defined.
#[export] Instance UnixDomainSocketPluginOptions_eq_dec : EqDecision UnixDomainSocketPluginOptions.
Proof. solve_decision. Defined.
#[export] Instance TLS2RawPluginOptions_eq_dec : EqDecision TLS2RawPluginOptions.
Proof. solve_decision. Defined.
#[export] Instance VirtualNetPluginOptions_eq_dec : EqDecision VirtualNetPluginOptions.
Proof. solve_decision. Defined.
#[export] Instance ClientPluginOptions_eq_dec : EqDecision ClientPluginOptions.
Proof. solve_decision. Defined.
#[export] Instance TypedClientPluginOptions_eq_dec : EqDecision TypedClientPluginOptions.
Proof. solve_decision. Defined.
#[export] Instance ProxyTransport_eq_dec : EqDecision ProxyTransport.
Proof. solve_decision. Defined.
#[export] Instance LoadBalancerConfig_eq_dec : EqDecision LoadBalancerConfig.
Proof. solve_decision. Defined.
#[export] Instance ProxyBackend_eq_dec : EqDecision ProxyBackend.
Proof. solve_decision. Defined.
#[export] Instance HTTPHeader_eq_dec : EqDecision HTTPHeader.
Proof. solve_decision. Defined.
#[export] Instance HealthCheckConfig_eq_dec : EqDecision HealthCheckConfig.
Proof. solve_decision. Defined.
#[export] Instance DomainConfig_eq_dec : EqDecision DomainConfig.
Proof. solve_decision. Defined.
#[export] Instance ProxyBaseConfig_eq_dec : EqDecision ProxyBaseConfig.
Proof. solve_decision. Defined.
#[export] Instance NatTraversalConfig_eq_dec : EqDecision NatTraversalConfig.
Proof. solve_decision. Defined.
#[export] Instance TCPProxyConfig_eq_dec : EqDecision TCPProxyConfig.
Proof. solve_decision. Defined.
#[export] Instance UDPProxyConfig_eq_dec : EqDecision UDPProxyConfig.
Proof. solve_decision. Defined.
#[export] Instance TCPUDPProxyConfig_eq_dec : EqDecision TCPUDPProxyConfig.
Proof. solve_decision. Defined.
#[export] Instance HTTPProxyConfig_eq_dec : EqDecision HTTPProxyConfig.
Proof. solve_decision. Defined.
#[export] Instance HTTPSProxyConfig_eq_dec : EqDecision HTTPSProxyConfig.
Proof. solve_decision. Defined.
#[export] Instance MCProxyConfig_eq_dec : EqDecision MCProxyConfig.
Proof. solve_decision. Defined.
#[export] Instance PEProxyConfig_eq_dec : EqDecision PEProxyConfig.
Proof. solve_decision. Defined.
#[export] Instance TCPMuxProxyConfig_eq_dec : EqDecision TCPMuxProxyConfig.
Proof. solve_decision. Defined.
#[export] Instance STCPProxyConfig_eq_dec : EqDecision STCPProxyConfig.
Proof. solve_decision. Defined.
#[export] Instance SUDPProxyConfig_eq_dec : EqDecision SUDPProxyConfig.
Proof. solve_decision. Defined.
#[export] Instance XTCPProxyConfig_eq_dec : EqDecision XTCPProxyConfig.
Proof. solve_decision. Defined.
#[export] Instance XUDPProxyConfig_eq_dec : EqDecision XUDPProxyConfig.
Proof. solve_decision. Defined.
#[export] Instance XTCPXUDPProxyConfig_eq_dec : EqDecision XTCPXUDPProxyConfig.
Proof. solve_decision. Defined.
#[export] Instance STCPSUDPProxyConfig_eq_dec : EqDecision STCPSUDPProxyConfig.
Proof. solve_decision. Defined.
#[export] Instance ProxyConfigurer_eq_dec : EqDecision ProxyConfigurer.
Proof. solve_decision. Defined.

(** ** Wrappers *)

Inductive Phase :=
| ProxyPhaseNew | ProxyPhaseWaitStart | ProxyPhaseStartErr | ProxyPhaseRunning
| ProxyPhaseCheckFailed | ProxyPhaseClosed.

#[export] Instance Phase_eq_dec : EqDecision Phase.
Proof. solve_decision. Defined.

Definition waitResponseTimeout : Z := 20 * Health.Second.
Definition startErrTimeout : Z := 30 * Health.Second.

Record Wrapper := mkWrapper {
  w_Cfg : ProxyConfigurer; w_Phase : Phase; w_Err : string; w_RemoteAddr : string;
  monitor : option Health.Monitor; health : Z; lastSendStartMsg : Z; lastStartErr : Z;
  wireName : string }.

(** What a wrapper hands to the manager's [HandleEvent], which sends it. *)
Inductive event := StartProxyPayload (m : Msg.NewProxy) | CloseProxyPayload (name : string).

Definition set_Phase (w : Wrapper) (p : Phase) : Wrapper :=
  mkWrapper (w_Cfg w) p (w_Err w) (w_RemoteAddr w) (monitor w) (health w) (lastSendStartMsg w)
    (lastStartErr w) (wireName w).

Definition NewWrapper (cfg : ProxyConfigurer) (user : string) : Wrapper :=
  let base := GetBaseConfig cfg in
  let checked := negb (String.eqb (health_Type (HealthCheck base)) "") && (0 <? LocalPort (Backend base)) in
  mkWrapper cfg ProxyPhaseNew "" ""
    (if checked
     then Some (Health.NewMonitor (HealthCheck base)
                  (JoinHostPort (LocalIP (Backend base)) (Itoa (LocalPort (Backend base)))))
     else None)
    (if checked then 1 else 0) 0 0 (AddUserPrefix user (Name base)).

(** [newProxyMsg.ProxyName = pw.wireName] *)
Definition put_ProxyName (name : string) (m : Msg.NewProxy) : Msg.NewProxy :=
  let '(Msg.mkNewProxy _ a2 a3 a4 a5 a6 a7 a8 a9 a10 p b1 b2 b3 b4 b5 b6 b7 b8 b9 b10 b11 b12) := m in
  Msg.mkNewProxy name a2 a3 a4 a5 a6 a7 a8 a9 a10 p b1 b2 b3 b4 b5 b6 b7 b8 b9 b10 b11 b12.

Definition start_msg (w : Wrapper) : Msg.NewProxy :=
  put_ProxyName (wireName w) (MarshalToMsg (w_Cfg w) zero_msg).

(** One round of [checkWorker] at time [now]. *)
Definition check_round (now : Z) (w : Wrapper) : Wrapper * list event :=
  if health w =? 0 then
    let due :=
      match w_Phase w with
      | ProxyPhaseNew | ProxyPhaseCheckFailed => true
      | ProxyPhaseWaitStart => lastSendStartMsg w + waitResponseTimeout <? now
      | ProxyPhaseStartErr => lastStartErr w + startErrTimeout <? now
      | ProxyPhaseRunning | ProxyPhaseClosed => false
      end in
    if due then
      (mkWrapper (w_Cfg w) ProxyPhaseWaitStart (w_Err w) (w_RemoteAddr w) (monitor w) (health w) now
         (lastStartErr w) (wireName w), [StartProxyPayload (start_msg w)])
    else (w, [])
  else
    match w_Phase w with
    | ProxyPhaseRunning | ProxyPhaseWaitStart =>
        (set_Phase w ProxyPhaseCheckFailed, [CloseProxyPayload (wireName w)])
    | _ => (w, [])
    end.

(** [SetRunningStatus] at time [now]; [runErr] is the outcome of [pw.pxy.Run].
    The last component is the error returned. *)
Definition SetRunningStatus (now : Z) (w : Wrapper) (remoteAddr respErr : string)
    (runErr : option string) : Wrapper * list event * option string :=
  let failed (e : string) :=
    mkWrapper (w_Cfg w) ProxyPhaseStartErr e remoteAddr (monitor w) (health w)
      (lastSendStartMsg w) now (wireName w) in
  if negb (bool_decide (w_Phase w = ProxyPhaseWaitStart))
  then (w, [], Some "status not wait start, ignore start message")
  else if negb (String.eqb respErr "") then (failed respErr, [], Some respErr)
  else match runErr with
       | Some e => (failed e, [CloseProxyPayload (wireName w)], Some e)
       | None =>
           (mkWrapper (w_Cfg w) ProxyPhaseRunning "" remoteAddr (monitor w) (health w)
              (lastSendStartMsg w) (lastStartErr w) (wireName w), [], None)
       end.

Definition Stop (w : Wrapper) : Wrapper * list event :=
  (set_Phase w ProxyPhaseClosed, [CloseProxyPayload (wireName w)]).

(** A round of the health monitor and the callback it makes. *)
Definition set_health (w : Wrapper) (m : option Health.Monitor) (h : Z) : Wrapper :=
  mkWrapper (w_Cfg w) (w_Phase w) (w_Err w) (w_RemoteAddr w) m h (lastSendStartMsg w)
    (lastStartErr w) (wireName w).
Definition statusNormalCallback (w : Wrapper) : Wrapper := set_health w (monitor w) 0.
Definition statusFailedCallback (w : Wrapper) : Wrapper := set_health w (monitor w) 1.
Definition monitor_round (w : Wrapper) (success : bool) : Wrapper :=
  match monitor w with
  | None => w
  | Some m =>
      let '(m, c) := Health.check_round m success in
      let w := set_health w (Some m) (health w) in
      match c with
      | Some Health.StatusNormal => statusNormalCallback w
      | Some Health.StatusFailed => statusFailedCallback w
      | None => w
      end
  end.

(** [InWorkConn]: whether a work connection is handed to the proxy. *)
Definition InWorkConn (w : Wrapper) : bool := bool_decide (w_Phase w = ProxyPhaseRunning).

(** ** The manager *)

Record Manager := mkManager {
  proxies : gmap string nat;        (* the wrapper of a name *)
  wrappers : gmap nat Wrapper;      (* all wrappers created so far *)
  next : nat }.

Definition NewManager : Manager := mkManager ∅ ∅ 0.

Definition cfg_name (c : ProxyConfigurer) : string := Name (GetBaseConfig c).

(** [lo.KeyBy]: of several configurations with a name, the last one. *)
Definition KeyBy (cfgs : list ProxyConfigurer) (name : string) : option ProxyConfigurer :=
  last (filter (λ c, cfg_name c = name) cfgs).

Section Manager.
Context (user : string).

(** Stopping the wrapper with this identity. *)
Definition stop_at (m : Manager) (id : nat) : Manager * list event :=
  match wrappers m !! id with
  | None => (m, [])
  | Some w =>
      let '(w', evs) := Stop w in
      (mkManager (proxies m) (<[id := w']> (wrappers m)) (next m), evs)
  end.

Definition outdated (m : Manager) (cfgs : list ProxyConfigurer) (name : string) (id : nat) : bool :=
  match KeyBy cfgs name, wrappers m !! id with
  | Some cfg, Some w => negb (bool_decide (w_Cfg w = cfg))
  | _, _ => true
  end.

(** The first loop of [UpdateAll], over the table in some order. *)
Fixpoint remove_loop (m : Manager) (cfgs : list ProxyConfigurer) (order : list (string * nat)) :
    Manager * list event :=
  match order with
  | [] => (m, [])
  | (name, id) :: rest =>
      if outdated m cfgs name id then
        let '(m, evs1) := stop_at (mkManager (delete name (proxies m)) (wrappers m) (next m)) id in
        let '(m, evs2) := remove_loop m cfgs rest in
        (m, evs1 ++ evs2)
      else remove_loop m cfgs rest
  end.

(** The second loop of [UpdateAll]. *)
Fixpoint add_loop (m : Manager) (cfgs : list ProxyConfigurer) : Manager :=
  match cfgs with
  | [] => m
  | cfg :: rest =>
      match proxies m !! cfg_name cfg with
      | Some _ => add_loop m rest
      | None =>
          add_loop (mkManager (<[cfg_name cfg := next m]> (proxies m))
                      (<[next m := NewWrapper cfg user]> (wrappers m)) (S (next m))) rest
      end
  end.

Definition UpdateAll (m : Manager) (order : list (string * nat)) (cfgs : list ProxyConfigurer) :
    Manager * list event :=
  let '(m, evs) := remove_loop m cfgs order in
  (add_loop m cfgs, evs).

(** [Manager.Close]. *)
Fixpoint close_loop (m : Manager) (order : list (string * nat)) : Manager * list event :=
  match order with
  | [] => (m, [])
  | (_, id) :: rest =>
      let '(m, evs1) := stop_at m id in
      let '(m, evs2) := close_loop m rest in
      (m, evs1 ++ evs2)
  end.
Definition Close (m : Manager) (order : list (string * nat)) : Manager * list event :=
  let '(m, evs) := close_loop m order in
  (mkManager ∅ (wrappers m) (next m), evs).

(** [StartProxy], on a response of the server. *)
Definition StartProxy (now : Z) (m : Manager) (name remoteAddr serverRespErr : string)
    (runErr : option string) : Manager * list event * option string :=
  match proxies m !! name with
  | None => (m, [], Some ("proxy [" +:+ name +:+ "] not found"))
  | Some id =>
      match wrappers m !! id with
      | None => (m, [], None)
      | Some w =>
          let '(w', evs, err) := SetRunningStatus now w remoteAddr serverRespErr runErr in
          (mkManager (proxies m) (<[id := w']> (wrappers m)) (next m), evs, err)
      end
  end.

(** The rounds of a wrapper's goroutines. *)
Definition check_at (now : Z) (m : Manager) (id : nat) : Manager * list event :=
  match wrappers m !! id with
  | None => (m, [])
  | Some w =>
      let '(w', evs) := check_round now w in
      (mkManager (proxies m) (<[id := w']> (wrappers m)) (next m), evs)
  end.
Definition monitor_at (m : Manager) (id : nat) (success : bool) : Manager :=
  match wrappers m !! id with
  | None => m
  | Some w => mkManager (proxies m) (<[id := monitor_round w success]> (wrappers m)) (next m)
  end.

(** [HandleWorkConn]. *)
Definition HandleWorkConn (m : Manager) (name : string) : bool :=
  match proxies m !! name with
  | None => false
  | Some id => match wrappers m !! id with None => false | Some w => InWorkConn w end
  end.

(** ** The table and its wrappers *)

Record wf (m : Manager) : Prop := {
  wf_table : ∀ name id, proxies m !! name = Some id → ∃ w, wrappers m !! id = Some w ∧
    cfg_name (w_Cfg w) = name ∧ w_Phase w ≠ ProxyPhaseClosed;
  wf_inj : ∀ n1 n2 id, proxies m !! n1 = Some id → proxies m !! n2 = Some id → n1 = n2;
  wf_listed : ∀ id w, wrappers m !! id = Some w → w_Phase w ≠ ProxyPhaseClosed →
    ∃ name, proxies m !! name = Some id;
  wf_next : ∀ id, is_Some (wrappers m !! id) → (id < next m)%nat;
  wf_wire : ∀ id w, wrappers m !! id = Some w → wireName w = AddUserPrefix user (cfg_name (w_Cfg w))
}.

Lemma wf_NewManager : wf NewManager.
Proof.
  split; simpl; try done; intros *; rewrite ?lookup_empty; try done.
Qed.

(** A wrapper changes without being closed or opened again. *)
Lemma wf_update m id w w' :
  wf m → wrappers m !! id = Some w → w_Cfg w' = w_Cfg w → wireName w' = wireName w →
  (w_Phase w' = ProxyPhaseClosed ↔ w_Phase w = ProxyPhaseClosed) →
  wf (mkManager (proxies m) (<[id := w']> (wrappers m)) (next m)).
Proof.
  intros [Ht Hj Hl Hn Hw] Hid Hc Hwn Hp. split; simpl; try done.
  - intros name i Hi. rewrite lookup_insert. case_decide as Heq; [|by apply Ht].
    subst. destruct (Ht name i Hi) as (w0 & H0 & ? & ?). assert (w0 = w) as -> by congruence.
    exists w'. split_and!; [done|by rewrite Hc|tauto].
  - intros i x. rewrite lookup_insert. case_decide as Heq; [|by apply Hl].
    subst. intros [= <-] Hx. apply (Hl i w Hid). tauto.
  - intros i. rewrite lookup_insert. case_decide as Heq; [|by apply Hn]. subst. intros _. apply Hn. eauto.
  - intros i x. rewrite lookup_insert. case_decide as Heq; [|by apply Hw].
    intros [= <-]. subst. rewrite Hwn, Hc. by apply (Hw i).
Qed.

Lemma check_round_keeps now w :
  let w' := (check_round now w).1 in
  w_Cfg w' = w_Cfg w ∧ wireName w' = wireName w ∧
  (w_Phase w' = ProxyPhaseClosed ↔ w_Phase w = ProxyPhaseClosed).
Proof.
  unfold check_round. destruct (health w =? 0), (w_Phase w) eqn:Hp; simpl; repeat case_match;
    simpl; rewrite ?Hp; by split_and!.
Qed.

Lemma SetRunningStatus_keeps now w ra re run :
  let w' := (SetRunningStatus now w ra re run).1.1 in
  w_Cfg w' = w_Cfg w ∧ wireName w' = wireName w ∧
  (w_Phase w' = ProxyPhaseClosed ↔ w_Phase w = ProxyPhaseClosed).
Proof.
  unfold SetRunningStatus. case_bool_decide as Hp; simpl; [|done].
  repeat case_match; simpl; rewrite Hp; by split_and!.
Qed.

Lemma monitor_round_keeps w b :
  let w' := monitor_round w b in
  w_Cfg w' = w_Cfg w ∧ wireName w' = wireName w ∧ w_Phase w' = w_Phase w.
Proof. unfold monitor_round. repeat case_match; done. Qed.

(** A wrapper is taken out of the table and stopped. *)
Lemma wf_stop m name id w :
  wf m → proxies m !! name = Some id → wrappers m !! id = Some w →
  wf (mkManager (delete name (proxies m)) (<[id := (Stop w).1]> (wrappers m)) (next m)).
Proof.
  intros [Ht Hj Hl Hn Hw] Hname Hid. split; simpl.
  - intros n i [Hne Hi]%lookup_delete_Some. rewrite lookup_insert_ne; [by apply Ht|].
    intros <-. apply Hne. by apply (Hj name n id).
  - intros n1 n2 i [_ H1]%lookup_delete_Some [_ H2]%lookup_delete_Some. by apply (Hj n1 n2 i).
  - intros i x. rewrite lookup_insert. case_decide as Heq; [by intros [= <-]|].
    intros Hx Hp. destruct (Hl i x Hx Hp) as [n Hi]. exists n. rewrite lookup_delete_ne; [done|].
    intros <-. congruence.
  - intros i. rewrite lookup_insert. case_decide as Heq; [|by apply Hn]. subst. intros _. apply Hn. eauto.
  - intros i x. rewrite lookup_insert. case_decide as Heq; [|by apply Hw].
    intros [= <-]. subst. simpl. by apply (Hw i).
Qed.

(** A new wrapper is added under a free name. *)
Lemma wf_add m cfg :
  wf m → proxies m !! cfg_name cfg = None →
  wf (mkManager (<[cfg_name cfg := next m]> (proxies m))
        (<[next m := NewWrapper cfg user]> (wrappers m)) (S (next m))).
Proof.
  intros [Ht Hj Hl Hn Hw] Hfree.
  assert (∀ n i, proxies m !! n = Some i → i ≠ next m) as Hne.
  { intros n i Hi ->. destruct (Ht n _ Hi) as (w & Hx & _). assert (next m < next m)%nat by (apply Hn; eauto). lia. }
  split; simpl.
  - intros n i. rewrite lookup_insert. case_decide as Heq.
    + intros [= <-]. subst. eexists. by rewrite lookup_insert_eq.
    + intros Hi. rewrite lookup_insert_ne by (intros Hx; by destruct (Hne n i Hi)). by apply Ht.
  - intros n1 n2 i. rewrite !lookup_insert. repeat case_decide; subst; try done.
    + intros [= <-] Hi. by destruct (Hne n2 (next m) Hi).
    + intros Hi [= <-]. by destruct (Hne n1 (next m) Hi).
    + apply Hj.
  - intros i x. rewrite lookup_insert. case_decide as Heq.
    + intros [= <-] _. subst. exists (cfg_name cfg). by rewrite lookup_insert_eq.
    + intros Hx Hp. destruct (Hl i x Hx Hp) as [n Hi]. exists n. rewrite lookup_insert_ne; [done|congruence].
  - intros i. rewrite lookup_insert. case_decide as Heq; [lia|]. intros Hx%Hn. lia.
  - intros i x. rewrite lookup_insert. case_decide as Heq; [by intros [= <-]|by apply Hw].
Qed.

(** *** The loops of [UpdateAll] *)

Definition removed (m : Manager) (cfgs : list ProxyConfigurer) (order : list (string * nat)) :
    list (string * nat) := filter (λ e, outdated m cfgs e.1 e.2 = true) order.

Lemma remove_loop_spec m cfgs order :
  wf m → NoDup order.*1 → (∀ n i, (n, i) ∈ order → proxies m !! n = Some i) →
  let '(m', evs) := remove_loop m cfgs order in
  let gone := removed m cfgs order in
  wf m' ∧ next m' = next m ∧
  (∀ n, proxies m' !! n = if decide (n ∈ gone.*1) then None else proxies m !! n) ∧
  (∀ i, wrappers m' !! i =
     if decide (i ∈ gone.*2) then (λ w, (Stop w).1) <$> wrappers m !! i else wrappers m !! i) ∧
  evs = (λ e, CloseProxyPayload (AddUserPrefix user e.1)) <$> gone.
Proof.
  revert m. induction order as [|[n i] order IH]; intros m Hwf Hnd Hin; [done|].
  apply NoDup_cons in Hnd as [Hni Hnd]. cbn [remove_loop]. unfold removed. rewrite filter_cons. cbn [fst snd].
  pose proof (Hin n i (list_elem_of_here _ _)) as Hn.
  destruct (outdated m cfgs n i) eqn:Ho; [rewrite decide_True by done|rewrite decide_False by done].
  2:{ apply IH; [done..|]. intros n' i' Hx. apply Hin. by right. }
  destruct (wf_table _ Hwf _ _ Hn) as (w & Hw & Hcn & _). unfold stop_at. cbn [wrappers]. rewrite Hw.
  cbn [Stop proxies next]. set (m1 := mkManager _ _ _).
  assert (wf m1) as Hwf1 by by apply wf_stop.
  assert (∀ n' i', (n', i') ∈ order → proxies m !! n' = Some i' ∧ n' ≠ n ∧ i' ≠ i) as Hord.
  { intros n' i' Hx. assert (proxies m !! n' = Some i') as Hi by (apply Hin; by right).
    assert (n' ≠ n) as Hne by (intros ->; apply Hni; apply list_elem_of_fmap; by exists (n, i')).
    split_and!; [done..|]. intros ->. apply Hne. by apply (wf_inj _ Hwf n' n i). }
  assert (removed m1 cfgs order = removed m cfgs order) as Hsame.
  { unfold removed. apply filter_ext_in. intros [n' i'] Hx. cbn.
    destruct (Hord n' i' Hx) as (_ & _ & Hne). unfold outdated. cbn. by rewrite lookup_insert_ne. }
  specialize (IH m1 Hwf1 Hnd). destruct (remove_loop m1 cfgs order) as [m' evs].
  destruct IH as (Hwf' & Hnx & Hpx & Hwr & Hevs).
  { intros n' i' Hx. destruct (Hord n' i' Hx) as (? & ? & _). cbn. by rewrite lookup_delete_ne. }
  rewrite Hsame in *. fold (removed m cfgs order). split_and!; try done; cbn.
  - intros n'. rewrite Hpx. cbn. destruct (decide (n' = n)) as [->|Hne].
    + rewrite (decide_True (P := n ∈ n :: _)) by left. rewrite lookup_delete_eq. by case_decide.
    + rewrite lookup_delete_ne by done. repeat case_decide; set_solver.
  - intros i'. rewrite Hwr. cbn. destruct (decide (i' = i)) as [->|Hne].
    + rewrite (decide_True (P := i ∈ i :: _)) by left. rewrite lookup_insert_eq, Hw.
      rewrite decide_False; [done|]. intros ([n2 i2] & -> & [_ Hx]%list_elem_of_filter)%list_elem_of_fmap.
      destruct (Hord n2 i2 Hx) as (_ & _ & ?). done.
    + rewrite lookup_insert_ne by done. repeat case_decide; set_solver.
  - rewrite Hevs. f_equal. rewrite (wf_wire _ Hwf _ _ Hw), Hcn. done.
Qed.

Lemma add_loop_spec m cfgs :
  wf m → NoDup (cfg_name <$> cfgs) →
  let m' := add_loop m cfgs in
  wf m' ∧ (next m ≤ next m')%nat ∧
  (∀ n i, proxies m !! n = Some i → proxies m' !! n = Some i) ∧
  (∀ n, n ∉ cfg_name <$> cfgs → proxies m' !! n = proxies m !! n) ∧
  (∀ i, (i < next m)%nat → wrappers m' !! i = wrappers m !! i) ∧
  (∀ c, c ∈ cfgs → proxies m !! cfg_name c = None → ∃ i, (next m ≤ i)%nat ∧
     proxies m' !! cfg_name c = Some i ∧ wrappers m' !! i = Some (NewWrapper c user)).
Proof.
  revert m. induction cfgs as [|c cfgs IH]; intros m Hwf Hnd; simpl.
  { split_and!; try done. by intros ? ?%not_elem_of_nil. }
  simpl in Hnd. apply NoDup_cons in Hnd as [Hc Hnd].
  destruct (proxies m !! cfg_name c) as [i0|] eqn:Hp.
  - destruct (IH m Hwf Hnd) as (H1 & H2 & H3 & H4 & H5 & H6). split_and!; try done.
    + intros n Hn. apply H4. set_solver.
    + intros c' [->|Hin]%elem_of_cons Hnone; [congruence|by apply H6].
  - set (m1 := mkManager _ _ _). assert (wf m1) as Hwf1 by by apply wf_add.
    destruct (IH m1 Hwf1 Hnd) as (H1 & H2 & H3 & H4 & H5 & H6). cbn in *. split_and!; try done.
    + lia.
    + intros n i Hi. apply H3. rewrite lookup_insert_ne; [done|congruence].
    + intros n Hn. rewrite H4 by set_solver. rewrite lookup_insert_ne; [done|set_solver].
    + intros i Hi. rewrite H5 by lia. rewrite lookup_insert_ne; [done|lia].
    + intros c' [->|Hin]%elem_of_cons Hnone.
      * exists (next m). split; [done|]. split; [apply H3; by rewrite lookup_insert_eq|].
        rewrite H5 by lia. by rewrite lookup_insert_eq.
      * destruct (H6 c' Hin) as (i & ? & ? & ?).
        { rewrite lookup_insert_ne; [done|]. intros Heq. apply Hc. rewrite Heq.
          apply list_elem_of_fmap. by exists c'. }
        exists i. split_and!; [lia|done..].
Qed.

Lemma KeyBy_unique cfgs c :
  NoDup (cfg_name <$> cfgs) → c ∈ cfgs → KeyBy cfgs (cfg_name c) = Some c.
Proof.
  unfold KeyBy. intros Hnd Hin. assert (filter (λ x, cfg_name x = cfg_name c) cfgs = [c]) as ->; [|done].
  induction cfgs as [|x cfgs IH]; [by apply not_elem_of_nil in Hin|].
  simpl in Hnd. apply NoDup_cons in Hnd as [Hx Hnd]. rewrite filter_cons. case_decide as Heq.
  - assert (c = x) as ->.
    { apply elem_of_cons in Hin as [|Hin]; [done|]. destruct Hx. rewrite Heq.
      apply list_elem_of_fmap. by exists c. }
    f_equal. apply filter_none. intros y Hy Hyx. apply Hx. rewrite <-Hyx.
    apply list_elem_of_fmap. by exists y.
  - apply elem_of_cons in Hin as [->|Hin]; [done|]. auto.
Qed.

Lemma KeyBy_None cfgs name : name ∉ cfg_name <$> cfgs → KeyBy cfgs name = None.
Proof.
  unfold KeyBy. intros Hn. assert (filter (λ x, cfg_name x = name) cfgs = []) as ->; [|done].
  apply filter_none. intros y Hy <-. apply Hn. apply list_elem_of_fmap. by exists y.
Qed.

(** What [outdated] decides of an entry of the table. *)
Lemma outdated_false m cfgs name id :
  wf m → NoDup (cfg_name <$> cfgs) → proxies m !! name = Some id →
  outdated m cfgs name id = false ↔ ∃ w, wrappers m !! id = Some w ∧ w_Cfg w ∈ cfgs.
Proof.
  intros Hwf Hnd Hp. destruct (wf_table _ Hwf _ _ Hp) as (w & Hw & Hn & _). unfold outdated. rewrite Hw.
  split.
  - destruct (KeyBy cfgs name) as [c|] eqn:Hk; [|done]. case_bool_decide as Hc; [|done]. intros _.
    exists w. split; [done|]. rewrite Hc. unfold KeyBy in Hk.
    apply last_Some_elem_of in Hk. by apply list_elem_of_filter in Hk as [_ ?].
  - intros (w' & [= <-] & Hin). rewrite <-Hn, KeyBy_unique by done. by rewrite bool_decide_true.
Qed.

(** ** Behaviours *)

(** The operations of the manager and of its wrappers' goroutines, with what is
    sent. *)
Inductive cstep : Manager → list event → Manager → Prop :=
| CUpdate m order cfgs :
    order ≡ₚ map_to_list (proxies m) → NoDup (cfg_name <$> cfgs) →
    cstep m (UpdateAll m order cfgs).2 (UpdateAll m order cfgs).1
| CClose m order :
    order ≡ₚ map_to_list (proxies m) → cstep m (Close m order).2 (Close m order).1
| CStart now m name ra re run :
    cstep m (StartProxy now m name ra re run).1.2 (StartProxy now m name ra re run).1.1
| CCheck now m id : cstep m (check_at now m id).2 (check_at now m id).1
| CMonitor m id b : cstep m [] (monitor_at m id b).

Definition creachable (m : Manager) : Prop := rtc (λ m m', ∃ evs, cstep m evs m') NewManager m.

(** The table read in some order. *)
Lemma order_facts (m : Manager) order :
  order ≡ₚ map_to_list (proxies m) →
  NoDup order.*1 ∧ ∀ n i, (n, i) ∈ order ↔ proxies m !! n = Some i.
Proof.
  intros Ho. split; [rewrite Ho; apply NoDup_fst_map_to_list|].
  intros n i. rewrite Ho. apply elem_of_map_to_list.
Qed.

Lemma wf_UpdateAll m order cfgs :
  wf m → order ≡ₚ map_to_list (proxies m) → NoDup (cfg_name <$> cfgs) →
  wf (UpdateAll m order cfgs).1.
Proof.
  intros Hwf [Hnd Hin]%order_facts Hc. unfold UpdateAll.
  pose proof (remove_loop_spec m cfgs order Hwf Hnd (λ n i, proj1 (Hin n i))) as Hr.
  destruct (remove_loop m cfgs order) as [m1 evs]. destruct Hr as (Hwf1 & _).
  by destruct (add_loop_spec m1 cfgs Hwf1 Hc).
Qed.

(** [Close] stops what [UpdateAll] with no configuration would remove. *)
Lemma close_loop_wrappers m order :
  wf m → (∀ n i, (n, i) ∈ order → proxies m !! n = Some i) →
  let m' := (close_loop m order).1 in
  proxies m' = proxies m ∧ next m' = next m ∧
  ∀ i, wrappers m' !! i =
    if decide (i ∈ order.*2) then (λ w, (Stop w).1) <$> wrappers m !! i else wrappers m !! i.
Proof.
  intros Hwf Hin. assert (∀ i, i ∈ order.*2 → is_Some (wrappers m !! i)) as Hs.
  { intros i ([n i'] & -> & Hx)%list_elem_of_fmap. apply Hin in Hx.
    destruct (wf_table _ Hwf _ _ Hx) as (w & ? & _). eauto. }
  clear Hin Hwf. revert m Hs. induction order as [|[n i] order IH]; intros m Hs; [done|]. cbn [close_loop].
  destruct (Hs i) as [w Hw]; [left|]. unfold stop_at. rewrite Hw. cbn [Stop].
  set (m1 := mkManager _ _ _). destruct (IH m1) as (H1 & H2 & H3).
  { intros j Hj. cbn. rewrite lookup_insert. case_decide; [eauto|]. apply Hs. by right. }
  destruct (close_loop m1 order) as [m2 evs]. cbn in *. split_and!; [done..|]. intros j. rewrite H3.
  destruct (decide (j = i)) as [->|Hne].
  - rewrite lookup_insert_eq, Hw. rewrite (decide_True (P := i ∈ i :: _)) by left. by case_decide.
  - rewrite lookup_insert_ne by done. repeat case_decide; set_solver.
Qed.

Lemma wf_Close m order : wf m → order ≡ₚ map_to_list (proxies m) → wf (Close m order).1.
Proof.
  intros Hwf [Hnd Hin]%order_facts. unfold Close.
  pose proof (close_loop_wrappers m order Hwf (λ n i, proj1 (Hin n i))) as (_ & Hnx & Hw).
  destruct (close_loop m order) as [m1 evs]. cbn in *. split; cbn; intros *; rewrite ?lookup_empty; try done.
  - rewrite Hw. case_decide as Hi; [by intros (x & _ & ->)%fmap_Some ?|].
    intros Hx Hp. destruct (wf_listed _ Hwf _ _ Hx Hp) as [n Hn]. destruct Hi.
    apply list_elem_of_fmap. exists (n, id). split; [done|]. by apply Hin.
  - rewrite Hw, Hnx. case_decide; [rewrite fmap_is_Some|]; apply (wf_next _ Hwf).
  - rewrite Hw. case_decide; [intros (x & Hx & ->)%fmap_Some; cbn|]; by apply (wf_wire _ Hwf id).
Qed.

Lemma wf_cstep m evs m' : wf m → cstep m evs m' → wf m'.
Proof.
  intros Hwf. destruct 1 as [m order cfgs Ho Hc|m order Ho|now m name ra re run|now m id|m id b].
  - by apply wf_UpdateAll.
  - by apply wf_Close.
  - unfold StartProxy. destruct (proxies m !! name) as [id|]; [|done].
    destruct (wrappers m !! id) as [w|] eqn:Hw; [|done].
    pose proof (SetRunningStatus_keeps now w ra re run) as Hk.
    destruct (SetRunningStatus now w ra re run) as [[w' evs] err]. cbn in *.
    destruct Hk as (? & ? & ?). by eapply wf_update.
  - unfold check_at. destruct (wrappers m !! id) as [w|] eqn:Hw; [|done].
    pose proof (check_round_keeps now w) as Hk. destruct (check_round now w) as [w' evs]. cbn in *.
    destruct Hk as (? & ? & ?). by eapply wf_update.
  - unfold monitor_at. destruct (wrappers m !! id) as [w|] eqn:Hw; [|done].
    destruct (monitor_round_keeps w b) as (? & ? & Hp). eapply wf_update; try done. by rewrite Hp.
Qed.

Lemma wf_creachable m : creachable m → wf m.
Proof.
  intros Hr. apply (rtc_invariant (λ m m', ∃ evs, cstep m evs m') wf) with NewManager; [|done|apply wf_NewManager].
  intros m1 m2 Hwf [evs Hs]. by eapply wf_cstep.
Qed.

(** Nothing to remove, nothing to add. *)
Lemma remove_loop_none m cfgs order :
  (∀ n i, (n, i) ∈ order → outdated m cfgs n i = false) → remove_loop m cfgs order = (m, []).
Proof.
  induction order as [|[n i] order IH]; intros Ho; [done|]. cbn [remove_loop].
  rewrite Ho by left. apply IH. intros n' i' Hin. apply Ho. by right.
Qed.

Lemma add_loop_none m cfgs :
  (∀ c, c ∈ cfgs → is_Some (proxies m !! cfg_name c)) → add_loop m cfgs = m.
Proof.
  induction cfgs as [|c cfgs IH]; intros Hc; [done|]. cbn [add_loop].
  destruct (Hc c) as [i ->]; [left|]. apply IH. intros c' Hin. apply Hc. by right.
Qed.

Lemma removed_elem m cfgs order name id w :
  wf m → order ≡ₚ map_to_list (proxies m) → NoDup (cfg_name <$> cfgs) →
  proxies m !! name = Some id → wrappers m !! id = Some w →
  (name, id) ∈ removed m cfgs order ↔ w_Cfg w ∉ cfgs.
Proof.
  intros Hwf [_ Hin]%order_facts Hnd Hp Hw. unfold removed. rewrite list_elem_of_filter. cbn.
  pose proof (outdated_false m cfgs name id Hwf Hnd Hp) as Ho. rewrite Hin.
  destruct (outdated m cfgs name id); split.
  - intros _ Hx. assert (true = false) by (apply Ho; by exists w). done.
  - by intros _.
  - by intros [? _].
  - intros Hx. destruct (proj1 Ho eq_refl) as (w' & ? & ?). destruct Hx. congruence.
Qed.

(** The names and the wrappers that go. *)
Lemma removed_names m cfgs order :
  wf m → order ≡ₚ map_to_list (proxies m) →
  (∀ name id, proxies m !! name = Some id →
     (name ∈ (removed m cfgs order).*1 ↔ (name, id) ∈ removed m cfgs order) ∧
     (id ∈ (removed m cfgs order).*2 ↔ (name, id) ∈ removed m cfgs order)).
Proof.
  intros Hwf [_ Hin]%order_facts name id Hp. unfold removed.
  split; rewrite list_elem_of_fmap; (split; [|intros ?; by exists (name, id)]).
  - intros ([n i] & -> & Hx). cbn. pose proof Hx as [_ Hy%Hin]%list_elem_of_filter.
    cbn in Hp. by replace id with i by congruence.
  - intros ([n i] & -> & Hx). cbn. pose proof Hx as [_ Hy%Hin]%list_elem_of_filter.
    cbn in Hp. by replace name with n by by apply (wf_inj _ Hwf n name i).
Qed.

Lemma UpdateAll_idem m cfgs order :
  wf m → order ≡ₚ map_to_list (proxies m) → NoDup (cfg_name <$> cfgs) →
  (∀ name id, proxies m !! name = Some id → ∃ w, wrappers m !! id = Some w ∧ w_Cfg w ∈ cfgs) →
  (∀ c, c ∈ cfgs → is_Some (proxies m !! cfg_name c)) →
  UpdateAll m order cfgs = (m, []).
Proof.
  intros Hwf Ho Hnd Hk Hc. unfold UpdateAll. pose proof (order_facts _ _ Ho) as [_ Hin].
  rewrite remove_loop_none, add_loop_none; [done|done|].
  intros n i Hx%Hin. apply outdated_false; [done..|]. by apply (Hk n).
Qed.

(** What becomes of every entry of the table and of every configuration. *)
Lemma UpdateAll_entries m order cfgs m' evs :
  wf m → order ≡ₚ map_to_list (proxies m) → NoDup (cfg_name <$> cfgs) →
  UpdateAll m order cfgs = (m', evs) →
  evs = (λ e, CloseProxyPayload (AddUserPrefix user e.1)) <$> removed m cfgs order ∧
  (∀ name id w, proxies m !! name = Some id → wrappers m !! id = Some w →
    wrappers m' !! id = Some (if decide (w_Cfg w ∈ cfgs) then w else set_Phase w ProxyPhaseClosed) ∧
    (w_Cfg w ∈ cfgs → proxies m' !! name = Some id)) ∧
  (∀ name, name ∉ cfg_name <$> cfgs → proxies m' !! name = None) ∧
  (∀ c, c ∈ cfgs → ∃ id w, proxies m' !! cfg_name c = Some id ∧ wrappers m' !! id = Some w ∧ w_Cfg w = c ∧
    (proxies m !! cfg_name c = Some id ∧ wrappers m !! id = Some w ∨
     wrappers m !! id = None ∧ w = NewWrapper c user)).
Proof.
  intros Hwf Ho Hnd. pose proof (order_facts _ _ Ho) as [Hno Hin]. unfold UpdateAll.
  pose proof (remove_loop_spec m cfgs order Hwf Hno (λ n i, proj1 (Hin n i))) as Hr.
  destruct (remove_loop m cfgs order) as [m1 evs1]. intros [= <- <-].
  destruct Hr as (Hwf1 & Hnx & Hpx & Hwr & Hevs).
  destruct (add_loop_spec m1 cfgs Hwf1 Hnd) as (_ & _ & Hkeep & Hother & Hold & Hnew).
  set (m' := add_loop m1 cfgs) in *.
  assert (∀ name id w, proxies m !! name = Some id → wrappers m !! id = Some w →
    proxies m1 !! name = (if decide (w_Cfg w ∈ cfgs) then Some id else None) ∧
    wrappers m' !! id = Some (if decide (w_Cfg w ∈ cfgs) then w else set_Phase w ProxyPhaseClosed)) as Hcase.
  { intros name id w Hp Hw. pose proof (removed_elem _ _ _ _ _ _ Hwf Ho Hnd Hp Hw) as He.
    destruct (removed_names m cfgs order Hwf Ho name id Hp) as [E1 E2].
    rewrite Hold by (rewrite Hnx; apply (wf_next _ Hwf); eauto). rewrite Hpx, Hwr, Hp, Hw.
    destruct (decide (w_Cfg w ∈ cfgs)) as [Hc|Hc]; [rewrite !decide_False|rewrite !decide_True]; by try tauto. }
  split_and!; [done| | |].
  - intros name id w Hp Hw. destruct (Hcase _ _ _ Hp Hw) as [H1 H2]. split; [done|]. intros Hc.
    apply Hkeep. by rewrite H1, decide_True.
  - intros name Hn. rewrite Hother by done. destruct (proxies m !! name) as [id|] eqn:Hp.
    + destruct (wf_table _ Hwf _ _ Hp) as (w & Hw & Hc & _). destruct (Hcase _ _ _ Hp Hw) as [-> _].
      rewrite decide_False; [done|]. intros Hx. apply Hn. apply list_elem_of_fmap. by exists (w_Cfg w).
    + rewrite Hpx, Hp. by case_decide.
  - intros c Hc. destruct (proxies m1 !! cfg_name c) as [id|] eqn:Hp1.
    + pose proof Hp1 as Hp. rewrite Hpx in Hp. case_decide; [done|].
      destruct (wf_table _ Hwf _ _ Hp) as (w & Hw & Hcn & _). destruct (Hcase _ _ _ Hp Hw) as [H1 H2].
      rewrite Hp1 in H1. case_decide as Hd; [|done]. exists id, w. split_and!; [by apply Hkeep|done| |by left].
      pose proof (KeyBy_unique cfgs _ Hnd Hd) as K1. pose proof (KeyBy_unique cfgs _ Hnd Hc) as K2.
      rewrite Hcn in K1. congruence.
    + destruct (Hnew c Hc Hp1) as (id & Hid & H1 & H2). exists id, (NewWrapper c user).
      split_and!; [done..|]. right. split; [|done]. destruct (wrappers m !! id) as [x|] eqn:Hx; [|done].
      assert (id < next m)%nat by (apply (wf_next _ Hwf); eauto). lia.
Qed.

(** ** Properties *)

(** C20. In every state of a client's proxy manager, the wrappers that are not
    closed are exactly those in the table, each under its own name and no other;
    and a closed wrapper, whose goroutine may still make rounds, sends nothing
    and stays closed whatever happens to it. *)
Theorem client_table (m : Manager) :
  creachable m →
  (∀ id w, wrappers m !! id = Some w →
     (w_Phase w ≠ ProxyPhaseClosed ↔ ∃ name, proxies m !! name = Some id)) ∧
  (∀ name id, proxies m !! name = Some id →
     ∃ w, wrappers m !! id = Some w ∧ cfg_name (w_Cfg w) = name ∧
          wireName w = AddUserPrefix user name) ∧
  (∀ n1 n2 id, proxies m !! n1 = Some id → proxies m !! n2 = Some id → n1 = n2) ∧
  (∀ w now b ra re run, w_Phase w = ProxyPhaseClosed →
     check_round now w = (w, []) ∧ w_Phase (monitor_round w b) = ProxyPhaseClosed ∧
     ∃ err, SetRunningStatus now w ra re run = (w, [], Some err)).
Proof.
  intros Hwf%wf_creachable. split_and!.
  - intros id w Hw. split; [by apply (wf_listed _ Hwf)|]. intros [name Hn].
    destruct (wf_table _ Hwf _ _ Hn) as (w' & ? & _ & ?). congruence.
  - intros name id Hn. destruct (wf_table _ Hwf _ _ Hn) as (w & Hw & Hc & _). exists w.
    split_and!; [done..|]. by rewrite (wf_wire _ Hwf _ _ Hw), Hc.
  - apply (wf_inj _ Hwf).
  - intros w now b ra re run Hp. split_and!.
    + unfold check_round. rewrite Hp. by destruct (health w =? 0).
    + destruct (monitor_round_keeps w b) as (_ & _ & ->). done.
    + unfold SetRunningStatus. rewrite Hp. cbn. eauto.
Qed.

(** C21. [UpdateAll] with configurations of different names leaves a table of
    exactly these names: a proxy whose configuration is unchanged keeps its
    wrapper untouched, any other gets a new one, the wrappers that go are
    stopped and one CloseProxy is sent for each, and nothing else is sent. A
    second call with the same configurations changes nothing. *)
Theorem update_all_exact (m : Manager) (order : list (string * nat)) (cfgs : list ProxyConfigurer) :
  creachable m → order ≡ₚ map_to_list (proxies m) → NoDup (cfg_name <$> cfgs) →
  let '(m', evs) := UpdateAll m order cfgs in
  (∀ name, is_Some (proxies m' !! name) ↔ name ∈ cfg_name <$> cfgs) ∧
  (∀ name id w, proxies m !! name = Some id → wrappers m !! id = Some w → w_Cfg w ∈ cfgs →
     proxies m' !! name = Some id ∧ wrappers m' !! id = Some w) ∧
  (∀ c, c ∈ cfgs →
     (∀ id w, proxies m !! cfg_name c = Some id → wrappers m !! id = Some w → w_Cfg w ≠ c) →
     ∃ id, wrappers m !! id = None ∧ proxies m' !! cfg_name c = Some id ∧
           wrappers m' !! id = Some (NewWrapper c user)) ∧
  (∀ name id w, proxies m !! name = Some id → wrappers m !! id = Some w → w_Cfg w ∉ cfgs →
     wrappers m' !! id = Some (set_Phase w ProxyPhaseClosed)) ∧
  evs = (λ e, CloseProxyPayload (AddUserPrefix user e.1)) <$> removed m cfgs order ∧
  (∀ order', order' ≡ₚ map_to_list (proxies m') → UpdateAll m' order' cfgs = (m', [])).
Proof.
  intros Hwf%wf_creachable Ho Hnd. destruct (UpdateAll m order cfgs) as [m' evs] eqn:HU.
  pose proof (wf_UpdateAll m order cfgs Hwf Ho Hnd) as Hwf'. rewrite HU in Hwf'. cbn in Hwf'.
  apply UpdateAll_entries in HU as (Hevs & Hcase & Hgone & Hpres); [|done..].
  assert (∀ c, c ∈ cfgs → is_Some (proxies m' !! cfg_name c)) as Hsome.
  { intros c Hc. destruct (Hpres c Hc) as (id & w & Hx & _). eauto. }
  split_and!; try done.
  - intros name. destruct (decide (name ∈ cfg_name <$> cfgs)) as [Hn|Hn].
    + split; [done|]. intros _. apply list_elem_of_fmap in Hn as (c & -> & Hc). by apply Hsome.
    + rewrite Hgone by done. split; [by intros [? ?]|done].
  - intros name id w Hp Hw Hc. destruct (Hcase _ _ _ Hp Hw) as [H1 H2]. rewrite decide_True in H1 by done. auto.
  - intros c Hc Hdiff. destruct (Hpres c Hc) as (id & w & H1 & H2 & H3 & [[Hp Hw]|[Hn ->]]).
    + by destruct (Hdiff id w Hp Hw).
    + by exists id.
  - intros name id w Hp Hw Hc. destruct (Hcase _ _ _ Hp Hw) as [H1 _]. by rewrite decide_False in H1.
  - intros order' Ho'. apply UpdateAll_idem; try done.
    intros name id Hp. destruct (decide (name ∈ cfg_name <$> cfgs)) as [Hn|Hn]; [|by rewrite Hgone in Hp].
    apply list_elem_of_fmap in Hn as (c & -> & Hc). destruct (Hpres c Hc) as (i & w & H1 & H2 & <- & _).
    exists w. split; [congruence|done].
Qed.
End Manager.

(** ** Client and server

    The control connection as two queues, and of the server the wire names that
    are registered. *)

Record Net := mkNet {
  cm : Manager;
  c2s : list event;
  s2c : list (string * string * string);  (* NewProxyResp: wire name, address, error *)
  srv : gset string }.

Inductive action :=
| AUpdate (cfgs : list ProxyConfigurer)
| ACheck (now : Z) (id : nat)
| AServer (addr err : string)     (* what registering a free name gives *)
| ARecv (now : Z).

Section Network.
Context (user : string).

(** [handleNewProxyResp]. *)
Definition handleNewProxyResp (now : Z) (m : Manager) (resp : string * string * string) :
    Manager * list event :=
  (StartProxy now m (StripUserPrefix user resp.1.1) resp.1.2 resp.2 None).1.

(** The server's answer to the first message, messages being handled in order:
    a name that is registered is refused. *)
Definition serve (n : Net) (addr err : string) : Net :=
  match c2s n with
  | [] => n
  | CloseProxyPayload name :: rest => mkNet (cm n) rest (s2c n) (srv n ∖ {[name]})
  | StartProxyPayload m :: rest =>
      let name := Msg.np_ProxyName m in
      if bool_decide (name ∈ srv n)
      then mkNet (cm n) rest (s2c n ++ [(name, "", "proxy name is already in use")]) (srv n)
      else if String.eqb err ""
      then mkNet (cm n) rest (s2c n ++ [(name, addr, "")]) ({[name]} ∪ srv n)
      else mkNet (cm n) rest (s2c n ++ [(name, "", err)]) (srv n)
  end.

Definition act (n : Net) (a : action) : Net :=
  match a with
  | AUpdate cfgs =>
      let '(m, evs) := UpdateAll user (cm n) (map_to_list (proxies (cm n))) cfgs in
      mkNet m (c2s n ++ evs) (s2c n) (srv n)
  | ACheck now id =>
      let '(m, evs) := check_at now (cm n) id in
      mkNet m (c2s n ++ evs) (s2c n) (srv n)
  | AServer addr err => serve n addr err
  | ARecv now =>
      match s2c n with
      | [] => n
      | resp :: rest =>
          let '(m, evs) := handleNewProxyResp now (cm n) resp in
          mkNet m (c2s n ++ evs) rest (srv n)
      end
  end.
End Network.

Definition net0 : Net := mkNet NewManager [] [] ∅.

Definition tcp_config (port : Z) : ProxyConfigurer :=
  CTCP (mkTCP (mkProxyBase "ssh" "tcp" None ∅ (Transport zero_base) ∅ (LoadBalancer zero_base)
    (HealthCheck zero_base) (Backend zero_base)) port).

(** A proxy is started on port 6000 and changed to port 6001 before the server
    has answered; port 6001 is not free. *)
Definition stale_run : list action :=
  [AUpdate [tcp_config 6000]; ACheck 0 0; AUpdate [tcp_config 6001]; ACheck 1 1;
   AServer ":6000" ""; ARecv 2; AServer "" ""; AServer "" "port already used"; ARecv 3].

Definition stale_net : Net := foldl (act "") net0 stale_run.

(** A response of the server that answers a configuration replaced in the
    meantime is taken for the answer to the new one: after the run above the
    client shows the proxy as running, on the old port, while the server has no
    such proxy, both queues are empty, and no later round of the client changes
    that. *)
Theorem stale_response_accepted :
  c2s stale_net = [] ∧ s2c stale_net = [] ∧ srv stale_net = ∅ ∧
  proxies (cm stale_net) = {["ssh" := 1%nat]} ∧
  ∃ w, wrappers (cm stale_net) !! 1%nat = Some w ∧ w_Cfg w = tcp_config 6001 ∧
    w_Phase w = ProxyPhaseRunning ∧ w_RemoteAddr w = ":6000" ∧
    ∀ now, check_round now w = (w, []).
Proof.
  split_and!; [by vm_compute..|]. eexists. split; [by vm_compute|]. split_and!; done.
Qed.

(** ** Names on the wire *)

#[local] Arguments String.append !_ _ / : simpl nomatch.

Lemma Cut_first user name :
  ContainsChar user "." = false → Cut (user +:+ String "." name) "." = Some (user, name).
Proof.
  induction user as [|c u IH]; intros Hu; [done|]. cbn [ContainsChar] in Hu.
  apply orb_false_elim in Hu as [Hc Hu]. rewrite Ascii.eqb_sym in Hc. simpl. by rewrite Hc, (IH Hu).
Qed.

(** A client finds its own name back in a wire name. Wire names tell users
    apart when the users are not empty and have no dots in their names, and only
    then: a user with a dot, or none, can have the wire names of another. *)
Theorem wire_names :
  (∀ user name, StripUserPrefix user (AddUserPrefix user name) = name) ∧
  (∀ u1 u2 n1 n2, u1 ≠ "" → u2 ≠ "" → ContainsChar u1 "." = false → ContainsChar u2 "." = false →
     AddUserPrefix u1 n1 = AddUserPrefix u2 n2 → u1 = u2 ∧ n1 = n2) ∧
  (∀ u v name, u ≠ "" → AddUserPrefix (u +:+ "." +:+ v) name = AddUserPrefix u (v +:+ "." +:+ name)) ∧
  (∀ u name, u ≠ "" → AddUserPrefix "" (u +:+ "." +:+ name) = AddUserPrefix u name).
Proof.
  split_and!.
  - intros user name. unfold StripUserPrefix, AddUserPrefix.
    destruct (String.eqb_spec user "") as [->|Hu]; [done|].
    rewrite (proj2 (CutPrefix_spec _ _ name)); [done|]. by rewrite string_app_assoc.
  - intros u1 u2 n1 n2 H1 H2 D1 D2. unfold AddUserPrefix.
    rewrite (proj2 (String.eqb_neq _ _) H1), (proj2 (String.eqb_neq _ _) H2). intros Heq.
    pose proof (Cut_first u1 n1 D1) as C1. change (String "." n1) with ("." +:+ n1) in C1.
    rewrite Heq in C1. change ("." +:+ n2) with (String "." n2) in C1.
    rewrite (Cut_first u2 n2 D2) in C1. by injection C1 as -> ->.
  - intros u v name Hu. unfold AddUserPrefix. rewrite (proj2 (String.eqb_neq _ _) Hu).
    assert (u +:+ "." +:+ v ≠ "") as Hv by by destruct u.
    rewrite (proj2 (String.eqb_neq _ _) Hv). by rewrite !string_app_assoc.
  - intros u name Hu. unfold AddUserPrefix. by rewrite (proj2 (String.eqb_neq _ _) Hu).
Qed.

(** ** Witnesses *)

Definition demo_m : Manager := (UpdateAll "" NewManager [] [tcp_config 6000]).1.

Lemma demo_creachable : creachable "" demo_m.
Proof.
  apply rtc_once. exists []. refine (CUpdate "" NewManager [] [tcp_config 6000] _ _); [done|].
  apply NoDup_singleton.
Qed.

Lemma client_table_witness : proxies demo_m !! "ssh" = Some 0%nat ∧
  ∃ w, wrappers demo_m !! 0%nat = Some w ∧ cfg_name (w_Cfg w) = "ssh" ∧ wireName w = AddUserPrefix "" "ssh".
Proof.
  split; [done|]. exact (proj1 (proj2 (client_table "" demo_m demo_creachable)) "ssh" 0%nat eq_refl).
Defined.

Lemma update_all_exact_witness :
  (UpdateAll "" demo_m (map_to_list (proxies demo_m)) [tcp_config 6001]).2 = [CloseProxyPayload "ssh"] ∧
  is_Some (proxies (UpdateAll "" demo_m (map_to_list (proxies demo_m)) [tcp_config 6001]).1 !! "ssh").
Proof.
  split; [by vm_compute|].
  pose proof (update_all_exact "" demo_m (map_to_list (proxies demo_m)) [tcp_config 6001] demo_creachable
    (reflexivity _) (NoDup_singleton _)) as H.
  destruct (UpdateAll "" demo_m (map_to_list (proxies demo_m)) [tcp_config 6001]) as [m' evs].
  apply (proj1 H). left.
Defined.
End ClientProxies.
