(* ===== verification/Metrics.v ===== *)
(** Traffic and connection statistics: the counters of pkg/util/metric
    (counter.go, date_counter.go) and the statistics of the server in memory,
    pkg/metrics/mem/server.go.

    Time is in nanoseconds. The start of the local day is a function of the
    instant: [midnight (day t)] for the number [day t] of the local day and the
    instant [midnight d] it begins at, which depend on the time zone. *)
From Stdlib Require Import ZArith Lia String.
From stdpp Require Import base gmap strings list fin_maps relations list_numbers.
From S2P Require Import Prelude GoLib.

Local Open Scope Z_scope.

Module Metrics.

(** Wrap-around of signed integers. *)
Definition int64 (z : Z) : Z := (z + 2 ^ 63) `mod` 2 ^ 64 - 2 ^ 63.
Definition int32 (z : Z) : Z := (z + 2 ^ 31) `mod` 2 ^ 32 - 2 ^ 31.

Lemma int64_add a b : int64 (int64 a + b) = int64 (a + b).
Proof.
  unfold int64. f_equal. replace (_ - 2 ^ 63 + b + 2 ^ 63) with ((a + 2 ^ 63) `mod` 2 ^ 64 + b) by lia.
  rewrite Zplus_mod_idemp_l. f_equal. lia.
Qed.

Lemma int32_small z : - 2 ^ 31 ≤ z < 2 ^ 31 → int32 z = z.
Proof. intros. unfold int32. rewrite Z.mod_small; lia. Qed.

(** ** Counters of days *)

Definition Hour : Z := 3600 * 10 ^ 9.

Section Days.
Context (day : Z → Z) (midnight : Z → Z).

Definition startOfDay (t : Z) : Z := midnight (day t).

Record StandardDateCounter := mkDateCounter {
  reserveDays : Z; counts : list Z; lastUpdateDate : Z }.

Definition newStandardDateCounter (reserveDays now : Z) : StandardDateCounter :=
  mkDateCounter reserveDays (replicate (Z.to_nat reserveDays) 0) (startOfDay now).

Definition NewDateCounter (reserveDays now : Z) : StandardDateCounter :=
  newStandardDateCounter (if reserveDays <=? 0 then 1 else reserveDays) now.

(** [int(now.Sub(c.lastUpdateDate).Hours() / 24)]: towards zero. *)
Definition days_between (now last : Z) : Z := Z.quot (now - last) (24 * Hour).

Definition rotate (c : StandardDateCounter) (now : Z) : StandardDateCounter :=
  let now := startOfDay now in
  let days := days_between now (lastUpdateDate c) in
  if days <=? 0 then c
  else if reserveDays c <=? days
  then mkDateCounter (reserveDays c) (replicate (Z.to_nat (reserveDays c)) 0) now
  else mkDateCounter (reserveDays c)
         (replicate (Z.to_nat days) 0 ++ take (Z.to_nat (reserveDays c - days)) (counts c)) now.

Definition add_first (c : StandardDateCounter) (count : Z) : StandardDateCounter :=
  mkDateCounter (reserveDays c)
    (match counts c with [] => [] | x :: l => int64 (x + count) :: l end) (lastUpdateDate c).

Definition Inc (c : StandardDateCounter) (now count : Z) : StandardDateCounter :=
  add_first (rotate c now) count.
Definition Dec (c : StandardDateCounter) (now count : Z) : StandardDateCounter :=
  add_first (rotate c now) (- count).

Definition TodayCount (c : StandardDateCounter) (now : Z) : StandardDateCounter * Z :=
  let c := rotate c now in (c, default 0 (counts c !! 0%nat)).

(** [None]: [make] panics on a negative length, before the lock is taken. *)
Definition GetLastDaysCount (c : StandardDateCounter) (now lastdays : Z) : option (StandardDateCounter * list Z) :=
  let lastdays := if reserveDays c <? lastdays then reserveDays c else lastdays in
  if lastdays <? 0 then None
  else let c := rotate c now in Some (c, take (Z.to_nat lastdays) (counts c)).

(** The counts as they are, dated today. *)
Definition Snapshot (c : StandardDateCounter) (now : Z) : StandardDateCounter :=
  mkDateCounter (reserveDays c) (counts c) (startOfDay now).

Definition Clear (c : StandardDateCounter) : StandardDateCounter :=
  mkDateCounter (reserveDays c) (replicate (length (counts c)) 0) (lastUpdateDate c).

(** ** The history a counter summarises *)

(** What was counted on each day, up to [today]. *)
Record History := mkHistory { today : Z; on : Z → Z }.

Definition hist_add (h : History) (now count : Z) : History :=
  mkHistory (day now) (λ d, if d =? day now then on h d + count else on h d).

(** The counter shows the last [reserveDays] days. *)
Record shows (c : StandardDateCounter) (h : History) : Prop := {
  s_reserve : 0 < reserveDays c;
  s_length : length (counts c) = Z.to_nat (reserveDays c);
  s_last : lastUpdateDate c = midnight (today h);
  s_counts : ∀ i : nat, (i < Z.to_nat (reserveDays c))%nat →
    counts c !! i = Some (int64 (on h (today h - Z.of_nat i)));
  s_future : ∀ d, today h < d → on h d = 0
}.

(** Days of twenty-four hours. *)
Context (Hdays : ∀ d1 d2, midnight d2 - midnight d1 = (d2 - d1) * (24 * Hour)).

Lemma days_between_midnights d1 d2 :
  days_between (midnight d2) (midnight d1) = d2 - d1.
Proof. unfold days_between. rewrite Hdays. apply Z.quot_mul. done. Qed.

Lemma shows_rotate c h now :
  shows c h → today h ≤ day now → shows (rotate c now) (mkHistory (day now) (on h)).
Proof.
  intros [Hr Hl Hd Hc Hf] Ht. unfold rotate, startOfDay. rewrite Hd, days_between_midnights.
  set (days := day now - today h) in *.
  destruct (Z.leb_spec days 0) as [H0|H0]; [|destruct (Z.leb_spec (reserveDays c) days) as [H1|H1]].
  - assert (day now = today h) as -> by lia. by split.
  - split; cbn; try done.
    + by rewrite length_replicate.
    + intros i Hi. rewrite lookup_replicate_2 by done. rewrite Hf; [done|lia].
    + intros d Hd'. apply Hf. lia.
  - split; cbn; try done.
    + rewrite length_app, length_replicate, length_take. lia.
    + intros i Hi. destruct (decide (i < Z.to_nat days)%nat) as [Hlt|Hge].
      * rewrite lookup_app_l by (by rewrite length_replicate). rewrite lookup_replicate_2 by done.
        rewrite Hf; [done|lia].
      * rewrite lookup_app_r by (rewrite length_replicate; lia). rewrite length_replicate.
        rewrite lookup_take_lt by lia. rewrite Hc by lia. do 3 f_equal. lia.
    + intros d Hd'. apply Hf. lia.
Qed.

Lemma shows_add c h count :
  shows c h →
  shows (add_first c count) (mkHistory (today h) (λ d, if d =? today h then on h d + count else on h d)).
Proof.
  intros [Hr Hl Hd Hc Hf]. unfold add_first. destruct (counts c) as [|x l] eqn:Hcs.
  { simpl in Hl. lia. }
  pose proof (Hc 0%nat ltac:(lia)) as Hx. cbn in Hx. rewrite Z.sub_0_r in Hx. injection Hx as ->.
  split; cbn; try done.
  - intros [|i] Hi; cbn.
    + rewrite Z.sub_0_r, Z.eqb_refl. by rewrite int64_add.
    + rewrite (proj2 (Z.eqb_neq _ _)) by lia. apply (Hc (S i) Hi).
  - intros d Hd'. rewrite (proj2 (Z.eqb_neq _ _)) by lia. by apply Hf.
Qed.

Lemma shows_New r now : shows (NewDateCounter r now) (mkHistory (day now) (λ _, 0)).
Proof.
  unfold NewDateCounter, newStandardDateCounter.
  assert (0 < (if r <=? 0 then 1 else r)) by (destruct (Z.leb_spec r 0); lia).
  split; cbn; try done.
  - by rewrite length_replicate.
  - intros i Hi. by rewrite lookup_replicate_2.
Qed.

(** *** Runs of increments *)

Fixpoint run_incs (c : StandardDateCounter) (l : list (Z * Z)) : StandardDateCounter :=
  match l with [] => c | (now, count) :: l => run_incs (Inc c now count) l end.

Fixpoint ordered (t : Z) (l : list (Z * Z)) : Prop :=
  match l with [] => True | (now, _) :: l => t ≤ day now ∧ ordered (day now) l end.

(** What the increments of a list add up to on a day. *)
Definition counted (l : list (Z * Z)) (d : Z) : Z :=
  foldr (λ e acc, (if day e.1 =? d then e.2 else 0) + acc) 0 l.

Lemma run_incs_shows c h l :
  shows c h → ordered (today h) l →
  ∃ t, (t = today h ∨ ∃ e, e ∈ l ∧ t = day e.1) ∧ today h ≤ t ∧ (∀ e, e ∈ l → day e.1 ≤ t) ∧
    shows (run_incs c l) (mkHistory t (λ d, on h d + counted l d)).
Proof.
  revert c h. induction l as [|[now n] l IH]; intros c h Hs Ho.
  { exists (today h). split; [by left|]. split; [done|]. split; [by intros ? ?%not_elem_of_nil|].
    destruct Hs as [? ? ? Hc Hf]. split; cbn; try done.
    - intros i Hi. rewrite Z.add_0_r. by apply Hc.
    - intros d Hd. rewrite Hf by done. done. }
  destruct Ho as [Ht Ho]. cbn [run_incs].
  pose proof (shows_add _ _ n (shows_rotate c h now Hs Ht)) as Hs1. cbn in Hs1.
  destruct (IH _ _ Hs1 Ho) as (t & Hwhich & Hle & Hmax & Hshow). change (add_first (rotate c now) n) with (Inc c now n) in Hshow.
  cbn [on today] in *. exists t. split_and!.
  - right. destruct Hwhich as [->|(e & He & ->)]; [exists (now, n); split; [left|done]|].
    exists e. split; [by right|done].
  - lia.
  - intros e [->|He]%elem_of_cons; [done|by apply Hmax].
  - destruct Hshow as [H1 H2 H3 H4 H5]. cbn [on today] in *.
    assert (∀ d, on h d + counted ((now, n) :: l) d =
      (if d =? day now then on h d + n else on h d) + counted l d) as Heq.
    { intros d. unfold counted. cbn. rewrite (Z.eqb_sym d). destruct (_ =? _); lia. }
    split; cbn [on today]; try done.
    + intros i Hi. rewrite Heq. by apply H4.
    + intros d Hd. rewrite Heq. by apply H5.
Qed.

Lemma rotate_reserve c now : reserveDays (rotate c now) = reserveDays c.
Proof. unfold rotate. by repeat case_match. Qed.

Lemma run_incs_reserve c l : reserveDays (run_incs c l) = reserveDays c.
Proof.
  revert c. induction l as [|[now n] l IH]; [done|]. intros c. cbn. rewrite IH.
  unfold Inc, add_first. cbn. apply rotate_reserve.
Qed.

Lemma shows_days c h lastdays :
  shows c h → 0 ≤ lastdays ≤ reserveDays c →
  take (Z.to_nat lastdays) (counts c) =
  (λ i : nat, int64 (on h (today h - Z.of_nat i))) <$> seq 0 (Z.to_nat lastdays).
Proof.
  intros [Hr Hl Hd Hc Hf] Hdays'. apply list_eq. intros i. rewrite list_lookup_fmap.
  destruct (decide (i < Z.to_nat lastdays)%nat) as [Hi|Hi].
  - rewrite lookup_take_lt by done. rewrite lookup_seq_lt by done. cbn. apply Hc. lia.
  - rewrite lookup_take_ge by lia. by rewrite lookup_seq_ge by lia.
Qed.

(** A counter of days refines the history it is fed: created at some
    instant and told counts at instants whose days never go back, it answers
    [GetLastDaysCount(n)] on a later day with one number for each of the last
    [n] days (at most the days it keeps), today first, each the sum, as a
    64-bit integer, of what was counted on that day. The days of the time zone
    are taken to have twenty-four hours. *)
Theorem days_counted r l t0 now lastdays c :
  ordered (day t0) l → (∀ e, e ∈ l → day e.1 ≤ day now) → day t0 ≤ day now → 0 ≤ lastdays →
  c = NewDateCounter r t0 →
  snd <$> GetLastDaysCount (run_incs c l) now lastdays =
  Some ((λ i : nat, int64 (counted l (day now - Z.of_nat i))) <$>
        seq 0 (Z.to_nat (Z.min lastdays (reserveDays c)))).
Proof.
  intros Ho Hle H0 Hn ->.
  destruct (run_incs_shows _ _ l (shows_New r t0) Ho) as (t & Hw & _ & _ & Hs). cbn [on today] in *.
  assert (t ≤ day now) as Ht. { destruct Hw as [->|(e & He & ->)]; [done|by apply Hle]. }
  pose proof (shows_rotate _ _ now Hs Ht) as Hs'. cbn [on] in Hs'.
  unfold GetLastDaysCount. rewrite run_incs_reserve.
  assert (0 < reserveDays (NewDateCounter r t0)) as Hr.
  { cbn. destruct (Z.leb_spec r 0); lia. }
  set (n := if reserveDays (NewDateCounter r t0) <? lastdays then _ else _). assert (n = Z.min lastdays (reserveDays (NewDateCounter r t0))) as Hmin.
  { unfold n. destruct (Z.ltb_spec (reserveDays (NewDateCounter r t0)) lastdays); lia. }
  rewrite (proj2 (Z.ltb_ge _ _)) by lia. cbn [fmap option_fmap option_map snd]. f_equal. rewrite <-Hmin.
  rewrite (shows_days _ _ n Hs') by (rewrite rotate_reserve, run_incs_reserve; lia).
  apply list_fmap_ext. intros i x _. done.
Qed.

(** A local day shorter than twenty-four hours (the one on which clocks go
    forward) is not seen to end: what is counted on the day after it is added
    to the same cell, and [TodayCount] then answers the two days' sum. *)
Theorem short_day_merged r t0 t1 a b :
  0 ≤ midnight (day t1) - midnight (day t0) < 24 * Hour →
  (TodayCount (Inc (Inc (NewDateCounter r t0) t0 a) t1 b) t1).2 = int64 (a + b).
Proof using.
  intros Hshort. unfold Inc.
  assert (∀ c, lastUpdateDate c = midnight (day t0) → rotate c t0 = c) as R0.
  { intros c Hc. unfold rotate, startOfDay. rewrite Hc. unfold days_between. by rewrite Z.sub_diag. }
  assert (∀ c, lastUpdateDate c = midnight (day t0) → rotate c t1 = c) as R1.
  { intros c Hc. unfold rotate, startOfDay. rewrite Hc. unfold days_between. by rewrite Z.quot_small. }
  rewrite R0 by done. rewrite R1 by done. unfold TodayCount. rewrite R1 by done.
  unfold NewDateCounter, newStandardDateCounter, add_first. cbn.
  destruct (Z.to_nat (if r <=? 0 then 1 else r)) as [|k] eqn:Hk.
  { exfalso. destruct (Z.leb_spec r 0); lia. }
  cbn. by rewrite int64_add.
Qed.
End Days.

(** Days of twenty-four hours, in UTC. *)
Definition utc_day (t : Z) : Z := t `div` (24 * Hour).
Definition utc_midnight (d : Z) : Z := d * (24 * Hour).

(** A zone whose day 1 has 23 hours. *)
Definition dst_midnight (d : Z) : Z := if d <=? 1 then d * (24 * Hour) else d * (24 * Hour) - Hour.
Definition dst_day (t : Z) : Z := if t <? 47 * Hour then t `div` (24 * Hour) else (t + Hour) `div` (24 * Hour).

Example days_counted_witness :
  snd <$> GetLastDaysCount utc_day utc_midnight
    (run_incs utc_day utc_midnight (NewDateCounter utc_day utc_midnight 3 (30 * Hour))
       [(31 * Hour, 5); (40 * Hour, 6); (75 * Hour, 7)]) (80 * Hour) 7 = Some [7; 0; 11].
Proof.
  rewrite (days_counted utc_day utc_midnight ltac:(intros; unfold utc_midnight; lia)
    3 [(31 * Hour, 5); (40 * Hour, 6); (75 * Hour, 7)] (30 * Hour) (80 * Hour) 7 _
    ltac:(vm_compute; intuition congruence)
    ltac:(intros e [->|[->|[->|[]%not_elem_of_nil]%elem_of_cons]%elem_of_cons]%elem_of_cons; vm_compute; congruence)
    ltac:(vm_compute; congruence) ltac:(lia) eq_refl).
  vm_compute. reflexivity.
Defined.

Example short_day_merged_witness :
  dst_day (30 * Hour) = 1 ∧ dst_day (50 * Hour) = 2 ∧
  (TodayCount dst_day dst_midnight
     (Inc dst_day dst_midnight (Inc dst_day dst_midnight (NewDateCounter dst_day dst_midnight 7 (30 * Hour))
        (30 * Hour) 100) (50 * Hour) 1) (50 * Hour)).2 = 101.
Proof.
  split; [reflexivity|]. split; [reflexivity|].
  apply (short_day_merged dst_day dst_midnight 7 (30 * Hour) (50 * Hour) 100 1).
  vm_compute. split; congruence.
Defined.

(** ** Counters *)

Definition StandardCounter := Z.
Definition NewCounter : StandardCounter := 0.
Definition cnt_Inc (c : StandardCounter) (count : Z) : StandardCounter := int32 (c + count).
Definition cnt_Dec (c : StandardCounter) (count : Z) : StandardCounter := int32 (c + int32 (- count)).
Lemma cnt_Dec_small c n : 0 ≤ n < 2 ^ 31 → - 2 ^ 31 ≤ c - n < 2 ^ 31 → cnt_Dec c n = c - n.
Proof. intros. unfold cnt_Dec. rewrite (int32_small (- n)) by lia. rewrite int32_small; lia. Qed.

Definition cnt_Clear (_ : StandardCounter) : StandardCounter := 0.

(** ** The server's statistics *)

Definition ReserveDays : Z := 7.

Record ProxyStatistics := mkProxyStatistics {
  ps_Name : string; ProxyType : string; ps_User : string; ClientID : string;
  TrafficIn : StandardDateCounter; TrafficOut : StandardDateCounter; CurConns : StandardCounter;
  LastStartTime : Z; LastCloseTime : Z }.

Record ServerStatistics := mkServerStatistics {
  TotalTrafficIn : StandardDateCounter; TotalTrafficOut : StandardDateCounter;
  AllConns : StandardCounter; ClientCounts : StandardCounter;
  ProxyTypeCounts : gmap string StandardCounter;
  ProxyStats : gmap string ProxyStatistics }.

(** The zero [time.Time] is the origin of the instants. *)
Definition IsZero (t : Z) : bool := t =? 0.

Definition set_conns (p : ProxyStatistics) (c : StandardCounter) : ProxyStatistics :=
  mkProxyStatistics (ps_Name p) (ProxyType p) (ps_User p) (ClientID p) (TrafficIn p) (TrafficOut p) c
    (LastStartTime p) (LastCloseTime p).
Definition set_close (p : ProxyStatistics) (t : Z) : ProxyStatistics :=
  mkProxyStatistics (ps_Name p) (ProxyType p) (ps_User p) (ClientID p) (TrafficIn p) (TrafficOut p) (CurConns p)
    (LastStartTime p) t.
Definition set_traffic (p : ProxyStatistics) (i o : StandardDateCounter) : ProxyStatistics :=
  mkProxyStatistics (ps_Name p) (ProxyType p) (ps_User p) (ClientID p) i o (CurConns p)
    (LastStartTime p) (LastCloseTime p).
Definition with_all (s : ServerStatistics) (c : StandardCounter) : ServerStatistics :=
  mkServerStatistics (TotalTrafficIn s) (TotalTrafficOut s) c (ClientCounts s) (ProxyTypeCounts s) (ProxyStats s).
Definition with_clients (s : ServerStatistics) (c : StandardCounter) : ServerStatistics :=
  mkServerStatistics (TotalTrafficIn s) (TotalTrafficOut s) (AllConns s) c (ProxyTypeCounts s) (ProxyStats s).
Definition with_types (s : ServerStatistics) (m : gmap string StandardCounter) : ServerStatistics :=
  mkServerStatistics (TotalTrafficIn s) (TotalTrafficOut s) (AllConns s) (ClientCounts s) m (ProxyStats s).
Definition with_proxies (s : ServerStatistics) (m : gmap string ProxyStatistics) : ServerStatistics :=
  mkServerStatistics (TotalTrafficIn s) (TotalTrafficOut s) (AllConns s) (ClientCounts s) (ProxyTypeCounts s) m.
Definition with_totals (s : ServerStatistics) (i o : StandardDateCounter) : ServerStatistics :=
  mkServerStatistics i o (AllConns s) (ClientCounts s) (ProxyTypeCounts s) (ProxyStats s).

Section Stats.
Context (day : Z → Z) (midnight : Z → Z).

Definition newServerMetrics (now : Z) : ServerStatistics :=
  mkServerStatistics (NewDateCounter day midnight ReserveDays now) (NewDateCounter day midnight ReserveDays now)
    NewCounter NewCounter ∅ ∅.

Definition NewClient (s : ServerStatistics) : ServerStatistics := with_clients s (cnt_Inc (ClientCounts s) 1).
Definition CloseClient (s : ServerStatistics) : ServerStatistics := with_clients s (cnt_Dec (ClientCounts s) 1).

Definition NewProxy (s : ServerStatistics) (now : Z) (name proxyType user clientID : string) : ServerStatistics :=
  let counter := default NewCounter (ProxyTypeCounts s !! proxyType) in
  let s := with_types s (<[proxyType := cnt_Inc counter 1]> (ProxyTypeCounts s)) in
  let fresh := mkProxyStatistics name proxyType "" "" (NewDateCounter day midnight ReserveDays now)
                 (NewDateCounter day midnight ReserveDays now) NewCounter 0 0 in
  let p := match ProxyStats s !! name with
           | Some p => if decide (ProxyType p = proxyType) then p else fresh
           | None => fresh
           end in
  with_proxies s (<[name := mkProxyStatistics (ps_Name p) (ProxyType p) user clientID (TrafficIn p) (TrafficOut p)
                              (CurConns p) now (LastCloseTime p)]> (ProxyStats s)).

Definition CloseProxy (s : ServerStatistics) (now : Z) (name proxyType : string) : ServerStatistics :=
  let s := match ProxyTypeCounts s !! proxyType with
           | Some c => with_types s (<[proxyType := cnt_Dec c 1]> (ProxyTypeCounts s))
           | None => s
           end in
  match ProxyStats s !! name with
  | None => s
  | Some p =>
      let p := set_close p now in
      let cur := CurConns p in
      if 0 <? cur
      then with_all (with_proxies s (<[name := set_conns p (cnt_Clear cur)]> (ProxyStats s)))
             (cnt_Dec (AllConns s) cur)
      else with_proxies s (<[name := p]> (ProxyStats s))
  end.

(** The two steps of [OpenConnection]: the total, then, under the lock, the
    proxy's own counter. *)
Definition OpenConnection_total (s : ServerStatistics) : ServerStatistics := with_all s (cnt_Inc (AllConns s) 1).
Definition OpenConnection_proxy (s : ServerStatistics) (name : string) : ServerStatistics :=
  match ProxyStats s !! name with
  | Some p => with_proxies s (<[name := set_conns p (cnt_Inc (CurConns p) 1)]> (ProxyStats s))
  | None => s
  end.
Definition OpenConnection (s : ServerStatistics) (name : string) : ServerStatistics :=
  OpenConnection_proxy (OpenConnection_total s) name.

Definition CloseConnection (s : ServerStatistics) (name : string) : ServerStatistics :=
  let s := if 0 <? AllConns s then with_all s (cnt_Dec (AllConns s) 1) else s in
  match ProxyStats s !! name with
  | Some p =>
      if 0 <? CurConns p
      then with_proxies s (<[name := set_conns p (cnt_Dec (CurConns p) 1)]> (ProxyStats s))
      else s
  | None => s
  end.

Definition AddTrafficIn (s : ServerStatistics) (now : Z) (name : string) (n : Z) : ServerStatistics :=
  let s := with_totals s (Inc day midnight (TotalTrafficIn s) now n) (TotalTrafficOut s) in
  match ProxyStats s !! name with
  | Some p => with_proxies s
      (<[name := set_traffic p (Inc day midnight (TrafficIn p) now n) (TrafficOut p)]> (ProxyStats s))
  | None => s
  end.

Definition AddTrafficOut (s : ServerStatistics) (now : Z) (name : string) (n : Z) : ServerStatistics :=
  let s := with_totals s (TotalTrafficIn s) (Inc day midnight (TotalTrafficOut s) now n) in
  match ProxyStats s !! name with
  | Some p => with_proxies s
      (<[name := set_traffic p (TrafficIn p) (Inc day midnight (TrafficOut p) now n)]> (ProxyStats s))
  | None => s
  end.

Definition shouldClearProxyStats (p : ProxyStatistics) (now d : Z) : bool :=
  negb (IsZero (LastCloseTime p)) && (LastStartTime p <? LastCloseTime p) && (d <? now - LastCloseTime p).

(** One pass of the loop over the names of the map, whatever their order. *)
Fixpoint clear_loop (m : gmap string ProxyStatistics) (names : list string) (now d : Z) (count : nat)
    : gmap string ProxyStatistics * nat :=
  match names with
  | [] => (m, count)
  | name :: names =>
      match m !! name with
      | Some p => if shouldClearProxyStats p now d then clear_loop (delete name m) names now d (S count)
                  else clear_loop m names now d count
      | None => clear_loop m names now d count
      end
  end.

Definition clearUselessInfo (s : ServerStatistics) (order : list string) (now d : Z)
    : ServerStatistics * (nat * nat) :=
  let total := size (ProxyStats s) in
  let '(m, count) := clear_loop (ProxyStats s) order now d 0 in
  (with_proxies s m, (count, total)).

Definition ClearOfflineProxies (s : ServerStatistics) (order : list string) (now : Z) :=
  clearUselessInfo s order now 0.
Definition PruneOfflineProxies (s : ServerStatistics) (order : list string) (now : Z) :=
  clearUselessInfo s order now 0.

(** Answers to the dashboard. Reading a counter of days rotates it. *)
Record ServerStats := mkServerStats {
  ss_TrafficIn : Z; ss_TrafficOut : Z; ss_CurConns : Z; ss_ClientCounts : Z; ss_TypeCounts : gmap string Z }.

Definition GetServer (s : ServerStatistics) (now : Z) : ServerStatistics * ServerStats :=
  let '(i, ti) := TodayCount day midnight (TotalTrafficIn s) now in
  let '(o, to) := TodayCount day midnight (TotalTrafficOut s) now in
  (with_totals s i o, mkServerStats ti to (AllConns s) (ClientCounts s) (ProxyTypeCounts s)).

(** The formatted times are left out: they are the same instants in text. *)
Record ProxyStatsView := mkProxyStatsView {
  v_Name : string; v_Type : string; v_User : string; v_ClientID : string;
  v_TrafficIn : Z; v_TrafficOut : Z; v_LastStartAt : Z; v_LastCloseAt : Z; v_CurConns : Z }.

(** Seconds since 1970 of an instant since the year 1. *)
Definition Unix (t : Z) : Z := t `div` 10 ^ 9 - 62135596800.

Definition toProxyStats (name : string) (p : ProxyStatistics) (now : Z) : ProxyStatistics * ProxyStatsView :=
  let '(i, ti) := TodayCount day midnight (TrafficIn p) now in
  let '(o, to) := TodayCount day midnight (TrafficOut p) now in
  (set_traffic p i o,
   mkProxyStatsView name (ProxyType p) (ps_User p) (ClientID p) ti to
     (if IsZero (LastStartTime p) then 0 else Unix (LastStartTime p))
     (if IsZero (LastCloseTime p) then 0 else Unix (LastCloseTime p)) (CurConns p)).

Definition GetProxyByName (s : ServerStatistics) (now : Z) (name : string) : ServerStatistics * option ProxyStatsView :=
  match ProxyStats s !! name with
  | Some p => let '(p, v) := toProxyStats name p now in (with_proxies s (<[name := p]> (ProxyStats s)), Some v)
  | None => (s, None)
  end.

Definition GetProxiesByTypeAndName (s : ServerStatistics) (now : Z) (proxyType name : string)
    : ServerStatistics * option ProxyStatsView :=
  match ProxyStats s !! name with
  | Some p => if decide (ProxyType p = proxyType) then GetProxyByName s now name else (s, None)
  | None => (s, None)
  end.

(** The loop over the names, whatever their order. *)
Fixpoint GetProxiesByType (s : ServerStatistics) (order : list string) (now : Z) (proxyType : string)
    : ServerStatistics * list ProxyStatsView :=
  match order with
  | [] => (s, [])
  | name :: order =>
      let '(s, v) := GetProxiesByTypeAndName s now proxyType name in
      let '(s, l) := GetProxiesByType s order now proxyType in
      (s, option_list v ++ l)
  end.

Definition GetProxyTraffic (s : ServerStatistics) (now : Z) (name : string)
    : option (ServerStatistics * option (list Z * list Z)) :=
  match ProxyStats s !! name with
  | Some p =>
      '(i, li) ← GetLastDaysCount day midnight (TrafficIn p) now ReserveDays;
      '(o, lo) ← GetLastDaysCount day midnight (TrafficOut p) now ReserveDays;
      Some (with_proxies s (<[name := set_traffic p i o]> (ProxyStats s)), Some (li, lo))
  | None => Some (s, None)
  end.

(** ** Forgetting offline proxies *)

Lemma clear_loop_spec names m now d count :
  NoDup names →
  clear_loop m names now d count =
  (filter (λ kv, ¬ (kv.1 ∈ names ∧ shouldClearProxyStats kv.2 now d)) m,
   (count + length (filter (λ n, from_option (λ p, shouldClearProxyStats p now d) false (m !! n)) names))%nat).
Proof using.
  clear day midnight.
  revert m count. induction names as [|name names IH]; intros m count Hnd.
  { cbn. rewrite Nat.add_0_r. f_equal. symmetry. apply map_filter_id. intros i x _ [[]%not_elem_of_nil _]. }
  apply NoDup_cons in Hnd as [Hni Hnd]. cbn [clear_loop]. rewrite filter_cons.
  destruct (m !! name) as [p|] eqn:Hp; cbn [from_option].
  - destruct (shouldClearProxyStats p now d) eqn:Hc; rewrite IH by done; f_equal.
    + apply map_eq. intros i. apply option_eq. intros x. rewrite !map_lookup_filter_Some, lookup_delete_Some, elem_of_cons.
      cbn. split; [intros ([? ?] & Hn); split; [done|]; intros [[->|?] ?]; tauto|].
      intros (Hi & Hn). split; [|tauto]. split; [|done]. intros <-. rewrite Hp in Hi. injection Hi as <-.
      apply Hn. rewrite Hc. split; [by left|done].
    + rewrite decide_True by done. cbn. rewrite Nat.add_succ_r. cbn. do 3 f_equal. apply filter_ext_in.
      intros n Hn. rewrite lookup_delete_ne by set_solver. done.
    + apply map_filter_ext. intros i x Hi. cbn. rewrite elem_of_cons. split; intros Hn [Hin Hs]; apply Hn; [|tauto].
      destruct Hin as [->|?]; [|done]. rewrite Hp in Hi. injection Hi as <-. by rewrite Hc in Hs.
  - rewrite IH by done. f_equal. apply map_filter_ext. intros i x Hi. cbn. rewrite elem_of_cons.
    split; intros Hn [Hin Hs]; apply Hn; [|tauto]. destruct Hin as [->|?]; [congruence|done].
Qed.

(** The clean-up forgets exactly the proxies whose last close is after
    their last start and longer ago than the given duration, in whatever order
    the map is visited; a proxy that is running is kept with its counters, the
    other counters stay, and the answer counts what was removed and what there
    was. *)
Theorem cleanup_exact s order now d :
  NoDup order → (∀ n, n ∈ order ↔ n ∈ dom (ProxyStats s)) →
  clearUselessInfo s order now d =
  (with_proxies s (filter (λ kv, ¬ shouldClearProxyStats kv.2 now d) (ProxyStats s)),
   (size (filter (λ kv, shouldClearProxyStats kv.2 now d) (ProxyStats s)), size (ProxyStats s))).
Proof using.
  intros Hnd Hdom. unfold clearUselessInfo. rewrite clear_loop_spec by done. cbn.
  assert (∀ n p, ProxyStats s !! n = Some p → n ∈ order) as Hin.
  { intros n p Hn. apply Hdom, elem_of_dom. by exists p. }
  f_equal; [f_equal|f_equal].
  - apply map_filter_ext. intros i x Hi. cbn. split; intros Hn H; apply Hn; [split; [by eapply Hin|done]|apply H].
  - rewrite <-size_dom. symmetry.
    rewrite <-(size_list_to_set (C := gset string)) by (apply NoDup_filter, Hnd).
    f_equal. apply leibniz_equiv. intros n. rewrite elem_of_list_to_set, list_elem_of_filter, elem_of_dom.
    split.
    + intros [p [Hp Hs]%map_lookup_filter_Some]. rewrite Hp. split; [done|by eapply Hin].
    + intros [Hs Hn]. destruct (ProxyStats s !! n) as [p|] eqn:Hp; [|done]. exists p.
      by apply map_lookup_filter_Some.
Qed.

(** ** The connections' counters *)

Inductive stat_op :=
  | ONewClient | OCloseClient
  | ONewProxy (now : Z) (name proxyType user clientID : string)
  | OCloseProxy (now : Z) (name proxyType : string)
  | OOpenTotal | OOpenProxy (name : string) | OCloseConn (name : string)
  | OTrafficIn (now : Z) (name : string) (n : Z) | OTrafficOut (now : Z) (name : string) (n : Z)
  | OClear (order : list string) (now d : Z)
  | OGetServer (now : Z) | OGetProxy (now : Z) (name : string).

Definition stat_step (s : ServerStatistics) (o : stat_op) : ServerStatistics :=
  match o with
  | ONewClient => NewClient s
  | OCloseClient => CloseClient s
  | ONewProxy now name ty u c => NewProxy s now name ty u c
  | OCloseProxy now name ty => CloseProxy s now name ty
  | OOpenTotal => OpenConnection_total s
  | OOpenProxy name => OpenConnection_proxy s name
  | OCloseConn name => CloseConnection s name
  | OTrafficIn now name n => AddTrafficIn s now name n
  | OTrafficOut now name n => AddTrafficOut s now name n
  | OClear order now d => (clearUselessInfo s order now d).1
  | OGetServer now => (GetServer s now).1
  | OGetProxy now name => (GetProxyByName s now name).1
  end.

Definition opens (name : string) (l : list stat_op) : Z :=
  foldr (λ o acc, match o with OOpenProxy n => if decide (n = name) then 1 + acc else acc | _ => acc end) 0 l.

(** Every proxy's counter of connections lies between zero and [f]. *)
Definition conns_within (f : string → Z) (s : ServerStatistics) : Prop :=
  ∀ name p, ProxyStats s !! name = Some p → 0 ≤ CurConns p ≤ f name.

Lemma conns_within_insert f s name p :
  conns_within f s → 0 ≤ CurConns p ≤ f name →
  ∀ n q, <[name := p]> (ProxyStats s) !! n = Some q → 0 ≤ CurConns q ≤ f n.
Proof. intros Hs Hp n q [[<- <-]|[_ Hq]]%lookup_insert_Some; [done|by apply (Hs n)]. Qed.

Lemma clear_loop_sub names m now d count n p :
  (clear_loop m names now d count).1 !! n = Some p → m !! n = Some p.
Proof.
  revert m count. induction names as [|name names IH]; intros m count; [done|]. cbn.
  destruct (m !! name) as [q|]; [|apply IH]. destruct (shouldClearProxyStats q now d); [|apply IH].
  intros H%IH. by apply lookup_delete_Some in H as [_ ?].
Qed.

Lemma conns_within_step f g s o :
  conns_within f s → (∀ n, 0 ≤ f n ≤ g n ∧ g n < 2 ^ 31) →
  (∀ n, o = OOpenProxy n → f n + 1 ≤ g n) → conns_within g (stat_step s o).
Proof.
  intros Hs Hfg Hopen.
  assert (conns_within g s) as Hg.
  { intros n p Hn. pose proof (Hs n p Hn). specialize (Hfg n). lia. }
  destruct o; cbn [stat_step]; try exact Hg.
  - unfold NewProxy. intros n p. cbn. apply (conns_within_insert g s name); [done|].
    destruct (ProxyStats s !! name) as [q|] eqn:Hq; [destruct (decide (ProxyType q = proxyType))|]; cbn;
      [by apply (Hg name q)|unfold NewCounter; specialize (Hfg name); lia..].
  - unfold CloseProxy. set (s1 := match ProxyTypeCounts s !! proxyType with Some _ => _ | None => _ end).
    assert (ProxyStats s1 = ProxyStats s) as -> by (unfold s1; by case_match).
    destruct (ProxyStats s !! name) as [q|] eqn:Hq; [|unfold s1; case_match; exact Hg].
    specialize (Hg name q Hq) as Hq'. intros n p.
    case_match; cbn; apply (conns_within_insert g s name); try done; cbn; unfold cnt_Clear; lia.
  - unfold OpenConnection_proxy. destruct (ProxyStats s !! name) as [q|] eqn:Hq; [|exact Hg].
    intros n' p. cbn. apply (conns_within_insert g s name); [exact Hg|].
    specialize (Hs name q Hq). specialize (Hfg name). specialize (Hopen name eq_refl). cbn.
    unfold cnt_Inc. rewrite int32_small by lia. lia.
  - unfold CloseConnection. set (s1 := if 0 <? AllConns s then _ else _).
    assert (ProxyStats s1 = ProxyStats s) as Hs1 by (unfold s1; by case_match). rewrite Hs1.
    assert (conns_within g s1) as Hw by (intros n p; rewrite Hs1; apply Hg).
    destruct (ProxyStats s !! name) as [q|] eqn:Hq; [|exact Hw].
    destruct (Z.ltb_spec 0 (CurConns q)); [|exact Hw]. intros n' p. cbn. try rewrite Hs1.
    apply (conns_within_insert g s name); [exact Hg|].
    specialize (Hg name q Hq). specialize (Hfg name). cbn [CurConns set_conns].
    rewrite cnt_Dec_small by lia. lia.
  - unfold AddTrafficIn. cbn. destruct (ProxyStats s !! name) as [q|] eqn:Hq; [|exact Hg].
    intros n' p. cbn. apply (conns_within_insert g s name); [exact Hg|apply (Hg name q Hq)].
  - unfold AddTrafficOut. cbn. destruct (ProxyStats s !! name) as [q|] eqn:Hq; [|exact Hg].
    intros n' p. cbn. apply (conns_within_insert g s name); [exact Hg|apply (Hg name q Hq)].
  - unfold clearUselessInfo. destruct (clear_loop _ _ _ _ _) as [m c] eqn:Hc. intros n p Hn. apply (Hg n).
    apply (clear_loop_sub order _ now d 0). by rewrite Hc.
  - unfold GetProxyByName. destruct (ProxyStats s !! name) as [q|] eqn:Hq; [|exact Hg].
    cbn. intros n' p. cbn. apply (conns_within_insert g s name); [exact Hg|apply (Hg name q Hq)].
Qed.

Lemma opens_app n l1 l2 : opens n (l1 ++ l2) = opens n l1 + opens n l2.
Proof.
  induction l1 as [|o l1 IH]; [done|]. unfold opens in *. cbn. rewrite IH. destruct o; try done.
  destruct (decide _); lia.
Qed.

Lemma opens_nonneg n l : 0 ≤ opens n l.
Proof.
  induction l as [|o l IH]; [done|]. unfold opens in *. cbn. destruct o; try done. destruct (decide _); lia.
Qed.

(** Through any interleaving of the operations, the two steps of opening
    a connection included, the number of connections shown for a proxy is never
    negative and never more than were opened for its name, as long as fewer
    than 2^31 were. *)
Theorem proxy_conns_bounded l now :
  (∀ n, opens n l < 2 ^ 31) →
  ∀ name p, ProxyStats (foldl stat_step (newServerMetrics now) l) !! name = Some p →
  0 ≤ CurConns p ≤ opens name l.
Proof.
  intros Hb. change (conns_within (λ n, opens n l) (foldl stat_step (newServerMetrics now) l)).
  induction l as [|o l IH] using rev_ind; [by intros n p Hp; destruct (lookup_empty_Some n p Hp)|].
  rewrite foldl_app. cbn [foldl]. setoid_rewrite opens_app in Hb.
  assert (conns_within (λ n, opens n l) (foldl stat_step (newServerMetrics now) l)) as Hl.
  { apply IH. intros n. specialize (Hb n). pose proof (opens_nonneg n [o]). lia. }
  apply (conns_within_step _ _ _ o Hl); intros n; rewrite opens_app.
  - specialize (Hb n). pose proof (opens_nonneg n l). pose proof (opens_nonneg n [o]). lia.
  - intros ->. unfold opens. cbn. rewrite decide_True by done. lia.
Qed.

(** The total of the connections does go negative, against the comment in
    [CloseConnection] and though every connection is opened before it is closed
    and closed once: the reset of a closing proxy already takes its connection
    off the total, the connection's own close takes another one off, and the
    total then lacks the connection of a second proxy, which the second
    proxy's reset and close leave at -1 for good. *)
Theorem total_goes_negative now t1 t2 t3 u c :
  let s := CloseConnection (CloseProxy (CloseConnection (OpenConnection (CloseProxy
             (OpenConnection (NewProxy (NewProxy (newServerMetrics now) t1 "a" "tcp" u c) t1 "b" "tcp" u c) "a")
             t2 "a" "tcp") "b") "a") t3 "b" "tcp") "b" in
  AllConns s = -1 ∧ ss_CurConns (GetServer s t3).2 = -1 ∧
  CurConns <$> ProxyStats s !! "a" = Some 0 ∧ CurConns <$> ProxyStats s !! "b" = Some 0.
Proof. vm_compute. repeat split. Qed.
End Stats.

(** A proxy closed a day ago, one restarted since, and one never closed. *)
Definition demo_stats : ServerStatistics :=
  let n := NewProxy utc_day utc_midnight in
  n (CloseProxy (CloseProxy
      (n (n (n (newServerMetrics utc_day utc_midnight Hour) Hour "a" "tcp" "" "") Hour "b" "tcp" "" "") Hour "c" "udp" "" "")
      (2 * Hour) "a" "tcp") (2 * Hour) "b" "tcp") (3 * Hour) "b" "tcp" "" "".

Definition demo_order : list string := ["c"; "a"; "b"].

Lemma demo_order_dom n : n ∈ demo_order ↔ n ∈ dom (ProxyStats demo_stats).
Proof.
  assert (dom (ProxyStats demo_stats) = list_to_set demo_order) as ->
    by exact (bool_decide_eq_true_1 (dom (ProxyStats demo_stats) = list_to_set demo_order) eq_refl).
  by rewrite elem_of_list_to_set.
Qed.

Lemma demo_order_NoDup : NoDup demo_order.
Proof. unfold demo_order. repeat (apply NoDup_cons_2; [set_solver|]). constructor. Qed.

Example cleanup_exact_witness :
  (clearUselessInfo demo_stats demo_order (26 * Hour + 1) (24 * Hour)).2 = (1%nat, 3%nat) ∧
  dom (ProxyStats (clearUselessInfo demo_stats demo_order (26 * Hour + 1) (24 * Hour)).1) = {["b"; "c"]}.
Proof.
  rewrite (cleanup_exact demo_stats demo_order (26 * Hour + 1) (24 * Hour)
    demo_order_NoDup demo_order_dom).
  split; [vm_compute; reflexivity|].
  exact (bool_decide_eq_true_1 (dom (filter (λ kv, ¬ shouldClearProxyStats kv.2 (26 * Hour + 1) (24 * Hour))
    (ProxyStats demo_stats)) = {["b"; "c"]}) eq_refl).
Defined.

Definition demo_ops : list stat_op :=
  [ONewProxy 1 "a" "tcp" "" ""; OOpenTotal; OOpenProxy "a"; OCloseProxy 2 "a" "tcp"; OCloseConn "a"].

Example proxy_conns_bounded_witness :
  let m := ProxyStats (foldl (stat_step utc_day utc_midnight) (newServerMetrics utc_day utc_midnight 0) demo_ops) in
  ∃ p, m !! "a" = Some p ∧ 0 ≤ CurConns p ≤ 1.
Proof.
  eexists. split; [vm_compute; reflexivity|].
  apply (proxy_conns_bounded utc_day utc_midnight demo_ops 0) with (name := "a").
  - intros n. unfold opens. cbn. destruct (decide ("a" = n)); lia.
  - vm_compute. reflexivity.
Defined.
End Metrics.
