(* ===== verification/VisitorConfig.v ===== *)
(** Configurations of visitors: pkg/config/v1/visitor.go and visitor_plugin.go,
    with their validation, pkg/config/v1/validation/visitor.go. *)
From Stdlib Require Import ZArith Lia Ascii String.
From stdpp Require Import base gmap strings list.
From S2P Require Import Prelude GoLib Wire Msg Ports ConfigTypes Config.

Local Open Scope Z_scope.

Module VisitorConfig.

Record VirtualNetVisitorPluginOptions := mkVirtualNetVisitor {
  vnv_Type : string; vnv_DestinationIP : string }.

Record TypedVisitorPluginOptions := mkTypedVisitorPlugin {
  vp_Type : string; vp_Options : option VirtualNetVisitorPluginOptions }.

Record VisitorTransport := mkVisitorTransport { vt_UseEncryption : bool; vt_UseCompression : bool }.

Record VisitorBaseConfig := mkVisitorBase {
  Name : string; Type_ : string; Enabled : option bool; Transport : VisitorTransport;
  SecretKey : string; ServerUser : string; ServerName : string; BindAddr : string; BindPort : Z;
  Plugin : TypedVisitorPluginOptions }.

Record STCPVisitorConfig := mkSTCPVisitor { vstcp_base : VisitorBaseConfig }.
Record SUDPVisitorConfig := mkSUDPVisitor { vsudp_base : VisitorBaseConfig }.
Record STCPSUDPVisitorConfig := mkSTCPSUDPVisitor { vss_base : VisitorBaseConfig }.
Record XTCPVisitorConfig := mkXTCPVisitor {
  vxtcp_base : VisitorBaseConfig; vxtcp_Protocol : string; vxtcp_KeepTunnelOpen : bool;
  vxtcp_MaxRetriesAnHour : Z; vxtcp_MinRetryInterval : Z; vxtcp_FallbackTo : string;
  vxtcp_FallbackTimeoutMs : Z; vxtcp_NatTraversal : option Config.NatTraversalConfig }.
Record XUDPVisitorConfig := mkXUDPVisitor {
  vxudp_base : VisitorBaseConfig; vxudp_Protocol : string; vxudp_KeepTunnelOpen : bool;
  vxudp_MaxRetriesAnHour : Z; vxudp_MinRetryInterval : Z;
  vxudp_NatTraversal : option Config.NatTraversalConfig }.
Record XTCPXUDPVisitorConfig := mkXTCPXUDPVisitor {
  vxx_base : VisitorBaseConfig; vxx_Protocol : string; vxx_KeepTunnelOpen : bool;
  vxx_MaxRetriesAnHour : Z; vxx_MinRetryInterval : Z; vxx_FallbackTimeoutMs : Z;
  vxx_NatTraversal : option Config.NatTraversalConfig }.

Inductive VisitorConfigurer :=
| VSTCP (c : STCPVisitorConfig) | VXTCP (c : XTCPVisitorConfig) | VSUDP (c : SUDPVisitorConfig)
| VXUDP (c : XUDPVisitorConfig) | VSTCPSUDP (c : STCPSUDPVisitorConfig) | VXTCPXUDP (c : XTCPXUDPVisitorConfig).

Definition GetBaseConfig (c : VisitorConfigurer) : VisitorBaseConfig :=
  match c with
  | VSTCP c => vstcp_base c | VXTCP c => vxtcp_base c | VSUDP c => vsudp_base c
  | VXUDP c => vxudp_base c | VSTCPSUDP c => vss_base c | VXTCPXUDP c => vxx_base c
  end.

Definition type_of (c : VisitorConfigurer) : string :=
  match c with
  | VSTCP _ => "stcp" | VXTCP _ => "xtcp" | VSUDP _ => "sudp" | VXUDP _ => "xudp"
  | VSTCPSUDP _ => "stcp+sudp" | VXTCPXUDP _ => "xtcp+xudp"
  end.

(** ** New configurers *)

Definition zero_visitor_base (t : string) : VisitorBaseConfig :=
  mkVisitorBase "" t None (mkVisitorTransport false false) "" "" "" "" 0 (mkTypedVisitorPlugin "" None).

Definition NewVisitorConfigurerByType (t : string) : option VisitorConfigurer :=
  let b := zero_visitor_base t in
  if String.eqb t "stcp" then Some (VSTCP (mkSTCPVisitor b))
  else if String.eqb t "xtcp" then Some (VXTCP (mkXTCPVisitor b "" false 0 0 "" 0 None))
  else if String.eqb t "sudp" then Some (VSUDP (mkSUDPVisitor b))
  else if String.eqb t "xudp" then Some (VXUDP (mkXUDPVisitor b "" false 0 0 None))
  else if String.eqb t "stcp+sudp" then Some (VSTCPSUDP (mkSTCPSUDPVisitor b))
  else if String.eqb t "xtcp+xudp" then Some (VXTCPXUDP (mkXTCPXUDPVisitor b "" false 0 0 0 None))
  else None.

(** ** Completion *)

(** [util.EmptyOr] on integers. *)
Definition ZeroOr (v fallback : Z) : Z := if v =? 0 then fallback else v.

Definition base_Complete (c : VisitorBaseConfig) : VisitorBaseConfig :=
  mkVisitorBase (Name c) (Type_ c) (Enabled c) (Transport c) (SecretKey c) (ServerUser c) (ServerName c)
    (if String.eqb (BindAddr c) "" then "127.0.0.1" else BindAddr c) (BindPort c) (Plugin c).

Definition XTCP_Complete (c : XTCPVisitorConfig) : XTCPVisitorConfig :=
  mkXTCPVisitor (base_Complete (vxtcp_base c)) (Config.EmptyOr (vxtcp_Protocol c) "quic")
    (vxtcp_KeepTunnelOpen c) (ZeroOr (vxtcp_MaxRetriesAnHour c) 8) (ZeroOr (vxtcp_MinRetryInterval c) 90)
    (vxtcp_FallbackTo c) (ZeroOr (vxtcp_FallbackTimeoutMs c) 1000) (vxtcp_NatTraversal c).
Definition XUDP_Complete (c : XUDPVisitorConfig) : XUDPVisitorConfig :=
  mkXUDPVisitor (base_Complete (vxudp_base c)) (Config.EmptyOr (vxudp_Protocol c) "quic")
    (vxudp_KeepTunnelOpen c) (ZeroOr (vxudp_MaxRetriesAnHour c) 8) (ZeroOr (vxudp_MinRetryInterval c) 90)
    (vxudp_NatTraversal c).
Definition XTCPXUDP_Complete (c : XTCPXUDPVisitorConfig) : XTCPXUDPVisitorConfig :=
  mkXTCPXUDPVisitor (base_Complete (vxx_base c)) (Config.EmptyOr (vxx_Protocol c) "quic")
    (vxx_KeepTunnelOpen c) (ZeroOr (vxx_MaxRetriesAnHour c) 8) (ZeroOr (vxx_MinRetryInterval c) 90)
    (ZeroOr (vxx_FallbackTimeoutMs c) 1000) (vxx_NatTraversal c).

Definition Complete (c : VisitorConfigurer) : VisitorConfigurer :=
  match c with
  | VSTCP c => VSTCP (mkSTCPVisitor (base_Complete (vstcp_base c)))
  | VSUDP c => VSUDP (mkSUDPVisitor (base_Complete (vsudp_base c)))
  | VSTCPSUDP c => VSTCPSUDP (mkSTCPSUDPVisitor (base_Complete (vss_base c)))
  | VXTCP c => VXTCP (XTCP_Complete c)
  | VXUDP c => VXUDP (XUDP_Complete c)
  | VXTCPXUDP c => VXTCPXUDP (XTCPXUDP_Complete c)
  end.

(** ** Validation *)

Inductive visitor_error := ErrVisitorName | ErrServerName | ErrBindPort | ErrProtocol.

Definition validateVisitorBaseConfig (c : VisitorBaseConfig) : option visitor_error :=
  if String.eqb (Name c) "" then Some ErrVisitorName
  else if String.eqb (ServerName c) "" then Some ErrServerName
  else if BindPort c =? 0 then Some ErrBindPort
  else None.

Definition validate_protocol (p : string) : option visitor_error :=
  if Config.str_in p ["kcp"; "quic"] then None else Some ErrProtocol.

Definition validateXTCPVisitorConfig (c : XTCPVisitorConfig) : option visitor_error :=
  validate_protocol (vxtcp_Protocol c).
Definition validateXUDPVisitorConfig (c : XUDPVisitorConfig) : option visitor_error :=
  validate_protocol (vxudp_Protocol c).
Definition validateXTCPXUDPVisitorConfig (c : XTCPXUDPVisitorConfig) : option visitor_error :=
  validate_protocol (vxx_Protocol c).

Definition ValidateVisitorConfigurer (c : VisitorConfigurer) : option visitor_error :=
  match validateVisitorBaseConfig (GetBaseConfig c) with
  | Some e => Some e
  | None =>
      match c with
      | VSTCP _ | VSUDP _ | VSTCPSUDP _ => None
      | VXTCP v => validateXTCPVisitorConfig v
      | VXUDP v => validateXUDPVisitorConfig v
      | VXTCPXUDP v => validateXTCPXUDPVisitorConfig v
      end
  end.

(** ** Equality

    [reflect.DeepEqual]. *)

#[export] Instance VirtualNetVisitorPluginOptions_eq_dec : EqDecision VirtualNetVisitorPluginOptions.
Proof. solve_decision. Defined.
#[export] Instance TypedVisitorPluginOptions_eq_dec : EqDecision TypedVisitorPluginOptions.
Proof. solve_decision. Defined.
#[export] Instance VisitorTransport_eq_dec : EqDecision VisitorTransport.
Proof. solve_decision. Defined.
#[export] Instance VisitorBaseConfig_eq_dec : EqDecision VisitorBaseConfig.
Proof. solve_decision. Defined.
#[export] Instance visitor_NatTraversal_eq_dec : EqDecision Config.NatTraversalConfig.
Proof. solve_decision. Defined.
#[export] Instance STCPVisitorConfig_eq_dec : EqDecision STCPVisitorConfig.
Proof. solve_decision. Defined.
#[export] Instance SUDPVisitorConfig_eq_dec : EqDecision SUDPVisitorConfig.
Proof. solve_decision. Defined.
#[export] Instance STCPSUDPVisitorConfig_eq_dec : EqDecision STCPSUDPVisitorConfig.
Proof. solve_decision. Defined.
#[export] Instance XTCPVisitorConfig_eq_dec : EqDecision XTCPVisitorConfig.
Proof. solve_decision. Defined.
#[export] Instance XUDPVisitorConfig_eq_dec : EqDecision XUDPVisitorConfig.
Proof. solve_decision. Defined.
#[export] Instance XTCPXUDPVisitorConfig_eq_dec : EqDecision XTCPXUDPVisitorConfig.
Proof. solve_decision. Defined.
#[export] Instance VisitorConfigurer_eq_dec : EqDecision VisitorConfigurer.
Proof. solve_decision. Defined.

(** ** Lemmas *)

Lemma Complete_name c : Name (GetBaseConfig (Complete c)) = Name (GetBaseConfig c).
Proof. by destruct c. Qed.

Lemma Complete_enabled c : Enabled (GetBaseConfig (Complete c)) = Enabled (GetBaseConfig c).
Proof. by destruct c. Qed.

Lemma base_Complete_idem c : base_Complete (base_Complete c) = base_Complete c.
Proof. unfold base_Complete. cbn. destruct (String.eqb_spec (BindAddr c) "") as [|Hn]; [done|].
  by rewrite (proj2 (String.eqb_neq _ _) Hn). Qed.

Lemma EmptyOr_idem v d : Config.EmptyOr (Config.EmptyOr v d) d = Config.EmptyOr v d.
Proof. unfold Config.EmptyOr. destruct (String.eqb v "") eqn:E; [by destruct (String.eqb d "")|by rewrite E]. Qed.

Lemma ZeroOr_idem v d : ZeroOr (ZeroOr v d) d = ZeroOr v d.
Proof. unfold ZeroOr. destruct (v =? 0) eqn:E; [by destruct (d =? 0)|by rewrite E]. Qed.

(** Completing twice is completing once. *)
Lemma visitor_Complete_idem c : Complete (Complete c) = Complete c.
Proof.
  destruct c; cbn; unfold XTCP_Complete, XUDP_Complete, XTCPXUDP_Complete; cbn;
    by rewrite base_Complete_idem, ?EmptyOr_idem, ?ZeroOr_idem.
Qed.
End VisitorConfig.
