(* ===== verification/Visitors.v ===== *)
(** The visitors of a client: client/visitor/visitor_manager.go.

    A visitor is an object that holds a listener and, for the types that punch
    holes, a tunnel; it is open from its successful [Run] to its [Close]. The
    manager's mutex makes its operations atomic; the goroutine that restarts
    visitors makes its rounds between them. Whether [NewVisitor] and [Run]
    succeed is an argument. *)
From Stdlib Require Import ZArith Lia Ascii String.
From stdpp Require Import base gmap strings list fin_maps relations.
From S2P Require Import Prelude GoLib Wire Msg Ports ConfigTypes Config VisitorConfig.

Local Open Scope Z_scope.

Module Visitors.
Import VisitorConfig.

Definition cfg_name (c : VisitorConfigurer) : string := Name (GetBaseConfig c).

Record Manager := mkManager {
  cfgs : gmap string VisitorConfigurer;
  visitors : gmap string nat;                      (* the visitor of a name *)
  objects : gmap nat (VisitorConfigurer * bool);   (* all created so far, open or not *)
  next : nat;
  keeping : bool;                                  (* keepVisitorsRunning was started *)
  stopped : bool }.                                (* stopCh is closed *)

Definition NewManager : Manager := mkManager ∅ ∅ ∅ 0 false false.

Definition set_cfgs (m : Manager) (c : gmap string VisitorConfigurer) : Manager :=
  mkManager c (visitors m) (objects m) (next m) (keeping m) (stopped m).

(** [Visitor.Close] of one object. *)
Definition close_object (id : nat) (m : Manager) : Manager :=
  mkManager (cfgs m) (visitors m) (alter (λ o, (o.1, false)) id (objects m)) (next m) (keeping m) (stopped m).

Definition startVisitor (run_ok : VisitorConfigurer → bool) (cfg : VisitorConfigurer) (m : Manager) : Manager :=
  if run_ok cfg
  then mkManager (cfgs m) (<[cfg_name cfg := next m]> (visitors m)) (<[next m := (cfg, true)]> (objects m))
         (S (next m)) (keeping m) (stopped m)
  else m.

(** One tick of [keepVisitorsRunning], over the configurations in some order. *)
Fixpoint keep_round (run_ok : VisitorConfigurer → bool) (order : list VisitorConfigurer) (m : Manager) : Manager :=
  match order with
  | [] => m
  | cfg :: rest =>
      keep_round run_ok rest
        (match visitors m !! cfg_name cfg with Some _ => m | None => startVisitor run_ok cfg m end)
  end.

(** [lo.KeyBy]: of several configurations with a name, the last one. *)
Definition KeyBy (l : list VisitorConfigurer) (name : string) : option VisitorConfigurer :=
  last (filter (λ c, cfg_name c = name) l).

(** The body of the first loop of [UpdateAll] for an outdated name. *)
Definition remove_visitor (name : string) (m : Manager) : Manager :=
  let m := set_cfgs m (delete name (cfgs m)) in
  let m := match visitors m !! name with Some id => close_object id m | None => m end in
  mkManager (cfgs m) (delete name (visitors m)) (objects m) (next m) (keeping m) (stopped m).

Fixpoint remove_loop (l : list VisitorConfigurer) (order : list (string * VisitorConfigurer)) (m : Manager) : Manager :=
  match order with
  | [] => m
  | (name, oldCfg) :: rest =>
      remove_loop l rest
        (if decide (KeyBy l name = Some oldCfg) then m else remove_visitor name m)
  end.

Fixpoint add_loop (run_ok : VisitorConfigurer → bool) (l : list VisitorConfigurer) (m : Manager) : Manager :=
  match l with
  | [] => m
  | cfg :: rest =>
      add_loop run_ok rest
        (match cfgs m !! cfg_name cfg with
         | Some _ => m
         | None => startVisitor run_ok cfg (set_cfgs m (<[cfg_name cfg := cfg]> (cfgs m)))
         end)
  end.

Definition UpdateAll (run_ok : VisitorConfigurer → bool) (l : list VisitorConfigurer)
    (order : list (string * VisitorConfigurer)) (m : Manager) : Manager :=
  let m := mkManager (cfgs m) (visitors m) (objects m) (next m)
             (match l with [] => keeping m | _ => true end) (stopped m) in
  add_loop run_ok l (remove_loop l order m).

(** [Close]: the visitors stay in the table. *)
Fixpoint close_loop (ids : list nat) (m : Manager) : Manager :=
  match ids with [] => m | id :: rest => close_loop rest (close_object id m) end.
Definition Close (m : Manager) : Manager :=
  let m := close_loop (map_to_list (visitors m)).*2 m in
  mkManager (cfgs m) (visitors m) (objects m) (next m) (keeping m) true.

Definition TransferConn (m : Manager) (name : string) : option nat := visitors m !! name.
Definition GetVisitorCfg (m : Manager) (name : string) : option VisitorConfigurer := cfgs m !! name.

(** ** Steps

    The restarting goroutine waits for its ticker or for [stopCh], and may take
    a tick although [stopCh] is closed. *)
Inductive vstep (m : Manager) : Manager → Prop :=
| VUpdate run_ok l order :
    stopped m = false → order ≡ₚ map_to_list (cfgs m) → vstep m (UpdateAll run_ok l order m)
| VTick run_ok order :
    keeping m = true → order ≡ₚ (map_to_list (cfgs m)).*2 → vstep m (keep_round run_ok order m)
| VClose : vstep m (Close m).

Definition vreachable (m : Manager) : Prop := rtc vstep NewManager m.

(** ** The invariant *)

Record vwf (m : Manager) : Prop := {
  vwf_cfgs : ∀ name c, cfgs m !! name = Some c → cfg_name c = name;
  vwf_visitors : ∀ name id, visitors m !! name = Some id →
    ∃ c, cfgs m !! name = Some c ∧ fst <$> objects m !! id = Some c;
  vwf_open : ∀ id c, objects m !! id = Some (c, true) → visitors m !! cfg_name c = Some id;
  vwf_next : ∀ id, is_Some (objects m !! id) → (id < next m)%nat
}.

(** While the manager is not closed, what is in the table is open. *)
Definition table_open (m : Manager) : Prop :=
  ∀ name id, visitors m !! name = Some id → ∃ c, objects m !! id = Some (c, true).

Lemma vwf_keeping m k s :
  vwf m → vwf (mkManager (cfgs m) (visitors m) (objects m) (next m) k s).
Proof. by intros [? ? ? ?]. Qed.

Lemma visitor_of_name m name id c o :
  vwf m → visitors m !! name = Some id → objects m !! id = Some (c, o) → cfg_name c = name ∧ cfgs m !! name = Some c.
Proof.
  intros Hw Hv Ho. destruct (vwf_visitors _ Hw _ _ Hv) as (c' & Hc & Hx). rewrite Ho in Hx. injection Hx as <-.
  split; [by apply (vwf_cfgs _ Hw)|done].
Qed.

Lemma vwf_close_object m id : vwf m → vwf (close_object id m).
Proof.
  intros Hw. split; cbn; [apply Hw| | |].
  - intros name i Hi. destruct (vwf_visitors _ Hw _ _ Hi) as (c & Hc & Ho). exists c. split; [done|].
    destruct (decide (i = id)) as [->|Hne]; [|by rewrite lookup_alter_ne].
    rewrite lookup_alter_eq. by destruct (objects m !! id) as [[c' o]|].
  - intros i c. destruct (decide (i = id)) as [->|Hne].
    + rewrite lookup_alter_eq. by destruct (objects m !! id) as [[c' o]|].
    + rewrite lookup_alter_ne by done. apply Hw.
  - intros i. destruct (decide (i = id)) as [->|Hne].
    + rewrite lookup_alter_eq, fmap_is_Some. apply Hw.
    + rewrite lookup_alter_ne by done. apply Hw.
Qed.

Lemma vwf_start run_ok cfg m :
  vwf m → cfgs m !! cfg_name cfg = Some cfg → visitors m !! cfg_name cfg = None → vwf (startVisitor run_ok cfg m).
Proof.
  intros Hw Hc Hv. unfold startVisitor. destruct (run_ok cfg); [|done].
  assert (objects m !! next m = None) as Hnew.
  { destruct (objects m !! next m) eqn:E; [|done]. pose proof (vwf_next _ Hw (next m)) as H.
    rewrite E in H. specialize (H (mk_is_Some _ _ eq_refl)). lia. }
  split; cbn; [apply Hw| | |].
  - intros name id [[<- <-]|[Hne Hi]]%lookup_insert_Some; [exists cfg; by rewrite lookup_insert_eq|].
    destruct (vwf_visitors _ Hw _ _ Hi) as (c & Hcc & Ho). exists c. split; [done|].
    rewrite lookup_insert_ne; [done|]. intros <-. by rewrite Hnew in Ho.
  - intros id c [[<- [= <-]]|[Hne Hi]]%lookup_insert_Some; [by rewrite lookup_insert_eq|].
    apply lookup_insert_Some. right. split; [|by apply Hw]. intros Heq.
    pose proof (vwf_open _ Hw _ _ Hi) as Hx. rewrite <-Heq in Hx. congruence.
  - intros id [o [[<- _]|[_ Hi]]%lookup_insert_Some]; [lia|].
    pose proof (vwf_next _ Hw id (mk_is_Some _ _ Hi)). lia.
Qed.

Lemma table_open_start run_ok cfg m : table_open m → vwf m → table_open (startVisitor run_ok cfg m).
Proof.
  intros Ht Hw. unfold startVisitor. destruct (run_ok cfg); [|done].
  intros name id. cbn. intros [[<- <-]|[_ Hi]]%lookup_insert_Some; [exists cfg; by rewrite lookup_insert_eq|].
  destruct (Ht _ _ Hi) as (c & Ho). exists c. rewrite lookup_insert_ne; [done|]. intros Heq.
  pose proof (vwf_next _ Hw id (mk_is_Some _ _ Ho)). lia.
Qed.

(** What removing a visitor does: its entries go, its object is closed, and
    all else stays. *)
Lemma remove_visitor_spec name m :
  vwf m →
  let m' := remove_visitor name m in
  vwf m' ∧ cfgs m' = delete name (cfgs m) ∧ visitors m' = delete name (visitors m) ∧
  next m' = next m ∧ keeping m' = keeping m ∧ stopped m' = stopped m ∧
  (∀ id, visitors m !! name ≠ Some id → objects m' !! id = objects m !! id) ∧
  (∀ id c o, visitors m !! name = Some id → objects m !! id = Some (c, o) → objects m' !! id = Some (c, false)).
Proof.
  intros Hw. unfold remove_visitor. cbn. destruct (visitors m !! name) as [id0|] eqn:Hv; cbn; split_and!; try done.
  - split; cbn.
    + intros n c [_ Hc]%lookup_delete_Some. by apply (vwf_cfgs _ Hw).
    + intros n id [Hne Hi]%lookup_delete_Some. destruct (vwf_visitors _ Hw _ _ Hi) as (c & Hc & Ho). exists c.
      rewrite lookup_delete_ne by done. split; [done|].
      destruct (decide (id = id0)) as [->|Hid]; [|by rewrite lookup_alter_ne].
      rewrite lookup_alter_eq. by destruct (objects m !! id0) as [[]|].
    + intros id c. destruct (decide (id = id0)) as [->|Hid].
      * rewrite lookup_alter_eq. by destruct (objects m !! id0) as [[]|].
      * rewrite lookup_alter_ne by done. intros Ho. apply lookup_delete_Some.
        pose proof (vwf_open _ Hw _ _ Ho) as Hx. split; [|done]. intros ->. congruence.
    + intros id. destruct (decide (id = id0)) as [->|Hid].
      * rewrite lookup_alter_eq, fmap_is_Some. apply Hw.
      * rewrite lookup_alter_ne by done. apply Hw.
  - intros id Hne. rewrite lookup_alter_ne; [done|congruence].
  - intros id c o [= <-] Ho. by rewrite lookup_alter_eq, Ho.
  - split; cbn.
    + intros n c [_ Hc]%lookup_delete_Some. by apply (vwf_cfgs _ Hw).
    + intros n id [Hne Hi]%lookup_delete_Some. rewrite lookup_delete_ne by done. by apply (vwf_visitors _ Hw).
    + intros id c Ho. apply lookup_delete_Some. pose proof (vwf_open _ Hw _ _ Ho) as Hx. split; [|done].
      intros ->. congruence.
    + apply Hw.
Qed.

Lemma table_open_remove name m : vwf m → table_open m → table_open (remove_visitor name m).
Proof.
  intros Hw Ht n id. destruct (remove_visitor_spec name m Hw) as (_ & _ & Hvs & _ & _ & _ & Hsame & _).
  rewrite Hvs. intros [Hne Hi]%lookup_delete_Some. destruct (Ht _ _ Hi) as (c & Ho). exists c.
  rewrite Hsame; [done|]. intros Hn.
  destruct (visitor_of_name _ _ _ _ _ Hw Hi Ho), (visitor_of_name _ _ _ _ _ Hw Hn Ho). congruence.
Qed.

Lemma visitors_inj m n1 n2 id :
  vwf m → visitors m !! n1 = Some id → visitors m !! n2 = Some id → n1 = n2.
Proof.
  intros Hw H1 H2. destruct (vwf_visitors _ Hw _ _ H1) as (c1 & C1 & O1), (vwf_visitors _ Hw _ _ H2) as (c2 & C2 & O2).
  rewrite O1 in O2. injection O2 as <-. apply (vwf_cfgs _ Hw) in C1, C2. congruence.
Qed.

Lemma no_visitor m name : vwf m → cfgs m !! name = None → visitors m !! name = None.
Proof.
  intros Hw Hc. destruct (visitors m !! name) as [id|] eqn:Hv; [|done].
  destruct (vwf_visitors _ Hw _ _ Hv) as (c & ? & _). congruence.
Qed.

(** *** The loops *)

(** The names the first loop of [UpdateAll] removes. *)
Definition gone (l : list VisitorConfigurer) (order : list (string * VisitorConfigurer)) (name : string) : Prop :=
  ∃ c, (name, c) ∈ order ∧ KeyBy l name ≠ Some c.

Lemma gone_cons l n c order name :
  gone l ((n, c) :: order) name ↔ (name = n ∧ KeyBy l n ≠ Some c) ∨ gone l order name.
Proof.
  unfold gone. split.
  - intros (c' & [[= -> ->]|Hin]%elem_of_cons & Hk); [by left|right; by exists c'].
  - intros [[-> Hk]|(c' & Hin & Hk)]; [exists c; split; [left|done]|exists c'; split; [by right|done]].
Qed.

(** A closed visitor is not opened again. *)
Lemma closed_stays l order m id c :
  objects m !! id = Some (c, false) → objects (remove_loop l order m) !! id = Some (c, false).
Proof.
  revert m. induction order as [|[name c'] order IH]; intros m Ho; [done|]. cbn. apply IH. case_decide; [done|].
  unfold remove_visitor. cbn. destruct (visitors m !! name) as [i|]; cbn; [|done].
  destruct (decide (i = id)) as [->|Hne]; [by rewrite lookup_alter_eq, Ho|by rewrite lookup_alter_ne].
Qed.

Record removed (l : list VisitorConfigurer) (order : list (string * VisitorConfigurer)) (m m' : Manager) : Prop := {
  rm_wf : vwf m';
  rm_open : table_open m → table_open m';
  rm_flags : keeping m' = keeping m ∧ stopped m' = stopped m;
  rm_gone : ∀ n, gone l order n → cfgs m' !! n = None ∧ visitors m' !! n = None ∧
    ∀ id c o, visitors m !! n = Some id → objects m !! id = Some (c, o) → objects m' !! id = Some (c, false);
  rm_kept : ∀ n, ¬ gone l order n → cfgs m' !! n = cfgs m !! n ∧ visitors m' !! n = visitors m !! n ∧
    ∀ id, visitors m !! n = Some id → objects m' !! id = objects m !! id
}.

Lemma v_remove_loop_spec l order m :
  vwf m → NoDup order.*1 → removed l order m (remove_loop l order m).
Proof.
  revert m. induction order as [|[name c] order IH]; intros m Hw Hnd.
  { split; try done. by intros n (c & []%not_elem_of_nil & _). }
  cbn in Hnd. apply NoDup_cons in Hnd as [Hni Hnd]. cbn [remove_loop]. case_decide as Hk.
  { destruct (IH m Hw Hnd) as [H1 H2 H3 H4 H5]. split; try done; intros n Hg.
    - apply H4. apply gone_cons in Hg as [[_ ?]|?]; done.
    - apply H5. intros Hx. apply Hg, gone_cons. by right. }
  destruct (remove_visitor_spec name m Hw) as (Hw1 & Hc1 & Hv1 & _ & Hk1 & Hs1 & Hsame & Hcl).
  assert (¬ gone l order name) as Hnot.
  { intros (c' & Hin & _). apply Hni. apply list_elem_of_fmap. by exists (name, c'). }
  destruct (IH _ Hw1 Hnd) as [H1 H2 [H3 H3'] H4 H5]. split; try done.
  - intros Ht. by apply H2, table_open_remove.
  - split; congruence.
  - intros n [[-> _]|Hg]%gone_cons.
    + destruct (H5 name Hnot) as (E1 & E2 & _). rewrite E1, E2, Hc1, Hv1, !lookup_delete_eq. split_and!; try done.
      intros id c' o Hv Ho. specialize (Hcl id c' o Hv Ho).
      by apply closed_stays.
    + assert (n ≠ name) as Hne by (intros ->; done).
      destruct (H4 n Hg) as (E1 & E2 & E3). split_and!; try done. intros id c' o Hv Ho.
      apply (E3 id c' o); [by rewrite Hv1, lookup_delete_ne|]. rewrite Hsame; [done|].
      intros Hv'. by destruct Hne, (visitors_inj m n name id).
  - intros n Hg. assert (n ≠ name ∧ ¬ gone l order n) as [Hne Hg'].
    { split; [intros ->; apply Hg, gone_cons; by left|intros Hx; apply Hg, gone_cons; by right]. }
    destruct (H5 n Hg') as (E1 & E2 & E3). rewrite E1, E2, Hc1, Hv1, !lookup_delete_ne by done. split_and!; try done.
    intros id Hv. rewrite E3 by (by rewrite Hv1, lookup_delete_ne). apply Hsame.
    intros Hv'. by destruct Hne, (visitors_inj m n name id).
Qed.

(** The visitor of [c] is newly started, if [run_ok] lets it. *)
Definition started (run_ok : VisitorConfigurer → bool) (m m' : Manager) (c : VisitorConfigurer) : Prop :=
  if run_ok c
  then ∃ id, objects m !! id = None ∧ visitors m' !! cfg_name c = Some id ∧ objects m' !! id = Some (c, true)
  else visitors m' !! cfg_name c = None.

Record added (run_ok : VisitorConfigurer → bool) (l : list VisitorConfigurer) (m m' : Manager) : Prop := {
  ad_wf : vwf m';
  ad_open : table_open m → table_open m';
  ad_flags : keeping m' = keeping m ∧ stopped m' = stopped m;
  ad_objects : ∀ id, is_Some (objects m !! id) → objects m' !! id = objects m !! id;
  ad_old : ∀ n, n ∉ cfg_name <$> l ∨ is_Some (visitors m !! n) → visitors m' !! n = visitors m !! n;
  ad_new : ∀ c, c ∈ l → visitors m !! cfg_name c = None → started run_ok m m' c
}.

Lemma startVisitor_fresh run_ok c m id :
  vwf m → is_Some (objects m !! id) → objects (startVisitor run_ok c m) !! id = objects m !! id.
Proof.
  intros Hw Ho. unfold startVisitor. destruct (run_ok c); [|done]. cbn. apply lookup_insert_ne.
  pose proof (vwf_next _ Hw id Ho). lia.
Qed.

Lemma startVisitor_started run_ok c m :
  vwf m → visitors m !! cfg_name c = None → started run_ok m (startVisitor run_ok c m) c.
Proof.
  intros Hw Hv. unfold started, startVisitor. destruct (run_ok c) eqn:E; [|done]. exists (next m). cbn.
  rewrite !lookup_insert_eq. split_and!; try done. apply eq_None_not_Some. intros Ho%(vwf_next _ Hw). lia.
Qed.

Lemma startVisitor_other run_ok c m n :
  n ≠ cfg_name c → visitors (startVisitor run_ok c m) !! n = visitors m !! n.
Proof. intros Hn. unfold startVisitor. destruct (run_ok c); [|done]. by apply lookup_insert_ne. Qed.

(** One more visitor started in front. *)
Lemma added_cons run_ok c l m m0 m' :
  cfg_name c ∉ cfg_name <$> l → vwf m → visitors m !! cfg_name c = None →
  m0 = startVisitor run_ok c m → added run_ok l m0 m' → vwf m0 →
  added run_ok (c :: l) m m'.
Proof.
  intros Hni Hw Hv -> [H1 H2 H3 H4 H5 H6] Hw0. split; try done.
  - intros Ht. by apply H2, table_open_start.
  - destruct H3 as [-> ->]. unfold startVisitor. by destruct (run_ok c).
  - intros id Ho. rewrite H4; rewrite startVisitor_fresh; done.
  - intros n Hn. assert (n ≠ cfg_name c) as Hne.
    { intros ->. destruct Hn as [Hn|Hn]; [apply Hn; by left|]. rewrite Hv in Hn. by destruct Hn. }
    rewrite H5; rewrite startVisitor_other by done; [done|]. destruct Hn as [Hn|]; [left|by right].
    intros Hx. apply Hn. by right.
  - intros d [->|Hd]%elem_of_cons Hvd.
    + pose proof (startVisitor_started run_ok c m Hw Hv) as Hs. unfold started in *.
      assert (visitors m' !! cfg_name c = visitors (startVisitor run_ok c m) !! cfg_name c) as Heq by (apply H5; by left).
      destruct (run_ok c); [|congruence]. destruct Hs as (id & Hn & Hi & Ho). exists id.
      rewrite Heq, H4 by (by rewrite Ho). done.
    + assert (cfg_name d ≠ cfg_name c) as Hne.
      { intros Heq. apply Hni. rewrite <-Heq. by apply list_elem_of_fmap_2. }
      assert (visitors (startVisitor run_ok c m) !! cfg_name d = None) as Hvd' by (by rewrite startVisitor_other).
      specialize (H6 d Hd Hvd'). unfold started in *. destruct (run_ok d); [|done].
      destruct H6 as (id & Hn & Hi & Ho). exists id. split_and!; try done.
      destruct (objects m !! id) eqn:E; [|done]. rewrite startVisitor_fresh, E in Hn by (rewrite ?E; done). done.
Qed.

(** A name passed over. *)
Lemma added_skip run_ok c l m m' :
  is_Some (visitors m !! cfg_name c) → added run_ok l m m' → added run_ok (c :: l) m m'.
Proof.
  intros Hv [H1 H2 H3 H4 H5 H6]. split; try done.
  - intros n [Hn|Hn]; apply H5; [left|by right]. intros Hx. apply Hn. by right.
  - intros d [->|Hd]%elem_of_cons Hvd; [rewrite Hvd in Hv; by destruct Hv|by apply H6].
Qed.

Lemma startVisitor_cfgs run_ok c m : cfgs (startVisitor run_ok c m) = cfgs m.
Proof. unfold startVisitor. by destruct (run_ok c). Qed.

Lemma keep_round_spec run_ok order m :
  vwf m → NoDup (cfg_name <$> order) → (∀ c, c ∈ order → cfgs m !! cfg_name c = Some c) →
  added run_ok order m (keep_round run_ok order m) ∧ cfgs (keep_round run_ok order m) = cfgs m.
Proof.
  revert m. induction order as [|c order IH]; intros m Hw Hnd Hc.
  { split; [|done]. split; try done. by intros c []%not_elem_of_nil. }
  cbn in Hnd. apply NoDup_cons in Hnd as [Hni Hnd]. cbn [keep_round].
  assert (∀ d, d ∈ order → cfgs m !! cfg_name d = Some d) as Hc' by (intros d Hd; apply Hc; by right).
  destruct (visitors m !! cfg_name c) as [id|] eqn:Hv.
  - destruct (IH m Hw Hnd Hc') as [Ha Hcf]. split; [|done]. apply added_skip; [by rewrite Hv|done].
  - assert (vwf (startVisitor run_ok c m)) as Hw0 by (apply vwf_start; [done|apply Hc; by left|done]).
    destruct (IH (startVisitor run_ok c m) Hw0 Hnd) as [Ha Hcf].
    { intros d Hd. rewrite startVisitor_cfgs. by apply Hc'. }
    split; [|by rewrite Hcf, startVisitor_cfgs]. by eapply added_cons.
Qed.

Lemma vwf_set_cfg c m : vwf m → cfgs m !! cfg_name c = None → vwf (set_cfgs m (<[cfg_name c := c]> (cfgs m))).
Proof.
  intros Hw Hc. split; cbn; [| |apply Hw|apply Hw].
  - intros n d [[<- <-]|[_ Hd]]%lookup_insert_Some; [done|by apply (vwf_cfgs _ Hw)].
  - intros n id Hi. destruct (vwf_visitors _ Hw _ _ Hi) as (d & Hd & Ho). exists d. split; [|done].
    rewrite lookup_insert_ne; [done|]. congruence.
Qed.

(** [m] with the configurations of another manager. *)
Lemma added_set_cfgs run_ok l m m' c : added run_ok l (set_cfgs m c) m' → added run_ok l m m'.
Proof. intros [? ? ? ? ? ?]. by split. Qed.

Lemma v_add_loop_spec run_ok l m :
  vwf m → NoDup (cfg_name <$> l) →
  added run_ok (filter (λ c, cfgs m !! cfg_name c = None) l) m (add_loop run_ok l m) ∧
  ∀ n, cfgs (add_loop run_ok l m) !! n = match cfgs m !! n with Some c => Some c | None => KeyBy l n end.
Proof.
  revert m. induction l as [|c l IH]; intros m Hw Hnd.
  { split; [split; try done; by intros c []%not_elem_of_nil|]. intros n. cbn. by destruct (cfgs m !! n). }
  cbn in Hnd. apply NoDup_cons in Hnd as [Hni Hnd]. cbn [add_loop]. rewrite filter_cons.
  assert (∀ n, n ≠ cfg_name c → KeyBy (c :: l) n = KeyBy l n) as Hkey.
  { intros n Hn. unfold KeyBy. by rewrite filter_cons_False by congruence. }
  destruct (cfgs m !! cfg_name c) as [c0|] eqn:Hc.
  - rewrite decide_False by done. destruct (IH m Hw Hnd) as [Ha Hcf]. split; [done|]. intros n. rewrite Hcf.
    destruct (cfgs m !! n) eqn:E; [done|]. symmetry. apply Hkey. congruence.
  - rewrite decide_True by done. set (m1 := set_cfgs m (<[cfg_name c := c]> (cfgs m))).
    assert (vwf m1) as Hw1 by (by apply vwf_set_cfg).
    assert (visitors m1 !! cfg_name c = None) as Hv by (by apply (no_visitor m)).
    assert (vwf (startVisitor run_ok c m1)) as Hw2.
    { apply vwf_start; [done| |done]. apply lookup_insert_eq. }
    destruct (IH (startVisitor run_ok c m1) Hw2 Hnd) as [Ha Hcf]. rewrite startVisitor_cfgs in Ha, Hcf. split.
    + apply (added_set_cfgs run_ok _ m _ (<[cfg_name c := c]> (cfgs m))). fold m1.
      assert (filter (λ c', cfgs m1 !! cfg_name c' = None) l = filter (λ c', cfgs m !! cfg_name c' = None) l) as Hf.
      { apply filter_ext_in. intros d Hd. cbn. rewrite lookup_insert_ne; [done|]. intros Heq.
        apply Hni. rewrite Heq. by apply list_elem_of_fmap_2. }
      rewrite <-Hf. eapply added_cons; [|done|done|done|done|done].
      intros (d & Heq & [_ Hd]%list_elem_of_filter)%list_elem_of_fmap. apply Hni. rewrite Heq. by apply list_elem_of_fmap_2.
    + intros n. rewrite Hcf. cbn. destruct (decide (n = cfg_name c)) as [->|Hne].
      * rewrite lookup_insert_eq, Hc. unfold KeyBy. rewrite filter_cons_True by done.
        rewrite filter_none; [done|]. intros d Hd Heq. apply Hni. rewrite <-Heq.
        by apply list_elem_of_fmap_2.
      * rewrite lookup_insert_ne by done. by rewrite Hkey.
Qed.

Lemma remove_loop_stopped l order m : stopped (remove_loop l order m) = stopped m.
Proof.
  revert m. induction order as [|[n c] order IH]; intros m; [done|]. cbn. rewrite IH. case_decide; [done|].
  unfold remove_visitor. cbn. by destruct (visitors m !! n).
Qed.

Lemma add_loop_stopped run_ok l m : stopped (add_loop run_ok l m) = stopped m.
Proof.
  revert m. induction l as [|c l IH]; intros m; [done|]. cbn. rewrite IH. case_match; [done|].
  unfold startVisitor. by destruct (run_ok c).
Qed.

Lemma KeyBy_elem l c : NoDup (cfg_name <$> l) → c ∈ l ↔ KeyBy l (cfg_name c) = Some c.
Proof.
  intros Hnd. unfold KeyBy. split.
  - induction l as [|d l IH]; [by intros []%not_elem_of_nil|]. cbn in Hnd. apply NoDup_cons in Hnd as [Hni Hnd].
    intros [->|Hc]%elem_of_cons.
    + rewrite filter_cons_True by done. rewrite filter_none; [done|]. intros x Hx Heq. apply Hni.
      rewrite <-Heq. by apply list_elem_of_fmap_2.
    + rewrite filter_cons_False; [by apply IH|]. intros Heq. apply Hni. rewrite Heq. by apply list_elem_of_fmap_2.
  - intros Hl. apply last_Some_elem_of in Hl. by apply list_elem_of_filter in Hl as [_ ?].
Qed.

(** ** Theorems *)

(** The invariant with what the flag of [Close] says of the table. *)
Definition vinv (m : Manager) : Prop := vwf m ∧ (stopped m = false → table_open m).

Lemma vinv_add_loop run_ok l m : vinv m → vinv (add_loop run_ok l m).
Proof.
  revert m. induction l as [|c l IH]; intros m [Hw Ht]; [done|]. cbn. apply IH.
  destruct (cfgs m !! cfg_name c) eqn:Hc; [done|].
  set (m1 := set_cfgs m _). assert (vwf m1) as Hw1 by (by apply vwf_set_cfg).
  assert (visitors m1 !! cfg_name c = None) as Hv by (by apply (no_visitor m)). split.
  - apply vwf_start; [done|apply lookup_insert_eq|done].
  - intros Hs. apply table_open_start; [|done]. apply Ht. revert Hs. unfold startVisitor. by destruct (run_ok c).
Qed.

Lemma map_to_list_keys_NoDup {A} (M : gmap string A) order : order ≡ₚ map_to_list M → NoDup order.*1.
Proof. intros ->. apply NoDup_fst_map_to_list. Qed.

Lemma order_names m order :
  vwf m → order ≡ₚ (map_to_list (cfgs m)).*2 →
  NoDup (cfg_name <$> order) ∧ ∀ c, c ∈ order ↔ cfgs m !! cfg_name c = Some c.
Proof.
  intros Hw Ho. split.
  - rewrite Ho, <-list_fmap_compose.
    assert ((cfg_name ∘ snd) <$> map_to_list (cfgs m) = (map_to_list (cfgs m)).*1) as ->; [|apply NoDup_fst_map_to_list].
    apply list_fmap_ext. intros i [n c] Hi. cbn. apply (vwf_cfgs _ Hw).
    apply elem_of_map_to_list. by apply list_elem_of_lookup_2 in Hi.
  - intros c. rewrite Ho, list_elem_of_fmap. split.
    + intros ([n d] & -> & Hd%elem_of_map_to_list). cbn. by rewrite (vwf_cfgs _ Hw _ _ Hd).
    + intros Hc. exists (cfg_name c, c). split; [done|]. by apply elem_of_map_to_list.
Qed.

Lemma vwf_close_loop ids m : vwf m → vwf (close_loop ids m).
Proof. revert m. induction ids as [|id ids IH]; intros m Hw; [done|]. cbn. by apply IH, vwf_close_object. Qed.

Lemma vinv_step m m' : vinv m → vstep m m' → vinv m'.
Proof.
  intros [Hw Ht] [run_ok l order Hs Ho|run_ok order Hk Ho|].
  - apply vinv_add_loop. set (m1 := mkManager _ _ _ _ _ _).
    assert (vwf m1) as Hw1 by (by apply vwf_keeping).
    destruct (v_remove_loop_spec l order m1 Hw1 (map_to_list_keys_NoDup _ _ Ho)) as [H1 H2 _ _ _].
    split; [done|]. intros _. by apply H2, Ht.
  - destruct (order_names m order Hw Ho) as [Hnd Hc].
    destruct (keep_round_spec run_ok order m Hw Hnd) as [[H1 H2 [_ H3] _ _ _] _]; [intros c; by apply Hc|].
    split; [done|]. rewrite H3. intros Hs. by apply H2, Ht.
  - split; [|done]. by apply vwf_keeping, vwf_close_loop.
Qed.

Lemma vinv_reachable m : vreachable m → vinv m.
Proof.
  unfold vreachable. intros H. remember NewManager as m0 eqn:Hm0.
  assert (vinv m0) as Hinv; [|clear Hm0; induction H as [|? ? ? Hs _ IH]; [done|by apply IH, (vinv_step _ _ Hinv)]].
  subst. split; [split|]; cbn; intros *; rewrite ?lookup_empty; try done; by intros [? ?].
Qed.

(** Until the manager is closed, the visitors that are open are exactly
    those in its table, each under the name of its configuration and with that
    very configuration, and every configuration is kept under its name; so no
    listener or tunnel is left behind by an update. This holds through updates
    with any list, also with repeated names, and through the rounds of the
    goroutine that restarts visitors. *)
Theorem visitors_table m :
  vreachable m → stopped m = false →
  (∀ id c, objects m !! id = Some (c, true) ↔
     visitors m !! cfg_name c = Some id ∧ cfgs m !! cfg_name c = Some c) ∧
  (∀ name id, visitors m !! name = Some id → ∃ c, cfg_name c = name ∧ objects m !! id = Some (c, true)) ∧
  (∀ name c, cfgs m !! name = Some c → cfg_name c = name).
Proof.
  intros [Hw Ht]%vinv_reachable Hs. specialize (Ht Hs). split_and!.
  - intros id c. split.
    + intros Ho. pose proof (vwf_open _ Hw _ _ Ho) as Hv. by destruct (visitor_of_name _ _ _ _ _ Hw Hv Ho).
    + intros [Hv Hc]. destruct (Ht _ _ Hv) as (d & Ho). destruct (visitor_of_name _ _ _ _ _ Hw Hv Ho). congruence.
  - intros name id Hv. destruct (Ht _ _ Hv) as (c & Ho). exists c.
    by destruct (visitor_of_name _ _ _ _ _ Hw Hv Ho).
  - apply Hw.
Qed.

(** The state between the two loops of [UpdateAll]: a name keeps what it has
    exactly when its configuration is the one asked for. *)
Lemma update_middle m l order :
  vwf m → order ≡ₚ map_to_list (cfgs m) →
  let m2 := remove_loop l order m in
  vwf m2 ∧ (table_open m → table_open m2) ∧
  ∀ n, (cfgs m !! n = KeyBy l n → cfgs m2 !! n = cfgs m !! n ∧ visitors m2 !! n = visitors m !! n ∧
          ∀ id, visitors m !! n = Some id → objects m2 !! id = objects m !! id) ∧
       (cfgs m !! n ≠ KeyBy l n → cfgs m2 !! n = None ∧ visitors m2 !! n = None ∧
          ∀ id c o, visitors m !! n = Some id → objects m !! id = Some (c, o) → objects m2 !! id = Some (c, false)).
Proof.
  intros Hw Ho. cbv zeta.
  destruct (v_remove_loop_spec l order m Hw (map_to_list_keys_NoDup _ _ Ho)) as [Hw2 Hto _ Hgone Hkept].
  split_and!; [done|done|]. intros n.
  assert (gone l order n ↔ ∃ c, cfgs m !! n = Some c ∧ KeyBy l n ≠ Some c) as Hg.
  { unfold gone. by setoid_rewrite Ho; setoid_rewrite elem_of_map_to_list. }
  split.
  - intros Heq. apply Hkept. rewrite Hg. intros (c & Hc & Hk). congruence.
  - intros Hne. destruct (cfgs m !! n) as [c|] eqn:Hc.
    + apply Hgone, Hg. exists c. split; [done|]. congruence.
    + destruct (Hkept n) as (E1 & E2 & _); [rewrite Hg; by intros (? & ? & _)|].
      rewrite E1, E2. pose proof (no_visitor _ _ Hw Hc) as Hv. rewrite Hv. split_and!; [done..|].
      by intros.
Qed.

Lemma update_cfgs run_ok m l order :
  vwf m → order ≡ₚ map_to_list (cfgs m) → NoDup (cfg_name <$> l) →
  ∀ n, cfgs (UpdateAll run_ok l order m) !! n = KeyBy l n.
Proof.
  intros Hw Ho Hnd n. unfold UpdateAll. set (m1 := mkManager _ _ _ _ _ _).
  destruct (update_middle m1 l order (vwf_keeping _ _ _ Hw) Ho) as (Hw2 & _ & Hm).
  destruct (v_add_loop_spec run_ok l _ Hw2 Hnd) as [_ ->]. destruct (Hm n) as [Heq Hne].
  destruct (decide (cfgs m1 !! n = KeyBy l n)) as [E|E].
  - destruct (Heq E) as [-> _]. rewrite E. by destruct (KeyBy l n).
  - by destruct (Hne E) as [-> _].
Qed.

Lemma started_mono run_ok m m1 m' c :
  (∀ id, is_Some (objects m !! id) → is_Some (objects m1 !! id)) → started run_ok m1 m' c → started run_ok m m' c.
Proof.
  unfold started. intros Hsub. destruct (run_ok c); [|done]. intros (id & Hn & Hrest). exists id. split; [|done].
  apply eq_None_not_Some. intros Hi%Hsub. rewrite Hn in Hi. by destruct Hi.
Qed.

Lemma remove_loop_dom l order m id :
  is_Some (objects m !! id) → is_Some (objects (remove_loop l order m) !! id).
Proof.
  revert m. induction order as [|[n c] order IH]; intros m Hi; [done|]. cbn. apply IH. case_decide; [done|].
  unfold remove_visitor. cbn. destruct (visitors m !! n) as [i|]; [|done]. cbn.
  destruct (decide (i = id)) as [->|]; [rewrite lookup_alter_eq; by apply fmap_is_Some|by rewrite lookup_alter_ne].
Qed.

(** An update with configurations of different names leaves exactly these
    configurations. A visitor whose configuration did not change is untouched,
    so its tunnel survives the update; one whose configuration changed or went
    is closed; and every other configuration is started once, as a new object,
    if its start succeeds. *)
Theorem visitors_update_exact m run_ok l order :
  vreachable m → stopped m = false → order ≡ₚ map_to_list (cfgs m) → NoDup (cfg_name <$> l) →
  let m' := UpdateAll run_ok l order m in
  (∀ c, cfgs m' !! cfg_name c = Some c ↔ c ∈ l) ∧
  (∀ c id, c ∈ l → cfgs m !! cfg_name c = Some c → visitors m !! cfg_name c = Some id →
     visitors m' !! cfg_name c = Some id ∧ objects m' !! id = Some (c, true)) ∧
  (∀ c id, c ∉ l → visitors m !! cfg_name c = Some id → cfgs m !! cfg_name c = Some c →
     objects m' !! id = Some (c, false)) ∧
  (∀ c, c ∈ l → cfgs m !! cfg_name c ≠ Some c → started run_ok m m' c).
Proof.
  intros [Hw Ht]%vinv_reachable Hs Ho Hnd. specialize (Ht Hs). cbv zeta.
  split; [intros c; rewrite (update_cfgs run_ok m l order Hw Ho Hnd); symmetry; by apply KeyBy_elem|].
  unfold UpdateAll. set (m1 := mkManager _ _ _ _ _ _).
  destruct (update_middle m1 l order (vwf_keeping _ _ _ Hw) Ho) as (Hw2 & Hto & Hm).
  set (m2 := remove_loop l order m1) in *.
  destruct (v_add_loop_spec run_ok l m2 Hw2 Hnd) as [[_ _ _ Hobj Hold Hnew] _]. set (m3 := add_loop run_ok l m2) in *.
  assert (∀ c id o, visitors m !! cfg_name c = Some id → cfgs m !! cfg_name c = Some c →
            objects m !! id = Some o → o = (c, true)) as Hopen.
  { intros c id o Hv Hc Hx. destruct (Ht _ _ Hv) as (d & Hd). rewrite Hd in Hx. injection Hx as <-.
    destruct (visitor_of_name _ _ _ _ _ Hw Hv Hd). congruence. }
  split_and!.
  - intros c id Hc Hcf Hv. destruct (Ht _ _ Hv) as (d & Hd). rewrite (Hopen c id _ Hv Hcf Hd) in Hd.
    destruct (Hm (cfg_name c)) as [Heq _]. destruct Heq as (_ & Hv2 & Hx2).
    { cbn. rewrite Hcf. symmetry. by apply KeyBy_elem. }
    rewrite Hold by (right; rewrite Hv2; by exists id). rewrite Hobj by (rewrite (Hx2 id Hv); by exists (c, true)).
    by rewrite Hv2, (Hx2 id Hv).
  - intros c id Hc Hv Hcf. destruct (Ht _ _ Hv) as (d & Hd). rewrite (Hopen c id _ Hv Hcf Hd) in Hd.
    destruct (Hm (cfg_name c)) as [_ Hne]. destruct Hne as (_ & _ & Hx2).
    { cbn. rewrite Hcf. intros Hk. by apply Hc, KeyBy_elem. }
    specialize (Hx2 id c true Hv Hd). by rewrite Hobj by (rewrite Hx2; by exists (c, false)).
  - intros c Hc Hne. destruct (Hm (cfg_name c)) as [_ Hgone]. destruct Hgone as (Hc2 & Hv2 & _).
    { cbn. intros Heq. apply Hne. rewrite Heq. by apply KeyBy_elem. }
    apply (started_mono run_ok m m2); [intros id; exact (remove_loop_dom l order m1 id)|].
    apply Hnew; [by apply list_elem_of_filter|done].
Qed.

(** The goroutine keeps visitors running: after a tick every configured
    visitor that was not running and whose start succeeds is running as a new
    object, one whose start fails is left for the next tick, and those that were
    running are untouched. So once starts succeed all configured visitors run
    after one tick. *)
Theorem visitors_restarted m run_ok order :
  vreachable m → order ≡ₚ (map_to_list (cfgs m)).*2 →
  let m' := keep_round run_ok order m in
  cfgs m' = cfgs m ∧
  (∀ c, cfgs m !! cfg_name c = Some c → visitors m !! cfg_name c = None → started run_ok m m' c) ∧
  (∀ n id, visitors m !! n = Some id → visitors m' !! n = Some id ∧ objects m' !! id = objects m !! id) ∧
  ((∀ c, run_ok c = true) → ∀ n, is_Some (visitors m' !! n) ↔ is_Some (cfgs m !! n)).
Proof.
  intros [Hw _]%vinv_reachable Ho. destruct (order_names m order Hw Ho) as [Hnd Hc].
  destruct (keep_round_spec run_ok order m Hw Hnd) as [[Hw' _ _ Hobj Hold Hnew] Hcf]; [intros c; by apply Hc|].
  assert (∀ n id, visitors m !! n = Some id →
    visitors (keep_round run_ok order m) !! n = Some id ∧
    objects (keep_round run_ok order m) !! id = objects m !! id) as Hkeep.
  { intros n id Hv. rewrite Hold by (right; by exists id). split; [done|]. apply Hobj.
    destruct (vwf_visitors _ Hw _ _ Hv) as (c & _ & Hx). destruct (objects m !! id); [by eexists|done]. }
  cbv zeta. split_and!; [done| |done|].
  - intros c Hcc Hv. apply Hnew; [by apply Hc|done].
  - intros Hrun n. split.
    + intros [id Hv]. destruct (vwf_visitors _ Hw' _ _ Hv) as (c & Hx & _). rewrite Hcf in Hx. by exists c.
    + intros [c Hx]. pose proof (vwf_cfgs _ Hw _ _ Hx) as Hn. subst n.
      destruct (visitors m !! cfg_name c) as [id|] eqn:Hv; [exists id; by apply Hkeep|].
      specialize (Hnew c (proj2 (Hc c) Hx) Hv). unfold started in Hnew. rewrite Hrun in Hnew.
      destruct Hnew as (id & _ & Hi & _). by exists id.
Qed.

Lemma close_loop_other ids m id : id ∉ ids → objects (close_loop ids m) !! id = objects m !! id.
Proof.
  revert m. induction ids as [|i ids IH]; intros m Hni; [done|]. cbn.
  rewrite IH by set_solver. cbn. apply lookup_alter_ne. set_solver.
Qed.

Lemma close_loop_spec ids m :
  let m' := close_loop ids m in
  cfgs m' = cfgs m ∧ visitors m' = visitors m ∧ keeping m' = keeping m ∧
  ∀ id, (id ∉ ids) ∨ ∀ o, objects m' !! id = Some o → o.2 = false.
Proof.
  revert m. induction ids as [|i ids IH]; intros m; cbn.
  { split_and!; try done. intros id. left. by apply not_elem_of_nil. }
  destruct (IH (close_object i m)) as (-> & -> & -> & Hcl). split_and!; try done. intros id.
  destruct (Hcl id) as [Hni|Hx]; [|by right]. destruct (decide (id = i)) as [->|Hne]; [|left; set_solver].
  right. rewrite close_loop_other by done. cbn. rewrite lookup_alter_eq. intros o.
  destruct (objects m !! i) as [[]|]; [by intros [= <-]|done].
Qed.

Lemma Close_spec m :
  cfgs (Close m) = cfgs m ∧ visitors (Close m) = visitors m ∧ keeping (Close m) = keeping m ∧
  ∀ id, (id ∉ (map_to_list (visitors m)).*2) ∨
        ∀ o, objects (Close m) !! id = Some o → o.2 = false.
Proof. exact (close_loop_spec _ m). Qed.

(** Closing the manager does not stop it for good: a tick that the
    goroutine takes although the manager was closed starts the visitors that
    were not running, and nothing closes them. Without such a tick every visitor
    is closed. *)
Theorem late_tick_leaks m c run_ok order :
  vreachable m → keeping m = true → cfgs m !! cfg_name c = Some c → visitors m !! cfg_name c = None →
  order ≡ₚ (map_to_list (cfgs m)).*2 → run_ok c = true →
  vreachable (keep_round run_ok order (Close m)) ∧
  (∀ id d, objects (Close m) !! id ≠ Some (d, true)) ∧
  ∃ id, objects (keep_round run_ok order (Close m)) !! id = Some (c, true).
Proof.
  intros Hr Hk Hc Hv Ho Hrun.
  destruct (vinv_reachable _ Hr) as [Hw _]. destruct (Close_spec m) as (Ecf & Evs & Ekp & Hcl).
  assert (vreachable (Close m)) as Hr' by (eapply rtc_r; [done|apply VClose]).
  split_and!.
  - eapply rtc_r; [done|]. apply VTick; [by rewrite Ekp|by rewrite Ecf].
  - intros id d Hx. destruct (Hcl id) as [Hx'|Hx'].
    + destruct (vinv_reachable _ Hr') as [Hw' _]. pose proof (vwf_open _ Hw' _ _ Hx) as Hvd. rewrite Evs in Hvd.
      apply Hx'. apply list_elem_of_fmap. exists (cfg_name d, id). split; [done|]. by apply elem_of_map_to_list.
    + by specialize (Hx' _ Hx).
  - destruct (vinv_reachable _ Hr') as [Hw' _].
    assert (order ≡ₚ (map_to_list (cfgs (Close m))).*2) as Ho' by (by rewrite Ecf).
    destruct (order_names (Close m) order Hw' Ho') as [Hnd Hcs].
    destruct (keep_round_spec run_ok order (Close m) Hw' Hnd) as [[_ _ _ _ _ Hnew] _]; [intros d; by apply Hcs|].
    assert (c ∈ order) as Hin by (apply Hcs; by rewrite Ecf).
    specialize (Hnew c Hin). rewrite Evs in Hnew. specialize (Hnew Hv). unfold started in Hnew. rewrite Hrun in Hnew.
    destruct Hnew as (id & _ & _ & Hx). by exists id.
Qed.

(** *** Witnesses *)

Definition demo_visitor (name : string) (port : Z) : VisitorConfigurer :=
  VSTCP (mkSTCPVisitor (mkVisitorBase name "stcp" None (mkVisitorTransport false false) "k" "" "ssh" "" port
    (mkTypedVisitorPlugin "" None))).

(** Two visitors of which the second could not bind its port. *)
Definition demo_bind (c : VisitorConfigurer) : bool := bool_decide (cfg_name c = "a").
Definition demo_list : list VisitorConfigurer := [demo_visitor "a" 6000; demo_visitor "b" 6001].
Definition demo_m : Manager := UpdateAll demo_bind demo_list [] NewManager.

Lemma demo_vreachable : vreachable demo_m.
Proof. apply rtc_once. by apply VUpdate. Qed.

Definition demo_next : list VisitorConfigurer := [demo_visitor "a" 6000; demo_visitor "b" 6002].

Lemma demo_names : NoDup (cfg_name <$> demo_next).
Proof. cbn. repeat (apply NoDup_cons_2; [set_solver|]). constructor. Qed.

Example visitors_table_witness :
  objects demo_m !! 0%nat = Some (demo_visitor "a" 6000, true) ∧
  visitors demo_m !! "a" = Some 0%nat ∧ cfgs demo_m !! "a" = Some (demo_visitor "a" 6000).
Proof.
  assert (objects demo_m !! 0%nat = Some (demo_visitor "a" 6000, true)) as Ho by (vm_compute; reflexivity).
  destruct (visitors_table demo_m demo_vreachable eq_refl) as (H & _ & _).
  split; [exact Ho|]. exact (proj1 (H 0%nat (demo_visitor "a" 6000)) Ho).
Defined.

Example visitors_update_exact_witness :
  let m' := UpdateAll (λ _, true) demo_next (map_to_list (cfgs demo_m)) demo_m in
  visitors m' !! "a" = Some 0%nat ∧ objects m' !! 0%nat = Some (demo_visitor "a" 6000, true) ∧
  started (λ _, true) demo_m m' (demo_visitor "b" 6002).
Proof.
  destruct (visitors_update_exact demo_m (λ _, true) demo_next (map_to_list (cfgs demo_m))
    demo_vreachable eq_refl (reflexivity _) demo_names) as (_ & Hkeep & _ & Hnew).
  destruct (Hkeep (demo_visitor "a" 6000) 0%nat) as [H1 H2];
    [left|vm_compute; reflexivity|vm_compute; reflexivity|].
  split; [exact H1|]. split; [exact H2|]. apply Hnew; [right; left|]. vm_compute. discriminate.
Defined.

Example visitors_restarted_witness :
  is_Some (visitors (keep_round (λ _, true) (map_to_list (cfgs demo_m)).*2 demo_m) !! "b").
Proof.
  destruct (visitors_restarted demo_m (λ _, true) (map_to_list (cfgs demo_m)).*2 demo_vreachable (reflexivity _))
    as (_ & _ & _ & H).
  apply H; [reflexivity|]. vm_compute. by eexists.
Defined.

Example late_tick_leaks_witness :
  ∃ id, objects (keep_round (λ _, true) (map_to_list (cfgs demo_m)).*2 (Close demo_m)) !! id
        = Some (demo_visitor "b" 6001, true).
Proof.
  apply (late_tick_leaks demo_m (demo_visitor "b" 6001) (λ _, true) (map_to_list (cfgs demo_m)).*2 demo_vreachable);
    vm_compute; reflexivity.
Defined.
End Visitors.
