(* ===== verification/ConfigSource.v ===== *)
(** The configuration of a running client: the sources of pkg/config/source
    (config_source.go, store.go, aggregator.go), the filters of
    pkg/config/load.go, the reload of client/service.go and the management API
    of client/config_manager.go, down to the proxy and visitor managers.

    The store keeps its entries in a file; reading and writing JSON is a
    parameter. [reloadMu] makes every operation here one step. Configurations
    are values: [Load] hands out clones, and where the code completes shared
    objects in place the change is written out. *)
From Stdlib Require Import ZArith Lia Ascii String.
From stdpp Require Import base gmap strings list fin_maps sorting relations.
From S2P Require Import Prelude GoLib Wire Msg Ports ConfigTypes Config Health ClientProxies VisitorConfig Visitors.

Local Open Scope Z_scope.
Local Open Scope frp_scope.

Module ConfigSource.

Notation PC := Config.ProxyConfigurer.
Notation VC := VisitorConfig.VisitorConfigurer.
Notation pname := ClientProxies.cfg_name.
Notation vname := Visitors.cfg_name.

(** ** Sources *)

Record baseSource := mkBase { proxies : gmap string PC; visitors : gmap string VC }.

Definition newBaseSource : baseSource := mkBase ∅ ∅.

Definition is_enabled (e : option bool) : bool := match e with Some b => b | None => true end.
Definition p_enabled (c : PC) : bool := is_enabled (Config.Enabled (Config.GetBaseConfig c)).
Definition v_enabled (c : VC) : bool := is_enabled (VisitorConfig.Enabled (VisitorConfig.GetBaseConfig c)).

(** [baseSource.Load]: the enabled entries, in the order of the map. *)
Definition Load (s : baseSource) : list PC * list VC :=
  (filter p_enabled (map_to_list (proxies s)).*2, filter v_enabled (map_to_list (visitors s)).*2).

Inductive source_error :=
| ErrEmptyName (kind : string)
| ErrAlreadyExists (kind name : string)
| ErrNotFound (kind name : string)
| ErrPersist (e : string)
| ErrPathRequired
| ErrReadFile
| ErrParseJSON
| ErrDecode (kind : string) (index : nat).

Definition validateProxyName (c : PC) : res source_error string :=
  if String.eqb (pname c) "" then Err (ErrEmptyName "proxy") else Ok (pname c).
Definition validateVisitorName (c : VC) : res source_error string :=
  if String.eqb (vname c) "" then Err (ErrEmptyName "visitor") else Ok (vname c).

Fixpoint replace_proxies (next : gmap string PC) (l : list PC) : res source_error (gmap string PC) :=
  match l with
  | [] => Ok next
  | p :: rest => let? name := validateProxyName p in replace_proxies (<[name := p]> next) rest
  end.
Fixpoint replace_visitors (next : gmap string VC) (l : list VC) : res source_error (gmap string VC) :=
  match l with
  | [] => Ok next
  | v :: rest => let? name := validateVisitorName v in replace_visitors (<[name := v]> next) rest
  end.

(** [ConfigSource.ReplaceAll]. *)
Definition ReplaceAll (ps : list PC) (vs : list VC) : res source_error baseSource :=
  let? nextProxies := replace_proxies ∅ ps in
  let? nextVisitors := replace_visitors ∅ vs in
  Ok (mkBase nextProxies nextVisitors).

(** ** The store *)

(** The file of the store and the temporary file beside it. *)
Record Files := mkFiles { file : option string; tmp : option string }.

Record StoreSource := mkStore { entries : baseSource; path : string; files : Files }.

(** The system calls of a save, in order; an outcome is the first that fails. *)
Inductive save_step := SMkdir | SCreate | SWrite | SSync | SClose | SRename.

Section Store.
(** JSON: the text of a store, its raw entries, and the decoders of
    pkg/config/v1/decode.go. *)
Context {raw : Type}.
Context (MarshalIndent : list PC → list VC → option string).
Context (Unmarshal : string → option (list raw * list raw)).
Context (DecodeProxy : raw → option PC) (DecodeVisitor : raw → option VC).

Fixpoint decode_proxies (i : nat) (l : list raw) (m : gmap string PC) : res source_error (gmap string PC) :=
  match l with
  | [] => Ok m
  | r :: rest =>
      match DecodeProxy r with
      | None => Err (ErrDecode "proxy" i)
      | Some c =>
          if String.eqb (pname c) "" then Err (ErrEmptyName "proxy")
          else decode_proxies (S i) rest (<[pname c := c]> m)
      end
  end.
Fixpoint decode_visitors (i : nat) (l : list raw) (m : gmap string VC) : res source_error (gmap string VC) :=
  match l with
  | [] => Ok m
  | r :: rest =>
      match DecodeVisitor r with
      | None => Err (ErrDecode "visitor" i)
      | Some c =>
          if String.eqb (vname c) "" then Err (ErrEmptyName "visitor")
          else decode_visitors (S i) rest (<[vname c := c]> m)
      end
  end.

(** [loadFromFileUnlocked], on the content of the file. *)
Definition loadFromFile (data : string) : res source_error baseSource :=
  match Unmarshal data with
  | None => Err ErrParseJSON
  | Some (ps, vs) =>
      let? p := decode_proxies 0 ps ∅ in
      let? v := decode_visitors 0 vs ∅ in
      Ok (mkBase p v)
  end.

(** [readable]: whether the file, if it exists, can be read. *)
Definition NewStoreSource (p : string) (fs : Files) (readable : bool) : res source_error StoreSource :=
  if String.eqb p "" then Err ErrPathRequired
  else match file fs with
       | None => Ok (mkStore newBaseSource p fs)
       | Some data =>
           if readable then let? b := loadFromFile data in Ok (mkStore b p fs) else Err ErrReadFile
       end.

(** [saveToFileUnlocked]: the files afterwards, and the error. *)
Definition saveToFile (b : baseSource) (fs : Files) (io : option save_step) : Files * option string :=
  match MarshalIndent (map_to_list (proxies b)).*2 (map_to_list (visitors b)).*2 with
  | None => (fs, Some "marshal")
  | Some data =>
      match io with
      | Some SMkdir => (fs, Some "mkdir")
      | Some SCreate => (fs, Some "create")
      | Some SWrite => (mkFiles (file fs) None, Some "write")
      | Some SSync => (mkFiles (file fs) None, Some "sync")
      | Some SClose => (mkFiles (file fs) None, Some "close")
      | Some SRename => (mkFiles (file fs) None, Some "rename")
      | None => (mkFiles (Some data) None, None)
      end
  end.

(** [persistOrRollbackUnlocked]: from the store with the change made, and the
    entries the rollback restores. *)
Definition persistOrRollback (s : StoreSource) (io : option save_step) (old : baseSource)
    : StoreSource * option source_error :=
  let '(fs, err) := saveToFile (entries s) (files s) io in
  match err with
  | Some e => (mkStore old (path s) fs, Some (ErrPersist e))
  | None => (mkStore (entries s) (path s) fs, None)
  end.

(** The map an operation is about: [proxyStoreEntries], [visitorStoreEntries]. *)
Record Selector (T : Type) := mkSelector {
  get : baseSource → gmap string T; put : gmap string T → baseSource → baseSource; kind : string }.
Arguments get {T}. Arguments put {T}. Arguments kind {T}.

Definition proxyStoreEntries : Selector PC := mkSelector PC proxies (λ m b, mkBase m (visitors b)) "proxy".
Definition visitorStoreEntries : Selector VC := mkSelector VC visitors (λ m b, mkBase (proxies b) m) "visitor".

Section Entry.
Context {T : Type} (sel : Selector T).

Definition set_entries (s : StoreSource) (b : baseSource) : StoreSource := mkStore b (path s) (files s).

Definition addStoreEntry (s : StoreSource) (name : string) (value : T) (io : option save_step)
    : StoreSource * option source_error :=
  let m := get sel (entries s) in
  match m !! name with
  | Some _ => (s, Some (ErrAlreadyExists (kind sel) name))
  | None =>
      let changed := put sel (<[name := value]> m) (entries s) in
      persistOrRollback (set_entries s changed) io (put sel (delete name (<[name := value]> m)) changed)
  end.

Definition updateStoreEntry (s : StoreSource) (name : string) (value : T) (io : option save_step)
    : StoreSource * option source_error :=
  let m := get sel (entries s) in
  match m !! name with
  | None => (s, Some (ErrNotFound (kind sel) name))
  | Some old =>
      let changed := put sel (<[name := value]> m) (entries s) in
      persistOrRollback (set_entries s changed) io (put sel (<[name := old]> (<[name := value]> m)) changed)
  end.

Definition removeStoreEntry (s : StoreSource) (name : string) (io : option save_step)
    : StoreSource * option source_error :=
  if String.eqb name "" then (s, Some (ErrEmptyName (kind sel)))
  else
    let m := get sel (entries s) in
    match m !! name with
    | None => (s, Some (ErrNotFound (kind sel) name))
    | Some old =>
        let changed := put sel (delete name m) (entries s) in
        persistOrRollback (set_entries s changed) io (put sel (<[name := old]> (delete name m)) changed)
    end.
End Entry.

Definition AddProxy (s : StoreSource) (c : PC) (io : option save_step) : StoreSource * option source_error :=
  match validateProxyName c with
  | Err e => (s, Some e)
  | Ok name => addStoreEntry proxyStoreEntries s name c io
  end.
Definition UpdateProxy (s : StoreSource) (c : PC) (io : option save_step) : StoreSource * option source_error :=
  match validateProxyName c with
  | Err e => (s, Some e)
  | Ok name => updateStoreEntry proxyStoreEntries s name c io
  end.
Definition RemoveProxy (s : StoreSource) (name : string) (io : option save_step) : StoreSource * option source_error :=
  removeStoreEntry proxyStoreEntries s name io.
Definition GetProxy (s : StoreSource) (name : string) : option PC := proxies (entries s) !! name.

Definition AddVisitor (s : StoreSource) (c : VC) (io : option save_step) : StoreSource * option source_error :=
  match validateVisitorName c with
  | Err e => (s, Some e)
  | Ok name => addStoreEntry visitorStoreEntries s name c io
  end.
Definition UpdateVisitor (s : StoreSource) (c : VC) (io : option save_step) : StoreSource * option source_error :=
  match validateVisitorName c with
  | Err e => (s, Some e)
  | Ok name => updateStoreEntry visitorStoreEntries s name c io
  end.
Definition RemoveVisitor (s : StoreSource) (name : string) (io : option save_step) : StoreSource * option source_error :=
  removeStoreEntry visitorStoreEntries s name io.
Definition GetVisitor (s : StoreSource) (name : string) : option VC := visitors (entries s) !! name.

(** ** The aggregator *)

Definition insert_named {T} (nm : T → string) (m : gmap string T) (l : list T) : gmap string T :=
  foldl (λ m x, <[nm x := x]> m) m l.
Definition insert_proxies : gmap string PC → list PC → gmap string PC := insert_named pname.
Definition insert_visitors : gmap string VC → list VC → gmap string VC := insert_named vname.

(** [cmp.Compare] on names: the bytes' order. *)
Definition p_le (x y : PC) : Prop := String.leb (pname x) (pname y) = true.
Definition v_le (x y : VC) : Prop := String.leb (vname x) (vname y) = true.

#[local] Instance p_le_dec x y : Decision (p_le x y) := decide (_ = true).
#[local] Instance v_le_dec x y : Decision (v_le x y) := decide (_ = true).

Definition mapsToSortedSlices (pm : gmap string PC) (vm : gmap string VC) : list PC * list VC :=
  (merge_sort p_le (map_to_list pm).*2, merge_sort v_le (map_to_list vm).*2).

(** [Aggregator.Load]: the configuration file's source, then the store. *)
Definition agg_Load (cfg : baseSource) (store : option StoreSource) : list PC * list VC :=
  let sources := cfg :: match store with Some s => [entries s] | None => [] end in
  let '(pm, vm) :=
    foldl (λ acc src, let '(ps, vs) := Load src in (insert_proxies acc.1 ps, insert_visitors acc.2 vs))
      (∅, ∅) sources in
  mapsToSortedSlices pm vm.

(** ** Filtering and completion *)

(** A name that [start] names, when it names any. *)
Definition to_start (Start : list string) (name : string) : bool :=
  match Start with [] => true | _ => Config.str_in name Start end.

Definition FilterClientConfigurers (Start : list string) (ps : list PC) (vs : list VC) : list PC * list VC :=
  (filter p_enabled (filter (λ c, to_start Start (pname c)) ps),
   filter v_enabled (filter (λ c, to_start Start (vname c)) vs)).

Definition CompleteProxyConfigurers (ps : list PC) : list PC := Config.Complete <$> ps.
Definition CompleteVisitorConfigurers (vs : list VC) : list VC := VisitorConfig.Complete <$> vs.

(** ** The service *)

(** [live]: the pointers to the sources, which [stop] clears together. *)
Record Service := mkService {
  live : bool; configSource : baseSource; storeSource : option StoreSource;
  reloadCommon : list string; proxyCfgs : list PC; visitorCfgs : list VC;
  ctl : option ClientProxies.Manager; vm : Visitors.Manager }.

(** What a reload depends on besides the state: the orders in which the
    managers visit their maps, and which visitors start. *)
Record Env := mkEnv {
  p_order : list (string * nat); v_order : list (string * VC); run_ok : VC → bool }.

Context (user : string).

(** [Service.UpdateAllConfigurer] with [Control.UpdateAllConfigurer]. *)
Definition UpdateAllConfigurer (svr : Service) (e : Env) (ps : list PC) (vs : list VC)
    : Service * list ClientProxies.event :=
  match ctl svr with
  | None => (mkService (live svr) (configSource svr) (storeSource svr) (reloadCommon svr) ps vs None (vm svr), [])
  | Some pm =>
      let vm := Visitors.UpdateAll (run_ok e) vs (v_order e) (vm svr) in
      let '(pm, evs) := ClientProxies.UpdateAll user pm (p_order e) ps in
      (mkService (live svr) (configSource svr) (storeSource svr) (reloadCommon svr) ps vs (Some pm) vm, evs)
  end.

(** What a reload applies. *)
Definition effective (svr : Service) : list PC * list VC :=
  let '(ps, vs) := agg_Load (configSource svr) (storeSource svr) in
  let '(ps, vs) := FilterClientConfigurers (reloadCommon svr) ps vs in
  (CompleteProxyConfigurers ps, CompleteVisitorConfigurers vs).

(** [reloadConfigFromSourcesLocked]; [None] is its error. *)
Definition reloadConfigFromSources (svr : Service) (e : Env) : option (Service * list ClientProxies.event) :=
  if live svr
  then let '(ps, vs) := effective svr in Some (UpdateAllConfigurer svr e ps vs)
  else None.

Definition set_store (svr : Service) (s : StoreSource) : Service :=
  mkService (live svr) (configSource svr) (Some s) (reloadCommon svr) (proxyCfgs svr) (visitorCfgs svr)
    (ctl svr) (vm svr).

Inductive update_error := ErrNoConfigSource | ErrSource (e : source_error) | ErrReload.

Definition UpdateConfigSource (svr : Service) (e : Env) (Start : list string) (ps : list PC) (vs : list VC)
    : Service * list ClientProxies.event * option update_error :=
  if negb (live svr) then (svr, [], Some ErrNoConfigSource)
  else match ReplaceAll ps vs with
       | Err er => (svr, [], Some (ErrSource er))
       | Ok src =>
           let svr := mkService (live svr) src (storeSource svr) Start (proxyCfgs svr) (visitorCfgs svr)
                        (ctl svr) (vm svr) in
           match reloadConfigFromSources svr e with
           | Some (svr, evs) => (svr, evs, None)
           | None => (svr, [], Some ErrReload)
           end
       end.

(** [Service.stop]. *)
Definition stop (svr : Service) (order : list (string * nat)) : Service * list ClientProxies.event :=
  let evs := match ctl svr with Some pm => (ClientProxies.Close pm order).2 | None => [] end in
  (mkService false (configSource svr) None (reloadCommon svr) (proxyCfgs svr) (visitorCfgs svr) None
     (Visitors.Close (vm svr)), evs).

(** ** The management API *)

Inductive api_error :=
| ErrInvalidArgument | ErrAPINotFound | ErrConflict | ErrStoreDisabled | ErrApplyConfig
| ErrStore (e : source_error).

(** The messages a change sends, and the error or the answer. *)
Definition outcome (A : Type) : Type := Service * list ClientProxies.event * res api_error A.

Definition withStoreMutationAndReload (svr : Service) (e : Env)
    (fn : StoreSource → StoreSource * option api_error) : outcome unit :=
  match storeSource svr with
  | None => (svr, [], Err ErrStoreDisabled)
  | Some s =>
      let '(s, err) := fn s in
      let svr := set_store svr s in
      match err with
      | Some er => (svr, [], Err er)
      | None =>
          match reloadConfigFromSources svr e with
          | None => (svr, [], Err ErrApplyConfig)
          | Some (svr, evs) => (svr, evs, Ok tt)
          end
      end
  end.

Definition withStoreProxyMutationAndReload (svr : Service) (e : Env) (name : string)
    (fn : StoreSource → StoreSource * option api_error) : outcome PC :=
  let '(svr, evs, r) := withStoreMutationAndReload svr e fn in
  match r with
  | Err er => (svr, evs, Err er)
  | Ok _ =>
      match storeSource svr ≫= λ s, GetProxy s name with
      | None => (svr, evs, Err ErrApplyConfig)
      | Some persisted => (svr, evs, Ok persisted)
      end
  end.

Definition withStoreVisitorMutationAndReload (svr : Service) (e : Env) (name : string)
    (fn : StoreSource → StoreSource * option api_error) : outcome VC :=
  let '(svr, evs, r) := withStoreMutationAndReload svr e fn in
  match r with
  | Err er => (svr, evs, Err er)
  | Ok _ =>
      match storeSource svr ≫= λ s, GetVisitor s name with
      | None => (svr, evs, Err ErrApplyConfig)
      | Some persisted => (svr, evs, Ok persisted)
      end
  end.

(** How the closures of the operations translate the store's errors. *)
Definition on_create (r : StoreSource * option source_error) : StoreSource * option api_error :=
  (r.1, (λ er, match er with ErrAlreadyExists _ _ => ErrConflict | _ => ErrStore er end) <$> r.2).
Definition on_existing (r : StoreSource * option source_error) : StoreSource * option api_error :=
  (r.1, (λ er, match er with ErrNotFound _ _ => ErrAPINotFound | _ => ErrStore er end) <$> r.2).

(** k8s.io/apimachinery's [IsQualifiedName], see [Config]. *)
Context (IsQualifiedName : string → list string).

Definition validateStoreProxyConfigurer (c : PC) : option Config.config_error :=
  Config.ValidateProxyConfigurerForClient IsQualifiedName (Config.Complete c).
Definition validateStoreVisitorConfigurer (c : VC) : option VisitorConfig.visitor_error :=
  VisitorConfig.ValidateVisitorConfigurer (VisitorConfig.Complete c).

Definition CreateStoreProxy (svr : Service) (e : Env) (io : option save_step) (cfg : PC) : outcome PC :=
  match validateStoreProxyConfigurer cfg with
  | Some _ => (svr, [], Err ErrInvalidArgument)
  | None => withStoreProxyMutationAndReload svr e (pname cfg) (λ s, on_create (AddProxy s cfg io))
  end.

(** The body is present; its absence is refused like a wrong name. *)
Definition UpdateStoreProxy (svr : Service) (e : Env) (io : option save_step) (name : string) (cfg : PC) : outcome PC :=
  if String.eqb name "" then (svr, [], Err ErrInvalidArgument)
  else if negb (String.eqb (pname cfg) name) then (svr, [], Err ErrInvalidArgument)
  else match validateStoreProxyConfigurer cfg with
       | Some _ => (svr, [], Err ErrInvalidArgument)
       | None => withStoreProxyMutationAndReload svr e name (λ s, on_existing (UpdateProxy s cfg io))
       end.

Definition DeleteStoreProxy (svr : Service) (e : Env) (io : option save_step) (name : string) : outcome unit :=
  if String.eqb name "" then (svr, [], Err ErrInvalidArgument)
  else withStoreMutationAndReload svr e (λ s, on_existing (RemoveProxy s name io)).

Definition CreateStoreVisitor (svr : Service) (e : Env) (io : option save_step) (cfg : VC) : outcome VC :=
  match validateStoreVisitorConfigurer cfg with
  | Some _ => (svr, [], Err ErrInvalidArgument)
  | None => withStoreVisitorMutationAndReload svr e (vname cfg) (λ s, on_create (AddVisitor s cfg io))
  end.

Definition UpdateStoreVisitor (svr : Service) (e : Env) (io : option save_step) (name : string) (cfg : VC) : outcome VC :=
  if String.eqb name "" then (svr, [], Err ErrInvalidArgument)
  else if negb (String.eqb (vname cfg) name) then (svr, [], Err ErrInvalidArgument)
  else match validateStoreVisitorConfigurer cfg with
       | Some _ => (svr, [], Err ErrInvalidArgument)
       | None => withStoreVisitorMutationAndReload svr e name (λ s, on_existing (UpdateVisitor s cfg io))
       end.

Definition DeleteStoreVisitor (svr : Service) (e : Env) (io : option save_step) (name : string) : outcome unit :=
  if String.eqb name "" then (svr, [], Err ErrInvalidArgument)
  else withStoreMutationAndReload svr e (λ s, on_existing (RemoveVisitor s name io)).

(** Reading. *)
Definition StoreEnabled (svr : Service) : bool := match storeSource svr with Some _ => true | None => false end.

Definition GetStoreProxy (svr : Service) (name : string) : res api_error PC :=
  if String.eqb name "" then Err ErrInvalidArgument
  else match storeSource svr with
       | None => Err ErrStoreDisabled
       | Some s => match GetProxy s name with Some c => Ok c | None => Err ErrAPINotFound end
       end.

Definition GetStoreVisitor (svr : Service) (name : string) : res api_error VC :=
  if String.eqb name "" then Err ErrInvalidArgument
  else match storeSource svr with
       | None => Err ErrStoreDisabled
       | Some s => match GetVisitor s name with Some c => Ok c | None => Err ErrAPINotFound end
       end.

Definition IsStoreProxyEnabled (svr : Service) (name : string) : bool :=
  if String.eqb name "" then false
  else match storeSource svr with
       | None => false
       | Some s => match GetProxy s name with Some c => p_enabled c | None => false end
       end.

(** The running proxy first, then the store. *)
Definition GetProxyConfig (svr : Service) (name : string) : option PC :=
  let running :=
    pm ← ctl svr; id ← ClientProxies.proxies pm !! name;
    w ← ClientProxies.wrappers pm !! id; Some (ClientProxies.w_Cfg w) in
  match running with
  | Some c => Some c
  | None => storeSource svr ≫= λ s, GetProxy s name
  end.

Definition GetVisitorConfig (svr : Service) (name : string) : option VC :=
  match Visitors.GetVisitorCfg (vm svr) name with
  | Some c => Some c
  | None => storeSource svr ≫= λ s, GetVisitor s name
  end.

(** *** Reloading the file *)

Fixpoint validate_proxies (l : list PC) : option Config.config_error :=
  match l with
  | [] => None
  | c :: rest =>
      match Config.ValidateProxyConfigurerForClient IsQualifiedName c with
      | Some er => Some er
      | None => validate_proxies rest
      end
  end.
Fixpoint validate_visitors (l : list VC) : option VisitorConfig.visitor_error :=
  match l with
  | [] => None
  | c :: rest =>
      match VisitorConfig.ValidateVisitorConfigurer c with Some er => Some er | None => validate_visitors rest end
  end.

(** [ValidateAllClientConfig]; [common_ok] is the outcome of the validation of
    the common part. *)
Definition ValidateAllClientConfig (common_ok : bool) (ps : list PC) (vs : list VC) : bool :=
  common_ok && match validate_proxies ps, validate_visitors vs with None, None => true | _, _ => false end.

(** [ReloadFromFile]; [loaded] is what [LoadClientConfigResult] read: the names
    to start, the proxies and the visitors. Those that pass the filter are
    completed in place before they become the source's. *)
Definition ReloadFromFile (svr : Service) (e : Env) (loaded : option (list string * list PC * list VC))
    (common_ok : bool) : outcome unit :=
  match loaded with
  | None => (svr, [], Err ErrInvalidArgument)
  | Some (Start, ps, vs) =>
      let '(fps, fvs) := FilterClientConfigurers Start ps vs in
      if ValidateAllClientConfig common_ok (CompleteProxyConfigurers fps) (CompleteVisitorConfigurers fvs)
      then
        let ps := (λ c, if to_start Start (pname c) && p_enabled c then Config.Complete c else c) <$> ps in
        let vs := (λ c, if to_start Start (vname c) && v_enabled c then VisitorConfig.Complete c else c) <$> vs in
        match UpdateConfigSource svr e Start ps vs with
        | (svr, evs, None) => (svr, evs, Ok tt)
        | (svr, evs, Some _) => (svr, evs, Err ErrApplyConfig)
        end
      else (svr, [], Err ErrInvalidArgument)
  end.

(** ** Named entries *)

Section Named.
Context {T : Type} (nm : T → string) (en : T → bool).

(** Every entry is under its own name. *)
Definition keyed (M : gmap string T) : Prop := ∀ n x, M !! n = Some x → nm x = n.

Lemma insert_named_spec m l :
  NoDup (nm <$> l) →
  (∀ x, x ∈ l → insert_named nm m l !! nm x = Some x) ∧
  (∀ n, n ∉ nm <$> l → insert_named nm m l !! n = m !! n).
Proof.
  revert m. induction l as [|y l IH]; intros m Hnd; cbn; [by split; [intros x []%not_elem_of_nil|]|].
  apply NoDup_cons in Hnd as [Hni Hnd]. destruct (IH (<[nm y := y]> m) Hnd) as [H1 H2]. split.
  - intros x [->|Hx]%elem_of_cons; [|by apply H1]. rewrite H2 by done. apply lookup_insert_eq.
  - intros n Hn. rewrite not_elem_of_cons in Hn. destruct Hn as [Hne Hn]. rewrite H2 by done.
    by apply lookup_insert_ne.
Qed.

Lemma named_values_NoDup M : keyed M → NoDup (nm <$> (map_to_list M).*2).
Proof.
  intros Hk. rewrite <-list_fmap_compose.
  assert ((nm ∘ snd) <$> map_to_list M = (map_to_list M).*1) as ->; [|apply NoDup_fst_map_to_list].
  apply list_fmap_ext. intros i [n x] Hi. cbn. apply Hk, elem_of_map_to_list. by apply list_elem_of_lookup_2 in Hi.
Qed.

Lemma values_elem M x : keyed M → x ∈ (map_to_list M).*2 ↔ M !! nm x = Some x.
Proof.
  intros Hk. rewrite list_elem_of_fmap. split.
  - intros ([n y] & -> & Hy%elem_of_map_to_list). cbn. by rewrite (Hk _ _ Hy).
  - intros Hx. exists (nm x, x). split; [done|]. by apply elem_of_map_to_list.
Qed.

Lemma filter_names_NoDup (f : T → bool) l : NoDup (nm <$> l) → NoDup (nm <$> filter f l).
Proof.
  induction l as [|x l IH]; intros Hnd; [constructor|]. cbn in Hnd. apply NoDup_cons in Hnd as [Hni Hnd].
  rewrite filter_cons. case_decide; [|by apply IH]. cbn. apply NoDup_cons. split; [|by apply IH].
  intros (y & Heq & [_ Hy]%list_elem_of_filter)%list_elem_of_fmap. apply Hni. rewrite Heq. by apply list_elem_of_fmap_2.
Qed.

(** What the enabled entry of a name is, above [base]. *)
Definition overlay (M : gmap string T) (base : option T) (n : string) : option T :=
  match M !! n with Some x => if en x then Some x else base | None => base end.

Lemma overlay_spec M1 M2 n x :
  overlay M2 (overlay M1 None n) n = Some x ↔
  (M2 !! n = Some x ∧ en x = true) ∨
  (M1 !! n = Some x ∧ en x = true ∧ ∀ y, M2 !! n = Some y → en y = false).
Proof using T en.
  clear - en M1 M2 n x.
  unfold overlay. destruct (M2 !! n) as [y|], (M1 !! n) as [z|]; try destruct (en y) eqn:Ey;
    try destruct (en z) eqn:Ez; naive_solver congruence.
Qed.

Lemma insert_load M base n :
  keyed M → insert_named nm base (filter en (map_to_list M).*2) !! n = overlay M (base !! n) n.
Proof.
  intros Hk. set (l := filter en (map_to_list M).*2).
  destruct (insert_named_spec base l) as [H1 H2]; [by apply filter_names_NoDup, named_values_NoDup|].
  unfold overlay. destruct (M !! n) as [x|] eqn:Hx; [destruct (en x) eqn:He|].
  - pose proof (Hk _ _ Hx) as <-. apply H1. apply list_elem_of_filter. split; [by rewrite He|]. by apply values_elem.
  - apply H2. intros (y & -> & [Hy Hm]%list_elem_of_filter)%list_elem_of_fmap. apply values_elem in Hm; [|done].
    rewrite Hx in Hm. injection Hm as ->. by rewrite He in Hy.
  - apply H2. intros (y & -> & [Hy Hm]%list_elem_of_filter)%list_elem_of_fmap. apply values_elem in Hm; [|done]. congruence.
Qed.

Lemma insert_named_keyed m l : keyed m → keyed (insert_named nm m l).
Proof.
  revert m. induction l as [|x l IH]; intros m Hk; [done|]. cbn. apply IH.
  intros n y [[<- <-]|[_ Hy]]%lookup_insert_Some; [done|by apply Hk].
Qed.
End Named.

(** ** Merging *)

Record src_wf (b : baseSource) : Prop := {
  sw_p : keyed pname (proxies b); sw_v : keyed vname (visitors b) }.

Definition store_entries (store : option StoreSource) : baseSource :=
  match store with Some s => entries s | None => newBaseSource end.

(** The configuration of a name: the store's if it is there and enabled, else
    the file's if it is there and enabled. *)
Definition p_merged (cfg : baseSource) (store : option StoreSource) (n : string) : option PC :=
  overlay p_enabled (proxies (store_entries store)) (overlay p_enabled (proxies cfg) None n) n.
Definition v_merged (cfg : baseSource) (store : option StoreSource) (n : string) : option VC :=
  overlay v_enabled (visitors (store_entries store)) (overlay v_enabled (visitors cfg) None n) n.

Lemma agg_Load_maps cfg store :
  src_wf cfg → src_wf (store_entries store) →
  ∃ pm vm, agg_Load cfg store = mapsToSortedSlices pm vm ∧ keyed pname pm ∧ keyed vname vm ∧
    (∀ n, pm !! n = p_merged cfg store n) ∧ (∀ n, vm !! n = v_merged cfg store n).
Proof.
  intros [Hp1 Hv1] [Hp2 Hv2]. unfold agg_Load, p_merged, v_merged. destruct store as [s|]; cbn.
  - eexists _, _. split; [done|]. unfold insert_proxies, insert_visitors.
    split_and!; try (repeat apply insert_named_keyed; intros ? ?; by rewrite lookup_empty).
    + intros n. rewrite insert_load by done. by rewrite insert_load, lookup_empty.
    + intros n. rewrite insert_load by done. by rewrite insert_load, lookup_empty.
  - eexists _, _. split; [done|]. unfold insert_proxies, insert_visitors.
    split_and!; try (repeat apply insert_named_keyed; intros ? ?; by rewrite lookup_empty).
    + intros n. by rewrite insert_load, lookup_empty.
    + intros n. by rewrite insert_load, lookup_empty.
Qed.

#[local] Instance p_le_total : Total p_le.
Proof. intros x y. apply String.leb_total. Qed.
#[local] Instance v_le_total : Total v_le.
Proof. intros x y. apply String.leb_total. Qed.

Lemma agg_Load_spec cfg store :
  src_wf cfg → src_wf (store_entries store) →
  let '(ps, vs) := agg_Load cfg store in
  (∀ c, c ∈ ps ↔ p_merged cfg store (pname c) = Some c) ∧ NoDup (pname <$> ps) ∧ Sorted p_le ps ∧
  (∀ c, c ∈ vs ↔ v_merged cfg store (vname c) = Some c) ∧ NoDup (vname <$> vs) ∧ Sorted v_le vs.
Proof.
  intros H1 H2. destruct (agg_Load_maps cfg store H1 H2) as (pm & vm & -> & Hkp & Hkv & Hp & Hv). cbn.
  split_and!.
  - intros c. rewrite merge_sort_Permutation, (values_elem pname) by done. by rewrite Hp.
  - rewrite merge_sort_Permutation. by apply named_values_NoDup.
  - apply Sorted_merge_sort, p_le_total.
  - intros c. rewrite merge_sort_Permutation, (values_elem vname) by done. by rewrite Hv.
  - rewrite merge_sort_Permutation. by apply named_values_NoDup.
  - apply Sorted_merge_sort, v_le_total.
Qed.

(** The sources are merged by name: the configuration of a name is the
    store's when the store has an enabled one, else the configuration file's
    when that is enabled, so that a disabled entry of the store does not hide the
    file's; nothing else is loaded, no name appears twice, and the lists are in
    the order of the names, whatever the order of the maps. *)
Theorem sources_merged cfg store :
  src_wf cfg → src_wf (store_entries store) →
  let '(ps, vs) := agg_Load cfg store in
  (∀ c, c ∈ ps ↔
     (proxies (store_entries store) !! pname c = Some c ∧ p_enabled c = true) ∨
     (proxies cfg !! pname c = Some c ∧ p_enabled c = true ∧
      ∀ d, proxies (store_entries store) !! pname c = Some d → p_enabled d = false)) ∧
  (∀ c, c ∈ vs ↔
     (visitors (store_entries store) !! vname c = Some c ∧ v_enabled c = true) ∨
     (visitors cfg !! vname c = Some c ∧ v_enabled c = true ∧
      ∀ d, visitors (store_entries store) !! vname c = Some d → v_enabled d = false)) ∧
  NoDup (pname <$> ps) ∧ NoDup (vname <$> vs) ∧ Sorted p_le ps ∧ Sorted v_le vs.
Proof.
  intros H1 H2. pose proof (agg_Load_spec cfg store H1 H2) as Hs. destruct (agg_Load cfg store) as [ps vs].
  destruct Hs as (Hp & Np & Sp & Hv & Nv & Sv). split_and!; try done.
  - intros c. rewrite Hp. apply overlay_spec.
  - intros c. rewrite Hv. apply overlay_spec.
Qed.

(** ** What a reload applies *)

Lemma Complete_pname c : pname (Config.Complete c) = pname c.
Proof. by destruct c. Qed.

Lemma effective_names svr :
  src_wf (configSource svr) → src_wf (store_entries (storeSource svr)) →
  NoDup (pname <$> (effective svr).1) ∧ NoDup (vname <$> (effective svr).2).
Proof.
  intros H1 H2. unfold effective. pose proof (agg_Load_spec _ _ H1 H2) as Hs.
  destruct (agg_Load _ _) as [ps vs]. destruct Hs as (_ & Np & _ & _ & Nv & _). cbn.
  unfold CompleteProxyConfigurers, CompleteVisitorConfigurers. rewrite <-!list_fmap_compose. split.
  - rewrite (list_fmap_ext (pname ∘ Config.Complete) pname) by (intros; apply Complete_pname).
    by apply filter_names_NoDup, filter_names_NoDup.
  - rewrite (list_fmap_ext (vname ∘ VisitorConfig.Complete) vname) by (intros; apply VisitorConfig.Complete_name).
    by apply filter_names_NoDup, filter_names_NoDup.
Qed.

(** The managers run what a reload applies. *)
Definition applied (svr : Service) : Prop :=
  (proxyCfgs svr, visitorCfgs svr) = effective svr ∧
  ∀ pm, ctl svr = Some pm →
    (∀ c, c ∈ (effective svr).1 ↔ ∃ id w, ClientProxies.proxies pm !! pname c = Some id ∧
       ClientProxies.wrappers pm !! id = Some w ∧ ClientProxies.w_Cfg w = c) ∧
    (∀ n id, ClientProxies.proxies pm !! n = Some id → n ∈ pname <$> (effective svr).1) ∧
    (∀ n, Visitors.cfgs (vm svr) !! n = Visitors.KeyBy (effective svr).2 n).

Lemma update_stopped run l order m : Visitors.stopped (Visitors.UpdateAll run l order m) = Visitors.stopped m.
Proof.
  unfold Visitors.UpdateAll. rewrite Visitors.add_loop_stopped, Visitors.remove_loop_stopped. done.
Qed.

(** A service whose parts are in order and that is not stopped. *)
Record svc_ok (svr : Service) : Prop := {
  so_live : live svr = true;
  so_cfg : src_wf (configSource svr);
  so_store : src_wf (store_entries (storeSource svr));
  so_pm : ∀ pm, ctl svr = Some pm → ClientProxies.wf user pm;
  so_vm : Visitors.vinv (vm svr) ∧ Visitors.stopped (vm svr) = false
}.

(** The orders are those of the managers' maps. *)
Definition env_ok (svr : Service) (e : Env) : Prop :=
  (∀ pm, ctl svr = Some pm → p_order e ≡ₚ map_to_list (ClientProxies.proxies pm)) ∧
  v_order e ≡ₚ map_to_list (Visitors.cfgs (vm svr)).

Lemma reload_spec svr e :
  svc_ok svr → env_ok svr e →
  ∃ svr' evs, reloadConfigFromSources svr e = Some (svr', evs) ∧ svc_ok svr' ∧ applied svr' ∧
    configSource svr' = configSource svr ∧ storeSource svr' = storeSource svr ∧ reloadCommon svr' = reloadCommon svr.
Proof.
  intros [Hlive Hcfg Hstore Hpm [Hvm Hns]] [Hop Hov]. unfold reloadConfigFromSources. rewrite Hlive.
  destruct (effective_names svr Hcfg Hstore) as [Np Nv].
  destruct (effective svr) as [ps vs] eqn:Heff. unfold UpdateAllConfigurer. cbn in Np, Nv.
  destruct (ctl svr) as [pm|] eqn:Hctl.
  - pose proof (Hpm pm eq_refl) as Hwf. specialize (Hop pm eq_refl).
    destruct (ClientProxies.UpdateAll user pm (p_order e) ps) as [pm' evs] eqn:HU.
    assert (ClientProxies.wf user pm') as Hwf'.
    { pose proof (ClientProxies.wf_UpdateAll user pm (p_order e) ps Hwf Hop Np) as H. by rewrite HU in H. }
    apply ClientProxies.UpdateAll_entries in HU as (_ & _ & Hgone & Hpres); [|done..].
    eexists _, _. split; [done|]. split; [|split; [|done]].
    + split; cbn; try done; [by intros ? [= <-]|]. split.
      * apply (Visitors.vinv_step (vm svr)); [done|]. by apply Visitors.VUpdate.
      * rewrite update_stopped. done.
    + assert (∀ s, configSource s = configSource svr → storeSource s = storeSource svr →
        reloadCommon s = reloadCommon svr → effective s = (ps, vs)) as He.
      { intros s E1 E2 E3. unfold effective in *. by rewrite E1, E2, E3. }
      split; cbn; rewrite He by done; [done|]. intros ? [= <-]. cbn. split_and!.
      * intros c. split; [intros Hc; destruct (Hpres c Hc) as (id & w & H1 & H2 & H3 & _); by exists id, w|].
        intros (id & w & H1 & H2 & <-). destruct (decide (pname (ClientProxies.w_Cfg w) ∈ pname <$> ps)) as [Hin|Hni];
          [|by rewrite Hgone in H1].
        apply list_elem_of_fmap in Hin as (d & Hd & Hin). destruct (Hpres d Hin) as (id' & w' & E1 & E2 & E3 & _).
        rewrite <-Hd, H1 in E1. injection E1 as <-. rewrite H2 in E2. injection E2 as <-. by rewrite E3.
      * intros n id Hn. destruct (decide (n ∈ pname <$> ps)) as [|Hni]; [done|]. by rewrite Hgone in Hn.
      * intros n. apply Visitors.update_cfgs; [apply Hvm|done|done].
  - eexists _, _. split; [done|]. split; [by split|]. split; [|done]. split; [|done]. cbn. symmetry.
    unfold effective in *. cbn. done.
Qed.

(** ** The management API as operations on maps *)

Inductive api_op :=
| OpCreateProxy (c : PC) | OpUpdateProxy (name : string) (c : PC) | OpDeleteProxy (name : string)
| OpCreateVisitor (c : VC) | OpUpdateVisitor (name : string) (c : VC) | OpDeleteVisitor (name : string).

Definition answer {A} (o : outcome A) : Service * list ClientProxies.event * option api_error :=
  (o.1, match o.2 with Ok _ => None | Err er => Some er end).

Definition run_api (svr : Service) (e : Env) (io : option save_step) (op : api_op)
    : Service * list ClientProxies.event * option api_error :=
  match op with
  | OpCreateProxy c => answer (CreateStoreProxy svr e io c)
  | OpUpdateProxy name c => answer (UpdateStoreProxy svr e io name c)
  | OpDeleteProxy name => answer (DeleteStoreProxy svr e io name)
  | OpCreateVisitor c => answer (CreateStoreVisitor svr e io c)
  | OpUpdateVisitor name c => answer (UpdateStoreVisitor svr e io name c)
  | OpDeleteVisitor name => answer (DeleteStoreVisitor svr e io name)
  end.

(** The specification: the maps after the operation, or why it is refused. *)
Definition spec_op (op : api_op) (b : baseSource) : res api_error baseSource :=
  match op with
  | OpCreateProxy c =>
      if validateStoreProxyConfigurer c then Err ErrInvalidArgument
      else if proxies b !! pname c then Err ErrConflict
      else Ok (mkBase (<[pname c := c]> (proxies b)) (visitors b))
  | OpUpdateProxy name c =>
      if String.eqb name "" || negb (String.eqb (pname c) name) then Err ErrInvalidArgument
      else if validateStoreProxyConfigurer c then Err ErrInvalidArgument
      else if proxies b !! name then Ok (mkBase (<[name := c]> (proxies b)) (visitors b))
      else Err ErrAPINotFound
  | OpDeleteProxy name =>
      if String.eqb name "" then Err ErrInvalidArgument
      else if proxies b !! name then Ok (mkBase (delete name (proxies b)) (visitors b))
      else Err ErrAPINotFound
  | OpCreateVisitor c =>
      if validateStoreVisitorConfigurer c then Err ErrInvalidArgument
      else if visitors b !! vname c then Err ErrConflict
      else Ok (mkBase (proxies b) (<[vname c := c]> (visitors b)))
  | OpUpdateVisitor name c =>
      if String.eqb name "" || negb (String.eqb (vname c) name) then Err ErrInvalidArgument
      else if validateStoreVisitorConfigurer c then Err ErrInvalidArgument
      else if visitors b !! name then Ok (mkBase (proxies b) (<[name := c]> (visitors b)))
      else Err ErrAPINotFound
  | OpDeleteVisitor name =>
      if String.eqb name "" then Err ErrInvalidArgument
      else if visitors b !! name then Ok (mkBase (proxies b) (delete name (visitors b)))
      else Err ErrAPINotFound
  end.

(** A valid configuration has a name. *)
Lemma valid_proxy_named c : validateStoreProxyConfigurer c = None → validateProxyName c = Ok (pname c) ∧ pname c ≠ "".
Proof.
  unfold validateStoreProxyConfigurer, Config.ValidateProxyConfigurerForClient, validateProxyName.
  unfold Config.validateProxyBaseConfigForClient. cbn [Config.first_error].
  destruct (String.eqb_spec (pname c) "") as [E|E].
  - replace (Config.Name (Config.GetBaseConfig (Config.Complete c))) with (pname c) by (by rewrite <-Complete_pname).
    rewrite E. done.
  - done.
Qed.

Lemma valid_visitor_named c : validateStoreVisitorConfigurer c = None → validateVisitorName c = Ok (vname c) ∧ vname c ≠ "".
Proof.
  unfold validateStoreVisitorConfigurer, VisitorConfig.ValidateVisitorConfigurer, validateVisitorName.
  unfold VisitorConfig.validateVisitorBaseConfig. rewrite VisitorConfig.Complete_name.
  change (VisitorConfig.Name (VisitorConfig.GetBaseConfig c)) with (vname c).
  destruct (String.eqb_spec (vname c) "") as [E|E]; done.
Qed.

(** What persisting does: all of it or none. *)
Lemma persist_spec (s : StoreSource) b io old r :
  persistOrRollback (set_entries s b) io old = r →
  (∃ data, MarshalIndent (map_to_list (proxies b)).*2 (map_to_list (visitors b)).*2 = Some data ∧ io = None ∧
     r = (mkStore b (path s) (mkFiles (Some data) None), None)) ∨
  (∃ er fs, file fs = file (files s) ∧ r = (mkStore old (path s) fs, Some (ErrPersist er)) ∧
     (io ≠ None ∨ MarshalIndent (map_to_list (proxies b)).*2 (map_to_list (visitors b)).*2 = None)).
Proof.
  unfold persistOrRollback, saveToFile, set_entries. cbn [entries files path]. intros <-.
  destruct (MarshalIndent _ _) as [data|]; [|right; eexists _, _; split_and!; [done|done|by right]].
  destruct io as [[]|]; [right; eexists _, _; split_and!; [|done|by left]; done..|].
  left. by exists data.
Qed.

Notation text_of b := (MarshalIndent (map_to_list (proxies b)).*2 (map_to_list (visitors b)).*2).

(** The result of changing the entries of [s] to [b']: persisted, or everything
    as before. *)
Definition mutated (s : StoreSource) (io : option save_step) (b' : baseSource)
    (r : StoreSource * option source_error) : Prop :=
  (∃ data, text_of b' = Some data ∧ io = None ∧ r = (mkStore b' (path s) (mkFiles (Some data) None), None)) ∨
  (∃ er fs, file fs = file (files s) ∧ r = (mkStore (entries s) (path s) fs, Some (ErrPersist er)) ∧
     (io ≠ None ∨ text_of b' = None)).

(** The selectors read and write one map. *)
Class SelectorLaws {T} (sel : Selector T) : Prop := {
  put_get b : put sel (get sel b) b = b;
  put_put m m' b : put sel m (put sel m' b) = put sel m b }.
Instance proxy_selector : SelectorLaws proxyStoreEntries.
Proof. split; by intros []. Qed.
Instance visitor_selector : SelectorLaws visitorStoreEntries.
Proof. split; by intros []. Qed.

Section EntryLemmas.
Context {T : Type} (sel : Selector T) `{!SelectorLaws sel}.

Lemma persist_mutated s m m0 io :
  m0 = get sel (entries s) →
  mutated s io (put sel m (entries s))
    (persistOrRollback (set_entries s (put sel m (entries s))) io (put sel m0 (put sel m (entries s)))).
Proof.
  intros ->. rewrite put_put, put_get. unfold mutated.
  destruct (persist_spec s (put sel m (entries s)) io (entries s) _ eq_refl) as [H|(er & fs & H)]; [by left|].
  right. by exists er, fs.
Qed.

Lemma addStoreEntry_spec s name v io :
  if get sel (entries s) !! name
  then addStoreEntry sel s name v io = (s, Some (ErrAlreadyExists (kind sel) name))
  else mutated s io (put sel (<[name := v]> (get sel (entries s))) (entries s)) (addStoreEntry sel s name v io).
Proof.
  unfold addStoreEntry. destruct (get sel (entries s) !! name) eqn:E; [done|]. apply persist_mutated.
  by apply delete_insert_id.
Qed.

Lemma updateStoreEntry_spec s name v io :
  if get sel (entries s) !! name
  then mutated s io (put sel (<[name := v]> (get sel (entries s))) (entries s)) (updateStoreEntry sel s name v io)
  else updateStoreEntry sel s name v io = (s, Some (ErrNotFound (kind sel) name)).
Proof.
  unfold updateStoreEntry. destruct (get sel (entries s) !! name) eqn:E; [|done]. apply persist_mutated.
  rewrite insert_insert_eq. by apply insert_id.
Qed.

Lemma removeStoreEntry_spec s name io :
  name ≠ "" →
  if get sel (entries s) !! name
  then mutated s io (put sel (delete name (get sel (entries s))) (entries s)) (removeStoreEntry sel s name io)
  else removeStoreEntry sel s name io = (s, Some (ErrNotFound (kind sel) name)).
Proof.
  intros Hn. unfold removeStoreEntry. rewrite (proj2 (String.eqb_neq _ _) Hn).
  destruct (get sel (entries s) !! name) eqn:E; [|done]. apply persist_mutated. by apply insert_delete_id.
Qed.
End EntryLemmas.

(** *** Mutation and reload *)

(** Nothing that is kept or runs has changed. *)
Definition unchanged (svr svr' : Service) (s : StoreSource) : Prop :=
  ∃ s', svr' = set_store svr s' ∧ entries s' = entries s ∧ path s' = path s ∧ file (files s') = file (files s).

(** The entries are [b'], in the file and in what runs. *)
Definition stored (svr' : Service) (s : StoreSource) (b' : baseSource) : Prop :=
  applied svr' ∧ ∃ s' data, storeSource svr' = Some s' ∧ path s' = path s ∧ entries s' = b' ∧ text_of b' = Some data ∧
    files s' = mkFiles (Some data) None.

Lemma set_store_ok svr s s' :
  svc_ok svr → storeSource svr = Some s → src_wf (entries s') → svc_ok (set_store svr s').
Proof. intros [? ? ? ? ?] Hs Hw. by split. Qed.

(** [tr] translates an error of the store other than that of persisting. *)
Lemma mutate_reload svr e s fn (tr : StoreSource * option source_error → StoreSource * option api_error) io b' :
  svc_ok svr → env_ok svr e → storeSource svr = Some s → src_wf b' → mutated s io b' (fn s) →
  (∀ s1, tr (s1, None) = (s1, None)) → (∀ s1 er, tr (s1, Some (ErrPersist er)) = (s1, Some (ErrStore (ErrPersist er)))) →
  let '(svr', evs, r) := withStoreMutationAndReload svr e (λ s, tr (fn s)) in
  svc_ok svr' ∧
  match r with
  | Ok _ => stored svr' s b'
  | Err (ErrStore (ErrPersist _)) => evs = [] ∧ unchanged svr svr' s ∧ (io ≠ None ∨ text_of b' = None)
  | Err _ => False
  end.
Proof.
  intros Hok He Hs Hb Hm Htr1 Htr2. unfold withStoreMutationAndReload. rewrite Hs.
  destruct Hm as [(data & Ht & Hio & Hr)|(er & fs & Hf & Hr & Hwhy)]; rewrite Hr.
  - rewrite Htr1. set (s1 := mkStore b' (path s) (mkFiles (Some data) None)).
    assert (svc_ok (set_store svr s1)) as Hok1 by (by apply (set_store_ok svr s)).
    destruct (reload_spec (set_store svr s1) e Hok1 He) as (svr' & evs & -> & Hok' & Ha & _ & Hst & _).
    split; [done|]. split; [done|]. exists s1, data. by rewrite Hst.
  - rewrite Htr2. split; [apply (set_store_ok svr s); [done..|]; cbn; pose proof (so_store _ Hok) as Hw; by rewrite Hs in Hw|].
    split; [done|]. split; [|done]. by eexists.
Qed.

Lemma refuse_reload svr e s fn (tr : StoreSource * option source_error → StoreSource * option api_error) er er' :
  svc_ok svr → storeSource svr = Some s → fn s = (s, Some er) → tr (s, Some er) = (s, Some er') →
  withStoreMutationAndReload svr e (λ s, tr (fn s)) = (svr, [], Err er').
Proof.
  intros Hok Hs Hf Htr. unfold withStoreMutationAndReload. rewrite Hs, Hf, Htr.
  do 2 f_equal. destruct svr. cbn in *. unfold set_store. cbn. by rewrite Hs.
Qed.

(** What the specification says of an answer. *)
Definition api_post (svr : Service) (s : StoreSource) (io : option save_step) (sp : res api_error baseSource)
    (o : Service * list ClientProxies.event * option api_error) : Prop :=
  let '(svr', evs, err) := o in
  svc_ok svr' ∧
  match sp, err with
  | Ok b', None => stored svr' s b'
  | Ok b', Some (ErrStore (ErrPersist _)) => evs = [] ∧ unchanged svr svr' s ∧ (io ≠ None ∨ text_of b' = None)
  | Err er, Some er' => er' = er ∧ evs = [] ∧ unchanged svr svr' s
  | _, _ => False
  end.

Lemma post_refused svr s io er :
  svc_ok svr → storeSource svr = Some s → api_post svr s io (Err er) (svr, [], Some er).
Proof.
  intros Hok Hs. split; [done|]. split_and!; [done..|]. exists s. split_and!; try done.
  destruct svr. cbn in *. unfold set_store. cbn. by rewrite Hs.
Qed.

Section Post.
Context (svr : Service) (e : Env) (s : StoreSource) (io : option save_step).
Context (Hok : svc_ok svr) (He : env_ok svr e) (Hs : storeSource svr = Some s).

Lemma post_mutate fn tr b' :
  src_wf b' → mutated s io b' (fn s) →
  (∀ s1, tr (s1, None) = (s1, None)) → (∀ s1 er, tr (s1, Some (ErrPersist er)) = (s1, Some (ErrStore (ErrPersist er)))) →
  api_post svr s io (Ok b') (answer (withStoreMutationAndReload svr e (λ s, tr (fn s)))).
Proof.
  intros Hb Hm H1 H2. pose proof (mutate_reload svr e s fn tr io b' Hok He Hs Hb Hm H1 H2) as H.
  destruct (withStoreMutationAndReload _ _ _) as [[svr' evs] r]. destruct H as [Hok' H].
  unfold answer. cbn. split; [done|]. by destruct r as [[]|[]].
Qed.

Lemma post_proxy name b' fn :
  proxies b' !! name ≠ None →
  api_post svr s io (Ok b') (answer (withStoreMutationAndReload svr e fn)) →
  api_post svr s io (Ok b') (answer (withStoreProxyMutationAndReload svr e name fn)).
Proof.
  intros Hn. unfold withStoreProxyMutationAndReload.
  destruct (withStoreMutationAndReload svr e fn) as [[svr' evs] [?|er]]; [|done].
  unfold answer. cbn. intros (Hok' & Ha & s' & data & Hs' & Hpa & <- & Hrest). rewrite Hs'. cbn.
  unfold GetProxy. destruct (proxies (entries s') !! name) eqn:E; [|done]. cbn. split; [done|]. split; [done|].
  exists s', data. done.
Qed.

Lemma post_visitor name b' fn :
  visitors b' !! name ≠ None →
  api_post svr s io (Ok b') (answer (withStoreMutationAndReload svr e fn)) →
  api_post svr s io (Ok b') (answer (withStoreVisitorMutationAndReload svr e name fn)).
Proof.
  intros Hn. unfold withStoreVisitorMutationAndReload.
  destruct (withStoreMutationAndReload svr e fn) as [[svr' evs] [?|er]]; [|done].
  unfold answer. cbn. intros (Hok' & Ha & s' & data & Hs' & Hpa & <- & Hrest). rewrite Hs'. cbn.
  unfold GetVisitor. destruct (visitors (entries s') !! name) eqn:E; [|done]. cbn. split; [done|]. split; [done|].
  exists s', data. done.
Qed.

Lemma proxy_refused name fn er' :
  withStoreMutationAndReload svr e fn = (svr, [], Err er') →
  withStoreProxyMutationAndReload svr e name fn = (svr, [], Err er').
Proof using. intros H. unfold withStoreProxyMutationAndReload. by rewrite H. Qed.
Lemma visitor_refused name fn er' :
  withStoreMutationAndReload svr e fn = (svr, [], Err er') →
  withStoreVisitorMutationAndReload svr e name fn = (svr, [], Err er').
Proof using. intros H. unfold withStoreVisitorMutationAndReload. by rewrite H. Qed.

Lemma entries_wf : src_wf (entries s).
Proof using Hok Hs. pose proof (so_store _ Hok) as H. by rewrite Hs in H. Qed.

Lemma wf_insert_proxy c : src_wf (mkBase (<[pname c := c]> (proxies (entries s))) (visitors (entries s))).
Proof using Hok Hs.
  destruct entries_wf as [Hp Hv]. split; cbn; [|done].
  intros n x [[<- <-]|[_ Hx]]%lookup_insert_Some; [done|by apply Hp].
Qed.
Lemma wf_insert_visitor c : src_wf (mkBase (proxies (entries s)) (<[vname c := c]> (visitors (entries s)))).
Proof using Hok Hs.
  destruct entries_wf as [Hp Hv]. split; cbn; [done|].
  intros n x [[<- <-]|[_ Hx]]%lookup_insert_Some; [done|by apply Hv].
Qed.

Lemma post_create_proxy c : api_post svr s io (spec_op (OpCreateProxy c) (entries s)) (run_api svr e io (OpCreateProxy c)).
Proof.
  cbn. unfold CreateStoreProxy. destruct (validateStoreProxyConfigurer c) eqn:Hv; [by apply post_refused|].
  destruct (valid_proxy_named c Hv) as [Hn _].
  pose proof (addStoreEntry_spec proxyStoreEntries s (pname c) c io) as Ha. cbn in Ha.
  destruct (proxies (entries s) !! pname c) eqn:E.
  - rewrite (proxy_refused _ _ ErrConflict); [by apply post_refused|].
    apply (refuse_reload svr e s (λ s, AddProxy s c io) on_create (ErrAlreadyExists "proxy" (pname c))); [done|done| |done].
    unfold AddProxy. by rewrite Hn.
  - apply post_proxy; [cbn; by rewrite lookup_insert_eq|].
    apply (post_mutate (λ s, AddProxy s c io) on_create); [apply wf_insert_proxy|unfold AddProxy; by rewrite Hn|done..].
Qed.

Lemma post_create_visitor c :
  api_post svr s io (spec_op (OpCreateVisitor c) (entries s)) (run_api svr e io (OpCreateVisitor c)).
Proof.
  cbn. unfold CreateStoreVisitor. destruct (validateStoreVisitorConfigurer c) eqn:Hv; [by apply post_refused|].
  destruct (valid_visitor_named c Hv) as [Hn _].
  pose proof (addStoreEntry_spec visitorStoreEntries s (vname c) c io) as Ha. cbn in Ha.
  destruct (visitors (entries s) !! vname c) eqn:E.
  - rewrite (visitor_refused _ _ ErrConflict); [by apply post_refused|].
    apply (refuse_reload svr e s (λ s, AddVisitor s c io) on_create (ErrAlreadyExists "visitor" (vname c))); [done|done| |done].
    unfold AddVisitor. by rewrite Hn.
  - apply post_visitor; [cbn; by rewrite lookup_insert_eq|].
    apply (post_mutate (λ s, AddVisitor s c io) on_create); [apply wf_insert_visitor|unfold AddVisitor; by rewrite Hn|done..].
Qed.

Lemma post_update_proxy name c :
  api_post svr s io (spec_op (OpUpdateProxy name c) (entries s)) (run_api svr e io (OpUpdateProxy name c)).
Proof.
  cbn. unfold UpdateStoreProxy. destruct (String.eqb_spec name ""); [by apply post_refused|].
  destruct (String.eqb_spec (pname c) name) as [<-|]; [|by apply post_refused]. cbn.
  destruct (validateStoreProxyConfigurer c) eqn:Hv; [by apply post_refused|].
  destruct (valid_proxy_named c Hv) as [Hn _].
  pose proof (updateStoreEntry_spec proxyStoreEntries s (pname c) c io) as Ha. cbn in Ha.
  destruct (proxies (entries s) !! pname c) eqn:E.
  - apply post_proxy; [cbn; by rewrite lookup_insert_eq|].
    apply (post_mutate (λ s, UpdateProxy s c io) on_existing); [apply wf_insert_proxy|unfold UpdateProxy; by rewrite Hn|done..].
  - rewrite (proxy_refused _ _ ErrAPINotFound); [by apply post_refused|].
    apply (refuse_reload svr e s (λ s, UpdateProxy s c io) on_existing (ErrNotFound "proxy" (pname c))); [done|done| |done].
    unfold UpdateProxy. by rewrite Hn.
Qed.

Lemma post_update_visitor name c :
  api_post svr s io (spec_op (OpUpdateVisitor name c) (entries s)) (run_api svr e io (OpUpdateVisitor name c)).
Proof.
  cbn. unfold UpdateStoreVisitor. destruct (String.eqb_spec name ""); [by apply post_refused|].
  destruct (String.eqb_spec (vname c) name) as [<-|]; [|by apply post_refused]. cbn.
  destruct (validateStoreVisitorConfigurer c) eqn:Hv; [by apply post_refused|].
  destruct (valid_visitor_named c Hv) as [Hn _].
  pose proof (updateStoreEntry_spec visitorStoreEntries s (vname c) c io) as Ha. cbn in Ha.
  destruct (visitors (entries s) !! vname c) eqn:E.
  - apply post_visitor; [cbn; by rewrite lookup_insert_eq|].
    apply (post_mutate (λ s, UpdateVisitor s c io) on_existing); [apply wf_insert_visitor|unfold UpdateVisitor; by rewrite Hn|done..].
  - rewrite (visitor_refused _ _ ErrAPINotFound); [by apply post_refused|].
    apply (refuse_reload svr e s (λ s, UpdateVisitor s c io) on_existing (ErrNotFound "visitor" (vname c))); [done|done| |done].
    unfold UpdateVisitor. by rewrite Hn.
Qed.

Lemma post_delete_proxy name :
  api_post svr s io (spec_op (OpDeleteProxy name) (entries s)) (run_api svr e io (OpDeleteProxy name)).
Proof.
  cbn. unfold DeleteStoreProxy. destruct (String.eqb_spec name "") as [|Hne]; [by apply post_refused|].
  pose proof (removeStoreEntry_spec proxyStoreEntries s name io Hne) as Ha. cbn in Ha.
  destruct (proxies (entries s) !! name) eqn:E.
  - apply (post_mutate (λ s, RemoveProxy s name io) on_existing); [|done..].
    destruct entries_wf as [Hp Hv]. split; cbn; [|done]. intros n x [_ Hx]%lookup_delete_Some. by apply Hp.
  - rewrite (refuse_reload svr e s (λ s, RemoveProxy s name io) on_existing (ErrNotFound "proxy" name) ErrAPINotFound) by done.
    by apply post_refused.
Qed.

Lemma post_delete_visitor name :
  api_post svr s io (spec_op (OpDeleteVisitor name) (entries s)) (run_api svr e io (OpDeleteVisitor name)).
Proof.
  cbn. unfold DeleteStoreVisitor. destruct (String.eqb_spec name "") as [|Hne]; [by apply post_refused|].
  pose proof (removeStoreEntry_spec visitorStoreEntries s name io Hne) as Ha. cbn in Ha.
  destruct (visitors (entries s) !! name) eqn:E.
  - apply (post_mutate (λ s, RemoveVisitor s name io) on_existing); [|done..].
    destruct entries_wf as [Hp Hv]. split; cbn; [done|]. intros n x [_ Hx]%lookup_delete_Some. by apply Hv.
  - rewrite (refuse_reload svr e s (λ s, RemoveVisitor s name io) on_existing (ErrNotFound "visitor" name) ErrAPINotFound) by done.
    by apply post_refused.
Qed.
End Post.

Lemma run_api_post svr e s io op :
  svc_ok svr → env_ok svr e → storeSource svr = Some s →
  api_post svr s io (spec_op op (entries s)) (run_api svr e io op).
Proof.
  intros Hok He Hs.
  destruct op; [by apply post_create_proxy|by apply post_update_proxy|by apply post_delete_proxy|
    by apply post_create_visitor|by apply post_update_visitor|by apply post_delete_visitor].
Qed.

(** C22. The management API refines its specification on maps, for all six
    operations. When the specification allows a change and the file can be
    written, the store has the specified entries, the file holds their text, and
    the proxies and visitors that run are exactly those of the merged,
    filtered and completed configuration. When the file cannot be written, or
    the specification refuses, the error says so and the entries, the file, and
    all that runs are as before, with nothing sent to the server; and no
    operation ends with a configuration that is stored and not applied. *)
Theorem store_api_refines svr e s io op :
  svc_ok svr → env_ok svr e → storeSource svr = Some s →
  let '(svr', evs, err) := run_api svr e io op in
  svc_ok svr' ∧
  match spec_op op (entries s), err with
  | Ok b', None => stored svr' s b'
  | Ok b', Some (ErrStore (ErrPersist _)) => evs = [] ∧ unchanged svr svr' s ∧ (io ≠ None ∨ text_of b' = None)
  | Err er, Some er' => er' = er ∧ evs = [] ∧ unchanged svr svr' s
  | _, _ => False
  end.
Proof.
  intros Hok He Hs. exact (run_api_post svr e s io op Hok He Hs).
Qed.

(** ** Restarts *)

(** A visitor whose [Type] is that of its struct. *)
Definition v_typed (c : VC) : Prop := VisitorConfig.Type_ (VisitorConfig.GetBaseConfig c) = VisitorConfig.type_of c.

(** Entries under their names, none of them empty. *)
Definition entries_ok (b : baseSource) : Prop :=
  (∀ n c, proxies b !! n = Some c → pname c = n ∧ n ≠ "") ∧
  (∀ n c, visitors b !! n = Some c → vname c = n ∧ n ≠ "").

(** JSON reads back these very entries from their text. It does not for every
    configuration: invalid UTF-8 is replaced, for one. *)
Definition reads_back (b : baseSource) : Prop :=
  ∀ data, text_of b = Some data →
  ∃ rps rvs, Unmarshal data = Some (rps, rvs) ∧
    DecodeProxy <$> rps = Some <$> (map_to_list (proxies b)).*2 ∧
    DecodeVisitor <$> rvs = Some <$> (map_to_list (visitors b)).*2.

Lemma decode_proxies_spec i rps ps m :
  DecodeProxy <$> rps = Some <$> ps → Forall (λ c, pname c ≠ "") ps →
  decode_proxies i rps m = Ok (insert_named pname m ps).
Proof using.
  revert i ps m. induction rps as [|r rps IH]; intros i [|c ps] m Heq Hne; try done.
  cbn in Heq. injection Heq as Hd Heq. apply Forall_cons in Hne as [Hc Hne]. cbn. rewrite Hd.
  rewrite (proj2 (String.eqb_neq _ _) Hc). by apply IH.
Qed.
Lemma decode_visitors_spec i rvs vs m :
  DecodeVisitor <$> rvs = Some <$> vs → Forall (λ c, vname c ≠ "") vs →
  decode_visitors i rvs m = Ok (insert_named vname m vs).
Proof using.
  revert i vs m. induction rvs as [|r rvs IH]; intros i [|c vs] m Heq Hne; try done.
  cbn in Heq. injection Heq as Hd Heq. apply Forall_cons in Hne as [Hc Hne]. cbn. rewrite Hd.
  rewrite (proj2 (String.eqb_neq _ _) Hc). by apply IH.
Qed.

Lemma insert_values {T} (nm : T → string) (M : gmap string T) :
  keyed nm M → insert_named nm ∅ (map_to_list M).*2 = M.
Proof using.
  intros Hk. apply map_eq. intros n.
  destruct (insert_named_spec nm ∅ (map_to_list M).*2 (named_values_NoDup nm M Hk)) as [H1 H2].
  destruct (M !! n) as [x|] eqn:Hx.
  - pose proof (Hk _ _ Hx) as <-. apply H1. by apply (values_elem nm).
  - rewrite H2; [apply lookup_empty|]. intros (y & -> & Hy)%list_elem_of_fmap. apply (values_elem nm) in Hy; [|done]. congruence.
Qed.

Lemma saved_reads_back b data :
  entries_ok b → reads_back b → text_of b = Some data → loadFromFile data = Ok b.
Proof.
  intros [Hp Hv] Hrb Ht.
  assert (keyed pname (proxies b) ∧ keyed vname (visitors b)) as [Kp Kv].
  { split; intros n c Hc; [by destruct (Hp n c Hc)|by destruct (Hv n c Hc)]. }
  assert (Forall (λ c, pname c ≠ "") (map_to_list (proxies b)).*2) as Fp.
  { apply Forall_forall. intros c Hc. apply (values_elem pname) in Hc; [|done]. by destruct (Hp _ _ Hc) as (_ & ?). }
  assert (Forall (λ c, vname c ≠ "") (map_to_list (visitors b)).*2) as Fv.
  { apply Forall_forall. intros c Hc. apply (values_elem vname) in Hc; [|done]. by destruct (Hv _ _ Hc) as (_ & ?). }
  destruct (Hrb _ Ht) as (rps & rvs & Hu & Dp & Dv).
  unfold loadFromFile. rewrite Hu.
  rewrite (decode_proxies_spec _ _ _ _ Dp) by done. cbn.
  rewrite (decode_visitors_spec _ _ _ _ Dv) by done. cbn.
  rewrite !insert_values by done. by destruct b.
Qed.

Lemma spec_op_entries_ok op b b' : entries_ok b → spec_op op b = Ok b' → entries_ok b'.
Proof.
  intros [Hp Hv] Hs. destruct op; cbn in Hs; repeat case_match; simplify_eq; split; cbn; try done.
  - intros n x [[<- <-]|[_ Hx]]%lookup_insert_Some; [|by apply Hp].
    destruct (valid_proxy_named c) as [_ ?]; done.
  - apply orb_false_iff in H as [_ Hn]. apply negb_false_iff, String.eqb_eq in Hn as <-.
    intros n x [[<- <-]|[_ Hx]]%lookup_insert_Some; [|by apply Hp].
    destruct (valid_proxy_named c) as [_ ?]; done.
  - intros n x [_ Hx]%lookup_delete_Some. by apply Hp.
  - intros n x [[<- <-]|[_ Hx]]%lookup_insert_Some; [|by apply Hv].
    destruct (valid_visitor_named c) as [_ ?]; done.
  - apply orb_false_iff in H as [_ Hn]. apply negb_false_iff, String.eqb_eq in Hn as <-.
    intros n x [[<- <-]|[_ Hx]]%lookup_insert_Some; [|by apply Hv].
    destruct (valid_visitor_named c) as [_ ?]; done.
  - intros n x [_ Hx]%lookup_delete_Some. by apply Hv.
Qed.

Lemma decode_proxies_ok i rps m m' :
  (∀ n c, m !! n = Some c → pname c = n ∧ n ≠ "") →
  decode_proxies i rps m = Ok m' → ∀ n c, m' !! n = Some c → pname c = n ∧ n ≠ "".
Proof.
  revert i m. induction rps as [|r rps IH]; intros i m Hm; cbn; [by intros [= <-]|].
  destruct (DecodeProxy r) as [c|] eqn:Hd; [|done]. destruct (String.eqb_spec (pname c) "") as [|Hc]; [done|].
  apply IH. intros n x [[<- <-]|[_ Hx]]%lookup_insert_Some; [done|by apply Hm].
Qed.
Lemma decode_visitors_ok i rvs m m' :
  (∀ n c, m !! n = Some c → vname c = n ∧ n ≠ "") →
  decode_visitors i rvs m = Ok m' → ∀ n c, m' !! n = Some c → vname c = n ∧ n ≠ "".
Proof.
  revert i m. induction rvs as [|r rvs IH]; intros i m Hm; cbn; [by intros [= <-]|].
  destruct (DecodeVisitor r) as [c|] eqn:Hd; [|done]. destruct (String.eqb_spec (vname c) "") as [|Hc]; [done|].
  apply IH. intros n x [[<- <-]|[_ Hx]]%lookup_insert_Some; [done|by apply Hm].
Qed.

(** What a store has read. *)
Lemma NewStoreSource_spec p fs s :
  NewStoreSource p fs true = Ok s → s = mkStore (entries s) p fs ∧ p ≠ "" ∧ entries_ok (entries s).
Proof.
  unfold NewStoreSource. destruct (String.eqb_spec p "") as [|Hp]; [done|]. destruct (file fs) as [data|].
  - unfold loadFromFile. destruct (Unmarshal data) as [[rps rvs]|]; [|done].
    destruct (decode_proxies 0 rps ∅) as [pm|] eqn:Hdp; [|done].
    destruct (decode_visitors 0 rvs ∅) as [vm|] eqn:Hdv; [|done]. cbn. intros [= <-]. cbn.
    split_and!; [done..|]. split; cbn.
    + apply (decode_proxies_ok 0 rps ∅); [by intros *; rewrite lookup_empty|done].
    + apply (decode_visitors_ok 0 rvs ∅); [by intros *; rewrite lookup_empty|done].
  - intros [= <-]. cbn. split_and!; [done..|]. split; cbn; intros *; by rewrite lookup_empty.
Qed.

(** Calls of the management API, one after the other. *)
Inductive api_calls (svr : Service) : Service → Prop :=
| calls_none : api_calls svr svr
| calls_more svr1 e io op :
    api_calls svr svr1 → env_ok svr1 e → api_calls svr (run_api svr1 e io op).1.1.

(** The file holds what it held at the start, and so does the memory, or it holds
    the text of what the memory has. *)
Definition in_step (s0 s : StoreSource) : Prop :=
  entries_ok (entries s) ∧ path s = path s0 ∧
  (entries s = entries s0 ∧ file (files s) = file (files s0) ∨
   ∃ data, text_of (entries s) = Some data ∧ file (files s) = Some data).

Lemma api_call_in_step svr e io op s0 s :
  svc_ok svr → env_ok svr e → storeSource svr = Some s → in_step s0 s →
  svc_ok (run_api svr e io op).1.1 ∧ ∃ s', storeSource (run_api svr e io op).1.1 = Some s' ∧ in_step s0 s'.
Proof.
  intros Hok He Hs (Hen & Hpa & Hst). pose proof (run_api_post svr e s io op Hok He Hs) as Hpost.
  assert (∀ svr', unchanged svr svr' s → ∃ s', storeSource svr' = Some s' ∧ in_step s0 s') as Hun.
  { intros svr' (s' & -> & E1 & E2 & E3). exists s'. split; [done|]. unfold in_step. by rewrite E1, E2, E3. }
  destruct (run_api svr e io op) as [[svr' evs] err]. destruct Hpost as [Hok' Hpost]. cbn. split; [done|].
  destruct (spec_op op (entries s)) as [b'|er] eqn:Hsp.
  - destruct err as [[| | | | |[]]|]; try done; [destruct Hpost as (_ & ? & _); by apply Hun|].
    destruct Hpost as (_ & s' & data & Hs' & Hpa' & <- & Htext & Hfs). exists s'. split; [done|].
    split_and!; [by eapply spec_op_entries_ok|congruence|]. right. exists data. by rewrite Hfs.
  - destruct err as [er'|]; [|done]. destruct Hpost as (_ & _ & ?). by apply Hun.
Qed.

(** C23. What the management API stores survives a restart, as far as JSON keeps
    it. After any calls, whichever of them are refused and whichever writes of
    the file fail at whichever step, either nothing was stored since the start,
    and the entries and the file are those of the start, or the file holds the
    text of exactly the entries in memory. So a change that was answered with an
    error does not come back, and one that was answered without is not lost: if
    JSON reads these entries back from their text, starting again gives them, and
    if nothing was stored it does in any case. That JSON reads back what it wrote
    is asked of the entries at hand only; it is not so of every configuration. *)
Theorem store_survives_restart svr0 svr p fs s0 :
  NewStoreSource p fs true = Ok s0 → storeSource svr0 = Some s0 → svc_ok svr0 → api_calls svr0 svr →
  ∃ s, storeSource svr = Some s ∧ path s = p ∧
    (entries s = entries s0 ∧ file (files s) = file fs ∧ NewStoreSource p (files s) true = Ok s ∨
     ∃ data, text_of (entries s) = Some data ∧ file (files s) = Some data ∧
       (reads_back (entries s) → NewStoreSource p (files s) true = Ok s)).
Proof.
  intros Hn Hs0 Hok Hc. destruct (NewStoreSource_spec _ _ _ Hn) as (Heq & Hp & Hen).
  assert (svc_ok svr ∧ ∃ s, storeSource svr = Some s ∧ in_step s0 s) as [_ (s & Hs & Hen' & Hpa & Hst)].
  { induction Hc as [|svr1 e io op Hc (Hok1 & s & Hs & Hr) He]; [|by eapply api_call_in_step].
    split; [done|]. exists s0. split; [done|]. split_and!; [done..|by left]. }
  assert (path s = p) as Hps by (rewrite Hpa, Heq; done). exists s. split_and!; [done..|].
  destruct Hst as [[He Hf]|(data & Ht & Hf)].
  - left. rewrite Heq in Hf. cbn in Hf. split_and!; [done..|]. unfold NewStoreSource in *. rewrite Hf.
    rewrite (proj2 (String.eqb_neq _ _) Hp) in *.
    assert (s = mkStore (entries s0) p (files s)) as Hse by (rewrite <-He, <-Hps; by destruct s).
    destruct (file fs) as [data|]; [destruct (loadFromFile data) as [b|]; [|done]; cbn in *|];
      injection Hn as Hn; rewrite Hse; by rewrite <-Hn.
  - right. exists data. split_and!; [done..|]. intros Hrb. unfold NewStoreSource. rewrite (proj2 (String.eqb_neq _ _) Hp), Hf.
    rewrite (saved_reads_back _ _ Hen' Hrb Ht). cbn. f_equal. rewrite <-Hps. by destruct s.
Qed.


(** ** Reloading the configuration file *)

Lemma replace_proxies_keyed m l m' : keyed pname m → replace_proxies m l = Ok m' → keyed pname m'.
Proof.
  revert m. induction l as [|c l IH]; intros m Hk; cbn; [by intros [= <-]|].
  unfold validateProxyName. destruct (String.eqb (pname c) ""); [done|]. cbn. apply IH.
  intros n x [[<- <-]|[_ Hx]]%lookup_insert_Some; [done|by apply Hk].
Qed.
Lemma replace_visitors_keyed m l m' : keyed vname m → replace_visitors m l = Ok m' → keyed vname m'.
Proof.
  revert m. induction l as [|c l IH]; intros m Hk; cbn; [by intros [= <-]|].
  unfold validateVisitorName. destruct (String.eqb (vname c) ""); [done|]. cbn. apply IH.
  intros n x [[<- <-]|[_ Hx]]%lookup_insert_Some; [done|by apply Hk].
Qed.

Lemma ReplaceAll_wf ps vs b : ReplaceAll ps vs = Ok b → src_wf b.
Proof.
  unfold ReplaceAll. destruct (replace_proxies ∅ ps) as [pm|] eqn:Hp; [|done]. cbn.
  destruct (replace_visitors ∅ vs) as [vm|] eqn:Hv; [|done]. cbn. intros [= <-].
  split; [eapply replace_proxies_keyed|eapply replace_visitors_keyed]; try done; intros n x; by rewrite lookup_empty.
Qed.

(** Reloading the configuration file is all or nothing, although the code
    allows for less: on any error the service is as before and nothing is sent;
    otherwise the file's proxies and visitors are the configuration source, the
    names to start are the file's, the store is untouched, and what runs is
    exactly the merged, filtered and completed configuration. *)
Theorem reload_file_atomic svr e loaded common_ok :
  svc_ok svr → env_ok svr e →
  let '(svr', evs, r) := ReloadFromFile svr e loaded common_ok in
  match r with
  | Err _ => svr' = svr ∧ evs = []
  | Ok _ => svc_ok svr' ∧ applied svr' ∧ storeSource svr' = storeSource svr ∧ common_ok = true ∧
      ∃ ps vs, loaded = Some (reloadCommon svr', ps, vs) ∧
        ReplaceAll ((λ c, if to_start (reloadCommon svr') (pname c) && p_enabled c then Config.Complete c else c) <$> ps)
          ((λ c, if to_start (reloadCommon svr') (vname c) && v_enabled c then VisitorConfig.Complete c else c) <$> vs)
        = Ok (configSource svr')
  end.
Proof.
  intros Hok He. unfold ReloadFromFile. destruct loaded as [[[Start ps] vs]|]; [|done].
  destruct (FilterClientConfigurers Start ps vs) as [fps fvs]. unfold ValidateAllClientConfig.
  destruct common_ok; cbn [andb]; [|done].
  destruct (validate_proxies _); [done|]. destruct (validate_visitors _); [done|].
  unfold UpdateConfigSource. rewrite (so_live _ Hok). cbn [negb].
  destruct (ReplaceAll _ _) as [src|] eqn:Hrep; [|done].
  set (svr1 := mkService _ _ _ _ _ _ _ _).
  assert (svc_ok svr1) as Hok1 by (destruct Hok; split; try done; by eapply ReplaceAll_wf).
  destruct (reload_spec svr1 e Hok1 He) as (svr' & evs & -> & Hok' & Ha & Ec & Es & Er).
  rewrite Er, Es, Ec. split_and!; try done. by exists ps, vs.
Qed.
End Store.

(** *** Witnesses *)

Definition demo_proxy (name : string) (port : Z) (en : option bool) : PC :=
  Config.CTCP (Config.mkTCP (Config.mkProxyBase name "tcp" en ∅
    (Config.mkProxyTransport false false (ConfigTypes.mkBandwidthQuantity "" 0) "" "") ∅
    (Config.mkLoadBalancer "" "") (Config.mkHealthCheck "" 0 0 0 "" []) (Config.mkProxyBackend "" 22 Config.zero_plugin)) port).

(** The file has two proxies; the store disables one and overrides the other. *)
Definition demo_src : baseSource :=
  mkBase {["a" := demo_proxy "a" 6000 None; "b" := demo_proxy "b" 6001 None]} ∅.
Definition demo_store : StoreSource :=
  mkStore (mkBase {["a" := demo_proxy "a" 7000 (Some false); "b" := demo_proxy "b" 7001 None]} ∅) "store.json"
    (mkFiles None None).

Lemma demo_keyed2 (x y : PC) : pname x = "a" → pname y = "b" → keyed pname {["a" := x; "b" := y]}.
Proof.
  intros Hx Hy n c. rewrite lookup_insert_Some, lookup_singleton_Some.
  by intros [[<- <-]|(_ & <- & <-)].
Qed.

Lemma demo_src_wf : src_wf demo_src.
Proof. split; [by apply demo_keyed2|]. intros n c. cbn. by rewrite lookup_empty. Qed.
Lemma demo_store_wf : src_wf (entries demo_store).
Proof. split; [by apply demo_keyed2|]. intros n c. cbn. by rewrite lookup_empty. Qed.

Example sources_merged_witness :
  demo_proxy "a" 6000 None ∈ (agg_Load demo_src (Some demo_store)).1 ∧
  demo_proxy "b" 7001 None ∈ (agg_Load demo_src (Some demo_store)).1.
Proof.
  pose proof (sources_merged demo_src (Some demo_store) demo_src_wf demo_store_wf) as H.
  destruct (agg_Load demo_src (Some demo_store)) as [ps vs]. destruct H as (Hp & _). cbn [fst]. split; apply Hp.
  - right. split; [vm_compute; reflexivity|]. split; [reflexivity|]. intros d Hd.
    vm_compute in Hd. injection Hd as <-. reflexivity.
  - left. split; [vm_compute; reflexivity|reflexivity].
Defined.

(** A client that is not connected, with a store. *)
Definition demo_svc (store : StoreSource) : Service :=
  mkService true demo_src (Some store) [] [] [] None Visitors.NewManager.

Lemma demo_svc_ok user store : src_wf (entries store) → svc_ok user (demo_svc store).
Proof.
  intros Hw. split; [done|apply demo_src_wf|exact Hw|done|]. split; [|done]. apply Visitors.vinv_reachable. constructor.
Qed.

Definition demo_env : Env := mkEnv [] [] (λ _, true).
Lemma demo_env_ok store : env_ok (demo_svc store) demo_env.
Proof. done. Qed.

Definition demo_new : PC := demo_proxy "c" 7002 None.

(** JSON for the stores of the example: empty, and with the one new proxy. *)
Definition demo_marshal (ps : list PC) (vs : list VC) : option string :=
  match ps, vs with
  | [], [] => Some "{}"
  | [c], [] => if ClientProxies.ProxyConfigurer_eq_dec c demo_new then Some "one" else None
  | _, _ => None
  end.
Definition demo_unmarshal (s : string) : option (list PC * list PC) :=
  if String.eqb s "{}" then Some ([], []) else if String.eqb s "one" then Some ([demo_new], []) else None.
Definition demo_decode (c : PC) : option PC :=
  if ClientProxies.ProxyConfigurer_eq_dec c demo_new then Some c else None.

Definition demo_empty : StoreSource := mkStore newBaseSource "store.json" (mkFiles None None).

Lemma demo_empty_wf : src_wf (entries demo_empty).
Proof. split; intros n c; cbn; by rewrite lookup_empty. Qed.

Example store_api_refines_witness :
  let svr' := (run_api demo_marshal "" (λ _, []) (demo_svc demo_empty) demo_env None (OpCreateProxy demo_new)).1.1 in
  stored demo_marshal svr' demo_empty (mkBase {["c" := demo_new]} ∅).
Proof.
  pose proof (store_api_refines demo_marshal "" (λ _, []) (demo_svc demo_empty) demo_env demo_empty None
    (OpCreateProxy demo_new) (demo_svc_ok "" demo_empty demo_empty_wf) (demo_env_ok demo_empty) eq_refl) as H.
  destruct (run_api demo_marshal "" (λ _, []) (demo_svc demo_empty) demo_env None (OpCreateProxy demo_new))
    as [[svr' evs] err] eqn:Hrun.
  assert (err = None) as -> by (apply (f_equal snd) in Hrun; vm_compute in Hrun; congruence).
  destruct H as [_ H]. exact H.
Defined.

Example reload_file_atomic_witness :
  let svr' := (ReloadFromFile "" (λ _, []) (demo_svc demo_empty) demo_env (Some (["c"], [demo_new], [])) true).1.1 in
  applied svr' ∧ storeSource svr' = Some demo_empty.
Proof.
  pose proof (reload_file_atomic "" (λ _, []) (demo_svc demo_empty) demo_env (Some (["c"], [demo_new], [])) true
    (demo_svc_ok "" demo_empty demo_empty_wf) (demo_env_ok demo_empty)) as H.
  destruct (ReloadFromFile "" (λ _, []) (demo_svc demo_empty) demo_env (Some (["c"], [demo_new], [])) true)
    as [[svr' evs] r] eqn:Hrun.
  assert (r = Ok tt) as -> by (apply (f_equal snd) in Hrun; vm_compute in Hrun; congruence).
  destruct H as (_ & Ha & Hs & _). split; [exact Ha|exact Hs].
Defined.

Example store_survives_restart_witness :
  let svr' := (run_api demo_marshal "" (λ _, []) (demo_svc demo_empty) demo_env None (OpCreateProxy demo_new)).1.1 in
  ∃ s, storeSource svr' = Some s ∧ file (files s) = Some "one" ∧
    NewStoreSource demo_unmarshal demo_decode (λ _, None) (path s) (files s) true = Ok s.
Proof.
  intros svr'.
  destruct (store_survives_restart demo_marshal demo_unmarshal demo_decode (λ _, None) "" (λ _, []) (demo_svc demo_empty)
    svr' "store.json" (mkFiles None None) demo_empty) as (s & Hs & Hp & Hst).
  - reflexivity.
  - reflexivity.
  - exact (demo_svc_ok "" demo_empty demo_empty_wf).
  - apply calls_more; [apply calls_none|apply demo_env_ok].
  - assert (storeSource svr' = Some (mkStore (mkBase {["c" := demo_new]} ∅) "store.json" (mkFiles (Some "one") None))) as Hx
      by (vm_compute; reflexivity).
    rewrite Hs in Hx. injection Hx as ->. exists (mkStore (mkBase {["c" := demo_new]} ∅) "store.json" (mkFiles (Some "one") None)).
    split; [exact Hs|]. split; [reflexivity|]. destruct Hst as [(_ & Hf & _)|(data & Ht & Hf & Hr)]; [discriminate|].
    apply Hr. intros data' Hd. assert (data' = "one") as -> by (vm_compute in Hd; congruence).
    exists [demo_new], []. split; [reflexivity|]. split; [vm_compute; reflexivity|reflexivity].
Defined.
End ConfigSource.
