(* ===== verification/GoBase64.v ===== *)
(** Package encoding/base64, as far as the sources use it: [StdEncoding] with its
    [EncodeToString] and [DecodeString], and its round trip. *)
From Stdlib Require Import ZArith Lia Strings.Byte Ascii String.
From stdpp Require Import base strings list.
From S2P Require Import Prelude GoLib.

Local Open Scope Z_scope.
Local Open Scope frp_scope.

Module Base64.

Definition alphabet : string := "ABCDEFGHIJKLMNOPQRSTUVWXYZabcdefghijklmnopqrstuvwxyz0123456789+/".

(** The character of six bits, and back. *)
Definition enc6 (n : Z) : ascii := default "A"%char (String.get (Z.to_nat (n `mod` 64)) alphabet).

Fixpoint index_char (s : string) (c : ascii) (i : Z) : option Z :=
  match s with
  | EmptyString => None
  | String d s => if Ascii.eqb c d then Some i else index_char s c (i + 1)
  end.

Definition dec6 (c : ascii) : option Z := index_char alphabet c 0.

(** Three bytes are four characters; what is left at the end is padded. *)
Fixpoint encode (l : list byte) : string :=
  match l with
  | [] => ""
  | [a] =>
      let n := byte_val a * 16 in
      String (enc6 (n / 64)) (String (enc6 n) "==")
  | [a; b] =>
      let n := (byte_val a * 256 + byte_val b) * 4 in
      String (enc6 (n / 4096)) (String (enc6 (n / 64)) (String (enc6 n) "="))
  | a :: b :: c :: l =>
      let n := (byte_val a * 256 + byte_val b) * 256 + byte_val c in
      String (enc6 (n / 262144)) (String (enc6 (n / 4096)) (String (enc6 (n / 64)) (String (enc6 n) (encode l))))
  end.

Definition EncodeToString (s : string) : string := encode (String.list_byte_of_string s).

Definition pad : ascii := "=".

(** Four characters at a time; padding only at the very end. *)
Fixpoint decode (s : string) : option (list byte) :=
  match s with
  | EmptyString => Some []
  | String a (String b (String c (String d s))) =>
      x ← dec6 a; y ← dec6 b;
      if Ascii.eqb c pad then
        if Ascii.eqb d pad && String.eqb s "" then Some [byte_of ((x * 64 + y) / 16)] else None
      else
        z ← dec6 c;
        if Ascii.eqb d pad then
          if String.eqb s "" then
            let n := ((x * 64 + y) * 64 + z) / 4 in Some [byte_of (n / 256); byte_of n]
          else None
        else
          w ← dec6 d;
          let n := ((x * 64 + y) * 64 + z) * 64 + w in
          l ← decode s;
          Some (byte_of (n / 65536) :: byte_of (n / 256) :: byte_of n :: l)
  | _ => None
  end.

(** Line ends are skipped. *)
Fixpoint strip_newlines (s : string) : string :=
  match s with
  | EmptyString => EmptyString
  | String c s =>
      if (nat_of_ascii c =? 10)%nat || (nat_of_ascii c =? 13)%nat then strip_newlines s else String c (strip_newlines s)
  end.

Definition DecodeString (s : string) : option string :=
  String.string_of_list_byte <$> decode (strip_newlines s).

(** ** The round trip *)

(** The characters of encoded text. *)
Definition is_b64 (c : ascii) : bool := Ascii.eqb c pad || ContainsChar alphabet c.

Definition sextets : list Z := seqZ 0 64.

Lemma sextets_all (P : Z → bool) : forallb P sextets = true → ∀ n, P (n `mod` 64) = true.
Proof.
  intros H n. rewrite forallb_forall in H. apply H. apply list_elem_of_In, elem_of_seqZ.
  pose proof (Z.mod_pos_bound n 64). lia.
Qed.

Lemma dec6_enc6 n : dec6 (enc6 n) = Some (n `mod` 64).
Proof.
  apply (bool_decide_eq_true_1 _). unfold enc6.
  refine (sextets_all (λ m, bool_decide (dec6 (default "A"%char (String.get (Z.to_nat m) alphabet)) = Some m)) _ n).
  by vm_compute.
Qed.

Lemma enc6_b64 n : ContainsChar alphabet (enc6 n) = true ∧ Ascii.eqb (enc6 n) pad = false.
Proof.
  assert (ContainsChar alphabet (enc6 n) && negb (Ascii.eqb (enc6 n) pad) = true) as [? ?%negb_true_iff]%andb_true_iff; [|done].
  refine (sextets_all (λ m, let c := default "A"%char (String.get (Z.to_nat m) alphabet) in
    ContainsChar alphabet c && negb (Ascii.eqb c pad)) _ n). by vm_compute.
Qed.

(** Induction on a list by three. *)
Lemma list_ind3 (P : list byte → Prop) :
  P [] → (∀ a, P [a]) → (∀ a b, P [a; b]) → (∀ a b c l, P l → P (a :: b :: c :: l)) → ∀ l, P l.
Proof.
  intros H0 H1 H2 H3 l. remember (length l) as n eqn:Hn. revert l Hn.
  induction n as [n IH] using lt_wf_ind. intros [|a [|b [|c l]]] ->; [done..|]. apply H3, (IH (length l)); [cbn; lia|done].
Qed.

Lemma byte_of_eq z b k : z = k * 256 + byte_val b → byte_of z = b.
Proof.
  intros ->. rewrite <-(byte_of_val b) at 2. unfold byte_of. by rewrite Z.add_comm, Z.mod_add by lia.
Qed.

Lemma decode_encode l : decode (encode l) = Some l.
Proof.
  induction l as [|a|a b|a b c l IH] using list_ind3; [done|..]; cbn [encode decode];
    rewrite !dec6_enc6; cbn [mbind option_bind]; rewrite ?(proj2 (enc6_b64 _)).
  - pose proof (byte_val_range a). cbn. f_equal. f_equal. apply (byte_of_eq _ _ 0).
    rewrite !Z.mod_eq by lia. Z.div_mod_to_equations. lia.
  - pose proof (byte_val_range a). pose proof (byte_val_range b). cbn [Ascii.eqb String.eqb].
    rewrite ?dec6_enc6. cbn [mbind option_bind]. change (Ascii.eqb "=" pad) with true. cbn match.
    f_equal. f_equal; [apply (byte_of_eq _ _ 0)|f_equal; apply (byte_of_eq _ _ (byte_val a))];
      Z.div_mod_to_equations; lia.
  - pose proof (byte_val_range a). pose proof (byte_val_range b). pose proof (byte_val_range c).
    rewrite ?dec6_enc6. cbn [mbind option_bind]. rewrite IH. cbn [mbind option_bind].
    f_equal. f_equal; [apply (byte_of_eq _ _ 0)|f_equal; [apply (byte_of_eq _ _ (byte_val a))|f_equal; apply (byte_of_eq _ _ (byte_val a * 256 + byte_val b))]];
      Z.div_mod_to_equations; lia.
Qed.

Lemma encode_chars l : string_all is_b64 (encode l) = true.
Proof.
  assert (∀ n, is_b64 (enc6 n) = true) as He.
  { intros n. unfold is_b64. by rewrite (proj1 (enc6_b64 n)), orb_true_r. }
  induction l as [|a|a b|a b c l IH] using list_ind3; cbn [encode string_all]; rewrite ?He; done.
Qed.

(** No character of encoded text is [c]. *)
Lemma EncodeToString_without s c : is_b64 c = false → ContainsChar (EncodeToString s) c = false.
Proof. intros Hc. eapply string_all_contains; [apply encode_chars|done]. Qed.

Lemma strip_newlines_id s : string_all is_b64 s = true → strip_newlines s = s.
Proof.
  induction s as [|c s IH]; cbn [string_all strip_newlines]; [done|]. intros [Hc Hs]%andb_true_iff.
  destruct (((nat_of_ascii c =? 10) || (nat_of_ascii c =? 13))%nat) eqn:Hn; [|by rewrite IH].
  exfalso. apply orb_true_iff in Hn as [Hn|Hn]; apply Nat.eqb_eq in Hn;
    apply (f_equal ascii_of_nat) in Hn; rewrite ascii_nat_embedding in Hn; subst c; by vm_compute in Hc.
Qed.

Lemma DecodeString_EncodeToString s : DecodeString (EncodeToString s) = Some s.
Proof.
  unfold DecodeString, EncodeToString. rewrite strip_newlines_id by apply encode_chars.
  rewrite decode_encode. cbn. by rewrite String.string_of_list_byte_of_string.
Qed.

Lemma EncodeToString_inj s t : EncodeToString s = EncodeToString t → s = t.
Proof. intros H%(f_equal DecodeString). rewrite !DecodeString_EncodeToString in H. by simplify_eq. Qed.

End Base64.
