(* ===== verification/Minecraft.v ===== *)
(** Routing of Minecraft connections by the host of their first packet:
    pkg/util/vhost/minecraft.go, with [Muxer.handle] of pkg/util/vhost/vhost.go,
    which the HTTPS, TCP-mux and Minecraft muxers share.

    A connection is the stream of bytes still to come, as in [Wire]; a reader
    returns the rest of the stream with its result. Go's int has 64 bits; the
    decoded integers stay below [2^35], so no shift wraps around. *)
From Stdlib Require Import ZArith Lia Strings.Byte Ascii String.
From stdpp Require Import base gmap strings list fin_maps.
From S2P Require Import Prelude GoLib Wire Router Group.

Local Open Scope Z_scope.
Local Open Scope frp_scope.

Module Minecraft.
Import Group (MuxReq, mq_Username, mq_Password).

Notation routes := (gmap string (gmap string (list (@Vhost.Router MuxReq)))).

Definition maxMinecraftHandshakeSize : Z := 32 * 1024.

Inductive error :=
| ErrIO (e : Wire.error)
| ErrIncompleteVarInt
| ErrVarIntTooLong
| ErrIncompleteString
| ErrHandshakeLength
| ErrNotHandshake
| ErrEmptyAddress.

(** ** Variable-length integers *)

(** [value |= int(b & 0x7f) << (7 * i)]. *)
Definition add_bits (value : Z) (i : nat) (b : byte) : Z :=
  Z.lor value (Z.shiftl (Z.land (byte_val b) 127) (7 * Z.of_nat i)).

(** [b & 0x80 == 0]. *)
Definition is_last (b : byte) : bool := Z.land (byte_val b) 128 =? 0.

(** The loop of [readVarIntStream] with [n] rounds to go, of which the first is
    round [i]. *)
Fixpoint stream_rounds (n i : nat) (value : Z) (s : list byte) : list byte * res error Z :=
  match n with
  | O => (s, Err ErrVarIntTooLong)
  | S n =>
      match Wire.ReadFull s 1 with
      | (s, Err e) => (s, Err (ErrIO e))
      | (s, Ok buf) =>
          let b := default x00 (buf !! 0%nat) in
          let value := add_bits value i b in
          if is_last b then (s, Ok value) else stream_rounds n (S i) value s
      end
  end.

Definition readVarIntStream (s : list byte) : list byte * res error Z := stream_rounds 5 0 0 s.

(** The loop of [readVarIntBuf]: the value and the number of bytes. *)
Fixpoint buf_rounds (n i : nat) (value : Z) (buf : list byte) : res error (Z * nat) :=
  match n with
  | O => Err ErrVarIntTooLong
  | S n =>
      match buf !! i with
      | None => Err ErrIncompleteVarInt
      | Some b =>
          let value := add_bits value i b in
          if is_last b then Ok (value, S i) else buf_rounds n (S i) value buf
      end
  end.

Definition readVarIntBuf (buf : list byte) : res error (Z * nat) := buf_rounds 5 0 0 buf.

(** ** The handshake *)

Definition readMinecraftString (buf : list byte) : res error (string * nat) :=
  let? (length_, n) := readVarIntBuf buf in
  if (length_ <? 0) || (Z.of_nat (length (drop n buf)) <? length_) then Err ErrIncompleteString
  else Ok (String.string_of_list_byte (take (Z.to_nat length_) (drop n buf)), (n + Z.to_nat length_)%nat).

(** [strings.IndexByte(s, 0)]; [None] for -1. *)
Fixpoint IndexNul (s : string) : option nat :=
  match s with
  | EmptyString => None
  | String c s => if Ascii.eqb c Ascii.zero then Some 0%nat else S <$> IndexNul s
  end.

(** [host[:i]] up to the first NUL. *)
Definition before_nul (host : string) : string :=
  match IndexNul host with Some i => String.substring 0 i host | None => host end.

(** What follows the length: the payload of the packet. *)
Definition payload_host (payload : list byte) : res error string :=
  match readVarIntBuf payload with
  | Err _ => Err ErrNotHandshake
  | Ok (packetID, n) =>
      if negb (packetID =? 0) then Err ErrNotHandshake
      else
        let payload := drop n payload in
        let? (_, n) := readVarIntBuf payload in
        let payload := drop n payload in
        let? (host, _) := readMinecraftString payload in
        let host := before_nul host in
        if String.eqb host "" then Err ErrEmptyAddress else Ok host
  end.

Definition readHandshakeServerHost (s : list byte) : list byte * res error string :=
  match readVarIntStream s with
  | (s, Err e) => (s, Err e)
  | (s, Ok length) =>
      if (length <=? 0) || (maxMinecraftHandshakeSize <? length) then (s, Err ErrHandshakeLength)
      else
        match Wire.ReadFull s (Z.to_nat length) with
        | (s, Err e) => (s, Err (ErrIO e))
        | (s, Ok payload) => (s, payload_host payload)
        end
  end.

(** [GetMinecraftHostname]: the connection to go on with and the host. *)
Definition GetMinecraftHostname `{Wire.SharedConn} (s : list byte) : res error (list byte * string) :=
  let '(rest, r) := readHandshakeServerHost s in
  let? host := r in
  Ok (Wire.shared_view (take (length s - length rest) s) rest, host).

(** ** The muxer *)

(** The entries of [reqInfoMap] that [handle] and the authentication read; an
    absent entry is "". *)
Record ReqInfo := mkReqInfo { ri_Host : string; ri_Path : string; ri_HTTPUser : string; ri_HTTPPwd : string }.

Inductive handled (C : Type) :=
| Dropped                               (* the connection was closed *)
| Refused (conn : C)                    (* given to the fail hook *)
| Accepted (l : MuxReq) (conn : C).     (* sent to the listener *)
Arguments Dropped {C}.
Arguments Refused {C} _.
Arguments Accepted {C} _ _.

(** [Muxer.handle] for a connection [c] once its deadline is set. [hook] is the
    success hook and [auth] the check of the credentials, where the muxer has
    them: they may write to the connection, and [W] is what was written. [alive]
    tells whether the listener's channel still takes connections (sending on a
    closed one panics, which is caught and logged, and the connection is left to
    the garbage collector). *)
Definition handle {C E W : Type} (r : routes) (vhostFunc : C → res E (C * ReqInfo))
    (hook : option (W → ReqInfo → W * bool)) (auth : option (W → string → string → ReqInfo → W * bool))
    (deadline_ok alive : bool) (w : W) (c : C) : W * handled C :=
  match vhostFunc c with
  | Err _ => (w, Dropped)
  | Ok (sConn, info) =>
      let name := ToLower (ri_Host info) in
      let path := ToLower (ri_Path info) in
      match Vhost.getByRoute r name path (ri_HTTPUser info) with
      | None => (w, Refused sConn)
      | Some vr =>
          let l := Vhost.payload vr in
          let '(w, ok) := match hook with Some h => h w info | None => (w, true) end in
          if negb ok then (w, Dropped)
          else
            let '(w, ok) :=
              match auth with
              | Some f => if String.eqb (mq_Username l) "" then (w, true) else f w (mq_Username l) (mq_Password l) info
              | None => (w, true)
              end in
            if negb ok then (w, Dropped)
            else if negb deadline_ok then (w, Dropped)
            else (w, if alive then Accepted l sConn else Dropped)
      end
  end.

(** The muxer of [NewMinecraftMuxer]: no hook, no authentication. *)
Definition handle_minecraft `{Wire.SharedConn} (r : routes) (s : list byte) : handled (list byte) :=
  (handle r (λ s, let? (sc, host) := GetMinecraftHostname s in Ok (sc, mkReqInfo host "" "" ""))
    None None true true tt s).2.

(** ** Integers: the two readers and a writer *)

Lemma is_last_spec b : is_last b = (byte_val b <? 128).
Proof. by destruct b. Qed.

Lemma land_127 b : Z.land (byte_val b) 127 = byte_val b `mod` 128.
Proof. by destruct b. Qed.

Lemma add_bits_spec value i b :
  0 ≤ value < 2 ^ (7 * Z.of_nat i) →
  add_bits value i b = value + (byte_val b `mod` 128) * 2 ^ (7 * Z.of_nat i).
Proof.
  intros Hv. unfold add_bits. rewrite land_127, <-Z.shiftl_mul_pow2 by lia.
  pose proof (Z.add_lor_land value (Z.shiftl (byte_val b `mod` 128) (7 * Z.of_nat i))) as H.
  assert (Z.land value (Z.shiftl (byte_val b `mod` 128) (7 * Z.of_nat i)) = 0) as H0; [|lia].
  apply Z.bits_inj'. intros n Hn. rewrite Z.land_spec, Z.bits_0.
  destruct (Z.lt_ge_cases n (7 * Z.of_nat i)) as [Hlt|Hge].
  - rewrite (Z.shiftl_spec_low _ _ _ Hlt). apply andb_false_r.
  - destruct (Z.eq_dec value 0) as [->|Hne]; [by rewrite Z.bits_0|].
    rewrite Z.bits_above_log2; [done|lia|].
    assert (Z.log2 value < 7 * Z.of_nat i); [|lia]. apply Z.log2_lt_pow2; lia.
Qed.

Lemma pow_round i : 2 ^ (7 * Z.of_nat (S i)) = 128 * 2 ^ (7 * Z.of_nat i).
Proof. replace (7 * Z.of_nat (S i)) with (7 + 7 * Z.of_nat i) by lia. by rewrite Z.pow_add_r by lia. Qed.

Lemma add_bits_range value i b :
  0 ≤ value < 2 ^ (7 * Z.of_nat i) → 0 ≤ add_bits value i b < 2 ^ (7 * Z.of_nat (S i)).
Proof.
  intros Hv. rewrite add_bits_spec, pow_round by done.
  pose proof (Z.mod_pos_bound (byte_val b) 128). nia.
Qed.

Lemma ReadFull_one s :
  Wire.ReadFull s 1 = match s with [] => ([], Err Wire.ErrEOF) | b :: s => (s, Ok [b]) end.
Proof. by destruct s. Qed.

(** The rounds of the two readers, side by side. *)
Lemma rounds_agree n i value buf :
  match buf_rounds n i value buf with
  | Ok (v, k) => stream_rounds n i value (drop i buf) = (drop k buf, Ok v) ∧
      (i < k ≤ i + n)%nat ∧ (k ≤ length buf)%nat ∧
      (0 ≤ value < 2 ^ (7 * Z.of_nat i) → 0 ≤ v < 2 ^ (7 * Z.of_nat k))
  | Err ErrVarIntTooLong => stream_rounds n i value (drop i buf) = (drop (i + n) buf, Err ErrVarIntTooLong)
  | Err ErrIncompleteVarInt => stream_rounds n i value (drop i buf) = ([], Err (ErrIO Wire.ErrEOF)) ∧
      (length buf < i + n)%nat
  | Err _ => False
  end.
Proof.
  revert i value. induction n as [|n IH]; intros i value; cbn [buf_rounds stream_rounds].
  { by rewrite Nat.add_0_r. }
  rewrite ReadFull_one. destruct (buf !! i) as [b|] eqn:Hb.
  - rewrite (drop_S _ _ _ Hb). cbn. pose proof (lookup_lt_Some _ _ _ Hb).
    destruct (is_last b); [split_and!; [done|lia..|]; by intros; apply add_bits_range|].
    specialize (IH (S i) (add_bits value i b)).
    destruct (buf_rounds n (S i) _ buf) as [[v k]|[]]; try done; rewrite ?Nat.add_succ_r in *.
    + destruct IH as (? & ? & ? & Hr). split_and!; [done|lia..|]. intros. by apply Hr, add_bits_range.
    + destruct IH. split; [done|lia].
    + done.
  - apply lookup_ge_None in Hb. rewrite drop_ge by done. split; [done|lia].
Qed.

(** How the protocol writes an integer: seven bits a byte, the lowest first. *)
Fixpoint put_rounds (n : nat) (z : Z) : list byte :=
  match n with
  | O => []
  | S n => if z <? 128 then [byte_of z] else byte_of (z `mod` 128 + 128) :: put_rounds n (z / 128)
  end.
Definition putVarInt (z : Z) : list byte := put_rounds 5 z.

Lemma put_rounds_S n z :
  put_rounds (S n) z =
  if z <? 128 then [byte_of z] else byte_of (z `mod` 128 + 128) :: put_rounds n (z / 128).
Proof. done. Qed.

Lemma stream_rounds_cons n i value b s :
  stream_rounds (S n) i value (b :: s) =
  if is_last b then (s, Ok (add_bits value i b)) else stream_rounds n (S i) (add_bits value i b) s.
Proof. done. Qed.

Lemma put_rounds_read n i value z rest :
  0 ≤ value < 2 ^ (7 * Z.of_nat i) → 0 ≤ z < 2 ^ (7 * Z.of_nat (S n)) →
  stream_rounds (S n) i value (put_rounds (S n) z ++ rest) = (rest, Ok (value + z * 2 ^ (7 * Z.of_nat i))).
Proof.
  revert i value z. induction n as [|n IH]; intros i value z Hv Hz; rewrite put_rounds_S.
  - change (2 ^ (7 * Z.of_nat 1)) with 128 in Hz. rewrite (proj2 (Z.ltb_lt _ _)) by lia.
    cbn [app]. rewrite stream_rounds_cons, is_last_spec, add_bits_spec, byte_val_of by done.
    by rewrite !(Z.mod_small z), (proj2 (Z.ltb_lt _ _)) by lia.
  - destruct (Z.ltb_spec z 128) as [Hs|Hs]; cbn [app];
      rewrite stream_rounds_cons, is_last_spec, byte_val_of.
    { rewrite add_bits_spec, byte_val_of by done. by rewrite !(Z.mod_small z), (proj2 (Z.ltb_lt _ _)) by lia. }
    pose proof (Z.mod_pos_bound z 128).
    rewrite (Z.mod_small (_ + 128)), (proj2 (Z.ltb_ge _ _)) by lia. rewrite IH; [|by apply add_bits_range|].
    2:{ rewrite (pow_round (S n)) in Hz. split; [apply Z.div_pos; lia|]. apply Z.div_lt_upper_bound; lia. }
    rewrite add_bits_spec, byte_val_of, (Z.mod_small (_ + 128)), pow_round by (done || lia).
    rewrite <-Z.add_mod_idemp_r, Z.mod_same, Z.add_0_r, Z.mod_mod by lia.
    do 2 f_equal. pose proof (Z.div_mod z 128). nia.
Qed.

Lemma stream_put z rest : 0 ≤ z < 2 ^ 35 → readVarIntStream (putVarInt z ++ rest) = (rest, Ok z).
Proof.
  intros Hz. unfold readVarIntStream, putVarInt. rewrite put_rounds_read by done.
  by rewrite Z.mul_1_r, Z.add_0_l.
Qed.

Lemma buf_put z rest :
  0 ≤ z < 2 ^ 35 → readVarIntBuf (putVarInt z ++ rest) = Ok (z, length (putVarInt z)).
Proof.
  intros Hz. pose proof (stream_put z rest Hz) as Hs. unfold readVarIntBuf.
  pose proof (rounds_agree 5 0 0 (putVarInt z ++ rest)) as Ha. rewrite drop_0 in Ha.
  fold (readVarIntStream (putVarInt z ++ rest)) in Ha. rewrite Hs in Ha.
  destruct (buf_rounds 5 0 0 _) as [[v k]|[]]; [|naive_solver..].
  destruct Ha as ([= Hd ->] & _ & Hk & _). do 2 f_equal.
  apply (f_equal length) in Hd. rewrite length_drop, length_app in *. lia.
Qed.

(** ** Addresses *)

Lemma before_nul_app host suffix :
  IndexNul host = None → before_nul (host +:+ String Ascii.zero suffix) = host.
Proof.
  unfold before_nul. intros Hn.
  assert (IndexNul (host +:+ String Ascii.zero suffix) = Some (String.length host)) as ->.
  { revert Hn. induction host as [|c host IH]; [done|].
    change (String c host +:+ ?t) with (String c (host +:+ t)). cbn [IndexNul String.length]. destruct (Ascii.eqb c Ascii.zero); [done|].
    destruct (IndexNul host); [done|]. intros _. by rewrite IH. }
  clear Hn. induction host as [|c host IH]; [by destruct suffix|].
  change (String c host +:+ ?t) with (String c (host +:+ t)). cbn [String.length String.substring]. by rewrite IH.
Qed.

Lemma before_nul_spec s :
  IndexNul (before_nul s) = None ∧ (String.length (before_nul s) ≤ String.length s)%nat.
Proof.
  induction s as [|c s [IH1 IH2]]; [done|]. unfold before_nul in *. cbn.
  destruct (Ascii.eqb c Ascii.zero) eqn:Hc; [cbn; split; [done|lia]|].
  destruct (IndexNul s) as [i|] eqn:Hi; cbn; rewrite Hc.
  - by rewrite IH1; split; [|lia].
  - by rewrite Hi.
Qed.

Lemma length_string_of_bytes l : String.length (String.string_of_list_byte l) = length l.
Proof. induction l as [|b l IH]; [done|]. exact (f_equal S IH). Qed.

(** What a client sends first: the packet id, the version of the protocol, the
    address it was given, and [tail], its port and the next state. *)
Definition handshake_payload (version : Z) (addr : string) (tail : list byte) : list byte :=
  putVarInt 0 ++ putVarInt version ++
  putVarInt (Z.of_nat (String.length addr)) ++ String.list_byte_of_string addr ++ tail.
Definition handshake_packet (version : Z) (addr : string) (tail : list byte) : list byte :=
  let payload := handshake_payload version addr tail in
  putVarInt (Z.of_nat (length payload)) ++ payload.

Lemma length_bytes_of_string s : length (String.list_byte_of_string s) = String.length s.
Proof.
  rewrite <-(String.string_of_list_byte_of_string s) at 2. by rewrite length_string_of_bytes.
Qed.

Lemma payload_host_read version addr tail :
  0 ≤ version < 2 ^ 35 → Z.of_nat (String.length addr) < 2 ^ 35 → before_nul addr ≠ "" →
  payload_host (handshake_payload version addr tail) = Ok (before_nul addr).
Proof.
  intros Hv Hl Hn. unfold payload_host, handshake_payload. rewrite buf_put by done.
  cbn [Z.eqb negb]. rewrite drop_app_length, buf_put, drop_app_length by done.
  unfold readMinecraftString. rewrite buf_put by lia. rewrite drop_app_length, length_app, length_bytes_of_string.
  rewrite (proj2 (Z.ltb_ge _ 0)), (proj2 (Z.ltb_ge _ _)) by lia. cbn [orb].
  rewrite Nat2Z.id, take_app_length' by (by rewrite length_bytes_of_string).
  rewrite String.string_of_list_byte_of_string. by rewrite (proj2 (String.eqb_neq _ _) Hn).
Qed.

Lemma ReadFull_consumes s n : ∃ p, s = p ++ (Wire.ReadFull s n).1 ∧ (length p ≤ n)%nat.
Proof.
  unfold Wire.ReadFull. case_decide as Hn; cbn.
  - exists (take n s). by rewrite take_drop, length_take; split; [|lia].
  - exists s. by rewrite app_nil_r; split; [|lia].
Qed.

Lemma stream_consumes s : ∃ p, s = p ++ (readVarIntStream s).1 ∧ (length p ≤ 5)%nat.
Proof.
  pose proof (rounds_agree 5 0 0 s) as Ha. unfold readVarIntStream. rewrite drop_0 in Ha.
  destruct (buf_rounds 5 0 0 s) as [[v k]|[]]; try done.
  - destruct Ha as (-> & ? & ? & _). exists (take k s). rewrite length_take. cbn. rewrite take_drop. split; [done|lia].
  - destruct Ha as [-> ?]. exists s. cbn. rewrite app_nil_r. split; [done|lia].
  - rewrite Ha. exists (take 5 s). rewrite length_take. cbn [fst]. rewrite take_drop. split; [done|lia].
Qed.

Lemma readMinecraftString_length buf host n :
  readMinecraftString buf = Ok (host, n) → (String.length host ≤ length buf)%nat.
Proof.
  unfold readMinecraftString. destruct (readVarIntBuf buf) as [[l k]|]; [|done].
  destruct (_ || _); [done|]. intros [= <- _]. rewrite length_string_of_bytes, length_take, length_drop. lia.
Qed.

Lemma payload_host_Ok payload host :
  payload_host payload = Ok host →
  host ≠ "" ∧ IndexNul host = None ∧ (String.length host ≤ length payload)%nat.
Proof.
  unfold payload_host. destruct (readVarIntBuf payload) as [[id n]|]; [|done]. destruct (negb _); [done|].
  destruct (readVarIntBuf (drop n payload)) as [[v k]|]; [|done].
  destruct (readMinecraftString _) as [[h m]|] eqn:Hs; [|done].
  destruct (String.eqb_spec (before_nul h) "") as [|Hne]; [done|]. intros [= <-].
  apply readMinecraftString_length in Hs. rewrite !length_drop in Hs.
  destruct (before_nul_spec h). split_and!; [done..|lia].
Qed.

(** ** Properties *)

(** The reader of integers from a connection and the reader from a buffer
    agree on every input: the same value, below [2^35] and from at most five
    bytes, of which the first reader takes exactly those the second one counts;
    too long for both; or the input ends, within five bytes, inside it. *)
Theorem varint_readers_agree (buf : list byte) :
  match readVarIntBuf buf with
  | Ok (v, k) => readVarIntStream buf = (drop k buf, Ok v) ∧ (1 ≤ k ≤ 5)%nat ∧
      (k ≤ length buf)%nat ∧ 0 ≤ v < 2 ^ 35
  | Err ErrVarIntTooLong => readVarIntStream buf = (drop 5 buf, Err ErrVarIntTooLong)
  | Err ErrIncompleteVarInt => readVarIntStream buf = ([], Err (ErrIO Wire.ErrEOF)) ∧ (length buf < 5)%nat
  | Err _ => False
  end.
Proof.
  pose proof (rounds_agree 5 0 0 buf) as Ha. unfold readVarIntBuf, readVarIntStream.
  rewrite drop_0 in Ha. destruct (buf_rounds 5 0 0 buf) as [[v k]|[]]; try done.
  destruct Ha as (Hs & Hk & Hlen & Hr). split_and!; [done|lia..| |]; [by apply Hr|].
  eapply Z.lt_le_trans; [by apply Hr|]. apply Z.pow_le_mono_r; lia.
Qed.

(** Looking for the host takes a bounded prefix of a connection, whatever a
    client sends: at most a length of five bytes and 32 KiB; the host found is
    not empty, has no NUL and fits these. *)
Theorem handshake_bounded (s : list byte) :
  let '(rest, r) := readHandshakeServerHost s in
  (∃ p, s = p ++ rest ∧ (length p ≤ 5 + Z.to_nat maxMinecraftHandshakeSize)%nat) ∧
  ∀ host, r = Ok host →
    host ≠ "" ∧ IndexNul host = None ∧ Z.of_nat (String.length host) ≤ maxMinecraftHandshakeSize.
Proof.
  unfold readHandshakeServerHost. destruct (stream_consumes s) as (p & Hs & Hp).
  destruct (readVarIntStream s) as [s1 [n|e]]; cbn [fst] in Hs;
    [|split; [exists p; split; [done|lia]|done]].
  destruct (_ || _) eqn:Hn; [split; [exists p; split; [done|lia]|done]|].
  apply orb_false_iff in Hn as [Hn1%Z.leb_gt Hn2%Z.ltb_ge].
  destruct (ReadFull_consumes s1 (Z.to_nat n)) as (q & Hs1 & Hq).
  destruct (Wire.ReadFull s1 (Z.to_nat n)) as [s2 [payload|e]] eqn:Hr; cbn [fst] in Hs1;
    (split; [exists (p ++ q); rewrite length_app, <-app_assoc; split; [congruence|lia]|]); [|done].
  apply Wire.ReadFull_Ok in Hr as [_ Hlen]. intros host Hh.
  apply payload_host_Ok in Hh as (? & ? & ?). split_and!; [done..|lia].
Qed.

(** A player's connection reaches the listener of the name typed into the
    game, whatever is appended to the name after a NUL, and the backend behind
    it receives every byte of the connection, the handshake included; if no
    route covers the name, the connection is refused. *)
Theorem minecraft_routed `{Wire.SharedConn, !Wire.SharedConnLaws} (r : routes) (version : Z)
    (host suffix : string) (tail rest : list byte) :
  let addr := host +:+ suffix in
  0 ≤ version < 2 ^ 35 →
  Z.of_nat (length (handshake_payload version addr tail)) ≤ maxMinecraftHandshakeSize →
  host ≠ "" → IndexNul host = None → (suffix = "" ∨ ∃ x, suffix = String Ascii.zero x) →
  let s := handshake_packet version addr tail ++ rest in
  handle_minecraft r s =
  match Vhost.getByRoute r host "" "" with
  | Some vr => Accepted (Vhost.payload vr) s
  | None => Refused s
  end.
Proof.
  intros addr Hv Hlen Hne Hnul Hsuf. cbv zeta.
  assert (before_nul addr = host) as Hh.
  { subst addr. destruct Hsuf as [->|[x ->]]; [|by apply before_nul_app].
    rewrite string_app_nil_r. unfold before_nul. by rewrite Hnul. }
  assert (Z.of_nat (String.length addr) ≤ maxMinecraftHandshakeSize) as Hal.
  { unfold handshake_payload in Hlen. rewrite !length_app, length_bytes_of_string in Hlen. lia. }
  assert (0 < length (handshake_payload version addr tail))%nat as Hpos.
  { unfold handshake_payload. rewrite length_app. cbn. lia. }
  unfold maxMinecraftHandshakeSize in *.
  unfold handle_minecraft, handle, GetMinecraftHostname, readHandshakeServerHost, handshake_packet.
  cbv zeta. rewrite <-!app_assoc, stream_put by lia.
  rewrite (proj2 (Z.leb_gt _ 0)), (proj2 (Z.ltb_ge _ _)) by (unfold maxMinecraftHandshakeSize; lia). cbn [orb].
  rewrite Nat2Z.id, Wire.ReadFull_app, payload_host_read by (done || lia || congruence).
  rewrite Wire.shared_view_replays, Hh. cbn [ri_Host ri_Path ri_HTTPUser].
  rewrite app_assoc, length_app, Nat.add_sub, take_app_length.
  unfold Vhost.getByRoute. rewrite ToLower_idem.
  by destruct (Vhost.getExactOrAllUsersLocked _ _ _ _); [|destruct (Vhost.wildcard_walk _ _ _ _);
    [|destruct (Vhost.getExactOrAllUsersLocked _ _ _ _)]].
Qed.

(** ** Witnesses *)

(** "play.example.com" with the data Forge appends, on a table that has a route
    for its domain. *)
Definition demo_routes : routes :=
  match Vhost.Add Vhost.NewRouters "*.Example.com" "" "" (Group.mkMuxReq "*.Example.com" "" "" "" "") with
  | Ok r => r
  | Err _ => ∅
  end.
Definition demo_suffix : string := String Ascii.zero "FML".

Lemma minecraft_routed_witness :
  let shared : Wire.SharedConn := λ consumed rest, consumed ++ rest in
  let s := handshake_packet 763 ("play.example.com" +:+ demo_suffix) [x63; xdd; x02] ++ [x01; x00] in
  @handle_minecraft shared demo_routes s = Accepted (Group.mkMuxReq "*.Example.com" "" "" "" "") s.
Proof.
  intros shared s. unfold s.
  rewrite (@minecraft_routed shared (λ _ _, eq_refl) demo_routes 763 "play.example.com" demo_suffix
    [x63; xdd; x02] [x01; x00]).
  - reflexivity.
  - done.
  - vm_compute. congruence.
  - done.
  - done.
  - right. by exists "FML".
Defined.
End Minecraft.
