(* ===== verification/HTTPServe.v ===== *)
(** Serving HTTP requests by virtual host: [HTTPReverseProxy] of
    pkg/util/vhost/http.go with the helpers of pkg/util/http/http.go, and the
    muxer of CONNECT requests, pkg/util/tcpmux/httpconnect.go.

    The reverse proxy hands a request to Go's [http.Transport], which keeps the
    connections that are free under a key made of the address in the URL of the
    request: the transport is modelled by its pool. In front of the reverse proxy
    is an h2c handler, on which a request can turn its connection into one of
    HTTP/2: the streams of that connection go to the reverse proxy directly, with
    the context of the request that opened it. A function value of a
    [RouteConfig] is a number. Rewriting headers and the forms of the responses
    are left out. *)
From Stdlib Require Import ZArith Lia Strings.Byte Ascii String.
From stdpp Require Import base gmap strings list sorting fin_maps relations.
From S2P Require Import Prelude GoLib GoBase64 Wire Router Group Minecraft.

Local Open Scope frp_scope.

Module HTTP.

(** ** Hosts and credentials: pkg/util/http/http.go *)

Fixpoint CountChar (s : string) (c : ascii) : nat :=
  match s with
  | EmptyString => 0
  | String d s => (if Ascii.eqb c d then 1 else 0) + CountChar s c
  end.

Definition hasPort (host : string) : bool :=
  match CountChar host ":" with
  | O => false
  | S O => true
  | _ => HasPrefix host "[" && StringContains host "]:"
  end.

(** The canonical host, "" on an error. *)
Definition CanonicalHost (host : string) : string * option addr_error :=
  let host := ToLower host in
  if hasPort host then
    match SplitHostPort host with
    | Err e => ("", Some e)
    | Ok (host, _) => (default host (CutSuffix host "."), None)
    end
  else (default host (CutSuffix host "."), None).

Definition ParseBasicAuth (auth : string) : option (string * string) :=
  let prefix := "Basic " in
  if (String.length auth <? String.length prefix)%nat ||
     negb (EqualFold (String.substring 0 (String.length prefix) auth) prefix) then None
  else
    cs ← Base64.DecodeString (String.substring 6 (String.length auth - 6) auth);
    Cut cs ":".

Definition BasicAuth (username passwd : string) : string :=
  "Basic " +:+ Base64.EncodeToString (username +:+ ":" +:+ passwd).

(** ** Requests and routes *)

(** [Header.Get] of an absent header is "". *)
Record Request := mkRequest {
  rq_Method : string; rq_Host : string; rq_URLHost : string; rq_URLPath : string; rq_RemoteAddr : string;
  rq_Authorization : string; rq_ProxyAuthorization : string }.

Record RouteConfig := mkRouteConfig {
  Domain : string; Location : string; RewriteHost : string; Username : string; Password : string;
  RouteByHTTPUser : string; CreateConnFn : option nat; ChooseEndpointFn : option nat;
  CreateConnByEndpointFn : option nat; AllowFn : option nat }.

Notation routes := (gmap string (gmap string (list (@Vhost.Router RouteConfig)))).

Record RequestRouteInfo := mkInfo {
  i_URL : string; i_Host : string; i_HTTPUser : string; i_RemoteAddr : string; i_URLHost : string; i_Endpoint : string }.

Definition Register (r : routes) (rc : RouteConfig) : res Vhost.route_error routes :=
  Vhost.Add r (Domain rc) (Location rc) (RouteByHTTPUser rc) rc.

Definition UnRegister (r : routes) (rc : RouteConfig) : routes :=
  Vhost.Del r (Domain rc) (Location rc) (RouteByHTTPUser rc).

Definition GetRouteConfig (r : routes) (domain location user : string) : option RouteConfig :=
  Vhost.payload <$> Vhost.getByRoute r domain location user.

(** [req.BasicAuth()] *)
Definition req_BasicAuth (req : Request) : option (string * string) :=
  if String.eqb (rq_Authorization req) "" then None else ParseBasicAuth (rq_Authorization req).

Definition getRequestRouteUser (req : Request) : string :=
  let user (c : option (string * string)) := match c with Some (u, _) => u | None => "" end in
  if negb (String.eqb (rq_URLHost req) "") then
    if String.eqb (rq_ProxyAuthorization req) "" then user (req_BasicAuth req)
    else user (ParseBasicAuth (rq_ProxyAuthorization req))
  else user (req_BasicAuth req).

(** The context: the route info and the route, looked up once. *)
Definition injectRequestInfoToCtx (r : routes) (req : Request) : RequestRouteInfo * option RouteConfig :=
  let info := mkInfo (rq_URLPath req) (rq_Host req) (getRequestRouteUser req) (rq_RemoteAddr req) (rq_URLHost req) "" in
  (info, GetRouteConfig r (CanonicalHost (i_Host info)).1 (i_URL info) (i_HTTPUser info)).

Definition checkRouteAuthByRequest (req : Request) (rc : option RouteConfig) : bool :=
  match rc with
  | None => true
  | Some rc =>
      let matches (c : option (string * string)) :=
        match c with Some (user, passwd) => String.eqb user (Username rc) && String.eqb passwd (Password rc) | None => false end in
      if String.eqb (Username rc) "" && String.eqb (Password rc) "" then true
      else if negb (String.eqb (rq_URLHost req) "") then
        if String.eqb (rq_ProxyAuthorization req) "" then false else matches (ParseBasicAuth (rq_ProxyAuthorization req))
      else matches (req_BasicAuth req)
  end.

(** ** Connections *)

(** A connection remembers who created it: the function, and the endpoint where
    it was called with one. *)
Record Conn := mkConn { cn_id : nat; cn_fn : nat; cn_endpoint : option string }.

(** [CreateConnection]: the function that is called, with its endpoint. *)
Definition CreateConnection (r : routes) (info : RequestRouteInfo) (byEndpoint : bool) : option (nat * option string) :=
  rc ← GetRouteConfig r (CanonicalHost (i_Host info)).1 (i_URL info) (i_HTTPUser info);
  match (if byEndpoint then CreateConnByEndpointFn rc else None) with
  | Some fn => Some (fn, Some (i_Endpoint info))
  | None => fn ← CreateConnFn rc; Some (fn, None)
  end.

(** The host of the URL for the transport, [Rewrite]: [chosen] is the answer of
    [ChooseEndpointFn]. *)
Definition route_key (rc : RouteConfig) (endpoint : string) : string :=
  Domain rc +:+ "." +:+ Base64.EncodeToString (Location rc) +:+ "." +:+
  Base64.EncodeToString (RouteByHTTPUser rc) +:+ "." +:+ Base64.EncodeToString endpoint.

Definition endpoint_of (rc : RouteConfig) (chosen : string) : string :=
  match ChooseEndpointFn rc with Some _ => chosen | None => "" end.

(** The outgoing request: its host, and the host of its URL. *)
Definition Rewrite (req : Request) (info : RequestRouteInfo) (rc : option RouteConfig) (chosen : string) :
    RequestRouteInfo * string * string :=
  match rc with
  | Some rc =>
      let endpoint := endpoint_of rc chosen in
      (mkInfo (i_URL info) (i_Host info) (i_HTTPUser info) (i_RemoteAddr info) (i_URLHost info) endpoint,
       if String.eqb (RewriteHost rc) "" then rq_Host req else RewriteHost rc, route_key rc endpoint)
  | None => (info, rq_Host req, rq_Host req)
  end.

Inductive outcome :=
| Forbidden                                                        (* 403 *)
| ProxyAuthRequired                                                (* 407 *)
| Unauthorized                                                     (* 401 *)
| Connect (info : RequestRouteInfo)                                (* to [connectHandler] *)
| Forward (info : RequestRouteInfo) (rc : option RouteConfig).     (* to the h2c handler and the reverse proxy *)

(** [ServeHTTP]; [allow] are the answers of the [AllowFn]s at this moment. *)
Definition ServeHTTP (r : routes) (allow : nat → string → bool) (req : Request) : outcome :=
  let '(info, rc) := injectRequestInfoToCtx r req in
  if match rc ≫= AllowFn with Some fn => negb (allow fn (rq_RemoteAddr req)) | None => false end then Forbidden
  else if negb (checkRouteAuthByRequest req rc) then
    if negb (String.eqb (rq_URLHost req) "") then ProxyAuthRequired else Unauthorized
  else if String.eqb (rq_Method req) "CONNECT" then Connect info else Forward info rc.

(** ** The transport *)

(** [URL.Hostname] and [URL.Port]. *)
Fixpoint last_cut (s : string) (c : ascii) : option (string * string) :=
  match s with
  | EmptyString => None
  | String d s =>
      match last_cut s c with
      | Some (a, b) => Some (String d a, b)
      | None => if Ascii.eqb c d then Some (EmptyString, s) else None
      end
  end.

Definition url_splitHostPort (hostPort : string) : string * string :=
  let '(host, port) :=
    match last_cut hostPort ":" with
    | Some (h, p) => if string_all is_digit p then (h, p) else (hostPort, "")
    | None => (hostPort, "")
    end in
  (if HasPrefix host "[" && HasSuffix host "]" then String.substring 1 (String.length host - 2) host else host, port).

Definition is_ascii (c : ascii) : bool := (nat_of_ascii c <? 128)%nat.

(** The connections of plain requests are kept by address, and those of requests
    with a host in their first line by the text of their URL. *)
Inductive pool_key := Direct (addr : string) | Proxied (url : string).

(** The request that went through [ServeHTTP], the answers of the [AllowFn]s when
    it did, and the context it got. *)
Record Ctx := mkCtx { cx_first : Request; cx_allow : nat → string → bool; cx_info : RequestRouteInfo; cx_rc : option RouteConfig }.

(** A request that was passed to the transport, with its context; [fl_stream]:
    it is a stream of an HTTP/2 connection, and its context that of the request
    which opened the connection. *)
Record Flight := mkFlight {
  fl_req : Request; fl_ctx : Ctx; fl_info : RequestRouteInfo; fl_stream : bool; fl_key : pool_key }.

(** [idle] are the free connections and [busy] those in use; [passed] and
    [tunnels] record which connection a request was written to; [h2conns] are
    the HTTP/2 connections. *)
Record State := mkState {
  flights : list Flight; idle : list (pool_key * Conn); busy : list (pool_key * Conn); nextConn : nat;
  passed : list (Flight * Conn); tunnels : list (Request * (nat → string → bool) * Conn); h2conns : list Ctx }.

Definition start : State := mkState [] [] [] 0 [] [] [].

Section Transport.
(** The conversion of international names (golang.org/x/net/idna), and the text
    of the URL of a request with a host. *)
Variable ToASCII : string → option string.
Variable url_text : string → Request → string.

Definition idnaASCII (v : string) : string := if string_all is_ascii v then v else default v (ToASCII v).

Definition canonicalAddr (urlHost : string) : string :=
  let '(host, port) := url_splitHostPort urlHost in
  JoinHostPort (idnaASCII host) (if String.eqb port "" then "80" else port).

(** The [Proxy] function of the transport decides by the context. *)
Definition key_of (info : RequestRouteInfo) (req : Request) (urlHost : string) : pool_key :=
  if String.eqb (i_URLHost info) "" then Direct (canonicalAddr urlHost) else Proxied (url_text urlHost req).

(** The reverse proxy passes a request on, in a context. *)
Definition forward (s : State) (req : Request) (cx : Ctx) (stream : bool) (chosen : string) : State :=
  let '(info, _, urlHost) := Rewrite req (cx_info cx) (cx_rc cx) chosen in
  mkState (flights s ++ [mkFlight req cx info stream (key_of info req urlHost)]) (idle s) (busy s) (nextConn s) (passed s)
    (tunnels s) (h2conns s).

(** [connectHandler] *)
Definition connectHandler (r : routes) (s : State) (req : Request) (allow : nat → string → bool)
    (info : RequestRouteInfo) : option State :=
  '(fn, ep) ← CreateConnection r info false;
  Some (mkState (flights s) (idle s) (busy s) (S (nextConn s)) (passed s)
    (tunnels s ++ [(req, allow, mkConn (nextConn s) fn ep)]) (h2conns s)).

Definition set_endpoint (info : RequestRouteInfo) (e : string) : RequestRouteInfo :=
  mkInfo (i_URL info) (i_Host info) (i_HTTPUser info) (i_RemoteAddr info) (i_URLHost info) e.

(** A dial of the transport for a request: the connection goes to the pool, where
    any request with its key may take it. The route info is that of the context;
    the streams of a connection share it, so its endpoint [e] may be another's. *)
Definition dial (r : routes) (s : State) (fl : Flight) (e : string) : option State :=
  '(fn, ep) ← CreateConnection r (set_endpoint (fl_info fl) e) true;
  Some (mkState (flights s) (idle s ++ [(fl_key fl, mkConn (nextConn s) fn ep)]) (busy s) (S (nextConn s)) (passed s) (tunnels s) (h2conns s)).

(** The steps while the routes are [r]. Any connection may be closed. Whether a
    request asks for HTTP/2 (the preface, or an [Upgrade] header) is not looked
    at: where [h2], any request that [ServeHTTP] lets through may open an HTTP/2
    connection, and streams with any contents may come on it. *)
Inductive step (h2 : bool) (r : routes) : State → State → Prop :=
| step_forward s allow req info rc chosen :
    ServeHTTP r allow req = Forward info rc → step h2 r s (forward s req (mkCtx req allow info rc) false chosen)
| step_h2c s allow req info rc : h2 = true → ServeHTTP r allow req = Forward info rc →
    step h2 r s (mkState (flights s) (idle s) (busy s) (nextConn s) (passed s) (tunnels s) (h2conns s ++ [mkCtx req allow info rc]))
| step_stream s cx req chosen : cx ∈ h2conns s → step h2 r s (forward s req cx true chosen)
| step_connect s allow req info s' :
    ServeHTTP r allow req = Connect info → connectHandler r s req allow info = Some s' → step h2 r s s'
| step_dial s fl e s' : fl ∈ flights s → (fl_stream fl = false → e = i_Endpoint (fl_info fl)) →
    dial r s fl e = Some s' → step h2 r s s'
| step_use s fl c l1 l2 :
    fl ∈ flights s → idle s = l1 ++ (fl_key fl, c) :: l2 →
    step h2 r s (mkState (flights s) (l1 ++ l2) ((fl_key fl, c) :: busy s) (nextConn s) (passed s ++ [(fl, c)]) (tunnels s) (h2conns s))
| step_return s k c l1 l2 :
    busy s = l1 ++ (k, c) :: l2 →
    step h2 r s (mkState (flights s) (idle s ++ [(k, c)]) (l1 ++ l2) (nextConn s) (passed s) (tunnels s) (h2conns s))
| step_close s i b :
    i ⊆ idle s → b ⊆ busy s → step h2 r s (mkState (flights s) i b (nextConn s) (passed s) (tunnels s) (h2conns s)).
End Transport.

(** ** Theorems: hosts, credentials and keys *)

(** The last separator splits a text whose tail has none. *)
Lemma last_cut_app a b c : ContainsChar b c = false → last_cut (a +:+ String c b) c = Some (a, b).
Proof.
  intros Hb. assert (last_cut b c = None) as Hn.
  { induction b as [|d b IH]; cbn in *; [done|]. apply orb_false_iff in Hb as [Hd Hb]. rewrite IH by done. by rewrite Hd. }
  induction a as [|d a IH].
  - change (EmptyString +:+ String c b) with (String c b). cbn [last_cut]. by rewrite Hn, Ascii.eqb_refl.
  - change (String d a +:+ String c b) with (String d (a +:+ String c b)). cbn [last_cut]. by rewrite IH.
Qed.

Lemma sep_inj a a' b b' c :
  ContainsChar b c = false → ContainsChar b' c = false →
  a +:+ String c b = a' +:+ String c b' → a = a' ∧ b = b'.
Proof.
  intros Hb Hb' Heq%(f_equal (λ s, last_cut s c)). cbn in Heq. rewrite !last_cut_app in Heq by done. by simplify_eq.
Qed.

Lemma route_key_inj rc rc' e e' :
  route_key rc e = route_key rc' e' →
  Domain rc = Domain rc' ∧ Location rc = Location rc' ∧ RouteByHTTPUser rc = RouteByHTTPUser rc' ∧ e = e'.
Proof.
  unfold route_key. intros Heq.
  assert (∀ s, ContainsChar (Base64.EncodeToString s) "." = false) as H by (intros s; by apply Base64.EncodeToString_without).
  rewrite <-!string_app_assoc in Heq. rewrite !string_app_assoc with (t := ".") in Heq.
  change ("." +:+ ?x) with (String "." x) in Heq.
  apply sep_inj in Heq as [Heq He%Base64.EncodeToString_inj]; [|apply H..].
  apply sep_inj in Heq as [Heq Hu%Base64.EncodeToString_inj]; [|apply H..].
  by apply sep_inj in Heq as [Hd Hl%Base64.EncodeToString_inj]; [|apply H..].
Qed.

(** A tail without the separator. *)
Lemma last_cut_tail a t c :
  ContainsChar t c = false → last_cut (a +:+ t) c = (λ '(x, y), (x, y +:+ t)) <$> last_cut a c.
Proof.
  intros Ht. induction a as [|d a IH].
  - change (EmptyString +:+ t) with t. cbn. induction t as [|d t IHt]; cbn in *; [done|].
    apply orb_false_iff in Ht as [Hd Ht]. by rewrite IHt, Hd.
  - change (String d a +:+ t) with (String d (a +:+ t)). cbn [last_cut]. rewrite IH.
    destruct (last_cut a c) as [[x y]|]; [done|]. cbn. by destruct (Ascii.eqb c d).
Qed.

Lemma HasSuffix_char a t c : t ≠ "" → ContainsChar t c = false → HasSuffix (a +:+ t) (String c "") = false.
Proof.
  intros Hne Ht. apply not_true_iff_false. intros [u Hu]%HasSuffix_spec.
  apply (f_equal (λ s, last_cut s c)) in Hu. cbn beta in Hu. rewrite last_cut_tail, last_cut_app in Hu by done.
  destruct (last_cut a c) as [[x y]|]; [|done]. cbn in Hu. injection Hu as _ Hy. destruct y; [done|discriminate].
Qed.

(** What follows the domain in a key. *)
Definition key_tail (rc : RouteConfig) (e : string) : string :=
  String "." (Base64.EncodeToString (Location rc) +:+ "." +:+
  Base64.EncodeToString (RouteByHTTPUser rc) +:+ "." +:+ Base64.EncodeToString e).

Lemma key_tail_without rc e c : Base64.is_b64 c = false → c ≠ "."%char → ContainsChar (key_tail rc e) c = false.
Proof.
  intros Hc Hdot. assert (Ascii.eqb c "." = false) as Hd by (by apply Ascii.eqb_neq).
  unfold key_tail. cbn [ContainsChar]. rewrite !ContainsChar_app. cbn [ContainsChar].
  by rewrite !Base64.EncodeToString_without, Hd.
Qed.

Lemma key_tail_ascii rc e : string_all is_ascii (key_tail rc e) = true.
Proof.
  assert (∀ s, string_all is_ascii (Base64.EncodeToString s) = true) as H.
  { intros s. eapply string_all_impl; [|apply Base64.encode_chars]. intros [[] [] [] [] [] [] [] []]; by vm_compute. }
  unfold key_tail. cbn [string_all]. rewrite !string_all_app, !H. done.
Qed.

Lemma splitHostPort_key rc e : url_splitHostPort (route_key rc e) = (route_key rc e, "").
Proof.
  change (route_key rc e) with (Domain rc +:+ key_tail rc e). unfold url_splitHostPort.
  rewrite last_cut_tail by (by apply key_tail_without).
  assert (∀ y, string_all is_digit (y +:+ key_tail rc e) = false) as Hnd.
  { intros y. rewrite string_all_app. cbn. by rewrite andb_false_r. }
  assert (HasSuffix (Domain rc +:+ key_tail rc e) "]" = false) as Hs by (by apply HasSuffix_char; [|apply key_tail_without]).
  destruct (last_cut (Domain rc) ":") as [[x y]|]; cbn [fmap option_fmap option_map]; rewrite ?Hnd, Hs, andb_false_r; done.
Qed.

Lemma JoinHostPort_inj k k' : JoinHostPort k "80" = JoinHostPort k' "80" → k = k'.
Proof.
  assert (∀ k, "[" +:+ k +:+ "]:80" = ("[" +:+ k +:+ "]") +:+ ":80") as Ha by (intros; by rewrite !string_app_assoc).
  unfold JoinHostPort. destruct (ContainsChar k ":") eqn:Hk, (ContainsChar k' ":") eqn:Hk'; change ("]:" +:+ "80") with "]:80";
    change (":" +:+ "80") with (String ":" "80"); rewrite ?Ha; intros [Heq _]%sep_inj; try done.
  - apply string_app_inv_head in Heq. by apply sep_inj in Heq as [? _].
  - subst k'. by rewrite !ContainsChar_app, Hk in Hk'.
  - subst k. by rewrite !ContainsChar_app, Hk' in Hk.
Qed.

Section Keys.
Context (ToASCII : string → option string).

Lemma canonicalAddr_key rc e :
  string_all is_ascii (Domain rc) = true → canonicalAddr ToASCII (route_key rc e) = JoinHostPort (route_key rc e) "80".
Proof.
  intros Hd. unfold canonicalAddr. rewrite splitHostPort_key. unfold idnaASCII.
  change (route_key rc e) with (Domain rc +:+ key_tail rc e). by rewrite string_all_app, Hd, key_tail_ascii.
Qed.
End Keys.

(** ** Theorems: routes *)

Inductive rt_step : routes → routes → Prop :=
| rt_register r rc r' : Register r rc = Ok r' → rt_step r r'
| rt_unregister r rc : rt_step r (UnRegister r rc).

Definition registered (r : routes) : Prop := rtc rt_step Vhost.NewRouters r.

(** The payloads are filed under their own fields. *)
Definition coherent (r : routes) : Prop :=
  Vhost.wf r ∧ ∀ h u vr, vr ∈ Vhost.bucket r h u →
    let rc := Vhost.payload vr in ToLower (Domain rc) = h ∧ Location rc = Vhost.location vr ∧ RouteByHTTPUser rc = u.

Lemma registered_coherent r : registered r → coherent r.
Proof.
  unfold registered. revert r. apply rtc_ind_r.
  { split; [apply Vhost.wf_New|]. intros h u vr Hin. assert (Vhost.bucket (∅ : routes) h u = []) as Hb by done.
    unfold Vhost.NewRouters in Hin. rewrite Hb in Hin. by apply elem_of_nil in Hin. }
  intros r r' _ Hs [Hwf Hc]. destruct Hs as [r rc r' Ha|r rc].
  - split; [by eapply Vhost.wf_Add|]. intros h u vr. apply Vhost.bucket_Add in Ha as [_ Hb]. rewrite Hb.
    case_decide as Hd; [|by apply Hc]. destruct Hd as [-> ->].
    rewrite merge_sort_Permutation, elem_of_app, list_elem_of_singleton. intros [?%Hc| ->]; done.
  - split; [by apply Vhost.wf_Del|]. intros h u vr. unfold UnRegister. rewrite Vhost.bucket_Del.
    case_decide; [intros [_ ?]%list_elem_of_filter|]; by apply Hc.
Qed.

Definition in_table (r : routes) (rc : RouteConfig) : Prop := ∃ h p u, GetRouteConfig r h p u = Some rc.

Lemma in_table_bucket r rc :
  in_table r rc → ∃ h u vr, vr ∈ Vhost.bucket r h u ∧ Vhost.payload vr = rc.
Proof.
  intros (h & p & u & Hg). unfold GetRouteConfig in Hg. apply fmap_Some in Hg as (vr & Hvr & ->).
  rewrite Vhost.getByRoute_first_route in Hvr. apply Vhost.first_route_Some in Hvr as (h' & u' & _ & _ & Hl).
  rewrite Vhost.getLocked_bucket in Hl. apply first_match_elem_of in Hl as [Hin _]. eauto.
Qed.

(** A domain, a location and a user are the key of one route. *)
Lemma route_unique r rc rc' :
  coherent r → in_table r rc → in_table r rc' →
  ToLower (Domain rc) = ToLower (Domain rc') → Location rc = Location rc' → RouteByHTTPUser rc = RouteByHTTPUser rc' → rc = rc'.
Proof.
  intros [Hwf Hc] (h & u & vr & Hin & <-)%in_table_bucket (h' & u' & vr' & Hin' & <-)%in_table_bucket Hd Hl Hu.
  destruct (Hc _ _ _ Hin) as (Hd1 & Hl1 & Hu1), (Hc _ _ _ Hin') as (Hd2 & Hl2 & Hu2).
  assert (h' = h) as -> by congruence. assert (u' = u) as -> by congruence. f_equal.
  eapply Vhost.location_inj_on; [apply (Vhost.wf_sorted _ Hwf h u)|done..|congruence].
Qed.

(** ** Theorems: requests *)

(** The credentials a request has to have for a route, and where. *)
Definition credentials_ok (req : Request) (rc : RouteConfig) : Prop :=
  Username rc = "" ∧ Password rc = "" ∨
  ParseBasicAuth (if String.eqb (rq_URLHost req) "" then rq_Authorization req else rq_ProxyAuthorization req) =
    Some (Username rc, Password rc).

Definition route_of (r : routes) (req : Request) : option RouteConfig :=
  GetRouteConfig r (CanonicalHost (rq_Host req)).1 (rq_URLPath req) (getRequestRouteUser req).

(** A request is admitted to its route. *)
Definition admitted (r : routes) (allow : nat → string → bool) (req : Request) (rc : RouteConfig) : Prop :=
  route_of r req = Some rc ∧ credentials_ok req rc ∧ ∀ fn, AllowFn rc = Some fn → allow fn (rq_RemoteAddr req) = true.

(** The connection was made by the route's functions, for an endpoint. *)
Definition created_by (rc : RouteConfig) (endpoint : string) (c : Conn) : Prop :=
  match CreateConnByEndpointFn rc with
  | Some fn => cn_fn c = fn ∧ cn_endpoint c = Some endpoint
  | None => CreateConnFn rc = Some (cn_fn c) ∧ cn_endpoint c = None
  end.

Lemma checkRouteAuth_credentials req rc : checkRouteAuthByRequest req (Some rc) = true ↔ credentials_ok req rc.
Proof.
  unfold checkRouteAuthByRequest, credentials_ok, req_BasicAuth.
  assert (∀ c : option (string * string), match c with Some (user, passwd) => String.eqb user (Username rc) && String.eqb passwd (Password rc)
    | None => false end = true ↔ c = Some (Username rc, Password rc)) as Hm.
  { intros [[u p]|]; [|done]. rewrite andb_true_iff, !String.eqb_eq. naive_solver. }
  assert (ParseBasicAuth "" = None) as Hempty by done.
  destruct (String.eqb_spec (Username rc) ""), (String.eqb_spec (Password rc) ""); cbn [andb]; [naive_solver|..];
    destruct (String.eqb (rq_URLHost req) ""); cbn [negb];
    match goal with |- context [if String.eqb ?h "" then _ else _] => destruct (String.eqb_spec h "") as [He|He] end;
    rewrite ?Hm, ?He, ?Hempty; naive_solver.
Qed.

(** What [ServeHTTP] lets through. *)
Lemma ServeHTTP_admits r allow req :
  (∀ info rc, ServeHTTP r allow req = Forward info rc →
     (info, rc) = injectRequestInfoToCtx r req ∧ ∀ rc', rc = Some rc' → admitted r allow req rc') ∧
  (∀ info, ServeHTTP r allow req = Connect info →
     info = (injectRequestInfoToCtx r req).1 ∧ ∀ rc', route_of r req = Some rc' → admitted r allow req rc').
Proof.
  unfold ServeHTTP. assert ((injectRequestInfoToCtx r req).2 = route_of r req) as Hro by done.
  destruct (injectRequestInfoToCtx r req) as [info rc]. cbn in Hro. subst rc.
  destruct (match route_of r req ≫= AllowFn with Some fn => _ | None => _ end) eqn:Ha; [done|].
  destruct (checkRouteAuthByRequest req (route_of r req)) eqn:Hc; cbn [negb]; [|by destruct (String.eqb (rq_URLHost req) "")].
  assert (∀ rc', route_of r req = Some rc' → admitted r allow req rc') as Had.
  { intros rc' Hrc. rewrite Hrc in Ha, Hc. split_and!; [done|by apply checkRouteAuth_credentials|].
    intros fn Hfn. cbn in Ha. rewrite Hfn in Ha. by apply negb_false_iff in Ha. }
  destruct (String.eqb (rq_Method req) "CONNECT"); split; try done.
  - by intros info' [= <-].
  - by intros info' rc' [= <- <-].
Qed.

Section Requests.
Context (ToASCII : string → option string) (url_text : string → Request → string) (h2 : bool) (r : routes).

(** A context as [ServeHTTP] makes it. *)
Record ctx_ok (cx : Ctx) : Prop := {
  co_route : cx_rc cx = route_of r (cx_first cx);
  co_admitted rc : cx_rc cx = Some rc → admitted r (cx_allow cx) (cx_first cx) rc;
  co_info : GetRouteConfig r (CanonicalHost (i_Host (cx_info cx))).1 (i_URL (cx_info cx)) (i_HTTPUser (cx_info cx)) = cx_rc cx
}.

(** A flight as [Rewrite] makes it. *)
Record flight_ok (fl : Flight) : Prop := {
  fo_ctx : ctx_ok (fl_ctx fl);
  fo_info : GetRouteConfig r (CanonicalHost (i_Host (fl_info fl))).1 (i_URL (fl_info fl)) (i_HTTPUser (fl_info fl)) = cx_rc (fl_ctx fl);
  fo_key : fl_key fl = key_of ToASCII url_text (fl_info fl) (fl_req fl)
    match cx_rc (fl_ctx fl) with Some rc => route_key rc (i_Endpoint (fl_info fl)) | None => rq_Host (fl_req fl) end;
  fo_own : fl_stream fl = false → cx_first (fl_ctx fl) = fl_req fl;
  fo_h2 : h2 = false → fl_stream fl = false
}.

Definition pool_ok (e : pool_key * Conn) : Prop :=
  ∃ fl ep, flight_ok fl ∧ e.1 = fl_key fl ∧ (h2 = false → ep = i_Endpoint (fl_info fl)) ∧
    CreateConnection r (set_endpoint (fl_info fl) ep) true = Some (cn_fn e.2, cn_endpoint e.2).

Record serve_inv (s : State) : Prop := {
  si_flights : Forall flight_ok (flights s);
  si_idle : Forall pool_ok (idle s);
  si_busy : Forall pool_ok (busy s);
  si_passed : Forall (λ e, flight_ok e.1 ∧ pool_ok (fl_key e.1, e.2)) (passed s);
  si_tunnels : Forall (λ '(req, allow, c), ∃ rc, admitted r allow req rc ∧ CreateConnFn rc = Some (cn_fn c)) (tunnels s);
  si_h2 : Forall ctx_ok (h2conns s) ∧ (h2 = false → h2conns s = [])
}.

Lemma ctx_ok_served allow req info rc : ServeHTTP r allow req = Forward info rc → ctx_ok (mkCtx req allow info rc).
Proof. intros [Hi Had]%ServeHTTP_admits. injection Hi as -> Hrc. split; cbn; done. Qed.

Lemma forward_ok req cx stream chosen s :
  ctx_ok cx → (stream = false → cx_first cx = req) → (h2 = false → stream = false) →
  serve_inv s → serve_inv (forward ToASCII url_text s req cx stream chosen).
Proof.
  intros Hcx Hown Hh [H1 H2 H3 H4 H5 H6]. pose proof (co_info _ Hcx) as Hinfo.
  unfold forward. destruct (Rewrite _ _ _ _) as [[info' host] urlHost] eqn:Hrw. split; cbn; try done.
  apply Forall_app. split; [done|]. apply Forall_singleton.
  unfold Rewrite in Hrw. destruct (cx_rc cx) as [rc|] eqn:Hrc; injection Hrw as <- _ <-; split; cbn; try done.
  all: by rewrite Hrc.
Qed.

Lemma serve_inv_step s s' : serve_inv s → step ToASCII url_text h2 r s s' → serve_inv s'.
Proof.
  intros Hi Hs. destruct Hs as [s allow req info rc chosen Hf|s allow req info rc Hh Hf|s cx req chosen Hcx
    |s allow req info s' Hc Hch|s fl e s' Hfl He Hd|s fl c l1 l2 Hfl Hidle|s k c l1 l2 Hb|s i b Hsi Hsb].
  - by apply forward_ok; [apply ctx_ok_served|..].
  - destruct Hi as [H1 H2 H3 H4 H5 [H6 H7]]. split; cbn; try done. split; [|by rewrite Hh].
    apply Forall_app. split; [done|]. by apply Forall_singleton, ctx_ok_served.
  - destruct (si_h2 _ Hi) as [H6 H7]. apply forward_ok; [by eapply Forall_forall|done| |done].
    intros Hh. rewrite (H7 Hh) in Hcx. by apply not_elem_of_nil in Hcx.
  - destruct Hi as [H1 H2 H3 H4 H5 H6]. apply ServeHTTP_admits in Hc as [-> Had]. unfold connectHandler, CreateConnection in Hch.
    change (GetRouteConfig r _ _ _) with (route_of r req) in Hch.
    destruct (route_of r req) as [rc|] eqn:Hrc; [|done]. cbn in Hch. destruct (CreateConnFn rc) as [fn|] eqn:Hfn; [|done].
    injection Hch as <-. split; cbn; try done. apply Forall_app. split; [done|]. apply Forall_singleton. exists rc. auto.
  - destruct Hi as [H1 H2 H3 H4 H5 H6]. unfold dial in Hd.
    destruct (CreateConnection r (set_endpoint (fl_info fl) e) true) as [[fn ep]|] eqn:Hcc; [|done].
    assert (flight_ok fl) as Hfo by (by eapply Forall_forall).
    injection Hd as <-. split; cbn; try done. apply Forall_app. split; [done|]. apply Forall_singleton. exists fl, e.
    split_and!; [done..| |done]. intros Hh. by apply He, (fo_h2 _ Hfo).
  - destruct Hi as [H1 H2 H3 H4 H5 H6]. rewrite Hidle in H2. apply Forall_app in H2 as [H2 [Hc H2']%Forall_cons].
    split; cbn; try done; [by apply Forall_app|by constructor|].
    apply Forall_app. split; [done|]. apply Forall_singleton. split; [by eapply Forall_forall|done].
  - destruct Hi as [H1 H2 H3 H4 H5 H6]. rewrite Hb in H3. apply Forall_app in H3 as [H3 [Hc H3']%Forall_cons].
    split; cbn; try done; [|by apply Forall_app]. apply Forall_app. split; [done|]. by apply Forall_singleton.
  - destruct Hi as [H1 H2 H3 H4 H5 H6]. split; cbn; try done; apply Forall_forall; intros x Hx.
    + eapply Forall_forall; [exact H2|]. by apply Hsi.
    + eapply Forall_forall; [exact H3|]. by apply Hsb.
Qed.

Lemma serve_inv_reached s : rtc (step ToASCII url_text h2 r) start s → serve_inv s.
Proof. revert s. apply rtc_ind_r; [by repeat constructor|]. intros s s' _ Hs Hi. by eapply serve_inv_step. Qed.

Lemma CreateConnection_route fl e c :
  flight_ok fl → CreateConnection r (set_endpoint (fl_info fl) e) true = Some (cn_fn c, cn_endpoint c) →
  ∃ rc, cx_rc (fl_ctx fl) = Some rc ∧ in_table r rc ∧ created_by rc e c.
Proof.
  intros Hfo Hcc. unfold CreateConnection in Hcc. pose proof (fo_info _ Hfo) as Hg. cbn [set_endpoint i_Host i_URL i_HTTPUser i_Endpoint] in Hcc.
  rewrite Hg in Hcc. destruct (cx_rc (fl_ctx fl)) as [rc|] eqn:Hrc; [|done]. exists rc. split_and!; [done|by do 3 eexists|].
  unfold created_by. cbn in Hcc.
  destruct (CreateConnByEndpointFn rc) as [fn|]; [by injection Hcc as -> ->|].
  by destruct (CreateConnFn rc) as [fn|]; [injection Hcc as -> ->|].
Qed.

Lemma key_of_host info info' req req' h h' :
  (∀ a b q q', url_text a q = url_text b q' → a = b) →
  key_of ToASCII url_text info req h = key_of ToASCII url_text info' req' h' → canonicalAddr ToASCII h = canonicalAddr ToASCII h'.
Proof.
  intros Hurl. unfold key_of. destruct (String.eqb (i_URLHost info) ""), (String.eqb (i_URLHost info') ""); intros [= Heq]; [done|].
  by rewrite (Hurl _ _ _ _ Heq).
Qed.

(** A route whose pool key a route has is that route. *)
Lemma same_route rc rc' e e' :
  registered r → (∀ rc, in_table r rc → string_all is_ascii (Domain rc) = true) → in_table r rc → in_table r rc' →
  canonicalAddr ToASCII (route_key rc e) = canonicalAddr ToASCII (route_key rc' e') → rc = rc' ∧ e = e'.
Proof.
  intros Hco%registered_coherent Hascii Hin Hin' Hk. rewrite !canonicalAddr_key in Hk by auto.
  apply JoinHostPort_inj, route_key_inj in Hk as (Hd & Hl & Hu & ->). split; [|done].
  apply (route_unique r); [done|done|done|congruence|done|done].
Qed.

(** C13. While the routes stay as they are, and however requests interleave in
    the reverse proxy and its transport, connections being pooled, a request is
    written only where it may be. Every request goes in the context of one that
    passed [ServeHTTP]: its own, unless it is a stream of an HTTP/2 connection (of
    the h2c handler), which goes unchecked in the context of the request that
    opened that connection. If that request has a route, it was admitted to it:
    the route's filter let its sender pass and it had the route's credentials; and
    the connection is one which the functions of this route made, for the
    endpoint chosen for the request when no HTTP/2 connections are opened (streams
    share the record the endpoint is kept in, and can get each other's). If it
    has none, the host of the request that is written spells the pool key of a
    route. Tunnels of CONNECT requests are opened only for admitted requests, by
    the functions of their route. Assumed: the domains of the routes are ASCII,
    and the text of a URL determines its host. *)
Theorem http_requests_authorised s :
  registered r → (∀ rc, in_table r rc → string_all is_ascii (Domain rc) = true) →
  (∀ a b q q', url_text a q = url_text b q' → a = b) → rtc (step ToASCII url_text h2 r) start s →
  (∀ fl c, (fl, c) ∈ passed s →
     let first := cx_first (fl_ctx fl) in
     (fl_stream fl = false → first = fl_req fl) ∧ (h2 = false → fl_stream fl = false) ∧
     match route_of r first with
     | Some rc => admitted r (cx_allow (fl_ctx fl)) first rc ∧
         ∃ e, created_by rc e c ∧ (h2 = false → e = i_Endpoint (fl_info fl))
     | None => ∃ rc e, in_table r rc ∧ canonicalAddr ToASCII (rq_Host (fl_req fl)) = canonicalAddr ToASCII (route_key rc e)
     end) ∧
  (∀ req allow c, (req, allow, c) ∈ tunnels s → ∃ rc, admitted r allow req rc ∧ CreateConnFn rc = Some (cn_fn c)).
Proof.
  intros Hreg Hascii Hurl Hi%serve_inv_reached. split.
  - intros fl c Hin. cbv zeta. pose proof (si_passed _ Hi) as Hp. rewrite Forall_forall in Hp.
    destruct (Hp _ Hin) as [Hfo (fl0 & ep & Hfo0 & Hk & Hep & Hcc)]. cbn [fst snd] in Hfo, Hk, Hcc.
    split_and!; [apply (fo_own _ Hfo)|apply (fo_h2 _ Hfo)|].
    destruct (CreateConnection_route _ _ _ Hfo0 Hcc) as (rc0 & Hrc0 & Hin0 & Hby).
    rewrite (fo_key _ Hfo), (fo_key _ Hfo0), Hrc0 in Hk. apply key_of_host in Hk; [|done].
    pose proof (co_admitted _ (fo_ctx _ Hfo)) as Had. pose proof (fo_info _ Hfo) as Hinfo. rewrite <-(co_route _ (fo_ctx _ Hfo)).
    destruct (cx_rc (fl_ctx fl)) as [rc|]; [|eauto]. split; [by apply Had|].
    apply same_route in Hk as [-> He]; [|done..|by do 3 eexists|done]. exists ep. split; [done|]. intros Hh. by rewrite (Hep Hh).
  - intros req allow c Hin. pose proof (si_tunnels _ Hi) as Ht. rewrite Forall_forall in Ht. by apply (Ht _ Hin).
Qed.

(** C39. The password and the filter of a route are bypassed by a request that
    names the pool key of the route as its host ("example.com.Lw==.." for the
    location "/" of example.com): if that host has no route itself (no wildcard or
    catch-all route takes it), then whatever its credentials and its sender, and
    whatever the filters answer, the request can be written to any connection the
    pool holds for that key, and such a connection was made by the route's
    functions. For plain requests (without a host in the first line, not CONNECT)
    and ASCII domains of routes. *)
Theorem http_auth_bypassed s rc e c allow req :
  registered r → (∀ rc, in_table r rc → string_all is_ascii (Domain rc) = true) → in_table r rc →
  rtc (step ToASCII url_text h2 r) start s → (Direct (canonicalAddr ToASCII (route_key rc e)), c) ∈ idle s →
  rq_Host req = route_key rc e → route_of r req = None → rq_URLHost req = "" → rq_Method req ≠ "CONNECT" →
  (∃ e', created_by rc e' c) ∧
  ∃ s' fl, rtc (step ToASCII url_text h2 r) s s' ∧ (fl, c) ∈ passed s' ∧ fl_req fl = req ∧ cx_allow (fl_ctx fl) = allow.
Proof.
  intros Hreg Hascii Hin Hr Hc Hhost Hroute Hurl Hm. split.
  - pose proof (si_idle _ (serve_inv_reached _ Hr)) as Hp. rewrite Forall_forall in Hp.
    destruct (Hp _ Hc) as (fl & ep & Hfo & Hk & _ & Hcc). cbn [fst snd] in Hk, Hcc.
    destruct (CreateConnection_route _ _ _ Hfo Hcc) as (rc0 & Hrc0 & Hin0 & Hby).
    rewrite (fo_key _ Hfo), Hrc0 in Hk. unfold key_of in Hk. destruct (String.eqb (i_URLHost (fl_info fl)) ""); [|done].
    injection Hk as Hk. apply same_route in Hk as [-> _]; [|done..]. by exists ep.
  - set (info := mkInfo (rq_URLPath req) (rq_Host req) (getRequestRouteUser req) (rq_RemoteAddr req) (rq_URLHost req) "").
    assert (ServeHTTP r allow req = Forward info None) as Hs.
    { unfold ServeHTTP, injectRequestInfoToCtx. fold info. change (GetRouteConfig r _ _ _) with (route_of r req). rewrite Hroute.
      cbn. by rewrite (proj2 (String.eqb_neq _ _) Hm). }
    set (fl := mkFlight req (mkCtx req allow info None) info false (Direct (canonicalAddr ToASCII (route_key rc e)))).
    assert (step ToASCII url_text h2 r s (mkState (flights s ++ [fl]) (idle s) (busy s) (nextConn s) (passed s) (tunnels s) (h2conns s))) as H1.
    { pose proof (step_forward ToASCII url_text h2 r s allow req info None "" Hs) as H1. unfold forward, Rewrite, key_of in H1.
      cbn [cx_info cx_rc] in H1. change (i_URLHost info) with (rq_URLHost req) in H1. rewrite Hurl, Hhost in H1. exact H1. }
    apply list_elem_of_split in Hc as (l1 & l2 & Hc).
    exists (mkState (flights s ++ [fl]) (l1 ++ l2) ((fl_key fl, c) :: busy s) (nextConn s) (passed s ++ [(fl, c)]) (tunnels s) (h2conns s)), fl.
    split_and!; [|cbn; set_solver|done..]. eapply rtc_l; [exact H1|]. apply rtc_once.
    apply (step_use ToASCII url_text h2 r (mkState (flights s ++ [fl]) _ _ _ _ _ _) fl c l1 l2); cbn; [set_solver|done].
Qed.
End Requests.

(** Basic authentication: the credentials read from the header made of a user
    without a colon and a password are the same. *)
Theorem basic_auth_roundtrip user passwd :
  ContainsChar user ":" = false → ParseBasicAuth (BasicAuth user passwd) = Some (user, passwd).
Proof.
  intros Hu. unfold ParseBasicAuth, BasicAuth. set (b := Base64.EncodeToString (user +:+ ":" +:+ passwd)).
  assert (∀ s, String.substring 0 (String.length s) s = s) as Hsub by (induction s as [|c s IH]; cbn; [done|by rewrite IH]).
  change ("Basic " +:+ b) with (String "B" (String "a" (String "s" (String "i" (String "c" (String " " b)))))).
  cbn [String.length String.substring Nat.ltb Nat.leb Nat.sub orb]. rewrite ?Nat.sub_0_r.
  assert (String.substring 0 0 b = "") as -> by (by destruct b).
  change (negb (EqualFold "Basic " "Basic ")) with false. cbn match. rewrite Hsub. unfold b.
  rewrite Base64.DecodeString_EncodeToString. cbn [mbind option_bind].
  clear -Hu. induction user as [|c user IH]; [done|]. cbn [ContainsChar] in Hu. apply orb_false_iff in Hu as [Hc Hu].
  change (String c user +:+ ?x) with (String c (user +:+ x)). cbn [Cut].
  rewrite Ascii.eqb_sym in Hc. by rewrite Hc, IH.
Qed.

(** ** Examples *)

(** A route with a password and a filter, and another for the same domain. *)
Definition demo_rc : RouteConfig := mkRouteConfig "example.com" "/" "" "bob" "secret" "" (Some 1) None None (Some 7).
Definition demo_rc' : RouteConfig := mkRouteConfig "example.com" "/" "" "" "" "" (Some 2) None None None.
Definition table (rc : RouteConfig) : routes := match Register Vhost.NewRouters rc with Ok r => r | Err _ => ∅ end.
Definition replaced : routes :=
  match Register (UnRegister (table demo_rc) demo_rc) demo_rc' with Ok r => r | Err _ => ∅ end.
Definition demo_allow (fn : nat) (addr : string) : bool := String.eqb addr "10.0.0.1:4000".
Definition demo_req : Request := mkRequest "GET" "example.com" "" "/" "10.0.0.1:4000" (BasicAuth "bob" "secret") "".

Lemma demo_registered rc : is_ok (Register Vhost.NewRouters rc) = true → registered (table rc).
Proof. unfold table. intros H. destruct (Register Vhost.NewRouters rc) as [r|] eqn:Hr; [|done]. by eapply rtc_once, rt_register. Qed.

Lemma in_table_single rc rc' : is_ok (Register Vhost.NewRouters rc) = true → in_table (table rc) rc' → rc' = rc.
Proof.
  unfold table. intros Hok (h & u & vr & Hin & <-)%in_table_bucket.
  destruct (Register Vhost.NewRouters rc) as [r|] eqn:Hr; [|done]. apply Vhost.bucket_Add in Hr as [_ Hb]. rewrite Hb in Hin.
  case_decide as Hd; [|by apply elem_of_nil in Hin]. rewrite merge_sort_Permutation in Hin.
  apply elem_of_app in Hin as [Hin| ->%list_elem_of_singleton]; [by apply elem_of_nil in Hin|done].
Qed.

Definition demo_info : RequestRouteInfo := mkInfo "/" "example.com" "bob" "10.0.0.1:4000" "" "".
Definition demo_ctx : Ctx := mkCtx demo_req demo_allow demo_info (Some demo_rc).
Definition demo_flight : Flight := mkFlight demo_req demo_ctx demo_info false (Direct "example.com.Lw==..:80").
Definition demo_conn : Conn := mkConn 0 1 None.
Definition demo_s2 : State := mkState [demo_flight] [(fl_key demo_flight, demo_conn)] [] 1 [] [] [].
Definition demo_s3 : State := mkState [demo_flight] [] [(fl_key demo_flight, demo_conn)] 1 [(demo_flight, demo_conn)] [] [].
Definition demo_s4 : State := mkState [demo_flight] [(fl_key demo_flight, demo_conn)] [] 1 [(demo_flight, demo_conn)] [] [].

Section Demo.
Context (ToASCII : string → option string) (url_text : string → Request → string) (h2 : bool).

(** The authorised request leaves its connection in the pool. *)
Lemma demo_reached : rtc (step ToASCII url_text h2 (table demo_rc)) start demo_s4.
Proof.
  eapply rtc_l; [|eapply (rtc_l _ _ demo_s2); [|eapply (rtc_l _ _ demo_s3); [|apply rtc_once]]].
  - apply (step_forward _ _ _ _ start demo_allow demo_req demo_info (Some demo_rc) ""). by vm_compute.
  - apply (step_dial _ _ _ _ _ demo_flight ""); [left|done|by vm_compute].
  - apply (step_use _ _ _ _ demo_s2 demo_flight demo_conn [] []); [left|done].
  - apply (step_return _ _ _ _ demo_s3 (fl_key demo_flight) demo_conn [] []). done.
Qed.

(** After a route was replaced by another client's, a request to the new route
    is still written to a pooled connection of the old one. *)
Theorem http_pool_outlives_route :
  ∃ r' s s' fl, Register (UnRegister (table demo_rc) demo_rc) demo_rc' = Ok r' ∧
    rtc (step ToASCII url_text h2 (table demo_rc)) start s ∧ rtc (step ToASCII url_text h2 r') s s' ∧
    (fl, demo_conn) ∈ passed s' ∧ route_of r' (fl_req fl) = Some demo_rc' ∧
    CreateConnFn demo_rc = Some (cn_fn demo_conn) ∧ CreateConnFn demo_rc' ≠ Some (cn_fn demo_conn).
Proof.
  set (req := mkRequest "GET" "example.com" "" "/" "10.9.9.9:1" "" "").
  set (info := mkInfo "/" "example.com" "" "10.9.9.9:1" "" ""). set (cx := mkCtx req demo_allow info (Some demo_rc')).
  set (fl := mkFlight req cx info false (fl_key demo_flight)).
  exists replaced, demo_s4, (mkState [demo_flight; fl] [] [(fl_key fl, demo_conn)] 1 [(demo_flight, demo_conn); (fl, demo_conn)] [] []), fl.
  split_and!; [by vm_compute|apply demo_reached| |by right; left|by vm_compute|done|done].
  eapply rtc_l; [|apply rtc_once].
  - apply (step_forward _ _ _ _ demo_s4 demo_allow req info (Some demo_rc') ""). by vm_compute.
  - apply (step_use _ _ _ _ (mkState [demo_flight; fl] [(fl_key fl, demo_conn)] [] 1 [(demo_flight, demo_conn)] [] []) fl demo_conn [] []);
      [by right; left|done].
Qed.
End Demo.

Lemma demo_ascii rc : in_table (table demo_rc) rc → string_all is_ascii (Domain rc) = true.
Proof. intros Hin%in_table_single; [by subst|by vm_compute]. Qed.

Lemma http_requests_authorised_witness :
  ∃ e, created_by demo_rc e demo_conn ∧ e = "".
Proof.
  destruct (http_requests_authorised (λ _, None) (λ h _, h) false (table demo_rc) demo_s4) as [H _].
  - by apply demo_registered.
  - apply demo_ascii.
  - done.
  - apply demo_reached.
  - specialize (H demo_flight demo_conn (list_elem_of_here _ _)). destruct H as (_ & _ & H).
    vm_compute route_of in H. destruct H as (_ & e & Hb & He). exists e. split; [exact Hb|]. by apply He.
Defined.

(** Without credentials, from an address that the filter refuses. *)
Lemma http_auth_bypassed_witness :
  let req := mkRequest "GET" "example.com.Lw==.." "" "/" "10.9.9.9:1" "" "" in
  demo_allow 7 (rq_RemoteAddr req) = false ∧
  ∃ s' fl, rtc (step (λ _, None) (λ h _, h) false (table demo_rc)) demo_s4 s' ∧ (fl, demo_conn) ∈ passed s' ∧
    fl_req fl = req ∧ cx_allow (fl_ctx fl) = demo_allow.
Proof.
  intros req. split; [reflexivity|].
  apply (http_auth_bypassed (λ _, None) (λ h _, h) false (table demo_rc) demo_s4 demo_rc "" demo_conn demo_allow req).
  - by apply demo_registered.
  - apply demo_ascii.
  - exists "example.com", "/", "bob". vm_compute. reflexivity.
  - apply demo_reached.
  - vm_compute. left.
  - vm_compute. reflexivity.
  - vm_compute. reflexivity.
  - reflexivity.
  - discriminate.
Defined.

Lemma basic_auth_roundtrip_witness : ParseBasicAuth (BasicAuth "bob" "a:b") = Some ("bob", "a:b").
Proof. apply basic_auth_roundtrip. reflexivity. Defined.
End HTTP.

(** ** The muxer of CONNECT requests: pkg/util/tcpmux/httpconnect.go *)

Module TCPMux.
Import Group (MuxReq, mq_Username, mq_Password).
Import HTTP (Request, rq_Method, rq_Host, rq_ProxyAuthorization).

Inductive error := ErrRead | ErrNotConnect.

Section Muxer.
Context `{Wire.SharedConn}.
(** [http.ReadRequest] on a buffered reader: the request, and how many bytes the
    buffer took from the connection, which may be more than the request. *)
Variable ReadRequest : list byte → option (Request * nat).
Variable passthrough : bool.

Definition readHTTPConnectRequest (s : list byte) : res error (string * string * string * nat) :=
  match ReadRequest s with
  | None => Err ErrRead
  | Some (req, n) =>
      if negb (String.eqb (rq_Method req) "CONNECT") then Err ErrNotConnect
      else
        let host := (HTTP.CanonicalHost (rq_Host req)).1 in
        let proxyAuth := rq_ProxyAuthorization req in
        let '(httpUser, httpPwd) :=
          if String.eqb proxyAuth "" then ("", "") else default ("", "") (HTTP.ParseBasicAuth proxyAuth) in
        Ok (host, httpUser, httpPwd, n)
  end.

Definition getHostFromHTTPConnect (s : list byte) : res error (list byte * Minecraft.ReqInfo) :=
  let? (host, httpUser, httpPwd, n) := readHTTPConnectRequest s in
  Ok (if passthrough then Wire.shared_view (take n s) (drop n s) else drop n s,
      Minecraft.mkReqInfo host "" httpUser httpPwd).

(** The responses written to the client are their statuses; [ok] is whether
    writing succeeds. *)
Definition sendConnectResponse (ok : bool) (w : list nat) (_ : Minecraft.ReqInfo) : list nat * bool :=
  if passthrough then (w, true) else (w ++ [200], ok).

Definition auth (w : list nat) (username password : string) (info : Minecraft.ReqInfo) : list nat * bool :=
  if String.eqb username (Minecraft.ri_HTTPUser info) && String.eqb password (Minecraft.ri_HTTPPwd info) then (w, true)
  else (w ++ [407], false).

Definition vhostFailed (w : list nat) : list nat := w ++ [404].

(** The muxer of [NewHTTPConnectTCPMuxer] on a connection. *)
Definition handle_connect (r : Minecraft.routes) (write_ok : bool) (s : list byte) : list nat * Minecraft.handled (list byte) :=
  match Minecraft.handle r getHostFromHTTPConnect (Some (sendConnectResponse write_ok)) (Some auth) true true [] s with
  | (w, Minecraft.Refused c) => (vhostFailed w, Minecraft.Refused c)
  | wh => wh
  end.
End Muxer.

(** A CONNECT request reaches the listener of its route only with the proxy
    credentials of that route, if it has a user. With pass-through the listener
    receives every byte of the connection, else what follows the bytes read with
    the request, after the client was sent a 200. A client with other
    credentials is refused with a 407, but was sent the 200 of success before;
    without a route it is sent a 404. *)
Theorem connect_served `{Wire.SharedConn, !Wire.SharedConnLaws} ReadRequest passthrough (r : Minecraft.routes) s req n :
  ReadRequest s = Some (req, n) → rq_Method req = "CONNECT" →
  let conn := if passthrough : bool then s else drop n s in
  let ok := if passthrough then [] else [200] in
  let creds := default ("", "") (HTTP.ParseBasicAuth (rq_ProxyAuthorization req)) in
  handle_connect ReadRequest passthrough r true s =
  match Vhost.getByRoute r (HTTP.CanonicalHost (rq_Host req)).1 "" creds.1 with
  | None => ([404], Minecraft.Refused conn)
  | Some vr =>
      let l := Vhost.payload vr in
      if decide (mq_Username l = "" ∨ (mq_Username l, mq_Password l) = creds) then (ok, Minecraft.Accepted l conn)
      else (ok ++ [407], Minecraft.Dropped)
  end.
Proof.
  intros Hr Hm. cbv zeta. unfold handle_connect, Minecraft.handle, getHostFromHTTPConnect, readHTTPConnectRequest.
  rewrite Hr, Hm. change (negb (String.eqb "CONNECT" "CONNECT")) with false. cbn match.
  assert ((if String.eqb (rq_ProxyAuthorization req) "" then ("", "")
    else default ("", "") (HTTP.ParseBasicAuth (rq_ProxyAuthorization req))) =
    default ("", "") (HTTP.ParseBasicAuth (rq_ProxyAuthorization req))) as ->.
  { by destruct (String.eqb_spec (rq_ProxyAuthorization req) "") as [->|]. }
  destruct (default ("", "") (HTTP.ParseBasicAuth (rq_ProxyAuthorization req))) as [user pwd].
  cbn [Minecraft.ri_Host Minecraft.ri_Path Minecraft.ri_HTTPUser fst].
  assert ((if passthrough then Wire.shared_view (take n s) (drop n s) else drop n s) = (if passthrough then s else drop n s)) as ->.
  { destruct passthrough; [|done]. by rewrite Wire.shared_view_replays, take_drop. }
  assert (∀ h, Vhost.getByRoute r (ToLower h) (ToLower "") user = Vhost.getByRoute r h "" user) as ->.
  { intros h. unfold Vhost.getByRoute. by rewrite ToLower_idem. }
  destruct (Vhost.getByRoute r _ "" user) as [vr|]; [|done].
  unfold sendConnectResponse, auth. cbn [Minecraft.ri_HTTPUser Minecraft.ri_HTTPPwd].
  destruct (String.eqb_spec (mq_Username (Vhost.payload vr)) "") as [He|He].
  { destruct passthrough; cbn [negb app]; by rewrite decide_True by auto. }
  destruct (String.eqb_spec (mq_Username (Vhost.payload vr)) user), (String.eqb_spec (mq_Password (Vhost.payload vr)) pwd);
    destruct passthrough; cbn [negb app andb];
    first [rewrite decide_True by (right; congruence)|rewrite decide_False by (intros [|]; congruence)]; done.
Qed.

(** A route with a password, and a client without one. *)
Definition demo_mux : Minecraft.routes :=
  match Vhost.Add Vhost.NewRouters "db.example.com" "" "" (Group.mkMuxReq "db.example.com" "" "" "bob" "pw") with
  | Ok r => r
  | Err _ => ∅
  end.

Lemma connect_served_witness :
  let shared : Wire.SharedConn := λ consumed rest, consumed ++ rest in
  let req := HTTP.mkRequest "CONNECT" "db.example.com:3306" "db.example.com:3306" "" "" "" "" in
  @handle_connect shared (λ _, Some (req, 1%nat)) false demo_mux true [x43; x01] = ([200; 407], Minecraft.Dropped).
Proof.
  intros shared req. rewrite (@connect_served shared (λ _ _, eq_refl) (λ _, Some (req, 1%nat)) false demo_mux [x43; x01] req 1 eq_refl eq_refl).
  vm_compute. reflexivity.
Defined.
End TCPMux.
