(* ===== verification/MCGroup.v ===== *)
(** Minecraft proxies: server/group/minecraft.go and server/proxy/mc.go.

    The controller opens one muxer per public port that proxies ask for and
    shares it among them. A muxer is an object in a heap, since listeners keep
    pointing at the muxer they were opened on; a listener remembers whether its
    route was deleted and whether its [once] has released the port. Closing a
    listener is two atomic steps, the deletion of its route under the lock of
    the route table and the release under the controller's lock, and calls of
    other proxies may come in between. *)
From Stdlib Require Import ZArith Lia Ascii String.
From stdpp Require Import base gmap strings list fin_maps fin_sets relations.
From S2P Require Import Prelude GoLib Wire Ports ConfigTypes Config Router Group DomainProxies.

Local Open Scope Z_scope.
Local Open Scope frp_scope.

Module MCGroup.
Import Group (MuxReq, mkMuxReq, mux_Listen, mux_Close, routed).

Notation routes := (gmap string (gmap string (list (@Vhost.Router MuxReq)))).
Notation key := (string * string * string)%type.

(** A [vhost.MinecraftMuxer]: its routes, and whether its listener is open. *)
Record Muxer := mkMuxer { mx_routes : routes; mx_open : bool }.

(** [minecraftPortMux]. *)
Record PortMux := mkPortMux { muxer : nat; refs : Z }.

(** [minecraftGroupListener]: the muxer and the key of its vhost listener, its
    port, whether the vhost listener is closed and whether [once] is done. *)
Record Ln := mkLn { ln_mux : nat; ln_key : key; ln_port : Z; ln_closed : bool; ln_released : bool }.

(** [MinecraftGroupController], with the objects it allocated. *)
Record Ctl := mkCtl {
  portManager : Ports.Manager;
  muxers : gmap Z PortMux;
  heap : gmap nat Muxer;
  lns : gmap nat Ln;
  next : nat
}.

Definition NewMinecraftGroupController (pm : Ports.Manager) : Ctl := mkCtl pm ∅ ∅ ∅ 0.

Inductive error :=
| ErrAcquire (e : Ports.error)
| ErrNetListen
| ErrRoute (e : Vhost.route_error).

(** What a call meets: the time, which ports can be bound, the order of the
    free ports, and whether [net.Listen] succeeds. *)
Record Env := mkEnv { now : Z; avail : Z → bool; order : list Z; listen_ok : bool }.

Definition minecraftPortName (port : Z) : string := "@minecraft-" +:+ Itoa port.

Definition set_pm (s : Ctl) (pm : Ports.Manager) : Ctl := mkCtl pm (muxers s) (heap s) (lns s) (next s).

(** [entry.muxer.Close(); ctl.portManager.Release(port); delete(ctl.muxers, port)]. *)
Definition teardown (e : Env) (s : Ctl) (port : Z) (m : nat) : Ctl :=
  mkCtl (Ports.Release (portManager s) (now e) port) (delete port (muxers s))
    (alter (λ x, mkMuxer (mx_routes x) false) m (heap s)) (lns s) (next s).

(** The first half of [Listen]: the entry of the port, made on first use. *)
Definition entry_of (e : Env) (s : Ctl) (port : Z) : Ctl * res error PortMux :=
  match muxers s !! port with
  | Some entry => (s, Ok entry)
  | None =>
      match Ports.Acquire (portManager s) (now e) (avail e) (order e) (minecraftPortName port) port with
      | (pm, Err er) => (set_pm s pm, Err (ErrAcquire er))
      | (pm, Ok realPort) =>
          if negb (listen_ok e) then (set_pm s (Ports.Release pm (now e) realPort), Err ErrNetListen)
          else
            let entry := mkPortMux (next s) 0 in
            (mkCtl pm (<[port := entry]> (muxers s)) (<[next s := mkMuxer ∅ true]> (heap s)) (lns s)
               (S (next s)), Ok entry)
      end
  end.

Definition Listen (e : Env) (s : Ctl) (port : Z) (q : MuxReq) : Ctl * res error nat :=
  match entry_of e s port with
  | (s, Err er) => (s, Err er)
  | (s, Ok entry) =>
      match heap s !! muxer entry with
      | None => (s, Err ErrNetListen)     (* no such object *)
      | Some m =>
          match mux_Listen (mx_routes m) q with
          | (_, Err er) =>
              (if refs entry =? 0 then teardown e s port (muxer entry) else s, Err (ErrRoute er))
          | (r, Ok k) =>
              (mkCtl (portManager s) (<[port := mkPortMux (muxer entry) (refs entry + 1)]> (muxers s))
                 (<[muxer entry := mkMuxer r (mx_open m)]> (heap s))
                 (<[next s := mkLn (muxer entry) k port false false]> (lns s)) (S (next s)),
               Ok (next s))
          end
      end
  end.

Definition release (e : Env) (s : Ctl) (port : Z) : Ctl :=
  match muxers s !! port with
  | None => s
  | Some entry =>
      let entry := mkPortMux (muxer entry) (refs entry - 1) in
      if refs entry <=? 0 then teardown e s port (muxer entry)
      else mkCtl (portManager s) (<[port := entry]> (muxers s)) (heap s) (lns s) (next s)
  end.

(** [minecraftGroupListener.Close], its two steps. A second [close(l.accept)]
    panics; the first step is for a listener not yet closed. *)
Definition close_route (e : Env) (s : Ctl) (l : nat) (ln : Ln) : Ctl :=
  mkCtl (portManager s) (muxers s)
    (alter (λ m, mkMuxer (mux_Close (now e) (mx_routes m) (ln_key ln)) (mx_open m)) (ln_mux ln) (heap s))
    (<[l := mkLn (ln_mux ln) (ln_key ln) (ln_port ln) true (ln_released ln)]> (lns s)) (next s).

Definition once_release (e : Env) (s : Ctl) (l : nat) (ln : Ln) : Ctl :=
  if ln_released ln then s
  else
    let s := release e s (ln_port ln) in
    mkCtl (portManager s) (muxers s) (heap s)
      (<[l := mkLn (ln_mux ln) (ln_key ln) (ln_port ln) (ln_closed ln) true]> (lns s)) (next s).

Definition ln_Close (e : Env) (s : Ctl) (l : nat) : Ctl :=
  match lns s !! l with
  | None => s
  | Some ln =>
      let s := close_route e s l ln in
      match lns s !! l with None => s | Some ln => once_release e s l ln end
  end.

(** [CloseAll], in the order [l] of the map's iteration. *)
Definition CloseAll (e : Env) (s : Ctl) (l : list (Z * PortMux)) : Ctl :=
  foldl (λ s pe, teardown e s pe.1 (muxer pe.2)) s l.

(** ** The proxy *)

(** The loop of [MCProxy.Run]; [env] gives what each call meets. *)
Fixpoint listen_all (env : nat → Env) (s : Ctl) (port : Z) (domains : list string) (listeners : list nat) :
    Ctl * list nat * option error :=
  match domains with
  | [] => (s, listeners, None)
  | d :: domains =>
      match Listen (env (next s)) s port (mkMuxReq d "" "" "" "") with
      | (s, Err er) => (s, listeners, Some er)
      | (s, Ok l) => listen_all env s port domains (listeners ++ [l])
      end
  end.

Definition close_all (env : nat → Env) (s : Ctl) (listeners : list nat) : Ctl :=
  foldl (λ s l, ln_Close (env l) s l) s listeners.

(** [MCProxy.Run]: the listeners and the remote address, or everything closed. *)
Definition MC_Run (env : nat → Env) (s : Ctl) (cfg : Config.MCProxyConfig) (scfg : Config.ServerConfig) :
    Ctl * res error (list nat * string) :=
  let domains := DomainProxies.domains_of (Config.mc_Domain cfg) scfg in
  match listen_all env s (Config.mc_RemotePort cfg) domains [] with
  | (s, listeners, Some er) => (close_all env s listeners, Err er)
  | (s, listeners, None) => (s, Ok (listeners, ":" +:+ Itoa (Config.mc_RemotePort cfg)))
  end.

(** [MCProxy.Close]. *)
Definition MC_Close := close_all.

(** ** Steps

    Calls on the controller, on a port that is not 0, as the server's validation
    makes sure, and what others do with the shared port manager: anything, or,
    when [kept], calls that leave the controller's ports acquired. *)
Inductive mcstep (kept : bool) : Ctl → Ctl → Prop :=
| McListen e s port q : port ≠ 0 → mcstep kept s (Listen e s port q).1
| McCloseRoute e s l ln : lns s !! l = Some ln → ln_closed ln = false → mcstep kept s (close_route e s l ln)
| McRelease e s l ln : lns s !! l = Some ln → ln_closed ln = true → mcstep kept s (once_release e s l ln)
| McOther s pm :
    (kept = true → Ports.step (portManager s) pm ∧ ∀ p, p ∈ dom (muxers s) → p ∈ dom (Ports.usedPorts pm)) →
    mcstep kept s (set_pm s pm).

Definition mcreachable (kept : bool) (pm : Ports.Manager) (s : Ctl) : Prop :=
  rtc (mcstep kept) (NewMinecraftGroupController pm) s.

(** ** The invariant *)

(** The listeners on port [p] that have not released it. *)
Definition pending (lns : gmap nat Ln) (p : Z) : gset nat :=
  dom (filter (λ x, ln_port x.2 = p ∧ ln_released x.2 = false) lns).

Lemma elem_of_pending lns p l :
  l ∈ pending lns p ↔ ∃ ln, lns !! l = Some ln ∧ ln_port ln = p ∧ ln_released ln = false.
Proof.
  unfold pending. rewrite elem_of_dom. split.
  - intros [ln [? [? ?]]%map_lookup_filter_Some]. eauto.
  - intros (ln & ? & ? & ?). exists ln. by apply map_lookup_filter_Some.
Qed.

(** What is known of the port manager: that it is well-formed for the allowed
    ports, or nothing. *)
Definition pm_ok (allowed : option (gset Z)) (pm : Ports.Manager) : Prop :=
  match allowed with Some a => Ports.wf a pm | None => True end.

Lemma pm_ok_Release allowed pm t p : pm_ok allowed pm → pm_ok allowed (Ports.Release pm t p).
Proof. destruct allowed; [apply Ports.wf_Release|done]. Qed.

(** Up to the counts being positive, which fails inside [Listen]. *)
Record inv0 (allowed : option (gset Z)) (s : Ctl) : Prop := {
  i_ports : pm_ok allowed (portManager s);
  i_heap : ∀ m, is_Some (heap s !! m) → (m < next s)%nat;
  i_lns : ∀ l, is_Some (lns s !! l) → (l < next s)%nat;
  i_wf : ∀ m x, heap s !! m = Some x → Vhost.wf (mx_routes x);
  i_used : is_Some allowed → ∀ p, p ∈ dom (muxers s) → p ∈ dom (Ports.usedPorts (portManager s));
  i_entry : ∀ p en, muxers s !! p = Some en →
    refs en = Z.of_nat (size (pending (lns s) p)) ∧ ∃ m, heap s !! muxer en = Some m ∧ mx_open m = true;
  i_inj : ∀ p p' en en', muxers s !! p = Some en → muxers s !! p' = Some en' →
    muxer en = muxer en' → p = p';
  i_open : ∀ m x, heap s !! m = Some x → mx_open x = true →
    ∃ p en, muxers s !! p = Some en ∧ muxer en = m;
  i_ln : ∀ l ln, lns s !! l = Some ln → ln_released ln = false →
    ∃ en, muxers s !! ln_port ln = Some en ∧ muxer en = ln_mux ln;
  i_closed : ∀ l ln, lns s !! l = Some ln → ln_released ln = true → ln_closed ln = true;
  i_route : ∀ p en m k, muxers s !! p = Some en → heap s !! muxer en = Some m →
    routed (mx_routes m) k ↔
    ∃ l ln, lns s !! l = Some ln ∧ ln_closed ln = false ∧ ln_port ln = p ∧ ln_key ln = k;
  i_key : ∀ l l' ln ln', lns s !! l = Some ln → lns s !! l' = Some ln' →
    ln_closed ln = false → ln_closed ln' = false → ln_port ln = ln_port ln' → ln_key ln = ln_key ln' → l = l'
}.

Definition counted (s : Ctl) : Prop := ∀ p en, muxers s !! p = Some en → 0 < refs en.

Definition inv (allowed : option (gset Z)) (s : Ctl) : Prop := inv0 allowed s ∧ counted s.

(** The ports in use that are not the controller's. *)
Definition others (s : Ctl) : gset Z := dom (Ports.usedPorts (portManager s)) ∖ dom (muxers s).

Lemma inv0_New allowed pm : pm_ok allowed pm → inv allowed (NewMinecraftGroupController pm).
Proof.
  intros Hz. split; [|by intros p en ?]. constructor; cbn; try done.
  - by intros m [??].
  - by intros m [??].
Qed.

Lemma inv0_set_pm allowed s pm :
  inv0 allowed s → pm_ok allowed pm → (is_Some allowed → ∀ p, p ∈ dom (muxers s) → p ∈ dom (Ports.usedPorts pm)) →
  inv0 allowed (set_pm s pm).
Proof. intros []. by constructor. Qed.

(** A port with no pending listener has no entry, and the other way round. *)
Lemma entry_pending allowed s p :
  inv allowed s → p ∈ dom (muxers s) ↔ ∃ l, l ∈ pending (lns s) p.
Proof.
  intros [Hi Hc]. rewrite elem_of_dom. split.
  - intros [en Hen]. destruct (i_entry _ _ Hi _ _ Hen) as [Hr _]. specialize (Hc _ _ Hen).
    apply set_choose_L. intros Heq. rewrite Heq, size_empty in Hr. lia.
  - intros [l (ln & Hl & <- & Hrel)%elem_of_pending]. destruct (i_ln _ _ Hi _ _ Hl Hrel) as (en & ? & _). eauto.
Qed.

Lemma next_heap allowed s : inv0 allowed s → heap s !! next s = None.
Proof. intros Hi. apply eq_None_not_Some. intros H%(i_heap _ _ Hi). lia. Qed.

Lemma next_lns allowed s : inv0 allowed s → lns s !! next s = None.
Proof. intros Hi. apply eq_None_not_Some. intros H%(i_lns _ _ Hi). lia. Qed.

(** ** Opening and closing a muxer *)

Lemma inv0_open allowed s pm port :
  inv0 allowed s → muxers s !! port = None → (∀ l, l ∉ pending (lns s) port) →
  pm_ok allowed pm → (is_Some allowed → ∀ p, p ∈ dom (muxers s) ∨ p = port → p ∈ dom (Ports.usedPorts pm)) →
  inv0 allowed (mkCtl pm (<[port := mkPortMux (next s) 0]> (muxers s))
    (<[next s := mkMuxer ∅ true]> (heap s)) (lns s) (S (next s))).
Proof.
  intros Hi Hnone Hpend Hwf Hused. pose proof (next_heap _ _ Hi) as Hfresh.
  assert (∀ p en, muxers s !! p = Some en → muxer en ≠ next s) as Hold.
  { intros p en Hen Heq. destruct (i_entry _ _ Hi _ _ Hen) as (_ & m & Hm & _). congruence. }
  constructor; cbn; try done.
  - intros m [x [[<- _]|[_ Hx]]%lookup_insert_Some]; [lia|].
    assert (m < next s)%nat; [apply (i_heap _ _ Hi); eauto|lia].
  - intros l Hl%(i_lns _ _ Hi). lia.
  - intros m x [[_ <-]|[_ Hx]]%lookup_insert_Some; [apply Vhost.wf_New|by eapply i_wf].
  - intros Ha p. rewrite dom_insert. intros Hp. apply Hused; [done|]. set_solver.
  - intros p en [[<- <-]|[Hne Hen]]%lookup_insert_Some; cbn.
    + split; [|eexists; by rewrite lookup_insert_eq].
      assert (pending (lns s) port = ∅) as -> by set_solver. by rewrite size_empty.
    + rewrite lookup_insert_ne by (symmetry; by eapply Hold). by apply (i_entry _ _ Hi).
  - intros p p' en en' [[<- <-]|[? Hen]]%lookup_insert_Some [[<- <-]|[? Hen']]%lookup_insert_Some Heq; try done.
    + by destruct (Hold _ _ Hen').
    + by destruct (Hold _ _ Hen).
    + by eapply i_inj.
  - intros m x [[<- <-]|[Hne Hx]]%lookup_insert_Some Ho.
    + exists port, (mkPortMux (next s) 0). by rewrite lookup_insert_eq.
    + destruct (i_open _ _ Hi _ _ Hx Ho) as (p & en & Hen & ?). exists p, en.
      rewrite lookup_insert_ne; [done|congruence].
  - intros l ln Hl Hr. destruct (i_ln _ _ Hi _ _ Hl Hr) as (en & Hen & ?). exists en.
    rewrite lookup_insert_ne; [done|congruence].
  - apply (i_closed _ _ Hi).
  - intros p en m k [[<- <-]|[Hne Hen]]%lookup_insert_Some; cbn.
    + rewrite lookup_insert_eq. intros [= <-]. split; [by intros [??]|].
      intros (l & ln & Hl & Hc & <- & _). destruct (Hpend l). apply elem_of_pending. exists ln.
      split_and!; [done..|]. destruct (ln_released ln) eqn:Hr; [|done].
      by rewrite (i_closed _ _ Hi _ _ Hl Hr) in Hc.
    + rewrite lookup_insert_ne by (symmetry; by eapply Hold). by apply (i_route _ _ Hi).
  - apply (i_key _ _ Hi).
Qed.

(** ** How the pending listeners change *)

Lemma pending_insert lns l ln p :
  pending (<[l := ln]> lns) p =
  if decide (ln_port ln = p ∧ ln_released ln = false) then {[l]} ∪ pending lns p else pending lns p ∖ {[l]}.
Proof.
  apply set_eq. intros x. rewrite elem_of_pending. case_decide as Hd.
  - rewrite elem_of_union, elem_of_singleton, elem_of_pending. split.
    + intros (y & [[<- <-]|[Hne Hy]]%lookup_insert_Some & ?); [by left|right; eauto].
    + destruct (decide (x = l)) as [->|Hne]; [intros _; exists ln; by rewrite lookup_insert_eq|].
      intros [?|(y & ? & ?)]; [done|]. exists y. by rewrite lookup_insert_ne.
  - rewrite elem_of_difference, elem_of_singleton, elem_of_pending. split.
    + intros (y & [[<- <-]|[Hne Hy]]%lookup_insert_Some & ?); [done|]. split; [eauto|done].
    + intros [(y & ? & ?) Hne]. exists y. by rewrite lookup_insert_ne.
Qed.

(** A listener that is only marked closed stays pending. *)
Lemma pending_closed lns l ln p c :
  lns !! l = Some ln →
  pending (<[l := mkLn (ln_mux ln) (ln_key ln) (ln_port ln) c (ln_released ln)]> lns) p = pending lns p.
Proof.
  intros Hl. rewrite pending_insert. cbn. case_decide as Hd.
  - assert (l ∈ pending lns p); [apply elem_of_pending; eauto|set_solver].
  - assert (l ∉ pending lns p); [|set_solver]. intros (x & ? & ?)%elem_of_pending. naive_solver.
Qed.

Lemma pending_new lns l ln p :
  lns !! l = None → ln_released ln = false →
  Z.of_nat (size (pending (<[l := ln]> lns) p)) =
  Z.of_nat (size (pending lns p)) + (if decide (ln_port ln = p) then 1 else 0).
Proof.
  intros Hl Hr. rewrite pending_insert.
  assert (l ∉ pending lns p) as Hn by (intros (x & ? & _)%elem_of_pending; congruence).
  destruct (decide (ln_port ln = p)); [rewrite decide_True by done|rewrite decide_False by naive_solver].
  - rewrite size_union, size_singleton; [lia|set_solver].
  - rewrite Z.add_0_r. do 2 f_equal. set_solver.
Qed.

Lemma exists_insert_new {A} (M : gmap nat A) l x (P : A → Prop) :
  M !! l = None → ¬ P x →
  (∃ l' y, <[l := x]> M !! l' = Some y ∧ P y) ↔ ∃ l' y, M !! l' = Some y ∧ P y.
Proof.
  intros Hl Hx. split; intros (l' & y & Hy & HP); exists l', y; (split; [|done]).
  - apply lookup_insert_Some in Hy as [[<- <-]|[? ?]]; done.
  - rewrite lookup_insert_ne; [done|congruence].
Qed.

(** The new listener of a port. *)
Lemma inv0_add allowed s port en m r q k :
  inv0 allowed s → muxers s !! port = Some en → heap s !! muxer en = Some m →
  mux_Listen (mx_routes m) q = (r, Ok k) →
  inv0 allowed (mkCtl (portManager s) (<[port := mkPortMux (muxer en) (refs en + 1)]> (muxers s))
    (<[muxer en := mkMuxer r (mx_open m)]> (heap s))
    (<[next s := mkLn (muxer en) k port false false]> (lns s)) (S (next s))).
Proof.
  intros Hi Hen Hm Hl. apply Group.mux_Listen_Ok in Hl as (Hwf & Hnot & Hnew & Hsame); [|by eapply i_wf].
  pose proof (next_lns _ _ Hi) as Hfresh.
  assert (∀ p en', muxers s !! p = Some en' → p ≠ port → muxer en' ≠ muxer en) as Hother.
  { intros p en' Hen' Hne Heq. by apply Hne, (i_inj _ _ Hi _ _ _ _ Hen' Hen). }
  constructor; cbn.
  - apply Hi.
  - intros x [y [[<- _]|[_ Hy]]%lookup_insert_Some]; (assert (x < next s)%nat || assert (muxer en < next s)%nat);
      try (apply (i_heap _ _ Hi); eauto); lia.
  - intros x [y [[<- _]|[_ Hy]]%lookup_insert_Some]; [lia|].
    assert (x < next s)%nat; [apply (i_lns _ _ Hi); eauto|lia].
  - intros x y [[_ <-]|[_ Hy]]%lookup_insert_Some; [done|by eapply i_wf].
  - intros Ha p. rewrite dom_insert. intros [->%elem_of_singleton|Hp]%elem_of_union; apply (i_used _ _ Hi Ha); [|done].
    by eapply elem_of_dom_2.
  - intros p en' [[<- <-]|[Hne Hen']]%lookup_insert_Some; rewrite pending_new by done; cbn.
    + rewrite decide_True by done. destruct (i_entry _ _ Hi _ _ Hen) as (-> & x & Hx & Ho).
      split; [done|]. rewrite lookup_insert_eq. eexists. split; [done|]. cbn. congruence.
    + rewrite decide_False, Z.add_0_r by done.
      rewrite lookup_insert_ne by (apply not_eq_sym; by eapply Hother). by apply (i_entry _ _ Hi).
  - intros p p' e1 e2 [[<- <-]|[? H1]]%lookup_insert_Some [[<- <-]|[? H2]]%lookup_insert_Some; cbn; try done.
    + intros Heq. by destruct (Hother _ _ H2).
    + intros Heq. by destruct (Hother _ _ H1).
    + by apply (i_inj _ _ Hi).
  - intros x y [[<- <-]|[Hne Hy]]%lookup_insert_Some Ho.
    + exists port. eexists. by rewrite lookup_insert_eq.
    + destruct (i_open _ _ Hi _ _ Hy Ho) as (p & e' & He' & <-). exists p, e'.
      rewrite lookup_insert_ne; [done|]. congruence.
  - intros l ln [[<- <-]|[Hne Hln]]%lookup_insert_Some Hr; cbn.
    + rewrite lookup_insert_eq. by eexists.
    + destruct (i_ln _ _ Hi _ _ Hln Hr) as (e' & He' & Hmu).
      destruct (decide (ln_port ln = port)) as [Hp|Hp]; [|rewrite lookup_insert_ne by done; eauto].
      rewrite Hp, lookup_insert_eq. eexists. split; [done|]. cbn. congruence.
  - intros l ln [[<- <-]|[Hne Hln]]%lookup_insert_Some; [done|by apply (i_closed _ _ Hi _ _ Hln)].
  - intros p e' x k' [[<- <-]|[Hne He']]%lookup_insert_Some; cbn.
    + rewrite lookup_insert_eq. intros [= <-]. cbn. destruct (decide (k' = k)) as [->|Hk].
      * split; [|done]. intros _. exists (next s). eexists. by rewrite lookup_insert_eq.
      * rewrite Hsame, (i_route _ _ Hi _ _ _ k' Hen Hm) by done. symmetry.
        apply exists_insert_new; [done|]. cbn. by intros (_ & _ & <-).
    + rewrite lookup_insert_ne by (apply not_eq_sym; by eapply Hother). intros Hx.
      rewrite (i_route _ _ Hi _ _ _ k' He' Hx). symmetry.
      apply exists_insert_new; [done|]. cbn. by intros (_ & <- & _).
  - assert (∀ l ln, lns s !! l = Some ln → ln_closed ln = false → ln_port ln = port → ln_key ln ≠ k) as Hk.
    { intros l ln Hln Hc Hp Heq. apply Hnot, (i_route _ _ Hi _ _ _ k Hen Hm). eauto 10. }
    intros l l' ln ln' [[<- <-]|[? Hln]]%lookup_insert_Some [[<- <-]|[? Hln']]%lookup_insert_Some; cbn; try done.
    + intros _ Hc Hp Heq. by destruct (Hk _ _ Hln' Hc).
    + intros Hc _ Hp Heq. by destruct (Hk _ _ Hln Hc).
    + by apply (i_key _ _ Hi).
Qed.

(** ** Closing a listener *)

(** The object of [ln] is the muxer of its port and of no other. *)
Lemma ln_entry allowed s l ln :
  inv0 allowed s → lns s !! l = Some ln → ln_released ln = false →
  ∃ en, muxers s !! ln_port ln = Some en ∧ muxer en = ln_mux ln ∧
    ∀ p en', muxers s !! p = Some en' → p ≠ ln_port ln → muxer en' ≠ ln_mux ln.
Proof.
  intros Hi Hl Hr. destruct (i_ln _ _ Hi _ _ Hl Hr) as (en & Hen & Hm). exists en. split_and!; [done..|].
  intros p en' Hen' Hne Heq. apply Hne. eapply (i_inj _ _ Hi); [done..|congruence].
Qed.

Lemma lookup_alter_Some' {A} (f : A → A) (M : gmap nat A) i j y :
  alter f i M !! j = Some y → ∃ x, M !! j = Some x ∧ y = if decide (i = j) then f x else x.
Proof.
  destruct (decide (i = j)) as [<-|Hne].
  - rewrite lookup_alter_eq. intros (x & ? & ->)%fmap_Some. eauto.
  - rewrite lookup_alter_ne by done. eauto.
Qed.

Lemma alter_open (f : Muxer → Muxer) (M : gmap nat Muxer) i j m :
  (∀ x, mx_open (f x) = mx_open x) → M !! j = Some m → mx_open m = true →
  ∃ m', alter f i M !! j = Some m' ∧ mx_open m' = true.
Proof.
  intros Hf Hm Ho. destruct (decide (i = j)) as [<-|Hne].
  - rewrite lookup_alter_eq, Hm. eexists. split; [done|]. by rewrite Hf.
  - rewrite lookup_alter_ne by done. eauto.
Qed.

(** Open listeners once [l] is marked closed. *)
Lemma exists_closed s l ln p k :
  lns s !! l = Some ln →
  let ln' := mkLn (ln_mux ln) (ln_key ln) (ln_port ln) true (ln_released ln) in
  (∃ x y, <[l := ln']> (lns s) !! x = Some y ∧ ln_closed y = false ∧ ln_port y = p ∧ ln_key y = k) ↔
  ∃ x y, x ≠ l ∧ lns s !! x = Some y ∧ ln_closed y = false ∧ ln_port y = p ∧ ln_key y = k.
Proof.
  intros Hl ln'. split.
  - intros (x & y & [[<- <-]|[Hne Hy]]%lookup_insert_Some & Hc & ?); [done|]. by exists x, y.
  - intros (x & y & Hne & Hy & ?). exists x, y. by rewrite lookup_insert_ne.
Qed.

Lemma inv0_close_route allowed e s l ln :
  inv0 allowed s → lns s !! l = Some ln → ln_closed ln = false → inv0 allowed (close_route e s l ln).
Proof.
  intros Hi Hl Hc.
  assert (ln_released ln = false) as Hr.
  { destruct (ln_released ln) eqn:Hr; [|done]. by rewrite (i_closed _ _ Hi _ _ Hl Hr) in Hc. }
  destruct (ln_entry _ _ _ _ Hi Hl Hr) as (en & Hen & Hmu & Hother).
  constructor; cbn; try apply Hi.
  - intros m [x (y & Hy & _)%lookup_alter_Some']. apply (i_heap _ _ Hi). eauto.
  - intros x [y [[<- _]|[_ Hy]]%lookup_insert_Some]; apply (i_lns _ _ Hi); eauto.
  - intros m x (y & Hy & ->)%lookup_alter_Some'. apply (i_wf _ _ Hi) in Hy.
    case_decide; [|done]. by apply Vhost.wf_Del.
  - intros p en' Hen'. rewrite (pending_closed _ _ _ _ _ Hl). destruct (i_entry _ _ Hi _ _ Hen') as (-> & m & Hm & Ho).
    split; [done|]. by eapply alter_open.
  - intros m x (y & Hy & ->)%lookup_alter_Some' Ho. apply (i_open _ _ Hi _ _ Hy). by case_decide.
  - intros x y [[<- <-]|[_ Hy]]%lookup_insert_Some; [intros _; by exists en|by eapply i_ln].
  - intros x y [[<- <-]|[_ Hy]]%lookup_insert_Some; [done|by apply (i_closed _ _ Hi _ _ Hy)].
  - intros p en' m k Hen' Hm. rewrite exists_closed by done.
    apply lookup_alter_Some' in Hm as (y & Hy & ->). case_decide as Hd.
    + assert (p = ln_port ln) as ->.
      { destruct (decide (p = ln_port ln)); [done|]. exfalso. by eapply Hother. }
      destruct (Group.mux_Close_law (now e) (mx_routes y) (ln_key ln)) as (_ & Hnot & Hsame).
      { by eapply i_wf. }
      { apply (i_route _ _ Hi _ _ _ _ Hen' Hy). by exists l, ln. }
      cbn. destruct (decide (k = ln_key ln)) as [->|Hk].
      * split; [done|]. intros (x & z & Hne & Hz & Hzc & Hp & Hkz). destruct Hne.
        by apply (i_key _ _ Hi x l z ln).
      * rewrite Hsame, (i_route _ _ Hi _ _ _ _ Hen' Hy) by done. split.
        -- intros (x & z & Hz & ? & ? & Hkz). exists x, z. split_and!; try done. congruence.
        -- intros (x & z & _ & ?). by exists x, z.
    + rewrite (i_route _ _ Hi _ _ _ _ Hen' Hy). split.
      * intros (x & z & Hz & ? & Hp & ?). exists x, z. split_and!; try done. intros ->.
        assert (z = ln) as -> by congruence. apply Hd. rewrite Hp in Hen. congruence.
      * intros (x & z & _ & ?). by exists x, z.
  - intros x x' y y' [[<- <-]|[? Hy]]%lookup_insert_Some [[<- <-]|[? Hy']]%lookup_insert_Some; cbn; try done.
    by apply (i_key _ _ Hi).
Qed.

Definition mark_released (ln : Ln) : Ln := mkLn (ln_mux ln) (ln_key ln) (ln_port ln) (ln_closed ln) true.

Lemma exists_released s l ln p k :
  lns s !! l = Some ln → ln_closed ln = true →
  (∃ x y, <[l := mark_released ln]> (lns s) !! x = Some y ∧ ln_closed y = false ∧ ln_port y = p ∧ ln_key y = k) ↔
  ∃ x y, lns s !! x = Some y ∧ ln_closed y = false ∧ ln_port y = p ∧ ln_key y = k.
Proof.
  intros Hl Hc. split; intros (x & y & Hy & Hyc & ?); exists x, y; (split; [|done]).
  - apply lookup_insert_Some in Hy as [[<- <-]|[_ ?]]; [|done]. cbn in Hyc. congruence.
  - rewrite lookup_insert_ne; [done|congruence].
Qed.

Lemma key_released allowed s l ln x x' y y' :
  inv0 allowed s → ln_closed ln = true →
  <[l := mark_released ln]> (lns s) !! x = Some y → <[l := mark_released ln]> (lns s) !! x' = Some y' →
  ln_closed y = false → ln_closed y' = false → ln_port y = ln_port y' → ln_key y = ln_key y' → x = x'.
Proof.
  intros Hi Hc [[<- <-]|[? Hy]]%lookup_insert_Some [[<- <-]|[? Hy']]%lookup_insert_Some; cbn; try congruence.
  by apply (i_key _ _ Hi).
Qed.

Lemma pending_released lns l ln p :
  pending (<[l := mark_released ln]> lns) p = pending lns p ∖ {[l]}.
Proof. rewrite pending_insert, decide_False; [done|]. cbn. by intros [_ ?]. Qed.

(** A release that leaves other listeners. *)
Lemma inv0_decrement allowed s l ln en :
  inv0 allowed s → lns s !! l = Some ln → ln_closed ln = true → ln_released ln = false →
  muxers s !! ln_port ln = Some en →
  inv0 allowed (mkCtl (portManager s) (<[ln_port ln := mkPortMux (muxer en) (refs en - 1)]> (muxers s))
    (heap s) (<[l := mark_released ln]> (lns s)) (next s)).
Proof.
  intros Hi Hl Hc Hr Hen.
  assert (l ∈ pending (lns s) (ln_port ln)) as Hin by (apply elem_of_pending; eauto).
  assert (∀ p e', <[ln_port ln := mkPortMux (muxer en) (refs en - 1)]> (muxers s) !! p = Some e' →
    ∃ e0, muxers s !! p = Some e0 ∧ muxer e' = muxer e0) as Hback.
  { intros p e' [[<- <-]|[_ He']]%lookup_insert_Some; eauto. }
  constructor; cbn; try apply Hi.
  - intros x [y [[<- _]|[_ Hy]]%lookup_insert_Some]; apply (i_lns _ _ Hi); eauto.
  - intros Ha p. rewrite dom_insert. intros [->%elem_of_singleton|Hp]%elem_of_union; apply (i_used _ _ Hi Ha); [|done].
    by eapply elem_of_dom_2.
  - intros p e' He'. rewrite pending_released.
    apply lookup_insert_Some in He' as [[<- <-]|[Hne He']]; cbn.
    + destruct (i_entry _ _ Hi _ _ Hen) as [-> ?]. split; [|done].
      rewrite size_difference, size_singleton by set_solver.
      assert (0 < size (pending (lns s) (ln_port ln)))%nat; [|lia].
      apply Nat.neq_0_lt_0. intros Hz%size_empty_inv. set_solver.
    + destruct (i_entry _ _ Hi _ _ He') as [-> ?]. split; [|done]. do 2 f_equal.
      assert (l ∉ pending (lns s) p); [|set_solver]. intros (x & ? & <- & _)%elem_of_pending. naive_solver.
  - intros p p' e1 e2 (x1 & H1 & ->)%Hback (x2 & H2 & ->)%Hback. by apply (i_inj _ _ Hi).
  - intros m x Hx Ho. destruct (i_open _ _ Hi _ _ Hx Ho) as (p & e' & He' & <-). exists p.
    destruct (decide (p = ln_port ln)) as [->|Hne]; [|rewrite lookup_insert_ne by done; eauto].
    rewrite lookup_insert_eq. eexists. split; [done|]. cbn. congruence.
  - intros x y [[<- <-]|[_ Hy]]%lookup_insert_Some Hyr; [done|].
    destruct (i_ln _ _ Hi _ _ Hy Hyr) as (e' & He' & Hm).
    destruct (decide (ln_port y = ln_port ln)) as [Hp|Hne]; [|rewrite lookup_insert_ne by done; eauto].
    rewrite Hp, lookup_insert_eq. eexists. split; [done|]. cbn. congruence.
  - intros x y [[<- <-]|[_ Hy]]%lookup_insert_Some; [done|by apply (i_closed _ _ Hi _ _ Hy)].
  - intros p e' m k (e0 & He0 & ->)%Hback Hm. rewrite exists_released by done. by apply (i_route _ _ Hi _ _ _ _ He0).
  - intros x x' y y'. by eapply key_released.
Qed.

(** The last release. *)
Lemma inv0_teardown allowed e s l ln en :
  inv0 allowed s → lns s !! l = Some ln → ln_closed ln = true → ln_released ln = false →
  muxers s !! ln_port ln = Some en → refs en = 1 →
  inv0 allowed (mkCtl (Ports.Release (portManager s) (now e) (ln_port ln)) (delete (ln_port ln) (muxers s))
    (alter (λ x, mkMuxer (mx_routes x) false) (muxer en) (heap s)) (<[l := mark_released ln]> (lns s)) (next s)).
Proof.
  intros Hi Hl Hc Hr Hen Href.
  assert (l ∈ pending (lns s) (ln_port ln)) as Hin by (apply elem_of_pending; eauto).
  destruct (i_entry _ _ Hi _ _ Hen) as [Hsize _]. rewrite Href in Hsize.
  assert (∀ x, x ∈ pending (lns s) (ln_port ln) → x = l) as Honly.
  { intros x Hx. apply (size_singleton_inv (pending (lns s) (ln_port ln))); [|done..]. lia. }
  assert (∀ p e', p ≠ ln_port ln → muxers s !! p = Some e' → muxer e' ≠ muxer en) as Hother.
  { intros p e' Hne He' Heq. by apply Hne, (i_inj _ _ Hi _ _ _ _ He' Hen). }
  constructor; cbn; try apply Hi.
  - by apply pm_ok_Release, Hi.
  - intros m [x (y & Hy & _)%lookup_alter_Some']. apply (i_heap _ _ Hi). eauto.
  - intros x [y [[<- _]|[_ Hy]]%lookup_insert_Some]; apply (i_lns _ _ Hi); eauto.
  - intros m x (y & Hy & ->)%lookup_alter_Some'. apply (i_wf _ _ Hi) in Hy. by case_decide.
  - intros Ha p. rewrite dom_delete, elem_of_difference, elem_of_singleton. intros [Hp%(i_used _ _ Hi Ha) Hne].
    apply elem_of_dom in Hp. apply elem_of_dom. unfold Ports.Release.
    destruct (Ports.usedPorts (portManager s) !! ln_port ln); [|done]. cbn [Ports.usedPorts].
    by rewrite lookup_delete_ne.
  - intros p e' [Hne He']%lookup_delete_Some. rewrite pending_released.
    rewrite lookup_alter_ne by (apply not_eq_sym; by eapply Hother).
    destruct (i_entry _ _ Hi _ _ He') as [-> ?]. split; [|done]. do 2 f_equal.
    assert (l ∉ pending (lns s) p); [|set_solver]. intros (x & ? & <- & _)%elem_of_pending. naive_solver.
  - intros p p' e1 e2 [_ H1]%lookup_delete_Some [_ H2]%lookup_delete_Some. by apply (i_inj _ _ Hi).
  - intros m x (y & Hy & ->)%lookup_alter_Some'. case_decide as Hd; [done|]. intros Ho.
    destruct (i_open _ _ Hi _ _ Hy Ho) as (p & e' & He' & <-). exists p, e'. split; [|done].
    apply lookup_delete_Some. split; [|done]. intros <-. congruence.
  - intros x y [[<- <-]|[Hne Hy]]%lookup_insert_Some Hyr; [done|].
    destruct (i_ln _ _ Hi _ _ Hy Hyr) as (e' & He' & Hm). exists e'. split; [|done].
    apply lookup_delete_Some. split; [|done]. intros Hp. apply Hne. symmetry. apply Honly, elem_of_pending. eauto.
  - intros x y [[<- <-]|[_ Hy]]%lookup_insert_Some; [done|by apply (i_closed _ _ Hi _ _ Hy)].
  - intros p e' m k [Hne He']%lookup_delete_Some. rewrite lookup_alter_ne by (apply not_eq_sym; by eapply Hother).
    intros Hm. rewrite exists_released by done. by apply (i_route _ _ Hi _ _ _ _ He').
  - intros x x' y y'. by eapply key_released.
Qed.

(** ** What each call does *)

Lemma dom_Release pm t p :
  dom (Ports.usedPorts (Ports.Release pm t p)) = dom (Ports.usedPorts pm) ∖ {[p]}.
Proof.
  unfold Ports.Release. destruct (Ports.usedPorts pm !! p) as [l|] eqn:Hl; cbn [Ports.usedPorts].
  - by rewrite dom_delete_L.
  - apply not_elem_of_dom in Hl. set_solver.
Qed.

Lemma dom_taken pm t n p :
  dom (Ports.usedPorts (Ports.taken pm t n p)) = {[p]} ∪ dom (Ports.usedPorts pm).
Proof. unfold Ports.taken. cbn [Ports.usedPorts]. by rewrite dom_insert_L. Qed.

Lemma once_release_spec allowed e s l ln :
  inv allowed s → lns s !! l = Some ln → ln_closed ln = true →
  let s' := once_release e s l ln in
  inv allowed s' ∧ lns s' = <[l := mark_released ln]> (lns s) ∧ others s' = others s.
Proof.
  intros [Hi Hcn] Hl Hc. cbv zeta. unfold once_release. destruct (ln_released ln) eqn:Hr.
  { split_and!; [done| |done]. rewrite insert_id; [done|]. rewrite Hl. unfold mark_released. rewrite <-Hr.
    by destruct ln. }
  destruct (i_ln _ _ Hi _ _ Hl Hr) as (en & Hen & _). unfold release. rewrite Hen. cbv zeta. cbn [refs muxer].
  pose proof (Hcn _ _ Hen) as Hpos. destruct (Z.leb_spec (refs en - 1) 0) as [Hle|Hgt]; cbn.
  - split_and!; [split|done|].
    + eapply inv0_teardown; try done. lia.
    + unfold counted. cbn [muxers]. intros p e' [_ He']%lookup_delete_Some. by eapply Hcn.
    + unfold others. cbn [portManager muxers]. rewrite dom_Release, dom_delete_L.
      apply elem_of_dom_2 in Hen. apply set_eq. intros x. destruct (decide (x = ln_port ln)); set_solver.
  - split_and!; [split|done|].
    + by eapply inv0_decrement.
    + unfold counted. cbn [muxers].
      intros p e' [[_ <-]|[_ He']]%lookup_insert_Some; [cbn; lia|by eapply Hcn].
    + unfold others. cbn [portManager muxers]. rewrite dom_insert_L. apply elem_of_dom_2 in Hen. set_solver.
Qed.

(** With a given port, the order of the free ports does not matter. *)
Lemma Acquire_order pm t av o o' name port :
  port ≠ 0 → Ports.Acquire pm t av o name port = Ports.Acquire pm t av o' name port.
Proof. intros Hp. unfold Ports.Acquire. by rewrite (proj2 (Z.eqb_neq _ _) Hp). Qed.

Lemma Acquire_port allowed pm t av o name port pm' r :
  pm_ok allowed pm → port ≠ 0 → Ports.Acquire pm t av o name port = (pm', r) →
  pm_ok allowed pm' ∧
  ((∃ er, r = Err er ∧ (is_Some allowed → dom (Ports.usedPorts pm') = dom (Ports.usedPorts pm))) ∨
   r = Ok port ∧ (is_Some allowed → port ∉ dom (Ports.usedPorts pm) ∧
   dom (Ports.usedPorts pm') = {[port]} ∪ dom (Ports.usedPorts pm))).
Proof.
  intros Hwf Hp Ha. destruct allowed as [allowed|].
  2:{ split; [done|]. unfold Ports.Acquire in Ha. rewrite (proj2 (Z.eqb_neq _ _) Hp) in Ha.
      repeat case_match; simplify_eq; first [right; split; [done|by intros [? ?]]|left; eexists; split; [done|by intros [? ?]]]. }
  rewrite (Acquire_order _ _ _ o (elements (Ports.freePorts pm))) in Ha by done.
  apply (Ports.Acquire_cases allowed) in Ha as [(er & -> & ->)|(p & -> & -> & _ & Hin & Heq & Hfree)]; try done.
  - split; [by apply Ports.wf_new_ctx|]. left. by exists er.
  - destruct Heq as [?| ->]; [done|]. destruct Hfree as [Hfree|[? _]]; [|done].
    split; [by apply Ports.wf_taken|]. right. split; [done|]. intros _. split; [|apply dom_taken].
    pose proof (Ports.wf_disj _ _ Hwf). set_solver.
Qed.

Lemma entry_of_spec allowed e s port s' r :
  inv allowed s → port ≠ 0 → entry_of e s port = (s', r) →
  lns s' = lns s ∧ (is_Some allowed → others s' = others s) ∧
  match r with
  | Err _ => inv allowed s'
  | Ok en => inv0 allowed s' ∧ muxers s' !! port = Some en ∧
      (∀ p e', p ≠ port → muxers s' !! p = Some e' → 0 < refs e') ∧
      (0 < refs en ∨ refs en = 0 ∧ heap s' !! muxer en = Some (mkMuxer ∅ true))
  end.
Proof.
  intros [Hi Hcn] Hp. unfold entry_of. destruct (muxers s !! port) as [en|] eqn:Hen.
  { intros [= <- <-]. split_and!; try done; [intros; by eapply Hcn|left; by eapply Hcn]. }
  destruct (Ports.Acquire _ _ _ _ _ _) as [pm o] eqn:Ha.
  apply (Acquire_port allowed) in Ha as [Hwf [(er & -> & Hd)|(-> & Hd)]]; [..|by apply Hi|done].
  - intros [= <- <-]. split_and!; [done|intros Ho; unfold others; cbn [set_pm portManager muxers]; by rewrite Hd|].
    split; [|done]. apply inv0_set_pm; [done..|]. intros Ho p. rewrite (Hd Ho). by apply (i_used _ _ Hi).
  - destruct (negb (listen_ok e)); intros [= <- <-].
    + assert (is_Some allowed → dom (Ports.usedPorts (Ports.Release pm (now e) port)) = dom (Ports.usedPorts (portManager s))) as Hd'.
      { intros Ho. destruct (Hd Ho) as [Hnu Heq]. rewrite dom_Release, Heq. set_solver. }
      split_and!; [done|intros Ho; unfold others; cbn [set_pm portManager muxers]; by rewrite Hd'|].
      split; [|done]. apply inv0_set_pm; [done|by apply pm_ok_Release|].
      intros Ho p. rewrite (Hd' Ho). by apply (i_used _ _ Hi).
    + split_and!; [done| | |cbn [muxers]; by rewrite lookup_insert_eq| |].
      * intros Ho. destruct (Hd Ho) as [Hnu Heq]. unfold others. cbn [portManager muxers]. rewrite Heq, dom_insert_L.
        apply not_elem_of_dom in Hen. set_solver.
      * apply inv0_open; try done.
        -- intros l Hl. by apply not_elem_of_dom in Hen as []; apply (entry_pending allowed); [split|eauto].
        -- intros Ho p. destruct (Hd Ho) as [Hnu Heq]. rewrite Heq. intros [?%(i_used _ _ Hi Ho)| ->]; set_solver.
      * intros p e' Hne. cbn [muxers]. rewrite lookup_insert_ne by done. by apply Hcn.
      * right. cbn [refs muxer heap]. by rewrite lookup_insert_eq.
Qed.

(** [Listen]: a new listener on the port, or nothing changes but the time of
    the port's reservation. *)
Lemma Listen_spec allowed e s port q s' r :
  inv allowed s → port ≠ 0 → Listen e s port q = (s', r) →
  inv allowed s' ∧ (is_Some allowed → others s' = others s) ∧
  match r with
  | Err _ => lns s' = lns s
  | Ok l => lns s !! l = None ∧ ∃ m,
      lns s' = <[l := mkLn m (ToLower (Group.mq_Domain q), Group.mq_Location q, Group.mq_RouteByHTTPUser q)
                        port false false]> (lns s)
  end.
Proof.
  intros Hinv Hp. unfold Listen. destruct (entry_of e s port) as [s1 [en|er]] eqn:He;
    apply (entry_of_spec allowed) in He as (Hlns & Ho & Hrest); try done; [|by intros [= <- <-]].
  destruct Hrest as (Hi & Hen & Hcn & Hcase). destruct (i_entry _ _ Hi _ _ Hen) as (_ & m & Hm & _).
  rewrite Hm. destruct (mux_Listen (mx_routes m) q) as [r1 [k|er]] eqn:Hl; intros [= <- <-].
  - assert (k = (ToLower (Group.mq_Domain q), Group.mq_Location q, Group.mq_RouteByHTTPUser q)) as ->.
    { unfold mux_Listen in Hl. by destruct (Vhost.Add _ _ _ _ _); simplify_eq. }
    split_and!; [split|..].
    + by eapply inv0_add.
    + unfold counted. cbn [muxers].
      intros p e' [[<- <-]|[Hne He']]%lookup_insert_Some; [cbn; lia|by eapply Hcn].
    + intros Hal. rewrite <-(Ho Hal). unfold others. cbn [portManager muxers]. rewrite dom_insert_L.
      apply elem_of_dom_2 in Hen. set_solver.
    + rewrite <-Hlns. by eapply next_lns.
    + eexists. cbn [lns]. by rewrite Hlns.
  - destruct Hcase as [Hpos|[_ Hfresh]].
    + destruct (Z.eqb_spec (refs en) 0); [lia|]. split_and!; [|done..]. split; [done|].
      intros p e' He'. destruct (decide (p = port)) as [->|Hne]; [congruence|by eapply Hcn].
    + rewrite Hfresh in Hm. injection Hm as <-. unfold mux_Listen, Vhost.Add in Hl. by simplify_eq.
Qed.

Lemma close_route_spec allowed e s l ln :
  inv allowed s → lns s !! l = Some ln → ln_closed ln = false → inv allowed (close_route e s l ln).
Proof. intros [Hi Hc] Hl Hcl. split; [by apply inv0_close_route|exact Hc]. Qed.

Lemma ln_Close_spec allowed e s l ln :
  inv allowed s → lns s !! l = Some ln → ln_closed ln = false →
  let s' := ln_Close e s l in
  inv allowed s' ∧ others s' = others s ∧
  lns s' = <[l := mkLn (ln_mux ln) (ln_key ln) (ln_port ln) true true]> (lns s).
Proof.
  intros Hi Hl Hc. cbv zeta. unfold ln_Close. rewrite Hl. cbn zeta.
  pose proof (close_route_spec _ e _ _ _ Hi Hl Hc) as Hi1. set (s1 := close_route e s l ln) in *.
  assert (lns s1 !! l = Some (mkLn (ln_mux ln) (ln_key ln) (ln_port ln) true (ln_released ln))) as Hl1.
  { apply lookup_insert_eq. }
  rewrite Hl1. destruct (once_release_spec allowed e s1 l _ Hi1 Hl1 eq_refl) as (Hi2 & -> & ->).
  split_and!; [done..|]. cbn. by rewrite insert_insert_eq.
Qed.

Lemma mc_inv_step kept allowed s s' : (is_Some allowed → kept = true) → inv allowed s → mcstep kept s s' → inv allowed s'.
Proof.
  intros Hk Hi Hs. destruct Hs as [e s port q Hp|e s l ln Hl Hc|e s l ln Hl Hc|s pm Hst].
  - destruct (Listen e s port q) as [s' r] eqn:Hl. by apply (Listen_spec allowed) in Hl as [? _].
  - by apply close_route_spec.
  - by apply (once_release_spec allowed e) in Hl as [? _].
  - destruct Hi as [Hi Hc]. split; [|exact Hc]. apply inv0_set_pm; [done| |].
    + destruct allowed as [a|]; [|done]. eapply Ports.ports_wf_step; [apply (i_ports _ _ Hi)|]. apply Hst, Hk. by eexists.
    + intros Ho. apply Hst, Hk, Ho.
Qed.

Lemma mc_inv_reachable kept pm s : mcreachable kept pm s → inv None s.
Proof.
  intros Hr. eapply (rtc_invariant (mcstep kept)); [|exact Hr|by apply inv0_New].
  intros s1 s2. apply mc_inv_step. by intros [? ?].
Qed.

Lemma mc_inv_kept allowPorts s :
  0 ∉ Ports.initial_ports allowPorts → mcreachable true (Ports.NewManager allowPorts) s →
  inv (Some (Ports.initial_ports allowPorts)) s.
Proof.
  intros Hz Hr. eapply (rtc_invariant (mcstep true)); [|exact Hr|by apply inv0_New, Ports.ports_wf_New].
  intros s1 s2. by apply mc_inv_step.
Qed.

(** ** What players and other proxies see *)

(** A player who asks for [k] on port [p] reaches an open muxer with a route. *)
Definition serves (s : Ctl) (p : Z) (k : key) : Prop :=
  ∃ en m, muxers s !! p = Some en ∧ heap s !! muxer en = Some m ∧ mx_open m = true ∧ routed (mx_routes m) k.

Definition open_at (s : Ctl) (p : Z) (k : key) : Prop :=
  ∃ l ln, lns s !! l = Some ln ∧ ln_closed ln = false ∧ ln_port ln = p ∧ ln_key ln = k.

Lemma serves_open allowed s p k : inv allowed s → serves s p k ↔ open_at s p k.
Proof.
  intros [Hi _]. split.
  - intros (en & m & Hen & Hm & _ & Hk). by apply (i_route _ _ Hi _ _ _ k Hen Hm).
  - intros (l & ln & Hl & Hc & <- & <-).
    assert (ln_released ln = false) as Hr.
    { destruct (ln_released ln) eqn:Hr; [|done]. by rewrite (i_closed _ _ Hi _ _ Hl Hr) in Hc. }
    destruct (i_ln _ _ Hi _ _ Hl Hr) as (en & Hen & _). destruct (i_entry _ _ Hi _ _ Hen) as (_ & m & Hm & Ho).
    exists en, m. split_and!; try done. apply (i_route _ _ Hi _ _ _ _ Hen Hm). by exists l, ln.
Qed.

Definition same_view (s s' : Ctl) : Prop :=
  (∀ p k, serves s' p k ↔ serves s p k) ∧
  dom (Ports.usedPorts (portManager s')) = dom (Ports.usedPorts (portManager s)).

(** [s] is [s0] with the listeners [ls] opened, and others come and gone. *)
Record opened (allowed : option (gset Z)) (s0 s : Ctl) (ls : list nat) : Prop := {
  o_inv : inv allowed s;
  o_others : is_Some allowed → others s = others s0;
  o_new : ∀ x, x ∈ ls → lns s0 !! x = None ∧ ∃ ln, lns s !! x = Some ln ∧ ln_closed ln = false;
  o_old : ∀ x, x ∉ ls → lns s !! x = lns s0 !! x ∨
    lns s0 !! x = None ∧ ∃ ln, lns s !! x = Some ln ∧ ln_closed ln = true ∧ ln_released ln = true;
  o_nodup : NoDup ls
}.

Lemma used_others allowed s :
  inv allowed s → is_Some allowed → dom (Ports.usedPorts (portManager s)) = others s ∪ dom (muxers s).
Proof.
  intros [Hi _] Ha. unfold others. apply set_eq. intros p. pose proof (i_used _ _ Hi Ha p).
  destruct (decide (p ∈ dom (muxers s))); set_solver.
Qed.

Lemma opened_nil allowed s0 s : is_Some allowed → inv allowed s0 → opened allowed s0 s [] → same_view s0 s.
Proof.
  intros Ha Hi0 [Hi Hoth _ Hold _].
  assert (∀ x ln, lns s !! x = Some ln → ln_closed ln = false ∨ ln_released ln = false → lns s0 !! x = Some ln) as H1.
  { intros x ln Hx Hc. destruct (Hold x (not_elem_of_nil _)) as [<-|(_ & y & Hy & ? & ?)]; [done|].
    assert (y = ln) as -> by congruence. destruct Hc; congruence. }
  assert (∀ x ln, lns s0 !! x = Some ln → lns s !! x = Some ln) as H2.
  { intros x ln Hx. destruct (Hold x (not_elem_of_nil _)) as [->|(? & _)]; [done|congruence]. }
  split.
  - intros p k. rewrite !(serves_open allowed) by done. unfold open_at.
    split; intros (l & ln & Hl & Hc & ?); exists l, ln; eauto.
  - rewrite !(used_others allowed), Hoth by done. f_equal. apply set_eq. intros p.
    rewrite !(entry_pending allowed) by done. setoid_rewrite elem_of_pending.
    split; intros (l & ln & Hl & ? & Hr); exists l, ln; eauto.
Qed.

Lemma opened_close allowed e s0 s l ls :
  opened allowed s0 s (l :: ls) → opened allowed s0 (ln_Close e s l) ls.
Proof.
  intros [Hi Hoth Hnew Hold Hnd]. apply NoDup_cons in Hnd as [Hnl Hnd].
  destruct (Hnew l) as (Hn0 & ln & Hln & Hc); [left|].
  destruct (ln_Close_spec allowed e s l ln Hi Hln Hc) as (Hi' & Ho' & Hl').
  split; [done|intros Ha; rewrite Ho'; auto|..|done]; rewrite Hl'.
  - intros x Hx. rewrite lookup_insert_ne by (intros ->; done). apply Hnew. by right.
  - intros x Hx. destruct (decide (x = l)) as [->|Hne].
    + right. rewrite lookup_insert_eq. split; [done|]. by eexists.
    + rewrite lookup_insert_ne by done. apply Hold. set_solver.
Qed.

Lemma opened_close_all allowed env s0 s ls :
  is_Some allowed → inv allowed s0 → opened allowed s0 s ls → same_view s0 (close_all env s ls).
Proof.
  intros Ha Hi. revert s. induction ls as [|l ls IH]; intros s Ho; cbn; [by eapply opened_nil|].
  by apply IH, opened_close.
Qed.

Lemma opened_Listen allowed e s0 s ls port q s' l :
  opened allowed s0 s ls → port ≠ 0 → Listen e s port q = (s', Ok l) →
  opened allowed s0 s' (ls ++ [l]) ∧ (∀ x ln, lns s !! x = Some ln → lns s' !! x = Some ln) ∧
  ∃ m, lns s' !! l = Some (mkLn m (ToLower (Group.mq_Domain q), Group.mq_Location q, Group.mq_RouteByHTTPUser q)
                             port false false).
Proof.
  intros [Hi Hoth Hnew Hold Hnd] Hp Hl.
  apply (Listen_spec allowed) in Hl as (Hi' & Ho' & Hfresh & m & Hlns); try done.
  split_and!; [split|..]; try done.
  - intros Ha. rewrite (Ho' Ha). auto.
  - intros x [Hx| ->%list_elem_of_singleton]%elem_of_app; rewrite Hlns.
    + destruct (Hnew x Hx) as (? & ln & ? & ?). split; [done|]. exists ln.
      rewrite lookup_insert_ne; [done|congruence].
    + split; [|eexists; by rewrite lookup_insert_eq].
      destruct (decide (l ∈ ls)) as [Hin|Hin]; [by destruct (Hnew _ Hin)|].
      destruct (Hold l Hin) as [<-|[? _]]; done.
  - intros x Hx. rewrite Hlns. rewrite lookup_insert_ne by set_solver. apply Hold. set_solver.
  - apply NoDup_app. split_and!; [done| |by apply NoDup_singleton].
    intros x Hx ->%list_elem_of_singleton. destruct (Hnew l Hx) as (_ & ln & ? & _). congruence.
  - intros x ln Hx. rewrite Hlns, lookup_insert_ne; [done|congruence].
  - exists m. by rewrite Hlns, lookup_insert_eq.
Qed.

Lemma opened_failed allowed e s0 s ls port q s' er :
  opened allowed s0 s ls → port ≠ 0 → Listen e s port q = (s', Err er) → opened allowed s0 s' ls.
Proof.
  intros [Hi Hoth Hnew Hold Hnd] Hp Hl. apply (Listen_spec allowed) in Hl as (Hi' & Ho' & Hlns); try done.
  split; rewrite ?Hlns; try done. intros Ha. rewrite (Ho' Ha). auto.
Qed.

Lemma listen_all_spec allowed env s0 s port domains ls s' ls' oe :
  opened allowed s0 s ls → port ≠ 0 → listen_all env s port domains ls = (s', ls', oe) →
  opened allowed s0 s' ls' ∧ (∀ x ln, lns s !! x = Some ln → lns s' !! x = Some ln) ∧
  (oe = None → length ls' = (length ls + length domains)%nat ∧
     ∀ d, d ∈ domains → open_at s' port (ToLower d, "", "")).
Proof.
  intros Ho Hp. revert s ls Ho. induction domains as [|d domains IH]; intros s ls Ho; cbn.
  { intros [= <- <- <-]. split_and!; try done. intros _. split; [lia|]. by intros ? ?%not_elem_of_nil. }
  destruct (Listen _ s port _) as [s1 [l|er]] eqn:Hl; intros Hrest.
  - apply (opened_Listen allowed _ s0 s ls) in Hl as (Ho1 & Hmono & m & Hnew); try done.
    apply (IH _ _ Ho1) in Hrest as (Ho2 & Hmono2 & Hok). split_and!; [done|eauto|].
    intros Hoe. destruct (Hok Hoe) as [Hlen Hall]. split; [rewrite Hlen, length_app; cbn; lia|].
    intros d' [->|Hd]%elem_of_cons; [|by apply Hall]. exists l. eexists. split; [by apply Hmono2|done].
  - injection Hrest as <- <- <-. split_and!; [by eapply opened_failed| |done].
    apply (Listen_spec allowed) in Hl as (_ & _ & ->); [done|by apply Ho|done].
Qed.

(** ** Properties *)

Lemma teardown_CloseAll e l s :
  let s' := CloseAll e s l in
  lns s' = lns s ∧
  (∀ p, muxers s' !! p = if decide (p ∈ l.*1) then None else muxers s !! p) ∧
  (∀ m, heap s' !! m = (λ x, mkMuxer (mx_routes x) (mx_open x && bool_decide (m ∉ muxer <$> l.*2))) <$> heap s !! m) ∧
  (∀ p, p ∈ dom (Ports.usedPorts (portManager s')) ↔ p ∈ dom (Ports.usedPorts (portManager s)) ∧ p ∉ l.*1).
Proof.
  revert s. induction l as [|[p en] l IH]; intros s; cbn zeta.
  { cbn. split_and!; [done| | |set_solver].
    - done.
    - intros m. destruct (heap s !! m) as [[r o]|]; cbn; [|done]. by rewrite bool_decide_true, andb_true_r by apply not_elem_of_nil. }
  destruct (IH (teardown e s p (muxer en))) as (H1 & H2 & H3 & H4). cbn. unfold CloseAll in *. split_and!.
  - by rewrite H1.
  - intros q. rewrite H2. cbn. destruct (decide (q ∈ l.*1)) as [Hq|Hq]; [rewrite decide_True; [done|set_solver]|].
    destruct (decide (q = p)) as [->|Hne]; [rewrite decide_True by set_solver; apply lookup_delete_eq|].
    rewrite decide_False by set_solver. by rewrite lookup_delete_ne.
  - intros m. rewrite H3. cbn. destruct (decide (m = muxer en)) as [->|Hne].
    + rewrite lookup_alter_eq. destruct (heap s !! muxer en) as [x|]; [|done]. cbn. f_equal. f_equal.
      rewrite (bool_decide_false (muxer en ∉ _)), andb_false_r; [done|]. intros Hx. apply Hx. left.
    + rewrite lookup_alter_ne by done. destruct (heap s !! m) as [x|]; [|done]. cbn. do 2 f_equal. f_equal.
      apply bool_decide_ext. set_solver.
  - intros q. rewrite H4. cbn [teardown portManager]. rewrite dom_Release. set_solver.
Qed.

(** C12. The Minecraft controller, in every interleaving of its calls (opening a
    listener for a name on a port, the two halves of closing one), on any port but
    0, which the server's validation refuses, and with the shared port manager
    changing in any way in between: (1) it has a muxer for a port exactly while
    some listener on that port has not released it; (2) every open muxer is that
    of such a port; (3) a player reaches a name on a port exactly if an open
    listener has that name on that port, and (4) a name on a port has one open
    listener. (5) If the other users of the port manager leave the ports of the
    controller acquired, and 0 is not an allowed port, these ports are in use at
    the manager; as the manager hands out reserved ports that are in use, and
    tcp+udp proxies release their port twice, that is not always so. (6) When the
    server shuts down, [CloseAll] leaves no muxer open, releases every port of the
    controller, and the listeners that are closed afterwards change nothing but
    themselves; what a call of [Listen] after it does is not covered. *)
Theorem minecraft_ports_shared (kept : bool) (pm : Ports.Manager) (s : Ctl) :
  mcreachable kept pm s →
  (∀ p, p ∈ dom (muxers s) ↔ ∃ l ln, lns s !! l = Some ln ∧ ln_port ln = p ∧ ln_released ln = false) ∧
  (∀ m x, heap s !! m = Some x → mx_open x = true → ∃ p en, muxers s !! p = Some en ∧ muxer en = m) ∧
  (∀ p k, serves s p k ↔ open_at s p k) ∧
  (∀ l l' ln ln', lns s !! l = Some ln → lns s !! l' = Some ln' → ln_closed ln = false → ln_closed ln' = false →
     ln_port ln = ln_port ln' → ln_key ln = ln_key ln' → l = l') ∧
  (∀ allowPorts, kept = true → pm = Ports.NewManager allowPorts → 0 ∉ Ports.initial_ports allowPorts →
     ∀ p, p ∈ dom (muxers s) → p ∈ dom (Ports.usedPorts (portManager s))) ∧
  (∀ e es, es ≡ₚ map_to_list (muxers s) →
     let s' := CloseAll e s es in
     muxers s' = ∅ ∧ (∀ m x, heap s' !! m = Some x → mx_open x = false) ∧
     (∀ p, p ∈ dom (Ports.usedPorts (portManager s')) ↔
        p ∈ dom (Ports.usedPorts (portManager s)) ∧ p ∉ dom (muxers s)) ∧
     ∀ l ln, let s2 := once_release e s' l ln in
       portManager s2 = portManager s' ∧ muxers s2 = muxers s' ∧ heap s2 = heap s').
Proof.
  intros Hr. pose proof (mc_inv_reachable _ _ _ Hr) as Hi. split_and!.
  - intros p. rewrite (entry_pending _ _ _ Hi). by setoid_rewrite elem_of_pending.
  - apply (i_open _ _ (proj1 Hi)).
  - intros p k. by eapply serves_open.
  - apply (i_key _ _ (proj1 Hi)).
  - intros allowPorts -> -> H0. destruct (mc_inv_kept _ _ H0 Hr) as [Hk _]. apply (i_used _ _ Hk). by eexists.
  - intros e es Hes s'. destruct (teardown_CloseAll e es s) as (Hl & Hm & Hh & Hu). fold s' in Hl, Hm, Hh, Hu.
    assert (∀ p, p ∈ es.*1 ↔ p ∈ dom (muxers s)) as Hdom by (intros p; rewrite Hes, list_elem_of_fmap, elem_of_dom; split; [intros ([q en] & -> & ?%elem_of_map_to_list); by eexists|intros [en ?]; exists (p, en); split; [done|by apply elem_of_map_to_list]]).
    assert (muxers s' = ∅) as Hmt.
    { apply map_empty. intros p. rewrite Hm. case_decide as Hd; [done|]. apply not_elem_of_dom. by rewrite <-Hdom. }
    split_and!; [done| | |].
    + intros m x Hx. rewrite Hh in Hx. destruct (heap s !! m) as [y|] eqn:Hy; [|done]. injection Hx as <-. cbn.
      destruct (mx_open y) eqn:Ho; [cbn|done]. destruct (i_open _ _ (proj1 Hi) _ _ Hy Ho) as (p & en & Hen & Hme).
      apply bool_decide_eq_false. intros Hn. apply Hn. rewrite <-Hme. apply list_elem_of_fmap. exists en. split; [done|].
      rewrite Hes. apply list_elem_of_fmap. exists (p, en). split; [done|]. by apply elem_of_map_to_list.
    + intros p. by rewrite Hu, Hdom.
    + intros l ln. cbn zeta. unfold once_release, release. destruct (ln_released ln); [done|]. by rewrite Hmt, lookup_empty.
Qed.

(** Running a Minecraft proxy is all or nothing: if one of its names is taken
    or the port cannot be had, players and the port manager see what they saw
    before; if it runs, each of its names is served on its port, and closing it
    brings the former state back, the port free again if it was the last one
    on it. *)
Theorem mc_run_all_or_nothing (allowPorts : list Ports.PortsRange) (s : Ctl) (env : nat → Env)
    (cfg : Config.MCProxyConfig) (scfg : Config.ServerConfig) :
  0 ∉ Ports.initial_ports allowPorts → mcreachable true (Ports.NewManager allowPorts) s →
  Config.validateMCProxyConfigForServer cfg scfg = None →
  match MC_Run env s cfg scfg with
  | (s', Err _) => same_view s s'
  | (s', Ok (listeners, _)) =>
      length listeners = length (DomainProxies.domains_of (Config.mc_Domain cfg) scfg) ∧
      (∀ d, d ∈ DomainProxies.domains_of (Config.mc_Domain cfg) scfg →
         serves s' (Config.mc_RemotePort cfg) (ToLower d, "", "")) ∧
      same_view s (MC_Close env s' listeners)
  end.
Proof.
  intros Hz Hr Hv. pose proof (mc_inv_kept _ _ Hz Hr) as Hi. unfold MC_Run.
  assert (Config.mc_RemotePort cfg ≠ 0) as Hp.
  { intros Hp. unfold Config.validateMCProxyConfigForServer in Hv. by rewrite Hp in Hv. }
  destruct (listen_all env s _ _ []) as [[s' ls] oe] eqn:Hl.
  apply (listen_all_spec (Some (Ports.initial_ports allowPorts)) env s) in Hl as (Ho & _ & Hok); [..|done].
  2:{ split; try done; [intros x []%not_elem_of_nil|by left|constructor]. }
  destruct oe as [er|]; [by eapply opened_close_all|]. destruct (Hok eq_refl) as [Hlen Hall].
  split_and!; [done| |by eapply opened_close_all].
  intros d Hd. apply (serves_open (Some (Ports.initial_ports allowPorts))); [apply Ho|by apply Hall].
Qed.

(** ** Witnesses: two proxies on one port, the second asking for a taken name. *)

Definition demo_env : nat → Env := λ _, mkEnv 7 (λ _, true) [] true.
Definition demo_s0 : Ctl := NewMinecraftGroupController Ports.demo0.
Definition demo_s1 : Ctl := (Listen (demo_env 0) demo_s0 6000 (mkMuxReq "a.com" "" "" "" "")).1.
Definition demo_cfg : Config.MCProxyConfig :=
  Config.mkMC (Config.set_Type Config.zero_base "mc") (Config.mkDomainConfig ["b.com"; "A.com"] "") 6000.

Lemma demo_s1_mcreachable : mcreachable true (Ports.NewManager Ports.demo_allow) demo_s1.
Proof. apply rtc_once, McListen. done. Qed.

Lemma minecraft_ports_shared_witness :
  serves demo_s1 6000 ("a.com", "", "") ∧ 6000 ∈ dom (Ports.usedPorts (portManager demo_s1)).
Proof.
  destruct (minecraft_ports_shared true (Ports.NewManager Ports.demo_allow) demo_s1 demo_s1_mcreachable)
    as (Hd & _ & Hs & _ & Hu & _).
  split.
  - apply Hs. exists 1%nat. eexists. split; [vm_compute; reflexivity|]. done.
  - apply (Hu Ports.demo_allow eq_refl eq_refl Ports.demo_zero), Hd. exists 1%nat. eexists. split; [vm_compute; reflexivity|]. done.
Defined.

Lemma mc_run_all_or_nothing_witness :
  same_view demo_s1 (MC_Run demo_env demo_s1 demo_cfg Config.demo_server).1.
Proof.
  pose proof (mc_run_all_or_nothing Ports.demo_allow demo_s1 demo_env demo_cfg Config.demo_server
    Ports.demo_zero demo_s1_mcreachable eq_refl) as H.
  destruct (MC_Run demo_env demo_s1 demo_cfg Config.demo_server) as [s' [[ls a]|er]] eqn:Hr; [|exact H].
  exfalso. apply (f_equal (λ x, is_ok x.2)) in Hr. vm_compute in Hr. discriminate.
Defined.
End MCGroup.
