(* ===== verification/SecretProxies.v ===== *)
(** Secret proxies: the visitor manager of server/visitor/visitor.go with the
    internal listeners of pkg/util/net/listener.go, [RegisterVisitorConn] of
    server/service.go, and the server side of stcp, sudp, stcp+sudp, xtcp, xudp
    and xtcp+xudp proxies in server/proxy.

    A visitor's connection names a proxy, is signed with the proxy's secret, and
    is put into the queue of the proxy's internal listener, from which the proxy
    accepts it. Listeners are objects in a heap. The hole-punching proxies
    register with the controller of [NatController] instead, or, for xtcp+xudp,
    as well. *)
From Stdlib Require Import ZArith Lia String.
From stdpp Require Import base gmap strings list fin_maps relations.
From S2P Require Import Prelude GoLib Wire Msg Registry Sessions Nathole NatController ConfigTypes Config.

Local Open Scope Z_scope.
Local Open Scope frp_scope.

Module SecretProxies.
Import NatController (Controller, clientCfgs, ListenClient, CloseClient).

(** ** Internal listeners *)

(** A connection as the manager hands it on: the visitor's connection, the
    secret it is encrypted with if it is, whether it is compressed and its wire
    protocol; [vc_msg] and [vc_user] are what it was admitted for. *)
Record VisitorConn := mkVisitorConn {
  vc_conn : nat; vc_encrypted : option string; vc_compressed : bool; vc_wireProtocol : string;
  vc_msg : Msg.NewVisitorConn; vc_user : string }.

Record InternalListener := mkListener { acceptCh : list VisitorConn; closed : bool }.

Definition NewInternalListener : InternalListener := mkListener [] false.

Definition acceptCap : nat := 128.

(** [PutConn]: whether it closed the connection, as it does when the channel is
    full, and whether it succeeded, which it does then too. *)
Definition PutConn (l : InternalListener) (c : VisitorConn) : InternalListener * bool * bool :=
  if closed l then (l, false, false)
  else if bool_decide (length (acceptCh l) < acceptCap)%nat then (mkListener (acceptCh l ++ [c]) false, false, true)
  else (l, true, true).

(** [Accept]: [None] while it would wait. *)
Definition Accept (l : InternalListener) : option (InternalListener * option VisitorConn) :=
  match acceptCh l with
  | c :: q => Some (mkListener q (closed l), Some c)
  | [] => if closed l then Some (l, None) else None
  end.

Definition il_Close (l : InternalListener) : InternalListener := mkListener (acceptCh l) true.

(** ** The manager *)

Record listenerBundle := mkBundle { b_l : nat; b_sk : string; b_allowUsers : list string }.

Record Manager := mkManager {
  listeners : gmap string listenerBundle; ils : gmap nat InternalListener; nextIL : nat }.

Definition NewManager : Manager := mkManager ∅ ∅ 0.

Inductive error :=
| ErrRepeated (name : string)
| ErrAuthFailed (name : string)
| ErrUserNotAllowed (name user : string)
| ErrEncryption
| ErrPut
| ErrNoListener (name : string)
| ErrNoControl (runID : string)
| ErrNoNatHole
| ErrNatHole (text : string).

Definition Listen (vm : Manager) (name sk : string) (allowUsers : list string) : Manager * res error nat :=
  match listeners vm !! name with
  | Some _ => (vm, Err (ErrRepeated name))
  | None =>
      let l := nextIL vm in
      (mkManager (<[name := mkBundle l sk allowUsers]> (listeners vm))
         (<[l := NewInternalListener]> (ils vm)) (S l), Ok l)
  end.

Definition CloseListener (vm : Manager) (name : string) : Manager :=
  mkManager (delete name (listeners vm)) (ils vm) (nextIL vm).

Section Ops.
(** The hexadecimal MD5 of a string. *)
Variable md5hex : string → string.

(** [NewConn]; [enc_ok]: setting up the encryption succeeds. The second result:
    whether the connection was closed. *)
Definition NewConn (vm : Manager) (conn : nat) (m : Msg.NewVisitorConn) (visitorUser wireProtocol : string)
    (enc_ok : bool) : Manager * bool * option error :=
  let name := Msg.nvc_ProxyName m in
  match listeners vm !! name with
  | None => (vm, false, Some (ErrNoListener name))
  | Some b =>
      if negb (String.eqb (NatController.GetAuthKey md5hex (b_sk b) (Msg.nvc_Timestamp m)) (Msg.nvc_SignKey m))
      then (vm, false, Some (ErrAuthFailed name))
      else if negb (bool_decide (visitorUser ∈ b_allowUsers b)) && negb (bool_decide ("*" ∈ b_allowUsers b))
      then (vm, false, Some (ErrUserNotAllowed name visitorUser))
      else if Msg.nvc_UseEncryption m && negb enc_ok then (vm, false, Some ErrEncryption)
      else
        match ils vm !! b_l b with
        | None => (vm, false, Some ErrPut)
        | Some il =>
            let c := mkVisitorConn conn (if Msg.nvc_UseEncryption m then Some (b_sk b) else None)
                       (Msg.nvc_UseCompression m) wireProtocol m visitorUser in
            let '(il, discarded, ok) := PutConn il c in
            (mkManager (listeners vm) (<[b_l b := il]> (ils vm)) (nextIL vm), discarded, if ok then None else Some ErrPut)
        end
  end.

(** The user of a visitor's connection: of the control its run id names, or
    none for old clients that send no run id. *)
Definition visitor_user (svc : Sessions.Service) (runID : string) : res error string :=
  if String.eqb runID "" then Ok ""
  else match Sessions.ctlsByRunID svc !! runID ≫= λ c, Sessions.heap svc !! c with
       | None => Err (ErrNoControl runID)
       | Some s => Ok (Registry.l_user (Sessions.LoginMsg (Sessions.ctl s)))
       end.

Definition RegisterVisitorConn (svc : Sessions.Service) (vm : Manager) (conn : nat) (m : Msg.NewVisitorConn)
    (wireProtocol : string) (enc_ok : bool) : Manager * bool * option error :=
  match visitor_user svc (Msg.nvc_RunID m) with
  | Err e => (vm, false, Some e)
  | Ok user => NewConn vm conn m user wireProtocol enc_ok
  end.

(** ** The proxies *)

(** The resources of the server the proxies use; no hole-punching controller is
    a nil pointer. *)
Record Rc := mkRc { VisitorManager : Manager; NatHoleController : option Controller }.

Definition set_vm (rc : Rc) (vm : Manager) : Rc := mkRc vm (NatHoleController rc).

(** A proxy object: its name and user, its listeners. *)
Record Base := mkBase { p_name : string; p_user : string; p_listeners : list nat }.

(** [if len(allowUsers) == 0]: only the proxy's own user. *)
Definition effective_users (user : string) (allowUsers : list string) : list string :=
  match allowUsers with [] => [user] | _ => allowUsers end.

Definition startVisitorListener (rc : Rc) (p : Base) (secretKey : string) (allowUsers : list string) :
    Rc * Base * option error :=
  match Listen (VisitorManager rc) (p_name p) secretKey (effective_users (p_user p) allowUsers) with
  | (vm, Err e) => (set_vm rc vm, p, Some e)
  | (vm, Ok l) => (set_vm rc vm, mkBase (p_name p) (p_user p) (p_listeners p ++ [l]), None)
  end.

(** [NatHoleController.ListenClient]. *)
Definition listen_client (rc : Rc) (p : Base) (secretKey : string) (allowUsers : list string) :
    Rc * option error :=
  match NatHoleController rc with
  | None => (rc, Some ErrNoNatHole)
  | Some c =>
      let '(c, r) := ListenClient c (p_name p) secretKey (effective_users (p_user p) allowUsers) in
      (mkRc (VisitorManager rc) (Some c), match r with Ok _ => None | Err t => Some (ErrNatHole t) end)
  end.

Definition STCP_Run (rc : Rc) (p : Base) (cfg : Config.STCPProxyConfig) : Rc * Base * option error :=
  startVisitorListener rc p (Config.stcp_Secretkey cfg) (Config.stcp_AllowUsers cfg).
Definition SUDP_Run (rc : Rc) (p : Base) (cfg : Config.SUDPProxyConfig) : Rc * Base * option error :=
  startVisitorListener rc p (Config.sudp_Secretkey cfg) (Config.sudp_AllowUsers cfg).
Definition STCPSUDP_Run (rc : Rc) (p : Base) (cfg : Config.STCPSUDPProxyConfig) : Rc * Base * option error :=
  startVisitorListener rc p (Config.ss_Secretkey cfg) (Config.ss_AllowUsers cfg).

Definition XTCP_Run (rc : Rc) (p : Base) (cfg : Config.XTCPProxyConfig) : Rc * Base * option error :=
  let '(rc, e) := listen_client rc p (Config.xtcp_Secretkey cfg) (Config.xtcp_AllowUsers cfg) in (rc, p, e).
Definition XUDP_Run (rc : Rc) (p : Base) (cfg : Config.XUDPProxyConfig) : Rc * Base * option error :=
  let '(rc, e) := listen_client rc p (Config.xudp_Secretkey cfg) (Config.xudp_AllowUsers cfg) in (rc, p, e).

Definition XTCPXUDP_Run (rc : Rc) (p : Base) (cfg : Config.XTCPXUDPProxyConfig) : Rc * Base * option error :=
  match NatHoleController rc with
  | None => (rc, p, Some ErrNoNatHole)
  | Some _ =>
      let allowUsers := effective_users (p_user p) (Config.xx_AllowUsers cfg) in
      match startVisitorListener rc p (Config.xx_Secretkey cfg) allowUsers with
      | (rc, p, Some e) => (rc, p, Some e)
      | (rc, p, None) =>
          let '(rc, e) := listen_client rc p (Config.xx_Secretkey cfg) allowUsers in (rc, p, e)
      end
  end.

(** The secret proxies among the types. *)
Definition Run (rc : Rc) (p : Base) (cfg : Config.ProxyConfigurer) : option (Rc * Base * option error) :=
  match cfg with
  | Config.CSTCP c => Some (STCP_Run rc p c)
  | Config.CSUDP c => Some (SUDP_Run rc p c)
  | Config.CSTCPSUDP c => Some (STCPSUDP_Run rc p c)
  | Config.CXTCP c => Some (XTCP_Run rc p c)
  | Config.CXUDP c => Some (XUDP_Run rc p c)
  | Config.CXTCPXUDP c => Some (XTCPXUDP_Run rc p c)
  | _ => None
  end.

(** [BaseProxy.Close]. *)
Definition base_Close (rc : Rc) (p : Base) : Rc :=
  let vm := VisitorManager rc in
  set_vm rc (mkManager (listeners vm) (foldl (λ h l, alter il_Close l h) (ils vm) (p_listeners p)) (nextIL vm)).

Definition close_listener (rc : Rc) (p : Base) : Rc := set_vm rc (CloseListener (VisitorManager rc) (p_name p)).
Definition close_client (rc : Rc) (p : Base) : Rc :=
  mkRc (VisitorManager rc) ((λ c, CloseClient c (p_name p)) <$> NatHoleController rc).

(** [Close] of each type; that of the hole-punching types is under a [once]. *)
Definition Close (rc : Rc) (p : Base) (cfg : Config.ProxyConfigurer) : Rc :=
  match cfg with
  | Config.CSTCP _ | Config.CSUDP _ | Config.CSTCPSUDP _ => close_listener (base_Close rc p) p
  | Config.CXTCP _ | Config.CXUDP _ => close_client (base_Close rc p) p
  | Config.CXTCPXUDP _ => close_listener (close_client (base_Close rc p) p) p
  | _ => rc
  end.

(** ** The server's secret proxies over time

    [running] holds the proxies whose [Run] succeeded and that are not closed.
    The steps of a [World] are those of the proxies; the server takes them
    interleaved with the logins, the workers and the heartbeats of its sessions
    and with the connections of visitors, which first look their user up among
    the sessions, [SLookup], and are then handed to the manager, [SNewConn]. *)

Record World := mkWorld { rc : Rc; running : gmap nat (Base * Config.ProxyConfigurer) }.

Inductive wstep : World → World → Prop :=
| WRun w id name user cfg rc' p : running w !! id = None →
    Run (rc w) (mkBase name user []) cfg = Some (rc', p, None) →
    wstep w (mkWorld rc' (<[id := (p, cfg)]> (running w)))
| WRunFailed w name user cfg rc' p e :
    Run (rc w) (mkBase name user []) cfg = Some (rc', p, Some e) → wstep w (mkWorld rc' (running w))
| WClose w id p cfg : running w !! id = Some (p, cfg) →
    wstep w (mkWorld (Close (rc w) p cfg) (delete id (running w)))
| WAccept w l il il' c : ils (VisitorManager (rc w)) !! l = Some il → Accept il = Some (il', c) →
    wstep w (mkWorld (set_vm (rc w) (mkManager (listeners (VisitorManager (rc w)))
      (<[l := il']> (ils (VisitorManager (rc w)))) (nextIL (VisitorManager (rc w))))) (running w))
| WNatHole w c c' : NatHoleController (rc w) = Some c → clientCfgs c' = clientCfgs c →
    wstep w (mkWorld (mkRc (VisitorManager (rc w)) (Some c')) (running w)).

Definition NewWorld (nathole : option Controller) : World := mkWorld (mkRc NewManager nathole) ∅.

(** A visitor's connection whose user was looked up. *)
Record visit := mkVisit { v_conn : nat; v_msg : Msg.NewVisitorConn; v_user : string; v_wire : string }.

Record Server := mkServer { world : World; sess : Sessions.Service; visiting : gmap nat visit }.

Definition after_NewConn (w : World) (v : visit) (enc_ok : bool) : World :=
  mkWorld (set_vm (rc w) (NewConn (VisitorManager (rc w)) (v_conn v) (v_msg v) (v_user v) (v_wire v) enc_ok).1.1) (running w).

Inductive sstep : Server → Server → Prop :=
| SProxies s w : wstep (world s) w → sstep s (mkServer w (sess s) (visiting s))
| SSession s svc : Sessions.step (sess s) svc → sstep s (mkServer (world s) svc (visiting s))
| SLookup s id conn m user wire : visiting s !! id = None → visitor_user (sess s) (Msg.nvc_RunID m) = Ok user →
    sstep s (mkServer (world s) (sess s) (<[id := mkVisit conn m user wire]> (visiting s)))
| SNewConn s id v enc_ok : visiting s !! id = Some v →
    sstep s (mkServer (after_NewConn (world s) v enc_ok) (sess s) (delete id (visiting s))).

Definition NewServer (nathole : option Controller) : Server := mkServer (NewWorld nathole) Sessions.NewService ∅.
Definition sreachable (nathole : option Controller) : Server → Prop := rtc sstep (NewServer nathole).

(** The secret and the users of a configuration, and what it registers with. *)
Definition secret (cfg : Config.ProxyConfigurer) : string * list string :=
  match cfg with
  | Config.CSTCP c => (Config.stcp_Secretkey c, Config.stcp_AllowUsers c)
  | Config.CSUDP c => (Config.sudp_Secretkey c, Config.sudp_AllowUsers c)
  | Config.CSTCPSUDP c => (Config.ss_Secretkey c, Config.ss_AllowUsers c)
  | Config.CXTCP c => (Config.xtcp_Secretkey c, Config.xtcp_AllowUsers c)
  | Config.CXUDP c => (Config.xudp_Secretkey c, Config.xudp_AllowUsers c)
  | Config.CXTCPXUDP c => (Config.xx_Secretkey c, Config.xx_AllowUsers c)
  | _ => ("", [])
  end.
Definition relays (cfg : Config.ProxyConfigurer) : bool :=
  match cfg with
  | Config.CSTCP _ | Config.CSUDP _ | Config.CSTCPSUDP _ | Config.CXTCPXUDP _ => true
  | _ => false
  end.
Definition punches (cfg : Config.ProxyConfigurer) : bool :=
  match cfg with Config.CXTCP _ | Config.CXUDP _ | Config.CXTCPXUDP _ => true | _ => false end.

Definition users_of (p : Base) (cfg : Config.ProxyConfigurer) : list string :=
  effective_users (p_user p) (secret cfg).2.

Section Known.
(** Which user a run id was found to have. *)
Variable known : string → string → Prop.

(** What admits a connection to a bundle. *)
Definition authorised (name : string) (b : listenerBundle) (c : VisitorConn) : Prop :=
  Msg.nvc_ProxyName (vc_msg c) = name ∧
  Msg.nvc_SignKey (vc_msg c) = NatController.GetAuthKey md5hex (b_sk b) (Msg.nvc_Timestamp (vc_msg c)) ∧
  (vc_user c ∈ b_allowUsers b ∨ "*" ∈ b_allowUsers b) ∧
  vc_encrypted c = (if Msg.nvc_UseEncryption (vc_msg c) then Some (b_sk b) else None) ∧
  known (Msg.nvc_RunID (vc_msg c)) (vc_user c).

(** The manager's own invariant. *)
Record vm_ok (vm : Manager) : Prop := {
  v_next : ∀ l, is_Some (ils vm !! l) → (l < nextIL vm)%nat;
  v_bundle : ∀ n b, listeners vm !! n = Some b → is_Some (ils vm !! b_l b);
  v_inj : ∀ n n' b b', listeners vm !! n = Some b → listeners vm !! n' = Some b' → b_l b = b_l b' → n = n';
  v_auth : ∀ n b il c, listeners vm !! n = Some b → ils vm !! b_l b = Some il → c ∈ acceptCh il → authorised n b c
}.

(** A running proxy has what it registered. *)
Definition relay_ok (vm : Manager) (p : Base) (cfg : Config.ProxyConfigurer) : Prop :=
  if relays cfg then
    ∃ l il, p_listeners p = [l] ∧ listeners vm !! p_name p = Some (mkBundle l (secret cfg).1 (users_of p cfg)) ∧
      ils vm !! l = Some il ∧ closed il = false
  else p_listeners p = [].

Definition punch_ok (nh : option Controller) (p : Base) (cfg : Config.ProxyConfigurer) : Prop :=
  punches cfg = true → ∃ c, nh = Some c ∧
    clientCfgs c !! p_name p = Some (NatController.mkClientCfg (p_name p) (secret cfg).1 (users_of p cfg)).

Record winv (w : World) : Prop := {
  w_vm : vm_ok (VisitorManager (rc w));
  w_relay : ∀ id p cfg, running w !! id = Some (p, cfg) → relay_ok (VisitorManager (rc w)) p cfg;
  w_punch : ∀ id p cfg, running w !! id = Some (p, cfg) → punch_ok (NatHoleController (rc w)) p cfg;
  w_names : ∀ id id' p p' cfg cfg', running w !! id = Some (p, cfg) → running w !! id' = Some (p', cfg') →
    p_name p = p_name p' → relays cfg && relays cfg' || punches cfg && punches cfg' = true → id = id'
}.

Lemma effective_idem u l : effective_users u (effective_users u l) = effective_users u l.
Proof. by destruct l. Qed.

(** *** The manager's calls *)

Lemma vm_ok_Listen vm name sk users :
  vm_ok vm → listeners vm !! name = None → vm_ok (Listen vm name sk users).1.
Proof.
  intros [Hn Hb Hi Ha] Hnone. unfold Listen. rewrite Hnone. cbn.
  assert (∀ n b, listeners vm !! n = Some b → b_l b ≠ nextIL vm) as Hold.
  { intros n b Hbn Heq. apply Hb in Hbn. rewrite Heq in Hbn. apply Hn in Hbn. lia. }
  constructor; cbn.
  - intros l [il [[<- _]|[_ Hl]]%lookup_insert_Some]; [lia|].
    assert (l < nextIL vm)%nat; [apply Hn; eauto|lia].
  - intros n b [[<- <-]|[_ Hbn]]%lookup_insert_Some; cbn; [rewrite lookup_insert_eq; eauto|].
    rewrite lookup_insert_ne by (apply not_eq_sym; by eapply Hold). eauto.
  - intros n n' b b' [[<- <-]|[_ H1]]%lookup_insert_Some [[<- <-]|[_ H2]]%lookup_insert_Some; cbn; try done.
    + intros Heq. by destruct (Hold _ _ H2).
    + intros Heq. by destruct (Hold _ _ H1).
    + by apply Hi.
  - intros n b il c [[<- <-]|[_ Hbn]]%lookup_insert_Some; cbn.
    + rewrite lookup_insert_eq. by intros [= <-] ?%not_elem_of_nil.
    + rewrite lookup_insert_ne by (apply not_eq_sym; by eapply Hold). by apply Ha.
Qed.

Lemma vm_ok_CloseListener vm name : vm_ok vm → vm_ok (CloseListener vm name).
Proof.
  intros [Hn Hb Hi Ha]. constructor; cbn; [done|..].
  - intros n b [_ ?]%lookup_delete_Some. eauto.
  - intros n n' b b' [_ ?]%lookup_delete_Some [_ ?]%lookup_delete_Some. by apply Hi.
  - intros n b il c [_ ?]%lookup_delete_Some. by apply Ha.
Qed.

(** Listeners change without new connections. *)
Lemma vm_ok_ils vm h :
  vm_ok vm → (∀ l, is_Some (h !! l) ↔ is_Some (ils vm !! l)) →
  (∀ l il' c, h !! l = Some il' → c ∈ acceptCh il' → ∃ il, ils vm !! l = Some il ∧ c ∈ acceptCh il) →
  vm_ok (mkManager (listeners vm) h (nextIL vm)).
Proof.
  intros [Hn Hb Hi Ha] Hd Hq. constructor; cbn.
  - intros l Hl%Hd. by apply Hn.
  - intros n b Hbn. apply Hd. by eapply Hb.
  - done.
  - intros n b il c Hbn Hil Hc. destruct (Hq _ _ _ Hil Hc) as (il0 & ? & ?). by eapply Ha.
Qed.

(** A connection is put only where it is authorised. *)
Lemma NewConn_cases vm conn m user wire enc_ok vm' d r :
  known (Msg.nvc_RunID m) user →
  NewConn vm conn m user wire enc_ok = (vm', d, r) →
  vm' = vm ∨
  ∃ b il il' c, listeners vm !! Msg.nvc_ProxyName m = Some b ∧ ils vm !! b_l b = Some il ∧
    authorised (Msg.nvc_ProxyName m) b c ∧ closed il' = closed il ∧
    (∀ x, x ∈ acceptCh il' → x ∈ acceptCh il ∨ x = c) ∧
    vm' = mkManager (listeners vm) (<[b_l b := il']> (ils vm)) (nextIL vm).
Proof.
  intros Hsvc. unfold NewConn. destruct (listeners vm !! _) as [b|] eqn:Hb; [|intros [= <- <- <-]; by left].
  destruct (String.eqb_spec (NatController.GetAuthKey md5hex (b_sk b) (Msg.nvc_Timestamp m)) (Msg.nvc_SignKey m))
    as [Hk|]; [|intros [= <- <- <-]; by left]. cbn [negb].
  destruct (negb (bool_decide (user ∈ _)) && _) eqn:Hu; [intros [= <- <- <-]; by left|].
  destruct (Msg.nvc_UseEncryption m && negb enc_ok); [intros [= <- <- <-]; by left|].
  destruct (ils vm !! b_l b) as [il|] eqn:Hil; [|intros [= <- <- <-]; by left].
  destruct (PutConn il _) as [[il' dc] ok] eqn:Hp. intros [= <- _ _]. right.
  match type of Hp with PutConn _ ?c = _ => exists b, il, il', c end. split_and!; [done..| | | |done].
  - split_and!; cbn; [done|by symmetry| |by destruct (Msg.nvc_UseEncryption m)|done].
    apply andb_false_iff in Hu as [Hu|Hu]; apply negb_false_iff, bool_decide_eq_true in Hu; auto.
  - unfold PutConn in Hp. repeat case_match; simplify_eq; done.
  - unfold PutConn in Hp. repeat case_match; simplify_eq; cbn; try (by left);
    (intros x [?| ->%list_elem_of_singleton]%elem_of_app; [by left|by right]).
Qed.

(** *** Running a proxy *)

Lemma startVisitorListener_spec rc0 p sk users rc' p' e :
  startVisitorListener rc0 p sk users = (rc', p', e) →
  match e with
  | None => listeners (VisitorManager rc0) !! p_name p = None ∧
      rc' = set_vm rc0 (Listen (VisitorManager rc0) (p_name p) sk (effective_users (p_user p) users)).1 ∧
      p' = mkBase (p_name p) (p_user p) (p_listeners p ++ [nextIL (VisitorManager rc0)])
  | Some _ => rc' = rc0 ∧ p' = p
  end.
Proof.
  unfold startVisitorListener, Listen. destruct (listeners _ !! p_name p) eqn:Hl; intros [= <- <- <-]; [|done].
  by destruct rc0.
Qed.

Lemma listen_client_spec rc0 p sk users rc' e :
  listen_client rc0 p sk users = (rc', e) →
  match e with
  | None => ∃ c c', NatHoleController rc0 = Some c ∧ clientCfgs c !! p_name p = None ∧
      rc' = mkRc (VisitorManager rc0) (Some c') ∧
      clientCfgs c' = <[p_name p := NatController.mkClientCfg (p_name p) sk (effective_users (p_user p) users)]>
                        (clientCfgs c)
  | Some _ => rc' = rc0
  end.
Proof.
  unfold listen_client, ListenClient. destruct rc0 as [vm [c|]]; cbn; [|by intros [= <- <-]].
  destruct (clientCfgs c !! p_name p) eqn:Hl; intros [= <- <-]; [done|]. by exists c; eexists.
Qed.

Lemma relay_ok_Listen vm name sk users p cfg :
  vm_ok vm → listeners vm !! name = None → relay_ok vm p cfg → relay_ok (Listen vm name sk users).1 p cfg.
Proof.
  intros Hv Hnone. unfold relay_ok. destruct (relays cfg); [|done].
  intros (l & il & ? & Hb & Hil & ?). exists l, il. unfold Listen. rewrite Hnone. cbn.
  assert (l < nextIL vm)%nat by (apply (v_next _ Hv); eauto).
  rewrite !lookup_insert_ne by (lia || congruence). done.
Qed.

Lemma punch_ok_insert c c' name x p cfg :
  clientCfgs c !! name = None → clientCfgs c' = <[name := x]> (clientCfgs c) →
  punch_ok (Some c) p cfg → punch_ok (Some c') p cfg.
Proof.
  intros Hnone Hc Hp Hx. destruct (Hp Hx) as (c0 & [= <-] & Hcfg). exists c'. split; [done|].
  rewrite Hc, lookup_insert_ne; [done|congruence].
Qed.

Lemma winv_listener w name sk users :
  winv w → listeners (VisitorManager (rc w)) !! name = None →
  winv (mkWorld (set_vm (rc w) (Listen (VisitorManager (rc w)) name sk users).1) (running w)).
Proof.
  intros [Hv Hr Hp Hn] Hnone. constructor; cbn; [by apply vm_ok_Listen| |done..].
  intros id p cfg Hid. apply relay_ok_Listen; [done..|by eapply Hr].
Qed.

Lemma winv_client w c c' name x :
  winv w → NatHoleController (rc w) = Some c → clientCfgs c !! name = None →
  clientCfgs c' = <[name := x]> (clientCfgs c) →
  winv (mkWorld (mkRc (VisitorManager (rc w)) (Some c')) (running w)).
Proof.
  intros [Hv Hr Hp Hn] Hc Hnone Hc'. constructor; cbn; [done..| |done].
  intros id p cfg Hid. eapply punch_ok_insert; [done..|]. rewrite <-Hc. by eapply Hp.
Qed.

Lemma winv_start w id p cfg :
  winv w → running w !! id = None →
  relay_ok (VisitorManager (rc w)) p cfg → punch_ok (NatHoleController (rc w)) p cfg →
  (∀ id' p' cfg', running w !! id' = Some (p', cfg') → p_name p' = p_name p →
     relays cfg && relays cfg' = false ∧ punches cfg && punches cfg' = false) →
  winv (mkWorld (rc w) (<[id := (p, cfg)]> (running w))).
Proof.
  intros [Hv Hr Hp Hn] Hnone Hrel Hpun Hname. constructor; cbn; [done|..].
  - intros id' p' cfg' [[<- [= <- <-]]|[_ Hid]]%lookup_insert_Some; [done|by eapply Hr].
  - intros id' p' cfg' [[<- [= <- <-]]|[_ Hid]]%lookup_insert_Some; [done|by eapply Hp].
  - intros i j p1 p2 c1 c2 [[<- [= <- <-]]|[_ H1]]%lookup_insert_Some
      [[<- [= <- <-]]|[_ H2]]%lookup_insert_Some; try done.
    + intros Heq Hc. destruct (Hname _ _ _ H2) as [E1 E2]; [done|]. by rewrite E1, E2 in Hc.
    + intros Heq Hc. destruct (Hname _ _ _ H1) as [E1 E2]; [done|].
      rewrite (andb_comm (relays c1)), (andb_comm (punches c1)), E1, E2 in Hc. done.
    + by apply Hn.
Qed.

(** No running proxy relays under a name that is free. *)
Lemma free_relay w name id p cfg :
  winv w → listeners (VisitorManager (rc w)) !! name = None →
  running w !! id = Some (p, cfg) → p_name p = name → relays cfg = false.
Proof.
  intros Hw Hnone Hid <-. pose proof (w_relay _ Hw _ _ _ Hid) as Hr. unfold relay_ok in Hr.
  destruct (relays cfg); [|done]. destruct Hr as (l & il & _ & ? & _). congruence.
Qed.

Lemma free_punch w c name id p cfg :
  winv w → NatHoleController (rc w) = Some c → clientCfgs c !! name = None →
  running w !! id = Some (p, cfg) → p_name p = name → punches cfg = false.
Proof.
  intros Hw Hc Hnone Hid <-. destruct (punches cfg) eqn:Hp; [|done].
  destruct (w_punch _ Hw _ _ _ Hid Hp) as (c0 & ? & ?). congruence.
Qed.

(** The listener just registered. *)
Lemma relay_ok_new vm name user cfg sk users :
  relays cfg = true → listeners vm !! name = None → sk = (secret cfg).1 →
  effective_users user users = effective_users user (secret cfg).2 →
  relay_ok (Listen vm name sk (effective_users user users)).1 (mkBase name user [nextIL vm]) cfg.
Proof.
  intros Hr Hnone -> Hu. unfold relay_ok. rewrite Hr. unfold Listen. rewrite Hnone. cbn.
  exists (nextIL vm), NewInternalListener. rewrite !lookup_insert_eq.
  split_and!; [done| |done..]. unfold users_of. cbn. by rewrite Hu.
Qed.

Lemma world_eta w : mkWorld (rc w) (running w) = w.
Proof. by destruct w. Qed.

(** After [Run]: with the proxy running, or without it. *)
Definition after_run (w : World) (id : nat) (r : Rc * Base * option error) (cfg : Config.ProxyConfigurer) : World :=
  match r with
  | (rc', p, None) => mkWorld rc' (<[id := (p, cfg)]> (running w))
  | (rc', _, Some _) => mkWorld rc' (running w)
  end.

Lemma winv_run_relay w id name user cfg :
  winv w → running w !! id = None → relays cfg = true → punches cfg = false →
  winv (after_run w id (startVisitorListener (rc w) (mkBase name user []) (secret cfg).1 (secret cfg).2) cfg).
Proof.
  intros Hw Hid Hr Hp. destruct (startVisitorListener _ _ _ _) as [[rc' p] e] eqn:Hs.
  apply startVisitorListener_spec in Hs. destruct e; cbn in *.
  - destruct Hs as [-> _]. by rewrite world_eta.
  - destruct Hs as (Hnone & -> & ->). cbn.
    apply (winv_start (mkWorld _ (running w)) id); cbn; [by apply winv_listener|done| | |].
    + by apply relay_ok_new.
    + unfold punch_ok. by rewrite Hp.
    + intros id' p' cfg' Hid' Hn. by rewrite (free_relay w name id' p' cfg'), andb_false_r, Hp.
Qed.

Lemma winv_run_punch w id name user cfg rc' e :
  winv w → running w !! id = None → relays cfg = false →
  listen_client (rc w) (mkBase name user []) (secret cfg).1 (secret cfg).2 = (rc', e) →
  winv (after_run w id (rc', mkBase name user [], e) cfg).
Proof.
  intros Hw Hid Hr Hs. apply listen_client_spec in Hs. destruct e; cbn in *.
  - subst rc'. by rewrite world_eta.
  - destruct Hs as (c & c' & Hc & Hnone & -> & Hc'). 
    apply (winv_start (mkWorld _ (running w)) id); cbn; [by eapply winv_client|done| | |].
    + unfold relay_ok. by rewrite Hr.
    + intros _. exists c'. split; [done|]. rewrite Hc'. by rewrite lookup_insert_eq.
    + intros id' p' cfg' Hid' Hn. by rewrite Hr, (free_punch w c name id' p' cfg'), andb_false_r.
Qed.

Lemma winv_run_both w id name user (c : Config.XTCPXUDPProxyConfig) :
  winv w → running w !! id = None →
  winv (after_run w id (XTCPXUDP_Run (rc w) (mkBase name user []) c) (Config.CXTCPXUDP c)).
Proof.
  intros Hw Hid. unfold XTCPXUDP_Run. destruct (NatHoleController (rc w)) as [c0|] eqn:Hc0; [|by rewrite <-world_eta in Hw].
  destruct (startVisitorListener _ _ _ _) as [[rc1 p1] e1] eqn:Hs. apply startVisitorListener_spec in Hs.
  destruct e1; cbn in *; [destruct Hs as [-> _]; by rewrite world_eta|].
  destruct Hs as (Hnone & -> & ->). rewrite effective_idem.
  pose proof (winv_listener w name (Config.xx_Secretkey c) (effective_users user (Config.xx_AllowUsers c)) Hw Hnone) as Hw1.
  set (rc1 := set_vm _ _) in *.
  destruct (listen_client _ _ _ _) as [rc' e] eqn:Hl. apply listen_client_spec in Hl.
  destruct e; cbn in *; [by subst rc'|]. destruct Hl as (c1 & c' & Hc1 & Hfree & -> & Hc').
  rewrite effective_idem in Hc'.
  apply (winv_start (mkWorld _ (running w)) id); cbn [rc running]; [|done|..].
  - by eapply (winv_client (mkWorld rc1 (running w))).
  - apply (relay_ok_new _ name user (Config.CXTCPXUDP c) _ (Config.xx_AllowUsers c)); done.
  - intros _. exists c'. split; [done|]. cbn. rewrite Hc'. by rewrite lookup_insert_eq.
  - intros id' p' cfg' Hid' Hn. cbn. split.
    + by apply (free_relay w name id' p' cfg').
    + by apply (free_punch (mkWorld rc1 (running w)) c1 name id' p' cfg').
Qed.

Lemma winv_Run w id name user cfg r :
  winv w → running w !! id = None → Run (rc w) (mkBase name user []) cfg = Some r → winv (after_run w id r cfg).
Proof.
  intros Hw Hid Hr. destruct cfg as [| | | | | | | |c|c|c|c|c|c]; cbn in Hr; try done; injection Hr as <-;
    try (by apply winv_run_both);
    try match goal with |- winv (after_run _ _ _ ?cfg) => exact (winv_run_relay w id name user cfg Hw Hid eq_refl eq_refl) end.
  - unfold XTCP_Run. destruct (listen_client _ _ _ _) as [rc' e] eqn:Hl. by eapply winv_run_punch.
  - unfold XUDP_Run. destruct (listen_client _ _ _ _) as [rc' e] eqn:Hl. by eapply winv_run_punch.
Qed.

(** *** Closing a proxy *)

Lemma winv_delete w id : winv w → winv (mkWorld (rc w) (delete id (running w))).
Proof.
  intros [Hv Hr Hp Hn]. constructor; cbn; [done|..].
  - intros i p cfg [_ Hi]%lookup_delete_Some. by eapply Hr.
  - intros i p cfg [_ Hi]%lookup_delete_Some. by eapply Hp.
  - intros i j p1 p2 c1 c2 [_ H1]%lookup_delete_Some [_ H2]%lookup_delete_Some. by apply Hn.
Qed.

Definition drop_listener (rc0 : Rc) (name : string) (l : nat) : Rc :=
  let vm := VisitorManager rc0 in
  set_vm rc0 (mkManager (delete name (listeners vm)) (alter il_Close l (ils vm)) (nextIL vm)).

Lemma winv_drop_listener w name b :
  winv w → listeners (VisitorManager (rc w)) !! name = Some b →
  (∀ id p cfg, running w !! id = Some (p, cfg) → p_name p = name → relays cfg = false) →
  winv (mkWorld (drop_listener (rc w) name (b_l b)) (running w)).
Proof.
  intros [Hv Hr Hp Hn] Hb Hno. unfold drop_listener.
  constructor; cbn [rc running set_vm VisitorManager NatHoleController]; [..|done|done].
  - set (vm := VisitorManager (rc w)) in *.
    pose proof (vm_ok_CloseListener (mkManager (listeners vm) (alter il_Close (b_l b) (ils vm)) (nextIL vm)) name) as Hd.
    unfold CloseListener in Hd. apply Hd. clear Hd. apply vm_ok_ils; [done|intros x; by rewrite lookup_alter_is_Some|].
    intros l il' c Hl Hc. destruct (decide (b_l b = l)) as [<-|Hne].
    + rewrite lookup_alter_eq in Hl. apply fmap_Some in Hl as (il & ? & ->). by exists il.
    + rewrite lookup_alter_ne in Hl by done. by exists il'.
  - intros id p cfg Hid. pose proof (Hr _ _ _ Hid) as Hrel. unfold relay_ok in *.
    destruct (relays cfg) eqn:Hc; [|done]. destruct Hrel as (l & il & ? & Hl & Hil & ?).
    assert (p_name p ≠ name) as Hne.
    { intros Heq. rewrite (Hno _ _ _ Hid Heq) in Hc. done. }
    exists l, il. cbn [listeners ils]. rewrite lookup_delete_ne by done. rewrite lookup_alter_ne; [done|].
    intros Heq. apply Hne, (v_inj _ Hv _ _ _ _ Hl Hb). done.
Qed.

Lemma winv_drop_client w p :
  winv w → (∀ id p' cfg, running w !! id = Some (p', cfg) → p_name p' = p_name p → punches cfg = false) →
  winv (mkWorld (close_client (rc w) p) (running w)).
Proof.
  intros [Hv Hr Hp Hn] Hno. constructor; cbn; [done..| |done].
  intros id p' cfg Hid Hc. destruct (Hp _ _ _ Hid Hc) as (c & Hc0 & Hcfg). rewrite Hc0. cbn.
  eexists. split; [done|]. cbn. rewrite lookup_delete_ne; [done|].
  intros Heq. by rewrite (Hno _ _ _ Hid (eq_sym Heq)) in Hc.
Qed.

(** What [Close] does, in terms of the two. *)
Lemma Close_eq rc0 p cfg :
  relay_ok (VisitorManager rc0) p cfg →
  Close rc0 p cfg =
  (if punches cfg then λ r, close_client r p else id)
    (if relays cfg then drop_listener rc0 (p_name p) (default 0%nat (head (p_listeners p))) else rc0).
Proof.
  unfold relay_ok. destruct cfg; cbn; try done;
    [intros (l & il & Hl & _)..|intros Hl|intros Hl|intros (l & il & Hl & _)|intros (l & il & Hl & _)];
    unfold close_listener, close_client, base_Close, drop_listener, CloseListener, set_vm; rewrite Hl;
    by destruct rc0 as [[] ?].
Qed.

Lemma winv_Close w id p cfg :
  winv w → running w !! id = Some (p, cfg) → winv (mkWorld (Close (rc w) p cfg) (delete id (running w))).
Proof.
  intros Hw Hid. pose proof (w_relay _ Hw _ _ _ Hid) as Hrel. rewrite Close_eq by done.
  assert (∀ id' p' cfg', delete id (running w) !! id' = Some (p', cfg') → p_name p' = p_name p →
    relays cfg && relays cfg' || punches cfg && punches cfg' = false) as Hno.
  { intros id' p' cfg' [Hne Hid']%lookup_delete_Some Heq. apply not_true_is_false. intros Hc.
    by apply Hne, (w_names _ Hw _ _ _ _ _ _ Hid Hid'). }
  set (r1 := if relays cfg then _ else _).
  assert (winv (mkWorld r1 (delete id (running w)))) as H1.
  { subst r1. pose proof (winv_delete w id Hw) as Hd. destruct (relays cfg) eqn:Hc; [|done].
    unfold relay_ok in Hrel. rewrite Hc in Hrel. destruct Hrel as (l & il & Hl & Hb & _). rewrite Hl.
    apply (winv_drop_listener _ (p_name p) _ Hd Hb). cbn [running]. intros i p' cfg' Hi Heq.
    specialize (Hno _ _ _ Hi Heq). by apply orb_false_iff in Hno as [? _]. }
  destruct (punches cfg) eqn:Hc; [|done]. apply (winv_drop_client (mkWorld r1 _)); [done|].
  cbn. intros i p' cfg' Hi Heq. specialize (Hno _ _ _ Hi Heq). by apply orb_false_iff in Hno as [_ ?].
Qed.

(** *** The other steps *)

(** New contents of one listener that stays as open as it was. *)
Lemma winv_queue w l il il' :
  winv w → ils (VisitorManager (rc w)) !! l = Some il → closed il' = closed il →
  (∀ n b c, listeners (VisitorManager (rc w)) !! n = Some b → b_l b = l → c ∈ acceptCh il' → authorised n b c) →
  winv (mkWorld (set_vm (rc w) (mkManager (listeners (VisitorManager (rc w)))
    (<[l := il']> (ils (VisitorManager (rc w)))) (nextIL (VisitorManager (rc w))))) (running w)).
Proof.
  intros [Hv Hr Hp Hn] Hil Hcl Hauth. constructor; cbn; [..|done|done].
  - destruct Hv as [V1 V2 V3 V4]. constructor; cbn; try done.
    + intros x [y [[<- _]|[_ ?]]%lookup_insert_Some]; eauto.
    + intros n b Hb. apply V2 in Hb. destruct (decide (b_l b = l)) as [->|Hne].
      * by rewrite lookup_insert_eq.
      * by rewrite lookup_insert_ne.
    + intros n b x c Hb [[Heq <-]|[_ Hx]]%lookup_insert_Some Hc; [by eapply Hauth|by eapply V4].
  - intros id p cfg Hid. pose proof (Hr _ _ _ Hid) as Hrel. unfold relay_ok in *.
    destruct (relays cfg); [|done]. destruct Hrel as (x & y & ? & ? & Hy & ?). exists x. cbn.
    destruct (decide (x = l)) as [->|Hne].
    + exists il'. rewrite lookup_insert_eq. split_and!; try done. congruence.
    + exists y. by rewrite lookup_insert_ne.
Qed.

Lemma winv_step w w' : winv w → wstep w w' → winv w'.
Proof.
  intros Hw Hs. destruct Hs as [w id name user cfg rc' p Hid Hr|w name user cfg rc' p e Hr|w id p cfg Hid
    |w l il il' c Hil Ha|w c c' Hc Hc'].
  - by apply (winv_Run w id) in Hr.
  - by apply (winv_Run w (fresh (dom (running w)))) in Hr; [| |apply not_elem_of_dom, is_fresh].
  - by apply winv_Close.
  - eapply winv_queue; [done..| |].
    + unfold Accept in Ha. destruct (acceptCh il); [destruct (closed il) eqn:Hc|]; simplify_eq; done.
    + intros n b x Hb <- Hx. eapply (v_auth _ (w_vm _ Hw)); [done..|]. unfold Accept in Ha.
      destruct (acceptCh il) eqn:Hq; [destruct (closed il); simplify_eq; by rewrite Hq in Hx|].
      simplify_eq. by right.
  - destruct Hw as [Hv Hr Hp Hn]. constructor; cbn; try done. intros id p cfg Hid Hx.
    destruct (Hp _ _ _ Hid Hx) as (c0 & Hc0 & ?). exists c'. split; [done|]. rewrite Hc'. congruence.
Qed.

Lemma winv_NewConn w v enc_ok : winv w → known (Msg.nvc_RunID (v_msg v)) (v_user v) → winv (after_NewConn w v enc_ok).
Proof.
  intros Hw Hk. unfold after_NewConn. destruct (NewConn _ _ _ _ _ _) as [[vm' d] r] eqn:Hn.
  apply NewConn_cases in Hn as [->|(b & il & il' & c & Hb & Hil & Hauth & Hcl & Hq & ->)]; [..|done]; cbn.
  - by destruct w as [[vm nh] R], Hw; constructor.
  - eapply winv_queue; [done..|]. intros n b' x Hb' Heq [Hx| ->]%Hq.
    + eapply (v_auth _ (w_vm _ Hw)); [done| |done]. by rewrite Heq.
    + assert (n = Msg.nvc_ProxyName (v_msg v)) as -> by by eapply (v_inj _ (w_vm _ Hw)).
      by assert (b' = b) as -> by congruence.
Qed.

(** The server: its proxies, and the visitors that are between the two calls. *)
Record sinv (s : Server) : Prop := {
  si_world : winv (world s);
  si_visiting : ∀ id v, visiting s !! id = Some v → known (Msg.nvc_RunID (v_msg v)) (v_user v)
}.

Lemma sinv_step s s' :
  (∀ run user, visitor_user (sess s) run = Ok user → known run user) → sinv s → sstep s s' → sinv s'.
Proof.
  intros Hk [Hw Hv] Hs. destruct Hs as [s w Hst|s svc Hst|s id conn m user wire Hid Hu|s id v enc_ok Hid];
    constructor; cbn; try done.
  - by eapply winv_step.
  - intros id' v [[<- <-]|[_ ?]]%lookup_insert_Some; [by apply Hk|by eapply Hv].
  - apply winv_NewConn; [done|by eapply Hv].
  - intros id' v' [_ ?]%lookup_delete_Some. by eapply Hv.
Qed.

Lemma sinv_start nathole : sinv (NewServer nathole).
Proof.
  constructor; [|done]. constructor; cbn; try done. constructor; cbn; try done. by intros l [? ?].
Qed.
End Known.

Lemma sess_reachable nathole s : sreachable nathole s → Sessions.reachable (sess s).
Proof.
  intros Hr. eapply (rtc_invariant sstep (λ s, Sessions.reachable (sess s))); [|exact Hr|apply rtc_refl].
  intros s1 s2 H1 Hs. destruct Hs; cbn in *; try done. by eapply rtc_r.
Qed.

(** The user a run id was found to have at some point of the execution: the
    user of the login of the control that the manager of controls then held for
    it; a connection without a run id has no user. *)
Definition user_at (s : Server) (run user : string) : Prop :=
  (run = "" ∧ user = "") ∨
  ∃ c e, Sessions.ctlsByRunID (sess s) !! run = Some c ∧ Sessions.heap (sess s) !! c = Some e ∧
    Sessions.session_run e = run ∧ Registry.l_user (Sessions.LoginMsg (Sessions.ctl e)) = user.

Lemma visitor_user_spec nathole s run user :
  sreachable nathole s → visitor_user (sess s) run = Ok user → user_at s run user.
Proof.
  intros Hr%sess_reachable%Sessions.sessions_ok_reachable. unfold visitor_user, user_at.
  destruct (String.eqb_spec run "") as [->|Hne]; [intros [= <-]; by left|].
  destruct (Sessions.ctlsByRunID (sess s) !! run) as [c|] eqn:Hc; [|done]. cbn.
  destruct (Sessions.s_current _ Hr _ _ Hc) as (e & He & Hrun & _). rewrite He. intros [= <-]. right. by exists c, e.
Qed.

(** What was found in the execution that leads to [s]. *)
Definition found_before (nathole : option Controller) (s : Server) (run user : string) : Prop :=
  ∃ s0, sreachable nathole s0 ∧ rtc sstep s0 s ∧ user_at s0 run user.

Lemma sinv_reachable nathole s : sreachable nathole s → sinv (found_before nathole s) s.
Proof.
  intros Hr. assert (∀ s', sreachable nathole s' → rtc sstep s' s → sinv (found_before nathole s) s') as H; [|by apply H].
  unfold sreachable. apply (rtc_ind_r (λ s', rtc sstep s' s → sinv (found_before nathole s) s')); [intros _; apply sinv_start|].
  intros s1 s2 H1 Hs IH H2. assert (rtc sstep s1 s) as H1s by (by eapply rtc_l).
  eapply sinv_step; [|by apply IH|exact Hs]. intros run user Hu%(visitor_user_spec nathole); [|done]. by exists s1.
Qed.

(** ** Properties *)

(** C14. A connection waits at a secret proxy only if its visitor knew the
    proxy's secret and was one of the allowed users, the proxy's own when none
    are listed. In every state the server reaches, with its proxies starting and
    closing, its sessions logging in, being replaced and ending, and visitors'
    connections looking their user up and being handed over, all interleaved: a
    connection in the queue of a running proxy names this proxy and is signed
    with its key for its own timestamp; its user is allowed, and is the user with
    which the control logged in that the server's table of controls held for the
    connection's run id at some earlier point of the same execution (no user for
    a connection without a run id); and it is encrypted with the key when it
    asked for encryption. *)
Theorem secret_conns_authorised (nathole : option Controller) (s : Server) (id : nat) (p : Base)
    (cfg : Config.ProxyConfigurer) (l : nat) (il : InternalListener) (c : VisitorConn) :
  sreachable nathole s → running (world s) !! id = Some (p, cfg) → l ∈ p_listeners p →
  ils (VisitorManager (rc (world s))) !! l = Some il → c ∈ acceptCh il →
  Msg.nvc_ProxyName (vc_msg c) = p_name p ∧
  Msg.nvc_SignKey (vc_msg c) = NatController.GetAuthKey md5hex (secret cfg).1 (Msg.nvc_Timestamp (vc_msg c)) ∧
  (vc_user c ∈ users_of p cfg ∨ "*" ∈ users_of p cfg) ∧
  vc_encrypted c = (if Msg.nvc_UseEncryption (vc_msg c) then Some (secret cfg).1 else None) ∧
  ∃ s0, sreachable nathole s0 ∧ rtc sstep s0 s ∧ user_at s0 (Msg.nvc_RunID (vc_msg c)) (vc_user c).
Proof.
  intros [Hw _]%sinv_reachable Hid Hl Hil Hc. pose proof (w_relay _ _ Hw _ _ _ Hid) as Hr. unfold relay_ok in Hr.
  destruct (relays cfg); [|rewrite Hr in Hl; by apply not_elem_of_nil in Hl].
  destruct Hr as (l' & il' & Hls & Hb & _). rewrite Hls in Hl. apply list_elem_of_singleton in Hl as ->.
  exact (v_auth _ _ (w_vm _ _ Hw) _ _ _ _ Hb Hil Hc).
Qed.

(** The names of running secret proxies are theirs: a proxy that relays has
    the listener of its name, open and with its own secret and users, one that
    punches holes is registered with the hole-punching controller likewise, no
    two running proxies share a name of the same kind, and closing a proxy frees
    its names for the next one and touches no other name. *)
Theorem secret_names_owned (nathole : option Controller) (s : Server) :
  let w := world s in sreachable nathole s →
  (∀ id p cfg, running w !! id = Some (p, cfg) →
     relay_ok (VisitorManager (rc w)) p cfg ∧ punch_ok (NatHoleController (rc w)) p cfg ∧
     let rc' := Close (rc w) p cfg in
     (relays cfg = true → listeners (VisitorManager rc') = delete (p_name p) (listeners (VisitorManager (rc w)))) ∧
     (punches cfg = true → ∀ c c', NatHoleController (rc w) = Some c → NatHoleController rc' = Some c' →
        clientCfgs c' = delete (p_name p) (clientCfgs c))) ∧
  (∀ id id' p p' cfg cfg', running w !! id = Some (p, cfg) → running w !! id' = Some (p', cfg') →
     p_name p = p_name p' → relays cfg && relays cfg' || punches cfg && punches cfg' = true → id = id').
Proof.
  intros w [Hw _]%sinv_reachable. split; [|apply (w_names _ _ Hw)]. intros id p cfg Hid.
  pose proof (w_relay _ _ Hw _ _ _ Hid) as Hr. split_and!; [done|by eapply w_punch|]. cbv zeta.
  rewrite Close_eq by done. split.
  - intros ->. by destruct (punches cfg).
  - intros ->. destruct (relays cfg); cbn; intros c c' Hc Hc'; rewrite Hc in Hc'; by injection Hc' as <-.
Qed.

(** An xtcp+xudp proxy that fails to start because its name is taken at the
    hole-punching controller leaves the listener it opened before registered
    under its name, with the proxy's own secret: visitors are still admitted to
    it, and no relaying proxy can take the name any more. *)
Theorem xtcpxudp_run_leaks (rc0 : Rc) (c : Controller) (x : NatController.ClientCfg) (name user : string)
    (cfg : Config.XTCPXUDPProxyConfig) :
  NatHoleController rc0 = Some c → clientCfgs c !! name = Some x →
  listeners (VisitorManager rc0) !! name = None →
  ∃ rc' p e, XTCPXUDP_Run rc0 (mkBase name user []) cfg = (rc', p, Some e) ∧
    listeners (VisitorManager rc') !! name =
      Some (mkBundle (nextIL (VisitorManager rc0)) (Config.xx_Secretkey cfg)
              (effective_users user (Config.xx_AllowUsers cfg))) ∧
    ∀ p' sk users, p_name p' = name → startVisitorListener rc' p' sk users = (rc', p', Some (ErrRepeated name)).
Proof.
  intros Hc Hx Hl. unfold XTCPXUDP_Run. rewrite Hc.
  unfold startVisitorListener at 1, Listen. cbn [p_name p_user]. rewrite Hl.
  unfold listen_client, ListenClient. cbn [set_vm NatHoleController p_name]. rewrite Hc, Hx.
  eexists _, _, _. split; [done|]. cbn. rewrite effective_idem. split; [by rewrite lookup_insert_eq|].
  intros p' sk users <-. unfold startVisitorListener, Listen. cbn. by rewrite lookup_insert_eq.
Qed.
End Ops.

(** ** Witnesses *)

Definition demo_hash (s : string) : string := "#" +:+ s.
Definition demo_cfg : Config.ProxyConfigurer :=
  Config.CSTCP (Config.mkSTCP (Config.set_Type Config.zero_base "stcp") "k" ["bob"; "*"]).
Definition demo_w1 : World :=
  mkWorld (STCP_Run (rc (NewWorld None)) (mkBase "a.ssh" "alice" [])
             (Config.mkSTCP (Config.set_Type Config.zero_base "stcp") "k" ["bob"; "*"])).1.1
    {[0%nat := (mkBase "a.ssh" "alice" [0%nat], demo_cfg)]}.
Definition demo_visit : Msg.NewVisitorConn := Msg.mkNewVisitorConn "r1" "a.ssh" "#k7" 7 true false.
Definition demo_v : visit := mkVisit 5 demo_visit "carol" "v2".
Definition demo_svc : Sessions.Service :=
  (Sessions.RegisterControl_add None true 5 1 Sessions.NewService (Registry.mkLogin "carol" "" "r1" "h" "v" "a" "v2")).1.
Definition demo_s : Server := mkServer (after_NewConn demo_hash demo_w1 demo_v true) demo_svc ∅.

Lemma demo_s_reachable : sreachable demo_hash None demo_s.
Proof.
  apply (rtc_l _ _ (mkServer (NewWorld None) demo_svc ∅));
    [apply (SSession demo_hash (NewServer None) demo_svc); by constructor|].
  apply (rtc_l _ _ (mkServer demo_w1 demo_svc ∅)).
  { apply (SProxies demo_hash (mkServer (NewWorld None) demo_svc ∅) demo_w1).
    apply (WRun (NewWorld None) 0 "a.ssh" "alice" demo_cfg); vm_compute; reflexivity. }
  apply (rtc_l _ _ (mkServer demo_w1 demo_svc {[0%nat := demo_v]})).
  { by apply (SLookup demo_hash (mkServer demo_w1 demo_svc ∅) 0 5 demo_visit "carol" "v2"). }
  apply rtc_once. exact (SNewConn demo_hash (mkServer demo_w1 demo_svc {[0%nat := demo_v]}) 0 demo_v true eq_refl).
Qed.

Lemma secret_conns_authorised_witness :
  ∃ c, acceptCh <$> ils (VisitorManager (rc (world demo_s))) !! 0%nat = Some [c] ∧
    Msg.nvc_SignKey (vc_msg c) = NatController.GetAuthKey demo_hash "k" 7 ∧ vc_encrypted c = Some "k".
Proof.
  eexists. split; [vm_compute; reflexivity|].
  destruct (secret_conns_authorised demo_hash None demo_s 0 (mkBase "a.ssh" "alice" [0%nat]) demo_cfg 0
    (mkListener [mkVisitorConn 5 (Some "k") false "v2" demo_visit "carol"] false)
    (mkVisitorConn 5 (Some "k") false "v2" demo_visit "carol") demo_s_reachable)
    as (_ & Hs & _ & He & _).
  - vm_compute. reflexivity.
  - left.
  - vm_compute. reflexivity.
  - left.
  - split; [exact Hs|exact He].
Defined.

Lemma secret_names_owned_witness :
  listeners (VisitorManager (Close (rc (world demo_s)) (mkBase "a.ssh" "alice" [0%nat]) demo_cfg)) !! "a.ssh" = None.
Proof.
  destruct (secret_names_owned demo_hash None demo_s demo_s_reachable) as [H _].
  destruct (H 0%nat (mkBase "a.ssh" "alice" [0%nat]) demo_cfg) as (_ & _ & Hc & _); [vm_compute; reflexivity|].
  rewrite (Hc eq_refl). apply lookup_delete_eq.
Defined.

Definition demo_xx : Config.XTCPXUDPProxyConfig :=
  Config.mkXTCPXUDP (Config.set_Type Config.zero_base "xtcp+xudp") "s" [] 0 None.
Definition demo_nat : Controller :=
  (ListenClient (NatController.NewController 0) "x" "k" ["alice"]).1.

Lemma xtcpxudp_run_leaks_witness :
  ∃ rc' p e, XTCPXUDP_Run (mkRc NewManager (Some demo_nat)) (mkBase "x" "bob" []) demo_xx = (rc', p, Some e) ∧
    is_Some (listeners (VisitorManager rc') !! "x").
Proof.
  destruct (xtcpxudp_run_leaks (mkRc NewManager (Some demo_nat)) demo_nat
    (NatController.mkClientCfg "x" "k" ["alice"]) "x" "bob" demo_xx eq_refl eq_refl eq_refl)
    as (rc' & p & e & Hr & Hl & _).
  exists rc', p, e. split; [exact Hr|]. rewrite Hl. by eexists.
Defined.
End SecretProxies.
