(* ===== verification/Transport.v ===== *)
(** Messages over a control connection: the dispatcher of pkg/msg/handler.go,
    which queues outgoing messages and hands incoming ones to their handlers,
    and the transporter of pkg/transport/message.go, which sends a request and
    waits for the response of a given type and lane key.

    A call of [Do] and a call of [DispatchWithType] are threads that move one
    action at a time; an action ends where another thread could notice.
    Channels are objects in a heap. *)
From Stdlib Require Import ZArith Lia.
From stdpp Require Import base gmap strings list fin_maps relations.
From S2P Require Import Prelude.

Module Transport.

(** ** The transporter *)

Section Transporter.
Context {M : Type}.

(** A channel of capacity one. *)
Record Chan := mkChan { buf : option M; closed : bool }.

Inductive do_error := ErrSend | ErrContext.

(** Where a call of [Do] is. *)
Inductive do_pc :=
| DSend                                (* impl.Send(req) *)
| DWait                                (* select on ctx.Done() and ch *)
| DUnregister (r : res do_error M)     (* the deferred unregisterFn() *)
| DClose (r : res do_error M)          (* the deferred close(ch) *)
| DEnd (r : res do_error M).

Record Call := mkCall { c_laneKey : string; c_recvMsgType : string; c_ch : nat; c_pc : do_pc }.

(** A call of [DispatchWithType] that has found its channel and is sending. *)
Record Disp := mkDisp { d_msg : M; d_msgType : string; d_laneKey : string; d_ch : nat }.

(** [registry] is by message type, then by lane key; the inner map of a type is
    made once and never replaced, so a closure that holds it sees this one. *)
Record transporterImpl := mkTransporter {
  registry : gmap string (gmap string nat);
  chans : gmap nat Chan;
  nextCh : nat;
  calls : gmap nat Call;
  disps : gmap nat Disp
}.

Definition NewMessageTransporter : transporterImpl := mkTransporter ∅ ∅ 0 ∅ ∅.

Definition registered (t : transporterImpl) (msgType laneKey : string) : option nat :=
  registry t !! msgType ≫= λ byLaneKey, byLaneKey !! laneKey.

Definition set_call (t : transporterImpl) (i : nat) (c : Call) : transporterImpl :=
  mkTransporter (registry t) (chans t) (nextCh t) (<[i := c]> (calls t)) (disps t).
Definition goto (c : Call) (pc : do_pc) : Call := mkCall (c_laneKey c) (c_recvMsgType c) (c_ch c) pc.

(** [registerMsgChan]. *)
Definition registerMsgChan (t : transporterImpl) (ch : nat) (laneKey msgType : string) : transporterImpl :=
  mkTransporter (<[msgType := <[laneKey := ch]> (default ∅ (registry t !! msgType))]> (registry t))
    (chans t) (nextCh t) (calls t) (disps t).

(** The function it returns. *)
Definition unregister (t : transporterImpl) (laneKey msgType : string) : transporterImpl :=
  mkTransporter (alter (delete laneKey) msgType (registry t)) (chans t) (nextCh t) (calls t) (disps t).

(** [Do] up to sending, as the call [i]. *)
Definition do_start (t : transporterImpl) (i : nat) (laneKey recvMsgType : string) : transporterImpl :=
  let ch := nextCh t in
  let t := mkTransporter (registry t) (<[ch := mkChan None false]> (chans t)) (S ch) (calls t) (disps t) in
  set_call (registerMsgChan t ch laneKey recvMsgType) i (mkCall laneKey recvMsgType ch DSend).

(** The next action of a call; [ok]: the request can be sent, or the context is
    not done. [None] while it waits. *)
Definition do_step (t : transporterImpl) (i : nat) (c : Call) (ok : bool) : option transporterImpl :=
  match c_pc c with
  | DSend => Some (set_call t i (goto c (if ok then DWait else DUnregister (Err ErrSend))))
  | DWait =>
      if negb ok then Some (set_call t i (goto c (DUnregister (Err ErrContext))))
      else match chans t !! c_ch c ≫= buf with
           | None => None
           | Some m =>
               Some (set_call (mkTransporter (registry t) (alter (λ x, mkChan None (closed x)) (c_ch c) (chans t))
                       (nextCh t) (calls t) (disps t)) i (goto c (DUnregister (Ok m))))
           end
  | DUnregister r => Some (set_call (unregister t (c_laneKey c) (c_recvMsgType c)) i (goto c (DClose r)))
  | DClose r =>
      Some (set_call (mkTransporter (registry t) (alter (λ x, mkChan (buf x) true) (c_ch c) (chans t))
              (nextCh t) (calls t) (disps t)) i (goto c (DEnd r)))
  | DEnd _ => None
  end.

(** [DispatchWithType]: the lookup; without a channel it returns false. *)
Definition dispatch_start (t : transporterImpl) (j : nat) (m : M) (msgType laneKey : string) :
    transporterImpl * option bool :=
  match registered t msgType laneKey with
  | None => (t, Some false)
  | Some ch => (mkTransporter (registry t) (chans t) (nextCh t) (calls t)
                  (<[j := mkDisp m msgType laneKey ch]> (disps t)), None)
  end.

(** ... and sending: a closed channel panics, which is caught, and a full one
    makes it wait. *)
Definition dispatch_step (t : transporterImpl) (j : nat) (d : Disp) : option (transporterImpl * bool) :=
  let t' := mkTransporter (registry t) (chans t) (nextCh t) (calls t) (delete j (disps t)) in
  match chans t !! d_ch d with
  | None => None
  | Some x =>
      if closed x then Some (t', false)
      else match buf x with
           | Some _ => None
           | None => Some (mkTransporter (registry t) (<[d_ch d := mkChan (Some (d_msg d)) false]> (chans t))
                             (nextCh t) (calls t) (delete j (disps t)), true)
           end
  end.

(** ** Histories

    [EDo] is logged when a call registers, [EDispatch] when a dispatch looks its
    channel up. [may t msgType laneKey]: a call may start in state [t]. *)
Inductive event := EDo (i : nat) (laneKey recvMsgType : string) | EDispatch (m : M) (msgType laneKey : string).

Inductive history (may : transporterImpl → string → string → Prop) : list event → transporterImpl → Prop :=
| HNew : history may [] NewMessageTransporter
| HDo evs t i laneKey recvMsgType :
    history may evs t → calls t !! i = None → may t recvMsgType laneKey →
    history may (evs ++ [EDo i laneKey recvMsgType]) (do_start t i laneKey recvMsgType)
| HCall evs t i c ok t' :
    history may evs t → calls t !! i = Some c → do_step t i c ok = Some t' → history may evs t'
| HLookup evs t j m msgType laneKey :
    history may evs t → disps t !! j = None →
    history may (evs ++ [EDispatch m msgType laneKey]) (dispatch_start t j m msgType laneKey).1
| HPut evs t j d t' b :
    history may evs t → disps t !! j = Some d → dispatch_step t j d = Some (t', b) → history may evs t'.

(** [m] was dispatched under the type and lane key of call [i], after it registered. *)
Definition answered (evs : list event) (i : nat) (c : Call) (m : M) : Prop :=
  ∃ pre post, evs = pre ++ EDo i (c_laneKey c) (c_recvMsgType c) :: post ∧
    EDispatch m (c_recvMsgType c) (c_laneKey c) ∈ post.

Definition result_of (pc : do_pc) : option (res do_error M) :=
  match pc with DUnregister r | DClose r | DEnd r => Some r | DSend | DWait => None end.

Definition ended (pc : do_pc) : bool := match pc with DEnd _ => true | _ => false end.

Record inv (evs : list event) (t : transporterImpl) : Prop := {
  i_next : ∀ ch, is_Some (chans t !! ch) → (ch < nextCh t)%nat;
  i_chan : ∀ i c, calls t !! i = Some c → ∃ x, chans t !! c_ch c = Some x ∧ closed x = ended (c_pc c);
  i_own : ∀ i i' c c', calls t !! i = Some c → calls t !! i' = Some c' → c_ch c = c_ch c' → i = i';
  i_do : ∀ i c, calls t !! i = Some c → EDo i (c_laneKey c) (c_recvMsgType c) ∈ evs;
  i_reg : ∀ ty la ch, registered t ty la = Some ch →
    ∃ i c, calls t !! i = Some c ∧ c_ch c = ch ∧ c_recvMsgType c = ty ∧ c_laneKey c = la;
  i_disp : ∀ j d, disps t !! j = Some d → ∃ i c, calls t !! i = Some c ∧ c_ch c = d_ch d ∧ answered evs i c (d_msg d);
  i_buf : ∀ i c x m, calls t !! i = Some c → chans t !! c_ch c = Some x → buf x = Some m → answered evs i c m;
  i_result : ∀ i c m, calls t !! i = Some c → result_of (c_pc c) = Some (Ok m) → answered evs i c m
}.

Lemma answered_mono evs e i c m : answered evs i c m → answered (evs ++ [e]) i c m.
Proof.
  intros (pre & post & -> & Hin). exists pre, (post ++ [e]). split; [by rewrite <-app_assoc|].
  apply elem_of_app. by left.
Qed.

Lemma answered_now evs i c m :
  EDo i (c_laneKey c) (c_recvMsgType c) ∈ evs → answered (evs ++ [EDispatch m (c_recvMsgType c) (c_laneKey c)]) i c m.
Proof.
  intros (pre & post & ->)%list_elem_of_split. exists pre, (post ++ [EDispatch m (c_recvMsgType c) (c_laneKey c)]).
  split; [by rewrite <-app_assoc|]. apply elem_of_app. right. left.
Qed.

(** A call at another place is answered by the same messages. *)
Lemma answered_goto evs i c pc m : answered evs i (goto c pc) m ↔ answered evs i c m.
Proof. done. Qed.

Lemma registered_register t ch laneKey msgType ty la :
  registered (registerMsgChan t ch laneKey msgType) ty la =
  if decide ((ty, la) = (msgType, laneKey)) then Some ch else registered t ty la.
Proof.
  unfold registered. cbn [registry registerMsgChan]. case_decide as Hd.
  - injection Hd as -> ->. rewrite lookup_insert_eq. cbn. by rewrite lookup_insert_eq.
  - destruct (decide (ty = msgType)) as [->|Hne]; [|by rewrite lookup_insert_ne].
    rewrite lookup_insert_eq. cbn. rewrite lookup_insert_ne by congruence.
    by destruct (registry t !! msgType); cbn; [|rewrite lookup_empty].
Qed.

Lemma registered_unregister t laneKey msgType ty la :
  registered (unregister t laneKey msgType) ty la =
  if decide ((ty, la) = (msgType, laneKey)) then None else registered t ty la.
Proof.
  unfold registered. cbn [registry unregister]. destruct (decide (ty = msgType)) as [->|Hne].
  - rewrite lookup_alter_eq. destruct (registry t !! msgType) as [by_lane|]; cbn; [|by case_decide].
    case_decide as Hd; [injection Hd as ->; apply lookup_delete_eq|]. rewrite lookup_delete_ne; [done|congruence].
  - rewrite lookup_alter_ne, decide_False by congruence. done.
Qed.

Lemma inv_do evs t i laneKey recvMsgType :
  inv evs t → calls t !! i = None → inv (evs ++ [EDo i laneKey recvMsgType]) (do_start t i laneKey recvMsgType).
Proof.
  intros [Hn Hc Ho Hd Hr Hdi Hb Hre] Hi. set (c0 := mkCall laneKey recvMsgType (nextCh t) DSend).
  assert (∀ k c, calls t !! k = Some c → c_ch c ≠ nextCh t) as Hold.
  { intros k c Hk Heq. destruct (Hc _ _ Hk) as (x & Hx & _). assert (c_ch c < nextCh t)%nat by (apply Hn; eauto). lia. }
  constructor.
  - cbn. intros ch [x [[<- _]|[_ Hx]]%lookup_insert_Some]; [lia|]. assert (ch < nextCh t)%nat; [apply Hn; eauto|lia].
  - cbn. intros k c [[<- <-]|[_ Hk]]%lookup_insert_Some; cbn; [rewrite lookup_insert_eq; by eexists|].
    rewrite lookup_insert_ne by (apply not_eq_sym; by eapply Hold). by apply Hc in Hk.
  - cbn. intros k k' c c' [[<- <-]|[_ H1]]%lookup_insert_Some [[<- <-]|[_ H2]]%lookup_insert_Some; cbn; try done.
    + intros Heq. by destruct (Hold _ _ H2).
    + intros Heq. by destruct (Hold _ _ H1).
    + by apply Ho.
  - cbn. intros k c [[<- <-]|[_ Hk]]%lookup_insert_Some; apply elem_of_app; [right; left|left; by eapply Hd].
  - intros ty la ch Hreg. change (registered (registerMsgChan t (nextCh t) laneKey recvMsgType) ty la = Some ch) in Hreg.
    rewrite registered_register in Hreg. case_decide as Hdec.
    + injection Hdec as -> ->. injection Hreg as <-. exists i, c0. cbn. by rewrite lookup_insert_eq.
    + apply Hr in Hreg as (k & c & Hk & ?). exists k, c. cbn. rewrite lookup_insert_ne; [done|congruence].
  - cbn. intros j d (k & c & Hk & ? & ?)%Hdi. exists k, c. rewrite lookup_insert_ne by congruence.
    split_and!; [done..|by apply answered_mono].
  - cbn. intros k c x m [[<- <-]|[_ Hk]]%lookup_insert_Some; cbn.
    + rewrite lookup_insert_eq. by intros [= <-].
    + rewrite lookup_insert_ne by (apply not_eq_sym; by eapply Hold). intros Hx Hm.
      by eapply answered_mono, Hb.
  - cbn. intros k c m [[<- <-]|[_ Hk]]%lookup_insert_Some Hm; [done|]. by apply answered_mono, Hre.
Qed.

Lemma alter_Some {A} (f : A → A) (m : gmap nat A) i x : m !! i = Some x → alter f i m = <[i := f x]> m.
Proof.
  intros Hx. apply map_eq. intros k. destruct (decide (k = i)) as [->|Hne].
  - by rewrite lookup_alter_eq, Hx, lookup_insert_eq.
  - by rewrite lookup_alter_ne, lookup_insert_ne by done.
Qed.

(** A call that moves, with what it does to its channel and the registry. *)
Lemma inv_move evs t i c pc x x' reg' :
  inv evs t → calls t !! i = Some c → chans t !! c_ch c = Some x →
  closed x' = ended pc → (∀ m, buf x' = Some m → buf x = Some m) →
  (∀ m, result_of pc = Some (Ok m) → answered evs i c m) →
  (∀ ty la ch, reg' !! ty ≫= (λ b, b !! la) = Some ch → registered t ty la = Some ch) →
  inv evs (mkTransporter reg' (<[c_ch c := x']> (chans t)) (nextCh t) (<[i := goto c pc]> (calls t)) (disps t)).
Proof.
  intros [Hn Hc Ho Hd Hr Hdi Hb Hre] Hi Hx Hcl Hbuf Hres Hreg.
  assert (∀ k c', <[i := goto c pc]> (calls t) !! k = Some c' →
    (k = i ∧ c' = goto c pc) ∨ (calls t !! k = Some c' ∧ c_ch c' ≠ c_ch c)) as Hcases.
  { intros k c' [[<- <-]|[Hne Hk]]%lookup_insert_Some; [by left|right]. split; [done|].
    intros Heq. by apply Hne, (Ho _ _ _ _ Hi Hk). }
  assert (∀ k c', calls t !! k = Some c' → ∃ pc', <[i := goto c pc]> (calls t) !! k = Some (goto c' pc')) as Hfwd.
  { intros k c' Hk. destruct (decide (k = i)) as [->|Hne].
    - exists pc. rewrite lookup_insert_eq. congruence.
    - exists (c_pc c'). rewrite lookup_insert_ne by done. rewrite Hk. by destruct c'. }
  constructor; cbn [chans calls disps nextCh].
  - intros ch [y [[<- _]|[_ Hy]]%lookup_insert_Some]; apply Hn; eauto.
  - intros k c' [[-> ->]|[Hk Hne]]%Hcases; cbn; [rewrite lookup_insert_eq; by exists x'|].
    rewrite lookup_insert_ne by done. by apply Hc in Hk.
  - intros k k' c1 c2 [[-> ->]|[H1 N1]]%Hcases [[-> ->]|[H2 N2]]%Hcases; cbn; intros Heq; try congruence.
    by eapply Ho.
  - intros k c' [[-> ->]|[Hk _]]%Hcases; [by apply (Hd _ _ Hi)|by apply Hd].
  - intros ty la ch (k & c' & Hk & ?)%Hreg%Hr. destruct (Hfwd _ _ Hk) as [pc' ?]. by exists k, (goto c' pc').
  - intros j d (k & c' & Hk & ? & ?)%Hdi. destruct (Hfwd _ _ Hk) as [pc' ?]. by exists k, (goto c' pc').
  - intros k c' y m [[-> ->]|[Hk Hne]]%Hcases; cbn.
    + rewrite lookup_insert_eq. intros [= <-] Hm%Hbuf. by eapply (Hb i c).
    + rewrite lookup_insert_ne by done. by eapply Hb.
  - intros k c' m [[-> ->]|[Hk Hne]]%Hcases Hm; [by apply Hres|by eapply Hre].
Qed.

Lemma inv_call evs t i c ok t' :
  inv evs t → calls t !! i = Some c → do_step t i c ok = Some t' → inv evs t'.
Proof.
  intros Hi Hc. destruct (i_chan _ _ Hi _ _ Hc) as (x & Hx & Hcl). unfold do_step.
  pose proof (λ m, i_result _ _ Hi i c m Hc) as Hres.
  assert (∀ pc, closed x = ended pc → (∀ m, result_of pc = Some (Ok m) → answered evs i c m) →
    inv evs (set_call t i (goto c pc))) as Hstay.
  { intros pc Hp Hm. pose proof (inv_move evs t i c pc x x (registry t) Hi Hc Hx Hp (λ _, id) Hm (λ _ _ _, id)) as H.
    by rewrite insert_id in H. }
  destruct (c_pc c) as [| |r|r|r] eqn:Hpc; cbn in Hcl.
  - intros [= <-]. apply Hstay; by destruct ok.
  - destruct ok; cbn; [|intros [= <-]; by apply Hstay].
    rewrite Hx. cbn. destruct (buf x) as [m|] eqn:Hbuf; [|done]. intros [= <-].
    unfold set_call. cbn. rewrite (alter_Some _ _ _ _ Hx).
    eapply inv_move; try done. cbn. intros m' [= <-]. by eapply i_buf.
  - intros [= <-].
    pose proof (inv_move evs t i c (DClose r) x x (registry (unregister t (c_laneKey c) (c_recvMsgType c)))
      Hi Hc Hx Hcl (λ _, id) (λ m Hm, Hres m Hm)) as H. rewrite insert_id in H by done. apply H.
    intros ty la ch Hreg. change (registered (unregister t (c_laneKey c) (c_recvMsgType c)) ty la = Some ch) in Hreg.
    rewrite registered_unregister in Hreg. by case_decide.
  - intros [= <-]. unfold set_call. cbn. rewrite (alter_Some _ _ _ _ Hx). by eapply inv_move.
  - done.
Qed.

Lemma inv_lookup evs t j m msgType laneKey :
  inv evs t → inv (evs ++ [EDispatch m msgType laneKey]) (dispatch_start t j m msgType laneKey).1.
Proof.
  intros [Hn Hc Ho Hd Hr Hdi Hb Hre]. unfold dispatch_start.
  destruct (registered t msgType laneKey) as [ch|] eqn:Hreg; cbn;
    (constructor; cbn; [done..| |done| |intros; by eapply answered_mono, Hb|intros; by eapply answered_mono, Hre]);
    try (intros i c Hi; apply elem_of_app; left; by apply Hd).
  - intros k d [[<- <-]|[_ (i & c & ? & ? & ?)%Hdi]]%lookup_insert_Some.
    + apply Hr in Hreg as (i & c & Hi & <- & <- & <-). exists i, c. split_and!; [done..|]. cbn.
      by apply answered_now, Hd.
    + exists i, c. split_and!; [done..|by apply answered_mono].
  - intros k d (i & c & ? & ? & ?)%Hdi. exists i, c. split_and!; [done..|by apply answered_mono].
Qed.

Lemma inv_put evs t j d t' b :
  inv evs t → disps t !! j = Some d → dispatch_step t j d = Some (t', b) → inv evs t'.
Proof.
  intros [Hn Hc Ho Hd Hr Hdi Hb Hre] Hj. unfold dispatch_step.
  destruct (chans t !! d_ch d) as [x|] eqn:Hx; [|done].
  destruct (closed x) eqn:Hcl; [|destruct (buf x) eqn:Hbuf; [done|]]; intros [= <- _];
    (constructor; cbn; try done); try (intros k y [_ Hk]%lookup_delete_Some; by eapply Hdi).
  - intros ch [y [[<- _]|[_ Hy]]%lookup_insert_Some]; apply Hn; eauto.
  - intros i c Hi. destruct (Hc _ _ Hi) as (y & Hy & Hcy). destruct (decide (c_ch c = d_ch d)) as [Heq|Hne].
    + rewrite Heq, lookup_insert_eq. eexists. split; [done|]. cbn. congruence.
    + rewrite lookup_insert_ne by done. eauto.
  - intros i c y m Hi [[Heq <-]|[_ Hy]]%lookup_insert_Some; [|by eapply Hb]. cbn. intros [= <-].
    destruct (Hdi _ _ Hj) as (i' & c' & Hi' & Heq' & Ha).
    assert (i' = i) as -> by (eapply Ho; [done..|congruence]). by assert (c' = c) as -> by congruence.
Qed.

Lemma inv_history may evs t : history may evs t → inv evs t.
Proof.
  induction 1 as [|evs t i la ty _ IH Hi _|evs t i c ok t' _ IH Hi Hs|evs t j m ty la _ IH _|evs t j d t' b _ IH Hj Hs].
  - constructor; try done. by intros ch [? ?].
  - by apply inv_do.
  - by eapply inv_call.
  - by apply inv_lookup.
  - by eapply inv_put.
Qed.

(** ** Calls with different lane keys *)

(** Past the deferred [unregisterFn()]. *)
Definition past (pc : do_pc) : bool := match pc with DClose _ | DEnd _ => true | _ => false end.

(** No call under way waits for this type and lane key. *)
Definition no_live (t : transporterImpl) (msgType laneKey : string) : Prop :=
  ∀ i c, calls t !! i = Some c → c_recvMsgType c = msgType → c_laneKey c = laneKey → past (c_pc c) = true.

Lemma do_step_shape t i c ok t' :
  do_step t i c ok = Some t' →
  ∃ pc, calls t' = <[i := goto c pc]> (calls t) ∧ disps t' = disps t ∧
    (past (c_pc c) = past pc ∧ registry t' = registry t ∨
     past (c_pc c) = false ∧ past pc = true ∧ registry t' = registry (unregister t (c_laneKey c) (c_recvMsgType c))).
Proof.
  unfold do_step. destruct (c_pc c) as [| |r|r|r]; try done.
  - intros [= <-]. eexists. split_and!; [done..|left]. by destruct ok.
  - destruct ok; cbn; [|intros [= <-]; eexists; split_and!; [done..|by left]].
    destruct (_ ≫= buf); [|done]. intros [= <-]. eexists. split_and!; [done..|by left].
  - intros [= <-]. eexists. split_and!; [done..|by right].
  - intros [= <-]. eexists. split_and!; [done..|by left].
Qed.

Lemma live_registered evs t :
  history no_live evs t → ∀ i c, calls t !! i = Some c → past (c_pc c) = false →
  registered t (c_recvMsgType c) (c_laneKey c) = Some (c_ch c).
Proof.
  induction 1 as [|evs t i la ty H IH Hi Hno|evs t i c ok t' H IH Hi Hs|evs t j m ty la H IH _|evs t j d t' b H IH Hj Hs];
    intros k c' Hk Hp.
  - done.
  - change (registered (registerMsgChan t (nextCh t) la ty) (c_recvMsgType c') (c_laneKey c') = Some (c_ch c')).
    rewrite registered_register. cbn in Hk. apply lookup_insert_Some in Hk as [[<- <-]|[_ Hk]]; cbn.
    + by rewrite decide_True.
    + rewrite decide_False; [by apply (IH k)|]. intros [= Ht Hl]. by rewrite (Hno _ _ Hk Ht Hl) in Hp.
  - apply do_step_shape in Hs as (pc & Hc & _ & Hreg). rewrite Hc in Hk.
    assert (registered t (c_recvMsgType c') (c_laneKey c') = Some (c_ch c')) as Hr.
    { apply lookup_insert_Some in Hk as [[<- <-]|[_ Hk]]; [|by apply (IH k)].
      destruct Hreg as [[Hpp _]|(_ & Hpp & _)]; cbn in Hp; [|congruence]. apply (IH i c Hi). congruence. }
    destruct Hreg as [[_ Heq]|(Hpc & Hpp & Heq)]; unfold registered; rewrite Heq; [done|].
    fold (registered (unregister t (c_laneKey c) (c_recvMsgType c)) (c_recvMsgType c') (c_laneKey c')).
    rewrite registered_unregister. case_decide as Hd; [|done]. exfalso.
    apply lookup_insert_Some in Hk as [[<- <-]|[Hne Hk]]; [cbn in Hp; congruence|].
    injection Hd as Ht Hl. pose proof (IH i c Hi Hpc) as Hr'. rewrite <-Ht, <-Hl, Hr in Hr'. injection Hr' as Heq'.
    by apply Hne, (i_own _ _ (inv_history _ _ _ H) _ _ _ _ Hi Hk).
  - unfold dispatch_start in *. destruct (registered t ty la); by apply (IH k).
  - unfold dispatch_step in Hs. destruct (chans t !! d_ch d) as [x|]; [|done].
    destruct (closed x); [|destruct (buf x)]; simplify_eq; by apply (IH k).
Qed.

(** ** Properties *)

(** A call of Do returns only an answer to itself: the message it returns was
    dispatched under the type and the lane key it waits for, and after it had
    registered, whatever other calls and dispatches do meanwhile, late answers
    to earlier calls with the same key included. *)
Theorem response_matches may (evs : list event) (t : transporterImpl) (i : nat) (c : Call) (m : M) :
  history may evs t → calls t !! i = Some c → result_of (c_pc c) = Some (Ok m) → answered evs i c m.
Proof. intros Hh Hc Hr. exact (i_result _ _ (inv_history _ _ _ Hh) _ _ _ Hc Hr). Qed.

(** While no two calls under way wait for the same type and lane key, an
    answer is never lost: a message dispatched for a waiting call whose channel
    is empty is put there and the call returns it. *)
Theorem response_delivered (evs : list event) (t : transporterImpl) (i j : nat) (c : Call) (m : M) :
  history no_live evs t → calls t !! i = Some c → c_pc c = DWait → chans t !! c_ch c ≫= buf = None →
  let d := mkDisp m (c_recvMsgType c) (c_laneKey c) (c_ch c) in
  let t1 := (dispatch_start t j m (c_recvMsgType c) (c_laneKey c)).1 in
  disps t1 !! j = Some d ∧
  ∃ t2 t3, dispatch_step t1 j d = Some (t2, true) ∧ calls t2 = calls t ∧ do_step t2 i c true = Some t3 ∧
    calls t3 !! i = Some (goto c (DUnregister (Ok m))).
Proof.
  intros Hh Hc Hw Hbuf. cbv zeta. unfold dispatch_start.
  rewrite (live_registered _ _ Hh _ _ Hc) by by rewrite Hw. cbn. split; [by rewrite lookup_insert_eq|].
  destruct (i_chan _ _ (inv_history _ _ _ Hh) _ _ Hc) as (x & Hx & Hcl). rewrite Hw in Hcl. cbn in Hcl.
  unfold dispatch_step. cbn. rewrite Hx, Hcl. rewrite Hx in Hbuf. cbn in Hbuf. rewrite Hbuf.
  eexists _, _. split_and!; [done..| |].
  - unfold do_step. rewrite Hw. cbn. rewrite lookup_insert_eq. done.
  - cbn. by rewrite lookup_insert_eq.
Qed.

(** The moves of one call. *)
Definition moves (i : nat) (t t' : transporterImpl) : Prop :=
  ∃ c ok, calls t !! i = Some c ∧ do_step t i c ok = Some t'.

(** The owner of a full channel empties or closes it. *)
Lemma unblocks t i c x m :
  calls t !! i = Some c → chans t !! c_ch c = Some x → buf x = Some m → closed x = false → ended (c_pc c) = false →
  ∃ t' y, rtc (moves i) t t' ∧ disps t' = disps t ∧ chans t' !! c_ch c = Some y ∧ (closed y = true ∨ buf y = None).
Proof.
  intros Hc Hx Hb Hcl He.
  assert (∀ t1 pc, calls t1 !! i = Some (goto c pc) → chans t1 = chans t → disps t1 = disps t →
    (pc = DWait ∨ ∃ r, pc = DClose r) →
    ∃ t' y, moves i t1 t' ∧ disps t' = disps t ∧ chans t' !! c_ch c = Some y ∧ (closed y = true ∨ buf y = None)) as Hlast.
  { intros t1 pc H1 Hch Hd [->|[r ->]].
    - eexists _, (mkChan None (closed x)). split_and!; [exists (goto c DWait), true; split; [done|]|..].
      + unfold do_step. cbn. rewrite Hch, Hx. cbn. rewrite Hb. done.
      + done.
      + cbn [set_call chans goto c_ch]. by rewrite ?Hch, lookup_alter_eq, Hx.
      + by right.
    - eexists _, (mkChan (buf x) true). split_and!; [exists (goto c (DClose r)), true; done|done| |by left].
      cbn [set_call chans goto c_ch]. by rewrite ?Hch, lookup_alter_eq, Hx. }
  destruct c as [la ty ch pc]. cbn in *. destruct pc as [| |r|r|r]; try done.
  - destruct (Hlast (set_call t i (mkCall la ty ch DWait)) DWait) as (t' & y & Hm & ?);
      [cbn; by rewrite lookup_insert_eq|done..|by left|]. exists t', y. split; [|done].
    eapply rtc_l; [|by apply rtc_once]. by exists (mkCall la ty ch DSend), true.
  - destruct (Hlast t DWait) as (t' & y & Hm & ?); [done..|by left|]. exists t', y. split; [by apply rtc_once|done].
  - destruct (Hlast (set_call (unregister t la ty) i (mkCall la ty ch (DClose r))) (DClose r)) as (t' & y & Hm & ?);
      [cbn; by rewrite lookup_insert_eq|done..|by right; eexists|]. exists t', y. split; [|done].
    eapply rtc_l; [|by apply rtc_once]. by exists (mkCall la ty ch (DUnregister r)), true.
  - destruct (Hlast t (DClose r)) as (t' & y & Hm & ?); [done..|by right; eexists|].
    exists t', y. split; [by apply rtc_once|done].
Qed.

(** A dispatch cannot be stuck: whenever one waits for a full channel, the
    call that owns the channel can go on without anyone's help, by taking the
    message or by closing the channel, until the dispatch returns. *)
Theorem dispatch_not_stuck may (evs : list event) (t : transporterImpl) (j : nat) (d : Disp) :
  history may evs t → disps t !! j = Some d →
  ∃ i c t' t'' b, calls t !! i = Some c ∧ c_ch c = d_ch d ∧ rtc (moves i) t t' ∧
    disps t' !! j = Some d ∧ dispatch_step t' j d = Some (t'', b).
Proof.
  intros Hh%inv_history Hj. destruct (i_disp _ _ Hh _ _ Hj) as (i & c & Hc & Hch & _). exists i, c.
  destruct (i_chan _ _ Hh _ _ Hc) as (x & Hx & Hcl).
  assert (∀ t1 y, rtc (moves i) t t1 → disps t1 = disps t → chans t1 !! d_ch d = Some y →
    closed y = true ∨ buf y = None →
    ∃ t' t'' b, calls t !! i = Some c ∧ c_ch c = d_ch d ∧ rtc (moves i) t t' ∧
      disps t' !! j = Some d ∧ dispatch_step t' j d = Some (t'', b)) as Hgo.
  { intros t1 y Hr Hd Hy Hcase. exists t1. unfold dispatch_step. rewrite Hy.
    destruct (closed y) eqn:Hcy; [|destruct Hcase as [?|Hb]; [done|rewrite Hb]];
      eexists _, _; split_and!; try done; by rewrite Hd. }
  destruct (closed x) eqn:Hcx; [eapply (Hgo t x); try done; [congruence|by left]|].
  destruct (buf x) as [m|] eqn:Hb; [|eapply (Hgo t x); try done; [congruence|by right]].
  destruct (unblocks t i c x m Hc Hx Hb Hcx) as (t1 & y & Hr & Hd & Hy & Hcase); [by rewrite <-Hcl|].
  rewrite Hch in Hy. by eapply Hgo.
Qed.

End Transporter.

(** ** The dispatcher *)

Section Dispatcher.
Context {M T H : Type} `{Countable T}.
Variable TypeOf : M → T.

(** [sendCh] is the queue; [tried] are the messages given to [WriteMsg], whose
    error is ignored, [accepted] those for which [Send] returned nil, [handled]
    the calls of handlers, all in order. *)
Record Dispatcher := mkDispatcher {
  sendCh : list M; doneCh : bool; sendLoopEnded : bool; msgHandlers : gmap T H;
  tried : list M; accepted : list M; handled : list (H * M) }.

Definition sendCap : nat := 100.

Definition NewDispatcher : Dispatcher := mkDispatcher [] false false ∅ [] [] [].

Definition RegisterHandler (d : Dispatcher) (ty : T) (h : H) : Dispatcher :=
  mkDispatcher (sendCh d) (doneCh d) (sendLoopEnded d) (<[ty := h]> (msgHandlers d))
    (tried d) (accepted d) (handled d).

(** [Send]: of the ready cases of the select one is taken; [prefer_done] is the
    choice when both are. [None] while neither is. *)
Definition Send (d : Dispatcher) (m : M) (prefer_done : bool) : option (Dispatcher * bool) :=
  let enqueue := mkDispatcher (sendCh d ++ [m]) (doneCh d) (sendLoopEnded d) (msgHandlers d)
                   (tried d) (accepted d ++ [m]) (handled d) in
  let room := bool_decide (length (sendCh d) < sendCap)%nat in
  if doneCh d && (prefer_done || negb room) then Some (d, false)
  else if room then Some (enqueue, true) else None.

(** A round of [sendLoop]. *)
Definition sendLoop (d : Dispatcher) (prefer_done : bool) : option Dispatcher :=
  if sendLoopEnded d then None
  else match sendCh d with
       | m :: q =>
           if doneCh d && prefer_done
           then Some (mkDispatcher (sendCh d) true true (msgHandlers d) (tried d) (accepted d) (handled d))
           else Some (mkDispatcher q (doneCh d) false (msgHandlers d) (tried d ++ [m]) (accepted d) (handled d))
       | [] => if doneCh d then Some (mkDispatcher [] true true (msgHandlers d) (tried d) (accepted d) (handled d))
               else None
       end.

(** A round of [readLoop], which has ended when [doneCh] is closed: a message
    was read, or an error. *)
Definition readLoop (d : Dispatcher) (r : option M) : option Dispatcher :=
  if doneCh d then None
  else match r with
       | None => Some (mkDispatcher (sendCh d) true (sendLoopEnded d) (msgHandlers d) (tried d) (accepted d) (handled d))
       | Some m =>
           Some (mkDispatcher (sendCh d) false (sendLoopEnded d) (msgHandlers d) (tried d) (accepted d)
                   (handled d ++ match msgHandlers d !! TypeOf m with Some h => [(h, m)] | None => [] end))
       end.

Inductive dispatcher_step : Dispatcher → Dispatcher → Prop :=
| DsRegister d ty h : dispatcher_step d (RegisterHandler d ty h)
| DsSend d m p d' b : Send d m p = Some (d', b) → dispatcher_step d d'
| DsWrite d p d' : sendLoop d p = Some d' → dispatcher_step d d'
| DsRead d r d' : readLoop d r = Some d' → dispatcher_step d d'.

(** Messages leave in the order they were accepted, none twice, and at most
    those in the queue when the connection ends are lost. *)
Lemma sent_in_order d : rtc dispatcher_step NewDispatcher d →
  tried d ++ sendCh d = accepted d ∧ (length (sendCh d) ≤ sendCap)%nat.
Proof.
  intros Hr. eapply (rtc_invariant dispatcher_step (λ d, tried d ++ sendCh d = accepted d ∧ (length (sendCh d) ≤ sendCap)%nat));
    [|exact Hr|by split; [|cbn; lia]].
  clear d Hr. intros d d' [Ha Hl] Hs. destruct Hs as [d ty h|d m p d' b Hs|d p d' Hs|d r d' Hs]; [done|..].
  - unfold Send in Hs. destruct (doneCh d && _); [by simplify_eq|]. case_bool_decide; simplify_eq. cbn.
    rewrite app_assoc, Ha, length_app. cbn. split; [done|lia].
  - unfold sendLoop in Hs. destruct (sendLoopEnded d); [done|]. destruct (sendCh d) as [|m q] eqn:Hq.
    + destruct (doneCh d); simplify_eq. done.
    + destruct (doneCh d && p); simplify_eq; cbn; [done|]. rewrite <-app_assoc. cbn in *. split; [done|lia].
  - unfold readLoop in Hs. destruct (doneCh d), r; simplify_eq; done.
Qed.
End Dispatcher.

(** ** Witnesses: two calls, the first of which is answered. *)

Notation demo_t := (@transporterImpl string).
Definition demo0 : demo_t := do_start (do_start NewMessageTransporter 0 "a" "Resp") 1 "b" "Resp".
Definition demo1 : demo_t := default demo0 (do_step demo0 0 (mkCall "a" "Resp" 0 DSend) true).
Definition demo2 : demo_t := (dispatch_start demo1 7 "hello" "Resp" "a").1.
Definition demo3 : demo_t := (default (demo2, true) (dispatch_step demo2 7 (mkDisp "hello" "Resp" "a" 0))).1.
Definition demo4 : demo_t := default demo3 (do_step demo3 0 (mkCall "a" "Resp" 0 DWait) true).

Lemma demo1_history : history no_live [EDo 0 "a" "Resp"; EDo 1 "b" "Resp"] demo1.
Proof.
  apply (HCall _ _ demo0 0 (mkCall "a" "Resp" 0 DSend) true); [|done|done].
  apply (HDo no_live [EDo 0 "a" "Resp"] (do_start NewMessageTransporter 0 "a" "Resp") 1 "b" "Resp"); [|done|].
  - apply (HDo no_live [] NewMessageTransporter 0 "a" "Resp"); [constructor|done|by intros i c Hi].
  - intros i c Hi. cbn in Hi. apply lookup_insert_Some in Hi as [[<- <-]|[_ Hi]]; done.
Qed.

Lemma demo4_history :
  history no_live [EDo 0 "a" "Resp"; EDo 1 "b" "Resp"; EDispatch "hello" "Resp" "a"] demo4.
Proof.
  apply (HCall _ _ demo3 0 (mkCall "a" "Resp" 0 DWait) true); [|done|done].
  apply (HPut _ _ demo2 7 (mkDisp "hello" "Resp" "a" 0) demo3 true); [|done|done].
  apply (HLookup no_live [EDo 0 "a" "Resp"; EDo 1 "b" "Resp"] demo1 7 "hello" "Resp" "a"); [|done].
  apply demo1_history.
Qed.

Lemma response_matches_witness :
  answered [EDo 0 "a" "Resp"; EDo 1 "b" "Resp"; EDispatch "hello" "Resp" "a"] 0
    (mkCall "a" "Resp" 0 (DUnregister (Ok "hello"))) "hello".
Proof. apply (response_matches no_live _ demo4); [exact demo4_history|reflexivity|reflexivity]. Defined.

Lemma response_delivered_witness : disps demo2 !! 7%nat = Some (mkDisp "hello" "Resp" "a" 0).
Proof.
  apply (response_delivered [EDo 0 "a" "Resp"; EDo 1 "b" "Resp"] demo1 0 7 (mkCall "a" "Resp" 0 DWait) "hello");
    [exact demo1_history|reflexivity..].
Defined.

Lemma dispatch_not_stuck_witness :
  ∃ t' t'' b, disps t' !! 7%nat = Some (mkDisp "hello" "Resp" "a" 0) ∧
    dispatch_step t' 7 (mkDisp "hello" "Resp" "a" 0) = Some (t'', b).
Proof.
  destruct (dispatch_not_stuck no_live ([EDo 0 "a" "Resp"; EDo 1 "b" "Resp"] ++ [EDispatch "hello" "Resp" "a"]) demo2 7
    (mkDisp "hello" "Resp" "a" 0)) as (i & c & t' & t'' & b & _ & _ & _ & Hd & Hs).
  - apply HLookup; [exact demo1_history|reflexivity].
  - reflexivity.
  - exists t', t'', b. split; [exact Hd|exact Hs].
Defined.
End Transport.
