(* ===== verification/Dashboard.v ===== *)
(** The second dashboard API of frps, server/http/controller_v2.go: lists of
    users, clients and proxies with filters, sorting and pages, the details of
    one, and what a proxy's configuration shows.

    The handlers read the registry of [Registry], the statistics of [Metrics]
    and the proxy manager. The order in which Go iterates over a map is an
    argument, and differs from one request to the next. [slices.SortFunc] is a
    sort by the handler's comparison; [client_pages] shows that every
    sorting algorithm gives the same list. *)
From Stdlib Require Import ZArith Lia Ascii String Sorted.
From stdpp Require Import base gmap strings list fin_maps sorting relations.
From S2P Require Import Prelude GoLib GoNetip Wire Msg Registry ConfigTypes Config Metrics.

Local Open Scope Z_scope.
Local Open Scope frp_scope.

Module Dashboard.
Import Metrics (int64).

(** ** Errors and queries *)

Inductive error :=
| BadRequest (text : string)
| NotFound (text : string)
| Internal (text : string).

(** The query of a request; an absent value is "", except for [user], whose
    presence matters. *)
Record Query := mkQuery {
  q_page : string; q_pageSize : string; q_status : string; q_type : string; q_user : option string;
  q_clientID : string; q_runID : string; q_q : string }.

Definition defaultV2Page : Z := 1.
Definition defaultV2PageSize : Z := 50.
Definition maxV2PageSize : Z := 200.

Definition parseV2PositiveInt (raw : string) (defaultValue : Z) (name : string) : res error Z :=
  if String.eqb raw "" then Ok defaultValue
  else match Atoi raw with
       | Some value =>
           if value <? 1 then Err (BadRequest (name +:+ " must be a positive integer")) else Ok value
       | None => Err (BadRequest (name +:+ " must be a positive integer"))
       end.

Definition parseV2PageParams (ctx : Query) : res error (Z * Z) :=
  let? page := parseV2PositiveInt (q_page ctx) defaultV2Page "page" in
  let? pageSize := parseV2PositiveInt (q_pageSize ctx) defaultV2PageSize "pageSize" in
  if maxV2PageSize <? pageSize then
    Err (BadRequest ("pageSize must be between 1 and " +:+ Itoa maxV2PageSize))
  else if Z.quot int64_max pageSize <? page then Err (BadRequest "page is too large")
  else Ok (page, pageSize).

Definition parseV2StatusFilter (raw : string) : res error string :=
  let status := ToLower raw in
  if bool_decide (status ∈ [""; "all"; "online"; "offline"]) then Ok status
  else Err (BadRequest "status must be one of all, online, offline").

Definition apiV2ProxyTypes : list string :=
  ["tcp"; "udp"; "http"; "https"; "tcpmux"; "stcp"; "xtcp"; "sudp"; "xudp"; "tcp+udp"; "stcp+sudp";
   "xtcp+xudp"; "mc"; "pe"].

Definition parseV2ProxyTypeFilter (raw : string) : res error string :=
  let proxyType := ToLower raw in
  if String.eqb proxyType "" then Ok ""
  else if bool_decide (proxyType ∈ apiV2ProxyTypes) then Ok proxyType
  else Err (BadRequest ("type must be one of " +:+ Join apiV2ProxyTypes ", ")).

Definition parseV2SystemPruneType (raw : string) : res error string :=
  let pruneType := ToLower raw in
  if String.eqb pruneType "" then Err (BadRequest "type is required")
  else if String.eqb pruneType "offline_proxies" then Ok pruneType
  else Err (BadRequest "type must be one of offline_proxies").

Definition matchV2StatusFilter (online : bool) (filter : string) : bool :=
  if String.eqb filter "online" then online else if String.eqb filter "offline" then negb online else true.

Definition containsV2Query (q : string) (values : list string) : bool :=
  existsb (λ value, StringContains (ToLower value) q) values.

(** ** Pages *)

(** [items[start:end]]; [None] is a panic. *)
Definition slice {T} (items : list T) (start end_ : Z) : option (list T) :=
  if (0 <=? start) && (start <=? end_) && (end_ <=? Z.of_nat (length items))
  then Some (take (Z.to_nat (end_ - start)) (drop (Z.to_nat start) items)) else None.

Definition paginateV2Items {T} (items : list T) (page pageSize : Z) : option (list T) :=
  let start := int64 ((page - 1) * pageSize) in
  if Z.of_nat (length items) <=? start then Some []
  else slice items start (Z.min (int64 (start + pageSize)) (Z.of_nat (length items))).

Record V2PageResp (T : Type) := mkPageResp { Total : Z; Page : Z; PageSize : Z; Items : option (list T) }.
Arguments mkPageResp {T}.
Arguments Total {T}.
Arguments Page {T}.
Arguments PageSize {T}.
Arguments Items {T}.

Definition buildV2PageResp {T} (items : list T) (page pageSize : Z) : V2PageResp T :=
  mkPageResp (Z.of_nat (length items)) page pageSize (paginateV2Items items page pageSize).

(** ** Sorting by several strings *)

(** A chain of [cmp.Compare], the first that is not zero deciding. *)
Fixpoint cmp_le (x y : list string) : bool :=
  match x, y with
  | [], _ => true
  | _ :: _, [] => false
  | a :: x, b :: y => if String.eqb a b then cmp_le x y else bool_decide (String.le a b)
  end.

Definition by_key {T} (key : T → list string) (a b : T) : Prop := cmp_le (key a) (key b) = true.
#[global] Instance by_key_dec {T} (key : T → list string) : RelDecision (by_key key).
Proof. intros a b. unfold by_key. apply _. Defined.

Definition SortFunc {T} (key : T → list string) (items : list T) : list T := merge_sort (by_key key) items.

(** ** Clients *)

Record ClientInfoResp := mkClientInfoResp {
  ci_Key : string; ci_User : string; ci_ClientID : string; ci_RunID : string; ci_Version : string;
  ci_WireProtocol : string; ci_Hostname : string; ci_ClientIP : string; ci_FirstConnectedAt : Z;
  ci_LastConnectedAt : Z; ci_DisconnectedAt : Z; ci_Online : bool }.

Definition toUnix (t : Z) : Z := if Metrics.IsZero t then 0 else Metrics.Unix t.

Definition buildClientInfoResp (info : Registry.ClientInfo) : ClientInfoResp :=
  mkClientInfoResp (Registry.Key info) (Registry.User info) (Registry.ClientID info) (Registry.RunID info)
    (Registry.Version info) (Registry.WireProtocol info) (Registry.Hostname info) (Registry.IP info)
    (toUnix (Registry.FirstConnectedAt info)) (toUnix (Registry.LastConnectedAt info))
    (if Metrics.IsZero (Registry.DisconnectedAt info) then 0 else Metrics.Unix (Registry.DisconnectedAt info))
    (Registry.Online info).

Definition matchV2ClientQuery (item : ClientInfoResp) (q : string) : bool :=
  containsV2Query q [ci_Key item; ci_User item; ci_ClientID item; ci_RunID item; ci_Version item;
                     ci_WireProtocol item; ci_Hostname item; ci_ClientIP item].

Definition empty_or_eq (filter value : string) : bool := String.eqb filter "" || String.eqb value filter.
Definition user_matches (filter : option string) (value : string) : bool :=
  match filter with Some u => String.eqb value u | None => true end.

(** The conditions of the loop of [APIV2ClientList] on one record. *)
Definition client_shown (ctx : Query) (statusFilter : string) (info : Registry.ClientInfo) : bool :=
  let q := ToLower (q_q ctx) in
  user_matches (q_user ctx) (Registry.User info) &&
  empty_or_eq (q_clientID ctx) (Registry.ClientID info) &&
  empty_or_eq (q_runID ctx) (Registry.RunID info) &&
  matchV2StatusFilter (Registry.Online info) statusFilter &&
  (String.eqb q "" || matchV2ClientQuery (buildClientInfoResp info) q).

Definition client_key (a : ClientInfoResp) : list string := [ci_User a; ci_ClientID a; ci_Key a].

(** [APIV2ClientList]; [records] is [clientRegistry.List()]. *)
Definition APIV2ClientList (records : list Registry.ClientInfo) (ctx : Query) :
    res error (V2PageResp ClientInfoResp) :=
  let? (page, pageSize) := parseV2PageParams ctx in
  let? statusFilter := parseV2StatusFilter (q_status ctx) in
  let items := buildClientInfoResp <$> filter (λ i, client_shown ctx statusFilter i = true) records in
  Ok (buildV2PageResp (SortFunc client_key items) page pageSize).

(** ** What a proxy's configuration shows *)

Record V2ProxyTransportSpec := mkTransportSpec {
  ts_UseEncryption : bool; ts_UseCompression : bool; ts_BandwidthLimit : string; ts_BandwidthLimitMode : string }.

(** The pointers of the base are nil for a proxy that is not running. *)
Record V2ProxyBaseSpec := mkBaseSpec {
  bs_Annotations : gmap string string; bs_Metadatas : gmap string string;
  bs_Transport : option V2ProxyTransportSpec; bs_LoadBalancer : option string }.

Definition nil_base : V2ProxyBaseSpec := mkBaseSpec ∅ ∅ None None.

(** The one pointer of [V2ProxySpec] that is set, with the fields of its struct
    beside the base; a nil [RemotePort] is [None]. *)
Inductive V2Block :=
| BTCP (b : V2ProxyBaseSpec) (remotePort : option Z)
| BUDP (b : V2ProxyBaseSpec) (remotePort : option Z)
| BHTTP (b : V2ProxyBaseSpec) (customDomains : list string) (subdomain : string) (locations : list string)
    (hostHeaderRewrite : string)
| BHTTPS (b : V2ProxyBaseSpec) (customDomains : list string) (subdomain : string)
| BTCPMux (b : V2ProxyBaseSpec) (customDomains : list string) (subdomain multiplexer routeByHTTPUser : string)
| BSTCP (b : V2ProxyBaseSpec)
| BSUDP (b : V2ProxyBaseSpec)
| BXTCP (b : V2ProxyBaseSpec)
| BXUDP (b : V2ProxyBaseSpec)
| BTCPUDP (b : V2ProxyBaseSpec) (remotePort : option Z)
| BSTCPSUDP (b : V2ProxyBaseSpec)
| BXTCPXUDP (b : V2ProxyBaseSpec)
| BMC (b : V2ProxyBaseSpec) (remotePort : option Z) (customDomains : list string) (subdomain : string)
| BPE (b : V2ProxyBaseSpec) (remotePort : option Z).

Record V2ProxySpec := mkProxySpec { sp_Type : string; sp_block : option V2Block }.

Definition buildV2ProxyBaseSpec (base : Config.ProxyBaseConfig) : V2ProxyBaseSpec :=
  let t := Config.Transport base in
  mkBaseSpec (Config.Annotations base) (Config.Metadatas base)
    (Some (mkTransportSpec (Config.UseEncryption t) (Config.UseCompression t)
             (ConfigTypes.bq_String (Config.BandwidthLimit t)) (Config.BandwidthLimitMode t)))
    (Some (Config.Group (Config.LoadBalancer base))).

(** The block of a type; a configuration of another type leaves it empty. *)
Definition block_of (proxyType : string) (cfg : option Config.ProxyConfigurer) : option V2Block :=
  let base := buildV2ProxyBaseSpec in
  match proxyType with
  | "tcp" => Some match cfg with
      | Some (Config.CTCP c) => BTCP (base (Config.tcp_base c)) (Some (Config.tcp_RemotePort c))
      | _ => BTCP nil_base None end
  | "udp" => Some match cfg with
      | Some (Config.CUDP c) => BUDP (base (Config.udp_base c)) (Some (Config.udp_RemotePort c))
      | _ => BUDP nil_base None end
  | "http" => Some match cfg with
      | Some (Config.CHTTP c) => BHTTP (base (Config.http_base c)) (Config.CustomDomains (Config.http_Domain c))
          (Config.SubDomain (Config.http_Domain c)) (Config.http_Locations c) (Config.http_HostHeaderRewrite c)
      | _ => BHTTP nil_base [] "" [] "" end
  | "https" => Some match cfg with
      | Some (Config.CHTTPS c) => BHTTPS (base (Config.https_base c)) (Config.CustomDomains (Config.https_Domain c))
          (Config.SubDomain (Config.https_Domain c))
      | _ => BHTTPS nil_base [] "" end
  | "tcpmux" => Some match cfg with
      | Some (Config.CTCPMux c) => BTCPMux (base (Config.mux_base c)) (Config.CustomDomains (Config.mux_Domain c))
          (Config.SubDomain (Config.mux_Domain c)) (Config.mux_Multiplexer c) (Config.mux_RouteByHTTPUser c)
      | _ => BTCPMux nil_base [] "" "" "" end
  | "stcp" => Some match cfg with
      | Some (Config.CSTCP c) => BSTCP (base (Config.stcp_base c)) | _ => BSTCP nil_base end
  | "sudp" => Some match cfg with
      | Some (Config.CSUDP c) => BSUDP (base (Config.sudp_base c)) | _ => BSUDP nil_base end
  | "xtcp" => Some match cfg with
      | Some (Config.CXTCP c) => BXTCP (base (Config.xtcp_base c)) | _ => BXTCP nil_base end
  | "xudp" => Some match cfg with
      | Some (Config.CXUDP c) => BXUDP (base (Config.xudp_base c)) | _ => BXUDP nil_base end
  | "tcp+udp" => Some match cfg with
      | Some (Config.CTCPUDP c) => BTCPUDP (base (Config.tu_base c)) (Some (Config.tu_RemotePort c))
      | _ => BTCPUDP nil_base None end
  | "stcp+sudp" => Some match cfg with
      | Some (Config.CSTCPSUDP c) => BSTCPSUDP (base (Config.ss_base c)) | _ => BSTCPSUDP nil_base end
  | "xtcp+xudp" => Some match cfg with
      | Some (Config.CXTCPXUDP c) => BXTCPXUDP (base (Config.xx_base c)) | _ => BXTCPXUDP nil_base end
  | "mc" => Some match cfg with
      | Some (Config.CMC c) => BMC (base (Config.mc_base c)) (Some (Config.mc_RemotePort c))
          (Config.CustomDomains (Config.mc_Domain c)) (Config.SubDomain (Config.mc_Domain c))
      | _ => BMC nil_base None [] "" end
  | "pe" => Some match cfg with
      | Some (Config.CPE c) => BPE (base (Config.pe_base c)) (Some (Config.pe_RemotePort c))
      | _ => BPE nil_base None end
  | _ => None
  end%string.

Definition buildV2ProxySpec (proxyType : string) (cfg : option Config.ProxyConfigurer) : V2ProxySpec :=
  mkProxySpec proxyType (block_of proxyType cfg).

(** ** Proxies *)

Record V2ProxyStatusResp := mkProxyStatus {
  st_State : string; st_TodayTrafficIn : Z; st_TodayTrafficOut : Z; st_CurConns : Z;
  st_LastStartAt : Z; st_LastCloseAt : Z }.

Record V2ProxyResp := mkProxyResp {
  pr_Name : string; pr_User : string; pr_ClientID : string; pr_Spec : V2ProxySpec; pr_Status : V2ProxyStatusResp }.

Section Handlers.
(** Days and midnights of the server's time zone, see [Metrics]. *)
Variables day midnight : Z → Z.

(** [pxyManager.GetByName], up to the proxy's configuration. *)
Variable GetByName : string → option Config.ProxyConfigurer.

Definition buildV2ProxyResp (ps : Metrics.ProxyStatsView) : V2ProxyResp :=
  let cfg := GetByName (Metrics.v_Name ps) in
  mkProxyResp (Metrics.v_Name ps) (Metrics.v_User ps) (Metrics.v_ClientID ps)
    (buildV2ProxySpec (Metrics.v_Type ps) cfg)
    (mkProxyStatus (if cfg then "online" else "offline") (Metrics.v_TrafficIn ps) (Metrics.v_TrafficOut ps)
       (Metrics.v_CurConns ps) (Metrics.v_LastStartAt ps) (Metrics.v_LastCloseAt ps)).

(** The values of the configuration that are searched, for five of the types. *)
Definition searched_values (spec : V2ProxySpec) : list string :=
  match sp_block spec with
  | Some (BTCP _ (Some p)) | Some (BUDP _ (Some p)) => [Itoa p]
  | Some (BHTTP _ domains sub _ _) | Some (BHTTPS _ domains sub) | Some (BTCPMux _ domains sub _ _) => domains ++ [sub]
  | _ => []
  end.

Definition matchV2ProxyQuery (item : V2ProxyResp) (q : string) : bool :=
  containsV2Query q ([pr_Name item; sp_Type (pr_Spec item); pr_User item; pr_ClientID item;
                      st_State (pr_Status item)] ++ searched_values (pr_Spec item)).

(** The loop over all types; [order] is the order of the map in each round. *)
Fixpoint stats_of_types (s : Metrics.ServerStatistics) (order : string → list string) (now : Z)
    (types : list string) : Metrics.ServerStatistics * list Metrics.ProxyStatsView :=
  match types with
  | [] => (s, [])
  | t :: types =>
      let '(s, l) := Metrics.GetProxiesByType day midnight s (order t) now t in
      let '(s, l') := stats_of_types s order now types in
      (s, l ++ l')
  end.

Definition listV2ProxyStats (s : Metrics.ServerStatistics) (order : string → list string) (now : Z)
    (proxyType : string) : Metrics.ServerStatistics * list Metrics.ProxyStatsView :=
  if negb (String.eqb proxyType "") then Metrics.GetProxiesByType day midnight s (order proxyType) now proxyType
  else stats_of_types s order now apiV2ProxyTypes.

Definition proxy_shown (ctx : Query) (statusFilter : string) (resp : V2ProxyResp) : bool :=
  let q := ToLower (q_q ctx) in
  user_matches (q_user ctx) (pr_User resp) &&
  empty_or_eq (q_clientID ctx) (pr_ClientID resp) &&
  matchV2StatusFilter (String.eqb (st_State (pr_Status resp)) "online") statusFilter &&
  (String.eqb q "" || matchV2ProxyQuery resp q).

Definition proxy_key (a : V2ProxyResp) : list string := [sp_Type (pr_Spec a); pr_Name a].

Definition APIV2ProxyList (s : Metrics.ServerStatistics) (order : string → list string) (now : Z) (ctx : Query) :
    Metrics.ServerStatistics * res error (V2PageResp V2ProxyResp) :=
  match parseV2PageParams ctx with
  | Err e => (s, Err e)
  | Ok (page, pageSize) =>
      match parseV2StatusFilter (q_status ctx), parseV2ProxyTypeFilter (q_type ctx) with
      | Err e, _ | _, Err e => (s, Err e)
      | Ok statusFilter, Ok proxyType =>
          let '(s, stats) := listV2ProxyStats s order now proxyType in
          let items := filter (λ r, proxy_shown ctx statusFilter r = true) (buildV2ProxyResp <$> stats) in
          (s, Ok (buildV2PageResp (SortFunc proxy_key items) page pageSize))
      end
  end.

(** ** Users *)

Record V2UserResp := mkUserResp { u_User : string; u_ClientCount : Z; u_ProxyCount : Z }.

Definition getOrCreateV2User (items : gmap string V2UserResp) (user : string) : V2UserResp :=
  default (mkUserResp user 0 0) (items !! user).

Definition count_client (items : gmap string V2UserResp) (info : Registry.ClientInfo) : gmap string V2UserResp :=
  let item := getOrCreateV2User items (Registry.User info) in
  <[Registry.User info := mkUserResp (u_User item) (u_ClientCount item + 1) (u_ProxyCount item)]> items.
Definition count_proxy (items : gmap string V2UserResp) (ps : Metrics.ProxyStatsView) : gmap string V2UserResp :=
  let item := getOrCreateV2User items (Metrics.v_User ps) in
  <[Metrics.v_User ps := mkUserResp (u_User item) (u_ClientCount item) (u_ProxyCount item + 1)]> items.

Definition userStats (records : list Registry.ClientInfo) (stats : list Metrics.ProxyStatsView) : gmap string V2UserResp :=
  foldl count_proxy (foldl count_client ∅ records) stats.

Definition user_shown (ctx : Query) (item : V2UserResp) : bool :=
  let q := ToLower (q_q ctx) in String.eqb q "" || StringContains (ToLower (u_User item)) q.

(** [users] is the order in which the users' map is visited. *)
Definition APIV2UserList (records : list Registry.ClientInfo) (s : Metrics.ServerStatistics)
    (order : string → list string) (users : gmap string V2UserResp → list V2UserResp) (now : Z) (ctx : Query) :
    Metrics.ServerStatistics * res error (V2PageResp V2UserResp) :=
  match parseV2PageParams ctx with
  | Err e => (s, Err e)
  | Ok (page, pageSize) =>
      let '(s, stats) := listV2ProxyStats s order now "" in
      let items := filter (λ u, user_shown ctx u = true) (users (userStats records stats)) in
      (s, Ok (buildV2PageResp (SortFunc (λ u, [u_User u]) items) page pageSize))
  end.

(** ** Details *)

(** [url.PathUnescape]. *)
Fixpoint PathUnescape (s : string) : option string :=
  match s with
  | EmptyString => Some EmptyString
  | String "%" (String a (String b s)) =>
      x ← Netip.hex_value a; y ← Netip.hex_value b; t ← PathUnescape s;
      Some (String (ascii_of_nat (Z.to_nat (16 * x + y))) t)
  | String "%" _ => None
  | String c s => t ← PathUnescape s; Some (String c t)
  end.

Definition decodeV2PathParam (raw label : string) : res error string :=
  if String.eqb raw "" then Err (Internal ("missing " +:+ label))
  else match PathUnescape raw with
       | None => Err (BadRequest ("invalid " +:+ label))
       | Some decoded => Ok decoded
       end.

Record V2ClientStatusResp := mkClientStatus { cs_State : string; cs_CurConns : Z; cs_ProxyCount : Z }.

Definition buildV2ClientStatus (info : Registry.ClientInfo) (stats : list Metrics.ProxyStatsView) : V2ClientStatusResp :=
  let mine := filter (λ ps, Metrics.v_User ps = Registry.User info ∧
                            Metrics.v_ClientID ps = Registry.ClientID info) stats in
  foldl (λ st ps, mkClientStatus (cs_State st) (int64 (cs_CurConns st + Metrics.v_CurConns ps))
                    (int64 (cs_ProxyCount st + 1)))
    (mkClientStatus (if Registry.Online info then "online" else "offline") 0 0) mine.

Definition APIV2ClientDetail (cr : Registry.ClientRegistry) (s : Metrics.ServerStatistics)
    (order : string → list string) (now : Z) (key : string) :
    Metrics.ServerStatistics * res error (ClientInfoResp * V2ClientStatusResp) :=
  match decodeV2PathParam key "client key" with
  | Err e => (s, Err e)
  | Ok key =>
      match Registry.GetByKey cr key with
      | None => (s, Err (NotFound ("client " +:+ key +:+ " not found")))
      | Some info =>
          let '(s, stats) := listV2ProxyStats s order now "" in
          (s, Ok (buildClientInfoResp info, buildV2ClientStatus info stats))
      end
  end.

Definition APIV2ProxyDetail (s : Metrics.ServerStatistics) (now : Z) (name : string) :
    Metrics.ServerStatistics * res error V2ProxyResp :=
  match decodeV2PathParam name "proxy name" with
  | Err e => (s, Err e)
  | Ok name =>
      let '(s, v) := Metrics.GetProxyByName day midnight s now name in
      (s, match v with None => Err (NotFound "no proxy info found") | Some ps => Ok (buildV2ProxyResp ps) end)
  end.

(** [APIV2SystemPrune]: how many were cleared, of how many. *)
Definition APIV2SystemPrune (s : Metrics.ServerStatistics) (order : list string) (now : Z) (type_ : string) :
    Metrics.ServerStatistics * res error (string * (nat * nat)) :=
  match parseV2SystemPruneType type_ with
  | Err e => (s, Err e)
  | Ok pruneType =>
      let '(s, counts) := Metrics.PruneOfflineProxies s order now in (s, Ok (pruneType, counts))
  end.

Definition v2TrafficValueAt (values : list Z) (todayFirstIndex : nat) : Z := default 0 (values !! todayFirstIndex).

(** The history of [buildV2ProxyTrafficResp], oldest first: the days before
    today and their traffic. *)
Definition traffic_history (trafficIn trafficOut : list Z) : list (nat * Z * Z) :=
  (λ age, (age, v2TrafficValueAt trafficIn age, v2TrafficValueAt trafficOut age)) <$> reverse (seq 0 7).
End Handlers.

(** ** Pages *)

Lemma int64_id z : int64_min ≤ z ≤ int64_max → int64 z = z.
Proof. unfold int64_min, int64_max, int64. intros Hz. rewrite Z.mod_small; lia. Qed.

Lemma parse_positive raw d name v : 1 ≤ d ≤ int64_max → parseV2PositiveInt raw d name = Ok v → 1 ≤ v ≤ int64_max.
Proof.
  intros Hd. unfold parseV2PositiveInt. destruct (String.eqb raw ""); [by intros [= <-]|].
  destruct (Atoi raw) as [z|] eqn:Hz; [|done]. apply Atoi_int64 in Hz.
  destruct (Z.ltb_spec z 1); [done|]. intros [= <-]. lia.
Qed.

Lemma parse_page ctx page pageSize :
  parseV2PageParams ctx = Ok (page, pageSize) →
  1 ≤ page ∧ 1 ≤ pageSize ≤ maxV2PageSize ∧ page * pageSize ≤ int64_max.
Proof.
  unfold parseV2PageParams. destruct (parseV2PositiveInt (q_page ctx) _ _) as [p|] eqn:Hp; [|done].
  destruct (parseV2PositiveInt (q_pageSize ctx) _ _) as [n|] eqn:Hn; [|done].
  apply parse_positive in Hp, Hn; [|by vm_compute..].
  destruct (Z.ltb_spec maxV2PageSize n) as [|Hm]; [done|].
  destruct (Z.ltb_spec (Z.quot int64_max n) p) as [|Hq]; [done|]. intros [= <- <-].
  split_and!; [lia..|]. rewrite Z.quot_div_nonneg in Hq by (unfold int64_max; lia).
  pose proof (Z.mul_div_le int64_max n). nia.
Qed.

(** A page is the items it should hold, without a wrap-around or a panic. *)
Lemma paginate_spec {T} (items : list T) page pageSize :
  1 ≤ page → 1 ≤ pageSize → page * pageSize ≤ int64_max →
  paginateV2Items items page pageSize =
  Some (take (Z.to_nat pageSize) (drop (Z.to_nat ((page - 1) * pageSize)) items)).
Proof.
  intros Hp Hn Hm. unfold paginateV2Items. rewrite (int64_id ((page - 1) * pageSize)) by (unfold int64_min; nia).
  replace ((page - 1) * pageSize + pageSize) with (page * pageSize) by lia.
  rewrite int64_id by (unfold int64_min; nia).
  destruct (Z.leb_spec (Z.of_nat (length items)) ((page - 1) * pageSize)) as [Hle|Hlt].
  { rewrite drop_ge by lia. by rewrite take_nil. }
  unfold slice. rewrite !(proj2 (Z.leb_le _ _)) by nia. cbn [andb]. f_equal.
  destruct (Z.le_gt_cases (page * pageSize) (Z.of_nat (length items))) as [H1|H1].
  - rewrite Z.min_l by done. f_equal. f_equal. lia.
  - rewrite Z.min_r by lia. rewrite !take_ge; [done|rewrite length_drop; nia..].
Qed.

(** The pages one after the other. *)
Lemma pages_concat {T} (items : list T) (n k : nat) :
  mjoin ((λ i, take n (drop (i * n) items)) <$> seq 0 k) = take (k * n) items.
Proof.
  induction k as [|k IH]; [done|]. rewrite seq_S, fmap_app, join_app, IH. cbn. rewrite app_nil_r.
  by rewrite (Nat.add_comm n), take_take_drop.
Qed.

(** ** Order *)

Lemma cmp_le_total x y : cmp_le x y = true ∨ cmp_le y x = true.
Proof.
  revert y. induction x as [|a x IH]; intros [|b y]; cbn; auto.
  destruct (String.eqb_spec a b) as [->|Hne].
  - rewrite String.eqb_refl. apply IH.
  - rewrite (proj2 (String.eqb_neq b a)) by done. destruct (total String.le a b); [left|right]; by apply bool_decide_eq_true.
Qed.

Lemma cmp_le_trans x y z : cmp_le x y = true → cmp_le y z = true → cmp_le x z = true.
Proof.
  revert y z. induction x as [|a x IH]; intros [|b y] [|c z]; cbn; try done.
  destruct (String.eqb_spec a b) as [->|H1].
  - destruct (String.eqb_spec b c) as [->|H2]; [apply IH|done].
  - destruct (String.eqb_spec b c) as [->|H2].
    + intros Hab _. by rewrite (proj2 (String.eqb_neq _ _)).
    + rewrite !bool_decide_eq_true. intros Hab Hbc. destruct (String.eqb_spec a c) as [->|_].
      * destruct H1. by apply (anti_symm String.le).
      * apply bool_decide_eq_true. by trans b.
Qed.

Lemma cmp_le_antisym x y : cmp_le x y = true → cmp_le y x = true → x = y.
Proof.
  revert y. induction x as [|a x IH]; intros [|b y]; cbn; try done.
  destruct (String.eqb_spec a b) as [->|Hne].
  - rewrite String.eqb_refl. intros H1 H2. f_equal. by apply IH.
  - rewrite (proj2 (String.eqb_neq b a)) by done. rewrite !bool_decide_eq_true.
    intros H1 H2. destruct Hne. by apply (anti_symm String.le).
Qed.

#[global] Instance by_key_total {T} (key : T → list string) : base.Total (by_key key).
Proof. intros a b. apply cmp_le_total. Qed.
#[global] Instance by_key_trans {T} (key : T → list string) : Transitive (by_key key).
Proof. intros a b c. apply cmp_le_trans. Qed.

(** Items with different keys have one sorted order. *)
Lemma sorted_by_key {T} (key : T → list string) (l l' : list T) :
  NoDup (key <$> l) → l ≡ₚ l' → Sorted (by_key key) l' → l' = SortFunc key l.
Proof.
  intros Hnd Hp Hs. apply (Sorted_unique_strong (by_key key)).
  - intros x y Hx Hy Hxy Hyx. unfold SortFunc in Hy. rewrite merge_sort_Permutation in Hy. rewrite <-Hp in Hx.
    apply list_elem_of_lookup in Hx as [i Hi], Hy as [j Hj].
    assert (i = j) as -> by (eapply NoDup_lookup; [done|by rewrite list_lookup_fmap, Hi|];
      rewrite list_lookup_fmap, Hj; cbn; f_equal; symmetry; by apply cmp_le_antisym). congruence.
  - done.
  - apply Sorted_merge_sort, _.
  - unfold SortFunc. by rewrite merge_sort_Permutation.
Qed.

Lemma SortFunc_perm {T} (key : T → list string) (l l' : list T) :
  NoDup (key <$> l) → l ≡ₚ l' → SortFunc key l = SortFunc key l'.
Proof.
  intros Hnd Hp. symmetry. apply sorted_by_key; [done| |apply Sorted_merge_sort, _].
  unfold SortFunc. by rewrite merge_sort_Permutation.
Qed.

(** ** The list of clients *)

(** The clients that pass the filters of a request, sorted. *)
Definition client_listing (cr : Registry.ClientRegistry) (ctx : Query) (statusFilter : string) : list ClientInfoResp :=
  SortFunc client_key (buildClientInfoResp <$> filter (λ i, client_shown ctx statusFilter i = true) (Registry.List cr)).

(** Two requests for pages of the same list. *)
Definition same_filters (a b : Query) : Prop :=
  q_status a = q_status b ∧ q_user a = q_user b ∧ q_clientID a = q_clientID b ∧ q_runID a = q_runID b ∧ q_q a = q_q b.

Lemma client_shown_same a b f i : same_filters a b → client_shown a f i = client_shown b f i.
Proof. intros (_ & Hu & Hc & Hr & Hq). unfold client_shown. by rewrite Hu, Hc, Hr, Hq. Qed.

Lemma registry_entries cr : rtc Registry.step Registry.NewClientRegistry cr → Registry.entries_ok cr.
Proof.
  revert cr. apply rtc_ind_r; [apply map_Forall_empty|]. intros c c' _ Hs IH. by eapply Registry.entries_ok_step.
Qed.

Lemma elem_of_List cr i : i ∈ Registry.List cr ↔ ∃ k, Registry.GetByKey cr k = Some i.
Proof.
  unfold Registry.List, Registry.GetByKey. rewrite list_elem_of_fmap. split.
  - intros ([k j] & -> & H). apply elem_of_map_to_list in H. by exists k.
  - intros [k H]. exists (k, i). split; [done|]. by apply elem_of_map_to_list.
Qed.

Lemma list_keys cr : Registry.entries_ok cr → NoDup (Registry.Key <$> Registry.List cr).
Proof.
  intros Hok. unfold Registry.List. rewrite <-list_fmap_compose.
  rewrite (list_fmap_ext _ fst); [apply NoDup_fst_map_to_list|].
  intros j [k i] Hj. cbn. apply list_elem_of_lookup_2, elem_of_map_to_list in Hj.
  by apply Registry.entry_key, (Hok k i).
Qed.

Lemma sublist_fmap_NoDup {A B} (f : A → B) (P : A → Prop) `{∀ x, Decision (P x)} (l : list A) :
  NoDup (f <$> l) → NoDup (f <$> filter P l).
Proof. intros Hn. eapply sublist_NoDup; [done|]. apply fmap_sublist, sublist_filter. Qed.

Lemma shown_keys cr ctx f :
  Registry.entries_ok cr →
  NoDup (ci_Key <$> (buildClientInfoResp <$> filter (λ i, client_shown ctx f i = true) (Registry.List cr))).
Proof.
  intros Hok. rewrite <-list_fmap_compose. apply (sublist_fmap_NoDup Registry.Key). by apply list_keys.
Qed.

Lemma shown_client_keys cr ctx f :
  Registry.entries_ok cr →
  NoDup (client_key <$> (buildClientInfoResp <$> filter (λ i, client_shown ctx f i = true) (Registry.List cr))).
Proof.
  intros Hok. apply (NoDup_fmap_1 (λ l, default "" (l !! 2%nat))). rewrite <-list_fmap_compose.
  by apply (shown_keys cr ctx f).
Qed.

(** One page, whatever the order in which the registry was read. *)
Lemma client_page cr ctx req f page pageSize records :
  Registry.entries_ok cr → parseV2StatusFilter (q_status ctx) = Ok f → same_filters ctx req →
  records ≡ₚ Registry.List cr → parseV2PageParams req = Ok (page, pageSize) →
  APIV2ClientList records req =
    Ok (mkPageResp (Z.of_nat (length (client_listing cr ctx f))) page pageSize
          (Some (take (Z.to_nat pageSize) (drop (Z.to_nat ((page - 1) * pageSize)) (client_listing cr ctx f))))).
Proof.
  intros Hok Hf Hsame Hp Hpage. unfold APIV2ClientList. rewrite Hpage. cbn.
  rewrite <-(proj1 Hsame), Hf. cbn. unfold buildV2PageResp.
  assert (SortFunc client_key (buildClientInfoResp <$> filter (λ i, client_shown req f i = true) records) =
          client_listing cr ctx f) as ->.
  { symmetry. apply SortFunc_perm; [by apply shown_client_keys|]. apply fmap_Permutation.
    rewrite Hp. rewrite (list_filter_iff _ (λ i, client_shown req f i = true)); [done|].
    intros i. by rewrite (client_shown_same ctx req). }
  apply parse_page in Hpage as (? & ? & ?). by rewrite paginate_spec by lia.
Qed.

(** In a registry reached by logins and disconnections, every list of
    clients of the dashboard is a page of one list, whatever order Go's map
    iteration takes in each request and whatever algorithm sorts: the list holds
    each client that passes the filters once, and page [p] is its [p]-th slice
    of [pageSize] items, with no overflow and no index out of range. The first
    [k] pages one after the other are the first [k * pageSize] items. *)
Theorem client_pages cr ctx f :
  rtc Registry.step Registry.NewClientRegistry cr → parseV2StatusFilter (q_status ctx) = Ok f →
  let L := client_listing cr ctx f in
  NoDup (ci_Key <$> L) ∧
  (∀ x, x ∈ L ↔ ∃ k i, Registry.GetByKey cr k = Some i ∧ client_shown ctx f i = true ∧ x = buildClientInfoResp i) ∧
  (∀ L', L' ≡ₚ L → Sorted (by_key client_key) L' → L' = L) ∧
  (∀ req records page pageSize, same_filters ctx req → records ≡ₚ Registry.List cr →
     parseV2PageParams req = Ok (page, pageSize) →
     APIV2ClientList records req =
       Ok (mkPageResp (Z.of_nat (length L)) page pageSize
             (Some (take (Z.to_nat pageSize) (drop (Z.to_nat ((page - 1) * pageSize)) L))))) ∧
  (∀ n k, mjoin ((λ i, take n (drop (i * n) L)) <$> seq 0 k) = take (k * n) L).
Proof.
  intros Hr%registry_entries Hf L.
  assert (L ≡ₚ buildClientInfoResp <$> filter (λ i, client_shown ctx f i = true) (Registry.List cr)) as HL
    by apply merge_sort_Permutation.
  split_and!.
  - rewrite HL. by apply shown_keys.
  - intros x. rewrite HL, list_elem_of_fmap. setoid_rewrite list_elem_of_filter. setoid_rewrite elem_of_List.
    naive_solver.
  - intros L' HL' Hs. unfold L, client_listing. apply sorted_by_key; [by apply shown_client_keys| |done].
    by rewrite <-HL, HL'.
  - intros. by apply client_page.
  - intros n k. apply pages_concat.
Qed.

(** ** What is not shown *)

(** A configuration without its keys, passwords, users allowed, headers and the
    local end with its plugin. *)
Definition redact_base (b : Config.ProxyBaseConfig) : Config.ProxyBaseConfig :=
  Config.mkProxyBase (Config.Name b) (Config.Type_ b) (Config.Enabled b) (Config.Annotations b) (Config.Transport b)
    (Config.Metadatas b) (Config.mkLoadBalancer (Config.Group (Config.LoadBalancer b)) "")
    (Config.HealthCheck Config.zero_base) (Config.Backend Config.zero_base).

Definition redact (c : Config.ProxyConfigurer) : Config.ProxyConfigurer :=
  match Config.set_base c (redact_base (Config.GetBaseConfig c)) with
  | Config.CHTTP c => Config.CHTTP (Config.mkHTTP (Config.http_base c) (Config.http_Domain c) (Config.http_Locations c)
      "" "" (Config.http_HostHeaderRewrite c) Config.zero_headers Config.zero_headers "")
  | Config.CTCPMux c => Config.CTCPMux (Config.mkTCPMux (Config.mux_base c) (Config.mux_Domain c) "" ""
      (Config.mux_RouteByHTTPUser c) (Config.mux_Multiplexer c))
  | Config.CSTCP c => Config.CSTCP (Config.mkSTCP (Config.stcp_base c) "" [])
  | Config.CSUDP c => Config.CSUDP (Config.mkSUDP (Config.sudp_base c) "" [])
  | Config.CXTCP c => Config.CXTCP (Config.mkXTCP (Config.xtcp_base c) "" [] None)
  | Config.CXUDP c => Config.CXUDP (Config.mkXUDP (Config.xudp_base c) "" [] None)
  | Config.CSTCPSUDP c => Config.CSTCPSUDP (Config.mkSTCPSUDP (Config.ss_base c) "" [] 0)
  | Config.CXTCPXUDP c => Config.CXTCPXUDP (Config.mkXTCPXUDP (Config.xx_base c) "" [] 0 None)
  | Config.CPE c => Config.CPE (Config.mkPE (Config.pe_base c) (Config.pe_RemotePort c) ∅)
  | c => c
  end.

Lemma spec_redacted ty cfg : buildV2ProxySpec ty (redact <$> cfg) = buildV2ProxySpec ty cfg.
Proof. by destruct cfg as [[]|]. Qed.

Lemma resp_redacted get ps : buildV2ProxyResp (λ n, redact <$> get n) ps = buildV2ProxyResp get ps.
Proof. unfold buildV2ProxyResp. rewrite spec_redacted. by destruct (get _). Qed.

(** The proxies the dashboard lists or shows do not depend on secrets: on
    the secret keys, group keys, HTTP users and passwords, headers, allowed
    users, local addresses and plugins of the running configurations. The whole
    answer is the same when all of these are blank, also through the search. *)
Theorem secrets_not_shown day midnight get s order now ctx name :
  APIV2ProxyList day midnight (λ n, redact <$> get n) s order now ctx = APIV2ProxyList day midnight get s order now ctx ∧
  APIV2ProxyDetail day midnight (λ n, redact <$> get n) s now name = APIV2ProxyDetail day midnight get s now name.
Proof.
  split.
  - unfold APIV2ProxyList. destruct (parseV2PageParams ctx) as [[page pageSize]|]; [|done].
    destruct (parseV2StatusFilter (q_status ctx)) as [f|], (parseV2ProxyTypeFilter (q_type ctx)) as [ty|]; try done.
    destruct (listV2ProxyStats day midnight s order now ty) as [s' stats].
    by rewrite (list_fmap_ext _ (buildV2ProxyResp get) stats) by (intros; apply resp_redacted).
  - unfold APIV2ProxyDetail. destruct (decodeV2PathParam _ _); [|done].
    destruct (Metrics.GetProxyByName _ _ _ _ _) as [s' [ps|]]; [|done]. by rewrite resp_redacted.
Qed.

(** ** Reading the statistics *)

(** What reading leaves as it is: reading rotates the counters of days. *)
Definition identity (p : Metrics.ProxyStatistics) : string * string * string :=
  (Metrics.ProxyType p, Metrics.ps_User p, Metrics.ClientID p).
Definition identities (s : Metrics.ServerStatistics) : gmap string (string * string * string) :=
  identity <$> Metrics.ProxyStats s.
Definition view_identity (v : Metrics.ProxyStatsView) : string * (string * string * string) :=
  (Metrics.v_Name v, (Metrics.v_Type v, Metrics.v_User v, Metrics.v_ClientID v)).

(** The proxies of a type among some names. *)
Definition of_type (m : gmap string (string * string * string)) (names : list string) (ty : string) :
    list (string * (string * string * string)) :=
  filter (λ e, e.2.1.1 = ty) (omap (λ n, pair n <$> m !! n) names).

Section Reading.
Context (day midnight : Z → Z).

Lemma read_one s now ty n :
  let '(s', v) := Metrics.GetProxiesByTypeAndName day midnight s now ty n in
  identities s' = identities s ∧ view_identity <$> option_list v = of_type (identities s) [n] ty.
Proof.
  unfold Metrics.GetProxiesByTypeAndName, Metrics.GetProxyByName, of_type. cbn [omap list_omap].
  unfold identities. rewrite lookup_fmap. destruct (Metrics.ProxyStats s !! n) as [p|] eqn:Hp; [|done].
  unfold Metrics.toProxyStats. destruct (Metrics.TodayCount day midnight (Metrics.TrafficIn p) now) as [i ti],
    (Metrics.TodayCount day midnight (Metrics.TrafficOut p) now) as [o to].
  cbn [fmap option_fmap option_map]. rewrite filter_cons.
  change (decide ((n, identity p).2.1.1 = ty)) with (decide (Metrics.ProxyType p = ty)).
  destruct (decide (Metrics.ProxyType p = ty)) as [Ht|Ht]; [|done].
  split; [|done]. cbn [Metrics.ProxyStats Metrics.with_proxies]. rewrite fmap_insert. apply insert_id.
  by rewrite lookup_fmap, Hp.
Qed.

Lemma of_type_cons m n names ty : of_type m (n :: names) ty = of_type m [n] ty ++ of_type m names ty.
Proof. unfold of_type. rewrite <-filter_app. cbn. by destruct (m !! n). Qed.

Lemma read_type s now ty names :
  let '(s', l) := Metrics.GetProxiesByType day midnight s names now ty in
  identities s' = identities s ∧ view_identity <$> l = of_type (identities s) names ty.
Proof.
  revert s. induction names as [|n names IH]; intros s; cbn [Metrics.GetProxiesByType]; [done|].
  pose proof (read_one s now ty n) as Hr. destruct (Metrics.GetProxiesByTypeAndName _ _ _ _ _ _) as [s1 v].
  destruct Hr as [H1 H2]. specialize (IH s1). destruct (Metrics.GetProxiesByType _ _ _ _ _ _) as [s2 l].
  destruct IH as [H3 H4]. rewrite fmap_app, of_type_cons, <-H1. split; [congruence|]. by rewrite H4, H1, H2.
Qed.

Lemma read_types s order now types :
  let '(s', l) := stats_of_types day midnight s order now types in
  identities s' = identities s ∧ view_identity <$> l = types ≫= λ ty, of_type (identities s) (order ty) ty.
Proof.
  revert s. induction types as [|ty types IH]; intros s; cbn [stats_of_types]; [done|].
  pose proof (read_type s now ty (order ty)) as Hr. destruct (Metrics.GetProxiesByType _ _ _ _ _ _) as [s1 l].
  destruct Hr as [H1 H2]. specialize (IH s1). destruct (stats_of_types _ _ _ _ _ _) as [s2 l'].
  destruct IH as [H3 H4]. rewrite fmap_app. split; [congruence|]. cbn. by rewrite H2, H4, H1.
Qed.
End Reading.

Lemma omap_lookup_keys {A} (m : gmap string A) :
  omap (λ n, pair n <$> m !! n) (map_to_list m).*1 = map_to_list m.
Proof.
  assert (∀ l, (∀ e, e ∈ l → m !! e.1 = Some e.2) → omap (λ n, pair n <$> m !! n) l.*1 = l) as Hl.
  { induction l as [|[k x] l IH]; intros Hl; [done|]. assert (m !! k = Some x) as Hk by (apply (Hl (k, x)); left).
    cbn [fmap list_fmap omap list_omap fst]. rewrite Hk. cbn. f_equal. apply IH. intros e He. apply Hl. by right. }
  apply Hl. intros [k x] He. by apply elem_of_map_to_list.
Qed.

Lemma of_type_perm m names ty :
  names ≡ₚ (map_to_list m).*1 → of_type m names ty ≡ₚ filter (λ e, e.2.1.1 = ty) (map_to_list m).
Proof. intros Hp. unfold of_type. by rewrite Hp, omap_lookup_keys. Qed.

Lemma filter_types (l : list (string * (string * string * string))) types :
  NoDup types → types ≫= (λ ty, filter (λ e, e.2.1.1 = ty) l) ≡ₚ filter (λ e, e.2.1.1 ∈ types) l.
Proof.
  induction 1 as [|ty types Hni Hnd IH]; cbn.
  { induction l as [|e l IH]; [done|]. rewrite filter_cons, decide_False; [done|]. apply not_elem_of_nil. }
  rewrite IH. clear IH Hnd. induction l as [|e l IH]; [done|]. rewrite !filter_cons.
  destruct e as [n [[ty' u] c]]. cbn [fst snd]. destruct (decide (ty' = ty)) as [->|He].
  - rewrite (decide_False (P := ty ∈ types)) by done.
    rewrite (decide_True (P := ty ∈ ty :: types)) by left. cbn. by f_equiv.
  - destruct (decide (ty' ∈ types)) as [Hin|Hin].
    + rewrite (decide_True (P := ty' ∈ ty :: types)) by by right. by rewrite <-Permutation_middle, IH.
    + rewrite (decide_False (P := ty' ∈ ty :: types)); [done|]. by intros [->|?]%elem_of_cons.
Qed.

(** An order of Go's iteration over the statistics, for each type. *)
Definition visits_all (s : Metrics.ServerStatistics) (order : string → list string) : Prop :=
  ∀ ty, order ty ≡ₚ (map_to_list (Metrics.ProxyStats s)).*1.

Lemma identity_keys s : (map_to_list (identities s)).*1 = (map_to_list (Metrics.ProxyStats s)).*1.
Proof.
  unfold identities. rewrite map_to_list_fmap, <-list_fmap_compose. by apply list_fmap_ext.
Qed.

(** Each proxy of a known type is read once. *)
Lemma all_read day midnight s order now :
  visits_all s order →
  view_identity <$> (listV2ProxyStats day midnight s order now "").2 ≡ₚ
  filter (λ e, e.2.1.1 ∈ apiV2ProxyTypes) (map_to_list (identities s)).
Proof.
  intros Hv. unfold listV2ProxyStats. cbn [String.eqb negb].
  pose proof (read_types day midnight s order now apiV2ProxyTypes) as Hr.
  destruct (stats_of_types _ _ _ _ _ _) as [s' l]. destruct Hr as [_ Hr]. cbn. rewrite Hr.
  rewrite <-filter_types by exact (bool_decide_eq_true_1 (NoDup apiV2ProxyTypes) eq_refl).
  generalize apiV2ProxyTypes. induction l0 as [|ty types IH]; cbn; [done|]. rewrite IH. f_equiv.
  apply of_type_perm. by rewrite identity_keys.
Qed.

(** ** The list of users *)

Definition user_of (u : string) (c p : nat) : option V2UserResp :=
  match c, p with O, O => None | _, _ => Some (mkUserResp u (Z.of_nat c) (Z.of_nat p)) end.

Lemma getOrCreate_user_of items u c p :
  items !! u = user_of u c p → getOrCreateV2User items u = mkUserResp u (Z.of_nat c) (Z.of_nat p).
Proof. unfold getOrCreateV2User. intros ->. by destruct c, p. Qed.

Lemma count_clients u records items c p :
  items !! u = user_of u c p →
  foldl count_client items records !! u = user_of u (c + length (filter (λ i, Registry.User i = u) records)) p.
Proof.
  revert items c. induction records as [|i records IH]; intros items c Hu; cbn [foldl]; [by rewrite Nat.add_0_r|].
  unfold count_client at 2. rewrite filter_cons. destruct (decide (Registry.User i = u)) as [<-|Hne].
  - rewrite (IH _ (S c)); [cbn [length]; by rewrite <-plus_n_Sm|]. rewrite lookup_insert_eq, (getOrCreate_user_of _ _ c p) by done.
    cbn. do 2 f_equal. lia.
  - apply IH. by rewrite lookup_insert_ne.
Qed.

Lemma count_proxies u stats items c p :
  items !! u = user_of u c p →
  foldl count_proxy items stats !! u = user_of u c (p + length (filter (λ v, Metrics.v_User v = u) stats)).
Proof.
  revert items p. induction stats as [|v stats IH]; intros items p Hu; cbn [foldl]; [by rewrite Nat.add_0_r|].
  unfold count_proxy at 2. rewrite filter_cons. destruct (decide (Metrics.v_User v = u)) as [<-|Hne].
  - rewrite (IH _ (S p)); [cbn [length]; by rewrite <-plus_n_Sm|]. rewrite lookup_insert_eq, (getOrCreate_user_of _ _ c p) by done.
    destruct c; cbn; do 2 f_equal; lia.
  - apply IH. by rewrite lookup_insert_ne.
Qed.

(** The clients of a user, and its proxies of a known type. *)
Definition clients_of (cr : Registry.ClientRegistry) (u : string) : nat :=
  length (filter (λ i, Registry.User i = u) (Registry.List cr)).
Definition proxies_of (s : Metrics.ServerStatistics) (u : string) : nat :=
  length (filter (λ e, e.2.1.2 = u) (filter (λ e, e.2.1.1 ∈ apiV2ProxyTypes) (map_to_list (identities s)))).

Lemma filter_fmap_length {A B} (f : A → B) (P : B → Prop) `{∀ x, Decision (P x)} (l : list A) :
  length (filter (λ x, P (f x)) l) = length (filter P (f <$> l)).
Proof.
  induction l as [|x l IH]; [done|]. csimpl. rewrite !filter_cons. destruct (decide (P (f x))); cbn; by rewrite IH.
Qed.

Lemma userStats_spec day midnight cr s records order now u :
  records ≡ₚ Registry.List cr → visits_all s order →
  userStats records (listV2ProxyStats day midnight s order now "").2 !! u =
  user_of u (clients_of cr u) (proxies_of s u).
Proof.
  intros Hrec Hv. unfold userStats. erewrite count_proxies; [|by apply (count_clients u _ _ 0 0)].
  cbn [Nat.add]. unfold clients_of, proxies_of. f_equal; [by rewrite Hrec|].
  rewrite <-all_read by done. symmetry.
  rewrite <-(filter_fmap_length view_identity (λ e, e.2.1.2 = u)). done.
Qed.

(** A user of the map knows its name. *)
Lemma users_named day midnight cr s records order now :
  records ≡ₚ Registry.List cr → visits_all s order →
  let m := userStats records (listV2ProxyStats day midnight s order now "").2 in
  NoDup (u_User <$> (map_to_list m).*2) ∧
  ∀ x, x ∈ (map_to_list m).*2 ↔ user_of (u_User x) (clients_of cr (u_User x)) (proxies_of s (u_User x)) = Some x.
Proof.
  intros Hrec Hv m.
  assert (∀ u x, m !! u = Some x → u = u_User x) as Hm.
  { intros u x. unfold m. rewrite (userStats_spec day midnight cr) by done. unfold user_of.
    destruct (clients_of cr u), (proxies_of s u); naive_solver. }
  split.
  - rewrite <-list_fmap_compose, (list_fmap_ext _ fst); [apply NoDup_fst_map_to_list|].
    intros j [u x] Hj%list_elem_of_lookup_2%elem_of_map_to_list. symmetry. by apply Hm.
  - intros x. rewrite list_elem_of_fmap, <-(userStats_spec day midnight cr s records order now) by done. fold m.
    split; [|intros Hx; exists (u_User x, x); split; [done|by apply elem_of_map_to_list]].
    intros ([u y] & -> & Hu%elem_of_map_to_list). cbn. by rewrite <-(Hm u y).
Qed.

(** The list of users of the dashboard is right whatever order Go's map
    iterations take: it is a page of a list, sorted by name, in which each user
    with a client in the registry or a proxy in the statistics occurs once, with
    the number of its clients and of its proxies, each counted once although the
    statistics are read type by type. *)
Theorem user_list_counts day midnight cr s records order users now ctx page pageSize :
  records ≡ₚ Registry.List cr → visits_all s order → (∀ m, users m ≡ₚ (map_to_list m).*2) →
  parseV2PageParams ctx = Ok (page, pageSize) →
  ∃ L, (APIV2UserList day midnight records s order users now ctx).2 =
         Ok (mkPageResp (Z.of_nat (length L)) page pageSize
               (Some (take (Z.to_nat pageSize) (drop (Z.to_nat ((page - 1) * pageSize)) L)))) ∧
       Sorted (by_key (λ u, [u_User u])) L ∧ NoDup (u_User <$> L) ∧
       ∀ x, x ∈ L ↔ user_shown ctx x = true ∧ 0 < u_ClientCount x + u_ProxyCount x ∧
                    u_ClientCount x = Z.of_nat (clients_of cr (u_User x)) ∧
                    u_ProxyCount x = Z.of_nat (proxies_of s (u_User x)).
Proof.
  intros Hrec Hv Hus Hpage. unfold APIV2UserList. rewrite Hpage.
  destruct (users_named day midnight cr s records order now Hrec Hv) as [Hnd Hin].
  destruct (listV2ProxyStats day midnight s order now "") as [s' stats]. cbn [fst snd] in *.
  unfold buildV2PageResp. apply parse_page in Hpage as (? & ? & ?). rewrite paginate_spec by lia.
  eexists. split; [done|]. split; [apply Sorted_merge_sort, _|]. unfold SortFunc. split.
  - rewrite merge_sort_Permutation. apply sublist_fmap_NoDup. by rewrite Hus.
  - intros x. rewrite merge_sort_Permutation, list_elem_of_filter, Hus, Hin. f_equiv.
    destruct x as [u c p]. cbn. unfold user_of.
    destruct (clients_of cr u), (proxies_of s u); split; try naive_solver lia; intros (? & -> & ->); cbn in *; (lia || done).
Qed.

(** The types the dashboard asks for are those a configuration can have. *)
Lemma types_in_step : apiV2ProxyTypes ≡ₚ Config.proxyConfigTypeMap.*1.
Proof. reflexivity. Qed.

(** ** Examples *)

Definition demo_ctx (page : string) : Query := mkQuery page "1" "online" "" None "" "" "LAP".

Lemma client_pages_witness :
  APIV2ClientList (Registry.List Registry.demo_reg) (demo_ctx "1") =
    Ok (mkPageResp 1 1 1 (Some [buildClientInfoResp Registry.demo_info])) ∧
  APIV2ClientList (Registry.List Registry.demo_reg) (demo_ctx "2") = Ok (mkPageResp 1 2 1 (Some [])).
Proof.
  destruct (client_pages Registry.demo_reg (demo_ctx "1") "online") as (_ & _ & _ & Hp & _).
  - eapply rtc_once, (Registry.step_register _ 5 Registry.demo_login _ _ (surjective_pairing _)).
  - done.
  - split; [rewrite (Hp _ _ 1 1)|rewrite (Hp _ _ 2 1)]; by vm_compute.
Defined.

Lemma user_list_counts_witness :
  ∃ L, mkUserResp "alice" 1 0 ∈ L ∧
  (APIV2UserList (λ t, t `div` 10) (λ t, t) (Registry.List Registry.demo_reg) Metrics.demo_stats
     (λ _, (map_to_list (Metrics.ProxyStats Metrics.demo_stats)).*1) (λ m, (map_to_list m).*2) 3
     (mkQuery "" "" "" "" None "" "" "")).2 = Ok (mkPageResp (Z.of_nat (length L)) 1 50 (Some (take 50 L))).
Proof.
  destruct (user_list_counts (λ t, t `div` 10) (λ t, t) Registry.demo_reg Metrics.demo_stats
    (Registry.List Registry.demo_reg) (λ _, (map_to_list (Metrics.ProxyStats Metrics.demo_stats)).*1)
    (λ m, (map_to_list m).*2) 3 (mkQuery "" "" "" "" None "" "" "") 1 50) as (L & Hr & _ & _ & Hin);
    [done|by intros ?|done|by vm_compute|].
  exists L. split; [|exact Hr]. apply Hin. vm_compute. split_and!; reflexivity.
Defined.

End Dashboard.
