(* ===== verification/Auth.v ===== *)
(** Authentication, pkg/auth: the setters with which frpc signs its messages and
    the verifiers of frps, for tokens (token.go), OpenID Connect (oidc.go) and
    the internal clients that always pass (pass.go); their construction from
    the configuration (auth.go) and the values read from files and commands
    (pkg/config/v1/value_source.go).

    [Setter] and [Verifier] are the interfaces of auth.go; [Accepts] states what
    a client and a server that belong together promise, and [session_accepted]
    is proved against it. The OAuth2 and OIDC packages, MD5, files and commands
    are parameters. *)
From Stdlib Require Import ZArith Lia Ascii String.
From stdpp Require Import base gmap strings list fin_maps relations.
From S2P Require Import Prelude GoLib Wire Msg NatController.

Local Open Scope Z_scope.
Local Open Scope frp_scope.

Module Auth.

Definition AuthMethodToken : string := "token".
Definition AuthMethodOIDC : string := "oidc".
Definition AuthScopeHeartBeats : string := "HeartBeats".
Definition AuthScopeNewWorkConns : string := "NewWorkConns".

(** ** Values from elsewhere *)

Record ExecEnvVar := mkEnvVar { env_Name : string; env_Value : string }.
Record ExecSource := mkExecSource { Command : string; Args : list string; Env : list ExecEnvVar }.
Record ValueSource := mkValueSource { vs_Type : string; vs_File : option string; vs_Exec : option ExecSource }.

Definition file_Validate (path : string) : res string unit :=
  if String.eqb path "" then Err "file path cannot be empty" else Ok tt.

Fixpoint env_Validate (env : list ExecEnvVar) : res string unit :=
  match env with
  | [] => Ok tt
  | e :: env =>
      if String.eqb (env_Name e) "" then Err "exec env name cannot be empty"
      else if StringContains (env_Name e) "=" then Err "exec env name cannot contain '='"
      else env_Validate env
  end.

Definition exec_Validate (e : ExecSource) : res string unit :=
  if String.eqb (Command e) "" then Err "exec command cannot be empty" else env_Validate (Env e).

Definition vs_Validate (v : option ValueSource) : res string unit :=
  match v with
  | None => Err "valueSource cannot be nil"
  | Some v =>
      if String.eqb (vs_Type v) "file" then
        match vs_File v with
        | None => Err "file configuration is required when type is 'file'"
        | Some f => file_Validate f
        end
      else if String.eqb (vs_Type v) "exec" then
        match vs_Exec v with
        | None => Err "exec configuration is required when type is 'exec'"
        | Some e => exec_Validate e
        end
      else Err ("unsupported value source type: " +:+ vs_Type v +:+ " (only 'file' and 'exec' are supported)")
  end.

Section Sources.
(** [os.ReadFile], and the output of a command run with some variables added to
    the environment. *)
Variable ReadFile : string → res string string.
Variable Output : string → list string → list string → res string string.

Definition file_Resolve (path : string) : res string string :=
  let? _ := file_Validate path in
  match ReadFile path with
  | Err e => Err ("failed to read file " +:+ path +:+ ": " +:+ e)
  | Ok content => Ok (TrimSpace content)
  end.

Definition exec_Resolve (e : ExecSource) : res string string :=
  let? _ := exec_Validate e in
  match Output (Command e) (Args e) ((λ v, env_Name v +:+ "=" +:+ env_Value v) <$> Env e) with
  | Err err => Err ("failed to execute command " +:+ Command e +:+ ": " +:+ err)
  | Ok content => Ok (TrimSpace content)
  end.

Definition vs_Resolve (v : ValueSource) : res string string :=
  let? _ := vs_Validate (Some v) in
  if String.eqb (vs_Type v) "file" then
    match vs_File v with Some f => file_Resolve f | None => Err "fileSource cannot be nil" end
  else if String.eqb (vs_Type v) "exec" then
    match vs_Exec v with Some e => exec_Resolve e | None => Err "execSource cannot be nil" end
  else Err ("unsupported value source type: " +:+ vs_Type v).
End Sources.

(** ** The interfaces *)

(** A setter fills the key of a message; [now] is the clock, in seconds. Where
    it fails the caller drops the message. *)
Class Setter (A : Type) := {
  SetLogin : Z → A → Msg.Login → A * res string Msg.Login;
  SetPing : Z → A → Msg.Ping → A * res string Msg.Ping;
  SetNewWorkConn : Z → A → Msg.NewWorkConn → A * res string Msg.NewWorkConn
}.

Class Verifier (V : Type) := {
  VerifyLogin : Z → V → Msg.Login → V * res string unit;
  VerifyPing : Z → V → Msg.Ping → V * res string unit;
  VerifyNewWorkConn : Z → V → Msg.NewWorkConn → V * res string unit
}.

Definition set_login_key (m : Msg.Login) (key : string) : Msg.Login :=
  Msg.mkLogin (Msg.login_Version m) (Msg.login_Hostname m) (Msg.login_Os m) (Msg.login_Arch m) (Msg.login_User m)
    key (Msg.login_Timestamp m) (Msg.login_RunID m) (Msg.login_ClientID m) (Msg.login_Metas m)
    (Msg.login_ClientSpec m) (Msg.login_PoolCount m).

Definition has (scopes : list string) (scope : string) : bool := bool_decide (scope ∈ scopes).

(** *** Always pass *)

Inductive alwaysPass := AlwaysPassVerifier.

#[global] Instance alwaysPass_Verifier : Verifier alwaysPass := {
  VerifyLogin _ v _ := (v, Ok tt);
  VerifyPing _ v _ := (v, Ok tt);
  VerifyNewWorkConn _ v _ := (v, Ok tt)
}.

(** *** Tokens *)

Record TokenAuth := mkTokenAuth { ta_scopes : list string; ta_token : string }.

Section Token.
Variable md5hex : string → string.

Definition NewTokenAuth (scopes : list string) (token : string) : TokenAuth := mkTokenAuth scopes token.

Definition token_SetLogin (a : TokenAuth) (m : Msg.Login) : Msg.Login :=
  set_login_key m (NatController.GetAuthKey md5hex (ta_token a) (Msg.login_Timestamp m)).

Definition token_SetPing (now : Z) (a : TokenAuth) (m : Msg.Ping) : Msg.Ping :=
  if negb (has (ta_scopes a) AuthScopeHeartBeats) then m
  else Msg.mkPing (NatController.GetAuthKey md5hex (ta_token a) now) now.

Definition token_SetNewWorkConn (now : Z) (a : TokenAuth) (m : Msg.NewWorkConn) : Msg.NewWorkConn :=
  if negb (has (ta_scopes a) AuthScopeNewWorkConns) then m
  else Msg.mkNewWorkConn (Msg.nwc_RunID m) (NatController.GetAuthKey md5hex (ta_token a) now) now.

Definition token_VerifyLogin (a : TokenAuth) (m : Msg.Login) : res string unit :=
  if negb (String.eqb (NatController.GetAuthKey md5hex (ta_token a) (Msg.login_Timestamp m)) (Msg.login_PrivilegeKey m))
  then Err "token in login doesn't match token from configuration" else Ok tt.

Definition token_VerifyPing (a : TokenAuth) (m : Msg.Ping) : res string unit :=
  if negb (has (ta_scopes a) AuthScopeHeartBeats) then Ok tt
  else if negb (String.eqb (NatController.GetAuthKey md5hex (ta_token a) (Msg.ping_Timestamp m)) (Msg.ping_PrivilegeKey m))
  then Err "token in heartbeat doesn't match token from configuration" else Ok tt.

Definition token_VerifyNewWorkConn (a : TokenAuth) (m : Msg.NewWorkConn) : res string unit :=
  if negb (has (ta_scopes a) AuthScopeNewWorkConns) then Ok tt
  else if negb (String.eqb (NatController.GetAuthKey md5hex (ta_token a) (Msg.nwc_Timestamp m)) (Msg.nwc_PrivilegeKey m))
  then Err "token in NewWorkConn doesn't match token from configuration" else Ok tt.

#[global] Instance token_Setter : Setter TokenAuth := {
  SetLogin _ a m := (a, Ok (token_SetLogin a m));
  SetPing now a m := (a, Ok (token_SetPing now a m));
  SetNewWorkConn now a m := (a, Ok (token_SetNewWorkConn now a m))
}.

#[global] Instance token_Verifier : Verifier TokenAuth := {
  VerifyLogin _ a m := (a, token_VerifyLogin a m);
  VerifyPing _ a m := (a, token_VerifyPing a m);
  VerifyNewWorkConn _ a m := (a, token_VerifyNewWorkConn a m)
}.
End Token.

(** *** OpenID Connect: the client *)

(** An OAuth2 token; whether its expiry is known. *)
Record OToken := mkOToken { AccessToken : string; Expiry_IsZero : bool }.

Inductive source := CachingSource | NonCachingSource.

Section OidcClient.
(** The state of the OAuth2 package with the identity provider, and the two
    ways to ask it: its caching token source, and a request each time. *)
Context {W : Type}.
Variable caching_Token cfg_Token : Z → W → W * res string OToken.

Record oidcTokenSource := mkTokenSource { ts_initialized : bool; ts_source : source; ts_world : W }.

Definition source_Token (now : Z) (s : source) (w : W) : W * res string OToken :=
  match s with CachingSource => caching_Token now w | NonCachingSource => cfg_Token now w end.

Definition ts_Token (now : Z) (s : oidcTokenSource) : oidcTokenSource * res string OToken :=
  if negb (ts_initialized s) then
    match source_Token now (ts_source s) (ts_world s) with
    | (w, Err e) => (mkTokenSource false (ts_source s) w, Err e)
    | (w, Ok token) =>
        (mkTokenSource true (if Expiry_IsZero token then NonCachingSource else ts_source s) w, Ok token)
    end
  else let '(w, r) := source_Token now (ts_source s) (ts_world s) in (mkTokenSource true (ts_source s) w, r).

Record OidcAuthProvider := mkOidcProvider { op_scopes : list string; op_tokenSource : oidcTokenSource }.

(** [NewOidcAuthSetter], after the checks of its configuration. *)
Definition NewOidcAuthSetter (scopes : list string) (w : W) : OidcAuthProvider :=
  mkOidcProvider scopes (mkTokenSource false CachingSource w).

Definition op_generateAccessToken (now : Z) (a : OidcAuthProvider) : OidcAuthProvider * res string string :=
  let '(s, r) := ts_Token now (op_tokenSource a) in
  (mkOidcProvider (op_scopes a) s,
   match r with
   | Err e => Err ("couldn't generate OIDC token for login: " +:+ e)
   | Ok token => Ok (AccessToken token)
   end).
End OidcClient.
Arguments oidcTokenSource : clear implicits.
Arguments OidcAuthProvider : clear implicits.

(** The three setters of a provider that has a function for its access token. *)
Section GenerateSetter.
Context {A : Type} (scopes : A → list string) (generateAccessToken : Z → A → A * res string string).

Definition gen_SetLogin (now : Z) (a : A) (m : Msg.Login) : A * res string Msg.Login :=
  let '(a, r) := generateAccessToken now a in
  (a, let? key := r in Ok (set_login_key m key)).

Definition gen_SetPing (now : Z) (a : A) (m : Msg.Ping) : A * res string Msg.Ping :=
  if negb (has (scopes a) AuthScopeHeartBeats) then (a, Ok m)
  else let '(a, r) := generateAccessToken now a in
       (a, let? key := r in Ok (Msg.mkPing key (Msg.ping_Timestamp m))).

Definition gen_SetNewWorkConn (now : Z) (a : A) (m : Msg.NewWorkConn) : A * res string Msg.NewWorkConn :=
  if negb (has (scopes a) AuthScopeNewWorkConns) then (a, Ok m)
  else let '(a, r) := generateAccessToken now a in
       (a, let? key := r in Ok (Msg.mkNewWorkConn (Msg.nwc_RunID m) key (Msg.nwc_Timestamp m))).

Definition gen_Setter : Setter A := {|
  SetLogin := gen_SetLogin; SetPing := gen_SetPing; SetNewWorkConn := gen_SetNewWorkConn |}.
End GenerateSetter.

#[global] Instance oidc_Setter {W} (caching_Token cfg_Token : Z → W → W * res string OToken) :
  Setter (OidcAuthProvider W) := gen_Setter op_scopes (op_generateAccessToken caching_Token cfg_Token).

Record OidcTokenSourceAuthProvider := mkOidcTokenSource { os_scopes : list string; os_valueSource : ValueSource }.

(** Files and the output of commands change: they are read at [now]. *)
Definition os_generateAccessToken (ReadFile : Z → string → res string string)
    (Output : Z → string → list string → list string → res string string) (now : Z)
    (a : OidcTokenSourceAuthProvider) : OidcTokenSourceAuthProvider * res string string :=
  (a, match vs_Resolve (ReadFile now) (Output now) (os_valueSource a) with
      | Err e => Err ("couldn't acquire OIDC token for login: " +:+ e)
      | Ok token => Ok token
      end).

#[global] Instance oidcTokenSource_Setter ReadFile Output : Setter OidcTokenSourceAuthProvider :=
  gen_Setter os_scopes (os_generateAccessToken ReadFile Output).

(** *** OpenID Connect: the server *)

Record OidcAuthConsumer := mkOidcConsumer { oc_scopes : list string; subjectsFromLogin : gset string }.

Definition NewOidcAuthVerifier (scopes : list string) : OidcAuthConsumer := mkOidcConsumer scopes ∅.

Section OidcServer.
(** [verifier.Verify]: the subject of a valid token, at the time [now]. *)
Variable Verify : Z → string → res string string.

Definition oidc_VerifyLogin (now : Z) (a : OidcAuthConsumer) (m : Msg.Login) : OidcAuthConsumer * res string unit :=
  match Verify now (Msg.login_PrivilegeKey m) with
  | Err e => (a, Err ("invalid OIDC token in login: " +:+ e))
  | Ok subject => (mkOidcConsumer (oc_scopes a) ({[subject]} ∪ subjectsFromLogin a), Ok tt)
  end.

Definition verifyPostLoginToken (now : Z) (a : OidcAuthConsumer) (privilegeKey : string) : res string unit :=
  match Verify now privilegeKey with
  | Err e => Err ("invalid OIDC token in ping: " +:+ e)
  | Ok subject =>
      if negb (bool_decide (subject ∈ subjectsFromLogin a))
      then Err ("received different OIDC subject in login and ping. new subject: " +:+ subject)
      else Ok tt
  end.

Definition oidc_VerifyPing (now : Z) (a : OidcAuthConsumer) (m : Msg.Ping) : res string unit :=
  if negb (has (oc_scopes a) AuthScopeHeartBeats) then Ok tt
  else verifyPostLoginToken now a (Msg.ping_PrivilegeKey m).

Definition oidc_VerifyNewWorkConn (now : Z) (a : OidcAuthConsumer) (m : Msg.NewWorkConn) : res string unit :=
  if negb (has (oc_scopes a) AuthScopeNewWorkConns) then Ok tt
  else verifyPostLoginToken now a (Msg.nwc_PrivilegeKey m).

#[global] Instance oidc_Verifier : Verifier OidcAuthConsumer := {
  VerifyLogin := oidc_VerifyLogin;
  VerifyPing now a m := (a, oidc_VerifyPing now a m);
  VerifyNewWorkConn now a m := (a, oidc_VerifyNewWorkConn now a m)
}.
End OidcServer.

(** ** Construction from the configuration *)

Record AuthOIDCClientConfig := mkOIDCClient {
  oidc_ClientID : string; oidc_ClientSecret : string; oidc_Audience : string; oidc_Scope : string;
  TokenEndpointURL : string; AdditionalEndpointParams : gmap string string; TrustedCaFile : string;
  InsecureSkipVerify : bool; ProxyURL : string; oidc_TokenSource : option ValueSource }.

(** [url.URL], as far as it is looked at. *)
Record URL := mkURL { Scheme : string; Host : string }.

Record AuthClientConfig := mkAuthClient {
  ac_Method : string; ac_AdditionalScopes : list string; ac_Token : string; ac_TokenSource : option ValueSource;
  ac_OIDC : AuthOIDCClientConfig }.

Record AuthServerConfig := mkAuthServer {
  as_Method : string; as_AdditionalScopes : list string; as_Token : string; as_TokenSource : option ValueSource }.

(** The setters and verifiers behind the two interfaces. *)
Inductive AnySetter (W : Type) :=
| SToken (a : TokenAuth)
| SOidc (a : OidcAuthProvider W)
| SOidcTokenSource (a : OidcTokenSourceAuthProvider).
Arguments SToken {W}.
Arguments SOidc {W}.
Arguments SOidcTokenSource {W}.

Inductive AnyVerifier :=
| VToken (a : TokenAuth)
| VOidc (a : OidcAuthConsumer).

Section Build.
Variable ReadFile : string → res string string.
Variable Output : string → list string → list string → res string string.
(** [url.Parse], [AppendCertsFromPEM], and the OAuth2 package for a
    configuration and the parameters of its endpoint. *)
Variable parse : string → res string URL.
Variable appendCerts : string → bool.
Context {W : Type} (tokenGenerator : AuthOIDCClientConfig → gmap string string → W).

Definition ValidateOIDCClientCredentialsConfig (c : AuthOIDCClientConfig) : res string unit :=
  let errs :=
    (if String.eqb (oidc_ClientID c) "" then ["auth.oidc.clientID is required"] else []) ++
    (if String.eqb (TokenEndpointURL c) "" then ["auth.oidc.tokenEndpointURL is required"]
     else match parse (TokenEndpointURL c) with
          | Err _ => ["auth.oidc.tokenEndpointURL must be an absolute http or https URL"]
          | Ok u =>
              if String.eqb (Scheme u) "" || String.eqb (Host u) ""
              then ["auth.oidc.tokenEndpointURL must be an absolute http or https URL"]
              else if negb (String.eqb (Scheme u) "http") && negb (String.eqb (Scheme u) "https")
              then ["auth.oidc.tokenEndpointURL must use http or https"] else []
          end) ++
    (match AdditionalEndpointParams c !! "scope" with
     | Some _ => ["auth.oidc.additionalEndpointParams.scope is not allowed; use auth.oidc.scope instead"]
     | None => [] end) ++
    (if negb (String.eqb (oidc_Audience c) "") then
       match AdditionalEndpointParams c !! "audience" with
       | Some _ => ["cannot specify both auth.oidc.audience and auth.oidc.additionalEndpointParams.audience"]
       | None => [] end
     else []) in
  if bool_decide (errs = []) then Ok tt else Err (Join errs "; ").

(** The errors of [createOIDCHTTPClient]. *)
Definition createOIDCHTTPClient (trustedCAFile : string) (insecureSkipVerify : bool) (proxyURL : string) : res string unit :=
  let? _ :=
    if negb (String.eqb trustedCAFile "") && negb insecureSkipVerify then
      match ReadFile trustedCAFile with
      | Err e => Err ("failed to read OIDC CA certificate file: " +:+ e)
      | Ok caCert => if appendCerts caCert then Ok tt else Err "failed to parse OIDC CA certificate"
      end
    else Ok tt in
  if negb (String.eqb proxyURL "") then
    match parse proxyURL with Err e => Err ("failed to parse OIDC proxy URL: " +:+ e) | Ok _ => Ok tt end
  else Ok tt.

Definition checkedOidcAuthSetter (scopes : list string) (c : AuthOIDCClientConfig) : res string (OidcAuthProvider W) :=
  let? _ := ValidateOIDCClientCredentialsConfig c in
  let eps := if negb (String.eqb (oidc_Audience c) "")
             then <["audience" := oidc_Audience c]> (AdditionalEndpointParams c) else AdditionalEndpointParams c in
  let? _ := if negb (String.eqb (TrustedCaFile c) "") || InsecureSkipVerify c || negb (String.eqb (ProxyURL c) "")
            then createOIDCHTTPClient (TrustedCaFile c) (InsecureSkipVerify c) (ProxyURL c) else Ok tt in
  Ok (NewOidcAuthSetter scopes (tokenGenerator c eps)).

Definition NewAuthSetter (c : AuthClientConfig) : res string (AnySetter W) :=
  if String.eqb (ac_Method c) AuthMethodToken then Ok (SToken (NewTokenAuth (ac_AdditionalScopes c) (ac_Token c)))
  else if String.eqb (ac_Method c) AuthMethodOIDC then
    match oidc_TokenSource (ac_OIDC c) with
    | Some v => Ok (SOidcTokenSource (mkOidcTokenSource (ac_AdditionalScopes c) v))
    | None => let? a := checkedOidcAuthSetter (ac_AdditionalScopes c) (ac_OIDC c) in Ok (SOidc a)
    end
  else Err ("unsupported auth method: " +:+ ac_Method c).

(** The token of a configuration, from its source where it has one. *)
Definition resolve_token (method token : string) (src : option ValueSource) : res string string :=
  match src with
  | Some v =>
      if String.eqb method AuthMethodToken then
        match vs_Resolve ReadFile Output v with
        | Err e => Err ("failed to resolve auth.tokenSource: " +:+ e)
        | Ok token => Ok token
        end
      else Ok token
  | None => Ok token
  end.

(** The setter and the key of the control channel. *)
Definition BuildClientAuth (c : AuthClientConfig) : res string (AnySetter W * string) :=
  let? token := resolve_token (ac_Method c) (ac_Token c) (ac_TokenSource c) in
  let? setter := NewAuthSetter (mkAuthClient (ac_Method c) (ac_AdditionalScopes c) token (ac_TokenSource c) (ac_OIDC c)) in
  Ok (setter, token).

(** An unknown method leaves the verifier nil. *)
Definition NewAuthVerifier (c : AuthServerConfig) : option AnyVerifier :=
  if String.eqb (as_Method c) AuthMethodToken then Some (VToken (NewTokenAuth (as_AdditionalScopes c) (as_Token c)))
  else if String.eqb (as_Method c) AuthMethodOIDC then Some (VOidc (NewOidcAuthVerifier (as_AdditionalScopes c)))
  else None.

Definition BuildServerAuth (c : AuthServerConfig) : res string (option AnyVerifier * string) :=
  let? token := resolve_token (as_Method c) (as_Token c) (as_TokenSource c) in
  Ok (NewAuthVerifier (mkAuthServer (as_Method c) (as_AdditionalScopes c) token (as_TokenSource c)), token).
End Build.

#[global] Instance any_Verifier md5hex Verify : Verifier AnyVerifier := {
  VerifyLogin now v m :=
    match v with
    | VToken a => (v, token_VerifyLogin md5hex a m)
    | VOidc a => let '(a, r) := oidc_VerifyLogin Verify now a m in (VOidc a, r)
    end;
  VerifyPing now v m :=
    (v, match v with VToken a => token_VerifyPing md5hex a m | VOidc a => oidc_VerifyPing Verify now a m end);
  VerifyNewWorkConn now v m :=
    (v, match v with
        | VToken a => token_VerifyNewWorkConn md5hex a m
        | VOidc a => oidc_VerifyNewWorkConn Verify now a m
        end)
}.

(** ** A client and a server that belong together *)

(** [meet]: they are configured for each other; [known]: and the client has
    logged in; [in_time]: a message made at one time arrives early enough at
    another. The server has other clients: their logins do not matter. *)
Class Accepts (A V : Type) `{Setter A, Verifier V} := {
  in_time : Z → Z → Prop;
  meet : A → V → Prop;
  known : A → V → Prop;
  accepts_login now now' a v m a' m' :
    meet a v → in_time now now' → SetLogin now a m = (a', Ok m') →
    ∃ v', VerifyLogin now' v m' = (v', Ok tt) ∧ known a' v';
  accepts_ping now now' a v m a' r :
    known a v → in_time now now' → SetPing now a m = (a', r) →
    known a' v ∧ ∀ m', r = Ok m' → VerifyPing now' v m' = (v, Ok tt);
  accepts_work now now' a v m a' r :
    known a v → in_time now now' → SetNewWorkConn now a m = (a', r) →
    known a' v ∧ ∀ m', r = Ok m' → VerifyNewWorkConn now' v m' = (v, Ok tt);
  accepts_others now a v m : known a v → known a (VerifyLogin now v m).1
}.

(** What happens to the pair after the login: the client sends a heartbeat or
    the first message of a work connection, or another client logs in. *)
Inductive event :=
| EPing (sent received : Z) (m : Msg.Ping)
| EWork (sent received : Z) (m : Msg.NewWorkConn)
| EOther (now : Z) (m : Msg.Login).

(** The answers the client's messages get; a message that could not be set is
    not sent. *)
Fixpoint answers {A V} `{Setter A, Verifier V} (a : A) (v : V) (evs : list event) : list (res string unit) :=
  match evs with
  | [] => []
  | EPing now now' m :: evs =>
      let '(a, r) := SetPing now a m in
      match r with
      | Err _ => answers a v evs
      | Ok m => let '(v, ans) := VerifyPing now' v m in ans :: answers a v evs
      end
  | EWork now now' m :: evs =>
      let '(a, r) := SetNewWorkConn now a m in
      match r with
      | Err _ => answers a v evs
      | Ok m => let '(v, ans) := VerifyNewWorkConn now' v m in ans :: answers a v evs
      end
  | EOther now m :: evs => answers a (VerifyLogin now v m).1 evs
  end.

Definition event_in_time {A V} `{Accepts A V} (e : event) : Prop :=
  match e with EPing now now' _ | EWork now now' _ => in_time now now' | EOther _ _ => True end.

Lemma answers_accepted {A V} `{Accepts A V} a v evs :
  known a v → Forall event_in_time evs → Forall (λ ans, ans = Ok tt) (answers a v evs).
Proof.
  intros Hk Ht. revert a v Hk. induction Ht as [|e evs He _ IH]; intros a v Hk; cbn; [done|].
  destruct e as [now now' m|now now' m|now m].
  - destruct (SetPing now a m) as [a' r] eqn:Hs.
    destruct (accepts_ping _ _ _ _ _ _ _ Hk He Hs) as [Hk' Hv]. destruct r as [m'|]; [|by apply IH].
    rewrite (Hv m') by done. constructor; [done|by apply IH].
  - destruct (SetNewWorkConn now a m) as [a' r] eqn:Hs.
    destruct (accepts_work _ _ _ _ _ _ _ Hk He Hs) as [Hk' Hv]. destruct r as [m'|]; [|by apply IH].
    rewrite (Hv m') by done. constructor; [done|by apply IH].
  - by apply IH, accepts_others.
Qed.

(** *** Tokens *)

Definition covers (mine theirs : list string) : Prop :=
  ∀ s, s ∈ [AuthScopeHeartBeats; AuthScopeNewWorkConns] → s ∈ theirs → s ∈ mine.

Lemma has_spec scopes s : has scopes s = true ↔ s ∈ scopes.
Proof. apply bool_decide_eq_true. Qed.

#[global] Program Instance token_Accepts md5hex :
  @Accepts TokenAuth TokenAuth (token_Setter md5hex) (token_Verifier md5hex) := {
  in_time _ _ := True;
  meet a v := ta_token a = ta_token v ∧ covers (ta_scopes a) (ta_scopes v);
  known a v := ta_token a = ta_token v ∧ covers (ta_scopes a) (ta_scopes v)
}.
Next Obligation.
  intros md5hex now now' a v m a' m' [Ht Hc] _ [= <- <-]. eexists. split; [|done].
  cbn. unfold token_VerifyLogin. cbn. by rewrite Ht, String.eqb_refl.
Qed.
Next Obligation.
  intros md5hex now now' a v m a' r [Ht Hc] _ [= <- <-]. split; [done|]. intros m' [= <-].
  cbn. f_equal. unfold token_VerifyPing, token_SetPing.
  destruct (has (ta_scopes v) AuthScopeHeartBeats) eqn:Hv; [|done]. apply has_spec in Hv.
  rewrite (proj2 (has_spec (ta_scopes a) _)) by (apply Hc; [set_solver|done]).
  cbn. by rewrite Ht, String.eqb_refl.
Qed.
Next Obligation.
  intros md5hex now now' a v m a' r [Ht Hc] _ [= <- <-]. split; [done|]. intros m' [= <-].
  cbn. f_equal. unfold token_VerifyNewWorkConn, token_SetNewWorkConn.
  destruct (has (ta_scopes v) AuthScopeNewWorkConns) eqn:Hv; [|done]. apply has_spec in Hv.
  rewrite (proj2 (has_spec (ta_scopes a) _)) by (apply Hc; [set_solver|done]).
  cbn. by rewrite Ht, String.eqb_refl.
Qed.
Next Obligation. done. Qed.

(** *** OpenID Connect *)

Section OidcAgree.
Context {A : Type} (scopes : A → list string) (generateAccessToken : Z → A → A * res string string).
Context (Verify : Z → string → res string string) (subject : string) (fresh : Z → Z → Prop).
Hypothesis gen_scopes : ∀ now a, scopes (generateAccessToken now a).1 = scopes a.
(** The identity provider's tokens are valid for a while, and all for one
    subject. *)
Hypothesis gen_valid : ∀ now now' a a' key,
  generateAccessToken now a = (a', Ok key) → fresh now now' → Verify now' key = Ok subject.

Definition oidc_meet (a : A) (v : OidcAuthConsumer) : Prop := covers (scopes a) (oc_scopes v).
Definition oidc_known (a : A) (v : OidcAuthConsumer) : Prop := oidc_meet a v ∧ subject ∈ subjectsFromLogin v.

Lemma gen_known now a v a' r : oidc_known a v → generateAccessToken now a = (a', r) → oidc_known a' v.
Proof.
  intros [Hm Hs] Hg. split; [|done]. unfold oidc_meet. pose proof (gen_scopes now a) as H.
  rewrite Hg in H. cbn in H. by rewrite H.
Qed.

Lemma post_login_accepted now now' a v a' key :
  oidc_known a v → fresh now now' → generateAccessToken now a = (a', Ok key) →
  verifyPostLoginToken Verify now' v key = Ok tt.
Proof.
  intros [_ Hs] Hf Hg. unfold verifyPostLoginToken. rewrite (gen_valid _ _ _ _ _ Hg Hf).
  by rewrite bool_decide_true.
Qed.

#[local] Program Instance oidc_Accepts : @Accepts A OidcAuthConsumer (gen_Setter scopes generateAccessToken) (oidc_Verifier Verify) := {
  in_time := fresh; meet := oidc_meet; known := oidc_known
}.
Next Obligation.
  intros now now' a v m a' m' Hm Hf. cbn. unfold gen_SetLogin. pose proof (gen_scopes now a) as Hsc.
  destruct (generateAccessToken now a) as [a1 [key|]] eqn:Hg; intros [=]; subst a1 m'.
  unfold oidc_VerifyLogin. cbn [set_login_key Msg.login_PrivilegeKey]. rewrite (gen_valid _ _ _ _ _ Hg Hf).
  eexists. split; [done|]. split; [|set_solver]. unfold oidc_meet. cbn in *. by rewrite Hsc.
Qed.
Next Obligation.
  intros now now' a v m a' r Hk Hf. cbn. unfold gen_SetPing, oidc_VerifyPing. destruct Hk as [Hm Hs].
  destruct (has (scopes a) AuthScopeHeartBeats) eqn:Ha; cbn.
  - destruct (generateAccessToken now a) as [a1 r1] eqn:Hg. intros [= <- <-].
    split; [by eapply gen_known; [split|]|]. intros m' Hm'. destruct r1 as [key|]; [|done]. injection Hm' as <-.
    f_equal. destruct (has (oc_scopes v) _); cbn; [|done]. by eapply post_login_accepted; [split|..].
  - intros [= <- <-]. split; [done|]. intros m' [= <-].
    destruct (has (oc_scopes v) _) eqn:Hv; [|done]. apply has_spec in Hv.
    apply (Hm _) in Hv; [|set_solver]. apply has_spec in Hv. congruence.
Qed.
Next Obligation.
  intros now now' a v m a' r Hk Hf. cbn. unfold gen_SetNewWorkConn, oidc_VerifyNewWorkConn. destruct Hk as [Hm Hs].
  destruct (has (scopes a) AuthScopeNewWorkConns) eqn:Ha; cbn.
  - destruct (generateAccessToken now a) as [a1 r1] eqn:Hg. intros [= <- <-].
    split; [by eapply gen_known; [split|]|]. intros m' Hm'. destruct r1 as [key|]; [|done]. injection Hm' as <-.
    f_equal. destruct (has (oc_scopes v) _); cbn; [|done]. by eapply post_login_accepted; [split|..].
  - intros [= <- <-]. split; [done|]. intros m' [= <-].
    destruct (has (oc_scopes v) _) eqn:Hv; [|done]. apply has_spec in Hv.
    apply (Hm _) in Hv; [|set_solver]. apply has_spec in Hv. congruence.
Qed.
Next Obligation.
  intros now a v m [Hm Hs]. cbn. unfold oidc_VerifyLogin. destruct (Verify now _); [|done].
  split; [done|set_solver].
Qed.
End OidcAgree.

(** The two providers keep their scopes, and hand out the tokens of their
    source. *)
Lemma op_scopes_kept {W} caching cfg now (a : OidcAuthProvider W) :
  op_scopes (op_generateAccessToken caching cfg now a).1 = op_scopes a.
Proof. unfold op_generateAccessToken. by destruct (ts_Token _ _ _ _). Qed.

Lemma op_token_issued {W} caching cfg now (a a' : OidcAuthProvider W) key :
  op_generateAccessToken caching cfg now a = (a', Ok key) →
  ∃ w w' tok, (caching now w = (w', Ok tok) ∨ cfg now w = (w', Ok tok)) ∧ AccessToken tok = key.
Proof.
  unfold op_generateAccessToken, ts_Token. destruct (ts_source (op_tokenSource a)) eqn:Hsrc; cbn.
  - destruct (caching now _) as [w' [tok|e]] eqn:Hc; destruct (ts_initialized _); cbn; intros [=]; subst; eauto 8.
  - destruct (cfg now _) as [w' [tok|e]] eqn:Hc; destruct (ts_initialized _); cbn; intros [=]; subst; eauto 8.
Qed.

(** Where a client and a server belong together, the whole session is
    accepted: the login passes, and after it every heartbeat and every work
    connection the client signs, with other clients logging in between. The laws
    hold for equal tokens when the client signs every scope the server checks,
    and for OpenID Connect when also the provider's tokens are valid on arrival
    and name one subject. *)
Theorem session_accepted {A V} `{Accepts A V} a v now now' m a' m' evs :
  meet a v → in_time now now' → SetLogin now a m = (a', Ok m') → Forall event_in_time evs →
  ∃ v', VerifyLogin now' v m' = (v', Ok tt) ∧ Forall (λ ans, ans = Ok tt) (answers a' v' evs).
Proof.
  intros Hm Ht Hs Hevs. destruct (accepts_login _ _ _ _ _ _ _ Hm Ht Hs) as (v' & Hv & Hk).
  exists v'. split; [done|]. by apply answers_accepted.
Qed.

(** ** Who does not get in *)

Lemma append_inj_r (x y z : string) : x +:+ z = y +:+ z → x = y.
Proof.
  revert y. induction x as [|c x IH]; intros [|d y] Heq; [done| | |].
  1,2: exfalso; apply (f_equal String.length) in Heq; rewrite !string_length_app in Heq; cbn [String.length] in Heq; lia.
  injection Heq as -> Heq. f_equal. by apply IH.
Qed.

(** The MD5 of a text is never the empty text, and of the texts that two tokens
    are hashed with no two collide. Both are about the two tokens at hand. *)
Definition hashes_apart (md5hex : string → string) (t t' : string) : Prop :=
  ∀ ts, md5hex (t +:+ Itoa ts) = md5hex (t' +:+ Itoa ts) → t = t'.

Lemma same_key md5hex t t' ts :
  hashes_apart md5hex t t' → NatController.GetAuthKey md5hex t ts = NatController.GetAuthKey md5hex t' ts ↔ t = t'.
Proof. intros Hh. split; [apply Hh|by intros ->]. Qed.

Lemma refused_unless (k k' e : string) :
  (if negb (String.eqb k k') then Err e else Ok tt) = Ok tt :> res string unit ↔ k = k'.
Proof. destruct (String.eqb_spec k k'); naive_solver. Qed.

Lemma scope_checked scopes scope (r : res string unit) :
  (if negb (has scopes scope) then Ok tt else r) = Ok tt ↔ scope ∉ scopes ∨ (scope ∈ scopes ∧ r = Ok tt).
Proof.
  destruct (has scopes scope) eqn:Hh; cbn.
  - apply has_spec in Hh. naive_solver.
  - split; [|done]. intros _. left. intros Hin%has_spec. congruence.
Qed.

Lemma has_spec' scopes scope : has scopes scope = false ↔ scope ∉ scopes.
Proof. rewrite <-has_spec. by destruct (has scopes scope). Qed.

(** C17. What a client signs with its token, the server accepts exactly where it
    should: a login if and only if the two tokens are the same, whatever the
    login's timestamp; a heartbeat and a new work connection, which the client
    signs with the time at which it sends them, if and only if the server does
    not check that scope, or the client signs it and the tokens are the same. In
    particular a client that does not sign a scope the server checks is refused
    even with the right token. Assumed of MD5: no hash is the empty text, and the
    two tokens at hand have no colliding pair of texts (the same timestamp
    behind either). *)
Theorem token_needed md5hex (a v : TokenAuth) :
  (∀ x, md5hex x ≠ "") → hashes_apart md5hex (ta_token v) (ta_token a) →
  (∀ m, token_VerifyLogin md5hex v (token_SetLogin md5hex a m) = Ok tt ↔ ta_token v = ta_token a) ∧
  (∀ now, token_VerifyPing md5hex v (token_SetPing md5hex now a (Msg.mkPing "" 0)) = Ok tt ↔
     AuthScopeHeartBeats ∉ ta_scopes v ∨ (AuthScopeHeartBeats ∈ ta_scopes a ∧ ta_token v = ta_token a)) ∧
  (∀ now runID, token_VerifyNewWorkConn md5hex v (token_SetNewWorkConn md5hex now a (Msg.mkNewWorkConn runID "" 0)) = Ok tt ↔
     AuthScopeNewWorkConns ∉ ta_scopes v ∨ (AuthScopeNewWorkConns ∈ ta_scopes a ∧ ta_token v = ta_token a)).
Proof.
  intros Hne Hap. unfold token_VerifyLogin, token_VerifyPing, token_VerifyNewWorkConn, token_SetPing, token_SetNewWorkConn.
  split_and!; intros.
  - rewrite refused_unless. by apply same_key.
  - rewrite scope_checked, refused_unless. destruct (has (ta_scopes a) AuthScopeHeartBeats) eqn:Ha; cbn [negb];
      [apply has_spec in Ha; cbn; rewrite same_key by done|apply has_spec' in Ha; cbn];
      destruct (decide (AuthScopeHeartBeats ∈ ta_scopes v)); naive_solver.
  - rewrite scope_checked, refused_unless. destruct (has (ta_scopes a) AuthScopeNewWorkConns) eqn:Ha; cbn [negb];
      [apply has_spec in Ha; cbn; rewrite same_key by done|apply has_spec' in Ha; cbn];
      destruct (decide (AuthScopeNewWorkConns ∈ ta_scopes v)); naive_solver.
Qed.

(** The verifier after some logins, accepted or not. *)
Definition after_logins (Verify : Z → string → res string string) (scopes : list string)
    (logins : list (Z * Msg.Login)) : OidcAuthConsumer :=
  foldl (λ v e, (oidc_VerifyLogin Verify e.1 v e.2).1) (NewOidcAuthVerifier scopes) logins.

Lemma after_logins_spec Verify scopes logins :
  oc_scopes (after_logins Verify scopes logins) = scopes ∧
  ∀ s, s ∈ subjectsFromLogin (after_logins Verify scopes logins) ↔
       ∃ e, e ∈ logins ∧ Verify e.1 (Msg.login_PrivilegeKey e.2) = Ok s.
Proof.
  unfold after_logins. induction logins as [|e logins [IH1 IH2]] using rev_ind; [set_solver|].
  rewrite foldl_app. cbn. set (v := foldl _ _ _) in *. unfold oidc_VerifyLogin.
  assert (∀ s, (∃ e', e' ∈ logins ++ [e] ∧ Verify e'.1 (Msg.login_PrivilegeKey e'.2) = Ok s) ↔
    s ∈ subjectsFromLogin v ∨ Verify e.1 (Msg.login_PrivilegeKey e.2) = Ok s) as Hnew.
  { intros s. rewrite IH2. split.
    - intros (e' & [?| ->%list_elem_of_singleton]%elem_of_app & ?); eauto.
    - intros [(e' & ? & ?)|?]; [exists e'|exists e]; rewrite elem_of_app, list_elem_of_singleton; eauto. }
  destruct (Verify e.1 (Msg.login_PrivilegeKey e.2)) as [s0|err] eqn:Hv; cbn; (split; [done|]); intros s; rewrite Hnew.
  - rewrite elem_of_union, elem_of_singleton. intuition congruence.
  - intuition congruence.
Qed.

(** With OpenID Connect, whatever logins came before, a heartbeat in a
    checked scope is accepted exactly when its token is valid and some accepted
    login had a token of the same subject; the same for work connections. *)
Theorem oidc_subject_logged_in Verify scopes logins now :
  (∀ m, AuthScopeHeartBeats ∈ scopes →
     oidc_VerifyPing Verify now (after_logins Verify scopes logins) m = Ok tt ↔
     ∃ s e, Verify now (Msg.ping_PrivilegeKey m) = Ok s ∧ e ∈ logins ∧ Verify e.1 (Msg.login_PrivilegeKey e.2) = Ok s) ∧
  (∀ m, AuthScopeNewWorkConns ∈ scopes →
     oidc_VerifyNewWorkConn Verify now (after_logins Verify scopes logins) m = Ok tt ↔
     ∃ s e, Verify now (Msg.nwc_PrivilegeKey m) = Ok s ∧ e ∈ logins ∧ Verify e.1 (Msg.login_PrivilegeKey e.2) = Ok s).
Proof.
  destruct (after_logins_spec Verify scopes logins) as [Hsc Hsub]. set (v := after_logins _ _ _) in *.
  assert (∀ key, verifyPostLoginToken Verify now v key = Ok tt ↔
    ∃ s e, Verify now key = Ok s ∧ e ∈ logins ∧ Verify e.1 (Msg.login_PrivilegeKey e.2) = Ok s) as Hkey.
  { intros key. unfold verifyPostLoginToken. destruct (Verify now key) as [s|]; [|naive_solver].
    case_bool_decide as Hin; cbn; rewrite Hsub in Hin.
    - split; [|done]. intros _. destruct Hin as (e & ? & ?). eauto.
    - split; [done|]. intros (s' & e & [= <-] & ? & ?). destruct Hin. eauto. }
  split; intros m Hin; unfold oidc_VerifyPing, oidc_VerifyNewWorkConn; rewrite Hsc;
    rewrite (proj2 (has_spec scopes _)) by done; apply Hkey.
Qed.

(** The subject is not bound to the session: a heartbeat that carries a
    valid token of another client's subject is accepted, wherever that other
    client has logged in before. *)
Theorem oidc_subject_not_bound Verify scopes now mine other m :
  Verify now (Msg.login_PrivilegeKey mine) = Ok "alice" → Verify now (Msg.login_PrivilegeKey other) = Ok "bob" →
  Verify now (Msg.ping_PrivilegeKey m) = Ok "bob" →
  oidc_VerifyPing Verify now (after_logins Verify scopes [(now, other); (now, mine)]) m = Ok tt.
Proof.
  intros H1 H2 H3. unfold oidc_VerifyPing. destruct (negb _); [done|]. unfold verifyPostLoginToken. rewrite H3.
  rewrite bool_decide_true; [done|]. apply after_logins_spec. exists (now, other). split; [left|done].
Qed.

(** ** The choice of the token source *)

Section Choice.
Context {W : Type} (caching_Token cfg_Token : Z → W → W * res string OToken).

(** Calls of [Token] one after the other, and the first token they gave. *)
Fixpoint ts_calls (s : oidcTokenSource W) (times : list Z) : oidcTokenSource W * list (res string OToken) :=
  match times with
  | [] => (s, [])
  | now :: times =>
      let '(s, r) := ts_Token caching_Token cfg_Token now s in
      let '(s, rs) := ts_calls s times in (s, r :: rs)
  end.

Fixpoint first_token (rs : list (res string OToken)) : option OToken :=
  match rs with [] => None | Ok tok :: _ => Some tok | Err _ :: rs => first_token rs end.

Lemma ts_calls_initialized w src times :
  ts_initialized (ts_calls (mkTokenSource true src w) times).1 = true ∧
  ts_source (ts_calls (mkTokenSource true src w) times).1 = src.
Proof.
  revert w. induction times as [|now times IH]; intros w; cbn; [done|].
  unfold ts_Token. cbn. destruct (source_Token _ _ _ _ w) as [w' r]. specialize (IH w').
  by destruct (ts_calls _ times).
Qed.

(** The first token that arrives decides for good: when the provider tells
    its expiry all later ones come from the cache, when it does not each is
    requested anew, and failures before it decide nothing. *)
Theorem oidc_source_choice w times now :
  let '(s, rs) := ts_calls (mkTokenSource false CachingSource w) times in
  (ts_Token caching_Token cfg_Token now s).2 =
  match first_token rs with
  | Some tok => (if Expiry_IsZero tok then cfg_Token now (ts_world s) else caching_Token now (ts_world s)).2
  | None => (caching_Token now (ts_world s)).2
  end.
Proof.
  assert (let '(s, rs) := ts_calls (mkTokenSource false CachingSource w) times in
    match first_token rs with
    | Some tok => ts_initialized s = true ∧ ts_source s = if Expiry_IsZero tok then NonCachingSource else CachingSource
    | None => ts_initialized s = false ∧ ts_source s = CachingSource
    end) as Hinv.
  { revert w. induction times as [|t times IH]; intros w; cbn; [done|].
    unfold ts_Token. cbn. destruct (caching_Token t w) as [w' [tok|e]].
    - pose proof (ts_calls_initialized w' (if Expiry_IsZero tok then NonCachingSource else CachingSource) times) as H.
      by destruct (ts_calls _ times).
    - specialize (IH w'). by destruct (ts_calls _ times). }
  destruct (ts_calls _ times) as [s rs]. unfold ts_Token.
  destruct (first_token rs) as [tok|]; destruct Hinv as [Hi Hs]; rewrite Hi, Hs; cbn.
  - destruct (Expiry_IsZero tok); cbn; [by destruct (cfg_Token now _)|by destruct (caching_Token now _)].
  - by destruct (caching_Token now _) as [w' []].
Qed.
End Choice.

(** ** Examples *)

Definition demo_ta : TokenAuth := mkTokenAuth [AuthScopeHeartBeats] "secret".
Definition demo_login : Msg.Login :=
  Msg.mkLogin "v1" "host" "linux" "amd64" "alice" "" 7 "" "" ∅ (Msg.mkClientSpec "" false) 1.

Lemma session_accepted_witness :
  ∃ v, @VerifyLogin _ (token_Verifier id) 9 demo_ta (token_SetLogin id demo_ta demo_login) = (v, Ok tt) ∧
  Forall (λ ans, ans = Ok tt)
    (@answers _ _ (token_Setter id) (token_Verifier id) demo_ta v
       [EPing 8 9 (Msg.mkPing "" 0); EOther 9 demo_login; EWork 9 9 (Msg.mkNewWorkConn "r" "" 0)]).
Proof.
  apply (@session_accepted _ _ _ _ (token_Accepts id) demo_ta demo_ta 7 9 demo_login demo_ta).
  - split; [done|]. by intros s _ Hs.
  - exact I.
  - done.
  - repeat constructor.
Defined.

(** A hash for examples: its results are never empty and never collide. *)
Definition demo_md5 (s : string) : string := "h" +:+ s.

Lemma demo_md5_apart t t' : hashes_apart demo_md5 t t'.
Proof. intros ts [= H]. by eapply append_inj_r. Qed.

Lemma token_needed_witness :
  token_VerifyLogin demo_md5 (mkTokenAuth [] "a") (token_SetLogin demo_md5 (mkTokenAuth [] "b") demo_login) ≠ Ok tt ∧
  token_VerifyPing demo_md5 demo_ta (token_SetPing demo_md5 9 (mkTokenAuth [] "secret") (Msg.mkPing "" 0)) ≠ Ok tt ∧
  token_VerifyNewWorkConn demo_md5 demo_ta (token_SetNewWorkConn demo_md5 9 (mkTokenAuth [] "b") (Msg.mkNewWorkConn "r" "" 0)) = Ok tt.
Proof.
  split_and!.
  - intros H. apply (token_needed demo_md5 (mkTokenAuth [] "b") (mkTokenAuth [] "a")) in H; [done|done|apply demo_md5_apart].
  - intros H. apply (token_needed demo_md5 (mkTokenAuth [] "secret") demo_ta) in H; [|done|apply demo_md5_apart].
    set_solver.
  - apply (token_needed demo_md5 (mkTokenAuth [] "b") demo_ta); [done|apply demo_md5_apart|]. left. set_solver.
Defined.

Definition demo_verify (_ : Z) (key : string) : res string string :=
  if String.eqb key "" then Err "empty" else Ok key.

Lemma oidc_subject_logged_in_witness :
  oidc_VerifyPing demo_verify 3 (after_logins demo_verify [AuthScopeHeartBeats] [(1, set_login_key demo_login "alice")])
    (Msg.mkPing "alice" 0) = Ok tt.
Proof.
  apply (oidc_subject_logged_in demo_verify [AuthScopeHeartBeats] [(1, set_login_key demo_login "alice")] 3);
    [set_solver|].
  exists "alice", (1, set_login_key demo_login "alice"). split_and!; [done|left|done].
Defined.

Lemma oidc_subject_not_bound_witness :
  oidc_VerifyPing demo_verify 3 (after_logins demo_verify [AuthScopeHeartBeats]
    [(3, set_login_key demo_login "bob"); (3, set_login_key demo_login "alice")]) (Msg.mkPing "bob" 0) = Ok tt.
Proof.
  by apply (oidc_subject_not_bound demo_verify [AuthScopeHeartBeats] 3 (set_login_key demo_login "alice")
    (set_login_key demo_login "bob") (Msg.mkPing "bob" 0)).
Defined.

End Auth.
