(* ===== verification/ServerPlugins.v ===== *)
(** The plugins of frps, pkg/plugin/server: HTTP services that are asked before
    a login, a new proxy, a heartbeat, a work connection or a user connection is
    accepted and may refuse or rewrite it, and that are told when a proxy
    closes.

    A plugin is the HTTP plugin of http.go, the only one there is. The HTTP
    exchange and JSON are parameters; [W] is the state of the world outside,
    which the calls thread. *)
From Stdlib Require Import ZArith Lia Ascii String.
From stdpp Require Import base gmap strings list fin_maps relations.
From S2P Require Import Prelude GoLib Wire Msg Firewall.

Local Open Scope Z_scope.
Local Open Scope frp_scope.

Module ServerPlugins.

(** ** Contents, plugin.go and types.go *)

Definition APIVersion : string := "0.1.0".
Definition OpLogin : string := "Login".
Definition OpNewProxy : string := "NewProxy".
Definition OpCloseProxy : string := "CloseProxy".
Definition OpPing : string := "Ping".
Definition OpNewWorkConn : string := "NewWorkConn".
Definition OpNewUserConn : string := "NewUserConn".

Record Request (T : Type) := mkRequest { rq_Version : string; rq_Op : string; rq_Content : T }.
Arguments mkRequest {T}.

(** [Content] is nil for a JSON null. *)
Record Response (T : Type) := mkResponse { Reject : bool; RejectReason : string; Unchange : bool; rs_Content : option T }.
Arguments mkResponse {T}.
Arguments Reject {T}.
Arguments RejectReason {T}.
Arguments Unchange {T}.
Arguments rs_Content {T}.

Record UserInfo := mkUserInfo { ui_User : string; ui_Metas : gmap string string; ui_RunID : string }.
Record LoginContent := mkLoginContent { lc_Login : Msg.Login; lc_ClientAddress : string }.
Record NewProxyContent := mkNewProxyContent { npc_User : UserInfo; npc_NewProxy : Msg.NewProxy }.
Record CloseProxyContent := mkCloseProxyContent { cpc_User : UserInfo; cpc_ProxyName : string }.
Record PingContent := mkPingContent { pc_User : UserInfo; pc_Ping : Msg.Ping }.
Record NewWorkConnContent := mkNewWorkConnContent { nwc_User : UserInfo; nwc_NewWorkConn : Msg.NewWorkConn }.
Record NewUserConnContent := mkNewUserConnContent {
  nuc_User : UserInfo; nuc_ProxyName : string; nuc_ProxyType : string; nuc_RemoteAddr : string }.

(** JSON of requests, and of responses read over a content of zero values. *)
Class Content (T : Type) := {
  marshal : Request T → res string string;
  unmarshal : string → res string (Response T)
}.

(** ** The HTTP plugin *)

Record HTTPPluginOptions := mkPluginOptions {
  po_Name : string; po_Addr : string; po_Path : string; po_Ops : list string; po_TLSVerify : bool }.

Record httpPlugin := mkHTTPPlugin { options : HTTPPluginOptions; url : string; insecure : bool }.

Definition NewHTTPPluginOptions (o : HTTPPluginOptions) : httpPlugin :=
  let u := po_Addr o +:+ po_Path o in
  let tls := String.prefix "https://" u in
  mkHTTPPlugin o (if negb tls && negb (String.prefix "http://" u) then "http://" +:+ u else u) (tls && negb (po_TLSVerify o)).

Definition Name (p : httpPlugin) : string := po_Name (options p).
Definition IsSupport (p : httpPlugin) (op : string) : bool := bool_decide (op ∈ po_Ops (options p)).

(** How a chain of plugins ends badly: a plugin could not be asked, it refused,
    or it changed the content to nil, which panics. *)
Inductive failure := PluginError (text : string) | Rejected (reason : string) | Panicked.

Section Calls.
Context {W : Type}.
(** A POST: the status and the body of the answer. *)
Variable client_Do : bool → string → string → W → W * res string (Z * res string string).

Definition http_do {T} `{Content T} (p : httpPlugin) (r : Request T) (w : W) : W * res string (Response T) :=
  match marshal r with
  | Err e => (w, Err e)
  | Ok buf =>
      let values := "op=" +:+ rq_Op _ r +:+ "&version=" +:+ rq_Version _ r in
      match client_Do (insecure p) (url p +:+ "?" +:+ values) buf w with
      | (w, Err e) => (w, Err e)
      | (w, Ok (status, body)) =>
          (w, if negb (status =? 200) then Err ("do http request error code: " +:+ Itoa status)
              else let? buf := body in unmarshal buf)
      end
  end.

Definition Handle {T} `{Content T} (p : httpPlugin) (op : string) (content : T) (w : W) : W * res string (Response T) :=
  http_do p (mkRequest APIVersion op content) w.

(** ** The manager, manager.go *)

(** The loop of [handleMutableContent]. *)
Fixpoint handleMutableContent {T} `{Content T} (plugins : list httpPlugin) (op : string) (content : T) (w : W) :
    W * res failure T :=
  match plugins with
  | [] => (w, Ok content)
  | p :: plugins =>
      match Handle p op content w with
      | (w, Err _) => (w, Err (PluginError ("send " +:+ op +:+ " request to plugin error")))
      | (w, Ok r) =>
          if Reject r then (w, Err (Rejected (RejectReason r)))
          else if negb (Unchange r) then
            match rs_Content r with
            | None => (w, Err Panicked)
            | Some content => handleMutableContent plugins op content w
            end
          else handleMutableContent plugins op content w
      end
  end.

Record Manager := mkManager {
  loginPlugins : list httpPlugin; newProxyPlugins : list httpPlugin; closeProxyPlugins : list httpPlugin;
  pingPlugins : list httpPlugin; newWorkConnPlugins : list httpPlugin; newUserConnPlugins : list httpPlugin;
  localIPs : gmap string bool; selfPorts : gmap Z bool }.

Definition Login `{Content LoginContent} (m : Manager) (c : LoginContent) (w : W) : W * res failure LoginContent :=
  handleMutableContent (loginPlugins m) OpLogin c w.
Definition NewProxy `{Content NewProxyContent} (m : Manager) (c : NewProxyContent) (w : W) : W * res failure NewProxyContent :=
  handleMutableContent (newProxyPlugins m) OpNewProxy c w.
Definition Ping `{Content PingContent} (m : Manager) (c : PingContent) (w : W) : W * res failure PingContent :=
  handleMutableContent (pingPlugins m) OpPing c w.
Definition NewWorkConn `{Content NewWorkConnContent} (m : Manager) (c : NewWorkConnContent) (w : W) :
    W * res failure NewWorkConnContent :=
  handleMutableContent (newWorkConnPlugins m) OpNewWorkConn c w.
Definition NewUserConn `{Content NewUserConnContent} (m : Manager) (c : NewUserConnContent) (w : W) :
    W * res failure NewUserConnContent :=
  handleMutableContent (newUserConnPlugins m) OpNewUserConn c w.

(** The loop of [CloseProxy]: every plugin is told, and the errors collected. *)
Fixpoint close_loop `{Content CloseProxyContent} (plugins : list httpPlugin) (c : CloseProxyContent) (w : W) :
    W * list string :=
  match plugins with
  | [] => (w, [])
  | p :: plugins =>
      let '(w, r) := Handle p OpCloseProxy c w in
      let '(w, errs) := close_loop plugins c w in
      (w, match r with Err e => ("[" +:+ Name p +:+ "]: " +:+ e) :: errs | Ok _ => errs end)
  end.

Definition CloseProxy `{Content CloseProxyContent} (m : Manager) (c : CloseProxyContent) (w : W) : W * res string unit :=
  let '(w, errs) := close_loop (closeProxyPlugins m) c w in
  (w, if bool_decide (errs = []) then Ok tt
      else Err ("send CloseProxy request to plugin errors: " +:+ Join errs "; ")).
End Calls.

Definition HasNewUserConnPlugins (m : Manager) : bool := negb (bool_decide (newUserConnPlugins m = [])).

Definition IsLocalAddr (remoteAddr : string) (local : gmap string bool) : bool :=
  let host := match SplitHostPort remoteAddr with Ok (h, _) => h | Err _ => remoteAddr end in
  default false (local !! host).

Definition IsSelfCall (m : Manager) (remoteAddr : string) (port : Z) : bool :=
  default false (selfPorts m !! port) && IsLocalAddr remoteAddr (localIPs m).

Section Registration.
(** See [Firewall]: the interfaces' addresses, [url.Parse] and [net.LookupHost]. *)
Variable InterfaceAddrs : option (list string).
Variable url_Parse : string → option (string * string * string).
Variable LookupHost : string → option (list string).

Definition NewManager : Manager := mkManager [] [] [] [] [] [] (Firewall.LocalAddrSet InterfaceAddrs) ∅.

Definition add (p : httpPlugin) (op : string) (l : list httpPlugin) : list httpPlugin :=
  if IsSupport p op then l ++ [p] else l.

Definition Register (m : Manager) (p : httpPlugin) : Manager :=
  let port := Firewall.PortIfLocal url_Parse LookupHost (url p) (localIPs m) in
  mkManager (add p OpLogin (loginPlugins m)) (add p OpNewProxy (newProxyPlugins m))
    (add p OpCloseProxy (closeProxyPlugins m)) (add p OpPing (pingPlugins m))
    (add p OpNewWorkConn (newWorkConnPlugins m)) (add p OpNewUserConn (newUserConnPlugins m))
    (localIPs m) (if negb (port =? 0) then <[port := true]> (selfPorts m) else selfPorts m).
End Registration.

(** ** The chain *)

Section Chain.
Context {W : Type} (client_Do : bool → string → string → W → W * res string (Z * res string string)).
Context {T : Type} `{Content T} (op : string).

(** A plugin lets a content through, as it is or changed; or it ends the chain. *)
Definition accepts (p : httpPlugin) (c : T) (w : W) (c' : T) (w' : W) : Prop :=
  ∃ r, Handle client_Do p op c w = (w', Ok r) ∧ Reject r = false ∧
       if Unchange r then c' = c else rs_Content r = Some c'.

Definition stops (p : httpPlugin) (c : T) (w : W) (f : failure) (w' : W) : Prop :=
  match f with
  | PluginError text => text = "send " +:+ op +:+ " request to plugin error" ∧ ∃ e, Handle client_Do p op c w = (w', Err e)
  | Rejected reason => ∃ r, Handle client_Do p op c w = (w', Ok r) ∧ Reject r = true ∧ RejectReason r = reason
  | Panicked => ∃ r, Handle client_Do p op c w = (w', Ok r) ∧ Reject r = false ∧ Unchange r = false ∧ rs_Content r = None
  end.

Inductive passes : list httpPlugin → T → W → T → W → Prop :=
| passes_nil c w : passes [] c w c w
| passes_cons p ps c w c1 w1 c2 w2 : accepts p c w c1 w1 → passes ps c1 w1 c2 w2 → passes (p :: ps) c w c2 w2.

(** A step of the chain, forth and back. *)
Lemma chain_accepts p ps c w c1 w1 :
  accepts p c w c1 w1 →
  handleMutableContent client_Do (p :: ps) op c w = handleMutableContent client_Do ps op c1 w1.
Proof.
  intros (r & Hh & Hr & Hc). cbn. rewrite Hh, Hr. destruct (Unchange r); cbn; [by rewrite Hc|]. by rewrite Hc.
Qed.

Lemma chain_stops p ps c w f w1 :
  stops p c w f w1 → handleMutableContent client_Do (p :: ps) op c w = (w1, Err f).
Proof.
  destruct f as [text|reason|]; cbn.
  - intros (-> & e & ->). done.
  - intros (r & -> & -> & ->). done.
  - intros (r & -> & -> & -> & ->). done.
Qed.

Lemma chain_step p c w :
  (∃ c1 w1, accepts p c w c1 w1) ∨ (∃ f w1, stops p c w f w1).
Proof.
  destruct (Handle client_Do p op c w) as [w1 [r|e]] eqn:Hh.
  - destruct (Reject r) eqn:Hr; [right; exists (Rejected (RejectReason r)), w1, r; done|].
    destruct (Unchange r) eqn:Hu; [left; exists c, w1, r; by rewrite Hu|].
    destruct (rs_Content r) as [c'|] eqn:Hc; [left; exists c', w1, r; by rewrite Hu|].
    right. exists Panicked, w1, r. done.
  - right. eexists (PluginError _), w1. split; [done|by exists e].
Qed.

Lemma chain_passes ps ps2 c w c1 w1 :
  passes ps c w c1 w1 →
  handleMutableContent client_Do (ps ++ ps2) op c w = handleMutableContent client_Do ps2 op c1 w1.
Proof.
  induction 1 as [|p ps c w c1 w1 c2 w2 Ha _ IH]; [done|]. cbn [app]. by rewrite (chain_accepts _ _ _ _ _ _ Ha).
Qed.

Lemma chain_cases ps c w :
  (∃ c1 w1, passes ps c w c1 w1) ∨
  (∃ ps1 p ps2 c1 w1 f w2, ps = ps1 ++ p :: ps2 ∧ passes ps1 c w c1 w1 ∧ stops p c1 w1 f w2).
Proof.
  revert c w. induction ps as [|p ps IH]; intros c w; [left; eauto using passes_nil|].
  destruct (chain_step p c w) as [(c1 & w1 & Ha)|(f & w1 & Hs)].
  - destruct (IH c1 w1) as [(c2 & w2 & Hp)|(ps1 & q & ps2 & c2 & w2 & f & w3 & -> & Hp & Hs)].
    + left. eauto using passes_cons.
    + right. exists (p :: ps1), q, ps2, c2, w2, f, w3. split_and!; eauto using passes_cons.
  - right. exists [], p, ps, c, w, f, w1. split_and!; eauto using passes_nil.
Qed.

Lemma chain_stopped ps1 p ps2 c w c1 w1 f w2 :
  passes ps1 c w c1 w1 → stops p c1 w1 f w2 →
  handleMutableContent client_Do (ps1 ++ p :: ps2) op c w = (w2, Err f).
Proof. intros Hp Hs. rewrite (chain_passes _ _ _ _ _ _ Hp). by apply chain_stops. Qed.

Lemma chain_passes_iff ps c w c1 w1 :
  handleMutableContent client_Do ps op c w = (w1, Ok c1) ↔ passes ps c w c1 w1.
Proof.
  assert (∀ c1 w1, passes ps c w c1 w1 → handleMutableContent client_Do ps op c w = (w1, Ok c1)) as Hpass.
  { intros c2 w2 Hp. rewrite <-(app_nil_r ps). by rewrite (chain_passes _ _ _ _ _ _ Hp). }
  split; [|apply Hpass]. intros Hok.
  destruct (chain_cases ps c w) as [(c2 & w2 & Hp)|(ps1 & p & ps2 & c2 & w2 & f & w3 & -> & Hp & Hs)].
  - pose proof (Hpass _ _ Hp). congruence.
  - rewrite (chain_stopped _ _ _ _ _ _ _ _ _ Hp Hs) in Hok. done.
Qed.

(** The plugins of an operation are asked in their order, each about the
    content as the ones before left it. The operation goes on exactly when all
    of them let it through, with the last content; it fails exactly when one of
    them, after the others before it, cannot be asked or refuses, or changes the
    content to nil, and none after that one is asked. *)
Theorem plugins_chain ps c w w' :
  (∀ c', handleMutableContent client_Do ps op c w = (w', Ok c') ↔ passes ps c w c' w') ∧
  (∀ f, handleMutableContent client_Do ps op c w = (w', Err f) ↔
     ∃ ps1 p ps2 c1 w1, ps = ps1 ++ p :: ps2 ∧ passes ps1 c w c1 w1 ∧ stops p c1 w1 f w').
Proof.
  split; [intros c'; apply chain_passes_iff|]. intros f. split.
  - intros Herr. destruct (chain_cases ps c w) as [(c1 & w1 & Hp)|(ps1 & p & ps2 & c1 & w1 & f' & w2 & -> & Hp & Hs)].
    + apply chain_passes_iff in Hp. congruence.
    + rewrite (chain_stopped _ _ _ _ _ _ _ _ _ Hp Hs) in Herr. exists ps1, p, ps2, c1, w1. split_and!; congruence.
  - intros (ps1 & p & ps2 & c1 & w1 & -> & Hp & Hs). by eapply chain_stopped.
Qed.
End Chain.

(** ** Registration *)

Section Registered.
Context (InterfaceAddrs : option (list string)) (url_Parse : string → option (string * string * string)).
Context (LookupHost : string → option (list string)).

Definition registered (ps : list httpPlugin) : Manager :=
  foldl (Register url_Parse LookupHost) (NewManager InterfaceAddrs) ps.

Definition local_port (p : httpPlugin) : Z :=
  Firewall.PortIfLocal url_Parse LookupHost (url p) (Firewall.LocalAddrSet InterfaceAddrs).

Lemma add_filter p op ps : add p op (filter (λ q, IsSupport q op = true) ps) = filter (λ q, IsSupport q op = true) (ps ++ [p]).
Proof.
  unfold add. rewrite filter_app, filter_cons. destruct (IsSupport p op) eqn:Hs; cbn.
  - by rewrite decide_True.
  - by rewrite decide_False, app_nil_r by congruence.
Qed.

(** The manager asks, for each operation, exactly the registered plugins
    that support it, in the order of their registration. A connection from this
    host to a port on which one of the plugins is reached, and no other, is
    taken for the server's own call. *)
Theorem plugins_registered ps :
  let m := registered ps in
  let asked op := filter (λ q, IsSupport q op = true) ps in
  loginPlugins m = asked OpLogin ∧ newProxyPlugins m = asked OpNewProxy ∧ closeProxyPlugins m = asked OpCloseProxy ∧
  pingPlugins m = asked OpPing ∧ newWorkConnPlugins m = asked OpNewWorkConn ∧ newUserConnPlugins m = asked OpNewUserConn ∧
  ∀ remoteAddr port, IsSelfCall m remoteAddr port = true ↔
    IsLocalAddr remoteAddr (Firewall.LocalAddrSet InterfaceAddrs) = true ∧
    ∃ p, p ∈ ps ∧ local_port p = port ∧ port ≠ 0.
Proof.
  induction ps as [|p ps IH] using rev_ind; cbn zeta.
  { split_and!; try done. intros remoteAddr port. unfold IsSelfCall. cbn. rewrite lookup_empty. cbn.
    split; [done|]. intros (_ & p & Hp & _). by apply not_elem_of_nil in Hp. }
  unfold registered. rewrite foldl_app. cbn [foldl]. fold (registered ps).
  destruct IH as (H1 & H2 & H3 & H4 & H5 & H6 & Hself). unfold Register. cbn.
  rewrite H1, H2, H3, H4, H5, H6, !add_filter. split_and!; try done.
  assert (localIPs (registered ps) = Firewall.LocalAddrSet InterfaceAddrs) as Hlocal.
  { clear. unfold registered. induction ps as [|p ps IH] using rev_ind; [done|]. by rewrite foldl_app. }
  intros remoteAddr port. specialize (Hself remoteAddr port). unfold IsSelfCall in *. cbn. rewrite Hlocal in *.
  fold (local_port p). setoid_rewrite elem_of_app. setoid_rewrite list_elem_of_singleton.
  rewrite andb_true_iff in *. destruct (Z.eqb_spec (local_port p) 0) as [Hz|Hz]; cbn.
  - rewrite Hself. naive_solver.
  - destruct (decide (port = local_port p)) as [->|Hne].
    + rewrite lookup_insert_eq. cbn. naive_solver.
    + rewrite lookup_insert_ne by done. rewrite Hself. naive_solver.
Qed.
End Registered.

End ServerPlugins.
