(* ===== verification/UserConns.v ===== *)
(** Connections of users on the server, server/proxy/proxy.go and peer.go: their
    admission by the firewall and the plugins, directly or through the cached
    filters of the udp and http proxies, the choice of a work connection, the
    count of peers, and the bridge between two wire protocols.

    A work connection is a number. *)
From Stdlib Require Import ZArith Lia Ascii String.
From stdpp Require Import base gmap strings list fin_maps fin_sets relations.
From S2P Require Import Prelude GoLib Wire Msg Firewall ServerPlugins.

Local Open Scope Z_scope.
Local Open Scope frp_scope.

Module UserConns.
Import ServerPlugins.

(** ** Admission *)

(** What the checks read and change: the firewall and the plugin manager, where
    they are configured, and the world. *)
Record Env (W : Type) := mkEnv { env_Firewall : option Firewall.Firewall; env_PluginManager : option Manager; env_world : W }.
Arguments mkEnv {W}.
Arguments env_Firewall {W}.
Arguments env_PluginManager {W}.
Arguments env_world {W}.

(** What the checks know of the proxy. *)
Record Base := mkBase { b_name : string; b_type : string; b_user : UserInfo; b_poolCount : Z; b_wireProtocol : string }.

Inductive verdict := LetIn | RejectedByFirewall (reason : string) | RejectedByPlugin | PluginPanicked.

Section Admission.
Variable queryProvider : string → Firewall.ProviderConfig → option (bool * string).
Context {W : Type}.
Variable client_Do : bool → string → string → W → W * res string (Z * res string string).
Context `{Content NewUserConnContent}.

(** [fw.Allow] where there is a firewall. *)
Definition firewall_check (now : Z) (e : Env W) (remoteAddr : string) (port : Z) : Env W * (bool * string) :=
  match env_Firewall e with
  | None => (e, (true, ""))
  | Some fw =>
      let '(fw, ans) := Firewall.Allow queryProvider now fw remoteAddr port in
      (mkEnv (Some fw) (env_PluginManager e) (env_world e), ans)
  end.

(** The hook of the plugins, unless it is the server's own call. *)
Definition plugin_check (pm : Manager) (pxy : Base) (e : Env W) (remoteAddr : string) (port : Z) : Env W * verdict :=
  if IsSelfCall pm remoteAddr port then (e, LetIn)
  else
    let content := mkNewUserConnContent (b_user pxy) (b_name pxy) (b_type pxy) remoteAddr in
    let '(w, r) := NewUserConn client_Do pm content (env_world e) in
    (mkEnv (env_Firewall e) (env_PluginManager e) w,
     match r with Ok _ => LetIn | Err Panicked => PluginPanicked | Err _ => RejectedByPlugin end).

(** The function [check] of [newAdmitFilter]; whether plugins are asked was
    decided when the filter was made. *)
Definition check (hookPlugins : bool) (now : Z) (pxy : Base) (e : Env W) (remoteAddr : string) (port : Z) : Env W * verdict :=
  let '(e, (ok, reason)) := firewall_check now e remoteAddr port in
  if negb ok then (e, RejectedByFirewall reason)
  else match env_PluginManager e with
       | Some pm => if hookPlugins then plugin_check pm pxy e remoteAddr port else (e, LetIn)
       | None => (e, LetIn)
       end.

(** *** The cached filter *)

Definition admitVerdictTTL : Z := 2 * 10 ^ 9.
Definition admitVerdictMax : Z := 4096.

Record AdmitFilter := mkAdmitFilter {
  af_port : Z; af_ttl : Z; af_hook : bool; af_cache : gmap string (bool * Z) }.

Definition hooks (e : Env W) : bool :=
  match env_PluginManager e with Some pm => HasNewUserConnPlugins pm | None => false end.

(** [None] is the nil function: nothing is checked. *)
Definition newAdmitFilter (e : Env W) (port ttl : Z) : option AdmitFilter :=
  if bool_decide (env_Firewall e = None) && negb (hooks e) then None
  else Some (mkAdmitFilter port ttl (hooks e) ∅).

Definition newUDPAdmitFilter (e : Env W) (port : Z) : option AdmitFilter := newAdmitFilter e port admitVerdictTTL.
Definition newHTTPAdmitFilter (e : Env W) (port : Z) : option AdmitFilter :=
  newAdmitFilter e port (if hooks e then admitVerdictTTL else 0).

Definition admitted (v : verdict) : bool := match v with LetIn => true | _ => false end.

(** A call of the filter looks the source up under the lock, and stores the
    verdict of a check under the lock again: other calls come in between. *)
Definition admit_hit (now : Z) (f : AdmitFilter) (remoteAddr : string) : option bool :=
  match af_cache f !! remoteAddr with
  | Some (ok, exp) => if now <? exp then Some ok else None
  | None => None
  end.

Definition admit_store (now : Z) (f : AdmitFilter) (remoteAddr : string) (ok : bool) : AdmitFilter :=
  let cache := if admitVerdictMax <=? Z.of_nat (size (af_cache f)) then ∅ else af_cache f in
  mkAdmitFilter (af_port f) (af_ttl f) (af_hook f) (<[remoteAddr := (ok, now + af_ttl f)]> cache).

(** A whole call; [now'] is the time of the firewall's decision. [None] is a
    panic on a plugin's answer. *)
Definition admit_packet (pxy : Base) (now now' : Z) (e : Env W) (f : AdmitFilter) (remoteAddr : string) :
    Env W * AdmitFilter * option bool :=
  match (if af_ttl f <=? 0 then None else admit_hit now f remoteAddr) with
  | Some ok => (e, f, Some ok)
  | None =>
      let '(e, v) := check (af_hook f) now' pxy e remoteAddr (af_port f) in
      match v with
      | PluginPanicked => (e, f, None)
      | _ =>
          (e, if af_ttl f <=? 0 then f else admit_store now f remoteAddr (admitted v), Some (admitted v))
      end
  end.

End Admission.

(** ** Work connections *)

(** [strconv.ParseUint] with base 10 and 16 bits, the error dropped. *)
Fixpoint parse_uint16 (n : Z) (s : string) : Z :=
  match s with
  | EmptyString => n
  | String c s =>
      if between 48 (nat_of_ascii c) 57 then
        let n := 10 * n + Z.of_nat (nat_of_ascii c - 48) in
        if 65535 <? n then 65535 else parse_uint16 n s
      else 0
  end.

(** [net.SplitHostPort] and [ParseUint] of an address, nil or in text. *)
Definition addr_parts (a : option string) : string * Z :=
  match a with
  | None => ("", 0)
  | Some a => match SplitHostPort a with Ok (h, p) => (h, parse_uint16 0 p) | Err _ => ("", 0) end
  end.

Definition startWorkConn (pxy : Base) (src dst : option string) (protocol : string) : Msg.StartWorkConn :=
  let '(srcAddr, srcPort) := addr_parts src in
  let '(dstAddr, dstPort) := addr_parts dst in
  Msg.mkStartWorkConn (b_name pxy) srcAddr dstAddr srcPort dstPort "" protocol.

Section WorkConn.
Context {E : Type}.
(** The outcome of the [i]-th call of [getWorkConnFn], and of sending the
    message on a connection. *)
Variable getWorkConn : nat → res E nat.
Variable Start : nat → Msg.StartWorkConn → res E unit.

(** The loop, with the rounds left: the connections it closed, and its result;
    [Ok None] is a nil connection with a nil error. *)
Fixpoint work_conn_loop (m : Msg.StartWorkConn) (rounds i : nat) (last : option E) : list nat * res E (option nat) :=
  match rounds with
  | O => ([], match last with Some e => Err e | None => Ok None end)
  | S rounds =>
      match getWorkConn i with
      | Err e => ([], Err e)
      | Ok c =>
          match Start c m with
          | Ok _ => ([], Ok (Some c))
          | Err e => let '(closed, r) := work_conn_loop m rounds (S i) (Some e) in (c :: closed, r)
          end
      end
  end.

Definition GetWorkConnFromPoolWithProtocol (pxy : Base) (src dst : option string) (protocol : string) :
    list nat * res E (option nat) :=
  work_conn_loop (startWorkConn pxy src dst protocol) (Z.to_nat (b_poolCount pxy + 1)) 0 None.
End WorkConn.

(** ** A user's TCP connection *)

Inductive outcome (E : Type) :=
| Dropped (v : verdict)         (* the firewall or the plugins refuse *)
| NoWorkConn (e : E)
| Joined (c : nat)              (* the connections are joined *)
| CrashedPlugin                 (* a panic, in no recover *)
| CrashedNil.
Arguments Dropped {E}.
Arguments NoWorkConn {E}.
Arguments Joined {E}.
Arguments CrashedPlugin {E}.
Arguments CrashedNil {E}.

Section UserConn.
Variable queryProvider : string → Firewall.ProviderConfig → option (bool * string).
Context {W E : Type}.
Variable client_Do : bool → string → string → W → W * res string (Z * res string string).
Context `{Content NewUserConnContent}.
Variable getWorkConn : nat → res E nat.
Variable Start : nat → Msg.StartWorkConn → res E unit.

(** [handleUserTCPConnection] up to the joining; a plugin manager is always
    there. The streams for encryption, compression and rate limits are left
    out. *)
Definition handleUserTCPConnection (now : Z) (pxy : Base) (e : Env W) (pm : Manager) (remoteAddr localAddr : string)
    (dstPort : Z) : Env W * list nat * outcome E :=
  let '(e, (ok, reason)) := firewall_check queryProvider now e remoteAddr dstPort in
  if negb ok then (e, [], Dropped (RejectedByFirewall reason))
  else
    match plugin_check client_Do pm pxy e remoteAddr dstPort with
    | (e, LetIn) =>
        let '(closed, r) := GetWorkConnFromPoolWithProtocol getWorkConn Start pxy (Some remoteAddr) (Some localAddr) "" in
        (e, closed, match r with Err err => NoWorkConn err | Ok (Some c) => Joined c | Ok None => CrashedNil end)
    | (e, PluginPanicked) => (e, [], CrashedPlugin)
    | (e, v) => (e, [], Dropped v)
    end.
End UserConn.

(** ** Peers *)

Definition peerIP (remoteAddr : string) : string :=
  match SplitHostPort remoteAddr with Ok (host, _) => host | Err _ => remoteAddr end.

(** [acquire] and [release] up to the unlock; whether the counter is to move. *)
Definition acquire (refs : gmap string Z) (remoteAddr : string) : gmap string Z * bool :=
  let ip := peerIP remoteAddr in
  let n := default 0 (refs !! ip) + 1 in
  (<[ip := n]> refs, n =? 1).

Definition release (refs : gmap string Z) (remoteAddr : string) : gmap string Z * bool :=
  let ip := peerIP remoteAddr in
  match refs !! ip with
  | None => (refs, false)
  | Some n =>
      let n := n - 1 in
      if n <=? 0 then (delete ip refs, true) else (<[ip := n]> refs, false)
  end.

(** The counter of the proxy: closing does not go below zero. *)
Definition onOpen (count : Z) : Z := count + 1.
Definition onClose (count : Z) : Z := if 0 <? count then count - 1 else count.

(** A user connection of a proxy with a tracker: inside [acquire], after its
    lock; open; inside [release], after its lock. *)
Inductive peer_pc := Opening (first : bool) | Open | Closing (last : bool).

#[global] Instance peer_pc_eq_dec : EqDecision peer_pc.
Proof. solve_decision. Defined.

Record Tracker := mkTracker { refs : gmap string Z; count : Z; conns : gmap nat (string * peer_pc) }.

Definition newPeerTracker : Tracker := mkTracker ∅ 0 ∅.

Inductive peer_step : Tracker → Tracker → Prop :=
| peer_acquire t u a :
    conns t !! u = None →
    peer_step t (let '(r, first) := acquire (refs t) a in mkTracker r (count t) (<[u := (a, Opening first)]> (conns t)))
| peer_opened t u a first :
    conns t !! u = Some (a, Opening first) →
    peer_step t (mkTracker (refs t) (if first then onOpen (count t) else count t) (<[u := (a, Open)]> (conns t)))
| peer_release t u a :
    conns t !! u = Some (a, Open) →
    peer_step t (let '(r, last) := release (refs t) a in mkTracker r (count t) (<[u := (a, Closing last)]> (conns t)))
| peer_closed t u a last :
    conns t !! u = Some (a, Closing last) →
    peer_step t (mkTracker (refs t) (if last then onClose (count t) else count t) (delete u (conns t))).

(** ** The bridge between wire protocols *)

Definition normalizeWireProtocol (p : string) : string := if String.eqb p "v2" then "v2" else "v1".
Definition isMixedWireProtocol (l r : string) : bool := negb (String.eqb (normalizeWireProtocol l) (normalizeWireProtocol r)).

Inductive bridge_end := EndOfStream | WriteFailed | Unexpected.

(** One direction, over the messages that arrive: what is written, the bytes
    counted, and how it ends. [pings] is whether heartbeats are passed on, as
    from the proxy to the visitor; [write] is whether a message can be written. *)
Fixpoint bridgeSUDP (pings : bool) (write : Msg.Message → bool) (count : Z) (arriving : list Msg.Message) :
    list Msg.Message * Z * bridge_end :=
  match arriving with
  | [] => ([], count, EndOfStream)
  | m :: arriving =>
      match m with
      | Msg.MUDPPacket p =>
          if write m then
            let '(out, n, e) := bridgeSUDP pings write (count + Z.of_nat (length (Msg.udp_Content p))) arriving in
            (m :: out, n, e)
          else ([], count, WriteFailed)
      | Msg.MPing _ =>
          if pings then
            if write m then let '(out, n, e) := bridgeSUDP pings write count arriving in (m :: out, n, e)
            else ([], count, WriteFailed)
          else bridgeSUDP pings write count arriving
      | _ => ([], count, Unexpected)
      end
  end.

Definition bridgeSUDPProxyToVisitor := bridgeSUDP true.
Definition bridgeSUDPVisitorToProxy := bridgeSUDP false.

(** ** Theorems: admission *)

(** Calls that were answered by a check, in any interleaving: when the call
    began, its source and the verdict. *)
Inductive filter_step : AdmitFilter * list (Z * string * bool) → AdmitFilter * list (Z * string * bool) → Prop :=
| step_check f hist now remoteAddr ok :
    filter_step (f, hist) (admit_store now f remoteAddr ok, hist ++ [(now, remoteAddr, ok)]).

Definition filter_inv (s : AdmitFilter * list (Z * string * bool)) : Prop :=
  Z.of_nat (size (af_cache s.1)) ≤ admitVerdictMax ∧
  ∀ a ok exp, af_cache s.1 !! a = Some (ok, exp) → ∃ t, (t, a, ok) ∈ s.2 ∧ exp = t + af_ttl s.1.

Lemma filter_inv_step s s' : filter_inv s → filter_step s s' → filter_inv s' ∧ af_ttl s'.1 = af_ttl s.1.
Proof.
  intros [Hsize Hc] Hs. destruct Hs as [f hist now a ok]. cbn in *. split; [|done]. split; cbn.
  - destruct (Z.leb_spec admitVerdictMax (Z.of_nat (size (af_cache f)))) as [Hle|Hlt].
    + rewrite map_size_insert_None by apply lookup_empty. rewrite map_size_empty. unfold admitVerdictMax. lia.
    + rewrite map_size_insert. destruct (af_cache f !! a); unfold id; lia.
  - intros a' ok' exp. rewrite lookup_insert_Some. intros [[<- [= <- <-]]|[Hne Hl]].
    + exists now. split; [|done]. apply elem_of_app. right. by apply list_elem_of_singleton.
    + destruct (admitVerdictMax <=? Z.of_nat (size (af_cache f))); [by rewrite lookup_empty in Hl|].
      apply Hc in Hl as (t & Ht & ->). exists t. split; [|done]. apply elem_of_app. by left.
Qed.

(** The admission filters of udp and http proxies answer from their cache
    only what a check of the same source said that began less than the time to
    live before, however calls interleave, and they never remember more than
    4096 sources. *)
Theorem admit_filter_sound port ttl hook f hist :
  rtc filter_step (mkAdmitFilter port ttl hook ∅, []) (f, hist) →
  Z.of_nat (size (af_cache f)) ≤ admitVerdictMax ∧
  ∀ now a ok, admit_hit now f a = Some ok → ∃ t, (t, a, ok) ∈ hist ∧ now < t + ttl.
Proof.
  intros Hr. assert (∀ s, rtc filter_step (mkAdmitFilter port ttl hook ∅, []) s → filter_inv s ∧ af_ttl s.1 = ttl) as Hinv.
  { apply rtc_ind_r; [split; [|done]; split; cbn; [unfold admitVerdictMax; rewrite map_size_empty; lia|]|].
    - intros a ok exp. by rewrite lookup_empty.
    - intros s s' _ Hs [Hi Ht]. destruct (filter_inv_step _ _ Hi Hs) as [? ->]. done. }
  apply Hinv in Hr as [[Hsize Hc] Httl]. cbn in *. split; [done|]. intros now a ok. unfold admit_hit.
  destruct (af_cache f !! a) as [[ok' exp]|] eqn:Ha; [|done]. destruct (Z.ltb_spec now exp) as [Hlt|]; [|done].
  intros [= <-]. apply Hc in Ha as (t & Ht & ->). exists t. split; [done|]. lia.
Qed.

Section FirewallChecked.
Context (queryProvider : string → Firewall.ProviderConfig → option (bool * string)) {W : Type}.

(** The firewall, where there is one, lets the source in. *)
Definition firewall_lets (now : Z) (e : Env W) (remoteAddr : string) (port : Z) : Prop :=
  ∀ fw, env_Firewall e = Some fw → (Firewall.Allow queryProvider now fw remoteAddr port).2.1 = true.

Lemma firewall_check_spec now e remoteAddr port :
  let '(e', (ok, _)) := firewall_check queryProvider now e remoteAddr port in
  (ok = true ↔ firewall_lets now e remoteAddr port) ∧
  env_PluginManager e' = env_PluginManager e ∧ env_world e' = env_world e.
Proof.
  unfold firewall_check, firewall_lets. destruct (env_Firewall e) as [fw|]; [|by split; [split|]].
  destruct (Firewall.Allow queryProvider now fw remoteAddr port) as [fw' [ok reason]] eqn:Ha. cbn.
  split; [|done]. split; [intros -> ? [= <-]; by rewrite Ha|]. intros Hf. specialize (Hf fw eq_refl). by rewrite Ha in Hf.
Qed.

End FirewallChecked.

Section PluginsChecked.
Context {W : Type} (client_Do : bool → string → string → W → W * res string (Z * res string string)) `{Content NewUserConnContent}.

(** All the plugins let it in, or it is the server's own call. *)
Definition plugins_let (pm : Manager) (pxy : Base) (e : Env W) (remoteAddr : string) (port : Z) : Prop :=
  IsSelfCall pm remoteAddr port = true ∨
  ∃ c w, passes client_Do OpNewUserConn (newUserConnPlugins pm)
           (mkNewUserConnContent (b_user pxy) (b_name pxy) (b_type pxy) remoteAddr) (env_world e) c w.

Lemma plugin_check_spec pm pxy e remoteAddr port :
  (plugin_check client_Do pm pxy e remoteAddr port).2 = LetIn ↔ plugins_let pm pxy e remoteAddr port.
Proof.
  unfold plugin_check, plugins_let. destruct (IsSelfCall pm remoteAddr port); [cbn; naive_solver|].
  unfold NewUserConn. set (c := mkNewUserConnContent _ _ _ _).
  destruct (handleMutableContent client_Do (newUserConnPlugins pm) OpNewUserConn c (env_world e)) as [w [c'|f]] eqn:Hh; cbn.
  - split; [|done]. intros _. right. exists c', w. by apply chain_passes_iff.
  - split; [by destruct f|]. intros [?|(c' & w' & Hp)]; [done|]. apply chain_passes_iff in Hp. congruence.
Qed.
End PluginsChecked.

(** C15. A user's connection gets as far as asking for a work connection only
    when the firewall, where there is one, allows its source on the port, and
    then every plugin of the hook lets it through or it is the server's own call
    to one of its plugins. *)
Theorem user_conn_checked queryProvider {W E} client_Do `{Content NewUserConnContent}
    (getWorkConn : nat → res E nat) Start now pxy (e : Env W) pm remoteAddr localAddr port :
  let o := (handleUserTCPConnection queryProvider client_Do getWorkConn Start now pxy e pm remoteAddr localAddr port).2 in
  (∃ c, o = Joined c) ∨ (∃ err, o = NoWorkConn err) ∨ o = CrashedNil ↔
  firewall_lets queryProvider now e remoteAddr port ∧ plugins_let client_Do pm pxy e remoteAddr port.
Proof.
  cbn zeta. unfold handleUserTCPConnection. pose proof (firewall_check_spec queryProvider now e remoteAddr port) as Hf.
  destruct (firewall_check queryProvider now e remoteAddr port) as [e' [ok reason]]. destruct Hf as (Hf & Hpm & Hw).
  rewrite <-Hf. destruct ok; cbn; [|naive_solver].
  assert (plugins_let client_Do pm pxy e remoteAddr port ↔ plugins_let client_Do pm pxy e' remoteAddr port) as ->
    by (unfold plugins_let; by rewrite Hw).
  rewrite <-(plugin_check_spec client_Do pm pxy e').
  destruct (plugin_check client_Do pm pxy e' remoteAddr port) as [e'' v]. cbn.
  destruct v as [|reason'| |]; cbn; [|split; [intros [[? ?]|[[? ?]|?]]; done|by intros [_ ?]]..].
  destruct (GetWorkConnFromPoolWithProtocol getWorkConn Start pxy _ _ _) as [closed [[c|]|err]]; cbn; naive_solver.
Qed.

(** ** Theorems: work connections *)

Section Chosen.
Context {E : Type} (getWorkConn : nat → res E nat) (Start : nat → Msg.StartWorkConn → res E unit) (m : Msg.StartWorkConn).

(** The connections of the rounds [i], [i+1], ... that were got and could not
    be used. *)
Inductive failing : nat → list nat → Prop :=
| failing_nil i : failing i []
| failing_cons i c cs err : getWorkConn i = Ok c → Start c m = Err err → failing (S i) cs → failing i (c :: cs).

Lemma work_conn_loop_spec rounds i last :
  let '(closed, r) := work_conn_loop getWorkConn Start m rounds i last in
  failing i closed ∧ (length closed ≤ rounds)%nat ∧
  match r with
  | Ok (Some c) => (length closed < rounds)%nat ∧ getWorkConn (i + length closed) = Ok c ∧ Start c m = Ok tt
  | Ok None => closed = [] ∧ last = None ∧ rounds = 0%nat
  | Err err => (length closed < rounds)%nat ∧ getWorkConn (i + length closed) = Err err ∨ length closed = rounds
  end.
Proof.
  revert i last. induction rounds as [|rounds IH]; intros i last; cbn.
  { split_and!; [constructor|lia|]. destruct last; [by right|done]. }
  destruct (getWorkConn i) as [c|err] eqn:Hg; [|split_and!; [constructor|cbn; lia|left; rewrite Nat.add_0_r; split; [cbn; lia|done]]].
  destruct (Start c m) as [[]|err] eqn:Hs.
  { split_and!; [constructor|cbn; lia|cbn; lia|by rewrite Nat.add_0_r|done]. }
  specialize (IH (S i) (Some err)). destruct (work_conn_loop _ _ _ rounds (S i) (Some err)) as [closed r].
  destruct IH as (Hf & Hl & Hr). split_and!; [by econstructor|cbn; lia|].
  destruct r as [[c'|]|err']; cbn [length]; rewrite ?Nat.add_succ_r.
  - destruct Hr as (? & ? & ?). split_and!; [lia|done..].
  - by destruct Hr as (_ & ? & _).
  - destruct Hr as [[? ?]|?]; [left; split; [lia|done]|right; lia].
Qed.
End Chosen.

(** For a pool count that is not negative, a user's connection gets the
    first work connection, among pool count plus one at most, on which the start
    message can be sent; each one before it is closed, and none after it is
    asked for. It is never nil. *)
Theorem work_conn_chosen {E} (getWorkConn : nat → res E nat) Start pxy src dst protocol :
  0 ≤ b_poolCount pxy →
  let '(closed, r) := GetWorkConnFromPoolWithProtocol getWorkConn Start pxy src dst protocol in
  let m := startWorkConn pxy src dst protocol in
  failing getWorkConn Start m 0 closed ∧ Z.of_nat (length closed) ≤ b_poolCount pxy + 1 ∧ r ≠ Ok None ∧
  (∀ c, r = Ok (Some c) → Z.of_nat (length closed) ≤ b_poolCount pxy ∧ getWorkConn (length closed) = Ok c ∧ Start c m = Ok tt) ∧
  (∀ err, r = Err err → getWorkConn (length closed) = Err err ∨ Z.of_nat (length closed) = b_poolCount pxy + 1).
Proof.
  intros Hp. unfold GetWorkConnFromPoolWithProtocol.
  pose proof (work_conn_loop_spec getWorkConn Start (startWorkConn pxy src dst protocol) (Z.to_nat (b_poolCount pxy + 1)) 0 None) as Hl.
  destruct (work_conn_loop _ _ _ _ _ _) as [closed r]. destruct Hl as (Hf & Hl & Hr). cbn zeta.
  split_and!; [done|lia| | |].
  - intros ->. destruct Hr as (_ & _ & ?). lia.
  - intros c ->. destruct Hr as (? & ? & ?). split_and!; [lia|done..].
  - intros err ->. destruct Hr as [[_ ?]|?]; [by left|right; lia].
Qed.

(** C40. A client that announces a pool count between -10 and -2 makes the server
    crash with the first user connection that is let in: no work connection is
    asked for, and the nil one is used. *)
Theorem negative_pool_crashes queryProvider {W E} client_Do `{Content NewUserConnContent}
    (getWorkConn : nat → res E nat) Start now pxy (e : Env W) pm remoteAddr localAddr port :
  b_poolCount pxy ≤ -2 → firewall_lets queryProvider now e remoteAddr port → plugins_let client_Do pm pxy e remoteAddr port →
  (handleUserTCPConnection queryProvider client_Do getWorkConn Start now pxy e pm remoteAddr localAddr port).2 = CrashedNil.
Proof.
  intros Hp Hfw Hpl. unfold handleUserTCPConnection. pose proof (firewall_check_spec queryProvider now e remoteAddr port) as Hf.
  destruct (firewall_check queryProvider now e remoteAddr port) as [e' [ok reason]]. destruct Hf as (Hf & _ & Hw).
  rewrite (proj2 Hf Hfw). cbn. assert (plugins_let client_Do pm pxy e' remoteAddr port) as Hv%plugin_check_spec
    by (unfold plugins_let in *; by rewrite Hw).
  destruct (plugin_check client_Do pm pxy e' remoteAddr port) as [e'' v]. cbn in Hv. subst v.
  unfold GetWorkConnFromPoolWithProtocol. by replace (Z.to_nat (b_poolCount pxy + 1)) with 0%nat by lia.
Qed.

(** ** Theorems: peers *)

Definition holding (pc : peer_pc) : bool := match pc with Opening _ | Open => true | Closing _ => false end.
Definition holds (ip : string) (e : nat * (string * peer_pc)) : Prop := peerIP e.2.1 = ip ∧ holding e.2.2 = true.
Definition closing_last (e : nat * (string * peer_pc)) : Prop := e.2.2 = Closing true.
#[local] Instance holds_dec ip e : Decision (holds ip e).
Proof. apply _. Defined.
#[local] Instance closing_last_dec e : Decision (closing_last e).
Proof. unfold closing_last. apply _. Defined.

Lemma size_filter_split {A} (P : nat * A → Prop) `{∀ x, Decision (P x)} (m : gmap nat A) k x :
  m !! k = Some x → size (filter P m) = ((if decide (P (k, x)) then 1 else 0) + size (filter P (delete k m)))%nat.
Proof.
  intros Hk. rewrite <-(insert_delete_id m k x Hk) at 1. case_decide as Hp.
  - rewrite map_filter_insert_True by done. rewrite map_size_insert_None; [done|].
    apply map_lookup_filter_None. left. apply lookup_delete_eq.
  - rewrite map_filter_insert_False by done. by rewrite delete_delete_eq.
Qed.

Lemma size_filter_insert {A} (P : nat * A → Prop) `{∀ x, Decision (P x)} (m : gmap nat A) k x :
  size (filter P (<[k := x]> m)) = ((if decide (P (k, x)) then 1 else 0) + size (filter P (delete k m)))%nat.
Proof. rewrite (size_filter_split P _ k x) by apply lookup_insert_eq. by rewrite delete_insert_eq. Qed.

Record peer_inv (t : Tracker) : Prop := {
  pi_refs ip : default 0 (refs t !! ip) = Z.of_nat (size (filter (holds ip) (conns t)));
  pi_pos ip n : refs t !! ip = Some n → 1 ≤ n;
  pi_one u v a b : conns t !! u = Some (a, Opening true) → conns t !! v = Some (b, Opening true) →
    peerIP a = peerIP b → u = v;
  pi_count : ∃ firsts : gset string,
    (∀ ip, ip ∈ firsts ↔ ∃ u a, conns t !! u = Some (a, Opening true) ∧ peerIP a = ip) ∧
    count t = Z.of_nat (size (dom (refs t) ∖ firsts)) + Z.of_nat (size (filter closing_last (conns t)))
}.

(** A connection that holds its peer is counted in its references. *)
Lemma holder_counted t u a pc :
  peer_inv t → conns t !! u = Some (a, pc) → holding pc = true → ∃ n, refs t !! peerIP a = Some n.
Proof.
  intros Hi Hu Hp. pose proof (pi_refs _ Hi (peerIP a)) as Hr.
  rewrite (size_filter_split _ _ u (a, pc)), decide_True in Hr by done.
  destruct (refs t !! peerIP a) as [n|]; [eauto|]. cbn in Hr. lia.
Qed.

Lemma no_holder t u a pc :
  peer_inv t → refs t !! peerIP a = None → conns t !! u = Some (a, pc) → holding pc = false.
Proof.
  intros Hi Hn Hu. destruct (holding pc) eqn:Hh; [|done].
  destruct (holder_counted t u a pc Hi Hu Hh). congruence.
Qed.

(** How many connections hold a peer, after one of them moves. *)
Lemma holds_size (m : gmap nat (string * peer_pc)) u a pc ip :
  size (filter (holds ip) (<[u := (a, pc)]> m)) =
  ((if decide (peerIP a = ip ∧ holding pc = true) then 1 else 0) + size (filter (holds ip) (delete u m)))%nat.
Proof. rewrite size_filter_insert. done. Qed.

Lemma peer_inv_acquire t u a :
  peer_inv t → conns t !! u = None →
  peer_inv (let '(r, first) := acquire (refs t) a in mkTracker r (count t) (<[u := (a, Opening first)]> (conns t))).
Proof.
  intros Hi Hu. unfold acquire. set (ip := peerIP a).
  assert (first_None : (default 0 (refs t !! ip) + 1 =? 1) = true ↔ refs t !! ip = None).
  { rewrite Z.eqb_eq. destruct (refs t !! ip) as [n|] eqn:Hn; [|naive_solver].
    apply (pi_pos _ Hi) in Hn as ?. cbn. split; [lia|done]. }
  destruct (pi_count _ Hi) as (firsts & Hfirsts & Hcount). split; cbn.
  - intros ip'. rewrite holds_size, delete_id by done. pose proof (pi_refs _ Hi ip') as Hr.
    destruct (decide (ip' = ip)) as [->|Hne].
    + rewrite lookup_insert_eq, decide_True by done. cbn. lia.
    + rewrite lookup_insert_ne by done. rewrite decide_False by (intros [Heq _]; by destruct Hne). done.
  - intros ip' n. rewrite lookup_insert_Some. intros [[<- <-]|[_ ?]]; [|by eapply pi_pos].
    destruct (refs t !! ip) as [n|] eqn:Hn; [apply (pi_pos _ Hi) in Hn|]; cbn; lia.
  - assert (∀ v b, (default 0 (refs t !! ip) + 1 =? 1) = true → conns t !! v = Some (b, Opening true) → peerIP b ≠ ip) as Hnew.
    { intros v b Hf%first_None Hv Heq. rewrite <-Heq in Hf.
      by apply (no_holder t v b _ Hi) in Hv. }
    intros v w b c Hv Hw Heq. apply lookup_insert_Some in Hv as [[<- [= <- Hv]]|[Hnv Hv]], Hw as [[<- [= <- Hw]]|[Hnw Hw]].
    + done.
    + destruct (Hnew w c Hv Hw). done.
    + destruct (Hnew v b Hw Hv). done.
    + by eapply (pi_one _ Hi v w b c).
  - rewrite size_filter_insert, decide_False, delete_id by (unfold closing_last; done).
    destruct (default 0 (refs t !! ip) + 1 =? 1) eqn:Hf.
    + clear Hf. pose proof (proj1 first_None eq_refl) as Hf. exists ({[ip]} ∪ firsts). split.
      * intros ip'. rewrite elem_of_union, elem_of_singleton, Hfirsts. split.
        -- intros [->|(v & b & Hv & <-)]; [exists u, a; by rewrite lookup_insert_eq|].
           exists v, b. rewrite lookup_insert_ne by congruence. done.
        -- intros (v & b & [[<- [= <-]]|[? Hv]]%lookup_insert_Some & <-); [by left|right; eauto].
      * rewrite Hcount. f_equal. f_equal. apply not_elem_of_dom in Hf. f_equal. set_solver.
    + assert (ip ∈ dom (refs t)) by (apply elem_of_dom; apply not_eq_None_Some; intros ?%first_None; done).
      exists firsts. split.
      * intros ip'. rewrite Hfirsts. split; intros (v & b & Hv & <-).
        -- exists v, b. rewrite lookup_insert_ne by congruence. done.
        -- apply lookup_insert_Some in Hv as [[<- [= <-]]|[? Hv]]; eauto.
      * rewrite Hcount. do 3 f_equal. set_solver.
Qed.

Lemma holds_move (m : gmap nat (string * peer_pc)) u a pc pc' ip :
  m !! u = Some (a, pc) → holding pc' = holding pc →
  size (filter (holds ip) (<[u := (a, pc')]> m)) = size (filter (holds ip) m).
Proof.
  intros Hu Hh. rewrite holds_size, (size_filter_split (holds ip) m u (a, pc)) by done.
  f_equal. unfold holds. cbn. rewrite Hh. done.
Qed.

Lemma closing_move (m : gmap nat (string * peer_pc)) u a pc pc' :
  m !! u = Some (a, pc) → pc ≠ Closing true → pc' ≠ Closing true →
  size (filter closing_last (<[u := (a, pc')]> m)) = size (filter closing_last m).
Proof.
  intros Hu H1 H2. rewrite size_filter_insert, (size_filter_split closing_last m u (a, pc)) by done.
  by rewrite !decide_False by (unfold closing_last; done).
Qed.

(** A connection that moves from or to another place than the first opening
    leaves the others of that kind as they are. *)
Lemma opening_others (m : gmap nat (string * peer_pc)) u a pc pc' v b :
  m !! u = Some (a, pc) → pc' ≠ Opening true →
  <[u := (a, pc')]> m !! v = Some (b, Opening true) ↔ m !! v = Some (b, Opening true) ∧ (v ≠ u ∨ pc ≠ Opening true).
Proof.
  intros Hu Hp. rewrite lookup_insert_Some. destruct (decide (v = u)) as [->|Hne]; naive_solver.
Qed.

Lemma peer_inv_opened t u a first :
  peer_inv t → conns t !! u = Some (a, Opening first) →
  peer_inv (mkTracker (refs t) (if first then onOpen (count t) else count t) (<[u := (a, Open)]> (conns t))).
Proof.
  intros Hi Hu. destruct (pi_count _ Hi) as (firsts & Hfirsts & Hcount).
  pose proof (λ v b, opening_others (conns t) u a (Opening first) Open v b Hu) as Hoth. split; cbn.
  - intros ip. rewrite (holds_move _ _ _ (Opening first)) by done. apply Hi.
  - apply Hi.
  - intros v w b c [Hv _]%Hoth [Hw _]%Hoth; [|done..]. by eapply pi_one.
  - rewrite (closing_move _ _ _ (Opening first)) by done. destruct first.
    + exists (firsts ∖ {[peerIP a]}). split.
      * intros ip. rewrite elem_of_difference, elem_of_singleton, Hfirsts. split.
        -- intros [(v & b & Hv & <-) Hne]. exists v, b. rewrite Hoth by done. split_and!; [done| |done].
           left. intros ->. congruence.
        -- intros (v & b & [Hv Hne]%Hoth & <-); [|done]. split; [eauto|]. intros Heq.
           destruct Hne as [Hne|]; [|done]. destruct Hne. by eapply (pi_one _ Hi v u b a).
      * assert (peerIP a ∈ firsts) as Hin by (apply Hfirsts; eauto).
        destruct (holder_counted t u a (Opening true) Hi Hu eq_refl) as [n Hn%elem_of_dom_2].
        assert (dom (refs t) ∖ (firsts ∖ {[peerIP a]}) = {[peerIP a]} ∪ (dom (refs t) ∖ firsts)) as ->.
        { apply set_eq. intros x. destruct (decide (x = peerIP a)); set_solver. }
        rewrite size_union, size_singleton by set_solver. unfold onOpen. lia.
    + exists firsts. split; [|done]. intros ip. rewrite Hfirsts. setoid_rewrite Hoth; [|done]. naive_solver.
Qed.

Lemma peer_inv_release t u a :
  peer_inv t → conns t !! u = Some (a, Open) →
  peer_inv (let '(r, last) := release (refs t) a in mkTracker r (count t) (<[u := (a, Closing last)]> (conns t))).
Proof.
  intros Hi Hu. unfold release. destruct (holder_counted t u a Open Hi Hu eq_refl) as [n Hn]. rewrite Hn.
  destruct (pi_count _ Hi) as (firsts & Hfirsts & Hcount). pose proof (pi_pos _ Hi _ _ Hn) as Hpos.
  assert (∀ ip last, size (filter (holds ip) (<[u := (a, Closing last)]> (conns t))) =
    (size (filter (holds ip) (conns t)) - if decide (peerIP a = ip) then 1 else 0)%nat) as Hsize.
  { intros ip last. rewrite holds_size, (size_filter_split (holds ip) (conns t) u (a, Open)) by done.
    rewrite decide_False by (intros [_ ?]; done). unfold holds at 2. cbn.
    destruct (decide (peerIP a = ip)); [rewrite decide_True by done|rewrite decide_False by (by intros [? _])]; lia. }
  assert (∀ last, ∀ v b, <[u := (a, Closing last)]> (conns t) !! v = Some (b, Opening true) ↔
    conns t !! v = Some (b, Opening true)) as Hoth.
  { intros last v b. rewrite (opening_others _ _ _ Open) by done. naive_solver. }
  pose proof (pi_refs _ Hi (peerIP a)) as Hr. rewrite Hn in Hr. cbn in Hr.
  destruct (Z.leb_spec (n - 1) 0) as [Hlast|Hmore]; split; cbn.
  - intros ip. rewrite Hsize. pose proof (pi_refs _ Hi ip) as Hip. case_decide as Heq.
    + subst ip. rewrite lookup_delete_eq. cbn. lia.
    + rewrite lookup_delete_ne by done. lia.
  - intros ip k [_ Hk]%lookup_delete_Some. by eapply pi_pos.
  - intros v w b c Hv%Hoth Hw%Hoth. by eapply pi_one.
  - exists firsts. split; [intros ip; rewrite Hfirsts; by setoid_rewrite Hoth|].
    assert (peerIP a ∉ firsts) as Hni.
    { intros (v & b & Hv & Heq)%Hfirsts. assert (v ≠ u) by congruence.
      rewrite (size_filter_split _ _ u (a, Open)), decide_True in Hr by done.
      rewrite (size_filter_split _ _ v (b, Opening true)), decide_True in Hr by (rewrite ?lookup_delete_ne; done). lia. }
    rewrite size_filter_insert, decide_True by done.
    rewrite (size_filter_split closing_last (conns t) u (a, Open)), decide_False in Hcount by done.
    assert (dom (refs t) ∖ firsts = {[peerIP a]} ∪ (dom (delete (peerIP a) (refs t)) ∖ firsts)) as Hset.
    { apply elem_of_dom_2 in Hn. rewrite dom_delete_L. apply set_eq. intros x. destruct (decide (x = peerIP a)); set_solver. }
    rewrite Hset, size_union, size_singleton in Hcount by (rewrite dom_delete_L; set_solver). lia.
  - intros ip. rewrite Hsize. pose proof (pi_refs _ Hi ip) as Hip. case_decide as Heq.
    + subst ip. rewrite lookup_insert_eq. cbn. lia.
    + rewrite lookup_insert_ne by done. lia.
  - intros ip k [[<- <-]|[_ Hk]]%lookup_insert_Some; [lia|by eapply pi_pos].
  - intros v w b c Hv%Hoth Hw%Hoth. by eapply pi_one.
  - exists firsts. split; [intros ip; rewrite Hfirsts; by setoid_rewrite Hoth|].
    rewrite (closing_move _ _ _ Open), Hcount by done. do 3 f_equal.
    apply elem_of_dom_2 in Hn. rewrite dom_insert_L. set_solver.
Qed.

Lemma peer_inv_closed t u a last :
  peer_inv t → conns t !! u = Some (a, Closing last) →
  peer_inv (mkTracker (refs t) (if last then onClose (count t) else count t) (delete u (conns t))).
Proof.
  intros Hi Hu. destruct (pi_count _ Hi) as (firsts & Hfirsts & Hcount).
  assert (∀ v b, delete u (conns t) !! v = Some (b, Opening true) ↔ conns t !! v = Some (b, Opening true)) as Hoth.
  { intros v b. rewrite lookup_delete_Some. naive_solver. }
  split; cbn.
  - intros ip. rewrite (pi_refs _ Hi ip), (size_filter_split (holds ip) (conns t) u (a, Closing last)) by done.
    by rewrite decide_False by (intros [_ ?]; done).
  - apply Hi.
  - intros v w b c Hv%Hoth Hw%Hoth. by eapply pi_one.
  - exists firsts. split; [intros ip; rewrite Hfirsts; by setoid_rewrite Hoth|].
    rewrite (size_filter_split closing_last (conns t) u (a, Closing last)) in Hcount by done.
    destruct last.
    + rewrite decide_True in Hcount by done. unfold onClose. destruct (Z.ltb_spec 0 (count t)); lia.
    + rewrite decide_False in Hcount by (unfold closing_last; done). lia.
Qed.

Lemma peer_inv_step t t' : peer_inv t → peer_step t t' → peer_inv t'.
Proof.
  intros Hi Hs. destruct Hs;
    [by apply peer_inv_acquire|by apply peer_inv_opened|by apply peer_inv_release|by eapply peer_inv_closed].
Qed.

Lemma peer_inv_new : peer_inv newPeerTracker.
Proof.
  split; cbn.
  - intros ip. by rewrite lookup_empty.
  - intros ip n. by rewrite lookup_empty.
  - intros u v a b. by rewrite lookup_empty.
  - exists ∅. split; [|done]. intros ip. split; [set_solver|]. intros (u & a & Hu & _). by rewrite lookup_empty in Hu.
Qed.

(** The peers behind the connections. *)
Definition peers (t : Tracker) : gset string := list_to_set ((λ e, peerIP e.2.1) <$> map_to_list (conns t)).

Lemma elem_of_peers t ip : ip ∈ peers t ↔ ∃ u a pc, conns t !! u = Some (a, pc) ∧ peerIP a = ip.
Proof.
  unfold peers. rewrite elem_of_list_to_set, list_elem_of_fmap. split.
  - intros ([u [a pc]] & -> & Hu%elem_of_map_to_list). eauto.
  - intros (u & a & pc & Hu & <-). exists (u, (a, pc)). by rewrite elem_of_map_to_list.
Qed.

(** A proxy that counts peers is right under every interleaving of its
    connections: its counter is never negative, and whenever no connection is
    just opening or closing it is the number of different addresses the open
    connections come from. *)
Theorem peers_counted t :
  rtc peer_step newPeerTracker t →
  0 ≤ count t ∧
  ((∀ u a pc, conns t !! u = Some (a, pc) → pc = Open) → count t = Z.of_nat (size (peers t))).
Proof.
  intros Hr. assert (peer_inv t) as Hi.
  { revert t Hr. apply rtc_ind_r; [apply peer_inv_new|]. intros s s' _ Hs Hi. by eapply peer_inv_step. }
  destruct (pi_count _ Hi) as (firsts & Hfirsts & Hcount). split; [lia|]. intros Hopen.
  assert (firsts = ∅) as ->.
  { apply set_eq. intros ip. rewrite Hfirsts. split; [|set_solver]. intros (u & a & Hu%Hopen & _). done. }
  assert (filter closing_last (conns t) = ∅) as Hnone.
  { apply map_empty. intros u. apply map_lookup_filter_None. right. intros [a pc] Hu%Hopen. subst. unfold closing_last. done. }
  rewrite Hnone, map_size_empty in Hcount. rewrite Hcount, difference_empty_L, Z.add_0_r. do 2 f_equal.
  apply set_eq. intros ip. rewrite elem_of_peers, elem_of_dom. split.
  - intros [n Hn]. pose proof (pi_refs _ Hi ip) as Hip. rewrite Hn in Hip. cbn in Hip.
    pose proof (pi_pos _ Hi _ _ Hn). destruct (map_choose (filter (holds ip) (conns t))) as (u & [a pc] & Hu).
    { intros He. rewrite He, map_size_empty in Hip. lia. }
    apply map_lookup_filter_Some in Hu as [Hu [Ha _]]. eauto.
  - intros (u & a & pc & Hu & <-). pose proof (Hopen _ _ _ Hu) as ->.
    destruct (holder_counted t u a Open Hi Hu eq_refl) as [n Hn]. by exists n.
Qed.

(** ** Theorems: the bridge *)

(** What is passed on. *)
Definition bridged (pings : bool) (m : Msg.Message) : bool :=
  match m with Msg.MUDPPacket _ => true | Msg.MPing _ => pings | _ => false end.
Definition payload (m : Msg.Message) : Z :=
  match m with Msg.MUDPPacket p => Z.of_nat (length (Msg.udp_Content p)) | _ => 0 end.
Definition expected (m : Msg.Message) : bool :=
  match m with Msg.MUDPPacket _ | Msg.MPing _ => true | _ => false end.
Definition total (l : list Msg.Message) : Z := foldr (λ m n, payload m + n) 0 l.

Lemma total_cons m l : total (m :: l) = payload m + total l.
Proof. done. Qed.

(** Why the bridge stops in front of some messages. *)
Definition stopped (pings : bool) (write : Msg.Message → bool) (e : bridge_end) (post : list Msg.Message) : Prop :=
  match e with
  | EndOfStream => post = []
  | WriteFailed => ∃ m post', post = m :: post' ∧ bridged pings m = true ∧ write m = false
  | Unexpected => ∃ m post', post = m :: post' ∧ expected m = false
  end.

Definition bridge_run (pings : bool) (write : Msg.Message → bool) (n : Z) (arriving : list Msg.Message)
    (r : list Msg.Message * Z * bridge_end) : Prop :=
  let '(out, n', e) := r in
  ∃ pre post, arriving = pre ++ post ∧ out = filter (λ m, bridged pings m = true) pre ∧ n' = n + total out ∧
    Forall (λ m, expected m = true) pre ∧ stopped pings write e post.

Lemma bridge_stop pings write n arriving e :
  stopped pings write e arriving → bridge_run pings write n arriving ([], n, e).
Proof. intros Hs. exists [], arriving. split_and!; [done..|cbn; lia|constructor|done]. Qed.

Lemma bridge_pass pings write n m arriving r :
  bridged pings m = true → expected m = true → bridge_run pings write (n + payload m) arriving r →
  bridge_run pings write n (m :: arriving) (let '(out, n', e) := r in (m :: out, n', e)).
Proof.
  intros Hb Hx. destruct r as [[out n'] e]. intros (pre & post & -> & -> & -> & Hall & He).
  exists (m :: pre), post. split_and!; [done| |rewrite total_cons; lia|by constructor|done]. by rewrite filter_cons_True.
Qed.

Lemma bridge_drop pings write n m arriving r :
  bridged pings m = false → expected m = true → bridge_run pings write n arriving r →
  bridge_run pings write n (m :: arriving) r.
Proof.
  intros Hb Hx. destruct r as [[out n'] e]. intros (pre & post & -> & -> & -> & Hall & He).
  exists (m :: pre), post. split_and!; [done| |done|by constructor|done]. by rewrite filter_cons_False by congruence.
Qed.

(** The bridge of a sudp proxy and a visitor of different wire protocols
    passes on exactly the packets, in order, towards the visitor with the
    heartbeats and towards the proxy without, and counts their bytes, up to the
    end of the stream, the first message it cannot write or the first of another
    kind. *)
Theorem sudp_bridge_exact pings write n arriving :
  bridge_run pings write n arriving (bridgeSUDP pings write n arriving).
Proof.
  revert n. induction arriving as [|m arriving IH]; intros n; [by apply bridge_stop|].
  destruct m; cbn [bridgeSUDP]; try (apply bridge_stop; by eexists _, _).
  - destruct pings; [|by apply bridge_drop]. destruct (write _) eqn:Hw.
    + apply bridge_pass; [done..|]. cbn [payload]. rewrite Z.add_0_r. apply IH.
    + apply bridge_stop. by eexists _, _.
  - destruct (write _) eqn:Hw.
    + apply bridge_pass; [done..|]. apply IH.
    + apply bridge_stop. by eexists _, _.
Qed.

(** ** Examples *)

#[local] Instance demo_content : Content NewUserConnContent := {
  marshal _ := Ok "{}"; unmarshal body := Ok (mkResponse (String.eqb body "no") "blocked" true None) }.

Definition demo_plugin : httpPlugin := NewHTTPPluginOptions (mkPluginOptions "p" "10.0.0.9:80" "/h" [OpNewUserConn] false).
Definition demo_pm : Manager := registered None (λ _, None) (λ _, None) [demo_plugin].
Definition demo_do (_ : bool) (_ _ : string) (w : nat) : nat * res string (Z * res string string) :=
  (S w, Ok (200, Ok "yes")).
Definition demo_base (n : Z) : Base := mkBase "web" "tcp" (mkUserInfo "alice" ∅ "r1") n "v1".
Definition demo_env : Env nat := mkEnv None (Some demo_pm) 0%nat.

Lemma user_conn_checked_witness :
  firewall_lets (λ _ _, None) 5 demo_env "1.2.3.4:5" 80 ∧
  plugins_let demo_do demo_pm (demo_base 1) demo_env "1.2.3.4:5" 80.
Proof.
  apply (user_conn_checked (λ _ _, None) demo_do (λ _, Ok 7%nat) (λ _ _, Ok tt : res string unit) 5 (demo_base 1) demo_env
    demo_pm "1.2.3.4:5" "5.6.7.8:80" 80).
  left. exists 7%nat. by vm_compute.
Defined.

Lemma work_conn_chosen_witness :
  failing (λ i, Ok i : res string nat) (λ c _, if Nat.eqb c 0 then Err "broken" else Ok tt)
    (startWorkConn (demo_base 1) (Some "1.2.3.4:5") None "") 0 [0%nat].
Proof.
  refine (proj1 (work_conn_chosen (λ i, Ok i : res string nat) (λ c _, if Nat.eqb c 0 then Err "broken" else Ok tt)
    (demo_base 1) (Some "1.2.3.4:5") None "" _)). done.
Defined.

Lemma negative_pool_crashes_witness :
  (handleUserTCPConnection (λ _ _, None) demo_do (λ _, Ok 7%nat) (λ _ _, Ok tt : res string unit) 5 (demo_base (-5)) demo_env
     demo_pm "1.2.3.4:5" "5.6.7.8:80" 80).2 = CrashedNil.
Proof.
  apply negative_pool_crashes; [done|done|]. apply plugin_check_spec. by vm_compute.
Defined.

Lemma admit_filter_sound_witness :
  ∃ t, (t, "1.2.3.4:5", true) ∈ [(3, "1.2.3.4:5", true)] ∧ 7 < t + 10.
Proof.
  apply (admit_filter_sound 80 10 true (admit_store 3 (mkAdmitFilter 80 10 true ∅) "1.2.3.4:5" true) [(3, "1.2.3.4:5", true)]).
  - apply rtc_once. apply (step_check (mkAdmitFilter 80 10 true ∅) [] 3 "1.2.3.4:5" true).
  - by vm_compute.
Defined.

Definition demo_tracker : Tracker :=
  mkTracker {["1.2.3.4" := 2]} 1 (<[1%nat := ("1.2.3.4:6", Open)]> {[0%nat := ("1.2.3.4:5", Open)]}).

Lemma demo_tracker_reached : rtc peer_step newPeerTracker demo_tracker.
Proof.
  eapply rtc_l; [apply (peer_acquire newPeerTracker 0 "1.2.3.4:5"); done|].
  eapply rtc_l; [by apply (peer_acquire _ 1 "1.2.3.4:6")|].
  eapply rtc_l; [by apply (peer_opened _ 0 "1.2.3.4:5" true)|].
  eapply rtc_l; [by apply (peer_opened _ 1 "1.2.3.4:6" false)|]. by vm_compute.
Qed.

Lemma peers_counted_witness : count demo_tracker = Z.of_nat (size (peers demo_tracker)).
Proof.
  apply (peers_counted demo_tracker demo_tracker_reached). intros u a pc.
  unfold demo_tracker. cbn [conns]. rewrite lookup_insert_Some, lookup_singleton_Some. naive_solver.
Defined.

End UserConns.
