(* ===== verification/Heartbeat.v ===== *)
(** Admission of clients and the life of their sessions: the login hook of
    server/service.go with the plugins and the authentication, the messages that
    open work connections, and heartbeats on both ends ([handlePing] and
    [heartbeatWorker] of server/control.go, [handlePong] and [heartbeatWorker] of
    client/control.go).

    Times are in nanoseconds; the two ends' clocks are one. *)
From Stdlib Require Import ZArith Lia Ascii String Sorted.
From stdpp Require Import base gmap strings list fin_maps relations sorting.
From S2P Require Import Prelude GoLib Wire Msg NatController WorkConns Auth ServerPlugins.

Local Open Scope Z_scope.
Local Open Scope frp_scope.

Module Heartbeat.
Import ServerPlugins.

Definition Second : Z := 10 ^ 9.

Definition GenerateResponseErrorString (summary err : string) (detailed : bool) : string :=
  if detailed then err else summary.

(** The text of a failure of the plugins; a panic has none. *)
Definition failure_text (f : failure) : option string :=
  match f with PluginError t => Some t | Rejected r => Some r | Panicked => None end.

(** ** Logins *)

Section Login.
Context {V : Type} `{Auth.Verifier V} {W : Type}.
Variable client_Do : bool → string → string → W → W * res string (Z * res string string).
Context `{Content LoginContent}.

Definition set_RunID (m : Msg.Login) (r : string) : Msg.Login :=
  Msg.mkLogin (Msg.login_Version m) (Msg.login_Hostname m) (Msg.login_Os m) (Msg.login_Arch m) (Msg.login_User m)
    (Msg.login_PrivilegeKey m) (Msg.login_Timestamp m) r (Msg.login_ClientID m) (Msg.login_Metas m)
    (Msg.login_ClientSpec m) (Msg.login_PoolCount m).

(** The verification of [RegisterControl]: the run id, then the key, unless the
    client is an internal one that asks to pass. *)
Definition verify_login (internal : bool) (randID : res string string) (now : Z) (v : V) (m : Msg.Login) :
    V * res string Msg.Login :=
  match (if String.eqb (Msg.login_RunID m) "" then let? r := randID in Ok (set_RunID m r) else Ok m) with
  | Err e => (v, Err e)
  | Ok m =>
      if internal && Msg.cs_AlwaysAuthPass (Msg.login_ClientSpec m) then (v, Ok m)
      else let '(v, r) := Auth.VerifyLogin (now `div` Second) v m in (v, let? _ := r in Ok m)
  end.

(** The login case of [handleConnection] up to the new control: the plugins,
    the keys of the control channel ([rw] is their outcome), the
    authentication. [None] is a panic. *)
Definition handleLogin (pm : Manager) (internal : bool) (rw : res string unit) (randID : res string string)
    (now : Z) (v : V) (w : W) (m : Msg.Login) (addr : string) : W * V * option (res string Msg.Login) :=
  let '(w, r) := Login client_Do pm (mkLoginContent m addr) w in
  match r with
  | Err f => (w, v, Err <$> failure_text f)
  | Ok c =>
      match (if internal then Ok tt else rw) with
      | Err e => (w, v, Some (Err e))
      | Ok _ => let '(v, r) := verify_login internal randID now v (lc_Login c) in (w, v, Some r)
      end
  end.
End Login.

(** ** Work connections *)

Section Work.
Context {V : Type} `{Auth.Verifier V} {W : Type}.
Variable client_Do : bool → string → string → W → W * res string (Z * res string string).
Context `{Content NewWorkConnContent}.

Inductive work_error := ErrNoControl | ErrText (text : string) | ErrPool (e : WorkConns.error).

(** [Service.RegisterWorkConn]: the control found by the run id, with its user
    and its pool. *)
Definition RegisterWorkConn (pm : Manager) (now : Z) (v : V) (w : W) (ctl : option (UserInfo * WorkConns.Pool))
    (m : Msg.NewWorkConn) (conn : nat) : W * V * option WorkConns.Pool * option (res work_error unit) :=
  match ctl with
  | None => (w, v, None, Some (Err ErrNoControl))
  | Some (user, pool) =>
      let '(w, r) := NewWorkConn client_Do pm (mkNewWorkConnContent user m) w in
      match r with
      | Err f => (w, v, Some pool, (λ t, Err (ErrText t)) <$> failure_text f)
      | Ok c =>
          let '(v, r) := Auth.VerifyNewWorkConn (now `div` Second) v (nwc_NewWorkConn c) in
          match r with
          | Err t => (w, v, Some pool, Some (Err (ErrText t)))
          | Ok _ =>
              let '(pool, r) := WorkConns.RegisterWorkConn pool conn in
              (w, v, Some pool, Some match r with Ok _ => Ok tt | Err e => Err (ErrPool e) end)
          end
      end
  end.
End Work.

(** ** Heartbeats: the server *)

Record SCtl (W V : Type) := mkSCtl {
  s_world : W; s_verifier : V; lastPing : Z; connClosed : bool; pongs : list Msg.Pong }.
Arguments mkSCtl {W V}.
Arguments s_world {W V}.
Arguments s_verifier {W V}.
Arguments lastPing {W V}.
Arguments connClosed {W V}.
Arguments pongs {W V}.

Section Server.
Context {V : Type} `{Auth.Verifier V} {W : Type}.
Variable client_Do : bool → string → string → W → W * res string (Z * res string string).
Context `{Content PingContent}.
(** The plugins, the session's user, and the server's configuration:
    [detailedErrorsToClient] and [heartbeatTimeout], in seconds. *)
Variables (pm : Manager) (user : UserInfo) (detailed : bool) (timeout : Z).

(** The plugins and the authentication on a heartbeat. *)
Definition ping_check (now : Z) (w : W) (v : V) (m : Msg.Ping) : W * V * option (res string unit) :=
  let '(w, r) := Ping client_Do pm (mkPingContent user m) w in
  match r with
  | Err f => (w, v, Err <$> failure_text f)
  | Ok c => let '(v, r) := Auth.VerifyPing (now `div` Second) v (pc_Ping c) in (w, v, Some r)
  end.

(** [handlePing]; [None] is a panic. *)
Definition handlePing (now : Z) (m : Msg.Ping) (c : SCtl W V) : option (SCtl W V) :=
  let '(w, v, r) := ping_check now (s_world c) (s_verifier c) m in
  match r with
  | None => None
  | Some (Err e) =>
      Some (mkSCtl w v (lastPing c) (connClosed c)
              (pongs c ++ [Msg.mkPong (GenerateResponseErrorString "invalid ping" e detailed)]))
  | Some (Ok _) => Some (mkSCtl w v now (connClosed c) (pongs c ++ [Msg.mkPong ""]))
  end.

(** The periodic check of [heartbeatWorker]. *)
Definition heartbeat_check (now : Z) (c : SCtl W V) : SCtl W V :=
  if timeout <=? 0 then c
  else if timeout * Second <? now - lastPing c
       then mkSCtl (s_world c) (s_verifier c) (lastPing c) true (pongs c) else c.

Inductive sevent := SPing (now : Z) (m : Msg.Ping) | SCheck (now : Z).

Definition sevent_time (e : sevent) : Z := match e with SPing t _ | SCheck t => t end.

Definition server_event (c : SCtl W V) (e : sevent) : option (SCtl W V) :=
  match e with SPing now m => handlePing now m c | SCheck now => Some (heartbeat_check now c) end.

Fixpoint server_run (c : SCtl W V) (evs : list sevent) : option (SCtl W V) :=
  match evs with [] => Some c | e :: evs => c ← server_event c e; server_run c evs end.
End Server.

(** ** Heartbeats: the client *)

Record CCtl := mkCCtl { lastPong : Z; sessionClosed : bool }.

Definition handlePong (now : Z) (m : Msg.Pong) (c : CCtl) : CCtl :=
  if negb (String.eqb (Msg.pong_Error m) "") then mkCCtl (lastPong c) true else mkCCtl now (sessionClosed c).

Definition client_check (interval timeout now : Z) (c : CCtl) : CCtl :=
  if (0 <? interval) && (0 <? timeout) then
    if timeout * Second <? now - lastPong c then mkCCtl (lastPong c) true else c
  else c.

(** [sendHeartBeat]: the message, or nothing when it cannot be signed. *)
Definition sendHeartBeat {A} `{Auth.Setter A} (now : Z) (a : A) : A * option Msg.Ping :=
  let '(a, r) := Auth.SetPing (now `div` Second) a (Msg.mkPing "" 0) in
  (a, match r with Ok m => Some m | Err _ => None end).

(** ** Theorems *)

(** A login is admitted only when every plugin of the hook let it through,
    as the plugins left it and with a run id, and, unless it comes from inside
    the server and asks to pass, when the authentication accepts it: a client
    from outside cannot ask to pass. *)
Theorem login_admitted {V} `{Auth.Verifier V} {W} client_Do `{Content LoginContent}
    pm internal rw randID now (v v' : V) (w w' : W) m addr m' :
  handleLogin client_Do pm internal rw randID now v w m addr = (w', v', Some (Ok m')) →
  (∃ c, passes client_Do OpLogin (loginPlugins pm) (mkLoginContent m addr) w c w' ∧
        (m' = lc_Login c ∨ Msg.login_RunID (lc_Login c) = "" ∧ ∃ r, randID = Ok r ∧ m' = set_RunID (lc_Login c) r)) ∧
  (Auth.VerifyLogin (now `div` Second) v m' = (v', Ok tt) ∨
   internal = true ∧ Msg.cs_AlwaysAuthPass (Msg.login_ClientSpec m') = true ∧ v' = v) ∧
  (internal = false → rw = Ok tt).
Proof.
  unfold handleLogin, Login. destruct (handleMutableContent _ _ _ _ _) as [w1 [c|f]] eqn:Hc; [|by destruct f].
  apply chain_passes_iff in Hc.
  destruct (if internal then Ok tt else rw) as [[]|e] eqn:Hrw; [|done].
  unfold verify_login.
  destruct (if String.eqb (Msg.login_RunID (lc_Login c)) "" then _ else _) as [m1|e] eqn:Hm; [|done].
  assert (m1 = lc_Login c ∨ Msg.login_RunID (lc_Login c) = "" ∧ ∃ r, randID = Ok r ∧ m1 = set_RunID (lc_Login c) r) as Hm1.
  { destruct (String.eqb_spec (Msg.login_RunID (lc_Login c)) ""); [|naive_solver].
    destruct randID as [r|]; [|done]. injection Hm as <-. eauto. }
  destruct (internal && _) eqn:Hp.
  - apply andb_true_iff in Hp as [-> Hp]. intros [= <- <- <-]. split_and!; eauto. done.
  - destruct (Auth.VerifyLogin _ v m1) as [v1 [[]|e]] eqn:Hv; intros [=]; subst. split_and!; [by eauto|by left|].
    intros ->. done.
Qed.

Section Exact.
Context {V : Type} `{Auth.Verifier V} {W : Type}.
Context (client_Do : bool → string → string → W → W * res string (Z * res string string)) `{Content PingContent}.
Context (pm : Manager) (user : UserInfo) (detailed : bool) (timeout : Z).

Abbreviation server_event := (server_event client_Do pm user detailed timeout).
Abbreviation server_run := (server_run client_Do pm user detailed timeout).

(** The heartbeat an event is, when it is accepted. *)
Definition beat (c : SCtl W V) (e : sevent) : list Z :=
  match e with
  | SPing now m =>
      match (ping_check client_Do pm user now (s_world c) (s_verifier c) m).2 with Some (Ok _) => [now] | _ => [] end
  | SCheck _ => []
  end.

(** The times of the heartbeats that are accepted. *)
Fixpoint beats (c : SCtl W V) (evs : list sevent) : list Z :=
  match evs with
  | [] => []
  | e :: evs => beat c e ++ match server_event c e with Some c => beats c evs | None => [] end
  end.

Lemma server_event_spec c e c' :
  server_event c e = Some c' →
  lastPing c' = default (lastPing c) (last (beat c e)) ∧
  connClosed c' = connClosed c || match e with SCheck t => (0 <? timeout) && (timeout * Second <? t - lastPing c) | _ => false end.
Proof.
  destruct e as [now m|now]; cbn.
  - unfold handlePing. destruct (ping_check client_Do pm user now (s_world c) (s_verifier c) m) as [[w v] [[[]|err]|]];
      intros [=]; subst c'; cbn; by rewrite orb_false_r.
  - unfold heartbeat_check. intros [= <-]. destruct (Z.leb_spec timeout 0), (Z.ltb_spec 0 timeout); try lia; cbn.
    + by rewrite orb_false_r.
    + destruct (timeout * Second <? now - lastPing c); cbn; by rewrite ?orb_true_r, ?orb_false_r.
Qed.

(** Times that do not go back. *)
Definition in_order (c : SCtl W V) (evs : list sevent) : Prop := StronglySorted Z.le (lastPing c :: (sevent_time <$> evs)).

Lemma beat_cases c e c' :
  server_event c e = Some c' →
  beat c e = [] ∧ lastPing c' = lastPing c ∨ beat c e = [sevent_time e] ∧ lastPing c' = sevent_time e.
Proof.
  intros [Hl _]%server_event_spec. unfold beat in *. destruct e as [now m|now]; [|by left].
  destruct (ping_check _ _ _ _ _ _ _) as [[w v] [[[]|err]|]]; cbn in *; auto.
Qed.

Lemma in_order_step c e evs c' : in_order c (e :: evs) → server_event c e = Some c' → in_order c' evs ∧ lastPing c ≤ lastPing c'.
Proof.
  unfold in_order. cbn. intros Hs He.
  apply StronglySorted_inv in Hs as [Hs1 Hf]. apply StronglySorted_inv in Hs1 as [Hs2 Hf2].
  apply Forall_cons in Hf as [Hle Hf]. destruct (beat_cases _ _ _ He) as [[_ ->]|[_ ->]]; (split; [by constructor|lia]).
Qed.

(** No heartbeat was accepted in the timeout before [t]. *)
Definition silent (c : SCtl W V) (pre : list sevent) (t : Z) : Prop :=
  Forall (λ t', timeout * Second < t - t') (lastPing c :: beats c pre).

Lemma silent_step c e c' pre t :
  server_event c e = Some c' → lastPing c ≤ lastPing c' → silent c (e :: pre) t ↔ silent c' pre t.
Proof.
  intros He Hle. unfold silent. cbn [beats]. rewrite He, !Forall_cons, Forall_app.
  destruct (beat_cases _ _ _ He) as [[-> Hl]|[-> Hl]]; rewrite Hl in *; rewrite ?Forall_cons, ?Forall_nil.
  - intuition.
  - split; [intuition|]. intros [? ?]. split_and!; [lia|done..].
Qed.

Lemma closed_iff c evs c' :
  server_run c evs = Some c' → 0 < timeout → in_order c evs →
  connClosed c' = true ↔ connClosed c = true ∨ ∃ pre t post, evs = pre ++ SCheck t :: post ∧ silent c pre t.
Proof.
  intros Hr Ht. revert c Hr. induction evs as [|e evs IH]; intros c Hr Ho.
  { cbn in Hr. simplify_eq. split; [by left|]. intros [?|(pre & t & post & Heq & _)]; [done|]. by destruct pre. }
  cbn in Hr. destruct (server_event c e) as [c1|] eqn:He; [|done]. cbn in Hr.
  destruct (in_order_step _ _ _ _ Ho He) as [Ho1 Hle]. rewrite (IH c1 Hr Ho1).
  destruct (server_event_spec _ _ _ He) as [_ Hc]. rewrite Hc, orb_true_iff. split.
  - intros [[?|Hcheck]|(pre & t & post & -> & Hs)]; [by left| |].
    + right. destruct e as [|t]; [done|]. exists [], t, evs. split; [done|]. apply andb_true_iff in Hcheck as [_ Hlt].
      unfold silent. cbn. rewrite Forall_singleton. lia.
    + right. exists (e :: pre), t, post. split; [done|]. by rewrite silent_step.
  - intros [?|(pre & t & post & Heq & Hs)]; [by left; left|]. destruct pre as [|e' pre]; injection Heq as -> ->.
    + left. right. apply Forall_cons in Hs as [Hs _]. apply andb_true_iff. split; lia.
    + right. exists pre, t, post. split; [done|]. by apply (silent_step _ _ c1) in Hs.
Qed.

(** C32. The server closes a session for a missed heartbeat exactly when it has
    to: after any heartbeats and periodic checks, in the order of time, the
    connection has been closed if and only if at one of the checks the login and
    every heartbeat that the plugins and the authentication had accepted were
    longer ago than the timeout; heartbeats that are refused do not count. *)
Theorem heartbeat_exact c evs c' :
  server_run c evs = Some c' → 0 < timeout → in_order c evs → connClosed c = false →
  connClosed c' = true ↔ ∃ pre t post, evs = pre ++ SCheck t :: post ∧ silent c pre t.
Proof. intros Hr Ht Ho Hc. rewrite (closed_iff c evs c' Hr Ht Ho), Hc. naive_solver. Qed.
End Exact.

Section Survives.
Context {A V : Type} `{Auth.Accepts A V} {W : Type}.
Context (client_Do : bool → string → string → W → W * res string (Z * res string string)) `{Content PingContent}.
Context (pm : Manager) (user : UserInfo) (detailed : bool) (timeout : Z).
(** No plugin is asked about heartbeats, and the client can always sign. *)
Hypothesis no_plugins : pingPlugins pm = [].
Hypothesis signs : ∀ now (a : A) m, ∃ a' m', Auth.SetPing now a m = (a', Ok m').

(** Client and server together: the client sends a heartbeat that arrives, or
    the server checks. *)
Inductive pevent := PBeat (sent received : Z) | PCheck (now : Z).

Definition pair_event (s : A * SCtl W V) (e : pevent) : option (A * SCtl W V) :=
  match e with
  | PBeat sent received =>
      let '(a, m) := sendHeartBeat sent s.1 in
      match m with
      | None => Some (a, s.2)
      | Some m => pair a <$> handlePing client_Do pm user detailed received m s.2
      end
  | PCheck now => Some (s.1, heartbeat_check timeout now s.2)
  end.

Fixpoint pair_run (s : A * SCtl W V) (evs : list pevent) : option (A * SCtl W V) :=
  match evs with [] => Some s | e :: evs => s ← pair_event s e; pair_run s evs end.

(** The messages arrive early enough to be valid, and at each check the last one
    arrived within the timeout. *)
Fixpoint kept (last : Z) (evs : list pevent) : Prop :=
  match evs with
  | [] => True
  | PBeat sent received :: evs => Auth.in_time (A := A) (V := V) (sent `div` Second) (received `div` Second) ∧ kept received evs
  | PCheck now :: evs => now - last ≤ timeout * Second ∧ kept last evs
  end.

Lemma beat_accepted a (c : SCtl W V) sent received :
  Auth.known a (s_verifier c) → Auth.in_time (A := A) (V := V) (sent `div` Second) (received `div` Second) →
  ∃ a', pair_event (a, c) (PBeat sent received) =
        Some (a', mkSCtl (s_world c) (s_verifier c) received (connClosed c) (pongs c ++ [Msg.mkPong ""])) ∧
        Auth.known a' (s_verifier c).
Proof.
  intros Hk Ht. cbn. unfold sendHeartBeat. destruct (signs (sent `div` Second) a (Msg.mkPing "" 0)) as (a' & m' & Hs).
  destruct (Auth.accepts_ping _ _ _ _ _ _ _ Hk Ht Hs) as [Hk' Hv]. rewrite Hs. exists a'. split; [|done].
  unfold handlePing, ping_check, Ping. rewrite no_plugins. cbn. by rewrite (Hv m').
Qed.

Lemma run_survives a c evs :
  Auth.known a (s_verifier c) → connClosed c = false → kept (lastPing c) evs →
  ∃ a' c' new, pair_run (a, c) evs = Some (a', c') ∧ connClosed c' = false ∧
    pongs c' = pongs c ++ new ∧ Forall (λ p, Msg.pong_Error p = "") new.
Proof.
  revert a c. induction evs as [|[sent received|now] evs IH]; intros a c Hk Hc Hkept.
  { exists a, c, []. split_and!; [done..|by rewrite app_nil_r|constructor]. }
  - destruct Hkept as [Ht Hkept]. destruct (beat_accepted a c sent received Hk Ht) as (a1 & He & Hk1).
    cbn [pair_run]. rewrite He. cbn [mbind option_bind].
    destruct (IH a1 (mkSCtl (s_world c) (s_verifier c) received (connClosed c) (pongs c ++ [Msg.mkPong ""])))
      as (a' & c' & new & Hr & Hc' & Hp & Hnew); [done..|].
    exists a', c', (Msg.mkPong "" :: new). split_and!; [done..|cbn in Hp; by rewrite Hp, <-app_assoc|by constructor].
  - destruct Hkept as [Hgap Hkept]. cbn [pair_run pair_event fst snd mbind option_bind]. unfold heartbeat_check.
    rewrite (proj2 (Z.ltb_ge _ _)) by done. destruct (timeout <=? 0); by apply IH.
Qed.

(** C33. A session of a client and a server that belong together lives: when no
    plugin is asked about heartbeats and one arrives in every timeout, the
    server never closes the connection, and none of its answers makes the client
    close it. *)
Theorem session_survives a c evs d now :
  Auth.known a (s_verifier c) → connClosed c = false → kept (lastPing c) evs → sessionClosed d = false →
  ∃ a' c' new, pair_run (a, c) evs = Some (a', c') ∧ connClosed c' = false ∧ pongs c' = pongs c ++ new ∧
    sessionClosed (foldl (λ d p, handlePong now p d) d new) = false.
Proof.
  intros Hk Hc Hkept Hd. destruct (run_survives a c evs Hk Hc Hkept) as (a' & c' & new & Hr & Hc' & Hp & Hnew).
  exists a', c', new. split_and!; [done..|]. clear -Hd Hnew. revert d Hd.
  induction Hnew as [|p new Hp _ IH]; intros d Hd; [done|]. apply IH. unfold handlePong. by rewrite Hp.
Qed.
End Survives.

(** ** Examples *)

#[local] Instance demo_ping_content : Content PingContent := { marshal _ := Ok "{}"; unmarshal _ := Err "" }.
#[local] Instance demo_login_content : Content LoginContent := { marshal _ := Ok "{}"; unmarshal _ := Err "" }.
Definition demo_do (_ : bool) (_ _ : string) (w : unit) : unit * res string (Z * res string string) := (w, Err "down").
Definition demo_pm : Manager := NewManager None.
Definition demo_user : UserInfo := mkUserInfo "alice" ∅ "r1".
Definition demo_ctl : SCtl unit Auth.TokenAuth := mkSCtl tt Auth.demo_ta 0 false [].

Lemma login_admitted_witness :
  ∃ m, @Auth.VerifyLogin _ (Auth.token_Verifier id) (5 `div` Second) Auth.demo_ta m = (Auth.demo_ta, Ok tt).
Proof.
  exists (set_RunID (Auth.token_SetLogin id Auth.demo_ta Auth.demo_login) "r9").
  destruct (login_admitted (H := Auth.token_Verifier id) demo_do demo_pm false (Ok tt) (Ok "r9") 5 Auth.demo_ta Auth.demo_ta tt tt
    (Auth.token_SetLogin id Auth.demo_ta Auth.demo_login) "1.2.3.4:5"
    (set_RunID (Auth.token_SetLogin id Auth.demo_ta Auth.demo_login) "r9")) as (_ & [Hv|[? _]] & _); [by vm_compute| |done].
  exact Hv.
Defined.

Lemma heartbeat_exact_witness :
  ∃ c', server_run (H := Auth.token_Verifier id) demo_do demo_pm demo_user false 1 demo_ctl
          [SPing 5 (Msg.mkPing "bad" 0); SCheck (2 * Second)] = Some c' ∧ connClosed c' = true.
Proof.
  eexists. split; [by vm_compute|].
  apply (heartbeat_exact (H := Auth.token_Verifier id) demo_do demo_pm demo_user false 1 demo_ctl
    [SPing 5 (Msg.mkPing "bad" 0); SCheck (2 * Second)]); [by vm_compute|done| |done|].
  - repeat constructor; by vm_compute.
  - exists [SPing 5 (Msg.mkPing "bad" 0)], (2 * Second), []. split; [done|]. repeat constructor; by vm_compute.
Defined.

Lemma session_survives_witness :
  ∃ a' c' new, pair_run (H := Auth.token_Setter id) (H0 := Auth.token_Verifier id) demo_do demo_pm demo_user false 1
    (Auth.demo_ta, demo_ctl) [PBeat 3 4; PCheck 5] = Some (a', c') ∧ connClosed c' = false ∧ pongs c' = pongs demo_ctl ++ new ∧
    sessionClosed (foldl (λ d p, handlePong 6 p d) (mkCCtl 0 false) new) = false.
Proof.
  apply (session_survives (H1 := Auth.token_Accepts id) demo_do demo_pm demo_user false 1).
  - done.
  - intros now a m. by eexists _, _.
  - split; [done|]. by intros s _ Hs.
  - done.
  - split; [exact I|]. split; [by vm_compute|exact I].
  - done.
Defined.

End Heartbeat.
