(* ===== verification/UDPForward.v ===== *)
(** Forwarding of UDP packets, pkg/proto/udp/udp.go: [ForwardUserConn] on the
    server, between the users' socket and a work connection, and [Forwarder] on
    the client, between a work connection and the local service, with one socket
    per user.

    The read buffer of the server's loop is shared by all its packets: contents
    are cells of a heap. The goroutines interleave: each of their steps between
    two locks is a step of the models. *)
From Stdlib Require Import ZArith Lia Ascii String.
From stdpp Require Import base gmap strings list fin_maps fin_sets relations.
From S2P Require Import Prelude GoLib Wire Msg.

Local Open Scope Z_scope.
Local Open Scope frp_scope.

Module UDPForward.
Import Msg (UDPAddr, udp_Content, udp_RemoteAddr, mkUDPPacket).

(** ** The server: [ForwardUserConn] *)

Section Server.
(** The method [String] of an address, also of nil; the sizes of the buffer
    and of the channel, and the idle timeout. *)
Variable addr_String : option UDPAddr → string.
Variables (bufSize capacity : nat) (IdleTimeout : Z).

(** A packet with its content in the heap. *)
Record Packet := mkPacket { pk_content : nat; pk_remote : option UDPAddr }.

(** Cell 0 is the read buffer. [sessions] are the last times of the sources, and
    [opened] counts the calls of [OnOpen] less those of [OnClose]. [queued] and
    [sent] record what was put into the channel and what was taken out of it to
    be written to the work connection. *)
Record Fwd := mkFwd {
  heap : gmap nat (list Byte.byte); next : nat; sendCh : list Packet; sessions : gmap string Z; opened : Z;
  queued : list (list Byte.byte * option UDPAddr); sent : list (list Byte.byte * option UDPAddr) }.

Definition start (garbage : list Byte.byte) : Fwd := mkFwd {[0%nat := garbage]} 1 [] ∅ 0 [] [].

Definition cell (f : Fwd) (l : nat) : list Byte.byte := default [] (heap f !! l).

(** [ReadFromUDP] into the buffer: what does not fit is lost. *)
Definition ReadFromUDP (f : Fwd) (data : list Byte.byte) : Fwd * nat :=
  let n := Nat.min (length data) bufSize in
  (mkFwd (<[0%nat := take n data ++ drop n (cell f 0)]> (heap f)) (next f) (sendCh f) (sessions f) (opened f)
     (queued f) (sent f), n).

(** [NewUDPPacket] of the first [n] bytes of the buffer. *)
Definition NewUDPPacket (f : Fwd) (n : nat) (raddr : option UDPAddr) : Fwd * Packet :=
  (mkFwd (<[next f := take n (cell f 0)]> (heap f)) (S (next f)) (sendCh f) (sessions f) (opened f) (queued f) (sent f),
   mkPacket (next f) raddr).

Definition set_sessions (f : Fwd) (s : gmap string Z) (o : Z) : Fwd :=
  mkFwd (heap f) (next f) (sendCh f) s o (queued f) (sent f).

Definition track (now : Z) (f : Fwd) (key : string) : Fwd :=
  set_sessions f (<[key := now]> (sessions f))
    (match sessions f !! key with None => opened f + 1 | Some _ => opened f end).

(** One round of the read loop; [allowed] is the admission filter. *)
Definition read_round (allowed : string → bool) (now : Z) (f : Fwd) (data : list Byte.byte) (raddr : option UDPAddr) : Fwd :=
  let '(f, n) := ReadFromUDP f data in
  if (match raddr with Some _ => negb (allowed (addr_String raddr)) | None => false end) then f
  else
    let f := match raddr with Some _ => track now f (addr_String raddr) | None => f end in
    let '(f, p) := NewUDPPacket f n raddr in
    if (length (sendCh f) <? capacity)%nat then
      mkFwd (heap f) (next f) (sendCh f ++ [p]) (sessions f) (opened f) (queued f ++ [(cell f (pk_content p), raddr)]) (sent f)
    else f.

(** A tick of the janitor: idle sources are closed. *)
Definition idle (now : Z) (e : string * Z) : Prop := IdleTimeout < now - e.2.
#[global] Instance idle_dec now e : Decision (idle now e).
Proof. unfold idle. apply _. Defined.

Definition janitor (now : Z) (f : Fwd) : Fwd :=
  let gone := filter (idle now) (sessions f) in
  set_sessions f (filter (λ e, ¬ idle now e) (sessions f)) (opened f - Z.of_nat (size gone)).

(** On exit every session is closed. *)
Definition finish (f : Fwd) : Fwd := set_sessions f ∅ (opened f - Z.of_nat (size (sessions f))).

(** The sender takes a packet out of the channel. *)
Definition take_packet (f : Fwd) : option Fwd :=
  match sendCh f with
  | [] => None
  | p :: l => Some (mkFwd (heap f) (next f) l (sessions f) (opened f) (queued f) (sent f ++ [(cell f (pk_content p), pk_remote p)]))
  end.

Inductive fwd_step : Fwd → Fwd → Prop :=
| fwd_read allowed now f data raddr : fwd_step f (read_round allowed now f data raddr)
| fwd_janitor now f : fwd_step f (janitor now f)
| fwd_take f f' : take_packet f = Some f' → fwd_step f f'
| fwd_finish f : fwd_step f (finish f).
End Server.

(** ** The client: [Forwarder] *)

(** A socket is a number. The loop handles one packet at a time: the socket it
    found or opened for the packet, and whether it opened it. *)
Record Pending := mkPending { p_sock : nat; p_key : string; p_remote : option UDPAddr; p_data : list Byte.byte; p_new : bool }.

(** [closing] are the sockets whose readers have ended and are about to close
    them. [owner] is whom a socket was opened for; [toService], [fromService] and
    [toUser] record the datagrams: with the socket and the address of the packet
    they come from, from a socket, and with the address of a reply. *)
Record Cli := mkCli {
  udpConnMap : gmap string nat;
  writers : gmap nat (option UDPAddr);
  isOpen : gset nat;
  closing : gset nat;
  loop : option Pending;
  nextSock : nat;
  owner : gmap nat string;
  toService : list (nat * string * list Byte.byte);
  fromService : list (nat * list Byte.byte);
  toUser : list (option UDPAddr * list Byte.byte) }.

Definition NewForwarder : Cli := mkCli ∅ ∅ ∅ ∅ None 0 ∅ [] [] [].

Section Client.
Variable addr_String : option UDPAddr → string.
(** The header of the proxy protocol for an address, where a version is set and
    it can be built. *)
Variable header : option UDPAddr → option (list Byte.byte).

(** The loop takes a packet; [dial] is whether a socket can be opened. *)
Definition receive (c : Cli) (dial : bool) (m : Msg.UDPPacket) : Cli :=
  let key := addr_String (udp_RemoteAddr m) in
  let go (s : nat) (new : bool) (map : gmap string nat) (open_ : gset nat) (n : nat) (ow : gmap nat string) :=
    mkCli map (writers c) open_ (closing c) (Some (mkPending s key (udp_RemoteAddr m) (udp_Content m) new)) n ow
      (toService c) (fromService c) (toUser c) in
  match udpConnMap c !! key with
  | Some s => go s false (udpConnMap c) (isOpen c) (nextSock c) (owner c)
  | None =>
      if dial then
        let s := nextSock c in
        go s true (<[key := s]> (udpConnMap c)) ({[s]} ∪ isOpen c) (S s) (<[s := key]> (owner c))
      else c
  end.

(** What is written: with a header in front for the first packet of a socket. *)
Definition datagram (p : Pending) : list Byte.byte :=
  match (if p_new p then match p_remote p with Some _ => header (p_remote p) | None => None end else None) with
  | Some h => h ++ p_data p
  | None => p_data p
  end.

(** The loop writes the packet, closing the socket when that fails, and starts
    the writer of a new socket. *)
Definition write (c : Cli) (p : Pending) (ok : bool) : Cli :=
  let ok := ok && bool_decide (p_sock p ∈ isOpen c) in
  mkCli (udpConnMap c) (if p_new p then <[p_sock p := p_remote p]> (writers c) else writers c)
    (if ok then isOpen c else isOpen c ∖ {[p_sock p]}) (closing c) None (nextSock c) (owner c)
    (if ok then toService c ++ [(p_sock p, p_key p, datagram p)] else toService c) (fromService c) (toUser c).

(** The writer of a socket reads a datagram of the service and passes it on,
    unless the channel is full. *)
Definition reply (c : Cli) (s : nat) (raddr : option UDPAddr) (data : list Byte.byte) (room : bool) : Cli :=
  mkCli (udpConnMap c) (writers c) (isOpen c) (closing c) (loop c) (nextSock c) (owner c) (toService c)
    (fromService c ++ [(s, data)]) (if room then toUser c ++ [(raddr, data)] else toUser c).

(** The writer ends, because of the deadline, an error or a closed channel: it
    takes its user out of the map, and then closes its socket. *)
Definition writer_end (c : Cli) (s : nat) (raddr : option UDPAddr) : Cli :=
  mkCli (delete (addr_String raddr) (udpConnMap c)) (delete s (writers c)) (isOpen c) ({[s]} ∪ closing c) (loop c)
    (nextSock c) (owner c) (toService c) (fromService c) (toUser c).

Definition writer_close (c : Cli) (s : nat) : Cli :=
  mkCli (udpConnMap c) (writers c) (isOpen c ∖ {[s]}) (closing c ∖ {[s]}) (loop c) (nextSock c) (owner c) (toService c)
    (fromService c) (toUser c).

Inductive cli_step : Cli → Cli → Prop :=
| cli_receive c dial m : loop c = None → cli_step c (receive c dial m)
| cli_write c p ok : loop c = Some p → cli_step c (write c p ok)
| cli_reply c s raddr data room : writers c !! s = Some raddr → s ∈ isOpen c → cli_step c (reply c s raddr data room)
| cli_writer_end c s raddr : writers c !! s = Some raddr → cli_step c (writer_end c s raddr)
| cli_writer_close c s : s ∈ closing c → cli_step c (writer_close c s).
End Client.

(** ** Theorems: the server *)

Section ServerProofs.
Context (addr_String : option UDPAddr → string) (bufSize capacity : nat) (IdleTimeout : Z).

Definition resolve (f : Fwd) (p : Packet) : list Byte.byte * option UDPAddr := (cell f (pk_content p), pk_remote p).

(** The packets of the channel have cells of their own. *)
Record fwd_inv (f : Fwd) : Prop := {
  fi_next : (1 ≤ next f)%nat;
  fi_cells : Forall (λ p, (1 ≤ pk_content p < next f)%nat) (sendCh f);
  fi_queued : queued f = sent f ++ (resolve f <$> sendCh f);
  fi_size : Forall (λ e, (length e.1 ≤ bufSize)%nat) (queued f);
  fi_cap : (length (sendCh f) ≤ capacity)%nat;
  fi_opened : opened f = Z.of_nat (size (sessions f))
}.

(** Other cells may change. *)
Lemma resolve_same f g ps :
  Forall (λ p, (1 ≤ pk_content p < next f)%nat) ps →
  (∀ l, (1 ≤ l < next f)%nat → heap g !! l = heap f !! l) → resolve g <$> ps = resolve f <$> ps.
Proof.
  intros Hps Hh. induction Hps as [|p ps Hp _ IH]; [done|]. cbn. rewrite IH. f_equal. unfold resolve, cell. by rewrite Hh.
Qed.

Lemma size_track now f key : opened f = Z.of_nat (size (sessions f)) → opened (track now f key) = Z.of_nat (size (sessions (track now f key))).
Proof.
  intros Ho. unfold track. cbn. rewrite map_size_insert. destruct (sessions f !! key); unfold id; lia.
Qed.

(** What a round of the loop does to the channel, from the state where the
    packet is tracked. *)
Lemma read_round_queue allowed now f data raddr :
  fwd_inv f →
  let f' := read_round addr_String bufSize capacity allowed now f data raddr in
  fwd_inv f' ∧
  (queued f' = queued f ∨
   queued f' = queued f ++ [(take bufSize data, raddr)] ∧ (∀ a, raddr = Some a → allowed (addr_String raddr) = true)).
Proof.
  intros [Hn Hc Hq Hs Hcap Ho]. unfold read_round, ReadFromUDP. set (n := Nat.min (length data) bufSize).
  set (f1 := mkFwd _ _ _ _ _ _ _).
  assert (fwd_inv f1) as Hf1.
  { split; cbn; try done. rewrite Hq. f_equal. symmetry. apply resolve_same; [done|].
    intros l Hl. cbn. by rewrite lookup_insert_ne by lia. }
  destruct (match raddr with Some _ => negb (allowed (addr_String raddr)) | None => false end) eqn:Hal; [auto|].
  set (f2 := match raddr with Some _ => track now f1 (addr_String raddr) | None => f1 end).
  assert (fwd_inv f2 ∧ queued f2 = queued f ∧ cell f2 0 = take n data ++ drop n (cell f 0)) as (Hf2 & Hq2 & Hc2).
  { assert (cell f1 0 = take n data ++ drop n (cell f 0)) by (unfold cell at 1; cbn; by rewrite lookup_insert_eq).
    destruct raddr; [|done]. split; [|done]. destruct Hf1. split; try done. by apply size_track. }
  cbn zeta beta iota delta [NewUDPPacket]. set (f3 := mkFwd (<[next f2 := _]> (heap f2)) _ _ _ _ _ _).
  assert (cell f3 (next f2) = take bufSize data) as Hc3.
  { unfold cell. cbn. rewrite lookup_insert_eq. cbn. rewrite Hc2, take_app_le by (rewrite length_take; lia).
    rewrite take_take, Nat.min_id. unfold n. destruct (Nat.min_spec (length data) bufSize) as [[? ->]|[? ->]]; [|done].
    by rewrite !take_ge by lia. }
  destruct Hf2 as [Hn2 Hcells2 Hqueued2 Hs2 Hcap2 Ho2].
  assert (resolve f3 <$> sendCh f2 = resolve f2 <$> sendCh f2) as Hres.
  { apply resolve_same; [done|]. intros l Hl. cbn. by rewrite lookup_insert_ne by lia. }
  destruct (Nat.ltb_spec (length (sendCh f3)) capacity) as [Hlt|Hge].
  - split.
    + split; cbn.
      * lia.
      * apply Forall_app. split; [|repeat constructor; cbn; lia]. eapply Forall_impl; [exact Hcells2|]. cbn. lia.
      * cbn in Hc3. rewrite fmap_app. cbn. unfold f3 in Hres. cbn in Hres. rewrite app_assoc.
        change (sent f3) with (sent f2). rewrite Hqueued2, <-Hres. done.
      * apply Forall_app. split; [done|]. repeat constructor. cbn. cbn in Hc3. rewrite Hc3, length_take. lia.
      * rewrite length_app. cbn in *. lia.
      * done.
    + right. cbn. rewrite Hq2. split; [by rewrite Hc3|]. intros a ->. by apply negb_false_iff in Hal.
  - split; [|by left]. split; cbn; try done; [lia| |].
    + eapply Forall_impl; [exact Hcells2|]. cbn. lia.
    + by rewrite Hqueued2, <-Hres.
Qed.

Lemma filter_sizes {A} (P : string * A → Prop) `{∀ x, Decision (P x)} (m : gmap string A) :
  size m = (size (filter P m) + size (filter (λ e, ¬ P e) m))%nat.
Proof.
  rewrite <-map_size_disj_union by apply map_disjoint_filter_complement.
  by rewrite map_filter_union_complement.
Qed.

Lemma fwd_inv_step f f' : fwd_inv f → fwd_step addr_String bufSize capacity IdleTimeout f f' → fwd_inv f'.
Proof.
  intros Hi Hs. destruct Hs as [allowed now f data raddr|now f|f f' Ht|f].
  - by apply read_round_queue.
  - destruct Hi as [Hn Hc Hq Hs Hcap Ho]. split; try done. cbn. rewrite Ho, (filter_sizes (idle IdleTimeout now) (sessions f)). lia.
  - destruct Hi as [Hn Hc Hq Hs Hcap Ho]. unfold take_packet in Ht. destruct (sendCh f) as [|p l] eqn:Hch; [done|].
    injection Ht as <-. split; cbn; try done; [by apply Forall_cons in Hc as [_ ?]| |cbn in Hcap; lia].
    rewrite Hq. cbn. by rewrite <-app_assoc.
  - destruct Hi as [Hn Hc Hq Hs Hcap Ho]. split; try done. cbn. rewrite map_size_empty. lia.
Qed.

Lemma fwd_inv_start garbage : fwd_inv (start garbage).
Proof. split; cbn; [lia|constructor|done|constructor|lia|by rewrite map_size_empty]. Qed.

Lemma fwd_inv_reached garbage f :
  rtc (fwd_step addr_String bufSize capacity IdleTimeout) (start garbage) f → fwd_inv f.
Proof. revert f. apply rtc_ind_r; [apply fwd_inv_start|]. intros f f' _ Hs Hi. by eapply fwd_inv_step. Qed.

(** C35. The server's UDP loop, under every interleaving with its sender and its
    janitor and whatever was in the buffer: what reaches the work connection,
    followed by what waits in the channel, is what was read, in order and intact
    although all packets are read into one buffer. Each packet is at most the
    size of the buffer, and the next one that is read is queued whole up to that
    size, or dropped, and queued only if its source is admitted. *)
Theorem user_packets_intact garbage f allowed now data raddr :
  rtc (fwd_step addr_String bufSize capacity IdleTimeout) (start garbage) f →
  queued f = sent f ++ (resolve f <$> sendCh f) ∧ Forall (λ e, (length e.1 ≤ bufSize)%nat) (queued f) ∧
  (length (sendCh f) ≤ capacity)%nat ∧
  let f' := read_round addr_String bufSize capacity allowed now f data raddr in
  queued f' = queued f ∨
  queued f' = queued f ++ [(take bufSize data, raddr)] ∧ (∀ a, raddr = Some a → allowed (addr_String raddr) = true).
Proof.
  intros Hr%fwd_inv_reached. split_and!; [apply Hr..|]. by apply read_round_queue.
Qed.

(** The number of UDP sessions that are counted as open is the number of
    sources that are tracked; a tick of the janitor leaves exactly those heard of
    within the idle timeout, and the end of the loop none. *)
Theorem udp_sessions_counted garbage f now :
  rtc (fwd_step addr_String bufSize capacity IdleTimeout) (start garbage) f →
  opened f = Z.of_nat (size (sessions f)) ∧
  opened (janitor IdleTimeout now f) = Z.of_nat (size (sessions (janitor IdleTimeout now f))) ∧
  (∀ key last, sessions (janitor IdleTimeout now f) !! key = Some last ↔
     sessions f !! key = Some last ∧ now - last ≤ IdleTimeout) ∧
  opened (finish f) = 0.
Proof.
  intros Hr%fwd_inv_reached. pose proof (fi_opened _ Hr) as Ho. split_and!; [done| | |cbn; lia].
  - apply (fi_opened _ (fwd_inv_step _ _ Hr (fwd_janitor _ _ _ _ now f))).
  - intros key last. cbn. rewrite map_lookup_filter_Some. unfold idle. cbn. rewrite Z.nlt_ge. done.
Qed.
End ServerProofs.

(** ** Theorems: the client *)

Section ClientProofs.
Context (addr_String : option UDPAddr → string) (header : option UDPAddr → option (list Byte.byte)).

(** The loop has opened a socket and not yet started its writer. *)
Definition opening (c : Cli) (s : nat) (k : string) : Prop :=
  ∃ p, loop c = Some p ∧ p_new p = true ∧ p_sock p = s ∧ p_key p = k.

Record cli_inv (c : Cli) : Prop := {
  ci_map k s : udpConnMap c !! k = Some s →
    owner c !! s = Some k ∧ ((∃ r, writers c !! s = Some r ∧ addr_String r = k) ∨ opening c s k);
  ci_writers s r : writers c !! s = Some r → owner c !! s = Some (addr_String r) ∧ udpConnMap c !! addr_String r = Some s;
  ci_loop p : loop c = Some p → owner c !! p_sock p = Some (p_key p) ∧ p_key p = addr_String (p_remote p) ∧
    (p_new p = true → writers c !! p_sock p = None ∧ udpConnMap c !! p_key p = Some (p_sock p));
  ci_fresh s k : owner c !! s = Some k → (s < nextSock c)%nat;
  ci_open s : s ∈ isOpen c → is_Some (writers c !! s) ∨ s ∈ closing c ∨ ∃ k, opening c s k;
  ci_service s k d : (s, k, d) ∈ toService c → owner c !! s = Some k;
  ci_user r d : (r, d) ∈ toUser c → ∃ s, (s, d) ∈ fromService c ∧ owner c !! s = Some (addr_String r)
}.

Lemma cli_inv_receive c dial m : cli_inv c → loop c = None → cli_inv (receive addr_String c dial m).
Proof.
  intros Hi Hl. unfold receive. set (key := addr_String (udp_RemoteAddr m)).
  destruct (udpConnMap c !! key) as [s|] eqn:Hm.
  - destruct Hi as [H1 H2 H3 H4 H5 H6 H7]. destruct (H1 _ _ Hm) as [Ho Hw].
    assert (∀ s k, ¬ opening c s k) as Hno by (intros ? ? (p & ? & _); congruence). split; cbn; try done.
    + intros k s' Hk. destruct (H1 k s' Hk) as [? [?|[]%Hno]]. auto.
    + by intros p [= <-].
    + intros s' [?|[?|[k []%Hno]]]%H5; auto.
  - destruct dial; [|done]. set (s := nextSock c).
    destruct Hi as [H1 H2 H3 H4 H5 H6 H7].
    assert (∀ s k, ¬ opening c s k) as Hno by (intros ? ? (p & ? & _); congruence).
    assert (owner c !! s = None) as Hos by (apply eq_None_not_Some; intros [k Hk%H4]; unfold s in Hk; lia).
    assert (writers c !! s = None) as Hws by (apply eq_None_not_Some; intros [r [Hr _]%H2]; congruence).
    assert (∀ s' k, owner c !! s' = Some k → <[s := key]> (owner c) !! s' = Some k) as Hold.
    { intros s' k Hk. rewrite lookup_insert_ne; [done|]. congruence. }
    split; cbn.
    + intros k s'. rewrite lookup_insert_Some. intros [[<- <-]|[Hne Hk]].
      * rewrite lookup_insert_eq. split; [done|]. right. by eexists.
      * destruct (H1 k s' Hk) as [? [?|[]%Hno]]. split; [by apply Hold|by left].
    + intros s' r Hr. destruct (H2 _ _ Hr) as [Ho Hk]. split; [by apply Hold|]. rewrite lookup_insert_ne; [done|]. congruence.
    + intros p [= <-]. cbn. rewrite !lookup_insert_eq. done.
    + intros s' k. rewrite lookup_insert_Some. intros [[<- _]|[_ Hk%H4]]; lia.
    + intros s' [->%elem_of_singleton|Hs]%elem_of_union; [right; right; exists key; by eexists|].
      destruct (H5 _ Hs) as [?|[?|[k []%Hno]]]; auto.
    + intros s' k d Hin. by eapply Hold, H6.
    + intros r d Hin. destruct (H7 _ _ Hin) as (s' & ? & ?). eauto.
Qed.

Lemma cli_inv_write c p ok : cli_inv c → loop c = Some p → cli_inv (write header c p ok).
Proof.
  intros [H1 H2 H3 H4 H5 H6 H7] Hl. unfold write. set (ok' := ok && _). destruct (H3 _ Hl) as (Ho & Hk & Hnew).
  assert (∀ s k, opening c s k → p_new p = true ∧ p_sock p = s ∧ p_key p = k) as Hop.
  { intros s k (q & Hq & ? & ? & ?). simplify_eq. done. }
  assert (∀ s r, writers c !! s = Some r →
    (if p_new p then <[p_sock p := p_remote p]> (writers c) else writers c) !! s = Some r) as Hkeep.
  { intros s r Hr. destruct (p_new p); [|done]. rewrite lookup_insert_ne; [done|]. intros <-. destruct Hnew; [done|]. congruence. }
  split; cbn.
  - intros k s Hs. destruct (H1 _ _ Hs) as [? [(r & Hr & ?)|(Hn & <- & <-)%Hop]]; (split; [done|]); left.
    + exists r. split; [by apply Hkeep|done].
    + rewrite Hn, lookup_insert_eq. eauto.
  - intros s r Hr. destruct (p_new p) eqn:Hn; [|by apply H2]. apply lookup_insert_Some in Hr as [[<- <-]|[_ Hr]]; [|by apply H2].
    rewrite <-Hk. destruct Hnew as [_ ?]; done.
  - done.
  - apply H4.
  - intros s Hs. assert (s ∈ isOpen c) as Hs' by (destruct ok'; set_solver).
    destruct (H5 _ Hs') as [[r Hr]|[?|[k (Hn & <- & _)%Hop]]]; [left; eauto|auto|]. left. rewrite Hn, lookup_insert_eq. eauto.
  - intros s k d Hin. destruct ok'; [|by eapply H6]. apply elem_of_app in Hin as [Hin|Hin]; [by eapply H6|].
    apply list_elem_of_singleton in Hin. by simplify_eq.
  - apply H7.
Qed.

Lemma cli_inv_reply c s raddr data room : cli_inv c → writers c !! s = Some raddr → cli_inv (reply c s raddr data room).
Proof.
  intros [H1 H2 H3 H4 H5 H6 H7] Hw. split; cbn; try done. intros r d Hin. setoid_rewrite elem_of_app.
  assert ((r, d) ∈ toUser c ∨ (r, d) = (raddr, data)) as [(s' & ? & ?)%H7|[= -> ->]].
  { destruct room; [|by left]. by rewrite elem_of_app, list_elem_of_singleton in Hin. }
  - eauto.
  - exists s. split; [right; by apply list_elem_of_singleton|]. by apply H2.
Qed.

Lemma cli_inv_writer_end c s raddr :
  cli_inv c → writers c !! s = Some raddr → cli_inv (writer_end addr_String c s raddr).
Proof.
  intros [H1 H2 H3 H4 H5 H6 H7] Hw. destruct (H2 _ _ Hw) as [Ho Hm]. split; cbn; try done.
  - intros k s' [Hne Hk]%lookup_delete_Some. destruct (H1 _ _ Hk) as [Ho' [(r & Hr & Heq)|Hop]]; (split; [done|]).
    + left. exists r. rewrite lookup_delete_ne; [done|]. intros <-. congruence.
    + right. done.
  - intros s' r [Hne Hr]%lookup_delete_Some. destruct (H2 _ _ Hr) as [Ho' Hm']. split; [done|].
    rewrite lookup_delete_ne; [done|]. intros Heq. rewrite Heq in Hm. congruence.
  - intros p Hp. destruct (H3 _ Hp) as (? & ? & Hnew). split_and!; [done..|]. intros Hn. destruct (Hnew Hn) as [Hwn Hk].
    split; [by rewrite lookup_delete_None; right|]. rewrite lookup_delete_ne; [done|]. intros Heq. rewrite Heq in Hm. congruence.
  - intros s' Hs. destruct (decide (s' = s)) as [->|Hne]; [right; left; set_solver|].
    destruct (H5 _ Hs) as [[r Hr]|[Hc|[k Hop]]]; [left|right; left; set_solver|right; right; by exists k].
    exists r. by rewrite lookup_delete_ne.
Qed.

Lemma cli_inv_writer_close c s : cli_inv c → cli_inv (writer_close c s).
Proof.
  intros [H1 H2 H3 H4 H5 H6 H7]. split; cbn; try done.
  intros s' [Hs Hne]%elem_of_difference. destruct (H5 _ Hs) as [?|[?|?]]; [by left|right; left; set_solver|by right; right].
Qed.

Lemma cli_inv_reached c : rtc (cli_step addr_String header) NewForwarder c → cli_inv c.
Proof.
  revert c. apply rtc_ind_r.
  - split; cbn; try (intros *; rewrite lookup_empty; done); try done; set_solver.
  - intros c c' _ Hs Hi. destruct Hs;
      [by apply cli_inv_receive|by apply cli_inv_write|by apply cli_inv_reply|by apply cli_inv_writer_end|by apply cli_inv_writer_close].
Qed.

(** C34. The client keeps the users of a UDP proxy apart: through any
    interleaving of the forwarding loop with the readers of its sockets, a
    datagram passed back to a user was sent by the service on a socket on which
    only packets of that user have ever been written to the service. Each user
    has at most one socket with a reader, and when the loop is between two packets
    every open socket has its reader or is about to be closed. *)
Theorem udp_users_isolated c :
  rtc (cli_step addr_String header) NewForwarder c →
  (∀ r d, (r, d) ∈ toUser c → ∃ s, (s, d) ∈ fromService c ∧ ∀ k x, (s, k, x) ∈ toService c → k = addr_String r) ∧
  (∀ s s' r r', writers c !! s = Some r → writers c !! s' = Some r' → addr_String r = addr_String r' → s = s') ∧
  (loop c = None → isOpen c ⊆ dom (writers c) ∪ closing c).
Proof.
  intros Hi%cli_inv_reached. split_and!.
  - intros r d (s & Hs & Ho)%(ci_user _ Hi). exists s. split; [done|]. intros k x Hk%(ci_service _ Hi). congruence.
  - intros s s' r r' [_ H1]%(ci_writers _ Hi) [_ H2]%(ci_writers _ Hi) Heq. rewrite Heq in H1. congruence.
  - intros Hl s [Hw|[Hc|(k & p & Hp & _)]]%(ci_open _ Hi); [apply elem_of_union_l; by apply elem_of_dom|set_solver|congruence].
Qed.
End ClientProofs.

(** ** Examples *)

Definition demo_string (r : option UDPAddr) : string :=
  match r with None => "<nil>" | Some a => Itoa (Msg.ua_Port a) end.
Definition demo_addr (port : Z) : option UDPAddr := Some (Msg.mkUDPAddr [] port "").

(** Two packets read into one buffer of two bytes. *)
Definition demo_f1 : Fwd :=
  read_round demo_string 2 8 (λ _, true) 5 (start []) [Byte.x01; Byte.x02; Byte.x03] (demo_addr 7).
Definition demo_fwd : Fwd := read_round demo_string 2 8 (λ _, true) 6 demo_f1 [Byte.x04] (demo_addr 9).

Lemma demo_fwd_reached : rtc (fwd_step demo_string 2 8 30) (start []) demo_fwd.
Proof.
  eapply rtc_l; [apply (fwd_read _ _ _ _ (λ _, true) 5 (start []) [Byte.x01; Byte.x02; Byte.x03] (demo_addr 7))|].
  apply rtc_once, (fwd_read _ _ _ _ (λ _, true) 6 demo_f1 [Byte.x04] (demo_addr 9)).
Qed.

Lemma user_packets_intact_witness :
  resolve demo_fwd <$> sendCh demo_fwd = [([Byte.x01; Byte.x02], demo_addr 7); ([Byte.x04], demo_addr 9)] ∧
  queued demo_fwd = sent demo_fwd ++ (resolve demo_fwd <$> sendCh demo_fwd).
Proof.
  split; [by vm_compute|].
  apply (user_packets_intact demo_string 2 8 30 [] demo_fwd (λ _, true) 7 [] None demo_fwd_reached).
Defined.

Lemma udp_sessions_counted_witness :
  sessions (janitor 30 36 demo_fwd) !! "9" = Some 6 ∧ opened (janitor 30 36 demo_fwd) = 1.
Proof.
  destruct (udp_sessions_counted demo_string 2 8 30 [] demo_fwd 36 demo_fwd_reached) as (_ & Ho & Hs & _).
  split; [apply Hs; by vm_compute|]. rewrite Ho. by vm_compute.
Defined.

Definition demo_c1 : Cli := receive demo_string NewForwarder true (mkUDPPacket [Byte.x01] None (demo_addr 7)).
Definition demo_pending : Pending := mkPending 0 "7" (demo_addr 7) [Byte.x01] true.
Definition demo_c2 : Cli := write (λ _, None) demo_c1 demo_pending true.
Definition demo_cli : Cli := reply demo_c2 0 (demo_addr 7) [Byte.x02] true.

Lemma demo_cli_reached : rtc (cli_step demo_string (λ _, None)) NewForwarder demo_cli.
Proof.
  eapply rtc_l; [apply (cli_receive _ _ NewForwarder true (mkUDPPacket [Byte.x01] None (demo_addr 7)) eq_refl)|].
  eapply rtc_l; [apply (cli_write _ _ demo_c1 demo_pending true); vm_compute; reflexivity|].
  apply rtc_once, (cli_reply _ _ demo_c2 0 (demo_addr 7) [Byte.x02] true); [vm_compute; reflexivity|].
  apply (bool_decide_eq_true_1 (0%nat ∈ isOpen demo_c2)). vm_compute. reflexivity.
Qed.

Lemma udp_users_isolated_witness :
  ∃ s, (s, [Byte.x02]) ∈ fromService demo_cli ∧ ∀ k x, (s, k, x) ∈ toService demo_cli → k = "7".
Proof.
  destruct (udp_users_isolated demo_string (λ _, None) demo_cli demo_cli_reached) as [H _].
  apply (H (demo_addr 7)). vm_compute. left.
Defined.

End UDPForward.
