(* ===== verification/Backoff.v ===== *)
(** Retrying: the backoff manager of pkg/util/wait/backoff.go with its loop, and
    the login loops of the client that use it ([loopLoginUntilSuccess] and the
    options of [keepControllerWorking] in client/service.go).

    Durations and times are in nanoseconds. Multiplication by a floating-point
    factor and random jitter are parameters: functions of the duration. *)
From Stdlib Require Import ZArith Lia Ascii String.
From stdpp Require Import base gmap strings list fin_maps relations.
From S2P Require Import Prelude GoLib.

Local Open Scope Z_scope.
Local Open Scope frp_scope.

Module Backoff.

Definition Second : Z := 10 ^ 9.
Definition Millisecond : Z := 10 ^ 6.
Definition Minute : Z := 60 * Second.

(** ** The manager *)

(** The factor and the jitters are used in [scale], and in the functions of each
    call; only whether they are set is kept. *)
Record FastBackoffOptions := mkOptions {
  Duration : Z; Factor_set : bool; Jitter_set : bool; MaxDuration : Z; InitDurationIfFail : Z;
  FastRetryCount : Z; FastRetryDelay : Z; FastRetryWindow : Z }.

(** The zero time is [None]. *)
Record fastBackoffImpl := mkBackoff {
  lastCalledTime : option Z; consecutiveErrCount : Z; fastRetryCutoffTime : option Z; countsInFastRetryWindow : Z }.

Definition NewFastBackoffManager : fastBackoffImpl := mkBackoff None 0 None 1.

Definition EmptyOr (v fallback : Z) : Z := if v =? 0 then fallback else v.

Definition After (now : Z) (t : option Z) : bool := match t with None => true | Some t => t <? now end.

Section Manager.
Variable options : FastBackoffOptions.
(** [time.Duration(float64(duration) * Factor)] *)
Variable scale : Z → Z.

(** A call: the time, whether the function failed, and the outcomes of the two
    jitters. *)
Record Call := mkCall { now : Z; failed : bool; fastJitter : Z → Z; jitter : Z → Z }.

(** The counters of the fast retries: the new state, and whether it is one. *)
Definition fast_retry (f : fastBackoffImpl) (c : Call) : fastBackoffImpl * bool :=
  if (0 <? FastRetryCount options) && failed c then
    let n := countsInFastRetryWindow f + 1 in
    if n <=? FastRetryCount options then
      (mkBackoff (lastCalledTime f) (consecutiveErrCount f) (fastRetryCutoffTime f) n, true)
    else if After (now c) (fastRetryCutoffTime f) then
      (mkBackoff (lastCalledTime f) (consecutiveErrCount f) (Some (now c + FastRetryWindow options)) 0, false)
    else (mkBackoff (lastCalledTime f) (consecutiveErrCount f) (fastRetryCutoffTime f) n, false)
  else (f, false).

(** The duration after a failure that is not retried fast. *)
Definition slow (f : fastBackoffImpl) (previousDuration : Z) (c : Call) : Z :=
  let duration := if consecutiveErrCount f =? 1 then EmptyOr (InitDurationIfFail options) previousDuration else previousDuration in
  let duration := EmptyOr duration Second in
  let duration := if Factor_set options then scale duration else duration in
  let duration := if Jitter_set options then jitter c duration else duration in
  if (0 <? MaxDuration options) && (MaxDuration options <? duration) then MaxDuration options else duration.

(** [Backoff]: also whether it is a fast retry. *)
Definition Backoff (f : fastBackoffImpl) (previousDuration : Z) (c : Call) : fastBackoffImpl * Z * bool :=
  match lastCalledTime f with
  | None => (mkBackoff (Some (now c)) (consecutiveErrCount f) (fastRetryCutoffTime f) (countsInFastRetryWindow f),
             Duration options, false)
  | Some _ =>
      let f := mkBackoff (Some (now c)) (if failed c then consecutiveErrCount f + 1 else 0) (fastRetryCutoffTime f)
                 (countsInFastRetryWindow f) in
      let '(f, fast) := fast_retry f c in
      if fast then (f, fastJitter c (FastRetryDelay options), true)
      else if failed c then (f, slow f previousDuration c, false)
      else (f, Duration options, false)
  end.

(** The calls of a sliding [BackoffUntil]: the delays, with the time and whether
    they are fast. *)
Fixpoint delays (f : fastBackoffImpl) (previousDuration : Z) (calls : list Call) : list (Z * Z * bool) :=
  match calls with
  | [] => []
  | c :: calls =>
      let '(f, d, fast) := Backoff f previousDuration c in (now c, d, fast) :: delays f d calls
  end.
End Manager.

(** ** The login loop of the client *)

(** [consecutiveFailures] is of the loop, the run id of the service; [cancelled]
    is its context. *)
Record Login := mkLogin { runID : string; consecutiveFailures : Z; cancelled : bool; connected : bool }.

Section LoginLoop.
(** The outcome of the [i]-th dial with a run id: the run id of the session. *)
Variable Dial : nat → string → res string string.
Variable firstLoginExit : bool.

(** [loginFunc]; whether it is done. [NewControl], called after a dial, never
    fails. *)
Definition loginFunc (i : nat) (s : Login) : Login * bool :=
  match Dial i (runID s) with
  | Err _ =>
      let n := consecutiveFailures s + 1 in
      (mkLogin (if negb (String.eqb (runID s) "") && (3 <=? n) then "" else runID s) n
         (cancelled s || firstLoginExit) (connected s), false)
  | Ok r => (mkLogin r 0 (cancelled s) true, true)
  end.

(** [BackoffUntil] with [loginFunc], for [fuel] rounds from the [i]-th: the
    state, whether it returned, and the rounds made. *)
Fixpoint login_rounds (fuel i : nat) (s : Login) : Login * bool * nat :=
  match fuel with
  | O => (s, false, i)
  | S fuel =>
      if cancelled s then (s, true, i)
      else let '(s, done) := loginFunc i s in
           if done then (s, true, S i) else if cancelled s then (s, true, S i) else login_rounds fuel (S i) s
  end.

Definition loopLoginUntilSuccess (fuel : nat) (r : string) : Login * bool * nat :=
  login_rounds fuel 0 (mkLogin r 0 false false).
End LoginLoop.

(** The options of [keepControllerWorking] and of [loopLoginUntilSuccess]. *)
Definition keepController_options : FastBackoffOptions :=
  mkOptions Second true true (20 * Second) 0 3 (200 * Millisecond) Minute.
Definition login_options (maxInterval : Z) : FastBackoffOptions := mkOptions Second true true maxInterval 0 0 0 0.

(** ** Theorems: fast retries *)

Section Fast.
Context (options : FastBackoffOptions) (scale : Z → Z).

Definition count_fast (l : list (Z * Z * bool)) : Z := Z.of_nat (length (filter (λ e, e.2 = true) l)).

Lemma count_fast_cons e l : count_fast (e :: l) = (if e.2 then 1 else 0) + count_fast l.
Proof. unfold count_fast. rewrite filter_cons. destruct (e.2); case_decide; cbn [length]; try done; lia. Qed.

(** What a call does to the counters. *)
Lemma Backoff_counters f prev c f' d fast :
  0 ≤ countsInFastRetryWindow f → Backoff options scale f prev c = (f', d, fast) →
  let n := countsInFastRetryWindow f in let n' := countsInFastRetryWindow f' in
  fastRetryCutoffTime f' = fastRetryCutoffTime f ∧ (fast = true ∧ n' = n + 1 ∧ n' ≤ FastRetryCount options ∨ fast = false ∧ n ≤ n') ∨
  fastRetryCutoffTime f' = Some (now c + FastRetryWindow options) ∧ After (now c) (fastRetryCutoffTime f) = true ∧
    fast = false ∧ n' = 0 ∧ FastRetryCount options ≤ n.
Proof.
  intros Hn. unfold Backoff. destruct (lastCalledTime f) as [t|]; [|intros [= <- <- <-]; cbn; left; split; [done|right; split; [done|lia]]].
  unfold fast_retry. cbn. destruct ((0 <? FastRetryCount options) && failed c) eqn:Hf.
  - destruct (Z.leb_spec (countsInFastRetryWindow f + 1) (FastRetryCount options)) as [Hle|Hgt].
    + intros [= <- <- <-]. cbn. left. split; [done|]. left. lia.
    + apply andb_true_iff in Hf as [_ ->]. destruct (After (now c) (fastRetryCutoffTime f)) eqn:Ha; intros [= <- <- <-]; cbn.
      * right. split_and!; try done. lia.
      * left. split; [done|right]. split; [done|lia].
  - destruct (failed c); intros [= <- <- <-]; cbn; left; (split; [done|right; split; [done|lia]]).
Qed.

Lemma Backoff_nonneg f prev c f' d fast :
  0 ≤ countsInFastRetryWindow f → Backoff options scale f prev c = (f', d, fast) → 0 ≤ countsInFastRetryWindow f'.
Proof. intros Hn Hb. destruct (Backoff_counters _ _ _ _ _ _ Hn Hb) as [[_ [?|?]]|?]; lia. Qed.

(** While the cutoff is not over there is no reset. *)
Lemma fast_before_cutoff T f prev calls :
  0 ≤ countsInFastRetryWindow f → fastRetryCutoffTime f = Some T → Forall (λ c, now c ≤ T) calls →
  count_fast (delays options scale f prev calls) ≤ Z.max 0 (FastRetryCount options - countsInFastRetryWindow f).
Proof.
  intros Hn HT Hc. revert f prev Hn HT. induction Hc as [|c calls Hle _ IH]; intros f prev Hn HT; cbn [delays]; [change (count_fast []) with 0; lia|].
  destruct (Backoff options scale f prev c) as [[f' d] fast] eqn:Hb. rewrite count_fast_cons. cbn [snd].
  pose proof (Backoff_nonneg _ _ _ _ _ _ Hn Hb) as Hn'.
  destruct (Backoff_counters _ _ _ _ _ _ Hn Hb) as [[Hcut Hcase]|(_ & Ha & _)].
  - specialize (IH f' d Hn' ltac:(congruence)). destruct Hcase as [(-> & ? & ?)|(-> & ?)]; lia.
  - rewrite HT in Ha. cbn in Ha. lia.
Qed.

(** In a window there is one reset at most. *)
Lemma fast_in_window t f prev calls :
  0 ≤ FastRetryCount options → 0 ≤ countsInFastRetryWindow f →
  Forall (λ c, t ≤ now c ≤ t + FastRetryWindow options) calls →
  count_fast (delays options scale f prev calls) ≤
  Z.max 0 (FastRetryCount options - countsInFastRetryWindow f) + FastRetryCount options.
Proof.
  intros HF Hn Hc. revert f prev Hn. induction Hc as [|c calls Hle Hcalls IH]; intros f prev Hn; cbn [delays]; [change (count_fast []) with 0; lia|].
  destruct (Backoff options scale f prev c) as [[f' d] fast] eqn:Hb. rewrite count_fast_cons. cbn [snd].
  pose proof (Backoff_nonneg _ _ _ _ _ _ Hn Hb) as Hn'.
  destruct (Backoff_counters _ _ _ _ _ _ Hn Hb) as [[Hcut Hcase]|(Hcut & _ & -> & Hz & Hge)].
  - specialize (IH f' d Hn'). destruct Hcase as [(-> & ? & ?)|(-> & ?)]; lia.
  - pose proof (fast_before_cutoff _ f' d calls Hn' Hcut) as H0. rewrite Hz in H0.
    assert (Forall (λ c', now c' ≤ now c + FastRetryWindow options) calls) as Hall.
    { eapply Forall_impl; [exact Hcalls|]. cbn. lia. }
    specialize (H0 Hall). lia.
Qed.

(** The state after some calls. *)
Fixpoint after_calls (f : fastBackoffImpl) (prev : Z) (calls : list Call) : fastBackoffImpl * Z :=
  match calls with
  | [] => (f, prev)
  | c :: calls => let '(f, d, _) := Backoff options scale f prev c in after_calls f d calls
  end.

Lemma delays_app f prev pre calls :
  0 ≤ countsInFastRetryWindow f →
  delays options scale f prev (pre ++ calls) =
    delays options scale f prev pre ++ delays options scale (after_calls f prev pre).1 (after_calls f prev pre).2 calls ∧
  0 ≤ countsInFastRetryWindow (after_calls f prev pre).1.
Proof.
  revert f prev. induction pre as [|c pre IH]; intros f prev Hn; [done|]. cbn.
  destruct (Backoff options scale f prev c) as [[f' d] fast] eqn:Hb.
  destruct (IH f' d (Backoff_nonneg _ _ _ _ _ _ Hn Hb)) as [-> ?]. done.
Qed.

Lemma length_delays f prev calls : length (delays options scale f prev calls) = length calls.
Proof.
  revert f prev. induction calls as [|c calls IH]; intros f prev; cbn; [done|].
  destruct (Backoff options scale f prev c) as [[f' d] fast]. cbn. by rewrite IH.
Qed.

(** C38. Whatever calls come before, the backoff manager allows at most twice the
    number of fast retries in any time window of its length. *)
Theorem fast_retries_bounded prev pre calls t :
  0 ≤ FastRetryCount options → Forall (λ c, t ≤ now c ≤ t + FastRetryWindow options) calls →
  count_fast (drop (length pre) (delays options scale NewFastBackoffManager prev (pre ++ calls))) ≤ 2 * FastRetryCount options.
Proof.
  intros HF Hc. destruct (delays_app NewFastBackoffManager prev pre calls) as [-> Hn]; [by vm_compute|].
  rewrite drop_app_length' by (symmetry; apply length_delays).
  pose proof (fast_in_window t _ (after_calls NewFastBackoffManager prev pre).2 calls HF Hn Hc). lia.
Qed.
End Fast.

(** ** Theorems: delays *)

(** The laws of the arithmetic on durations up to a bound: multiplying by the
    factor and adding jitter give positive durations. *)
Definition call_ok (options : FastBackoffOptions) (B : Z) (c : Call) : Prop :=
  (∀ d, 0 < d → 0 < jitter c d) ∧ 0 < fastJitter c (FastRetryDelay options) ≤ B.

(** Every delay of the backoff loop is positive, which a ticker requires, and
    none exceeds the bound: after a failure the maximal duration, after a success
    the configured one, and the jittered one of fast retries. *)
Theorem delays_positive options scale B calls prev :
  0 < Duration options ≤ B → 0 < MaxDuration options ≤ B → 0 ≤ InitDurationIfFail options ≤ B → Second ≤ B →
  0 ≤ prev ≤ B → (∀ d, 0 < d ≤ B → 0 < scale d) → Forall (call_ok options B) calls →
  Forall (λ e, 0 < e.1.2 ≤ B ∧ (e.2 = false → e.1.2 ≤ Z.max (MaxDuration options) (Duration options)))
    (delays options scale NewFastBackoffManager prev calls).
Proof.
  intros HD HM HI HS Hprev Hscale Hc. generalize NewFastBackoffManager as f. revert prev Hprev.
  induction Hc as [|c calls [Hj Hfast] _ IH]; intros prev Hprev f; cbn; [constructor|].
  destruct (Backoff options scale f prev c) as [[f' d] fast] eqn:Hb.
  assert (0 < d ≤ B ∧ (fast = false → d ≤ Z.max (MaxDuration options) (Duration options))) as [Hd Hdm].
  { unfold Backoff in Hb. destruct (lastCalledTime f); [|injection Hb as <- <- <-; split; [done|lia]].
    destruct (fast_retry _ _ _) as [f1 [|]]; [injection Hb as <- <- <-; split; done|].
    destruct (failed c); injection Hb as <- <- <-; [|split; [done|lia]].
    unfold slow. set (d0 := EmptyOr (if _ =? 1 then _ else _) Second).
    assert (0 < d0 ≤ B) as Hd0.
    { unfold d0, EmptyOr, Second in *. destruct (consecutiveErrCount f1 =? 1);
        repeat match goal with |- context [if ?x =? 0 then _ else _] => destruct (Z.eqb_spec x 0) end; lia. }
    set (d1 := if Factor_set options then scale d0 else d0). assert (0 < d1) as Hd1 by (unfold d1; destruct (Factor_set options); [by apply Hscale|lia]).
    set (d2 := if Jitter_set options then jitter c d1 else d1). assert (0 < d2) as Hd2 by (unfold d2; destruct (Jitter_set options); [by apply Hj|lia]).
    destruct (Z.ltb_spec 0 (MaxDuration options)); [|lia]. cbn. destruct (Z.ltb_spec (MaxDuration options) d2); lia. }
  constructor; [done|]. apply IH. lia.
Qed.

(** ** Theorems: logging in *)

(** The run id of the [i]-th attempt while all before it fail. *)
Definition attempt_id (r : string) (i : nat) : string := if (i <? 3)%nat then r else "".

Section LoginProofs.
Context (Dial : nat → string → res string string).

Lemma login_failing r k i fuel :
  (∀ j, (j < k)%nat → ∃ e, Dial j (attempt_id r j) = Err e) → (i ≤ k)%nat → (k - i < fuel)%nat →
  login_rounds Dial false fuel i (mkLogin (attempt_id r i) (Z.of_nat i) false false) =
  login_rounds Dial false (fuel - (k - i)) k (mkLogin (attempt_id r k) (Z.of_nat k) false false).
Proof.
  intros Hfail Hle Hfuel. remember (k - i)%nat as n eqn:Hk. revert i fuel Hk Hle Hfuel.
  induction n as [|n IH]; intros i fuel Hk Hle Hfuel.
  { assert (i = k) as -> by lia. by rewrite Nat.sub_0_r. }
  destruct fuel as [|fuel]; [lia|]. cbn [login_rounds cancelled]. unfold loginFunc. cbn [runID consecutiveFailures cancelled connected].
  destruct (Hfail i) as [e ->]; [lia|]. cbn [negb orb cancelled].
  assert ((if negb (String.eqb (attempt_id r i) "") && (3 <=? Z.of_nat i + 1) then "" else attempt_id r i) = attempt_id r (S i)) as ->.
  { unfold attempt_id. destruct (Nat.ltb_spec i 3), (Nat.ltb_spec (S i) 3), (Z.leb_spec 3 (Z.of_nat i + 1)); try lia;
      destruct (String.eqb_spec r ""); subst; done. }
  replace (Z.of_nat i + 1) with (Z.of_nat (S i)) by lia. cbn [Nat.sub]. by apply IH; lia.
Qed.

(** C37. The client's login loop ends with the first attempt that succeeds, where
    the first three use its run id and the later ones none: a server that goes on
    refusing the old run id does not keep the client out for good. With
    [loginFailExit] it ends with the first failure, and no more attempts. *)
Theorem login_recovers r k r' fuel :
  (∀ j, (j < k)%nat → ∃ e, Dial j (attempt_id r j) = Err e) → Dial k (attempt_id r k) = Ok r' → (k < fuel)%nat →
  loopLoginUntilSuccess Dial false fuel r = (mkLogin r' 0 false true, true, S k) ∧
  (∀ e, Dial 0 r = Err e →
     ∃ s, loopLoginUntilSuccess Dial true fuel r = (s, true, 1%nat) ∧ cancelled s = true ∧ connected s = false).
Proof.
  intros Hfail Hok Hfuel. split.
  - unfold loopLoginUntilSuccess. etrans; [apply (login_failing r k 0 fuel Hfail); lia|].
    destruct (fuel - (k - 0))%nat as [|n] eqn:Hn; [lia|]. cbn. unfold loginFunc. cbn. by rewrite Hok.
  - intros e He. destruct fuel as [|fuel]; [lia|]. unfold loopLoginUntilSuccess. cbn. unfold loginFunc. cbn. rewrite He. cbn. eauto.
Qed.
End LoginProofs.

(** ** Examples *)

Definition demo_call (t : Z) : Call := mkCall t true id id.

(** One call before, and seven failures in a minute. *)
Definition demo_pre : list Call := [demo_call 1; demo_call 2; demo_call 3; demo_call 4].
Definition demo_calls : list Call :=
  [demo_call Minute; demo_call Minute; demo_call Minute; demo_call (Minute + 5); demo_call (Minute + 6);
   demo_call (Minute + 7); demo_call (Minute + 8)].

Lemma fast_retries_bounded_witness :
  count_fast (drop 4 (delays keepController_options (λ d, 2 * d) NewFastBackoffManager 0 (demo_pre ++ demo_calls))) ≤ 6.
Proof.
  apply (fast_retries_bounded keepController_options (λ d, 2 * d) 0 demo_pre demo_calls Minute); [done|].
  repeat (apply Forall_cons_2; [by vm_compute|]). apply Forall_nil_2.
Defined.

(** With the options of [keepControllerWorking] six reconnections follow one
    another at the short interval within one minute, where its comment promises
    three: the count starts anew whenever the window is over, also in the middle
    of a series of failures. *)
Theorem six_fast_reconnections :
  ∃ pre calls, Forall (λ c, Minute ≤ now c ≤ 2 * Minute) calls ∧
  count_fast (drop (length pre) (delays keepController_options (λ d, 2 * d) NewFastBackoffManager 0 (pre ++ calls))) = 6.
Proof. exists demo_pre, demo_calls. split; [|by vm_compute].
  repeat (apply Forall_cons_2; [by vm_compute|]). apply Forall_nil_2.
Qed.

Lemma delays_positive_witness :
  Forall (λ e, 0 < e.1.2 ≤ 20 * Second ∧ (e.2 = false → e.1.2 ≤ Z.max (20 * Second) Second))
    (delays keepController_options (λ d, 2 * d) NewFastBackoffManager 0 [demo_call 1; demo_call 2]).
Proof.
  apply (delays_positive keepController_options (λ d, 2 * d) (20 * Second)); [done..| |].
  - intros d Hd. lia.
  - repeat constructor; cbn; try done; intros; lia.
Defined.

Lemma login_recovers_witness :
  loopLoginUntilSuccess (λ _ r, if String.eqb r "" then Ok "new" else Err "stale") false 9 "old" =
  (mkLogin "new" 0 false true, true, 4%nat).
Proof.
  refine (proj1 (login_recovers (λ _ r, if String.eqb r "" then Ok "new" else Err "stale") "old" 3 "new" 9 _ _ _)).
  - intros j Hj. exists "stale". unfold attempt_id. by rewrite (proj2 (Nat.ltb_lt _ _)).
  - done.
  - lia.
Defined.

End Backoff.
