(* ===== verification/FeatureGate.v ===== *)
(** Feature gates, pkg/policy/featuregate/feature_gate.go, and the features that
    must be allowed explicitly, pkg/policy/security/unsafe.go.

    The two maps of a gate are replaced as a whole under a lock. A loop over a Go
    map visits its entries in an arbitrary order: the list of its entries, in that
    order, is an argument. *)
From Stdlib Require Import ZArith Lia Ascii String Sorting.Sorted.
From stdpp Require Import base gmap strings list sorting fin_maps relations.
From S2P Require Import Prelude GoLib.

Local Open Scope frp_scope.

Module FeatureGate.

Definition Alpha : string := "ALPHA".
Definition Beta : string := "BETA".
Definition GA : string := "".

Record FeatureSpec := mkSpec { Default : bool; LockToDefault : bool; Stage : string }.

#[export] Instance FeatureSpec_eq_dec : EqDecision FeatureSpec.
Proof. solve_decision. Defined.

Definition VirtualNet : string := "VirtualNet".
Definition defaultFeatures : gmap string FeatureSpec := {[VirtualNet := mkSpec false false Alpha]}.

Record featureGate := mkGate { known : gmap string FeatureSpec; enabled : gmap string bool; closed : bool }.

Definition NewFeatureGate : featureGate := mkGate defaultFeatures ∅ false.

Inductive error := ErrUnrecognized (k : string) | ErrLocked (k : string) | ErrClosed | ErrDifferentSpec (k : string).

(** The loop of [SetFromMap] on a copy of the settings. *)
Fixpoint set_loop (known : gmap string FeatureSpec) (enabled : gmap string bool) (m : list (string * bool)) :
    res error (gmap string bool) :=
  match m with
  | [] => Ok enabled
  | (k, v) :: m =>
      match known !! k with
      | None => Err (ErrUnrecognized k)
      | Some spec =>
          if LockToDefault spec && negb (Bool.eqb (Default spec) v) then Err (ErrLocked k)
          else set_loop known (<[k := v]> enabled) m
      end
  end.

Definition SetFromMap (f : featureGate) (m : list (string * bool)) : featureGate * res error unit :=
  match set_loop (known f) (enabled f) m with
  | Err e => (f, Err e)
  | Ok enabled => (mkGate (known f) enabled (closed f), Ok tt)
  end.

Fixpoint add_loop (known : gmap string FeatureSpec) (features : list (string * FeatureSpec)) :
    res error (gmap string FeatureSpec) :=
  match features with
  | [] => Ok known
  | (name, spec) :: features =>
      match known !! name with
      | Some existingSpec => if decide (existingSpec = spec) then add_loop known features else Err (ErrDifferentSpec name)
      | None => add_loop (<[name := spec]> known) features
      end
  end.

Definition Add (f : featureGate) (features : list (string * FeatureSpec)) : featureGate * res error unit :=
  if closed f then (f, Err ErrClosed)
  else match add_loop (known f) features with
       | Err e => (f, Err e)
       | Ok known => (mkGate known (enabled f) (closed f), Ok tt)
       end.

Definition Enabled (f : featureGate) (key : string) : bool :=
  match enabled f !! key with
  | Some v => v
  | None => match known f !! key with Some spec => Default spec | None => false end
  end.

(** [sort.Strings] *)
Definition sort_Strings (l : list string) : list string := merge_sort String.le l.

Definition format_bool (b : bool) : string := if b then "true" else "false".

(** [String] and [KnownFeatures], visiting the maps as the lists say. *)
Definition gate_String (entries : list (string * bool)) : string :=
  Join (sort_Strings ((λ '(k, v), k +:+ "=" +:+ format_bool v) <$> entries)) ",".

Definition KnownFeatures (entries : list (string * FeatureSpec)) : list string :=
  sort_Strings ((λ '(k, v), k +:+ "=true|false (" +:+ Stage v +:+ " - default=" +:+ format_bool (Default v) +:+ ")") <$>
    filter (λ e, Stage e.2 ≠ GA) entries).

(** ** Unsafe features *)

Definition NewUnsafeFeatures (allowed : list string) : gset string := list_to_set allowed.

(** A nil pointer is [None]. *)
Definition IsEnabled (u : option (gset string)) (feature : string) : bool :=
  match u with None => false | Some features => bool_decide (feature ∈ features) end.

(** ** Theorems *)

(** What may be set. *)
Definition settable (known : gmap string FeatureSpec) (e : string * bool) : Prop :=
  ∃ spec, known !! e.1 = Some spec ∧ (LockToDefault spec = true → Default spec = e.2).

Lemma set_loop_spec known enabled m :
  (is_ok (set_loop known enabled m) = true ↔ Forall (settable known) m) ∧
  (∀ enabled', set_loop known enabled m = Ok enabled' → NoDup m.*1 → enabled' = list_to_map m ∪ enabled).
Proof.
  revert enabled. induction m as [|[k v] m IH]; intros enabled; cbn [set_loop].
  { split; [done|]. intros ? [= <-] _. symmetry. apply (left_id_L ∅ (∪)). }
  destruct (known !! k) as [spec|] eqn:Hk.
  2: { split; [|done]. split; [done|]. intros [(spec & Hs & _) _]%Forall_cons_1. cbn in Hs. congruence. }
  destruct (LockToDefault spec && negb (Bool.eqb (Default spec) v)) eqn:Hl.
  - split; [|done]. split; [done|]. intros [(spec' & Hs & Hlock) _]%Forall_cons_1. cbn in *.
    apply andb_true_iff in Hl as [Hl1 Hl2]. simplify_eq. rewrite Hlock in Hl2 by done. by destruct v.
  - destruct (IH (<[k := v]> enabled)) as [IH1 IH2]. split.
    + rewrite IH1, Forall_cons. split; [|by intros [_ ?]]. intros Hm. split; [|done]. exists spec. split; [done|].
      intros Hlock. rewrite Hlock in Hl. cbn in Hl |- *. destruct (Default spec), v; done.
    + intros enabled' Hs [Hn Hd]%NoDup_cons. rewrite (IH2 _ Hs Hd). cbn.
      rewrite <-insert_union_r by (apply not_elem_of_list_to_map; done). by rewrite insert_union_l.
Qed.

(** Setting gates is all or nothing and does not depend on the order in which
    the settings are visited: it succeeds exactly if every gate is known and none
    is moved off a locked default, and then the gates have the given values and
    the others those they had; else nothing changes. *)
Theorem set_gates_exact f (m : gmap string bool) entries :
  entries ≡ₚ map_to_list m →
  let '(f', r) := SetFromMap f entries in
  (is_ok r = true ↔ map_Forall (λ k v, settable (known f) (k, v)) m) ∧
  (is_ok r = true → ∀ k, Enabled f' k = match m !! k with Some v => v | None => Enabled f k end) ∧
  (is_ok r = false → f' = f) ∧ known f' = known f.
Proof.
  intros Hp. unfold SetFromMap. destruct (set_loop_spec (known f) (enabled f) entries) as [H1 H2].
  assert (Forall (settable (known f)) entries ↔ map_Forall (λ k v, settable (known f) (k, v)) m) as Hall.
  { rewrite Hp, map_Forall_to_list. apply Forall_iff. by intros []. }
  destruct (set_loop (known f) (enabled f) entries) as [en|e] eqn:Hs; cbn [is_ok] in *; rewrite <-Hall, <-H1;
    split_and!; try done. intros _ k. unfold Enabled. cbn.
  assert (NoDup entries.*1) as Hnd by (rewrite Hp; apply NoDup_fst_map_to_list).
  rewrite (H2 _ eq_refl Hnd). assert (list_to_map entries = m) as ->.
  { rewrite <-(list_to_map_to_list m). by apply list_to_map_proper. }
  rewrite lookup_union. by destruct (m !! k) as [v|], (enabled f !! k).
Qed.

Inductive step : featureGate → featureGate → Prop :=
| step_set f m : step f (SetFromMap f m).1
| step_add f features : step f (Add f features).1.

Definition gate_reachable (f : featureGate) : Prop := rtc step NewFeatureGate f.

Lemma gate_add_loop_spec known features known' : add_loop known features = Ok known' → known ⊆ known'.
Proof.
  revert known. induction features as [|[n spec] features IH]; intros known; cbn [add_loop]; [by intros [= <-]|].
  destruct (known !! n) as [e|] eqn:Hk; [case_decide; [apply IH|done]|]. intros Hs%IH.
  etrans; [by apply insert_subseteq|done].
Qed.

(** Every setting is one that may be made. *)
Definition gate_inv (f : featureGate) : Prop := map_Forall (λ k v, settable (known f) (k, v)) (enabled f).

Lemma set_loop_inv known enabled m enabled' :
  map_Forall (λ k v, settable known (k, v)) enabled → set_loop known enabled m = Ok enabled' →
  map_Forall (λ k v, settable known (k, v)) enabled'.
Proof.
  revert enabled. induction m as [|[k v] m IH]; intros enabled Hi; cbn [set_loop]; [by intros [= <-]|].
  destruct (known !! k) as [spec|] eqn:Hk; [|done]. destruct (LockToDefault spec && _) eqn:Hl; [done|].
  apply IH. apply map_Forall_insert_2; [|done]. exists spec. split; [done|]. intros Hlock. rewrite Hlock in Hl. cbn in Hl |- *.
  destruct (Default spec), v; done.
Qed.

Lemma gate_inv_step f f' : gate_inv f → step f f' → gate_inv f' ∧ known f ⊆ known f'.
Proof.
  intros Hi Hs. destruct Hs as [f m|f features].
  - unfold SetFromMap. destruct (set_loop _ _ _) as [en|e] eqn:Hl; cbn; [|done]. split; [|done]. by eapply set_loop_inv.
  - unfold Add. destruct (closed f); [done|]. destruct (add_loop _ _) as [kn|e] eqn:Hl; cbn; [|done].
    apply gate_add_loop_spec in Hl. split; [|done]. intros k v Hv. destruct (Hi k v Hv) as (spec & Hk & ?).
    exists spec. split; [by eapply lookup_weaken|done].
Qed.

(** In every reachable gate a feature that is set is known, a feature that is
    locked has its default value, and one that is not known is disabled; a known
    feature stays known, with the same specification. *)
Theorem gates_sound f k :
  gate_reachable f →
  (∀ spec, known f !! k = Some spec → LockToDefault spec = true → Enabled f k = Default spec) ∧
  (known f !! k = None → Enabled f k = false) ∧
  (∀ f' spec, rtc step f f' → known f !! k = Some spec → known f' !! k = Some spec).
Proof.
  intros Hr. assert (gate_inv f) as Hi.
  { revert f Hr. apply rtc_ind_r; [by apply map_Forall_empty|]. intros f f' _ Hs Hi. by eapply gate_inv_step. }
  unfold Enabled. split_and!.
  - intros spec Hk Hlock. destruct (enabled f !! k) as [v|] eqn:He; [|by rewrite Hk].
    destruct (Hi k v He) as (spec' & Hk' & Hl). cbn in *. simplify_eq. symmetry. by apply Hl.
  - intros Hk. destruct (enabled f !! k) as [v|] eqn:He; [|by rewrite Hk].
    destruct (Hi k v He) as (spec' & Hk' & _). cbn in *. congruence.
  - intros f' spec Hs Hk. assert (gate_inv f' ∧ known f ⊆ known f') as [_ Hsub]; [|by eapply lookup_weaken].
    clear Hk Hr. revert f' Hs. apply rtc_ind_r; [done|]. intros f1 f2 _ Hs [Hi1 Hsub].
    destruct (gate_inv_step _ _ Hi1 Hs) as [? ?]. split; [done|]. by etrans.
Qed.

Lemma NoDup_fmap_fst_filter {A} (P : string * A → Prop) `{∀ x, Decision (P x)} l : NoDup l.*1 → NoDup (filter P l).*1.
Proof. intros Hl. eapply sublist_NoDup; [exact Hl|]. apply fmap_sublist, sublist_filter. Qed.

(** Sorting forgets the order. *)
Lemma sort_Strings_perm l l' : l ≡ₚ l' → sort_Strings l = sort_Strings l'.
Proof.
  intros Hp. unfold sort_Strings. apply (StronglySorted_unique String.le).
  - apply (StronglySorted_merge_sort _).
  - apply (StronglySorted_merge_sort _).
  - by rewrite !merge_sort_Permutation.
Qed.

(** The texts of a gate depend on its state alone, not on the order in which
    its maps are visited, and list the features that are not generally
    available, each once and in order. *)
Theorem gate_texts_stable (f : featureGate) entries entries' kn kn' :
  entries ≡ₚ map_to_list (enabled f) → entries' ≡ₚ map_to_list (enabled f) →
  kn ≡ₚ map_to_list (known f) → kn' ≡ₚ map_to_list (known f) →
  gate_String entries = gate_String entries' ∧ KnownFeatures kn = KnownFeatures kn' ∧
  StronglySorted String.le (KnownFeatures kn) ∧
  length (KnownFeatures kn) = size (filter (λ e, Stage e.2 ≠ GA) (known f)).
Proof.
  intros H1 H2 H3 H4. unfold gate_String, KnownFeatures. split_and!.
  - f_equal. apply sort_Strings_perm. by rewrite H1, H2.
  - apply sort_Strings_perm. by rewrite H3, H4.
  - apply (StronglySorted_merge_sort _).
  - unfold sort_Strings. rewrite merge_sort_Permutation, length_fmap, H3, map_filter_alt, <-length_map_to_list.
    rewrite map_to_list_to_map; [done|]. apply NoDup_fmap_fst_filter, NoDup_fst_map_to_list.
Qed.

(** ** Examples *)

Lemma set_gates_exact_witness :
  Enabled (SetFromMap NewFeatureGate [(VirtualNet, true)]).1 VirtualNet = true.
Proof.
  pose proof (set_gates_exact NewFeatureGate {[VirtualNet := true]} [(VirtualNet, true)]) as H.
  specialize (H ltac:(by rewrite map_to_list_singleton)).
  change (SetFromMap NewFeatureGate [(VirtualNet, true)]) with
    ((SetFromMap NewFeatureGate [(VirtualNet, true)]).1, Ok tt : res error unit) in H.
  destruct H as (_ & H & _). rewrite (H eq_refl VirtualNet). reflexivity.
Defined.

Lemma gates_sound_witness : Enabled (Add NewFeatureGate [("Locked", mkSpec true true Beta)]).1 "Locked" = true.
Proof.
  refine (proj1 (gates_sound (Add NewFeatureGate [("Locked", mkSpec true true Beta)]).1 "Locked" _) (mkSpec true true Beta) _ _);
    [apply rtc_once, step_add|reflexivity|reflexivity].
Defined.

Lemma gate_texts_stable_witness :
  KnownFeatures [(VirtualNet, mkSpec false false Alpha)] = ["VirtualNet=true|false (ALPHA - default=false)"] ∧
  length (KnownFeatures [(VirtualNet, mkSpec false false Alpha)]) = 1.
Proof.
  split; [reflexivity|].
  apply (gate_texts_stable NewFeatureGate [] [] [(VirtualNet, mkSpec false false Alpha)] [(VirtualNet, mkSpec false false Alpha)]);
    try reflexivity; by rewrite map_to_list_singleton.
Defined.
End FeatureGate.
