(* ===== verification/CommonConfig.v ===== *)
(** The common configurations of client and server, pkg/config/v1/client.go,
    server.go and common.go: their defaults ([Complete]), and their validation,
    pkg/config/v1/validation/client.go, server.go, common.go and auth.go.

    An error is the list of what [AppendError] joined; nil is the empty list. *)
From Stdlib Require Import ZArith Lia Ascii String.
From stdpp Require Import base gmap strings list.
From S2P Require Import Prelude GoLib Ports Config Auth ServerPlugins FeatureGate.

Local Open Scope Z_scope.
Local Open Scope frp_scope.

Module CommonConfig.
Import Config (EmptyOr, EmptyOrPtr).
Import Auth (AuthClientConfig, AuthOIDCClientConfig, AuthServerConfig, ValueSource, mkAuthClient, mkAuthServer).

(** [util.EmptyOr] on integers. *)
Definition EmptyOrInt (v fallback : Z) : Z := if v =? 0 then fallback else v.

(** ** Data *)

Record QUICOptions := mkQUIC { KeepalivePeriod : Z; MaxIdleTimeout : Z; MaxIncomingStreams : Z }.

Record TLSConfig := mkTLS { CertFile : string; KeyFile : string; TrustedCaFile : string; ServerName : string }.

Record WebServerConfig := mkWebServer {
  ws_Addr : string; ws_Port : Z; ws_User : string; ws_Password : string; ws_AssetsDir : string; ws_PprofEnable : bool;
  ws_TLS : option TLSConfig }.

Record LogConfig := mkLog { lg_To : string; lg_Level : string; lg_MaxDays : Z; lg_DisablePrintColor : bool }.

Record TLSClientConfig := mkTLSClient { tc_Enable : option bool; tc_DisableCustomTLSFirstByte : option bool; tc_TLS : TLSConfig }.

Record ClientTransportConfig := mkClientTransport {
  ct_Protocol : string; ct_WireProtocol : string; ct_DialServerTimeout : Z; ct_DialServerKeepAlive : Z;
  ct_ConnectServerLocalIP : string; ct_ProxyURL : string; ct_PoolCount : Z; ct_TCPMux : option bool;
  ct_TCPMuxKeepaliveInterval : Z; ct_QUIC : QUICOptions; ct_HeartbeatInterval : Z; ct_HeartbeatTimeout : Z;
  ct_TLS : TLSClientConfig }.

Record ClientCommonConfig := mkClientCommon {
  cc_Version : string; cc_Auth : AuthClientConfig; cc_User : string; cc_ClientID : string; cc_ServerAddr : string; cc_ServerPort : Z;
  cc_NatHoleSTUNServer : string; cc_DNSServer : string; cc_LoginFailExit : option bool; cc_Start : list string;
  cc_Log : LogConfig; cc_WebServer : WebServerConfig; cc_Transport : ClientTransportConfig; cc_VirtualNet_Address : string;
  cc_FeatureGates : gmap string bool; cc_UDPPacketSize : Z; cc_Metadatas : gmap string string;
  cc_IncludeConfigFiles : list string; cc_Store_Path : string }.

Record TLSServerConfig := mkTLSServer { tsv_Force : bool; tsv_TLS : TLSConfig }.

Record ServerTransportConfig := mkServerTransport {
  st_TCPMux : option bool; st_TCPMuxKeepaliveInterval : Z; st_TCPKeepAlive : Z; st_MaxPoolCount : Z; st_HeartbeatTimeout : Z;
  st_QUIC : QUICOptions; st_TLS : TLSServerConfig }.

Record SSHTunnelGateway := mkSSH {
  ssh_BindPort : Z; ssh_PrivateKeyFile : string; ssh_AutoGenPrivateKeyPath : string; ssh_AuthorizedKeysFile : string }.

Record AuthOIDCServerConfig := mkOIDCServer { so_Issuer : string; so_Audience : string; so_SkipExpiryCheck : bool; so_SkipIssuerCheck : bool }.

Record ServerConfig := mkServer {
  sc_Version : string; sc_Auth : AuthServerConfig; sc_OIDC : AuthOIDCServerConfig; sc_BindAddr : string; sc_BindPort : Z; sc_KCPBindPort : Z; sc_QUICBindPort : Z;
  sc_ProxyBindAddr : string; sc_VhostHTTPPort : Z; sc_VhostHTTPTimeout : Z; sc_VhostHTTPSPort : Z;
  sc_TCPMuxHTTPConnectPort : Z; sc_TCPMuxPassthrough : bool; sc_SubDomainHost : string; sc_Custom404Page : string;
  sc_SSHTunnelGateway : SSHTunnelGateway; sc_WebServer : WebServerConfig; sc_EnablePrometheus : bool; sc_Log : LogConfig;
  sc_Transport : ServerTransportConfig; sc_DetailedErrorsToClient : option bool; sc_MaxPortsPerClient : Z;
  sc_UserConnTimeout : Z; sc_UDPPacketSize : Z; sc_UDPSessionTimeout : Z; sc_NatHoleAnalysisDataReserveHours : Z;
  sc_AllowPorts : list Ports.PortsRange; sc_HTTPPlugins : list ServerPlugins.HTTPPluginOptions }.

(** ** Defaults *)

Definition quic_Complete (c : QUICOptions) : QUICOptions :=
  mkQUIC (EmptyOrInt (KeepalivePeriod c) 10) (EmptyOrInt (MaxIdleTimeout c) 30) (EmptyOrInt (MaxIncomingStreams c) 100000).

Definition web_Complete (c : WebServerConfig) : WebServerConfig :=
  mkWebServer (EmptyOr (ws_Addr c) "127.0.0.1") (ws_Port c) (ws_User c) (ws_Password c) (ws_AssetsDir c) (ws_PprofEnable c) (ws_TLS c).

Definition log_Complete (c : LogConfig) : LogConfig :=
  mkLog (EmptyOr (lg_To c) "console") (EmptyOr (lg_Level c) "info") (EmptyOrInt (lg_MaxDays c) 3) (lg_DisablePrintColor c).

Definition tlsClient_Complete (c : TLSClientConfig) : TLSClientConfig :=
  mkTLSClient (EmptyOrPtr (tc_Enable c) (Some true)) (EmptyOrPtr (tc_DisableCustomTLSFirstByte c) (Some true)) (tc_TLS c).

Definition authClient_Complete (c : AuthClientConfig) : AuthClientConfig :=
  mkAuthClient (EmptyOr (Auth.ac_Method c) "token") (Auth.ac_AdditionalScopes c) (Auth.ac_Token c) (Auth.ac_TokenSource c) (Auth.ac_OIDC c).

Definition authServer_Complete (c : AuthServerConfig) : AuthServerConfig :=
  mkAuthServer (EmptyOr (Auth.as_Method c) "token") (Auth.as_AdditionalScopes c) (Auth.as_Token c) (Auth.as_TokenSource c).

Definition FromPtr (p : option bool) : bool := default false p.

(** [http_proxy] is the environment variable. *)
Definition clientTransport_Complete (http_proxy : string) (c : ClientTransportConfig) : ClientTransportConfig :=
  let TCPMux := EmptyOrPtr (ct_TCPMux c) (Some true) in
  mkClientTransport (EmptyOr (ct_Protocol c) "tcp") (EmptyOr (ct_WireProtocol c) "v2") (EmptyOrInt (ct_DialServerTimeout c) 10)
    (EmptyOrInt (ct_DialServerKeepAlive c) 7200) (ct_ConnectServerLocalIP c) (EmptyOr (ct_ProxyURL c) http_proxy)
    (EmptyOrInt (ct_PoolCount c) 1) TCPMux (EmptyOrInt (ct_TCPMuxKeepaliveInterval c) 30) (quic_Complete (ct_QUIC c))
    (EmptyOrInt (ct_HeartbeatInterval c) (if FromPtr TCPMux then -1 else 30))
    (EmptyOrInt (ct_HeartbeatTimeout c) (if FromPtr TCPMux then -1 else 90)) (tlsClient_Complete (ct_TLS c)).

Definition client_Complete (http_proxy : string) (c : ClientCommonConfig) : ClientCommonConfig :=
  mkClientCommon (cc_Version c) (authClient_Complete (cc_Auth c)) (cc_User c) (cc_ClientID c) (EmptyOr (cc_ServerAddr c) "0.0.0.0")
    (EmptyOrInt (cc_ServerPort c) 7000) (EmptyOr (cc_NatHoleSTUNServer c) "stun.easyvoip.com:3478") (cc_DNSServer c)
    (EmptyOrPtr (cc_LoginFailExit c) (Some true)) (cc_Start c) (log_Complete (cc_Log c)) (web_Complete (cc_WebServer c))
    (clientTransport_Complete http_proxy (cc_Transport c)) (cc_VirtualNet_Address c) (cc_FeatureGates c)
    (EmptyOrInt (cc_UDPPacketSize c) 1500) (cc_Metadatas c) (cc_IncludeConfigFiles c) (cc_Store_Path c).

Definition serverTransport_Complete (c : ServerTransportConfig) : ServerTransportConfig :=
  let TCPMux := EmptyOrPtr (st_TCPMux c) (Some true) in
  mkServerTransport TCPMux (EmptyOrInt (st_TCPMuxKeepaliveInterval c) 30) (EmptyOrInt (st_TCPKeepAlive c) 7200)
    (EmptyOrInt (st_MaxPoolCount c) 5) (EmptyOrInt (st_HeartbeatTimeout c) (if FromPtr TCPMux then -1 else 90))
    (quic_Complete (st_QUIC c))
    (mkTLSServer (if negb (String.eqb (TrustedCaFile (tsv_TLS (st_TLS c))) "") then true else tsv_Force (st_TLS c)) (tsv_TLS (st_TLS c))).

Definition ssh_Complete (c : SSHTunnelGateway) : SSHTunnelGateway :=
  mkSSH (ssh_BindPort c) (ssh_PrivateKeyFile c) (EmptyOr (ssh_AutoGenPrivateKeyPath c) "./.autogen_ssh_key") (ssh_AuthorizedKeysFile c).

(** The web interface of the server. *)
Definition serverWeb_Complete (c : WebServerConfig) : WebServerConfig :=
  let web := web_Complete c in
  if 0 <? ws_Port web then
    mkWebServer (EmptyOr (ws_Addr web) "0.0.0.0") (ws_Port web) (ws_User web) (ws_Password web) (ws_AssetsDir web) (ws_PprofEnable web) (ws_TLS web)
  else web.

Definition server_Complete (c : ServerConfig) : ServerConfig :=
  let BindAddr := EmptyOr (sc_BindAddr c) "0.0.0.0" in
  mkServer (sc_Version c) (authServer_Complete (sc_Auth c)) (sc_OIDC c) BindAddr (EmptyOrInt (sc_BindPort c) 7000) (sc_KCPBindPort c) (sc_QUICBindPort c)
    (if String.eqb (sc_ProxyBindAddr c) "" then BindAddr else sc_ProxyBindAddr c) (sc_VhostHTTPPort c)
    (EmptyOrInt (sc_VhostHTTPTimeout c) 60) (sc_VhostHTTPSPort c) (sc_TCPMuxHTTPConnectPort c) (sc_TCPMuxPassthrough c)
    (sc_SubDomainHost c) (sc_Custom404Page c) (ssh_Complete (sc_SSHTunnelGateway c)) (serverWeb_Complete (sc_WebServer c)) (sc_EnablePrometheus c)
    (log_Complete (sc_Log c)) (serverTransport_Complete (sc_Transport c)) (EmptyOrPtr (sc_DetailedErrorsToClient c) (Some true))
    (sc_MaxPortsPerClient c) (EmptyOrInt (sc_UserConnTimeout c) 10) (EmptyOrInt (sc_UDPPacketSize c) 1500)
    (EmptyOrInt (sc_UDPSessionTimeout c) 15) (EmptyOrInt (sc_NatHoleAnalysisDataReserveHours c) 168) (sc_AllowPorts c) (sc_HTTPPlugins c).

(** ** Validation *)

Definition SupportedTransportProtocols : list string := ["tcp"; "kcp"; "quic"; "websocket"; "wss"].
Definition SupportedWireProtocols : list string := ["v1"; "v2"].
Definition SupportedAuthMethods : list string := ["token"; "oidc"].
Definition SupportedAuthAdditionalScopes : list string := ["HeartBeats"; "NewWorkConns"].
Definition SupportedLogLevels : list string := ["trace"; "debug"; "info"; "warn"; "error"].
Definition SupportedHTTPPluginOps : list string :=
  [ServerPlugins.OpLogin; ServerPlugins.OpNewProxy; ServerPlugins.OpCloseProxy; ServerPlugins.OpPing;
   ServerPlugins.OpNewWorkConn; ServerPlugins.OpNewUserConn].
Definition TokenSourceExec : string := "TokenSourceExec".

Inductive error :=
| ErrVirtualNet
| ErrAuthMethod
| ErrAuthScopes
| ErrTokenAndSource
| ErrUnsafe (feature : string)
| ErrTokenSource (e : string)
| ErrOIDCSourceAndFields
| ErrOIDCTokenSource (e : string)
| ErrOIDC (e : string)
| ErrLogLevel
| ErrTLSCertFile
| ErrTLSKeyFile
| ErrConfig (e : Config.config_error)
| ErrHeartbeat
| ErrProtocol
| ErrWireProtocol
| ErrIncludeParse (f : string)
| ErrIncludeDir (f : string)
| ErrPluginOps
| WarnTLSDisabled (name : string).

(** [slices.Contains] and [lo.Every]. *)
Definition Contains (l : list string) (x : string) : bool := bool_decide (x ∈ l).
Definition Every (l subset : list string) : bool := forallb (Contains l) subset.

(** An error where a condition does not hold. *)
Definition check (ok : bool) (e : error) : list error := if ok then [] else [e].

Definition of_option (e : option Config.config_error) : list error := match e with Some e => [ErrConfig e] | None => [] end.

Section Validator.
(** The unsafe features that are allowed; the default feature gates; [url.Parse];
    the absolute directory of a file, and whether a directory exists. *)
Variable unsafeFeatures : option (gset string).
Variable gates : FeatureGate.featureGate.
Variable parse : string → res string Auth.URL.
Variable absDir : string → option string.
Variable dir_exists : string → bool.

Definition ValidateUnsafeFeature (feature : string) : list error :=
  check (FeatureGate.IsEnabled unsafeFeatures feature) (ErrUnsafe feature).

Definition validateAuthTokenSource (token : string) (tokenSource : option ValueSource) : list error :=
  (if negb (String.eqb token "") && bool_decide (is_Some tokenSource) then [ErrTokenAndSource] else []) ++
  match tokenSource with
  | None => []
  | Some ts =>
      (if String.eqb (Auth.vs_Type ts) "exec" then ValidateUnsafeFeature TokenSourceExec else []) ++
      match Auth.vs_Validate (Some ts) with Err e => [ErrTokenSource e] | Ok _ => [] end
  end.

Definition validateWebServerConfig (c : WebServerConfig) : list error :=
  match ws_TLS c with
  | Some tls =>
      if String.eqb (CertFile tls) "" then [ErrTLSCertFile]
      else if String.eqb (KeyFile tls) "" then [ErrTLSKeyFile]
      else of_option (Config.ValidatePort (ws_Port c) "webServer.port")
  | None => of_option (Config.ValidatePort (ws_Port c) "webServer.port")
  end.

Definition validateLogConfig (c : LogConfig) : list error := check (Contains SupportedLogLevels (lg_Level c)) ErrLogLevel.

(** The whole of [ValidateServerConfig]. *)
Definition ValidateServerConfig (c : ServerConfig) : list error :=
  check (Contains SupportedAuthMethods (Auth.as_Method (sc_Auth c))) ErrAuthMethod ++
  check (Every SupportedAuthAdditionalScopes (Auth.as_AdditionalScopes (sc_Auth c))) ErrAuthScopes ++
  validateAuthTokenSource (Auth.as_Token (sc_Auth c)) (Auth.as_TokenSource (sc_Auth c)) ++
  validateLogConfig (sc_Log c) ++
  validateWebServerConfig (sc_WebServer c) ++
  of_option (Config.ValidatePort (sc_BindPort c) "bindPort") ++
  of_option (Config.ValidatePort (sc_KCPBindPort c) "kcpBindPort") ++
  of_option (Config.ValidatePort (sc_QUICBindPort c) "quicBindPort") ++
  of_option (Config.ValidatePort (sc_VhostHTTPPort c) "vhostHTTPPort") ++
  of_option (Config.ValidatePort (sc_VhostHTTPSPort c) "vhostHTTPSPort") ++
  of_option (Config.ValidatePort (sc_TCPMuxHTTPConnectPort c) "tcpMuxHTTPConnectPort") ++
  (sc_HTTPPlugins c ≫= λ p, check (Every SupportedHTTPPluginOps (ServerPlugins.po_Ops p)) ErrPluginOps).

Definition validateFeatureGates (c : ClientCommonConfig) : list error :=
  if negb (String.eqb (cc_VirtualNet_Address c) "") then check (FeatureGate.Enabled gates FeatureGate.VirtualNet) ErrVirtualNet else [].

(** Whether a field beside the token source is set. *)
Definition oidc_others (c : AuthOIDCClientConfig) : bool :=
  negb (String.eqb (Auth.oidc_ClientID c) "") || negb (String.eqb (Auth.oidc_ClientSecret c) "") ||
  negb (String.eqb (Auth.oidc_Audience c) "") || negb (String.eqb (Auth.oidc_Scope c) "") ||
  negb (String.eqb (Auth.TokenEndpointURL c) "") || (0 <? Z.of_nat (size (Auth.AdditionalEndpointParams c))) ||
  negb (String.eqb (Auth.TrustedCaFile c) "") || Auth.InsecureSkipVerify c || negb (String.eqb (Auth.ProxyURL c) "").

Definition validateOIDCConfig (c : AuthOIDCClientConfig) : list error :=
  match Auth.oidc_TokenSource c with
  | None => []
  | Some ts =>
      (if oidc_others c then [ErrOIDCSourceAndFields] else []) ++
      (if String.eqb (Auth.vs_Type ts) "exec" then ValidateUnsafeFeature TokenSourceExec else []) ++
      match Auth.vs_Validate (Some ts) with Err e => [ErrOIDCTokenSource e] | Ok _ => [] end
  end.

Definition validateAuthConfig (c : AuthClientConfig) : list error :=
  check (Contains SupportedAuthMethods (Auth.ac_Method c)) ErrAuthMethod ++
  check (Every SupportedAuthAdditionalScopes (Auth.ac_AdditionalScopes c)) ErrAuthScopes ++
  validateAuthTokenSource (Auth.ac_Token c) (Auth.ac_TokenSource c) ++
  validateOIDCConfig (Auth.ac_OIDC c) ++
  (if String.eqb (Auth.ac_Method c) Auth.AuthMethodOIDC && bool_decide (Auth.oidc_TokenSource (Auth.ac_OIDC c) = None) then
     match Auth.ValidateOIDCClientCredentialsConfig parse (Auth.ac_OIDC c) with Err e => [ErrOIDC e] | Ok _ => [] end
   else []).

(** The warnings and the errors. *)
Definition validateTransportConfig (c : ClientTransportConfig) : list error * list error :=
  let checkTLSConfig (name value : string) := if String.eqb value "" then [] else [WarnTLSDisabled name] in
  (if negb (FromPtr (tc_Enable (ct_TLS c))) then
     checkTLSConfig "transport.tls.certFile" (CertFile (tc_TLS (ct_TLS c))) ++
     checkTLSConfig "transport.tls.keyFile" (KeyFile (tc_TLS (ct_TLS c))) ++
     checkTLSConfig "transport.tls.trustedCaFile" (TrustedCaFile (tc_TLS (ct_TLS c)))
   else [],
   (if (0 <? ct_HeartbeatTimeout c) && (0 <? ct_HeartbeatInterval c) then
      if ct_HeartbeatTimeout c <? ct_HeartbeatInterval c then [ErrHeartbeat] else []
    else []) ++
   check (Contains SupportedTransportProtocols (ct_Protocol c)) ErrProtocol ++
   check (Contains SupportedWireProtocols (ct_WireProtocol c)) ErrWireProtocol).

Definition validateIncludeFiles (files : list string) : list error :=
  files ≫= λ f,
    match absDir f with
    | None => [ErrIncludeParse f]
    | Some d => check (dir_exists d) (ErrIncludeDir f)
    end.

Definition ValidateClientCommonConfig (c : ClientCommonConfig) : list error * list error :=
  let '(w, e) := validateTransportConfig (cc_Transport c) in
  (w, validateFeatureGates c ++ validateAuthConfig (cc_Auth c) ++ validateLogConfig (cc_Log c) ++
      validateWebServerConfig (cc_WebServer c) ++ e ++ validateIncludeFiles (cc_IncludeConfigFiles c)).
End Validator.

(** ** Theorems: defaults *)

Lemma EmptyOr_default_idem v f : EmptyOr (EmptyOr v f) f = EmptyOr v f.
Proof. unfold EmptyOr. destruct (String.eqb_spec v ""); [|by destruct (String.eqb_spec v "")]. by destruct (String.eqb f ""). Qed.

Lemma EmptyOrInt_idem v f : EmptyOrInt (EmptyOrInt v f) f = EmptyOrInt v f.
Proof. unfold EmptyOrInt. destruct (Z.eqb_spec v 0); [|by destruct (Z.eqb_spec v 0)]. by destruct (f =? 0). Qed.

Lemma EmptyOrPtr_idem {A} (v f : option A) : EmptyOrPtr (EmptyOrPtr v f) f = EmptyOrPtr v f.
Proof. destruct v, f; done. Qed.

#[local] Hint Rewrite EmptyOr_default_idem EmptyOrInt_idem @EmptyOrPtr_idem : defaults.

Lemma sub_Complete_idem hp :
  (∀ c, quic_Complete (quic_Complete c) = quic_Complete c) ∧ (∀ c, web_Complete (web_Complete c) = web_Complete c) ∧
  (∀ c, log_Complete (log_Complete c) = log_Complete c) ∧ (∀ c, ssh_Complete (ssh_Complete c) = ssh_Complete c) ∧
  (∀ c, authClient_Complete (authClient_Complete c) = authClient_Complete c) ∧
  (∀ c, authServer_Complete (authServer_Complete c) = authServer_Complete c) ∧
  (∀ c, clientTransport_Complete hp (clientTransport_Complete hp c) = clientTransport_Complete hp c) ∧
  (∀ c, serverTransport_Complete (serverTransport_Complete c) = serverTransport_Complete c).
Proof.
  split_and!; intros c;
    unfold quic_Complete, web_Complete, log_Complete, ssh_Complete, authClient_Complete, authServer_Complete,
      clientTransport_Complete, serverTransport_Complete, tlsClient_Complete, quic_Complete; cbn -[EmptyOr EmptyOrInt EmptyOrPtr];
    autorewrite with defaults; try done.
  by destruct (String.eqb (TrustedCaFile (tsv_TLS (st_TLS c))) "").
Qed.

(** The second default of the server's web interface has no effect. *)
Lemma serverWeb_Complete_spec c : serverWeb_Complete c = web_Complete c.
Proof.
  unfold serverWeb_Complete. destruct (0 <? ws_Port (web_Complete c)); [|done]. destruct c as [addr port user pw assets pprof tls].
  unfold web_Complete, EmptyOr. cbn. destruct (String.eqb_spec addr ""); cbn; [done|]. by destruct (String.eqb_spec addr "").
Qed.

(** Completing a configuration twice is completing it once, for clients and
    servers, so that a configuration read back from a running program means the
    same. *)
Theorem complete_idempotent hp c s :
  client_Complete hp (client_Complete hp c) = client_Complete hp c ∧ server_Complete (server_Complete s) = server_Complete s.
Proof.
  destruct (sub_Complete_idem hp) as (Hq & Hw & Hl & Hs & Hac & Has & Hct & Hst). split.
  - unfold client_Complete. cbn -[EmptyOr EmptyOrInt EmptyOrPtr authClient_Complete log_Complete web_Complete clientTransport_Complete].
    rewrite Hac, Hl, Hw, Hct. autorewrite with defaults. done.
  - unfold server_Complete. cbn -[EmptyOr EmptyOrInt EmptyOrPtr authServer_Complete log_Complete serverWeb_Complete serverTransport_Complete ssh_Complete].
    rewrite !serverWeb_Complete_spec, Has, Hl, Hw, Hst, Hs. autorewrite with defaults. f_equal.
    destruct (String.eqb_spec (sc_ProxyBindAddr s) "") as [_|Hne]; [by destruct (String.eqb (EmptyOr (sc_BindAddr s) "0.0.0.0") "")|].
    by destruct (String.eqb_spec (sc_ProxyBindAddr s) "").
Qed.

(** ** Theorems: validation *)

Definition port_ok (p : Z) : Prop := 0 ≤ p ≤ 65535.
Definition one_of (l : list string) (x : string) : Prop := x = "" ∨ x ∈ l.
Definition web_ok (c : WebServerConfig) : Prop :=
  (∀ tls, ws_TLS c = Some tls → CertFile tls ≠ "" ∧ KeyFile tls ≠ "") ∧ port_ok (ws_Port c).

(** A token or a source of one, of a kind that is allowed. *)
Definition source_ok (unsafe : option (gset string)) (v : ValueSource) : Prop :=
  (Auth.vs_Type v = "exec" → FeatureGate.IsEnabled unsafe TokenSourceExec = true) ∧ Auth.vs_Validate (Some v) = Ok tt.
Definition token_ok (unsafe : option (gset string)) (token : string) (ts : option ValueSource) : Prop :=
  (token = "" ∨ ts = None) ∧ ∀ v, ts = Some v → source_ok unsafe v.

Lemma check_nil b e : check b e = [] ↔ b = true.
Proof. by destruct b. Qed.

Lemma port_nil p name : of_option (Config.ValidatePort p name) = [] ↔ port_ok p.
Proof.
  unfold Config.ValidatePort, port_ok. destruct (Z.leb_spec 0 p), (Z.leb_spec p 65535); cbn; split; try done; lia.
Qed.

Lemma bind_nil {A} (f : A → list error) l : l ≫= f = [] ↔ ∀ x, x ∈ l → f x = [].
Proof.
  induction l as [|x l IH]; cbn; [set_solver|]. rewrite app_nil. setoid_rewrite elem_of_cons. naive_solver.
Qed.

Lemma Every_spec l sub : Every l sub = true ↔ ∀ x, x ∈ sub → x ∈ l.
Proof.
  unfold Every, Contains. rewrite forallb_forall. split; intros H x Hx.
  - by eapply bool_decide_eq_true_1, H, list_elem_of_In.
  - apply bool_decide_eq_true_2, H. by apply list_elem_of_In.
Qed.

Lemma Contains_EmptyOr l x d : d ∈ l → Contains l (EmptyOr x d) = true ↔ one_of l x.
Proof.
  intros Hd. unfold Contains, one_of, EmptyOr. rewrite bool_decide_eq_true. destruct (String.eqb_spec x ""); naive_solver.
Qed.

Lemma res_nil (r : res string unit) (mk : string → error) : match r with Err e => [mk e] | Ok _ => [] end = [] ↔ r = Ok tt.
Proof. destruct r as [[]|]; done. Qed.

Lemma exec_nil unsafe v :
  (if String.eqb (Auth.vs_Type v) "exec" then ValidateUnsafeFeature unsafe TokenSourceExec else []) = [] ↔
  (Auth.vs_Type v = "exec" → FeatureGate.IsEnabled unsafe TokenSourceExec = true).
Proof. unfold ValidateUnsafeFeature. destruct (String.eqb_spec (Auth.vs_Type v) "exec"); [rewrite check_nil|]; naive_solver. Qed.

Lemma token_nil unsafe token ts : validateAuthTokenSource unsafe token ts = [] ↔ token_ok unsafe token ts.
Proof.
  unfold validateAuthTokenSource, token_ok. destruct ts as [v|].
  - rewrite !app_nil, exec_nil, res_nil. rewrite bool_decide_true by eauto. unfold source_ok.
    destruct (String.eqb_spec token ""); cbn; naive_solver.
  - rewrite bool_decide_false by (by intros [? ?]). rewrite andb_false_r. naive_solver.
Qed.

Lemma web_nil c : validateWebServerConfig (web_Complete c) = [] ↔ web_ok c.
Proof.
  unfold validateWebServerConfig, web_ok. cbn. destruct (ws_TLS c) as [tls|]; [|rewrite port_nil; naive_solver].
  destruct (String.eqb_spec (CertFile tls) ""), (String.eqb_spec (KeyFile tls) ""); rewrite ?port_nil; naive_solver.
Qed.

Lemma port_EmptyOr p d : port_ok d → port_ok (EmptyOrInt p d) ↔ port_ok p.
Proof. unfold port_ok, EmptyOrInt. intros Hd. destruct (Z.eqb_spec p 0); lia. Qed.

(** A server's configuration is accepted, once the defaults are filled in,
    exactly if every value that is set is one of those supported, a token and its
    source are not both given, commands are run only if that is allowed, the web
    interface has both files or none, and every port is between 0 and 65535. *)
Theorem server_config_accepted unsafe (c : ServerConfig) :
  ValidateServerConfig unsafe (server_Complete c) = [] ↔
  one_of SupportedAuthMethods (Auth.as_Method (sc_Auth c)) ∧
  (∀ x, x ∈ Auth.as_AdditionalScopes (sc_Auth c) → x ∈ SupportedAuthAdditionalScopes) ∧
  token_ok unsafe (Auth.as_Token (sc_Auth c)) (Auth.as_TokenSource (sc_Auth c)) ∧
  one_of SupportedLogLevels (lg_Level (sc_Log c)) ∧ web_ok (sc_WebServer c) ∧
  port_ok (sc_BindPort c) ∧ port_ok (sc_KCPBindPort c) ∧ port_ok (sc_QUICBindPort c) ∧ port_ok (sc_VhostHTTPPort c) ∧
  port_ok (sc_VhostHTTPSPort c) ∧ port_ok (sc_TCPMuxHTTPConnectPort c) ∧
  (∀ p, p ∈ sc_HTTPPlugins c → ∀ op, op ∈ ServerPlugins.po_Ops p → op ∈ SupportedHTTPPluginOps).
Proof.
  unfold ValidateServerConfig, validateLogConfig. rewrite !app_nil, !check_nil, token_nil, !port_nil, bind_nil.
  unfold server_Complete. cbn [sc_Auth sc_Log sc_WebServer sc_BindPort sc_KCPBindPort sc_QUICBindPort sc_VhostHTTPPort
    sc_VhostHTTPSPort sc_TCPMuxHTTPConnectPort sc_HTTPPlugins authServer_Complete Auth.as_Method Auth.as_AdditionalScopes Auth.as_Token
    Auth.as_TokenSource log_Complete lg_Level].
  rewrite serverWeb_Complete_spec, web_nil, !Contains_EmptyOr by set_solver. rewrite port_EmptyOr by done.
  rewrite Every_spec. assert (∀ p, check (Every SupportedHTTPPluginOps (ServerPlugins.po_Ops p)) ErrPluginOps = [] ↔
    ∀ op, op ∈ ServerPlugins.po_Ops p → op ∈ SupportedHTTPPluginOps) as Hp by (intros p; by rewrite check_nil, Every_spec).
  setoid_rewrite Hp. done.
Qed.

Definition oidc_ok (unsafe : option (gset string)) (c : AuthOIDCClientConfig) : Prop :=
  ∀ v, Auth.oidc_TokenSource c = Some v → oidc_others c = false ∧ source_ok unsafe v.

Lemma oidc_nil unsafe c : validateOIDCConfig unsafe c = [] ↔ oidc_ok unsafe c.
Proof.
  unfold validateOIDCConfig, oidc_ok. destruct (Auth.oidc_TokenSource c) as [v|]; [|naive_solver].
  rewrite !app_nil, exec_nil, res_nil. unfold source_ok. destruct (oidc_others c); naive_solver.
Qed.

Lemma include_nil absDir dir_exists files :
  validateIncludeFiles absDir dir_exists files = [] ↔ ∀ f, f ∈ files → ∃ d, absDir f = Some d ∧ dir_exists d = true.
Proof.
  unfold validateIncludeFiles. rewrite bind_nil.
  assert (∀ f, match absDir f with None => [ErrIncludeParse f] | Some d => check (dir_exists d) (ErrIncludeDir f) end = [] ↔
    ∃ d, absDir f = Some d ∧ dir_exists d = true) as Hf.
  { intros f. destruct (absDir f) as [d|]; [rewrite check_nil|]; naive_solver. }
  by setoid_rewrite Hf.
Qed.

(** The time-out of heartbeats is not below their interval, where both are on. *)
Definition heartbeat_ok (c : ClientTransportConfig) : Prop :=
  0 < ct_HeartbeatTimeout c → 0 < ct_HeartbeatInterval c → ct_HeartbeatInterval c ≤ ct_HeartbeatTimeout c.

Lemma heartbeat_nil c :
  (if (0 <? ct_HeartbeatTimeout c) && (0 <? ct_HeartbeatInterval c) then
     if ct_HeartbeatTimeout c <? ct_HeartbeatInterval c then [ErrHeartbeat] else [] else []) = [] ↔ heartbeat_ok c.
Proof.
  unfold heartbeat_ok. destruct (Z.ltb_spec 0 (ct_HeartbeatTimeout c)), (Z.ltb_spec 0 (ct_HeartbeatInterval c)); cbn;
    [destruct (Z.ltb_spec (ct_HeartbeatTimeout c) (ct_HeartbeatInterval c))|..]; split; try done; lia.
Qed.

Section Client.
Context (unsafe : option (gset string)) (gates : FeatureGate.featureGate) (parse : string → res string Auth.URL)
  (absDir : string → option string) (dir_exists : string → bool).

Lemma auth_nil c :
  validateAuthConfig unsafe parse (authClient_Complete c) = [] ↔
  one_of SupportedAuthMethods (Auth.ac_Method c) ∧
  (∀ x, x ∈ Auth.ac_AdditionalScopes c → x ∈ SupportedAuthAdditionalScopes) ∧
  token_ok unsafe (Auth.ac_Token c) (Auth.ac_TokenSource c) ∧ oidc_ok unsafe (Auth.ac_OIDC c) ∧
  (Auth.ac_Method c = "oidc" → Auth.oidc_TokenSource (Auth.ac_OIDC c) = None →
     Auth.ValidateOIDCClientCredentialsConfig parse (Auth.ac_OIDC c) = Ok tt).
Proof.
  unfold validateAuthConfig, authClient_Complete.
  cbn [Auth.ac_Method Auth.ac_AdditionalScopes Auth.ac_Token Auth.ac_TokenSource Auth.ac_OIDC].
  rewrite !app_nil, !check_nil, token_nil, oidc_nil, Contains_EmptyOr, Every_spec by set_solver.
  enough ((if String.eqb (EmptyOr (Auth.ac_Method c) "token") Auth.AuthMethodOIDC && bool_decide (Auth.oidc_TokenSource (Auth.ac_OIDC c) = None)
    then match Auth.ValidateOIDCClientCredentialsConfig parse (Auth.ac_OIDC c) with Err e => [ErrOIDC e] | Ok _ => [] end else []) = [] ↔
    (Auth.ac_Method c = "oidc" → Auth.oidc_TokenSource (Auth.ac_OIDC c) = None →
     Auth.ValidateOIDCClientCredentialsConfig parse (Auth.ac_OIDC c) = Ok tt)) as -> by done.
  assert (String.eqb (EmptyOr (Auth.ac_Method c) "token") Auth.AuthMethodOIDC = String.eqb (Auth.ac_Method c) "oidc") as ->.
  { unfold EmptyOr, Auth.AuthMethodOIDC. by destruct (String.eqb_spec (Auth.ac_Method c) "") as [->|]. }
  destruct (String.eqb_spec (Auth.ac_Method c) "oidc"); cbn; [|naive_solver].
  case_bool_decide; [rewrite res_nil|]; naive_solver.
Qed.

(** The common part of a client's configuration is accepted, once the
    defaults are filled in, exactly if a virtual network has its feature gate,
    every value that is set is one of those supported, token sources stand alone
    and are allowed, the credentials of OpenID Connect are valid where they are
    used, heartbeats time out no earlier than they are sent, and the directories
    of included files exist. Files for TLS that is switched off are only warned
    of. *)
Theorem client_config_accepted hp (c : ClientCommonConfig) :
  let v := ValidateClientCommonConfig unsafe gates parse absDir dir_exists (client_Complete hp c) in
  let a := cc_Auth c in
  (v.2 = [] ↔
   (cc_VirtualNet_Address c = "" ∨ FeatureGate.Enabled gates FeatureGate.VirtualNet = true) ∧
   (one_of SupportedAuthMethods (Auth.ac_Method a) ∧
    (∀ x, x ∈ Auth.ac_AdditionalScopes a → x ∈ SupportedAuthAdditionalScopes) ∧
    token_ok unsafe (Auth.ac_Token a) (Auth.ac_TokenSource a) ∧ oidc_ok unsafe (Auth.ac_OIDC a) ∧
    (Auth.ac_Method a = "oidc" → Auth.oidc_TokenSource (Auth.ac_OIDC a) = None →
       Auth.ValidateOIDCClientCredentialsConfig parse (Auth.ac_OIDC a) = Ok tt)) ∧
   one_of SupportedLogLevels (lg_Level (cc_Log c)) ∧ web_ok (cc_WebServer c) ∧
   (heartbeat_ok (clientTransport_Complete hp (cc_Transport c)) ∧
    one_of SupportedTransportProtocols (ct_Protocol (cc_Transport c)) ∧
    one_of SupportedWireProtocols (ct_WireProtocol (cc_Transport c))) ∧
   (∀ f, f ∈ cc_IncludeConfigFiles c → ∃ d, absDir f = Some d ∧ dir_exists d = true)) ∧
  (tc_Enable (ct_TLS (cc_Transport c)) ≠ Some false → v.1 = []).
Proof.
  cbv zeta. unfold ValidateClientCommonConfig, validateTransportConfig. cbn [fst snd]. split.
  - rewrite !app_nil, heartbeat_nil, include_nil. unfold client_Complete, validateLogConfig, validateFeatureGates.
    cbn [cc_VirtualNet_Address cc_Auth cc_Log cc_WebServer cc_Transport cc_IncludeConfigFiles].
    rewrite auth_nil, web_nil, !check_nil. cbn [log_Complete lg_Level ct_Protocol ct_WireProtocol clientTransport_Complete].
    rewrite !Contains_EmptyOr by set_solver.
    enough ((if negb (String.eqb (cc_VirtualNet_Address c) "") then check (FeatureGate.Enabled gates FeatureGate.VirtualNet) ErrVirtualNet else []) = [] ↔
      (cc_VirtualNet_Address c = "" ∨ FeatureGate.Enabled gates FeatureGate.VirtualNet = true)) as -> by done.
    destruct (String.eqb_spec (cc_VirtualNet_Address c) ""); cbn [negb]; [|rewrite check_nil]; naive_solver.
  - intros Ht. unfold client_Complete. cbn [cc_Transport clientTransport_Complete ct_TLS tlsClient_Complete tc_Enable].
    by destruct (tc_Enable (ct_TLS (cc_Transport c))) as [[]|].
Qed.
End Client.

(** ** Examples *)

Definition zero_tls : TLSConfig := mkTLS "" "" "" "".
Definition zero_web : WebServerConfig := mkWebServer "" 0 "" "" "" false None.
Definition zero_log : LogConfig := mkLog "" "" 0 false.
Definition zero_oidc : AuthOIDCClientConfig := Auth.mkOIDCClient "" "" "" "" "" ∅ "" false "" None.
Definition zero_server : ServerConfig :=
  mkServer "" (mkAuthServer "" [] "" None) (mkOIDCServer "" "" false false) "" 0 0 0 "" 0 0 0 0 false "" "" (mkSSH 0 "" "" "") zero_web false zero_log
    (mkServerTransport None 0 0 0 0 (mkQUIC 0 0 0) (mkTLSServer false zero_tls)) None 0 0 0 0 0 [] [].
Definition zero_client : ClientCommonConfig :=
  mkClientCommon "" (mkAuthClient "" [] "" None zero_oidc) "" "" "" 0 "" "" None [] zero_log zero_web
    (mkClientTransport "" "" 0 0 "" "" 0 None 0 (mkQUIC 0 0 0) 0 0 (mkTLSClient None None zero_tls)) "" ∅ 0 ∅ [] "".

(** Empty configurations are accepted once the defaults are filled in, and
    start a server on port 7000 and a client for it, with the same multiplexing
    and no heartbeats of their own. The web interface of the server is bound to
    the loopback address whether it has a port or not: the default of all
    addresses that follows for one with a port never takes effect. *)
Theorem defaults_accepted unsafe gates parse absDir dir_exists hp port :
  ValidateServerConfig unsafe (server_Complete zero_server) = [] ∧
  ValidateClientCommonConfig unsafe gates parse absDir dir_exists (client_Complete hp zero_client) = ([], []) ∧
  sc_BindPort (server_Complete zero_server) = 7000 ∧ cc_ServerPort (client_Complete hp zero_client) = 7000 ∧
  st_TCPMux (sc_Transport (server_Complete zero_server)) = ct_TCPMux (cc_Transport (client_Complete hp zero_client)) ∧
  st_HeartbeatTimeout (sc_Transport (server_Complete zero_server)) = -1 ∧
  ct_HeartbeatInterval (cc_Transport (client_Complete hp zero_client)) = -1 ∧
  ws_Addr (serverWeb_Complete (mkWebServer "" port "" "" "" false None)) = "127.0.0.1".
Proof. split_and!; try reflexivity. by rewrite serverWeb_Complete_spec. Qed.
End CommonConfig.
