(* ===== verification/VisitorConns.v ===== *)
(** Connections through visitors: how a visitor of a secret proxy reaches it over
    the server (client/visitor/visitor.go, stcp.go, with the answer of
    server/service.go), and the tunnel of a hole-punching visitor, which its users
    share (client/visitor/xtcp.go).

    The goroutines of a tunnel interleave: each of their steps between two locks
    or channel operations is a step of the model. *)
From Stdlib Require Import ZArith Lia Ascii String.
From stdpp Require Import base gmap strings list fin_maps fin_sets relations.
From S2P Require Import Prelude GoLib Msg Registry Sessions NatController ClientProxies VisitorConfig SecretProxies Auth Heartbeat.

Local Open Scope Z_scope.
Local Open Scope frp_scope.

Module VisitorConns.
Import VisitorConfig (VisitorBaseConfig, SecretKey, ServerUser, ServerName, Transport, vt_UseEncryption, vt_UseCompression).

(** ** A connection over the server *)

Inductive dial_error := ErrConnect | ErrSend | ErrReadResp | ErrStart (e : string).

Section Dial.
(** The hexadecimal MD5 of a string. *)
Variable md5hex : string → string.

Definition newVisitorConnMsg (user runID : string) (cfg : VisitorBaseConfig) (now : Z) : Msg.NewVisitorConn :=
  Msg.mkNewVisitorConn runID (ClientProxies.BuildTargetServerProxyName user (ServerUser cfg) (ServerName cfg))
    (NatController.GetAuthKey md5hex (SecretKey cfg) now) now
    (vt_UseEncryption (Transport cfg)) (vt_UseCompression (Transport cfg)).

(** [dialRawVisitorConn] on a connection to the server: [sent] is whether writing
    works, [resp] the answer that is read. The second result: whether the
    connection is closed. *)
Definition dialRawVisitorConn (visitorConn : option nat) (sent : bool) (resp : option Msg.NewVisitorConnResp) :
    res dial_error nat * bool :=
  match visitorConn with
  | None => (Err ErrConnect, false)
  | Some c =>
      if negb sent then (Err ErrSend, true)
      else match resp with
           | None => (Err ErrReadResp, true)
           | Some r => if String.eqb (Msg.nvr_Error r) "" then (Ok c, false) else (Err (ErrStart (Msg.nvr_Error r)), true)
           end
  end.

(** The texts of the errors with which [RegisterVisitorConn] refuses a connection;
    [crypto] is that of the encryption package. *)
Definition error_text (crypto : string) (e : SecretProxies.error) : string :=
  match e with
  | SecretProxies.ErrAuthFailed name => "visitor connection of [" +:+ name +:+ "] auth failed"
  | SecretProxies.ErrUserNotAllowed name user => "visitor connection of [" +:+ name +:+ "] user [" +:+ user +:+ "] not allowed"
  | SecretProxies.ErrEncryption => "create encryption connection failed: " +:+ crypto
  | SecretProxies.ErrPut => "put conn error: listener is closed"
  | SecretProxies.ErrNoListener name => "custom listener for [" +:+ name +:+ "] doesn't exist"
  | SecretProxies.ErrNoControl runID => "no client control found for run id [" +:+ runID +:+ "]"
  | SecretProxies.ErrRepeated _ | SecretProxies.ErrNoNatHole | SecretProxies.ErrNatHole _ => "" (* of starting a proxy *)
  end.

(** The case of [NewVisitorConn] in [handleConnection]: the answer that goes out,
    none on a connection that is closed by then, and whether the server has
    closed the connection. *)
Definition handleNewVisitorConn (crypto : string) (detailed : bool) (svc : Sessions.Service)
    (vm : SecretProxies.Manager) (conn : nat) (m : Msg.NewVisitorConn) (wireProtocol : string) (enc_ok : bool) :
    SecretProxies.Manager * option Msg.NewVisitorConnResp * bool :=
  match SecretProxies.RegisterVisitorConn md5hex svc vm conn m wireProtocol enc_ok with
  | (vm, discarded, r) =>
      let answer text := if discarded : bool then None else Some (Msg.mkNewVisitorConnResp (Msg.nvc_ProxyName m) text) in
      match r with
      | Some e =>
          (vm, answer (Heartbeat.GenerateResponseErrorString "register visitor conn error" (error_text crypto e) detailed), true)
      | None => (vm, answer "", discarded)
      end
  end.

(** How the visitor wraps the connection, [wrapVisitorConn]: the secret it is
    encrypted with, if it is, and whether it is compressed. *)
Definition wrapVisitorConn (cfg : VisitorBaseConfig) (enc_ok : bool) : option (option string * bool) :=
  if vt_UseEncryption (Transport cfg) && negb enc_ok then None
  else Some (if vt_UseEncryption (Transport cfg) then Some (SecretKey cfg) else None, vt_UseCompression (Transport cfg)).
End Dial.

(** ** The tunnel of an xtcp visitor *)

Inductive worker_state := Waiting | Punching | Sleeping | Done.

(** A call of [getTunnelConn] that could not open a connection: it will close the
    session, and then ask for a new one. *)
Inductive caller_state := Failed | AskingForTunnel.

(** [session] is the current session of the tunnel, [live] the sessions that are
    not closed. [keepPending] is the first request of [keepTunnelOpenWorker],
    which waits until it is taken. [handed] are the sessions of the connections
    given to users. *)
Record Tunnel := mkTunnel {
  session : option nat; live : gset nat; worker : worker_state; callers : gmap nat caller_state; keepPending : bool;
  closed : bool; nextSession : nat; handed : list nat }.

Definition start_tunnel (keepTunnelOpen : bool) : Tunnel := mkTunnel None ∅ Waiting ∅ keepTunnelOpen false 0 [].

(** [TunnelSession.Close] *)
Definition session_Close (t : Tunnel) : Tunnel :=
  mkTunnel None (match session t with Some s => live t ∖ {[s]} | None => live t end) (worker t) (callers t) (keepPending t)
    (closed t) (nextSession t) (handed t).

(** [TunnelSession.Init] *)
Definition session_Init (t : Tunnel) : Tunnel :=
  mkTunnel (Some (nextSession t)) ({[nextSession t]} ∪ live t) (worker t) (callers t) (keepPending t) (closed t)
    (S (nextSession t)) (handed t).

Definition set_worker (t : Tunnel) (w : worker_state) : Tunnel :=
  mkTunnel (session t) (live t) w (callers t) (keepPending t) (closed t) (nextSession t) (handed t).

Definition set_callers (t : Tunnel) (c : gmap nat caller_state) : Tunnel :=
  mkTunnel (session t) (live t) (worker t) c (keepPending t) (closed t) (nextSession t) (handed t).

(** [OpenConn] on the current session. *)
Definition open_conn (t : Tunnel) (s : nat) : Tunnel :=
  mkTunnel (session t) (live t) (worker t) (callers t) (keepPending t) (closed t) (nextSession t) (handed t ++ [s]).

(** The send on [startTunnelCh] with a default: taken only by a waiting worker. *)
Definition ask (t : Tunnel) : Tunnel := match worker t with Waiting => set_worker t Punching | _ => t end.

(** [makeNatHole], then the worker sleeps. *)
Definition punched (t : Tunnel) (ok : bool) : Tunnel := set_worker (if ok then session_Init t else t) Sleeping.

(** [XTCPVisitor.Close] *)
Definition visitor_Close (t : Tunnel) : Tunnel :=
  let t := session_Close t in
  mkTunnel (session t) (live t) (worker t) (callers t) (keepPending t) true (nextSession t) (handed t).

Inductive tstep : Tunnel → Tunnel → Prop :=
| t_open t s : session t = Some s → tstep t (open_conn t s)
| t_fail t id : callers t !! id = None → tstep t (set_callers t (<[id := Failed]> (callers t)))
| t_close t id : callers t !! id = Some Failed →
    tstep t (set_callers (session_Close t) (<[id := AskingForTunnel]> (callers t)))
| t_ask t id : callers t !! id = Some AskingForTunnel → tstep t (ask (set_callers t (delete id (callers t))))
| t_keep t : keepPending t = true → worker t = Waiting →
    tstep t (mkTunnel (session t) (live t) Punching (callers t) false (closed t) (nextSession t) (handed t))
| t_punched t ok : worker t = Punching → tstep t (punched t ok)
| t_wake t : worker t = Sleeping → tstep t (set_worker t Waiting)
| t_exit t : worker t = Waiting → closed t = true → tstep t (set_worker t Done)
| t_Close t : tstep t (visitor_Close t).

Definition treachable (keep : bool) (t : Tunnel) : Prop := rtc tstep (start_tunnel keep) t.

(** ** The user's connection *)

(** What a round of [openTunnel] sees first. *)
Inductive event := CtxDone | Tick (r : option nat).

Fixpoint openTunnel (evs : list event) : option nat :=
  match evs with
  | [] | CtxDone :: _ => None
  | Tick (Some c) :: _ => Some c
  | Tick None :: evs => openTunnel evs
  end.

Inductive user_end := Joined (conn : nat) | Transferred | ClosedUser (tunnel_closed : bool).

(** [XTCPVisitor.handleConn]: what becomes of the user's connection, and whether
    a tunnel connection was closed unused. *)
Definition xtcp_handleConn (cfg : VisitorConfig.XTCPVisitorConfig) (evs : list event) (transfer_ok enc_ok : bool) : user_end :=
  match openTunnel evs with
  | None =>
      if String.eqb (VisitorConfig.vxtcp_FallbackTo cfg) "" then ClosedUser false
      else if transfer_ok then Transferred else ClosedUser false
  | Some c =>
      match wrapVisitorConn (VisitorConfig.vxtcp_base cfg) enc_ok with
      | None => ClosedUser true
      | Some _ => Joined c
      end
  end.

(** ** Theorems: over the server *)

(** Whose proxy a visitor means. *)
Definition owner (user : string) (cfg : VisitorBaseConfig) : string :=
  if String.eqb (ServerUser cfg) "" then user else ServerUser cfg.

Lemma target_name user cfg :
  ClientProxies.BuildTargetServerProxyName user (ServerUser cfg) (ServerName cfg) =
  ClientProxies.AddUserPrefix (owner user cfg) (ServerName cfg).
Proof. unfold ClientProxies.BuildTargetServerProxyName, owner. by destruct (String.eqb (ServerUser cfg) ""). Qed.

(** When the server lets a visitor through to the listener of the proxy it
    names. *)
Definition let_through (svc : Sessions.Service) (vm : SecretProxies.Manager) (user runID : string) (cfg : VisitorBaseConfig)
    (enc_ok : bool) (vuser : string) (b : SecretProxies.listenerBundle) (il : SecretProxies.InternalListener) : Prop :=
  SecretProxies.visitor_user svc runID = Ok vuser ∧
  SecretProxies.listeners vm !! ClientProxies.AddUserPrefix (owner user cfg) (ServerName cfg) = Some b ∧
  SecretProxies.ils vm !! SecretProxies.b_l b = Some il ∧ SecretProxies.closed il = false ∧
  SecretKey cfg = SecretProxies.b_sk b ∧
  (vuser ∈ SecretProxies.b_allowUsers b ∨ "*" ∈ SecretProxies.b_allowUsers b) ∧
  (vt_UseEncryption (Transport cfg) = true → enc_ok = true).

(** An answer with an error ends the dial. *)
Lemma refused crypto detailed conn name e :
  error_text crypto e ≠ "" →
  ∃ t, dialRawVisitorConn (Some conn) true (Some (Msg.mkNewVisitorConnResp name
    (Heartbeat.GenerateResponseErrorString "register visitor conn error" (error_text crypto e) detailed))) = (Err (ErrStart t), true).
Proof.
  intros He. unfold Heartbeat.GenerateResponseErrorString. eexists. cbn. destruct (String.eqb_spec (if detailed then error_text crypto e else "register visitor conn error") "") as [Heq|];
    [destruct detailed; done|reflexivity].
Qed.

Lemma user_allowed (u : string) (us : list string) :
  negb (bool_decide (u ∈ us)) && negb (bool_decide ("*" ∈ us)) = false ↔ u ∈ us ∨ "*" ∈ us.
Proof. rewrite andb_false_iff, !negb_false_iff, !bool_decide_eq_true. done. Qed.

(** What [RegisterVisitorConn] does with the visitor's message. *)
Lemma registered md5hex svc vm conn user runID cfg now wire enc_ok :
  let name := ClientProxies.AddUserPrefix (owner user cfg) (ServerName cfg) in
  (∀ b, SecretProxies.listeners vm !! name = Some b → Auth.hashes_apart md5hex (SecretProxies.b_sk b) (SecretKey cfg)) →
  let m := newVisitorConnMsg md5hex user runID cfg now in
  (∃ vuser b il, let_through svc vm user runID cfg enc_ok vuser b il ∧
     let c := SecretProxies.mkVisitorConn conn (if vt_UseEncryption (Transport cfg) then Some (SecretKey cfg) else None)
       (vt_UseCompression (Transport cfg)) wire m vuser in
     let '(il', discarded, ok) := SecretProxies.PutConn il c in ok = true ∧
     SecretProxies.RegisterVisitorConn md5hex svc vm conn m wire enc_ok =
       (SecretProxies.mkManager (SecretProxies.listeners vm) (<[SecretProxies.b_l b := il']> (SecretProxies.ils vm))
          (SecretProxies.nextIL vm), discarded, None)) ∨
  (∃ e, (∀ vuser b il, ¬ let_through svc vm user runID cfg enc_ok vuser b il) ∧ (∀ crypto, error_text crypto e ≠ "") ∧
     SecretProxies.RegisterVisitorConn md5hex svc vm conn m wire enc_ok = (vm, false, Some e)).
Proof.
  intros name Hap m. unfold SecretProxies.RegisterVisitorConn, SecretProxies.NewConn, let_through.
  change (Msg.nvc_RunID m) with runID. change (Msg.nvc_Timestamp m) with now.
  change (Msg.nvc_ProxyName m) with (ClientProxies.BuildTargetServerProxyName user (ServerUser cfg) (ServerName cfg)).
  change (Msg.nvc_SignKey m) with (NatController.GetAuthKey md5hex (SecretKey cfg) now).
  change (Msg.nvc_UseEncryption m) with (vt_UseEncryption (Transport cfg)). rewrite target_name. fold name.
  destruct (SecretProxies.visitor_user svc runID) as [vuser|e] eqn:Hu;
    [|right; exists e; split_and!; [by intros vu b il (? & _)| |done]; unfold SecretProxies.visitor_user in Hu; repeat case_match; naive_solver].
  destruct (SecretProxies.listeners vm !! name) as [b|] eqn:Hb; [|right; eexists; split; [by intros vu b il (_ & ? & _)|split; [|done]; done]].
  destruct (String.eqb_spec (NatController.GetAuthKey md5hex (SecretProxies.b_sk b) now)
    (NatController.GetAuthKey md5hex (SecretKey cfg) now)) as [Hk|Hk]; cbn [negb].
  2:{ right; eexists; split; [|split; [|done]; done]. intros vu b' il (_ & [= <-] & _ & _ & Heq & _). by rewrite Heq in Hk. }
  apply (Hap _ eq_refl) in Hk.
  destruct (negb (bool_decide (vuser ∈ _)) && _) eqn:Hal.
  { right; eexists; split; [|split; [|done]; done]. intros vu b' il ([= <-] & [= <-] & _ & _ & _ & H%user_allowed & _). congruence. }
  destruct (vt_UseEncryption (Transport cfg) && negb enc_ok) eqn:Henc.
  { apply andb_true_iff in Henc as [He1 He2%negb_true_iff]. right; eexists; split; [|split; [|done]; done].
    intros vu b' il (_ & _ & _ & _ & _ & _ & H). rewrite (H He1) in He2. done. }
  destruct (SecretProxies.ils vm !! SecretProxies.b_l b) as [il|] eqn:Hil; [|right; eexists; split; [|split; [|done]; done]; intros vu b' il' (_ & [= <-] & H & _); congruence].
  destruct (SecretProxies.closed il) eqn:Hcl.
  { right; exists SecretProxies.ErrPut. split_and!; [|done|]; [intros vu b' il' (_ & [= <-] & H & H' & _); congruence|].
    unfold SecretProxies.PutConn. rewrite Hcl, insert_id by done. by destruct vm. }
  left. exists vuser, b, il. split.
  { split_and!; [done..|by apply user_allowed|]. intros He. rewrite He in Henc. by apply negb_false_iff in Henc. }
  rewrite <-Hk. cbv zeta. unfold SecretProxies.PutConn. rewrite Hcl.
  change (Msg.nvc_UseCompression m) with (vt_UseCompression (Transport cfg)).
  by destruct (bool_decide (length _ < _)%nat).
Qed.

(** C16. What becomes of a visitor's connection to a secret proxy, on both ends.
    The visitor names the proxy by its owner's prefix and signs with the secret of
    its own configuration. It is let through exactly if the server knows its run
    id, a listener of that name is registered and open, the secret is the proxy's,
    its user is one the proxy allows and, when it asks for encryption, that can be
    set up. Let through with room in the listener's queue, the connection is
    appended to that queue, nothing else of the manager changes, the visitor's
    dial succeeds, and both ends encrypt with the proxy's secret or not at all and
    compress or not, alike. With the queue full the server closes the connection
    without an answer, and the dial fails reading it. Not let through, the dial
    fails with the server's error, the server closes the connection and the
    manager stays as it was. Assumed: the visitor reaches the server and its
    message arrives; the proxy's secret and the visitor's have no colliding pair
    of MD5 texts. *)
Theorem visitor_reaches_proxy md5hex crypto detailed svc vm conn user runID cfg now wire enc_ok :
  (∀ b, SecretProxies.listeners vm !! ClientProxies.AddUserPrefix (owner user cfg) (ServerName cfg) = Some b →
     Auth.hashes_apart md5hex (SecretProxies.b_sk b) (SecretKey cfg)) →
  let m := newVisitorConnMsg md5hex user runID cfg now in
  let '(vm', resp, closed) := handleNewVisitorConn md5hex crypto detailed svc vm conn m wire enc_ok in
  let dialled := dialRawVisitorConn (Some conn) true resp in
  (∀ vuser b il, let_through svc vm user runID cfg enc_ok vuser b il →
     if bool_decide (length (SecretProxies.acceptCh il) < SecretProxies.acceptCap)%nat then
       dialled = (Ok conn, false) ∧ closed = false ∧
       ∃ c, vm' = SecretProxies.mkManager (SecretProxies.listeners vm)
              (<[SecretProxies.b_l b := SecretProxies.mkListener (SecretProxies.acceptCh il ++ [c]) false]> (SecretProxies.ils vm))
              (SecretProxies.nextIL vm) ∧
         SecretProxies.vc_conn c = conn ∧ SecretProxies.vc_user c = vuser ∧ SecretProxies.vc_wireProtocol c = wire ∧
         wrapVisitorConn cfg true = Some (SecretProxies.vc_encrypted c, SecretProxies.vc_compressed c)
     else dialled = (Err ErrReadResp, true) ∧ closed = true ∧ vm' = vm) ∧
  ((¬ ∃ vuser b il, let_through svc vm user runID cfg enc_ok vuser b il) →
     (∃ e, dialled = (Err (ErrStart e), true)) ∧ closed = true ∧ vm' = vm).
Proof.
  intros Hap m. cbv zeta. pose proof (registered md5hex svc vm conn user runID cfg now wire enc_ok Hap) as Hreg. fold m in Hreg.
  unfold handleNewVisitorConn. destruct Hreg as [(vuser & b & il & Hlet & Hr)|(e & Hno & Hnat & ->)].
  2:{ cbv zeta. split; [intros vuser b il H; by apply Hno in H|]. intros _. split_and!; [|done..]. by apply refused. }
  cbv zeta in Hr. destruct (SecretProxies.PutConn il _) as [[il' d] ok] eqn:Hp. destruct Hr as [-> ->]. cbv zeta.
  split; [|intros Hn; destruct Hn; eauto]. intros vuser' b' il0 Hlet'.
  assert (vuser' = vuser ∧ b' = b ∧ il0 = il) as (-> & -> & ->)
    by (destruct Hlet as (?&?&?&_), Hlet' as (?&?&?&_); simplify_eq; split_and!; congruence).
  destruct Hlet as (_ & _ & Hil & Hcl & _). unfold SecretProxies.PutConn in Hp. rewrite Hcl in Hp.
  destruct (bool_decide (length _ < _)%nat); injection Hp as <- <-.
  - split; [reflexivity|]. split; [reflexivity|]. eexists. split; [reflexivity|]. cbn. split_and!; [done..|]. unfold wrapVisitorConn. by rewrite andb_false_r.
  - split; [reflexivity|]. split; [reflexivity|]. rewrite insert_id by done. by destruct vm.
Qed.

(** ** Theorems: the tunnel *)

Record tinv (t : Tunnel) : Prop := {
  ti_session s : session t = Some s → s ∈ live t;
  ti_fresh s : s ∈ live t → (s < nextSession t)%nat;
  ti_done : worker t = Done → closed t = true;
  ti_handed : Forall (λ s, (s < nextSession t)%nat) (handed t)
}.

Lemma tinv_step t t' : tinv t → tstep t t' → tinv t'.
Proof.
  intros [H1 H2 H3 H4] Hs.
  destruct Hs as [t s Hs|t id Hid|t id Hid|t id Hid|t Hk Hw|t ok Hw|t Hw|t Hw Hc|t]; try (split; cbn; done).
  - split; cbn; try done. apply Forall_app. split; [done|]. apply Forall_singleton. auto.
  - split; cbn; try done. intros s Hs. apply H2. destruct (session t); set_solver.
  - unfold ask. cbn. destruct (worker t) eqn:Hw; split; cbn; rewrite ?Hw; auto; done.
  - destruct ok; split; cbn; try done.
    + intros s [= <-]. set_solver.
    + intros s [->%elem_of_singleton|Hs%H2]%elem_of_union; lia.
    + eapply Forall_impl; [exact H4|]. cbn. lia.
  - split; cbn; try done. intros s Hs. apply H2. destruct (session t); set_solver.
Qed.

Lemma tinv_reached keep t : treachable keep t → tinv t.
Proof.
  unfold treachable. revert t. apply rtc_ind_r; [split; cbn; set_solver|]. intros t t' _ Hs Hi. by eapply tinv_step.
Qed.

(** A worker that punches may succeed. *)
Lemma punching_recovers t : worker t = Punching → ∃ t' s, rtc tstep t t' ∧ session t' = Some s ∧ s ∈ live t'.
Proof.
  intros Hw. exists (punched t true), (nextSession t). split_and!; [by apply rtc_once, t_punched|done|set_solver].
Qed.

Lemma waiting_recovers t : worker t = Waiting → ∃ t' s, rtc tstep t t' ∧ session t' = Some s ∧ s ∈ live t'.
Proof.
  intros Hw. set (id := fresh (dom (callers t))).
  assert (callers t !! id = None) as Hid by (apply not_elem_of_dom, is_fresh).
  set (t1 := set_callers t (<[id := Failed]> (callers t))).
  set (t2 := set_callers (session_Close t1) (<[id := AskingForTunnel]> (callers t1))).
  set (t3 := ask (set_callers t2 (delete id (callers t2)))).
  destruct (punching_recovers t3) as (t' & s & Hr & Hs); [unfold t3, ask; cbn; by rewrite Hw|].
  exists t', s. split; [|done].
  eapply rtc_l; [by apply (t_fail t id)|]. eapply rtc_l; [apply (t_close t1 id); cbn; apply lookup_insert_eq|].
  eapply rtc_l; [apply (t_ask t2 id); cbn; apply lookup_insert_eq|exact Hr].
Qed.

(** However its users, its worker and its failures interleave, a tunnel that
    is not closed can come back: from every reachable state there are steps that
    end with a live session which the next connections use; and connections are
    only ever given out on sessions that were established. *)
Theorem tunnel_recovers keep t :
  treachable keep t → closed t = false →
  (∃ t' s, rtc tstep t t' ∧ session t' = Some s ∧ s ∈ live t') ∧ Forall (λ s, (s < nextSession t)%nat) (handed t).
Proof.
  intros Hi%tinv_reached Hc. split; [|apply Hi]. destruct (worker t) eqn:Hw.
  - by apply waiting_recovers.
  - by apply punching_recovers.
  - destruct (waiting_recovers (set_worker t Waiting)) as (t' & s & Hr & Hs); [done|].
    exists t', s. split; [|done]. eapply rtc_l; [by apply t_wake|done].
  - apply (ti_done _ Hi) in Hw. congruence.
Qed.

(** A session that is live but not the current one stays so. *)
Lemma lost_stays s t t' :
  tinv t → s ∈ live t → session t ≠ Some s → rtc tstep t t' → s ∈ live t' ∧ session t' ≠ Some s.
Proof.
  intros Hi Hl Hs Hr. assert (tinv t' ∧ s ∈ live t' ∧ session t' ≠ Some s) as [_ ?]; [|done].
  revert t' Hr. apply rtc_ind_r; [done|]. intros t1 t2 _ Hst (Hi1 & Hl1 & Hs1). split; [by eapply tinv_step|].
  pose proof (ti_fresh _ Hi1 _ Hl1) as Hf.
  assert (∀ u, s ∈ live u → session u ≠ Some s → s ∈ live (session_Close u)) as Hcl.
  { intros u Hlu Hsu. cbn. destruct (session u) as [s'|]; [|done]. apply elem_of_difference. split; [done|].
    intros ->%elem_of_singleton. congruence. }
  destruct Hst as [u s0 Hs0|u id Hid|u id Hid|u id Hid|u Hk Hw|u ok Hw|u Hw|u Hw Hc|u]; cbn; try done.
  - split; [|done]. by apply Hcl.
  - unfold ask. cbn. by destruct (worker u).
  - destruct ok; cbn; [|done]. split; [set_solver|]. intros [= ?]. lia.
  - split; [|done]. by apply Hcl.
Qed.

(** Four calls that failed in a row, and the first asks for a tunnel. *)
Definition asking (keep : bool) (cs : gmap nat caller_state) : Tunnel := mkTunnel None ∅ Punching cs keep false 0 [].

Lemma asking_reached keep : treachable keep (asking keep {[1%nat := AskingForTunnel]}).
Proof.
  unfold treachable. set (t0 := start_tunnel keep).
  set (t1 := set_callers t0 {[0%nat := Failed]}). set (t2 := set_callers t0 {[0%nat := AskingForTunnel]}).
  set (t3 := asking keep ∅). set (t4 := asking keep {[1%nat := Failed]}).
  apply (rtc_l _ _ t1); [apply (t_fail t0 0); done|].
  apply (rtc_l _ _ t2); [apply (t_close t1 0); apply lookup_insert_eq|].
  apply (rtc_l _ _ t3); [apply (t_ask t2 0); apply lookup_insert_eq|].
  apply (rtc_l _ _ t4); [apply (t_fail t3 1); done|].
  apply rtc_once. apply (t_close t4 1). apply lookup_insert_eq.
Qed.

(** A user's request for a tunnel that is taken late replaces a session which
    is in use: the replaced session is never closed again. So is one that the
    worker establishes after the visitor was closed. *)
Theorem tunnel_leaks keep :
  (∃ t s, treachable keep t ∧ closed t = false ∧ s ∈ live t ∧ ∀ t', rtc tstep t t' → s ∈ live t' ∧ session t' ≠ Some s) ∧
  (∃ t s, treachable keep t ∧ closed t = true ∧ worker t = Done ∧ s ∈ live t).
Proof.
  pose proof (asking_reached keep) as Ha. set (t0 := asking keep {[1%nat := AskingForTunnel]}) in Ha. split.
  - set (t1 := punched t0 true). set (t2 := set_worker t1 Waiting).
    set (t3 := ask (set_callers t2 (delete 1%nat (callers t2)))). set (t4 := punched t3 true).
    assert (treachable keep t4) as H4.
    { unfold treachable. etrans; [exact Ha|]. apply (rtc_l _ _ t1); [by apply t_punched|].
      apply (rtc_l _ _ t2); [by apply t_wake|]. apply (rtc_l _ _ t3); [apply (t_ask t2 1); apply lookup_insert_eq|].
      apply rtc_once. by apply (t_punched t3 true). }
    assert (0%nat ∈ live t4) as Hl by (apply (bool_decide_eq_true_1 _); by vm_compute).
    exists t4, 0%nat. split_and!; [done|done|done|]. intros t' Hr. eapply lost_stays; [by eapply tinv_reached|done|done|done].
  - set (t1 := visitor_Close t0). set (t2 := punched t1 true). set (t3 := set_worker t2 Waiting).
    exists (set_worker t3 Done), 0%nat. split_and!; [|done|done|set_solver].
    unfold treachable; etrans; [exact Ha|]. eapply rtc_l; [apply (t_Close t0)|].
    eapply rtc_l; [by apply (t_punched t1 true)|]. eapply rtc_l; [by apply (t_wake t2)|]. apply rtc_once. by apply (t_exit t3).
Qed.

(** A call that found no session closes the one which was established since,
    before anyone used it. *)
Theorem fresh_tunnel_closed keep :
  ∃ t t' s id, treachable keep t ∧ callers t !! id = Some Failed ∧ session t = Some s ∧ s ∉ handed t ∧
    tstep t t' ∧ callers t' !! id = Some AskingForTunnel ∧ session t' = None ∧ s ∉ live t'.
Proof.
  pose proof (asking_reached keep) as Ha. set (t0 := asking keep {[1%nat := AskingForTunnel]}) in Ha.
  set (t1 := set_callers t0 (<[2%nat := Failed]> (callers t0))). set (t2 := punched t1 true).
  set (t3 := set_callers (session_Close t2) (<[2%nat := AskingForTunnel]> (callers t2))).
  exists t2, t3, 0%nat, 2%nat. split_and!; try done.
  - unfold treachable; etrans; [exact Ha|]. eapply rtc_l; [apply (t_fail t0 2); done|]. apply rtc_once. by apply (t_punched t1 true).
  - apply not_elem_of_nil.
  - apply (t_close t2 2). done.
Qed.

(** A connection was opened before the time was up. *)
Definition opened (evs : list event) (c : nat) : Prop := ∃ n post, evs = replicate n (Tick None) ++ Tick (Some c) :: post.

Lemma openTunnel_spec evs c : openTunnel evs = Some c ↔ opened evs c.
Proof.
  unfold opened. induction evs as [|[|[c'|]] evs IH]; cbn.
  - split; [done|]. intros (n & post & H). by destruct n.
  - split; [done|]. intros (n & post & H). by destruct n.
  - split; [intros [= ->]; by exists 0%nat, evs|]. intros (n & post & H). destruct n; by simplify_eq/=.
  - rewrite IH. split; intros (n & post & H).
    + exists (S n), post. by rewrite H.
    + destruct n as [|n]; simplify_eq/=. by exists n, post.
Qed.

(** What becomes of a user's connection at an xtcp visitor: it is joined to a
    tunnel connection exactly if one was opened before the time was up and can be
    encrypted as configured; without a tunnel it is passed on to the fallback
    visitor where one is configured and takes it; else it is closed. *)
Theorem xtcp_user_served cfg evs transfer_ok enc_ok :
  let encrypts := vt_UseEncryption (Transport (VisitorConfig.vxtcp_base cfg)) = true → enc_ok = true in
  let r := xtcp_handleConn cfg evs transfer_ok enc_ok in
  (∀ c, r = Joined c ↔ opened evs c ∧ encrypts) ∧
  (r = Transferred ↔ (∀ c, ¬ opened evs c) ∧ VisitorConfig.vxtcp_FallbackTo cfg ≠ "" ∧ transfer_ok = true) ∧
  (r = ClosedUser true ↔ (∃ c, opened evs c) ∧ ¬ encrypts).
Proof.
  cbv zeta. unfold xtcp_handleConn, wrapVisitorConn. setoid_rewrite <-openTunnel_spec.
  destruct (openTunnel evs) as [c|].
  - destruct (vt_UseEncryption _), enc_ok; cbn; naive_solver.
  - destruct (String.eqb_spec (VisitorConfig.vxtcp_FallbackTo cfg) ""), transfer_ok; naive_solver.
Qed.

(** ** Examples *)

Definition demo_cfg : VisitorBaseConfig :=
  VisitorConfig.mkVisitorBase "v" "stcp" None (VisitorConfig.mkVisitorTransport true false) "abc" "bob" "ssh" "127.0.0.1" 6000
    (VisitorConfig.mkTypedVisitorPlugin "" None).
Definition demo_vm : SecretProxies.Manager :=
  SecretProxies.mkManager {["bob.ssh" := SecretProxies.mkBundle 0 "abc" ["alice"; ""]]} {[0%nat := SecretProxies.NewInternalListener]} 1.

Lemma visitor_reaches_proxy_witness :
  let m := newVisitorConnMsg Auth.demo_md5 "alice" "" demo_cfg 7 in
  let '(vm', resp, closed) := handleNewVisitorConn Auth.demo_md5 "" true Sessions.NewService demo_vm 4 m "v2" true in
  dialRawVisitorConn (Some 4%nat) true resp = (Ok 4%nat, false).
Proof.
  pose proof (visitor_reaches_proxy Auth.demo_md5 "" true Sessions.NewService demo_vm 4 "alice" "" demo_cfg 7 "v2" true
    (λ b _, Auth.demo_md5_apart _ _)) as H.
  cbv zeta in H |- *. destruct (handleNewVisitorConn _ _ _ _ _ _ _ _ _) as [[vm' resp] closed]. destruct H as [H _].
  apply (H "" (SecretProxies.mkBundle 0 "abc" ["alice"; ""]) SecretProxies.NewInternalListener).
  split_and!; [done..| |done]. left. right. left.
Defined.

Lemma tunnel_recovers_witness :
  ∃ t' s, rtc tstep (asking false {[1%nat := AskingForTunnel]}) t' ∧ session t' = Some s ∧ s ∈ live t'.
Proof. exact (proj1 (tunnel_recovers false _ (asking_reached false) eq_refl)). Defined.
End VisitorConns.
