(* ===== verification/Legacy.v ===== *)
(** The legacy configuration, pkg/config/legacy: the structures that are read from
    INI files (client.go, server.go, proxy.go, visitor.go, pkg/auth/legacy), what
    is done to them after reading, the sections made of port ranges, and their
    conversion to the present configuration (conversion.go).

    Filling a structure from the keys of a section (gopkg.in/ini.v1) comes before:
    the models start from the structure and the keys. *)
From Stdlib Require Import ZArith Lia Ascii String.
From stdpp Require Import base gmap strings list fin_maps.
From S2P Require Import Prelude GoLib Ports ConfigTypes Config VisitorConfig Auth ServerPlugins FeatureGate CommonConfig.

Local Open Scope Z_scope.
Local Open Scope frp_scope.

Module Legacy.

(** ** Common parts *)

Record BaseAuth := mkBaseAuth { AuthenticationMethod : string; AuthenticateHeartBeats : bool; AuthenticateNewWorkConns : bool }.

Record OidcClientConfig := mkOidcClient {
  OidcClientID : string; OidcClientSecret : string; OidcAudience : string; OidcScope : string; OidcTokenEndpointURL : string;
  OidcAdditionalEndpointParams : gmap string string }.

Record ClientCommonConf := mkClientConf {
  c_Auth : BaseAuth; c_Oidc : OidcClientConfig; c_Token : string; c_ServerAddr : string; c_ServerPort : Z;
  c_NatHoleSTUNServer : string; c_DialServerTimeout : Z; c_DialServerKeepAlive : Z; c_ConnectServerLocalIP : string;
  c_HTTPProxy : string; c_LogFile : string; c_LogWay : string; c_LogLevel : string; c_LogMaxDays : Z; c_DisableLogColor : bool;
  c_AdminAddr : string; c_AdminPort : Z; c_AdminUser : string; c_AdminPwd : string; c_AssetsDir : string; c_PoolCount : Z;
  c_TCPMux : bool; c_TCPMuxKeepaliveInterval : Z; c_User : string; c_DNSServer : string; c_LoginFailExit : bool;
  c_Start : list string; c_Protocol : string; c_QUIC : CommonConfig.QUICOptions; c_TLSEnable : bool; c_TLSCertFile : string;
  c_TLSKeyFile : string; c_TLSTrustedCaFile : string; c_TLSServerName : string; c_DisableCustomTLSFirstByte : bool;
  c_HeartbeatInterval : Z; c_HeartbeatTimeout : Z; c_Metas : gmap string string; c_UDPPacketSize : Z;
  c_IncludeConfigFiles : list string; c_PprofEnable : bool }.

Record OidcServerConfig := mkOidcServer {
  s_OidcIssuer : string; s_OidcAudience : string; s_OidcSkipExpiryCheck : bool; s_OidcSkipIssuerCheck : bool }.

Record ServerCommonConf := mkServerConf {
  s_Auth : BaseAuth; s_Oidc : OidcServerConfig; s_Token : string; s_BindAddr : string; s_BindPort : Z; s_KCPBindPort : Z;
  s_QUICBindPort : Z; s_QUIC : CommonConfig.QUICOptions; s_ProxyBindAddr : string; s_VhostHTTPPort : Z; s_VhostHTTPSPort : Z;
  s_TCPMuxHTTPConnectPort : Z; s_TCPMuxPassthrough : bool; s_VhostHTTPTimeout : Z; s_DashboardAddr : string; s_DashboardPort : Z;
  s_DashboardTLSCertFile : string; s_DashboardTLSKeyFile : string; s_DashboardTLSMode : bool; s_DashboardUser : string;
  s_DashboardPwd : string; s_EnablePrometheus : bool; s_AssetsDir : string; s_LogFile : string; s_LogWay : string;
  s_LogLevel : string; s_LogMaxDays : Z; s_DisableLogColor : bool; s_DetailedErrorsToClient : bool; s_SubDomainHost : string;
  s_TCPMux : bool; s_TCPMuxKeepaliveInterval : Z; s_TCPKeepAlive : Z; s_Custom404Page : string; s_AllowPortsStr : string;
  s_MaxPoolCount : Z; s_MaxPortsPerClient : Z; s_TLSOnly : bool; s_TLSCertFile : string; s_TLSKeyFile : string;
  s_TLSTrustedCaFile : string; s_HeartbeatTimeout : Z; s_UserConnTimeout : Z;
  s_HTTPPlugins : gmap string ServerPlugins.HTTPPluginOptions; s_UDPPacketSize : Z; s_PprofEnable : bool;
  s_NatHoleAnalysisDataReserveHours : Z }.

Definition scopes (a : BaseAuth) : list string :=
  (if AuthenticateHeartBeats a then [Auth.AuthScopeHeartBeats] else []) ++
  (if AuthenticateNewWorkConns a then [Auth.AuthScopeNewWorkConns] else []).

Definition Convert_ClientCommonConf_To_v1 (c : ClientCommonConf) : CommonConfig.ClientCommonConfig :=
  CommonConfig.mkClientCommon ""
    (Auth.mkAuthClient (AuthenticationMethod (c_Auth c)) (scopes (c_Auth c)) (c_Token c) None
       (Auth.mkOIDCClient (OidcClientID (c_Oidc c)) (OidcClientSecret (c_Oidc c)) (OidcAudience (c_Oidc c)) (OidcScope (c_Oidc c))
          (OidcTokenEndpointURL (c_Oidc c)) (OidcAdditionalEndpointParams (c_Oidc c)) "" false "" None))
    (c_User c) "" (c_ServerAddr c) (c_ServerPort c) (c_NatHoleSTUNServer c) (c_DNSServer c) (Some (c_LoginFailExit c)) (c_Start c)
    (CommonConfig.mkLog (c_LogFile c) (c_LogLevel c) (c_LogMaxDays c) (c_DisableLogColor c))
    (CommonConfig.mkWebServer (c_AdminAddr c) (c_AdminPort c) (c_AdminUser c) (c_AdminPwd c) (c_AssetsDir c) (c_PprofEnable c) None)
    (CommonConfig.mkClientTransport (c_Protocol c) "" (c_DialServerTimeout c) (c_DialServerKeepAlive c) (c_ConnectServerLocalIP c)
       (c_HTTPProxy c) (c_PoolCount c) (Some (c_TCPMux c)) (c_TCPMuxKeepaliveInterval c) (c_QUIC c) (c_HeartbeatInterval c)
       (c_HeartbeatTimeout c)
       (CommonConfig.mkTLSClient (Some (c_TLSEnable c)) (Some (c_DisableCustomTLSFirstByte c))
          (CommonConfig.mkTLS (c_TLSCertFile c) (c_TLSKeyFile c) (c_TLSTrustedCaFile c) (c_TLSServerName c))))
    "" ∅ (c_UDPPacketSize c) (c_Metas c) (c_IncludeConfigFiles c) "".

(** [visit] lists the values of a map in the order in which it is ranged over. *)
Definition Convert_ServerCommonConf_To_v1
    (visit : gmap string ServerPlugins.HTTPPluginOptions → list ServerPlugins.HTTPPluginOptions) (c : ServerCommonConf) : CommonConfig.ServerConfig :=
  let tls := if s_DashboardTLSMode c
             then Some (CommonConfig.mkTLS (s_DashboardTLSCertFile c) (s_DashboardTLSKeyFile c) "" "") else None in
  CommonConfig.mkServer ""
    (Auth.mkAuthServer (AuthenticationMethod (s_Auth c)) (scopes (s_Auth c)) (s_Token c) None)
    (CommonConfig.mkOIDCServer (s_OidcIssuer (s_Oidc c)) (s_OidcAudience (s_Oidc c)) (s_OidcSkipExpiryCheck (s_Oidc c))
       (s_OidcSkipIssuerCheck (s_Oidc c)))
    (s_BindAddr c) (s_BindPort c) (s_KCPBindPort c) (s_QUICBindPort c) (s_ProxyBindAddr c) (s_VhostHTTPPort c)
    (s_VhostHTTPTimeout c) (s_VhostHTTPSPort c) (s_TCPMuxHTTPConnectPort c) (s_TCPMuxPassthrough c) (s_SubDomainHost c)
    (s_Custom404Page c) (CommonConfig.mkSSH 0 "" "" "")
    (CommonConfig.mkWebServer (s_DashboardAddr c) (s_DashboardPort c) (s_DashboardUser c) (s_DashboardPwd c) (s_AssetsDir c)
       (if s_DashboardTLSMode c then s_PprofEnable c else false) tls)
    (s_EnablePrometheus c) (CommonConfig.mkLog (s_LogFile c) (s_LogLevel c) (s_LogMaxDays c) (s_DisableLogColor c))
    (CommonConfig.mkServerTransport (Some (s_TCPMux c)) (s_TCPMuxKeepaliveInterval c) (s_TCPKeepAlive c) (s_MaxPoolCount c)
       (s_HeartbeatTimeout c) (s_QUIC c)
       (CommonConfig.mkTLSServer (s_TLSOnly c) (CommonConfig.mkTLS (s_TLSCertFile c) (s_TLSKeyFile c) (s_TLSTrustedCaFile c) "")))
    (Some (s_DetailedErrorsToClient c)) (s_MaxPortsPerClient c) (s_UserConnTimeout c) (s_UDPPacketSize c) 0
    (s_NatHoleAnalysisDataReserveHours c)
    (match ConfigTypes.NewPortsRangeSliceFromString (s_AllowPortsStr c) with Ok ports => ports | Err _ => [] end)
    (visit (s_HTTPPlugins c)).

(** [ClientCommonConf.Validate], which tells of one error. *)
Definition client_Validate (absDir : string → option string) (dir_exists : string → bool) (c : ClientCommonConf) : option CommonConfig.error :=
  if (0 <? c_HeartbeatTimeout c) && (0 <? c_HeartbeatInterval c) && (c_HeartbeatTimeout c <? c_HeartbeatInterval c)
  then Some CommonConfig.ErrHeartbeat
  else if negb (CommonConfig.Contains ["tcp"; "kcp"; "quic"; "websocket"; "wss"] (c_Protocol c)) then Some CommonConfig.ErrProtocol
  else head (CommonConfig.validateIncludeFiles absDir dir_exists (c_IncludeConfigFiles c)).

(** ** Proxies, proxy.go *)

Record BaseProxyConf := mkBaseProxy {
  ProxyName : string; ProxyType : string; b_UseEncryption : bool; b_UseCompression : bool; b_Group : string; b_GroupKey : string;
  b_ProxyProtocolVersion : string; b_BandwidthLimit : ConfigTypes.BandwidthQuantity; b_BandwidthLimitMode : string;
  b_Metas : gmap string string;
  b_LocalIP : string; b_LocalPort : Z; b_Plugin : string; b_PluginParams : gmap string string;
  b_HealthCheckType : string; b_HealthCheckTimeoutS : Z; b_HealthCheckMaxFailed : Z; b_HealthCheckIntervalS : Z;
  b_HealthCheckURL : string; b_HealthCheckAddr : string }.

Record DomainConf := mkDomain { d_CustomDomains : list string; d_SubDomain : string }.
Record RoleServerCommonConf := mkRole { r_Role : string; r_Sk : string; r_AllowUsers : list string }.

Record TCPProxyConf := mkTCPConf { t_base : BaseProxyConf; t_RemotePort : Z }.
Record UDPProxyConf := mkUDPConf { u_base : BaseProxyConf; u_RemotePort : Z }.
Record HTTPProxyConf := mkHTTPConf {
  h_base : BaseProxyConf; h_Domain : DomainConf; h_Locations : list string; h_HTTPUser : string; h_HTTPPwd : string;
  h_HostHeaderRewrite : string; h_Headers : gmap string string; h_RouteByHTTPUser : string }.
Record HTTPSProxyConf := mkHTTPSConf { hs_base : BaseProxyConf; hs_Domain : DomainConf }.
Record TCPMuxProxyConf := mkTCPMuxConf {
  m_base : BaseProxyConf; m_Domain : DomainConf; m_HTTPUser : string; m_HTTPPwd : string; m_RouteByHTTPUser : string;
  m_Multiplexer : string }.
Record STCPProxyConf := mkSTCPConf { st_base : BaseProxyConf; st_Role : RoleServerCommonConf }.
Record XTCPProxyConf := mkXTCPConf { xt_base : BaseProxyConf; xt_Role : RoleServerCommonConf }.
Record SUDPProxyConf := mkSUDPConf { su_base : BaseProxyConf; su_Role : RoleServerCommonConf }.

Inductive ProxyConf :=
| PTCP (c : TCPProxyConf) | PUDP (c : UDPProxyConf) | PTCPMUX (c : TCPMuxProxyConf) | PHTTP (c : HTTPProxyConf)
| PHTTPS (c : HTTPSProxyConf) | PSTCP (c : STCPProxyConf) | PXTCP (c : XTCPProxyConf) | PSUDP (c : SUDPProxyConf).

Definition GetBaseConfig (c : ProxyConf) : BaseProxyConf :=
  match c with
  | PTCP c => t_base c | PUDP c => u_base c | PTCPMUX c => m_base c | PHTTP c => h_base c | PHTTPS c => hs_base c
  | PSTCP c => st_base c | PXTCP c => xt_base c | PSUDP c => su_base c
  end.

(** Writing through the pointer [GetBaseConfig] returns. *)
Definition set_base (c : ProxyConf) (b : BaseProxyConf) : ProxyConf :=
  match c with
  | PTCP c => PTCP (mkTCPConf b (t_RemotePort c)) | PUDP c => PUDP (mkUDPConf b (u_RemotePort c))
  | PTCPMUX c => PTCPMUX (mkTCPMuxConf b (m_Domain c) (m_HTTPUser c) (m_HTTPPwd c) (m_RouteByHTTPUser c) (m_Multiplexer c))
  | PHTTP c => PHTTP (mkHTTPConf b (h_Domain c) (h_Locations c) (h_HTTPUser c) (h_HTTPPwd c) (h_HostHeaderRewrite c)
                        (h_Headers c) (h_RouteByHTTPUser c))
  | PHTTPS c => PHTTPS (mkHTTPSConf b (hs_Domain c)) | PSTCP c => PSTCP (mkSTCPConf b (st_Role c))
  | PXTCP c => PXTCP (mkXTCPConf b (xt_Role c)) | PSUDP c => PSUDP (mkSUDPConf b (su_Role c))
  end.

(** The key of [proxyConfTypeMap] for a structure. *)
Definition kind (c : ProxyConf) : string :=
  match c with
  | PTCP _ => "tcp" | PUDP _ => "udp" | PTCPMUX _ => "tcpmux" | PHTTP _ => "http" | PHTTPS _ => "https"
  | PSTCP _ => "stcp" | PXTCP _ => "xtcp" | PSUDP _ => "sudp"
  end.

Definition zero_base : BaseProxyConf :=
  mkBaseProxy "" "" false false "" "" "" (ConfigTypes.mkBandwidthQuantity "" 0) "" ∅ "" 0 "" ∅ "" 0 0 0 "" "".
Definition zero_domain : DomainConf := mkDomain [] "".
Definition zero_role : RoleServerCommonConf := mkRole "" "" [].

Definition proxyConfTypeMap : list (string * ProxyConf) :=
  [("tcp", PTCP (mkTCPConf zero_base 0)); ("udp", PUDP (mkUDPConf zero_base 0));
   ("tcpmux", PTCPMUX (mkTCPMuxConf zero_base zero_domain "" "" "" ""));
   ("http", PHTTP (mkHTTPConf zero_base zero_domain [] "" "" "" ∅ ""));
   ("https", PHTTPS (mkHTTPSConf zero_base zero_domain)); ("stcp", PSTCP (mkSTCPConf zero_base zero_role));
   ("xtcp", PXTCP (mkXTCPConf zero_base zero_role)); ("sudp", PSUDP (mkSUDPConf zero_base zero_role))].

Definition NewConfByType (proxyType : string) : option ProxyConf :=
  snd <$> first_match (λ e, String.eqb (fst e) proxyType) proxyConfTypeMap.

Definition DefaultProxyConf (proxyType : string) : option ProxyConf := NewConfByType proxyType.

(** ** Maps of keys, utils.go. A nil map and an empty one are read alike. *)

Definition GetMapWithoutPrefix (set : gmap string string) (prefix : string) : gmap string string :=
  list_to_map (omap (λ kv, trimmed ← CutPrefix (fst kv) prefix; Some (trimmed, snd kv)) (map_to_list set)).

Definition GetMapByPrefix (set : gmap string string) (prefix : string) : gmap string string :=
  filter (λ kv, HasPrefix (fst kv) prefix = true) set.

(** ** Visitors, visitor.go *)

Record BaseVisitorConf := mkBaseVisitor {
  v_ProxyName : string; v_ProxyType : string; v_UseEncryption : bool; v_UseCompression : bool; v_Role : string; v_Sk : string;
  v_ServerUser : string; v_ServerName : string; v_BindAddr : string; v_BindPort : Z }.

Record SUDPVisitorConf := mkSUDPV { vsu_base : BaseVisitorConf }.
Record STCPVisitorConf := mkSTCPV { vst_base : BaseVisitorConf }.
Record XTCPVisitorConf := mkXTCPV {
  vx_base : BaseVisitorConf; vx_Protocol : string; vx_KeepTunnelOpen : bool; vx_MaxRetriesAnHour : Z; vx_MinRetryInterval : Z;
  vx_FallbackTo : string; vx_FallbackTimeoutMs : Z }.

Inductive VisitorConf := VSTCP (c : STCPVisitorConf) | VXTCP (c : XTCPVisitorConf) | VSUDP (c : SUDPVisitorConf).

Definition v_GetBaseConfig (c : VisitorConf) : BaseVisitorConf :=
  match c with VSTCP c => vst_base c | VXTCP c => vx_base c | VSUDP c => vsu_base c end.

Definition v_set_base (c : VisitorConf) (b : BaseVisitorConf) : VisitorConf :=
  match c with
  | VSTCP _ => VSTCP (mkSTCPV b) | VSUDP _ => VSUDP (mkSUDPV b)
  | VXTCP c => VXTCP (mkXTCPV b (vx_Protocol c) (vx_KeepTunnelOpen c) (vx_MaxRetriesAnHour c) (vx_MinRetryInterval c)
                        (vx_FallbackTo c) (vx_FallbackTimeoutMs c))
  end.

Definition v_kind (c : VisitorConf) : string := match c with VSTCP _ => "stcp" | VXTCP _ => "xtcp" | VSUDP _ => "sudp" end.

Definition zero_visitor : BaseVisitorConf := mkBaseVisitor "" "" false false "" "" "" "" "" 0.

Definition visitorConfTypeMap : list (string * VisitorConf) :=
  [("stcp", VSTCP (mkSTCPV zero_visitor)); ("xtcp", VXTCP (mkXTCPV zero_visitor "" false 0 0 "" 0));
   ("sudp", VSUDP (mkSUDPV zero_visitor))].

Definition DefaultVisitorConf (visitorType : string) : option VisitorConf :=
  snd <$> first_match (λ e, String.eqb (fst e) visitorType) visitorConfTypeMap.

(** [BaseVisitorConf.unmarshalFromIni]. *)
Definition base_unmarshalFromIni (name : string) (c : BaseVisitorConf) : BaseVisitorConf :=
  mkBaseVisitor name (v_ProxyType c) (v_UseEncryption c) (v_UseCompression c) (v_Role c) (v_Sk c) (v_ServerUser c)
    (v_ServerName c) (Config.EmptyOr (v_BindAddr c) "127.0.0.1") (v_BindPort c).

Definition positive_or (v d : Z) : Z := if v <=? 0 then d else v.

(** What [UnmarshalFromIni] of the three kinds adds after the base. *)
Definition visitor_defaults (c : VisitorConf) : VisitorConf :=
  match c with
  | VXTCP c => VXTCP (mkXTCPV (vx_base c) (Config.EmptyOr (vx_Protocol c) "quic") (vx_KeepTunnelOpen c)
                        (positive_or (vx_MaxRetriesAnHour c) 8) (positive_or (vx_MinRetryInterval c) 90) (vx_FallbackTo c)
                        (positive_or (vx_FallbackTimeoutMs c) 1000))
  | _ => c
  end.

(** ** Conversion of proxies and visitors, conversion.go *)

Definition transformHeadersFromPluginParams (params : gmap string string) : Config.HeaderOperations :=
  Config.mkHeaderOperations
    (list_to_map (omap (λ kv, k ← CutPrefix (fst kv) "plugin_header_";
                              if String.eqb k "" then None else Some (k, snd kv)) (map_to_list params))).

(** [base.PluginParams["plugin_…"]]. *)
Definition param (params : gmap string string) (k : string) : string := default "" (params !! k).

Definition convert_plugin (plugin : string) (ps : gmap string string) : option Config.ClientPluginOptions :=
  let headers := transformHeadersFromPluginParams ps in
  if String.eqb plugin "http2https" then
    Some (Config.PHTTP2HTTPS (Config.mkHTTP2HTTPSOptions "" (param ps "plugin_local_addr") (param ps "plugin_host_header_rewrite") headers))
  else if String.eqb plugin "http_proxy" then
    Some (Config.PHTTPProxy (Config.mkHTTPProxyOptions "" (param ps "plugin_http_user") (param ps "plugin_http_passwd")))
  else if String.eqb plugin "https2http" then
    Some (Config.PHTTPS2HTTP (Config.mkHTTPS2HTTPOptions "" (param ps "plugin_local_addr") (param ps "plugin_host_header_rewrite")
      headers None (param ps "plugin_crt_path") (param ps "plugin_key_path")))
  else if String.eqb plugin "https2https" then
    Some (Config.PHTTPS2HTTPS (Config.mkHTTPS2HTTPSOptions "" (param ps "plugin_local_addr") (param ps "plugin_host_header_rewrite")
      headers None (param ps "plugin_crt_path") (param ps "plugin_key_path")))
  else if String.eqb plugin "socks5" then
    Some (Config.PSocks5 (Config.mkSocks5Options "" (param ps "plugin_user") (param ps "plugin_passwd")))
  else if String.eqb plugin "static_file" then
    Some (Config.PStaticFile (Config.mkStaticFileOptions "" (param ps "plugin_local_path") (param ps "plugin_strip_prefix")
      (param ps "plugin_http_user") (param ps "plugin_http_passwd")))
  else if String.eqb plugin "unix_domain_socket" then
    Some (Config.PUnixDomainSocket (Config.mkUnixDomainSocketOptions "" (param ps "plugin_unix_path")))
  else None.

Definition Convert_ProxyConf_To_v1_Base (conf : ProxyConf) : Config.ProxyBaseConfig :=
  let base := GetBaseConfig conf in
  Config.mkProxyBase (ProxyName base) (ProxyType base) None ∅
    (Config.mkProxyTransport (b_UseEncryption base) (b_UseCompression base) (b_BandwidthLimit base) (b_BandwidthLimitMode base)
       (b_ProxyProtocolVersion base))
    (b_Metas base) (Config.mkLoadBalancer (b_Group base) (b_GroupKey base))
    (Config.mkHealthCheck (b_HealthCheckType base) (b_HealthCheckTimeoutS base) (b_HealthCheckMaxFailed base)
       (b_HealthCheckIntervalS base) (b_HealthCheckURL base) [])
    (Config.mkProxyBackend (b_LocalIP base) (b_LocalPort base)
       (Config.mkTypedPlugin (b_Plugin base) (convert_plugin (b_Plugin base) (b_PluginParams base)))).

Definition convert_domain (d : DomainConf) : Config.DomainConfig := Config.mkDomainConfig (d_CustomDomains d) (d_SubDomain d).

Definition Convert_ProxyConf_To_v1 (conf : ProxyConf) : Config.ProxyConfigurer :=
  let outBase := Convert_ProxyConf_To_v1_Base conf in
  match conf with
  | PTCP v => Config.CTCP (Config.mkTCP outBase (t_RemotePort v))
  | PUDP v => Config.CUDP (Config.mkUDP outBase (u_RemotePort v))
  | PHTTP v =>
      Config.CHTTP (Config.mkHTTP outBase (convert_domain (h_Domain v)) (h_Locations v) (h_HTTPUser v) (h_HTTPPwd v)
        (h_HostHeaderRewrite v) (Config.mkHeaderOperations (h_Headers v)) (Config.mkHeaderOperations ∅) (h_RouteByHTTPUser v))
  | PHTTPS v => Config.CHTTPS (Config.mkHTTPS outBase (convert_domain (hs_Domain v)))
  | PTCPMUX v =>
      Config.CTCPMux (Config.mkTCPMux outBase (convert_domain (m_Domain v)) (m_HTTPUser v) (m_HTTPPwd v) (m_RouteByHTTPUser v)
        (m_Multiplexer v))
  | PSTCP v => Config.CSTCP (Config.mkSTCP outBase (r_Sk (st_Role v)) (r_AllowUsers (st_Role v)))
  | PSUDP v => Config.CSUDP (Config.mkSUDP outBase (r_Sk (su_Role v)) (r_AllowUsers (su_Role v)))
  | PXTCP v => Config.CXTCP (Config.mkXTCP outBase (r_Sk (xt_Role v)) (r_AllowUsers (xt_Role v)) None)
  end.

Definition Convert_VisitorConf_To_v1_Base (conf : VisitorConf) : VisitorConfig.VisitorBaseConfig :=
  let base := v_GetBaseConfig conf in
  VisitorConfig.mkVisitorBase (v_ProxyName base) (v_ProxyType base) None
    (VisitorConfig.mkVisitorTransport (v_UseEncryption base) (v_UseCompression base)) (v_Sk base) (v_ServerUser base)
    (v_ServerName base) (v_BindAddr base) (v_BindPort base) (VisitorConfig.mkTypedVisitorPlugin "" None).

Definition Convert_VisitorConf_To_v1 (conf : VisitorConf) : VisitorConfig.VisitorConfigurer :=
  let outBase := Convert_VisitorConf_To_v1_Base conf in
  match conf with
  | VSTCP _ => VisitorConfig.VSTCP (VisitorConfig.mkSTCPVisitor outBase)
  | VSUDP _ => VisitorConfig.VSUDP (VisitorConfig.mkSUDPVisitor outBase)
  | VXTCP v =>
      VisitorConfig.VXTCP (VisitorConfig.mkXTCPVisitor outBase (vx_Protocol v) (vx_KeepTunnelOpen v) (vx_MaxRetriesAnHour v)
        (vx_MinRetryInterval v) (vx_FallbackTo v) (vx_FallbackTimeoutMs v) None)
  end.

(** ** Reading sections, client.go, server.go, proxy.go and visitor.go *)

Definition default_auth : BaseAuth := mkBaseAuth "token" false false.

Definition GetDefaultClientConf : ClientCommonConf :=
  mkClientConf default_auth (mkOidcClient "" "" "" "" "" ∅) "" "" 0 "" 0 0 "" "" "" "" "" 0 false "" 0 "" "" "" 0 true 0 "" "" true []
    "tcp" (CommonConfig.mkQUIC 0 0 0) true "" "" "" "" true 0 0 ∅ 0 [] false.

Definition GetDefaultServerConf : ServerCommonConf :=
  mkServerConf default_auth (mkOidcServer "" "" false false) "" "" 0 0 0 (CommonConfig.mkQUIC 0 0 0) "" 0 0 0 false 0 "0.0.0.0" 0
    "" "" false "" "" false "" "console" "console" "" 0 false true "" true 0 0 "" "" 0 0 false "" "" "" 0 0 ∅ 0 false 0.

(** A section and its [KeysHash]. A file is the list of its sections. *)
Record Sec := mkSec { sec_Name : string; KeysHash : gmap string string }.

(** What the code uses of gopkg.in/ini.v1: [Key s k] is [s.Key(k).String()], the
    mappings fill a structure from a section, and the last two change a file. *)
Class Ini := {
  LoadSources : string → option (list Sec);
  GetSection : list Sec → string → option Sec;
  Key : Sec → string → string;
  GetKey : Sec → string → option string;
  MapTo_client : Sec → ClientCommonConf → option ClientCommonConf;
  MapTo_server : Sec → ServerCommonConf → option ServerCommonConf;
  MapTo_plugin : Sec → ServerPlugins.HTTPPluginOptions → option ServerPlugins.HTTPPluginOptions;
  MapTo_proxy : Sec → ProxyConf → option ProxyConf;
  MapTo_visitor : Sec → VisitorConf → option VisitorConf;
  NewSection : list Sec → string → option (list Sec);
  NewKey : list Sec → string → string → string → option (list Sec) }.

Inductive error :=
| ErrLoad | ErrNoCommon | ErrMap | ErrBandwidth (e : ConfigTypes.bandwidth_error) | ErrInvalidType (t : string)
| ErrTypeEmpty | ErrVisitorType (t : string) | ErrPortsEmpty | ErrPorts (e : ConfigTypes.range_error) | ErrPortsDiffer
| ErrPortsNecessary | ErrNewSection | ErrNewKey (k : string) | ErrTemplate (name : string) (e : error)
| ErrProxy (name : string) (e : error) | ErrVisitor (name : string) (e : error) | ErrRole (name : string).

Section Reading.
Context `{Ini} {float64 : Type} (ParseFloat : string → option float64) (scale : float64 → Z → Z).

Definition UnmarshalClientConfFromIni (source : string) : res error ClientCommonConf :=
  match LoadSources source with
  | None => Err ErrLoad
  | Some f =>
      match GetSection f "common" with
      | None => Err ErrNoCommon
      | Some s =>
          match MapTo_client s GetDefaultClientConf with
          | None => Err ErrMap
          | Some (mkClientConf a o tk sa sp ns dt dk ci hp lf lw ll lm dc aa ap au aw ad pc tm ti us dn le st pr qc te tc tkf ta tn df hi ht _ ud inc pp) =>
              Ok (mkClientConf a
                    (mkOidcClient (OidcClientID o) (OidcClientSecret o) (OidcAudience o) (OidcScope o) (OidcTokenEndpointURL o)
                       (GetMapWithoutPrefix (KeysHash s) "oidc_additional_"))
                    tk sa sp ns dt dk ci hp lf lw ll lm dc aa ap au aw ad pc tm ti us dn le st pr qc te tc tkf ta tn df hi ht
                    (GetMapWithoutPrefix (KeysHash s) "meta_") ud inc pp)
          end
      end
  end.

Definition TrimPrefix (s prefix : string) : string := default s (CutPrefix s prefix).

Definition loadHTTPPluginOpt (s : Sec) : res error ServerPlugins.HTTPPluginOptions :=
  let name := TrimSpace (TrimPrefix (sec_Name s) "plugin.") in
  match MapTo_plugin s (ServerPlugins.mkPluginOptions "" "" "" [] false) with
  | None => Err ErrMap
  | Some o => Ok (ServerPlugins.mkPluginOptions name (ServerPlugins.po_Addr o) (ServerPlugins.po_Path o) (ServerPlugins.po_Ops o)
                    (ServerPlugins.po_TLSVerify o))
  end.

Fixpoint load_plugins (opts : gmap string ServerPlugins.HTTPPluginOptions) (f : list Sec) :
    res error (gmap string ServerPlugins.HTTPPluginOptions) :=
  match f with
  | [] => Ok opts
  | s :: f' =>
      if negb (HasPrefix (sec_Name s) "plugin.") then load_plugins opts f'
      else match loadHTTPPluginOpt s with
           | Err e => Err e
           | Ok o => load_plugins (<[ServerPlugins.po_Name o := o]> opts) f'
           end
  end.

Definition UnmarshalServerConfFromIni (source : string) : res error ServerCommonConf :=
  match LoadSources source with
  | None => Err ErrLoad
  | Some f =>
      match GetSection f "common" with
      | None => Err ErrNoCommon
      | Some s =>
          match MapTo_server s GetDefaultServerConf with
          | None => Err ErrMap
          | Some (mkServerConf a o tk ba bp kp qp qc pb vh vs tmp tpt vt da dp dc dk dm du dw ep ad lf lw ll lm lc de sh tm ti tka c4 ap mp mpc to tcf tkf tca ht ut _ up pp nh) =>
              let allowPortStr := Key s "allow_ports" in
              match load_plugins ∅ f with
              | Err e => Err e
              | Ok plugins =>
                  Ok (mkServerConf a o tk ba bp kp qp qc pb vh vs tmp tpt vt da dp dc dk dm du dw ep ad lf lw ll lm lc de sh tm ti
                        tka c4 (if String.eqb allowPortStr "" then ap else allowPortStr) mp mpc to tcf tkf tca ht ut plugins up pp nh)
              end
          end
      end
  end.

(** [BaseProxyConf.decorate]. *)
Definition decorate (name : string) (s : Sec) (c : BaseProxyConf) : res error BaseProxyConf :=
  let finish bw :=
    mkBaseProxy name (ProxyType c) (b_UseEncryption c) (b_UseCompression c) (b_Group c) (b_GroupKey c) (b_ProxyProtocolVersion c)
      bw (b_BandwidthLimitMode c) (GetMapWithoutPrefix (KeysHash s) "meta_") (b_LocalIP c) (b_LocalPort c) (b_Plugin c)
      (GetMapByPrefix (KeysHash s) "plugin_") (b_HealthCheckType c) (b_HealthCheckTimeoutS c) (b_HealthCheckMaxFailed c)
      (b_HealthCheckIntervalS c) (b_HealthCheckURL c) (b_HealthCheckAddr c) in
  match GetKey s "bandwidth_limit" with
  | None => Ok (finish (b_BandwidthLimit c))
  | Some bandwidth =>
      match ConfigTypes.NewBandwidthQuantity ParseFloat scale bandwidth with
      | Err e => Err (ErrBandwidth e)
      | Ok bw => Ok (finish bw)
      end
  end.

Definition preUnmarshalFromIni (name : string) (s : Sec) (c : ProxyConf) : res error ProxyConf :=
  match MapTo_proxy s c with
  | None => Err ErrMap
  | Some c => match decorate name s (GetBaseConfig c) with Err e => Err e | Ok b => Ok (set_base c b) end
  end.

Definition default_role (r : RoleServerCommonConf) : RoleServerCommonConf :=
  mkRole (Config.EmptyOr (r_Role r) "server") (r_Sk r) (r_AllowUsers r).

Definition UnmarshalFromIni (name : string) (s : Sec) (c : ProxyConf) : res error ProxyConf :=
  match preUnmarshalFromIni name s c with
  | Err e => Err e
  | Ok c =>
      Ok (match c with
          | PHTTP c => PHTTP (mkHTTPConf (h_base c) (h_Domain c) (h_Locations c) (h_HTTPUser c) (h_HTTPPwd c) (h_HostHeaderRewrite c)
                                (GetMapWithoutPrefix (KeysHash s) "header_") (h_RouteByHTTPUser c))
          | PSTCP c => PSTCP (mkSTCPConf (st_base c) (default_role (st_Role c)))
          | PXTCP c => PXTCP (mkXTCPConf (xt_base c) (default_role (xt_Role c)))
          | c => c
          end)
  end.

Definition NewProxyConfFromIni (name : string) (s : Sec) : res error ProxyConf :=
  let proxyType := Config.EmptyOr (Key s "type") "tcp" in
  match DefaultProxyConf proxyType with
  | None => Err (ErrInvalidType proxyType)
  | Some conf => UnmarshalFromIni name s conf
  end.

Definition visitor_UnmarshalFromIni (name : string) (s : Sec) (c : VisitorConf) : res error VisitorConf :=
  match MapTo_visitor s c with
  | None => Err ErrMap
  | Some c => Ok (visitor_defaults (v_set_base c (base_unmarshalFromIni name (v_GetBaseConfig c))))
  end.

Definition NewVisitorConfFromIni (name : string) (s : Sec) : res error VisitorConf :=
  let visitorType := Key s "type" in
  if String.eqb visitorType "" then Err ErrTypeEmpty
  else match DefaultVisitorConf visitorType with
       | None => Err (ErrVisitorType visitorType)
       | Some conf =>
           match visitor_UnmarshalFromIni name s conf with
           | Err _ => Err (ErrVisitorType visitorType)
           | Ok conf => Ok conf
           end
       end.

(** *** Sections made of port ranges *)

(** The section a pointer of that name leads to. *)
Definition deref (f : list Sec) (name : string) : Sec :=
  default (mkSec name ∅) (first_match (λ s, String.eqb (sec_Name s) name) f).

(** Errors of [NewKey] are ignored. *)
Definition copySection (source : Sec) (target : string) (f : list Sec) : list Sec :=
  foldl (λ f kv, default f (NewKey f target (fst kv) (snd kv))) f (map_to_list (KeysHash source)).

Definition tmpname (prefix : string) (i : Z) : string := prefix +:+ "_" +:+ Itoa i.

Fixpoint render_loop (source : Sec) (prefix : string) (f : list Sec) (i : Z) (ports : list (Z * Z)) : res error (list Sec) :=
  match ports with
  | [] => Ok f
  | (localPort, remotePort) :: ports' =>
      let n := tmpname prefix i in
      match NewSection f n with
      | None => Err ErrNewSection
      | Some f =>
          match NewKey (copySection source n f) n "local_port" (Itoa localPort) with
          | None => Err (ErrNewKey "local_port")
          | Some f =>
              match NewKey f n "remote_port" (Itoa remotePort) with
              | None => Err (ErrNewKey "remote_port")
              | Some f => render_loop source prefix f (i + 1) ports'
              end
          end
      end
  end.

(** [None] when the fuel does not see the end of a range. *)
Definition renderRangeProxyTemplates (fuel : nat) (f : list Sec) (name : string) : option (res error (list Sec)) :=
  let s := deref f name in
  let localPortStr := Key s "local_port" in
  let remotePortStr := Key s "remote_port" in
  if String.eqb localPortStr "" || String.eqb remotePortStr "" then Some (Err ErrPortsEmpty)
  else match ConfigTypes.ParseRangeNumbers fuel localPortStr with
       | None => None
       | Some (_, Some e) => Some (Err (ErrPorts e))
       | Some (localPorts, None) =>
           match ConfigTypes.ParseRangeNumbers fuel remotePortStr with
           | None => None
           | Some (_, Some e) => Some (Err (ErrPorts e))
           | Some (remotePorts, None) =>
               Some (if negb (length localPorts =? length remotePorts)%nat then Err ErrPortsDiffer
                     else if (length localPorts =? 0)%nat then Err ErrPortsNecessary
                     else render_loop s (TrimSpace (TrimPrefix name "range:")) f 0 (zip localPorts remotePorts))
           end
       end.

Fixpoint render_all (fuel : nat) (f : list Sec) (names : list string) : option (res error (list Sec)) :=
  match names with
  | [] => Some (Ok f)
  | name :: names' =>
      match renderRangeProxyTemplates fuel f name with
      | None => None
      | Some (Err e) => Some (Err (ErrTemplate name e))
      | Some (Ok f) => render_all fuel f names'
      end
  end.

(** *** All proxies and visitors *)

(** A section that makes a proxy or a visitor: not common, not a template, and
    among those to start. *)
Definition selected (start : list string) (name : string) : bool :=
  negb (String.eqb name "DEFAULT" || String.eqb name "common" || HasPrefix name "range:") &&
  (bool_decide (start = []) || bool_decide (name ∈ start)).

Fixpoint load_sections (prefix : string) (start : list string) (ps : gmap string ProxyConf) (vs : gmap string VisitorConf)
    (f : list Sec) : res error (gmap string ProxyConf * gmap string VisitorConf) :=
  match f with
  | [] => Ok (ps, vs)
  | s :: f' =>
      let name := sec_Name s in
      if negb (selected start name) then load_sections prefix start ps vs f'
      else
        let roleType := Config.EmptyOr (Key s "role") "server" in
        if String.eqb roleType "server" then
          match NewProxyConfFromIni name s with
          | Err e => Err (ErrProxy name e)
          | Ok c => load_sections prefix start (<[prefix +:+ name := c]> ps) vs f'
          end
        else if String.eqb roleType "visitor" then
          match NewVisitorConfFromIni name s with
          | Err e => Err (ErrVisitor name e)
          | Ok c => load_sections prefix start ps (<[prefix +:+ name := c]> vs) f'
          end
        else Err (ErrRole name)
  end.

Definition LoadAllProxyConfsFromIni (fuel : nat) (prefix source : string) (start : list string) :
    option (res error (gmap string ProxyConf * gmap string VisitorConf)) :=
  match LoadSources source with
  | None => Some (Err ErrLoad)
  | Some f =>
      let prefix := if String.eqb prefix "" then prefix else prefix +:+ "." in
      match render_all fuel f (filter (λ n, HasPrefix n "range:" = true) (sec_Name <$> f)) with
      | None => None
      | Some (Err e) => Some (Err e)
      | Some (Ok f) => Some (load_sections prefix start ∅ ∅ f)
      end
  end.
End Reading.

(** ** Laws of the INI library *)

(** A new section is empty and last; a key is written in the section of that name
    and nowhere else; mapping fills the structure it is given and its [type] key. *)
Class IniLaws `{Ini} := {
  new_section f n : n ≠ "" → n ∉ sec_Name <$> f → NewSection f n = Some (f ++ [mkSec n ∅]);
  new_key f n m k v : k ≠ "" → n ∉ sec_Name <$> f → NewKey (f ++ [mkSec n m]) n k v = Some (f ++ [mkSec n (<[k := v]> m)]);
  map_kind s c c' : MapTo_proxy s c = Some c' → kind c' = kind c;
  map_type s c c' : MapTo_proxy s c = Some c' → ProxyType (GetBaseConfig c) = "" → ProxyType (GetBaseConfig c') = Key s "type" }.

(** ** Lemmas *)

Lemma legacy_GetBaseConfig_set c b : GetBaseConfig (set_base c b) = b.
Proof. by destruct c. Qed.

Lemma kind_set c b : kind (set_base c b) = kind c.
Proof. by destruct c. Qed.

Lemma NewConfByType_Some t c : NewConfByType t = Some c → kind c = t ∧ GetBaseConfig c = zero_base.
Proof.
  unfold NewConfByType. intros Hc. destruct (first_match _ _) as [[t' c']|] eqn:Hm; [|done]. injection Hc as <-.
  apply first_match_elem_of in Hm as [Hin Ht]. simpl in Ht. apply String.eqb_eq in Ht as <-. unfold proxyConfTypeMap in Hin.
  repeat (apply elem_of_cons in Hin as [[= -> ->]|Hin]; [done|]). set_solver.
Qed.

Section Templates.
Context `{IniLaws}.

Lemma copySection_spec source f n m :
  n ∉ sec_Name <$> f → KeysHash source !! "" = None →
  copySection source n (f ++ [mkSec n m]) = f ++ [mkSec n (KeysHash source ∪ m)].
Proof.
  intros Hn Hk. unfold copySection. rewrite <-(list_to_map_to_list (KeysHash source)) at 2.
  assert (∀ kv, kv ∈ map_to_list (KeysHash source) → fst kv ≠ "") as Hne.
  { intros [k v] Hkv%elem_of_map_to_list Hk0. cbn in Hk0. congruence. }
  pose proof (NoDup_fst_map_to_list (KeysHash source)) as Hnd.
  revert m. induction (map_to_list (KeysHash source)) as [|[k v] l IH]; intros m; cbn [foldl fst snd].
  - by rewrite list_to_map_nil, (left_id_L ∅ (∪)).
  - apply NoDup_cons in Hnd as [Hkl Hnd]. rewrite new_key by (try done; apply (Hne (k, v)); set_solver).
    change (default _ (Some ?x)) with x. rewrite IH by set_solver. do 3 f_equal. rewrite list_to_map_cons, <-insert_union_r, insert_union_l; [done|].
    by apply not_elem_of_list_to_map.
Qed.

Definition rendered (source : Sec) (prefix : string) (i : Z) (ports : list (Z * Z)) : list Sec :=
  imap (λ j p, mkSec (tmpname prefix (i + Z.of_nat j))
                 (<["remote_port" := Itoa p.2]> (<["local_port" := Itoa p.1]> (KeysHash source)))) ports.

Lemma tmpname_nonempty prefix i : tmpname prefix i ≠ "".
Proof. unfold tmpname. by destruct prefix. Qed.

Lemma tmpname_inj prefix i j : tmpname prefix i = tmpname prefix j → i = j.
Proof. unfold tmpname. intros Hn%string_app_inv_head%(string_app_inv_head "_"). by apply (inj Itoa). Qed.

Lemma render_loop_spec source prefix ports : ∀ f i,
  KeysHash source !! "" = None → (∀ j, i ≤ j < i + Z.of_nat (length ports) → tmpname prefix j ∉ sec_Name <$> f) →
  render_loop source prefix f i ports = Ok (f ++ rendered source prefix i ports).
Proof.
  induction ports as [|[l r] ports IH]; intros f i Hk Hf; cbn [render_loop length].
  - by rewrite app_nil_r.
  - cbn [length] in Hf. pose proof (Hf i ltac:(lia)) as Hi.
    rewrite new_section, copySection_spec, (right_id_L ∅ (∪)), !new_key by (try done; apply tmpname_nonempty).
    rewrite IH; [|done|].
    + unfold rendered. rewrite imap_cons, <-app_assoc. cbn [app fst snd]. rewrite Z.add_0_r. do 3 f_equal.
      apply imap_ext. intros j p _. cbn. do 2 f_equal. lia.
    + intros j Hj. rewrite fmap_app, not_elem_of_app. split; [apply Hf; lia|]. cbn.
      intros Hin%list_elem_of_singleton%tmpname_inj. lia.
Qed.

(** A section of port ranges stands for one section per pair of ports: for
    two texts of as many ports, the file is extended with the sections
    [prefix_0], [prefix_1], ..., each with the keys of the template and its own
    local and remote port, in the order of the texts. *)
Theorem range_sections_rendered fuel (f : list Sec) (name : string) (L R : list Z) :
  let s := deref f name in
  let prefix := TrimSpace (TrimPrefix name "range:") in
  Key s "local_port" ≠ "" → Key s "remote_port" ≠ "" → KeysHash s !! "" = None →
  ConfigTypes.ParseRangeNumbers fuel (Key s "local_port") = Some (L, None) →
  ConfigTypes.ParseRangeNumbers fuel (Key s "remote_port") = Some (R, None) →
  L ≠ [] → (∀ j, 0 ≤ j < Z.of_nat (length L) → tmpname prefix j ∉ sec_Name <$> f) →
  renderRangeProxyTemplates fuel f name =
    Some (if bool_decide (length L = length R) then Ok (f ++ rendered s prefix 0 (zip L R)) else Err ErrPortsDiffer).
Proof.
  cbv zeta. intros Hl Hr Hk HL HR Hne Hf. unfold renderRangeProxyTemplates.
  rewrite (proj2 (String.eqb_neq _ _) Hl), (proj2 (String.eqb_neq _ _) Hr), HL, HR. cbn [orb]. f_equal.
  destruct (Nat.eqb_spec (length L) (length R)) as [He|He]; cbn [negb];
    [rewrite bool_decide_true by done|by rewrite bool_decide_false].
  destruct (Nat.eqb_spec (length L) 0) as [Hz|_]; [by destruct L|].
  apply render_loop_spec; [done|]. intros j Hj. apply Hf. rewrite length_zip in Hj. lia.
Qed.

End Templates.

Section SectionsLemmas.
Context `{Ini} {float64 : Type} (ParseFloat : string → option float64) (scale : float64 → Z → Z).

(** The section [s] of [f] is the one behind the proxy or visitor [k]. *)
Definition source_of (prefix : string) (start : list string) (f : list Sec) (role k : string) (s : Sec) : Prop :=
  s ∈ f ∧ selected start (sec_Name s) = true ∧ Config.EmptyOr (Key s "role") "server" = role ∧ k = prefix +:+ sec_Name s.

Lemma source_of_cons prefix start f role k s s' :
  source_of prefix start (s :: f) role k s' ↔
  (s' = s ∧ selected start (sec_Name s) = true ∧ Config.EmptyOr (Key s "role") "server" = role ∧ k = prefix +:+ sec_Name s) ∨
  source_of prefix start f role k s'.
Proof. unfold source_of. rewrite elem_of_cons. naive_solver. Qed.

Lemma fresh_tail {A} prefix (ps : gmap string A) s f c :
  sec_Name s ∉ sec_Name <$> f → (∀ s', s' ∈ s :: f → ps !! (prefix +:+ sec_Name s') = None) →
  ∀ s', s' ∈ f → <[prefix +:+ sec_Name s := c]> ps !! (prefix +:+ sec_Name s') = None.
Proof.
  intros Hs Hps s' Hs'. rewrite lookup_insert_ne; [apply Hps; set_solver|].
  intros He%string_app_inv_head. apply Hs. rewrite He. by apply list_elem_of_fmap_2.
Qed.

Lemma source_of_ex prefix start f role k s (P : Sec → Prop) :
  (∃ s', source_of prefix start (s :: f) role k s' ∧ P s') ↔
  (selected start (sec_Name s) = true ∧ Config.EmptyOr (Key s "role") "server" = role ∧ k = prefix +:+ sec_Name s ∧ P s) ∨
  (∃ s', source_of prefix start f role k s' ∧ P s').
Proof.
  setoid_rewrite source_of_cons. split.
  - intros (s' & [(-> & ? & ? & ?)|?] & ?); [by left|right; eauto].
  - intros [(?&?&?&?)|(s' & ? & ?)]; [exists s; split; [left|]|exists s'; split; [right|]]; done.
Qed.

Lemma load_sections_spec prefix start f : ∀ ps vs ps' vs',
  NoDup (sec_Name <$> f) → (∀ s, s ∈ f → ps !! (prefix +:+ sec_Name s) = None) → (∀ s, s ∈ f → vs !! (prefix +:+ sec_Name s) = None) →
  load_sections ParseFloat scale prefix start ps vs f = Ok (ps', vs') →
  (∀ k c, ps' !! k = Some c ↔ ps !! k = Some c ∨
     ∃ s, source_of prefix start f "server" k s ∧ NewProxyConfFromIni ParseFloat scale (sec_Name s) s = Ok c) ∧
  (∀ k c, vs' !! k = Some c ↔ vs !! k = Some c ∨
     ∃ s, source_of prefix start f "visitor" k s ∧ NewVisitorConfFromIni (sec_Name s) s = Ok c) ∧
  (∀ k s, source_of prefix start f "server" k s → ∃ c, NewProxyConfFromIni ParseFloat scale (sec_Name s) s = Ok c) ∧
  (∀ k s, source_of prefix start f "visitor" k s → ∃ c, NewVisitorConfFromIni (sec_Name s) s = Ok c).
Proof.
  induction f as [|s f IH]; intros ps vs ps' vs' Hnd Hps Hvs Hl; cbn [load_sections] in Hl.
  { injection Hl as <- <-. split_and!.
    1-2: intros; (split; [by left|]); intros [?|(s & [Hs%elem_of_nil _] & _)]; done.
    all: intros k s [Hs%elem_of_nil _]; done. }
  apply NoDup_cons in Hnd as [Hs Hnd].
  assert (∀ {A} (m : gmap string A), (∀ s', s' ∈ s :: f → m !! (prefix +:+ sec_Name s') = None) →
    ∀ s', s' ∈ f → m !! (prefix +:+ sec_Name s') = None) as Htail by (intros A m Hm s' ?; apply Hm; by right).
  destruct (selected start (sec_Name s)) eqn:Hsel; cbn [negb] in Hl;
    [destruct (String.eqb_spec (Config.EmptyOr (Key s "role") "server") "server") as [Hr|Hr];
      [|destruct (String.eqb_spec (Config.EmptyOr (Key s "role") "server") "visitor") as [Hr'|Hr']; [|done]]|].
  - destruct (NewProxyConfFromIni _ _ _ s) as [c0|] eqn:Hc; [|done].
    apply IH in Hl as (Hp & Hv & Hps' & Hvs'); [|done|by apply fresh_tail|by apply Htail].
    setoid_rewrite source_of_ex. setoid_rewrite source_of_cons. rewrite Hsel, Hr, Hc. split_and!.
    + intros k c. rewrite Hp, lookup_insert_Some. pose proof (Hps s ltac:(by left)) as Hn.
      assert (ps !! k = Some c → prefix +:+ sec_Name s ≠ k) by congruence. naive_solver.
    + intros k c. rewrite Hv. split; [tauto|]. intros [?|[(_&?&_)|?]]; [by left|done|by right].
    + intros k s' [(-> & _)|?]; eauto.
    + intros k s' [(_&_&?&_)|?]; [done|eauto].
  - destruct (NewVisitorConfFromIni _ s) as [c0|] eqn:Hc; [|done].
    apply IH in Hl as (Hp & Hv & Hps' & Hvs'); [|done|by apply Htail|by apply fresh_tail].
    setoid_rewrite source_of_ex. setoid_rewrite source_of_cons. rewrite Hsel, Hr', Hc. split_and!.
    + intros k c. rewrite Hp. split; [tauto|]. intros [?|[(_&?&_)|?]]; [by left|done|by right].
    + intros k c. rewrite Hv, lookup_insert_Some. pose proof (Hvs s ltac:(by left)) as Hn.
      assert (vs !! k = Some c → prefix +:+ sec_Name s ≠ k) by congruence. naive_solver.
    + intros k s' [(_&_&?&_)|?]; [done|eauto].
    + intros k s' [(-> & _)|?]; eauto.
  - apply IH in Hl as (Hp & Hv & Hps' & Hvs'); [|done|by apply Htail..].
    setoid_rewrite source_of_ex. setoid_rewrite source_of_cons. rewrite Hsel. split_and!.
    + intros k c. rewrite Hp. split; [tauto|]. intros [?|[(?&_)|?]]; [by left|done|by right].
    + intros k c. rewrite Hv. split; [tauto|]. intros [?|[(?&_)|?]]; [by left|done|by right].
    + intros k s' [(_&?&_)|?]; [done|eauto].
    + intros k s' [(_&?&_)|?]; [done|eauto].
Qed.

End SectionsLemmas.

Section ReadingLemmas.
Context `{IniLaws} {float64 : Type} (ParseFloat : string → option float64) (scale : float64 → Z → Z).

Lemma NewProxyConfFromIni_spec name s c :
  NewProxyConfFromIni ParseFloat scale name s = Ok c →
  ProxyName (GetBaseConfig c) = name ∧ kind c = Config.EmptyOr (Key s "type") "tcp" ∧ ProxyType (GetBaseConfig c) = Key s "type".
Proof.
  unfold NewProxyConfFromIni, DefaultProxyConf, UnmarshalFromIni, preUnmarshalFromIni.
  destruct (NewConfByType _) as [c0|] eqn:Hc0; [|done]. apply NewConfByType_Some in Hc0 as [Hk Hb].
  destruct (MapTo_proxy s c0) as [c1|] eqn:Hm; [|done].
  pose proof (map_kind _ _ _ Hm) as Hk1. pose proof (map_type _ _ _ Hm ltac:(by rewrite Hb)) as Ht1.
  destruct (decorate _ _ name s (GetBaseConfig c1)) as [b|] eqn:Hd; [|done].
  assert (ProxyName b = name ∧ ProxyType b = ProxyType (GetBaseConfig c1)) as [Hn Ht].
  { unfold decorate in Hd. split_cases; by subst. }
  intros [= <-]. rewrite <-Hn, <-Hk, <-Hk1, <-Ht1, <-Ht. destruct c1; done.
Qed.

(** Reading a legacy file makes exactly one proxy or visitor of every section
    that is to be started, by its role: the table of proxies holds, under the
    user's prefix and the section's name, the structure its type calls for (tcp
    when there is none), named after the section, and nothing else. *)
Theorem sections_loaded prefix start (f : list Sec) ps vs :
  NoDup (sec_Name <$> f) →
  load_sections ParseFloat scale prefix start ∅ ∅ f = Ok (ps, vs) →
  (∀ k, is_Some (ps !! k) ↔ ∃ s, source_of prefix start f "server" k s) ∧
  (∀ k, is_Some (vs !! k) ↔ ∃ s, source_of prefix start f "visitor" k s) ∧
  (∀ k c, ps !! k = Some c → ∃ s, source_of prefix start f "server" k s ∧
     ProxyName (GetBaseConfig c) = sec_Name s ∧ kind c = Config.EmptyOr (Key s "type") "tcp" ∧ ProxyType (GetBaseConfig c) = Key s "type").
Proof.
  intros Hnd Hl. apply load_sections_spec in Hl as (Hp & Hv & Hps & Hvs); [|done|by intros; apply lookup_empty..].
  setoid_rewrite lookup_empty in Hp. setoid_rewrite lookup_empty in Hv. split_and!.
  - intros k. split; [intros [c [?|(s & Hs & _)]%Hp]; eauto; done|].
    intros [s Hs]. destruct (Hps _ _ Hs) as [c Hc]. exists c. apply Hp. eauto.
  - intros k. split; [intros [c [?|(s & Hs & _)]%Hv]; eauto; done|].
    intros [s Hs]. destruct (Hvs _ _ Hs) as [c Hc]. exists c. apply Hv. eauto.
  - intros k c [?|(s & Hs & Hc)]%Hp; [done|]. exists s. split; [done|]. by apply NewProxyConfFromIni_spec.
Qed.
End ReadingLemmas.

(** *** From a legacy proxy to the server *)

(** The type the server gives a message without one. *)
Definition with_type (c : Config.ProxyConfigurer) : Config.ProxyConfigurer :=
  Config.set_base c (Config.set_Type (Config.GetBaseConfig c) (Config.EmptyOr (Config.Type_ (Config.GetBaseConfig c)) "tcp")).

Lemma default_type_with c : Config.default_type (Config.MarshalToMsg c Config.zero_msg) = Config.MarshalToMsg (with_type c) Config.zero_msg.
Proof. destruct c as [[]|[]|[]|[]|[]|[]|[]|[]|[]|[]|[]|[]|[]|[]]; done. Qed.

Lemma convert_type_of conf : Config.type_of (Convert_ProxyConf_To_v1 conf) = kind conf.
Proof. by destruct conf. Qed.

(** A proxy of a legacy file reaches the server as what it is: converted,
    completed and sent, it makes there a configuration of the structure it was
    read into, also a tcp proxy that has no [type] key, and the server's
    validation of the shared part alone decides. *)
Theorem legacy_proxy_travels known {F} (ParseFloat : string → option F) scale (conf : ProxyConf) (srv : Config.ServerConfig) :
  kind conf = Config.EmptyOr (ProxyType (GetBaseConfig conf)) "tcp" →
  ConfigTypes.bq_wf ParseFloat scale (b_BandwidthLimit (GetBaseConfig conf)) →
  let c := with_type (Config.Complete (Convert_ProxyConf_To_v1 conf)) in
  Config.typed c ∧ Config.type_of c = kind conf ∧
  Config.NewProxyConfigurerFromMsg known ParseFloat scale
    (Config.MarshalToMsg (Config.Complete (Convert_ProxyConf_To_v1 conf)) Config.zero_msg) srv =
  match Config.ValidateProxyConfigurerForServer known c srv with None => Ok (Config.server_view c) | Some e => Err e end.
Proof.
  intros Hk Hq. cbv zeta. set (c := with_type _).
  assert (Config.type_of c = kind conf) as Hto.
  { unfold c, with_type, Config.Complete. by rewrite !Config.type_of_set, convert_type_of. }
  assert (Config.typed c) as Ht.
  { unfold Config.typed. rewrite Hto, Hk. unfold c, with_type, Config.Complete. rewrite !Config.GetBaseConfig_set. by destruct conf. }
  split_and!; [done..|]. unfold Config.NewProxyConfigurerFromMsg.
  rewrite default_type_with, Config.np_ProxyType_marshal. fold c. rewrite Ht.
  destruct (Config.NewProxyConfigurerByType_of c) as (pc & Hpc & _). rewrite Hpc.
  rewrite (Config.server_view_unmarshal ParseFloat scale c pc); [by rewrite Config.validate_view|done| |done].
  unfold c, with_type, Config.Complete. rewrite !Config.GetBaseConfig_set. by destruct conf.
Qed.

(** Two settings of a legacy server file are lost in silence: a text of allowed
    ports that cannot be read is dropped, and the server then lets clients take
    every port; and the profiling handlers stay off unless the dashboard also
    uses TLS. *)
Theorem legacy_settings_lost visit (c : ServerCommonConf) e :
  ConfigTypes.NewPortsRangeSliceFromString (s_AllowPortsStr c) = Err e →
  let v := CommonConfig.server_Complete (Convert_ServerCommonConf_To_v1 visit c) in
  (∀ p, 1 ≤ p ≤ 65535 → p ∈ Ports.freePorts (Ports.NewManager (CommonConfig.sc_AllowPorts v))) ∧
  (s_DashboardTLSMode c = false → CommonConfig.ws_PprofEnable (CommonConfig.sc_WebServer v) = false).
Proof.
  intros He. cbv zeta. unfold Convert_ServerCommonConf_To_v1. rewrite He. split.
  - intros p Hp. cbn [Ports.NewManager Ports.freePorts Ports.initial_ports CommonConfig.server_Complete CommonConfig.sc_AllowPorts].
    apply elem_of_list_to_set, elem_of_seqZ. unfold Ports.MinPort, Ports.MaxPort. lia.
  - intros Hd. unfold CommonConfig.server_Complete. cbn [CommonConfig.sc_WebServer]. rewrite CommonConfig.serverWeb_Complete_spec.
    cbn. by rewrite Hd.
Qed.

(** ** Witnesses *)

(** A library for them: no inheritance of sections, no expansion of values, and
    of a proxy only the keys [type] and [sk] are read. *)
Definition demo_NewSection (f : list Sec) (n : string) : option (list Sec) :=
  if String.eqb n "" then None else if bool_decide (n ∈ sec_Name <$> f) then Some f else Some (f ++ [mkSec n ∅]).
Definition demo_NewKey (f : list Sec) (n k v : string) : option (list Sec) :=
  if String.eqb k "" then None
  else Some ((λ s, if String.eqb (sec_Name s) n then mkSec n (<[k := v]> (KeysHash s)) else s) <$> f).
Definition demo_Key (s : Sec) (k : string) : string := default "" (KeysHash s !! k).
Definition demo_MapTo (s : Sec) (c : ProxyConf) : option ProxyConf :=
  let b := GetBaseConfig c in
  Some (set_base c (mkBaseProxy (ProxyName b) (demo_Key s "type") (b_UseEncryption b) (b_UseCompression b) (b_Group b) (b_GroupKey b)
    (b_ProxyProtocolVersion b) (b_BandwidthLimit b) (b_BandwidthLimitMode b) (b_Metas b) (b_LocalIP b) (b_LocalPort b) (b_Plugin b)
    (b_PluginParams b) (b_HealthCheckType b) (b_HealthCheckTimeoutS b) (b_HealthCheckMaxFailed b) (b_HealthCheckIntervalS b)
    (b_HealthCheckURL b) (b_HealthCheckAddr b))).

Definition demo_file : list Sec :=
  [mkSec "common" ∅; mkSec "range:game" (list_to_map [("local_port", "25565-25566"); ("remote_port", "6001,6010")]);
   mkSec "ssh" (list_to_map [("local_port", "22"); ("meta_x", "y")]); mkSec "shell" (list_to_map [("role", "visitor"); ("type", "stcp")])].

#[local] Instance demo_ini : Ini := {|
  LoadSources _ := Some demo_file; GetSection f n := first_match (λ s, String.eqb (sec_Name s) n) f; Key := demo_Key;
  GetKey s k := KeysHash s !! k; MapTo_client _ c := Some c; MapTo_server _ c := Some c; MapTo_plugin _ c := Some c;
  MapTo_proxy := demo_MapTo; MapTo_visitor _ c := Some c; NewSection := demo_NewSection; NewKey := demo_NewKey |}.

Lemma demo_key_elsewhere (f : list Sec) n k v :
  n ∉ sec_Name <$> f → (λ s, if String.eqb (sec_Name s) n then mkSec n (<[k := v]> (KeysHash s)) else s) <$> f = f.
Proof.
  induction f as [|s f IH]; [done|]. rewrite !fmap_cons, not_elem_of_cons. intros [Hn Hf]. rewrite IH by done.
  by rewrite (proj2 (String.eqb_neq _ _)) by congruence.
Qed.

#[local] Instance demo_laws : IniLaws.
Proof.
  split.
  - intros f n Hn Hf. cbn. unfold demo_NewSection. by rewrite (proj2 (String.eqb_neq _ _) Hn), bool_decide_false by done.
  - intros f n m k v Hk Hf. cbn. unfold demo_NewKey. rewrite (proj2 (String.eqb_neq _ _) Hk), fmap_app, demo_key_elsewhere by done.
    cbn. by rewrite String.eqb_refl.
  - intros s c c' [= <-]. apply kind_set.
  - intros s c c' [= <-] _. by rewrite legacy_GetBaseConfig_set.
Qed.

Lemma range_sections_rendered_witness :
  renderRangeProxyTemplates 5 demo_file "range:game" =
  Some (Ok (demo_file ++ rendered (deref demo_file "range:game") "game" 0 [(25565, 6001); (25566, 6010)])).
Proof.
  refine (range_sections_rendered 5 demo_file "range:game" [25565; 25566] [6001; 6010] _ _ _ _ _ _ _); [done..|].
  intros j Hj. cbn in Hj. assert (j = 0 ∨ j = 1) as [-> | ->] by lia;
    apply (bool_decide_eq_true_1 _); by vm_compute.
Defined.

Definition demo_loaded : gmap string ProxyConf * gmap string VisitorConf :=
  match load_sections Atoi Z.mul "me." [] ∅ ∅ demo_file with Ok r => r | Err _ => (∅, ∅) end.

Lemma sections_loaded_witness :
  (∃ c, demo_loaded.1 !! "me.ssh" = Some c ∧ kind c = "tcp") ∧ is_Some (demo_loaded.2 !! "me.shell").
Proof.
  destruct (sections_loaded Atoi Z.mul "me." [] demo_file demo_loaded.1 demo_loaded.2) as (Hp & Hv & Hc).
  - apply (bool_decide_eq_true_1 _). by vm_compute.
  - vm_compute. reflexivity.
  - split.
    + destruct (proj2 (Hp "me.ssh")) as [c Hs]; [|exists c; split; [done|]].
      * eexists. split_and!; [do 2 apply list_elem_of_further; apply list_elem_of_here|done..].
      * destruct (Hc _ _ Hs) as (s & (Hin & Hsel & _ & Hk) & _ & -> & _).
        apply (string_app_inv_head "me." "ssh") in Hk.
        repeat (apply elem_of_cons in Hin as [-> | Hin]; [try done|]). by apply elem_of_nil in Hin.
    + apply Hv. eexists. split_and!; [do 3 apply list_elem_of_further; apply list_elem_of_here|done..].
Defined.

Definition demo_proxy : ProxyConf := PTCP (mkTCPConf zero_base 6000).

Lemma legacy_proxy_travels_witness :
  Config.NewProxyConfigurerFromMsg (λ _, []) Atoi Z.mul
    (Config.MarshalToMsg (Config.Complete (Convert_ProxyConf_To_v1 demo_proxy)) Config.zero_msg) Config.demo_server =
  Ok (Config.server_view (with_type (Config.Complete (Convert_ProxyConf_To_v1 demo_proxy)))).
Proof.
  refine (proj2 (proj2 (legacy_proxy_travels (λ _, []) Atoi Z.mul demo_proxy Config.demo_server eq_refl _))).
  exists "". done.
Defined.

Definition demo_server_conf : ServerCommonConf :=
  let '(mkServerConf a o tk ba bp kp qp qc pb vh vs tmp tpt vt da dp dc dk dm du dw ep ad lf lw ll lm lc de sh tm ti tka c4 _ mp mpc to tcf tkf tca ht ut pl up _ nh) := GetDefaultServerConf in
  mkServerConf a o tk ba bp kp qp qc pb vh vs tmp tpt vt da dp dc dk dm du dw ep ad lf lw ll lm lc de sh tm ti tka c4 "6000-7O00" mp
    mpc to tcf tkf tca ht ut pl up true nh.

Lemma legacy_settings_lost_witness :
  let v := CommonConfig.server_Complete (Convert_ServerCommonConf_To_v1 (λ _, []) demo_server_conf) in
  22 ∈ Ports.freePorts (Ports.NewManager (CommonConfig.sc_AllowPorts v)) ∧
  s_PprofEnable demo_server_conf = true ∧ CommonConfig.ws_PprofEnable (CommonConfig.sc_WebServer v) = false.
Proof.
  destruct (legacy_settings_lost (λ _, []) demo_server_conf (ConfigTypes.ErrNumber "7O00") eq_refl) as [Hp Hd].
  cbv zeta. split_and!; [apply Hp; lia|done|by apply Hd].
Defined.
End Legacy.
