(* ===== verification/Load.v ===== *)
(** Loading configuration files, pkg/config/load.go, pkg/config/template.go and
    pkg/config/legacy/parse.go: the choice of a format, the files that are
    included, the conversion of legacy files, defaults, the check for names that
    are used twice, and the place an error of decoding is reported at.

    The file system, template rendering and the decoders of TOML, YAML and JSON are
    parameters; [Legacy.Ini] is the library of INI files. *)
From Stdlib Require Import ZArith Lia Ascii String.
From stdpp Require Import base gmap strings list fin_maps.
From S2P Require Import Prelude GoLib Ports ConfigTypes Config ClientProxies VisitorConfig Visitors ConfigSource CommonConfig ServerPlugins Legacy.

Local Open Scope Z_scope.
Local Open Scope frp_scope.

Module Load.
Import ConfigSource.

(** ** Formats *)

(** [filepath.Ext]: from the last dot of the last element of a path. *)
Fixpoint Ext (path : string) : string :=
  match path with
  | EmptyString => EmptyString
  | String c rest =>
      if Ascii.eqb c "." && negb (ContainsChar rest ".") && negb (ContainsChar rest "/") then path else Ext rest
  end.

Definition detectFormatFromPath (path : string) : string :=
  let ext := ToLower (Ext path) in
  if String.eqb ext ".toml" then "toml"
  else if String.eqb ext ".yaml" || String.eqb ext ".yml" then "yaml"
  else if String.eqb ext ".json" then "json"
  else "".

(** ** Where an error is *)

Definition newline : ascii := "010"%char.

(** Does the line set the key, or open its table? *)
Definition line_matches (searchKey line : string) : bool :=
  let trimmed := TrimSpace line in
  match CutPrefix trimmed searchKey with
  | Some rest => HasPrefix (TrimSpace rest) "="
  | None => false
  end || StringContains trimmed ("[[" +:+ searchKey +:+ "]]").

Fixpoint find_line (searchKey : string) (i : Z) (lines : list string) : Z :=
  match lines with
  | [] => 0
  | line :: lines' => if line_matches searchKey line then i + 1 else find_line searchKey (i + 1) lines'
  end.

Definition findFieldLineInContent (content fieldPath : string) : Z :=
  if String.eqb fieldPath "" then 0
  else find_line (default "" (last (Split fieldPath "."))) 0 (Split content newline).

(** ** Number ranges of templates *)

Inductive pair_error := ErrRange (e : ConfigTypes.range_error) | ErrNotInPairs.

(** [None] when the fuel does not see the end of a range. *)
Definition parseNumberRangePair (fuel : nat) (first second : string) : option (res pair_error (list (Z * Z))) :=
  match ConfigTypes.ParseRangeNumbers fuel first with
  | None => None
  | Some (_, Some e) => Some (Err (ErrRange e))
  | Some (ns, None) =>
      match ConfigTypes.ParseRangeNumbers fuel second with
      | None => None
      | Some (_, Some e) => Some (Err (ErrRange e))
      | Some (ms, None) => Some (if negb (length ns =? length ms)%nat then Err ErrNotInPairs else Ok (zip ns ms))
      end
  end.

(** A pair of ranges in a template gives exactly the pairs of the numbers each
    text lists, in order; texts of different lengths give none. *)
Theorem number_pairs_exact fuel first second l :
  parseNumberRangePair fuel first second = Some (Ok l) ↔
  ConfigTypes.ParseRangeNumbers fuel first = Some (l.*1, None) ∧ ConfigTypes.ParseRangeNumbers fuel second = Some (l.*2, None).
Proof.
  unfold parseNumberRangePair. split.
  - destruct (ConfigTypes.ParseRangeNumbers fuel first) as [[ns [|]]|]; try done.
    destruct (ConfigTypes.ParseRangeNumbers fuel second) as [[ms [|]]|]; try done.
    destruct (Nat.eqb_spec (length ns) (length ms)); cbn [negb]; [|done]. intros [= <-]. by rewrite fst_zip, snd_zip by lia.
  - intros [-> ->]. rewrite !length_fmap, Nat.eqb_refl. cbn [negb]. by rewrite zip_fst_snd.
Qed.

(** ** Decoding *)

(** A JSON decoder's error, with the field of a wrong type if it has one. *)
Inductive decode_error := ErrTOML | ErrMarshal | ErrYAML | ErrJSON | ErrTypeOf (field : string).
Inductive located := Plain (e : decode_error) | AtLine (line : Z) (field : string) | InField (field : string).

Definition enhanceDecodeError (e : decode_error) (originalContent : string) (includeLine : bool) : located :=
  match e with
  | ErrTypeOf field =>
      if String.eqb field "" then Plain e
      else
        let line := findFieldLineInContent originalContent field in
        if includeLine && (0 <? line) then AtLine line field else InField field
  | _ => Plain e
  end.

Section Decoding.
(** The value of a YAML text, which may be a table; decoders of JSON and YAML into
    the target, the first with unknown fields refused or not. *)
Context {V T : Type}.
Context (toml_to_json : string → option (option string)) (IsJSONBuffer : string → bool)
  (yaml_any : string → option (gmap string V + V)) (Marshal : gmap string V + V → option string)
  (decodeJSONContent : string → bool → res decode_error T) (yaml_Unmarshal : string → option T).

Definition parseYAMLWithDotFieldsHandling (content : string) : res decode_error T :=
  match yaml_any content with
  | None => Err ErrYAML
  | Some temp =>
      let temp := match temp with
                  | inl tempMap => inl (filter (λ kv, HasPrefix (fst kv) "." = false) tempMap)
                  | inr v => inr v
                  end in
      match Marshal temp with None => Err ErrMarshal | Some jsonBytes => decodeJSONContent jsonBytes true end
  end.

(** [toml_to_json b] is [None] when [b] is no TOML, and [Some None] when its value
    cannot be written as JSON. *)
Definition LoadConfigure (b : string) (strict : bool) (format : string) : res located T :=
  let rest (b' : string) (parsedFromTOML : bool) :=
    let enhance (r : res decode_error T) :=
      match r with Ok c => Ok c | Err e => Err (enhanceDecodeError e b (negb parsedFromTOML)) end in
    if IsJSONBuffer b' then enhance (decodeJSONContent b' strict)
    else if strict then enhance (parseYAMLWithDotFieldsHandling b')
    else match yaml_Unmarshal b' with Some c => Ok c | None => Err (Plain ErrYAML) end in
  match toml_to_json b with
  | Some (Some b') => rest b' true
  | Some None => Err (Plain ErrMarshal)
  | None => if String.eqb format "toml" then Err (Plain ErrTOML) else rest b false
  end.

(** ** Lines of errors *)

Lemma find_line_spec key lines : ∀ i,
  (find_line key i lines = 0 ∧ ∀ l, l ∈ lines → line_matches key l = false) ∨
  (∃ (j : nat) l, find_line key i lines = i + Z.of_nat j + 1 ∧ lines !! j = Some l ∧ line_matches key l = true ∧
     ∀ j' l', (j' < j)%nat → lines !! j' = Some l' → line_matches key l' = false).
Proof.
  induction lines as [|l lines IH]; intros i; cbn [find_line].
  - left. split; [done|]. intros l Hl. by apply elem_of_nil in Hl.
  - destruct (line_matches key l) eqn:Hm.
    + right. exists 0%nat, l. split_and!; [lia|done..|]. intros; lia.
    + destruct (IH (i + 1)) as [[-> Hall]|(j & l' & -> & Hl & Hm' & Hb)]; [left|right].
      * split; [done|]. intros x [-> | Hx]%elem_of_cons; auto.
      * exists (S j), l'. split_and!; [lia|done..|]. intros [|j'] x Hj Hx; [by injection Hx as <-|]. apply (Hb j' x); [lia|done].
Qed.

(** A line number in an error of decoding is right and is the first that could
    be: the text was not TOML, the line exists, it assigns the key that ends the
    field's path or opens its table, and no line before it does. *)
Theorem error_line_exact b strict format n field :
  LoadConfigure b strict format = Err (AtLine n field) →
  toml_to_json b = None ∧ field ≠ "" ∧
  ∃ (j : nat) line, n = Z.of_nat j + 1 ∧ Split b newline !! j = Some line ∧
    line_matches (default "" (last (Split field "."))) line = true ∧
    ∀ j' line', (j' < j)%nat → Split b newline !! j' = Some line' →
      line_matches (default "" (last (Split field "."))) line' = false.
Proof.
  assert (∀ r e incl, enhanceDecodeError e b incl = AtLine n field → r = e → incl = true ∧ field ≠ "" ∧
    findFieldLineInContent b field = n ∧ 0 < n) as Hen.
  { intros r e incl He ->. destruct e as [| | | |f]; try done. cbn in He.
    destruct (String.eqb_spec f ""); [done|]. destruct incl; cbn [andb] in He; [|done].
    destruct (Z.ltb_spec 0 (findFieldLineInContent b f)); [|done]. by injection He as <- <-. }
  intros Hr. assert (toml_to_json b = None ∧ field ≠ "" ∧ findFieldLineInContent b field = n ∧ 0 < n) as (Ht & Hf & Hn & Hp).
  { revert Hr. unfold LoadConfigure. destruct (toml_to_json b) as [[b'|]|]; [|done|destruct (String.eqb format "toml"); [done|]].
    all: destruct (IsJSONBuffer _); [|destruct strict; [|by destruct (yaml_Unmarshal _)]].
    all: match goal with |- match ?r with _ => _ end = _ → _ => destruct r as [|e]; [done|] end.
    all: intros [= He]; destruct (Hen e e _ He eq_refl) as (? & ? & ? & ?); done. }
  split_and!; [done..|]. unfold findFieldLineInContent in Hn. rewrite (proj2 (String.eqb_neq _ _) Hf) in Hn.
  destruct (find_line_spec (default "" (last (Split field "."))) (Split b newline) 0) as [[Hz _]|(j & l & Hj & ?)]; [lia|].
  exists j, l. split; [lia|done].
Qed.
End Decoding.

(** The search knows only the syntax of TOML, while it is used on what is not
    TOML: no line is found in a YAML text whose very first line sets the field. *)
Theorem yaml_line_unknown (rest : string) :
  findFieldLineInContent ("serverPort: seventy" +:+ String newline "") "serverPort" = 0 ∧
  findFieldLineInContent ("serverPort = seventy" +:+ String newline rest) "serverPort" = 1.
Proof. split; [by vm_compute|]. unfold findFieldLineInContent. cbn. done. Qed.

(** ** Files *)

(** What is used of os, path/filepath, text/template and the decoders.
    [Abs_Dir p] is [filepath.Abs(filepath.Dir(p))]; [ReadDir] lists names and
    whether they are directories; [matched path absDir absFile] is
    [filepath.Match(filepath.Join(absDir, filepath.Base(path)), absFile)]. *)
Record ClientConfig := mkClientConfig {
  ClientCommon : CommonConfig.ClientCommonConfig; Proxies : list PC; Visitors_ : list VC }.

Class Files := {
  ReadFile : string → option string;
  Render : string → option string;
  Legacy_Render : string → option string;
  Abs_Dir : string → option string;
  Exists : string → bool;
  ReadDir : string → option (list (string * bool));
  Join_ : string → string → string;
  matched : string → string → string → bool;
  Is_INI : string → bool;
  Decode_client : string → bool → string → res located ClientConfig;
  Decode_server : string → bool → string → res located CommonConfig.ServerConfig }.

Inductive load_error :=
| ErrRead (path : string) | ErrRender (path : string) | ErrDecode (e : located) | ErrLegacy (e : Legacy.error)
| ErrLegacyConfig (e : CommonConfig.error) | ErrAbs (path : string) | ErrNoDir (path : string) | ErrReadDir (path : string)
| ErrAdditional (path : string) (e : load_error) | ErrInclude (e : load_error)
| ErrProxyDuplicated (name : string) | ErrVisitorDuplicated (name : string).

(** The first name that an earlier one repeats. *)
Fixpoint duplicate (seen : list string) (names : list string) : option string :=
  match names with
  | [] => None
  | n :: names' => if bool_decide (n ∈ seen) then Some n else duplicate (n :: seen) names'
  end.

Definition validateNoDuplicateNames (ps : list PC) (vs : list VC) : option load_error :=
  match duplicate [] (pname <$> ps) with
  | Some name => Some (ErrProxyDuplicated name)
  | None => match duplicate [] (vname <$> vs) with Some name => Some (ErrVisitorDuplicated name) | None => None end
  end.

Lemma duplicate_None seen names : duplicate seen names = None ↔ NoDup names ∧ ∀ n, n ∈ names → n ∉ seen.
Proof.
  revert seen. induction names as [|n names IH]; intros seen; cbn [duplicate].
  - split; [intros _|done]. split; [constructor|]. intros n Hn. by apply elem_of_nil in Hn.
  - rewrite NoDup_cons. case_bool_decide as Hs.
    + split; [done|]. intros [_ Hd]. destruct (Hd n); [by left|done].
    + rewrite IH. set_solver.
Qed.

Lemma validateNoDuplicateNames_None ps vs : validateNoDuplicateNames ps vs = None ↔ NoDup (pname <$> ps) ∧ NoDup (vname <$> vs).
Proof.
  unfold validateNoDuplicateNames.
  destruct (duplicate [] (pname <$> ps)) eqn:Hp; [|destruct (duplicate [] (vname <$> vs)) eqn:Hv].
  - split; [done|]. intros [Hn _]. enough (duplicate [] (pname <$> ps) = None) by congruence.
    apply duplicate_None. split; [done|]. set_solver.
  - split; [done|]. intros [_ Hn]. enough (duplicate [] (vname <$> vs) = None) by congruence.
    apply duplicate_None. split; [done|]. set_solver.
  - apply duplicate_None in Hp as [? _]. by apply duplicate_None in Hv as [? _].
Qed.

Section Loading.
Context `{Files} `{Legacy.Ini} {float64 : Type} (ParseFloat : string → option float64) (scale : float64 → Z → Z).
(** The orders in which maps are visited, the value of the environment variable
    http_proxy, and the fuel of the port ranges. *)
Context (visit_plugins : gmap string ServerPlugins.HTTPPluginOptions → list ServerPlugins.HTTPPluginOptions)
  (visit_proxies : gmap string Legacy.ProxyConf → list Legacy.ProxyConf)
  (visit_visitors : gmap string Legacy.VisitorConf → list Legacy.VisitorConf) (http_proxy : string) (fuel : nat).

(** [DetectLegacyINIFormatFromFile]; [Is_INI] is that the text is read as INI and
    has a section [common]. *)
Definition DetectLegacyINIFormatFromFile (path : string) : bool :=
  match ReadFile path with None => false | Some b => Is_INI b end.

Definition LoadFileContentWithTemplate (path : string) : res load_error string :=
  match ReadFile path with
  | None => Err (ErrRead path)
  | Some b => match Render b with None => Err (ErrRender path) | Some c => Ok c end
  end.

Definition LoadConfigureFromFile {T} (decode : string → bool → string → res located T) (path : string) (strict : bool) :
    res load_error T :=
  match LoadFileContentWithTemplate path with
  | Err e => Err e
  | Ok content =>
      match decode content strict (detectFormatFromPath path) with Ok c => Ok c | Err e => Err (ErrDecode e) end
  end.

(** [legacy.GetRenderedConfFromFile]. *)
Definition GetRenderedConfFromFile (path : string) : res load_error string :=
  match ReadFile path with
  | None => Err (ErrRead path)
  | Some b => match Legacy_Render b with None => Err (ErrRender path) | Some c => Ok c end
  end.

(** The files of a directory that match a path, in its order. *)
Fixpoint included {A} (load : string → res load_error A) (path absDir : string) (files : list (string * bool)) :
    res load_error (list A) :=
  match files with
  | [] => Ok []
  | (name, isDir) :: files' =>
      let absFile := Join_ absDir name in
      if isDir || negb (matched path absDir absFile) then included load path absDir files'
      else match load absFile with
           | Err e => Err (ErrAdditional absFile e)
           | Ok a => match included load path absDir files' with Err e => Err e | Ok l => Ok (a :: l) end
           end
  end.

Fixpoint all_included {A} (load : string → res load_error A) (paths : list string) : res load_error (list A) :=
  match paths with
  | [] => Ok []
  | path :: paths' =>
      match Abs_Dir path with
      | None => Err (ErrAbs path)
      | Some absDir =>
          if negb (Exists absDir) then Err (ErrNoDir path)
          else match ReadDir absDir with
               | None => Err (ErrReadDir path)
               | Some files =>
                   match included load path absDir files with
                   | Err e => Err e
                   | Ok l => match all_included load paths' with Err e => Err e | Ok l' => Ok (l ++ l') end
                   end
               end
      end
  end.

(** [legacy.getIncludeContents]. *)
Definition getIncludeContents (paths : list string) : res load_error string :=
  match all_included GetRenderedConfFromFile paths with
  | Err e => Err e
  | Ok contents => Ok (foldr (λ c acc, c +:+ String newline acc) "" contents)
  end.

Definition LoadAdditionalClientConfigs (paths : list string) (strict : bool) : res load_error (list PC * list VC) :=
  match all_included (λ absFile, LoadConfigureFromFile Decode_client absFile strict) paths with
  | Err e => Err e
  | Ok cfgs => Ok (cfgs ≫= Proxies, cfgs ≫= Visitors_)
  end.

(** [legacy.ParseClientConfig]; [None] when the fuel runs out. *)
Definition ParseClientConfig (filePath : string) :
    option (res load_error (Legacy.ClientCommonConf * gmap string Legacy.ProxyConf * gmap string Legacy.VisitorConf)) :=
  match GetRenderedConfFromFile filePath with
  | Err e => Some (Err e)
  | Ok content =>
      match Legacy.UnmarshalClientConfFromIni content with
      | Err e => Some (Err (ErrLegacy e))
      | Ok cfg =>
          match Legacy.client_Validate Abs_Dir Exists cfg with
          | Some e => Some (Err (ErrLegacyConfig e))
          | None =>
              match getIncludeContents (Legacy.c_IncludeConfigFiles cfg) with
              | Err e => Some (Err (ErrInclude e))
              | Ok buf =>
                  match Legacy.LoadAllProxyConfsFromIni ParseFloat scale fuel (Legacy.c_User cfg) (content +:+ String newline buf)
                          (Legacy.c_Start cfg) with
                  | None => None
                  | Some (Err e) => Some (Err (ErrLegacy e))
                  | Some (Ok (ps, vs)) => Some (Ok (cfg, ps, vs))
                  end
              end
          end
      end
  end.

Definition LoadServerConfig (path : string) (strict : bool) : res load_error (CommonConfig.ServerConfig * bool) :=
  if DetectLegacyINIFormatFromFile path then
    match GetRenderedConfFromFile path with
    | Err e => Err e
    | Ok content =>
        match Legacy.UnmarshalServerConfFromIni content with
        | Err e => Err (ErrLegacy e)
        | Ok c => Ok (CommonConfig.server_Complete (Legacy.Convert_ServerCommonConf_To_v1 visit_plugins c), true)
        end
    end
  else match LoadConfigureFromFile Decode_server path strict with
       | Err e => Err e
       | Ok c => Ok (CommonConfig.server_Complete c, false)
       end.

Record ClientConfigLoadResult := mkLoadResult {
  lr_Common : CommonConfig.ClientCommonConfig; lr_Proxies : list PC; lr_Visitors : list VC; lr_IsLegacyFormat : bool }.

Definition LoadClientConfigResult (path : string) (strict : bool) : option (res load_error ClientConfigLoadResult) :=
  let finish common ps vs isLegacy :=
    match validateNoDuplicateNames ps vs with
    | Some e => Err e
    | None => Ok (mkLoadResult (CommonConfig.client_Complete http_proxy common) ps vs isLegacy)
    end in
  if DetectLegacyINIFormatFromFile path then
    match ParseClientConfig path with
    | None => None
    | Some (Err e) => Some (Err e)
    | Some (Ok (common, ps, vs)) =>
        Some (finish (Legacy.Convert_ClientCommonConf_To_v1 common) (Legacy.Convert_ProxyConf_To_v1 <$> visit_proxies ps)
                (Legacy.Convert_VisitorConf_To_v1 <$> visit_visitors vs) true)
    end
  else
    Some match LoadConfigureFromFile Decode_client path strict with
         | Err e => Err e
         | Ok allCfg =>
             match CommonConfig.cc_IncludeConfigFiles (ClientCommon allCfg) with
             | [] => finish (ClientCommon allCfg) (Proxies allCfg) (Visitors_ allCfg) false
             | paths =>
                 match LoadAdditionalClientConfigs paths strict with
                 | Err e => Err e
                 | Ok (eps, evs) => finish (ClientCommon allCfg) (Proxies allCfg ++ eps) (Visitors_ allCfg ++ evs) false
                 end
             end
         end.

Definition LoadClientConfig (path : string) (strict : bool) :
    option (res load_error (CommonConfig.ClientCommonConfig * list PC * list VC * bool)) :=
  match LoadClientConfigResult path strict with
  | None => None
  | Some (Err e) => Some (Err e)
  | Some (Ok r) =>
      let '(ps, vs) := FilterClientConfigurers (CommonConfig.cc_Start (lr_Common r)) (lr_Proxies r) (lr_Visitors r) in
      Some (Ok (lr_Common r, CompleteProxyConfigurers ps, CompleteVisitorConfigurers vs, lr_IsLegacyFormat r))
  end.

(** ** Lemmas *)

(** What the file [path] and the files it includes hold. *)
Definition contents (path : string) (strict : bool) (cfg : ClientConfig) (extra : list ClientConfig) : Prop :=
  LoadConfigureFromFile Decode_client path strict = Ok cfg ∧
  all_included (λ absFile, LoadConfigureFromFile Decode_client absFile strict)
    (CommonConfig.cc_IncludeConfigFiles (ClientCommon cfg)) = Ok extra.

Lemma LoadClientConfigResult_spec path strict r :
  LoadClientConfigResult path strict = Some (Ok r) →
  NoDup (pname <$> lr_Proxies r) ∧ NoDup (vname <$> lr_Visitors r) ∧
  lr_IsLegacyFormat r = DetectLegacyINIFormatFromFile path ∧
  (lr_IsLegacyFormat r = false → ∃ cfg extra, contents path strict cfg extra ∧
     lr_Common r = CommonConfig.client_Complete http_proxy (ClientCommon cfg) ∧
     lr_Proxies r = (cfg :: extra) ≫= Proxies ∧ lr_Visitors r = (cfg :: extra) ≫= Visitors_).
Proof.
  unfold LoadClientConfigResult, contents.
  assert (∀ common ps vs l, match validateNoDuplicateNames ps vs with
      | Some e => Err e | None => Ok (mkLoadResult (CommonConfig.client_Complete http_proxy common) ps vs l) end = Ok r →
    r = mkLoadResult (CommonConfig.client_Complete http_proxy common) ps vs l ∧ NoDup (pname <$> ps) ∧ NoDup (vname <$> vs)) as Hfin.
  { intros common ps vs l Hr. destruct (validateNoDuplicateNames ps vs) eqn:Hv; [done|]. injection Hr as <-.
    by apply validateNoDuplicateNames_None in Hv. }
  destruct (DetectLegacyINIFormatFromFile path).
  - destruct (ParseClientConfig path) as [[[[c ps] vs]|]|]; try done. intros [= Hr]. by apply Hfin in Hr as (-> & ? & ?).
  - destruct (LoadConfigureFromFile Decode_client path strict) as [cfg|]; [|done]. intros [= Hr].
    destruct (CommonConfig.cc_IncludeConfigFiles (ClientCommon cfg)) as [|p0 paths] eqn:Hi.
    + apply Hfin in Hr as (-> & ? & ?). split_and!; try done. intros _. exists cfg, []. rewrite Hi. cbn. by rewrite !app_nil_r.
    + unfold LoadAdditionalClientConfigs in Hr. destruct (all_included _ (p0 :: paths)) as [extra|] eqn:Ha; [|done].
      apply Hfin in Hr as (-> & ? & ?). split_and!; try done. intros _. exists cfg, extra. by rewrite Hi.
Qed.

(** ** Properties *)

(** What [LoadClientConfig] gives the commands verify, admin and nathole, for a
    file that is not a legacy one: no two proxies and no two visitors share a
    name, each one is enabled, listed in [start] if that is given, and completed;
    and every configuration of the file and of the files it includes that is
    enabled and to be started is there. *)
Theorem client_config_loaded path strict common ps vs :
  LoadClientConfig path strict = Some (Ok (common, ps, vs, false)) →
  NoDup (pname <$> ps) ∧ NoDup (vname <$> vs) ∧
  ∃ cfg extra, contents path strict cfg extra ∧ common = CommonConfig.client_Complete http_proxy (ClientCommon cfg) ∧
    (∀ c, c ∈ ps ↔ ∃ c0, c = Config.Complete c0 ∧ (∃ f, f ∈ cfg :: extra ∧ c0 ∈ Proxies f) ∧
       p_enabled c0 = true ∧ to_start (CommonConfig.cc_Start common) (pname c0) = true) ∧
    (∀ c, c ∈ vs ↔ ∃ c0, c = VisitorConfig.Complete c0 ∧ (∃ f, f ∈ cfg :: extra ∧ c0 ∈ Visitors_ f) ∧
       v_enabled c0 = true ∧ to_start (CommonConfig.cc_Start common) (vname c0) = true).
Proof.
  unfold LoadClientConfig. destruct (LoadClientConfigResult path strict) as [[r|]|] eqn:Hr; try done.
  apply LoadClientConfigResult_spec in Hr as (Np & Nv & _ & Hc). intros [= <- <- <- Hl].
  destruct (Hc Hl) as (cfg & extra & Hcon & Hcom & Hp & Hv). split_and!.
  - unfold CompleteProxyConfigurers. rewrite <-list_fmap_compose, (list_fmap_ext (pname ∘ Config.Complete) pname)
      by (intros; apply Complete_pname). by apply filter_names_NoDup, filter_names_NoDup.
  - unfold CompleteVisitorConfigurers. rewrite <-list_fmap_compose, (list_fmap_ext (vname ∘ VisitorConfig.Complete) vname)
      by (intros; apply VisitorConfig.Complete_name). by apply filter_names_NoDup, filter_names_NoDup.
  - exists cfg, extra. split_and!; [done|done|..]; intros c.
    + unfold CompleteProxyConfigurers. rewrite list_elem_of_fmap. setoid_rewrite list_elem_of_filter. setoid_rewrite list_elem_of_filter.
      rewrite Hp. setoid_rewrite list_elem_of_bind. setoid_rewrite Is_true_true. naive_solver.
    + unfold CompleteVisitorConfigurers. rewrite list_elem_of_fmap. setoid_rewrite list_elem_of_filter. setoid_rewrite list_elem_of_filter.
      rewrite Hv. setoid_rewrite list_elem_of_bind. setoid_rewrite Is_true_true. naive_solver.
Qed.
End Loading.

(** *** Legacy files *)

(** The sections of an INI file have distinct names, and stay so. *)
Class IniNames `{Legacy.Ini} := {
  load_names src f : Legacy.LoadSources src = Some f → NoDup (Legacy.sec_Name <$> f);
  section_names f n f' : Legacy.NewSection f n = Some f' → NoDup (Legacy.sec_Name <$> f) → NoDup (Legacy.sec_Name <$> f');
  key_names f n k v f' : Legacy.NewKey f n k v = Some f' → NoDup (Legacy.sec_Name <$> f) → NoDup (Legacy.sec_Name <$> f') }.

Section LegacyNames.
Context `{IniNames} {float64 : Type} (ParseFloat : string → option float64) (scale : float64 → Z → Z).

Lemma copySection_names source n f : NoDup (Legacy.sec_Name <$> f) → NoDup (Legacy.sec_Name <$> Legacy.copySection source n f).
Proof.
  unfold Legacy.copySection. revert f. induction (map_to_list (Legacy.KeysHash source)) as [|[k v] l IH]; intros f Hf; [done|].
  cbn [foldl fst snd]. apply IH. destruct (Legacy.NewKey f n k v) eqn:Hk; [by eapply key_names|done].
Qed.

Lemma render_loop_names source prefix ports : ∀ f i f',
  Legacy.render_loop source prefix f i ports = Ok f' → NoDup (Legacy.sec_Name <$> f) → NoDup (Legacy.sec_Name <$> f').
Proof.
  induction ports as [|[l r] ports IH]; intros f i f'; cbn [Legacy.render_loop]; [by intros [= <-]|].
  destruct (Legacy.NewSection f _) as [f1|] eqn:H1; [|done]. destruct (Legacy.NewKey _ _ "local_port" _) as [f2|] eqn:H2; [|done].
  destruct (Legacy.NewKey f2 _ _ _) as [f3|] eqn:H3; [|done]. intros Hr Hf. apply (IH _ _ _ Hr).
  eapply key_names, key_names, copySection_names, section_names; done.
Qed.

Lemma render_all_names fuel names : ∀ f f',
  Legacy.render_all fuel f names = Some (Ok f') → NoDup (Legacy.sec_Name <$> f) → NoDup (Legacy.sec_Name <$> f').
Proof.
  induction names as [|n names IH]; intros f f'; cbn [Legacy.render_all]; [by intros [= <-]|].
  destruct (Legacy.renderRangeProxyTemplates fuel f n) as [[f1|]|] eqn:Hr; try done. intros Ha Hf. apply (IH _ _ Ha).
  revert Hr. unfold Legacy.renderRangeProxyTemplates. destruct (_ || _); [done|].
  destruct (ConfigTypes.ParseRangeNumbers _ _) as [[ls [|]]|]; try done.
  destruct (ConfigTypes.ParseRangeNumbers _ _) as [[rs [|]]|]; try done.
  destruct (negb _); [done|]. destruct (_ =? _)%nat; [done|]. intros [= Hr]. by eapply render_loop_names.
Qed.

Lemma NewProxy_name name s c :
  Legacy.NewProxyConfFromIni ParseFloat scale name s = Ok c → Legacy.ProxyName (Legacy.GetBaseConfig c) = name.
Proof.
  unfold Legacy.NewProxyConfFromIni, Legacy.UnmarshalFromIni, Legacy.preUnmarshalFromIni.
  destruct (Legacy.DefaultProxyConf _) as [c0|]; [|done]. destruct (Legacy.MapTo_proxy s c0) as [c1|]; [|done].
  destruct (Legacy.decorate _ _ name s (Legacy.GetBaseConfig c1)) as [b|] eqn:Hd; [|done].
  assert (Legacy.ProxyName b = name) as <- by (unfold Legacy.decorate in Hd; split_cases; by subst).
  intros [= <-]. by destruct c1.
Qed.

Lemma NewVisitor_name name s c :
  Legacy.NewVisitorConfFromIni name s = Ok c → Legacy.v_ProxyName (Legacy.v_GetBaseConfig c) = name.
Proof.
  unfold Legacy.NewVisitorConfFromIni, Legacy.visitor_UnmarshalFromIni. destruct (String.eqb _ _); [done|].
  destruct (Legacy.DefaultVisitorConf _) as [c0|]; [|done]. destruct (Legacy.MapTo_visitor s c0) as [c1|]; [|done].
  intros [= <-]. by destruct c1.
Qed.

(** Values stored under a prefix and their own name have distinct names. *)
Lemma section_values_NoDup {A} (name : A → string) prefix (m : gmap string A) l :
  (∀ k c, m !! k = Some c → k = prefix +:+ name c) → l ≡ₚ (map_to_list m).*2 → NoDup (name <$> l).
Proof.
  intros Hm ->. rewrite <-list_fmap_compose. apply (NoDup_fmap_1 (String.append prefix)). rewrite <-list_fmap_compose.
  rewrite (list_fmap_ext _ fst); [apply NoDup_fst_map_to_list|].
  intros i [k c] Hi%list_elem_of_lookup_2%elem_of_map_to_list. by rewrite (Hm _ _ Hi).
Qed.

Lemma LoadAll_names fuel prefix src start ps vs :
  Legacy.LoadAllProxyConfsFromIni ParseFloat scale fuel prefix src start = Some (Ok (ps, vs)) →
  ∃ p, (∀ k c, ps !! k = Some c → k = p +:+ Legacy.ProxyName (Legacy.GetBaseConfig c)) ∧
       (∀ k c, vs !! k = Some c → k = p +:+ Legacy.v_ProxyName (Legacy.v_GetBaseConfig c)).
Proof.
  unfold Legacy.LoadAllProxyConfsFromIni. destruct (Legacy.LoadSources src) as [f|] eqn:Hf; [|done].
  destruct (Legacy.render_all _ _ _) as [[f'|]|] eqn:Hr; try done. intros [= Hl].
  apply Legacy.load_sections_spec in Hl as (Hp & Hv & _ & _);
    [|by eapply render_all_names, load_names|by intros; apply lookup_empty..].
  eexists. split; intros k c.
  - rewrite Hp, lookup_empty. intros [?|(s & (_ & _ & _ & Hk) & Hc)]; [done|]. by rewrite (NewProxy_name _ _ _ Hc).
  - rewrite Hv, lookup_empty. intros [?|(s & (_ & _ & _ & Hk) & Hc)]; [done|]. by rewrite (NewVisitor_name _ _ _ Hc).
Qed.

(** A legacy file is never refused for a name used twice: its proxies and
    visitors are named after sections, and whatever the order in which the tables
    are visited, ranges of ports included, no two share a name. *)
Theorem legacy_names_distinct `{Files} visit_proxies visit_visitors hp fuel path strict name :
  (∀ m, visit_proxies m ≡ₚ (map_to_list m).*2) → (∀ m, visit_visitors m ≡ₚ (map_to_list m).*2) →
  DetectLegacyINIFormatFromFile path = true →
  let r := LoadClientConfigResult ParseFloat scale visit_proxies visit_visitors hp fuel path strict in
  r ≠ Some (Err (ErrProxyDuplicated name)) ∧ r ≠ Some (Err (ErrVisitorDuplicated name)).
Proof.
  intros Hvp Hvv Hd. cbv zeta. unfold LoadClientConfigResult. rewrite Hd.
  destruct (ParseClientConfig _ _ _ path) as [[[[c ps] vs]|e]|] eqn:Hparse; [..|done].
  - enough (validateNoDuplicateNames (Legacy.Convert_ProxyConf_To_v1 <$> visit_proxies ps)
      (Legacy.Convert_VisitorConf_To_v1 <$> visit_visitors vs) = None) as -> by done.
    assert (∃ p src st, Legacy.LoadAllProxyConfsFromIni ParseFloat scale fuel p src st = Some (Ok (ps, vs))) as (p & src & st & Hl).
    { revert Hparse. unfold ParseClientConfig. split_cases; intros; simplify_eq; eauto. }
    apply LoadAll_names in Hl as (q & Hp & Hv). apply validateNoDuplicateNames_None. rewrite <-!list_fmap_compose. split.
    + rewrite (list_fmap_ext _ (Legacy.ProxyName ∘ Legacy.GetBaseConfig)) by (intros ? [] ?; done). by eapply section_values_NoDup.
    + rewrite (list_fmap_ext _ (Legacy.v_ProxyName ∘ Legacy.v_GetBaseConfig)) by (intros ? [] ?; done). by eapply section_values_NoDup.
  - enough ((∀ n, e ≠ ErrProxyDuplicated n) ∧ ∀ n, e ≠ ErrVisitorDuplicated n) by naive_solver.
    revert Hparse. unfold ParseClientConfig, GetRenderedConfFromFile. split_cases; intros; simplify_eq; done.
Qed.
End LegacyNames.

(** ** Witnesses *)

Definition demo_decode (content : string) (_ : bool) (_ : string) : res located ClientConfig :=
  if String.eqb content "main" then
    Ok (mkClientConfig (CommonConfig.mkClientCommon "" (CommonConfig.cc_Auth CommonConfig.zero_client) "me" "" "" 0 "" "" None []
          CommonConfig.zero_log CommonConfig.zero_web (CommonConfig.cc_Transport CommonConfig.zero_client) "" ∅ 0 ∅ ["conf.d/*.toml"] "")
          [Config.demo_http] [])
  else Ok (mkClientConfig CommonConfig.zero_client
             [Config.CTCP (Config.mkTCP (Config.set_Type Config.zero_base "tcp") 6000)] []).

#[local] Instance demo_files : Files := {|
  ReadFile p := Some (if String.eqb p "frpc.toml" then "main" else p); Render b := Some b; Legacy_Render b := Some b;
  Abs_Dir _ := Some "/etc/conf.d"; Exists _ := true; ReadDir _ := Some [("old", true); ("a.toml", false)];
  Join_ a b := a +:+ "/" +:+ b; matched _ _ f := HasSuffix f ".toml"; Is_INI b := String.eqb b "frpc.ini";
  Decode_client := demo_decode; Decode_server _ _ _ := Ok CommonConfig.zero_server |}.

#[local] Instance demo_names : @IniNames Legacy.demo_ini.
Proof.
  split.
  - intros src f [= <-]. apply (bool_decide_eq_true_1 _). by vm_compute.
  - intros f n f'. cbn. unfold Legacy.demo_NewSection. destruct (String.eqb n ""); [done|]. case_bool_decide as Hn; [by intros [= <-]|].
    intros [= <-] Hf. rewrite fmap_app. apply NoDup_app. split_and!; [done|set_solver|apply NoDup_singleton].
  - intros f n k v f'. cbn. unfold Legacy.demo_NewKey. destruct (String.eqb k ""); [done|]. intros [= <-] Hf.
    rewrite <-list_fmap_compose, (list_fmap_ext _ Legacy.sec_Name); [done|].
    intros i s _. cbn. by destruct (String.eqb_spec (Legacy.sec_Name s) n).
Qed.

Definition demo_load := LoadClientConfig (H0 := Legacy.demo_ini) Atoi Z.mul (λ m, (map_to_list m).*2) (λ m, (map_to_list m).*2) "" 5.

Lemma client_config_loaded_witness :
  ∃ common ps vs, demo_load "frpc.toml" true = Some (Ok (common, ps, vs, false)) ∧ pname <$> ps = ["web"; ""] ∧ NoDup (pname <$> ps).
Proof.
  eexists _, _, _. split; [vm_compute; reflexivity|]. split; [done|].
  refine (proj1 (client_config_loaded (H0 := Legacy.demo_ini) Atoi Z.mul (λ m, (map_to_list m).*2) (λ m, (map_to_list m).*2) "" 5
    "frpc.toml" true _ _ _ _)).
  vm_compute. reflexivity.
Defined.

Lemma legacy_names_distinct_witness :
  LoadClientConfigResult (H0 := Legacy.demo_ini) Atoi Z.mul (λ m, (map_to_list m).*2) (λ m, (map_to_list m).*2) "" 5 "frpc.ini" true
  ≠ Some (Err (ErrProxyDuplicated "game_0")).
Proof.
  refine (proj1 (legacy_names_distinct (H := Legacy.demo_ini) Atoi Z.mul (λ m, (map_to_list m).*2) (λ m, (map_to_list m).*2) "" 5
    "frpc.ini" true "game_0" (λ m, reflexivity _) (λ m, reflexivity _) eq_refl)).
Defined.

Definition demo_configure : string → res located unit :=
  λ b, LoadConfigure (V := unit) (λ _, None) (λ _, true) (λ _, None) (λ _, None) (λ _ _, Err (ErrTypeOf "transport.protocol")) (λ _, None)
         b true "".

Lemma error_line_exact_witness :
  demo_configure ("a" +:+ String newline "protocol = 5") = Err (AtLine 2 "transport.protocol") ∧ "transport.protocol" ≠ "".
Proof.
  split; [vm_compute; reflexivity|].
  refine (proj1 (proj2 (error_line_exact (T := unit) (V := unit) (λ _, None) (λ _, true) (λ _, None) (λ _, None)
    (λ _ _, Err (ErrTypeOf "transport.protocol")) (λ _, None) ("a" +:+ String newline "protocol = 5") true "" 2 "transport.protocol" _))).
  vm_compute. reflexivity.
Defined.
End Load.
