(* ===== verification/ClientStart.v ===== *)
(** What a client starts from, cmd/frpc/sub/root.go ([runClient] and
    [runClientWithAggregator]) and [NewService] of client/service.go: the loaded
    file, its feature gates, the store beside it, the merged, filtered, completed
    and validated configuration, and the service that is made of them.

    Files and decoders are those of [Load] and [ConfigSource]; warnings, logging
    and the service's run are left out. *)
From Stdlib Require Import ZArith Lia Ascii String.
From stdpp Require Import base gmap strings list fin_maps sorting.
From S2P Require Import Prelude GoLib Ports ConfigTypes Config ClientProxies VisitorConfig Visitors ConfigSource Auth FeatureGate CommonConfig Legacy Load.

Local Open Scope Z_scope.
Local Open Scope frp_scope.

Module ClientStart.
Import ConfigSource Load.

Inductive start_error :=
| ErrLoad (e : load_error) | ErrGates (e : FeatureGate.error) | ErrConfigSource (e : source_error) | ErrStoreSource (e : source_error)
| ErrInvalidConfig | ErrAuth | ErrWebServer.

(** ** Sources and validation *)

(** A source made of a list of distinct names holds just that list. *)
Lemma replace_proxies_elem l : ∀ m m', replace_proxies m l = Ok m' → NoDup (pname <$> l) →
  (∀ c, c ∈ l → m' !! pname c = Some c ∧ pname c ≠ "") ∧ (∀ n, n ∉ pname <$> l → m' !! n = m !! n).
Proof.
  induction l as [|x l IH]; intros m m'; cbn [replace_proxies]; [intros [= <-] _; split; [by intros c ?%elem_of_nil|done]|].
  unfold validateProxyName. destruct (String.eqb_spec (pname x) "") as [|Hx]; [done|]. cbn. intros Hr [Hni Hnd]%NoDup_cons.
  destruct (IH _ _ Hr Hnd) as [H1 H2]. split.
  - intros c [->|Hc]%elem_of_cons; [|by apply H1]. rewrite H2 by done. by rewrite lookup_insert_eq.
  - intros n [Hne Hn]%not_elem_of_cons. rewrite H2 by done. by apply lookup_insert_ne.
Qed.

Lemma replace_visitors_elem l : ∀ m m', replace_visitors m l = Ok m' → NoDup (vname <$> l) →
  (∀ c, c ∈ l → m' !! vname c = Some c ∧ vname c ≠ "") ∧ (∀ n, n ∉ vname <$> l → m' !! n = m !! n).
Proof.
  induction l as [|x l IH]; intros m m'; cbn [replace_visitors]; [intros [= <-] _; split; [by intros c ?%elem_of_nil|done]|].
  unfold validateVisitorName. destruct (String.eqb_spec (vname x) "") as [|Hx]; [done|]. cbn. intros Hr [Hni Hnd]%NoDup_cons.
  destruct (IH _ _ Hr Hnd) as [H1 H2]. split.
  - intros c [->|Hc]%elem_of_cons; [|by apply H1]. rewrite H2 by done. by rewrite lookup_insert_eq.
  - intros n [Hne Hn]%not_elem_of_cons. rewrite H2 by done. by apply lookup_insert_ne.
Qed.

Lemma ReplaceAll_elem ps vs b : ReplaceAll ps vs = Ok b → NoDup (pname <$> ps) → NoDup (vname <$> vs) →
  (∀ c, proxies b !! pname c = Some c ↔ c ∈ ps) ∧ (∀ c, visitors b !! vname c = Some c ↔ c ∈ vs) ∧
  Forall (λ c, pname c ≠ "") ps ∧ Forall (λ c, vname c ≠ "") vs.
Proof.
  unfold ReplaceAll. destruct (replace_proxies ∅ ps) as [pm|] eqn:Hp; [|done]. cbn.
  destruct (replace_visitors ∅ vs) as [vm|] eqn:Hv; [|done]. cbn. intros [= <-] Np Nv. cbn.
  destruct (replace_proxies_elem _ _ _ Hp Np) as [P1 P2], (replace_visitors_elem _ _ _ Hv Nv) as [V1 V2].
  split_and!; [..|apply Forall_forall; naive_solver|apply Forall_forall; naive_solver]; intros c; (split; [|naive_solver]).
  - intros Hc. destruct (decide (pname c ∈ pname <$> ps)) as [Hin|Hni]; [|by rewrite P2, lookup_empty in Hc].
    apply list_elem_of_fmap in Hin as (d & Hd & Hin). destruct (P1 d Hin) as [Hl _]. rewrite <-Hd, Hc in Hl. by injection Hl as ->.
  - intros Hc. destruct (decide (vname c ∈ vname <$> vs)) as [Hin|Hni]; [|by rewrite V2, lookup_empty in Hc].
    apply list_elem_of_fmap in Hin as (d & Hd & Hin). destruct (V1 d Hin) as [Hl _]. rewrite <-Hd, Hc in Hl. by injection Hl as ->.
Qed.

Lemma validate_proxies_None IsQualifiedName l : validate_proxies IsQualifiedName l = None → Forall (λ c, Config.ValidateProxyConfigurerForClient IsQualifiedName c = None) l.
Proof. induction l as [|c l IH]; [done|]. cbn. destruct (Config.ValidateProxyConfigurerForClient _ c) eqn:Hc; [done|]. auto. Qed.

Lemma validate_visitors_None l : validate_visitors l = None → Forall (λ c, VisitorConfig.ValidateVisitorConfigurer c = None) l.
Proof. induction l as [|c l IH]; [done|]. cbn. destruct (VisitorConfig.ValidateVisitorConfigurer c) eqn:Hc; [done|]. auto. Qed.

(** The proxies and visitors a service runs, by where they come from. *)
Lemma agg_sources src store Start (fps : list PC) (fvs : list VC) :
  src_wf src → src_wf (store_entries store) →
  (∀ c, proxies src !! pname c = Some c ↔ c ∈ fps) → (∀ c, visitors src !! vname c = Some c ↔ c ∈ fvs) →
  let '(ps, vs) := FilterClientConfigurers Start (agg_Load src store).1 (agg_Load src store).2 in
  (∀ c, c ∈ ps ↔ p_enabled c = true ∧ to_start Start (pname c) = true ∧
     (proxies (store_entries store) !! pname c = Some c ∨
      (c ∈ fps ∧ ∀ d, proxies (store_entries store) !! pname c = Some d → p_enabled d = false))) ∧
  (∀ c, c ∈ vs ↔ v_enabled c = true ∧ to_start Start (vname c) = true ∧
     (visitors (store_entries store) !! vname c = Some c ∨
      (c ∈ fvs ∧ ∀ d, visitors (store_entries store) !! vname c = Some d → v_enabled d = false))).
Proof.
  intros H1 H2 Hp Hv. pose proof (sources_merged src store H1 H2) as Hm. destruct (agg_Load src store) as [ps vs]. cbn.
  destruct Hm as (Mp & Mv & _). split; intros c; rewrite !list_elem_of_filter, !Is_true_true.
  - rewrite Mp, Hp. naive_solver.
  - rewrite Mv, Hv. naive_solver.
Qed.

(** The same, of the completed configurations of a service. *)
Lemma effective_from svr src store Start (fps : list PC) (fvs : list VC) :
  svr = mkService true src store Start (effective svr).1 (effective svr).2 None Visitors.NewManager →
  src_wf src → src_wf (store_entries store) →
  (∀ c, proxies src !! pname c = Some c ↔ c ∈ fps) → (∀ c, visitors src !! vname c = Some c ↔ c ∈ fvs) →
  (∀ c, c ∈ (effective svr).1 ↔ ∃ c0, c = Config.Complete c0 ∧ p_enabled c0 = true ∧ to_start Start (pname c0) = true ∧
     (proxies (store_entries store) !! pname c0 = Some c0 ∨
      (c0 ∈ fps ∧ ∀ d, proxies (store_entries store) !! pname c0 = Some d → p_enabled d = false))) ∧
  (∀ c, c ∈ (effective svr).2 ↔ ∃ c0, c = VisitorConfig.Complete c0 ∧ v_enabled c0 = true ∧ to_start Start (vname c0) = true ∧
     (visitors (store_entries store) !! vname c0 = Some c0 ∨
      (c0 ∈ fvs ∧ ∀ d, visitors (store_entries store) !! vname c0 = Some d → v_enabled d = false))) ∧
  NoDup (pname <$> (effective svr).1) ∧ NoDup (vname <$> (effective svr).2).
Proof.
  intros Hs H1 H2 Hp Hv. pose proof (agg_sources src store Start fps fvs H1 H2 Hp Hv) as Ha.
  assert (NoDup (pname <$> (effective svr).1) ∧ NoDup (vname <$> (effective svr).2)) as [Dp Dv]
    by (apply effective_names; rewrite Hs; done).
  rewrite Hs in Dp, Dv |- *. unfold effective in *. cbn [configSource storeSource reloadCommon] in *.
  destruct (agg_Load src store) as [ps vs]. cbn [fst snd] in Ha. destruct (FilterClientConfigurers Start ps vs) as [ps' vs'].
  cbn [fst snd] in *. destruct Ha as [Hap Hav]. split_and!; try done; intros c; unfold CompleteProxyConfigurers, CompleteVisitorConfigurers;
    rewrite list_elem_of_fmap; [setoid_rewrite Hap|setoid_rewrite Hav]; naive_solver.
Qed.

(** ** Starting *)

Section Start.
Context `{Load.Files} `{Legacy.Ini} {float64 : Type} (ParseFloat : string → option float64) (scale : float64 → Z → Z).
Context (visit_proxies : gmap string Legacy.ProxyConf → list Legacy.ProxyConf)
  (visit_visitors : gmap string Legacy.VisitorConf → list Legacy.VisitorConf) (http_proxy : string) (fuel : nat).
(** The JSON of the store, the validators' libraries, and path/filepath. *)
Context {raw : Type} (Unmarshal : string → option (list raw * list raw)) (DecodeProxy : raw → option PC) (DecodeVisitor : raw → option VC)
  (IsQualifiedName : string → list string) (unsafeFeatures : option (gset string)) (parse : string → res string Auth.URL)
  (IsAbs : string → bool) (Dir : string → string).
(** The store's file and whether it can be read; the outcomes of
    [auth.BuildClientAuth] and of opening the web server. *)
Context (store_file : string → ConfigSource.Files * bool) (auth_ok web_ok : CommonConfig.ClientCommonConfig → bool).

Notation LoadClientConfigResult := (LoadClientConfigResult ParseFloat scale visit_proxies visit_visitors http_proxy fuel).
Notation ParseClientConfig := (ParseClientConfig ParseFloat scale fuel).
Notation NewStoreSource := (NewStoreSource Unmarshal DecodeProxy DecodeVisitor).

Definition storePath (storePath cfgFilePath : string) : string :=
  if negb (String.eqb storePath "") && negb (String.eqb cfgFilePath "") && negb (IsAbs storePath)
  then Join_ (Dir cfgFilePath) storePath else storePath.

(** [NewService], up to what it keeps of its options: the configuration, which is
    completed once more, and the service. *)
Definition NewService (common : CommonConfig.ClientCommonConfig) (src : baseSource) (store : option StoreSource) :
    res start_error (CommonConfig.ClientCommonConfig * Service) :=
  let common := CommonConfig.client_Complete http_proxy common in
  if negb (auth_ok common) then Err ErrAuth
  else
    let '(ps, vs) := agg_Load src store in
    let '(ps, vs) := FilterClientConfigurers (CommonConfig.cc_Start common) ps vs in
    let ps := CompleteProxyConfigurers ps in
    let vs := CompleteVisitorConfigurers vs in
    if (0 <? CommonConfig.ws_Port (CommonConfig.cc_WebServer common)) && negb (web_ok common) then Err ErrWebServer
    else Ok (common, mkService true src store (CommonConfig.cc_Start common) ps vs None Visitors.NewManager).

Definition open_store (cfgFilePath : string) (common : CommonConfig.ClientCommonConfig) : res start_error (option StoreSource) :=
  if String.eqb (CommonConfig.cc_Store_Path common) "" then Ok None
  else
    let p := storePath (CommonConfig.cc_Store_Path common) cfgFilePath in
    match NewStoreSource p (store_file p).1 (store_file p).2 with Err e => Err (ErrStoreSource e) | Ok s => Ok (Some s) end.

Definition runClientWithAggregator (gates : FeatureGate.featureGate) (result : ClientConfigLoadResult) (cfgFilePath : string) :
    res start_error (CommonConfig.ClientCommonConfig * Service) :=
  match ReplaceAll (lr_Proxies result) (lr_Visitors result) with
  | Err e => Err (ErrConfigSource e)
  | Ok configSource =>
      let? storeSource := open_store cfgFilePath (lr_Common result) in
      let '(ps, vs) := agg_Load configSource storeSource in
      let '(ps, vs) := FilterClientConfigurers (CommonConfig.cc_Start (lr_Common result)) ps vs in
      let common_ok := match (CommonConfig.ValidateClientCommonConfig unsafeFeatures gates parse Abs_Dir Exists (lr_Common result)).2 with
                       | [] => true | _ => false end in
      if ValidateAllClientConfig IsQualifiedName common_ok (CompleteProxyConfigurers ps) (CompleteVisitorConfigurers vs)
      then NewService (lr_Common result) configSource storeSource
      else Err ErrInvalidConfig
  end.

(** The default feature gates, and the service that is run; [None] when the fuel
    does not see the end of a port range of a legacy file. *)
Definition runClient (gates : FeatureGate.featureGate) (cfgFilePath : string) (strict : bool) :
    FeatureGate.featureGate * option (res start_error (CommonConfig.ClientCommonConfig * Service)) :=
  match LoadClientConfigResult cfgFilePath strict with
  | None => (gates, None)
  | Some (Err e) => (gates, Some (Err (ErrLoad e)))
  | Some (Ok result) =>
      let '(gates, r) := match map_to_list (CommonConfig.cc_FeatureGates (lr_Common result)) with
                         | [] => (gates, Ok tt)
                         | m => FeatureGate.SetFromMap gates m
                         end in
      match r with
      | Err e => (gates, Some (Err (ErrGates e)))
      | Ok _ => (gates, Some (runClientWithAggregator gates result cfgFilePath))
      end
  end.

(** What the configuration file declares: for a legacy file the converted sections
    of it and of what it includes, else the lists of the file and of the files it
    includes. *)
Definition declared (path : string) (strict : bool) (common : CommonConfig.ClientCommonConfig) (fps : list PC) (fvs : list VC) : Prop :=
  if DetectLegacyINIFormatFromFile path then
    ∃ cfg ps vs, ParseClientConfig path = Some (Ok (cfg, ps, vs)) ∧ common = Legacy.Convert_ClientCommonConf_To_v1 cfg ∧
      (∀ c, c ∈ fps ↔ ∃ k p, ps !! k = Some p ∧ c = Legacy.Convert_ProxyConf_To_v1 p) ∧
      (∀ c, c ∈ fvs ↔ ∃ k v, vs !! k = Some v ∧ c = Legacy.Convert_VisitorConf_To_v1 v)
  else
    ∃ cfg extra, contents path strict cfg extra ∧ common = ClientCommon cfg ∧
      (∀ c, c ∈ fps ↔ ∃ f, f ∈ cfg :: extra ∧ c ∈ Proxies f) ∧ (∀ c, c ∈ fvs ↔ ∃ f, f ∈ cfg :: extra ∧ c ∈ Visitors_ f).

(** ** Lemmas *)

(** What is loaded is what is declared. *)
Lemma loaded_declared path strict r :
  (∀ m, visit_proxies m ≡ₚ (map_to_list m).*2) → (∀ m, visit_visitors m ≡ₚ (map_to_list m).*2) →
  LoadClientConfigResult path strict = Some (Ok r) →
  NoDup (pname <$> lr_Proxies r) ∧ NoDup (vname <$> lr_Visitors r) ∧
  ∃ common, declared path strict common (lr_Proxies r) (lr_Visitors r) ∧ lr_Common r = CommonConfig.client_Complete http_proxy common.
Proof.
  intros Hvp Hvv Hr. pose proof Hr as Hspec. apply LoadClientConfigResult_spec in Hspec as (Np & Nv & Hl & Hc). split_and!; try done.
  unfold declared. destruct (DetectLegacyINIFormatFromFile path) eqn:Hd.
  - unfold Load.LoadClientConfigResult in Hr. rewrite Hd in Hr.
    destruct (ParseClientConfig path) as [[[[cfg ps] vs]|]|]; [|done..]. destruct (validateNoDuplicateNames _ _); [done|].
    injection Hr as <-. cbn. eexists. split; [|done]. exists cfg, ps, vs. split_and!; try done; intros c; rewrite list_elem_of_fmap.
    + setoid_rewrite Hvp. setoid_rewrite list_elem_of_fmap. split.
      * intros (p & -> & [k p'] & -> & Hk%elem_of_map_to_list). by exists k, p'.
      * intros (k & p & Hk & ->). exists p. split; [done|]. exists (k, p). by rewrite elem_of_map_to_list.
    + setoid_rewrite Hvv. setoid_rewrite list_elem_of_fmap. split.
      * intros (p & -> & [k p'] & -> & Hk%elem_of_map_to_list). by exists k, p'.
      * intros (k & p & Hk & ->). exists p. split; [done|]. exists (k, p). by rewrite elem_of_map_to_list.
  - destruct (Hc Hl) as (cfg & extra & Hcon & Hcom & Hp & Hv). exists (ClientCommon cfg). split; [|done].
    exists cfg, extra. rewrite Hp, Hv. split_and!; try done; intros c; rewrite list_elem_of_bind; naive_solver.
Qed.

Lemma open_store_spec path common store :
  open_store path common = Ok store → src_wf (store_entries store) ∧
  match store with
  | None => CommonConfig.cc_Store_Path common = ""
  | Some s => CommonConfig.cc_Store_Path common ≠ "" ∧ let p := storePath (CommonConfig.cc_Store_Path common) path in
      ConfigSource.path s = p ∧ NewStoreSource p (store_file p).1 (store_file p).2 = Ok s
  end.
Proof.
  unfold open_store. destruct (String.eqb_spec (CommonConfig.cc_Store_Path common) "") as [He|He]; [intros [= <-]; by repeat split|].
  set (p := storePath _ _). destruct (NewStoreSource p _ _) as [s|] eqn:Hn; [|done]. intros [= <-]. cbn.
  assert (NewStoreSource p (store_file p).1 true = Ok s) as Ht.
  { revert Hn. unfold ConfigSource.NewStoreSource. destruct (String.eqb p ""); [done|]. destruct (file _); [|done]. by destruct (store_file p).2. }
  apply NewStoreSource_spec in Ht as (Hs & _ & Hp & Hv). rewrite Hs at 2. cbn. split; [|done].
  split; intros n c Hc; [by destruct (Hp n c Hc)|by destruct (Hv n c Hc)].
Qed.

Lemma NewService_spec common src store common' svr :
  NewService common src store = Ok (common', svr) →
  common' = CommonConfig.client_Complete http_proxy common ∧
  svr = mkService true src store (CommonConfig.cc_Start common') (effective svr).1 (effective svr).2 None Visitors.NewManager.
Proof.
  unfold NewService. destruct (negb (auth_ok _)); [done|]. destruct (agg_Load src store) as [ps vs] eqn:Hl.
  unfold FilterClientConfigurers. destruct (_ && _); [done|]. intros [= <- <-]. split; [done|].
  unfold effective. cbn [configSource storeSource reloadCommon]. by rewrite Hl.
Qed.

Lemma runClientWithAggregator_spec gates r path common svr :
  runClientWithAggregator gates r path = Ok (common, svr) →
  ∃ src store, ReplaceAll (lr_Proxies r) (lr_Visitors r) = Ok src ∧ open_store path (lr_Common r) = Ok store ∧
    common = CommonConfig.client_Complete http_proxy (lr_Common r) ∧
    svr = mkService true src store (CommonConfig.cc_Start common) (effective svr).1 (effective svr).2 None Visitors.NewManager ∧
    validate_proxies IsQualifiedName (effective svr).1 = None ∧ validate_visitors (effective svr).2 = None.
Proof.
  unfold runClientWithAggregator. destruct (ReplaceAll _ _) as [src|]; [|done]. destruct (open_store _ _) as [store|]; [|done].
  destruct (agg_Load src store) as [ps vs] eqn:Hl. unfold FilterClientConfigurers, ValidateAllClientConfig.
  destruct (match snd _ with [] => true | _ => false end); [|done].
  destruct (validate_proxies _ _) eqn:Vp; [done|]. destruct (validate_visitors _) eqn:Vv; [done|].
  intros [-> Hs]%NewService_spec. exists src, store. split_and!; try done.
  - rewrite Hs. unfold effective. cbn [configSource storeSource reloadCommon]. by rewrite Hl.
  - rewrite Hs. unfold effective. cbn [configSource storeSource reloadCommon]. by rewrite Hl.
Qed.

(** A service that has just been made is in order. *)
Lemma started_ok user src store Start svr :
  svr = mkService true src store Start (effective svr).1 (effective svr).2 None Visitors.NewManager →
  src_wf src → src_wf (store_entries store) → svc_ok user svr ∧ applied svr.
Proof.
  intros Hs H1 H2. split.
  - rewrite Hs. split; cbn; try done. split; [|done]. apply Visitors.vinv_reachable. apply rtc_refl.
  - split; [|rewrite Hs; done]. rewrite Hs at 1 2. cbn. by destruct (effective svr).
Qed.

Lemma gates_set gates m g :
  match map_to_list m with [] => (gates, Ok tt) | l => FeatureGate.SetFromMap gates l end = (g, Ok tt) →
  ∀ k v, m !! k = Some v → FeatureGate.Enabled g k = v.
Proof.
  intros Hg k v Hk. assert (FeatureGate.SetFromMap gates (map_to_list m) = (g, Ok tt)) as Hs.
  { destruct (map_to_list m) eqn:Hm; [|done]. apply elem_of_map_to_list in Hk. rewrite Hm in Hk. by apply elem_of_nil in Hk. }
  pose proof (FeatureGate.set_gates_exact gates m (map_to_list m) ltac:(done)) as He. rewrite Hs in He. destruct He as (_ & He & _).
  by rewrite (He eq_refl k), Hk.
Qed.

(** C36. What [frpc -c] starts from, when it starts, for configuration files of every
    format. The proxies of the service are exactly the completed ones that are
    enabled, listed in [start] if that is given, and either in the store, or
    declared by the configuration file and the files it includes and not replaced
    by an enabled one of the store; the same holds of visitors. All of them are
    valid, no two share a name, and no name the file declares is empty or
    declared twice. The store is the one read from the path of the configuration,
    taken relative to the file, and there is none without a path; the feature
    gates of the file are set; and the service is in the state from which the
    management API and reloads keep its guarantees. *)
Theorem client_starts_from user gates path strict gates' common svr :
  (∀ m, visit_proxies m ≡ₚ (map_to_list m).*2) → (∀ m, visit_visitors m ≡ₚ (map_to_list m).*2) →
  runClient gates path strict = (gates', Some (Ok (common, svr))) →
  ∃ common0 fps fvs, declared path strict common0 fps fvs ∧ common = CommonConfig.client_Complete http_proxy common0 ∧
    (NoDup (pname <$> fps) ∧ Forall (λ c, pname c ≠ "") fps) ∧ (NoDup (vname <$> fvs) ∧ Forall (λ c, vname c ≠ "") fvs) ∧
    match storeSource svr with
    | None => CommonConfig.cc_Store_Path common = ""
    | Some s => CommonConfig.cc_Store_Path common ≠ "" ∧ let p := storePath (CommonConfig.cc_Store_Path common) path in
        ConfigSource.path s = p ∧ NewStoreSource p (store_file p).1 (store_file p).2 = Ok s
    end ∧
    (let stored := proxies (store_entries (storeSource svr)) in
     ∀ c, c ∈ proxyCfgs svr ↔ ∃ c0, c = Config.Complete c0 ∧ p_enabled c0 = true ∧ to_start (CommonConfig.cc_Start common) (pname c0) = true ∧
       (stored !! pname c0 = Some c0 ∨ (c0 ∈ fps ∧ ∀ d, stored !! pname c0 = Some d → p_enabled d = false))) ∧
    (let stored := visitors (store_entries (storeSource svr)) in
     ∀ c, c ∈ visitorCfgs svr ↔ ∃ c0, c = VisitorConfig.Complete c0 ∧ v_enabled c0 = true ∧
       to_start (CommonConfig.cc_Start common) (vname c0) = true ∧
       (stored !! vname c0 = Some c0 ∨ (c0 ∈ fvs ∧ ∀ d, stored !! vname c0 = Some d → v_enabled d = false))) ∧
    (NoDup (pname <$> proxyCfgs svr) ∧ Forall (λ c, Config.ValidateProxyConfigurerForClient IsQualifiedName c = None) (proxyCfgs svr)) ∧
    (NoDup (vname <$> visitorCfgs svr) ∧ Forall (λ c, VisitorConfig.ValidateVisitorConfigurer c = None) (visitorCfgs svr)) ∧
    (∀ k v, CommonConfig.cc_FeatureGates common !! k = Some v → FeatureGate.Enabled gates' k = v) ∧
    svc_ok user svr ∧ applied svr.
Proof.
  intros Hvp Hvv. unfold runClient. destruct (LoadClientConfigResult path strict) as [[r|]|] eqn:Hr; [|done..].
  apply (loaded_declared path strict r Hvp Hvv) in Hr as (Np & Nv & common0 & Hdec & Hcom).
  destruct (match map_to_list _ with [] => _ | _ => _ end) as [g [[]|]] eqn:Hg; [|done]. intros [= <- Hrun].
  apply runClientWithAggregator_spec in Hrun as (src & store & Hsrc & Hst & Hc & Hsvr & Vp & Vv).
  assert (common = lr_Common r) as ->
    by (rewrite Hc, Hcom; by apply (CommonConfig.complete_idempotent http_proxy common0 CommonConfig.zero_server)).
  destruct (ReplaceAll_elem _ _ _ Hsrc Np Nv) as (Ep & Ev & Fp & Fv). apply ReplaceAll_wf in Hsrc.
  apply open_store_spec in Hst as [Hsw Hst]. destruct (started_ok user _ _ _ _ Hsvr Hsrc Hsw) as [Hok Hap].
  destruct (effective_from _ _ _ _ _ _ Hsvr Hsrc Hsw Ep Ev) as (Mp & Mv & Dp & Dv).
  exists common0, (lr_Proxies r), (lr_Visitors r).
  assert (storeSource svr = store ∧ proxyCfgs svr = (effective svr).1 ∧ visitorCfgs svr = (effective svr).2) as (-> & -> & ->)
    by (rewrite Hsvr at 1 2 4; done).
  split_and!; try done; [by apply validate_proxies_None|by apply validate_visitors_None|by eapply gates_set].
Qed.
End Start.

(** ** Witnesses *)

(** A file with two proxies and a store beside it that has the second, too. *)
Definition demo_common : CommonConfig.ClientCommonConfig :=
  CommonConfig.mkClientCommon "" (CommonConfig.cc_Auth CommonConfig.zero_client) "" "" "" 0 "" "" None [] CommonConfig.zero_log
    CommonConfig.zero_web (CommonConfig.cc_Transport CommonConfig.zero_client) "" {[FeatureGate.VirtualNet := true]} 0 ∅ [] "store.json".

#[local] Instance demo_files : Load.Files := {|
  ReadFile p := Some p; Render b := Some b; Legacy_Render b := Some b; Abs_Dir _ := Some "/etc/frp"; Exists _ := true; ReadDir _ := Some [];
  Join_ a b := a +:+ "/" +:+ b; matched _ _ _ := false; Is_INI _ := false;
  Decode_client _ _ _ := Ok (mkClientConfig demo_common [demo_proxy "a" 6000 None; demo_proxy "b" 6001 None] []);
  Decode_server _ _ _ := Ok CommonConfig.zero_server |}.

Definition demo_run := runClient (H0 := Legacy.demo_ini) Atoi Z.mul (λ m, (map_to_list m).*2) (λ m, (map_to_list m).*2) "" 5
  (λ _, Some ([demo_proxy "b" 7001 None], [])) Some (λ _, None) (λ _, []) None (λ _, Err "") (λ _, false) (λ _, "/etc/frp")
  (λ _, (mkFiles (Some "{}") None, true)) (λ _, true) (λ _, true) FeatureGate.NewFeatureGate.

Lemma client_starts_from_witness :
  ∃ gates common svr, demo_run "/etc/frp/frpc.toml" true = (gates, Some (Ok (common, svr))) ∧
    FeatureGate.Enabled gates FeatureGate.VirtualNet = true ∧ Config.Complete (demo_proxy "b" 7001 None) ∈ proxyCfgs svr ∧ applied svr.
Proof.
  destruct (demo_run "/etc/frp/frpc.toml" true) as [gates [[[common svr]|]|]] eqn:Hrun; [|exfalso; apply (f_equal snd) in Hrun; vm_compute in Hrun; discriminate Hrun..].
  exists gates, common, svr. split; [reflexivity|].
  destruct (client_starts_from (H0 := Legacy.demo_ini) Atoi Z.mul (λ m, (map_to_list m).*2) (λ m, (map_to_list m).*2) "" 5
    (λ _, Some ([demo_proxy "b" 7001 None], [])) Some (λ _, None) (λ _, []) None (λ _, Err "") (λ _, false) (λ _, "/etc/frp")
    (λ _, (mkFiles (Some "{}") None, true)) (λ _, true) (λ _, true) "" FeatureGate.NewFeatureGate "/etc/frp/frpc.toml" true gates common svr
    (λ m, reflexivity _) (λ m, reflexivity _) Hrun) as (common0 & fps & fvs & _ & _ & _ & _ & _ & Hp & _ & _ & _ & Hg & _ & Ha).
  assert (common = CommonConfig.client_Complete "" demo_common ∧ proxies (store_entries (storeSource svr)) !! "b" = Some (demo_proxy "b" 7001 None))
    as [-> Hb].
  { vm_compute in Hrun. injection Hrun as _ <- <-. split; vm_compute; reflexivity. }
  split; [apply Hg; vm_compute; reflexivity|]. split; [|exact Ha].
  apply Hp. exists (demo_proxy "b" 7001 None). split; [reflexivity|]. split; [reflexivity|]. split; [reflexivity|]. left. exact Hb.
Defined.
End ClientStart.
