(* ===== verification/AdminAPI.v ===== *)
(** The admin API of the client, client/http/controller.go with the bodies of its
    requests and answers in client/http/model: definitions of proxies and visitors
    with one block per type, their checks, and the handlers on top of the
    management operations of [ConfigSource].

    A handler's answer is a value or an HTTP error. Reading a body and JSON are
    outcomes given to the handler; routing and the text of answers are left out. *)
From Stdlib Require Import ZArith Lia Ascii String.
From stdpp Require Import base gmap strings list fin_maps sorting.
From S2P Require Import Prelude GoLib Wire Msg Ports ConfigTypes Config ClientProxies VisitorConfig Visitors ConfigSource Dashboard.

Local Open Scope Z_scope.
Local Open Scope frp_scope.

Module AdminAPI.
Import ConfigSource.

(** ** Definitions of proxies, model/proxy_definition.go *)

Record ProxyDefinition := mkProxyDefinition {
  pd_Name : string; pd_Type : string;
  TCP : option Config.TCPProxyConfig; UDP : option Config.UDPProxyConfig; HTTP : option Config.HTTPProxyConfig;
  HTTPS : option Config.HTTPSProxyConfig; TCPMux : option Config.TCPMuxProxyConfig; STCP : option Config.STCPProxyConfig;
  SUDP : option Config.SUDPProxyConfig; XTCP : option Config.XTCPProxyConfig; XUDP : option Config.XUDPProxyConfig;
  TCPUDP : option Config.TCPUDPProxyConfig; STCPSUDP : option Config.STCPSUDPProxyConfig;
  XTCPXUDP : option Config.XTCPXUDPProxyConfig; MC : option Config.MCProxyConfig; PE : option Config.PEProxyConfig }.

Inductive def_error :=
| ErrNameRequired | ErrInvalidType (t : string) | ErrNameMismatch | ErrBlockCount | ErrBlockType (block type : string).

(** One [if p.X != nil] of [activeBlock]. *)
Definition block {A C} (o : option A) (mk : A → C) (t : string) (acc : option C * string * Z) : option C * string * Z :=
  match o with Some a => (Some (mk a), t, acc.2 + 1) | None => acc end.

Definition activeBlock (p : ProxyDefinition) : option PC * string * Z :=
  block (PE p) Config.CPE "pe" (block (MC p) Config.CMC "mc" (block (XTCPXUDP p) Config.CXTCPXUDP "xtcp+xudp"
  (block (STCPSUDP p) Config.CSTCPSUDP "stcp+sudp" (block (TCPUDP p) Config.CTCPUDP "tcp+udp" (block (XUDP p) Config.CXUDP "xudp"
  (block (XTCP p) Config.CXTCP "xtcp" (block (SUDP p) Config.CSUDP "sudp" (block (STCP p) Config.CSTCP "stcp"
  (block (TCPMux p) Config.CTCPMux "tcpmux" (block (HTTPS p) Config.CHTTPS "https" (block (HTTP p) Config.CHTTP "http"
  (block (UDP p) Config.CUDP "udp" (block (TCP p) Config.CTCP "tcp" (None, "", 0)))))))))))))).

Definition IsProxyType (typ : string) : bool :=
  Config.str_in typ ["tcp"; "udp"; "http"; "https"; "tcpmux"; "stcp"; "sudp"; "xtcp"; "xudp"; "tcp+udp"; "stcp+sudp"; "xtcp+xudp";
    "mc"; "pe"].

(** The checks of [Validate], which both definitions share. *)
Definition validate_def (is_type : string → bool) (name typ blockType : string) (blockCount : Z) (pathName : string) (isUpdate : bool) :
    option def_error :=
  if String.eqb (TrimSpace name) "" then Some ErrNameRequired
  else if negb (is_type typ) then Some (ErrInvalidType typ)
  else if isUpdate && negb (String.eqb pathName "") && negb (String.eqb pathName name) then Some ErrNameMismatch
  else if negb (blockCount =? 1) then Some ErrBlockCount
  else if negb (String.eqb blockType typ) then Some (ErrBlockType blockType typ)
  else None.

Definition Validate (p : ProxyDefinition) (pathName : string) (isUpdate : bool) : option def_error :=
  let '(_, blockType, blockCount) := activeBlock p in
  validate_def IsProxyType (pd_Name p) (pd_Type p) blockType blockCount pathName isUpdate.

(** [cfg.GetBaseConfig().Name = name] and [.Type = typ]. *)
Definition name_type (c : PC) (name typ : string) : PC :=
  let b := Config.GetBaseConfig c in
  Config.set_base c (Config.mkProxyBase name typ (Config.Enabled b) (Config.Annotations b) (Config.Transport b) (Config.Metadatas b)
    (Config.LoadBalancer b) (Config.HealthCheck b) (Config.Backend b)).

Definition ToConfigurer (p : ProxyDefinition) : res def_error PC :=
  match (activeBlock p).1.1 with
  | None => Err ErrBlockCount
  | Some block => Ok (name_type block (pd_Name p) (pd_Type p))
  end.

(** The configurer is never nil and of one of the fourteen types. *)
Definition ProxyDefinitionFromConfigurer (cfg : PC) : ProxyDefinition :=
  let b := Config.GetBaseConfig cfg in
  let mk := mkProxyDefinition (Config.Name b) (Config.Type_ b) in
  match cfg with
  | Config.CTCP c => mk (Some c) None None None None None None None None None None None None None
  | Config.CUDP c => mk None (Some c) None None None None None None None None None None None None
  | Config.CHTTP c => mk None None (Some c) None None None None None None None None None None None
  | Config.CHTTPS c => mk None None None (Some c) None None None None None None None None None None
  | Config.CTCPMux c => mk None None None None (Some c) None None None None None None None None None
  | Config.CSTCP c => mk None None None None None (Some c) None None None None None None None None
  | Config.CSUDP c => mk None None None None None None (Some c) None None None None None None None
  | Config.CXTCP c => mk None None None None None None None (Some c) None None None None None None
  | Config.CXUDP c => mk None None None None None None None None (Some c) None None None None None
  | Config.CTCPUDP c => mk None None None None None None None None None (Some c) None None None None
  | Config.CSTCPSUDP c => mk None None None None None None None None None None (Some c) None None None
  | Config.CXTCPXUDP c => mk None None None None None None None None None None None (Some c) None None
  | Config.CMC c => mk None None None None None None None None None None None None (Some c) None
  | Config.CPE c => mk None None None None None None None None None None None None None (Some c)
  end.

(** ** Definitions of visitors, model/visitor_definition.go *)

Record VisitorDefinition := mkVisitorDefinition {
  vd_Name : string; vd_Type : string;
  v_STCP : option VisitorConfig.STCPVisitorConfig; v_SUDP : option VisitorConfig.SUDPVisitorConfig;
  v_XTCP : option VisitorConfig.XTCPVisitorConfig; v_XUDP : option VisitorConfig.XUDPVisitorConfig;
  v_STCPSUDP : option VisitorConfig.STCPSUDPVisitorConfig; v_XTCPXUDP : option VisitorConfig.XTCPXUDPVisitorConfig }.

Definition v_activeBlock (p : VisitorDefinition) : option VC * string * Z :=
  block (v_XTCPXUDP p) VisitorConfig.VXTCPXUDP "xtcp+xudp" (block (v_STCPSUDP p) VisitorConfig.VSTCPSUDP "stcp+sudp"
  (block (v_XUDP p) VisitorConfig.VXUDP "xudp" (block (v_XTCP p) VisitorConfig.VXTCP "xtcp"
  (block (v_SUDP p) VisitorConfig.VSUDP "sudp" (block (v_STCP p) VisitorConfig.VSTCP "stcp" (None, "", 0)))))).

Definition IsVisitorType (typ : string) : bool := Config.str_in typ ["stcp"; "sudp"; "xtcp"; "xudp"; "stcp+sudp"; "xtcp+xudp"].

Definition v_Validate (p : VisitorDefinition) (pathName : string) (isUpdate : bool) : option def_error :=
  let '(_, blockType, blockCount) := v_activeBlock p in
  validate_def IsVisitorType (vd_Name p) (vd_Type p) blockType blockCount pathName isUpdate.

Definition v_name_type (c : VC) (name typ : string) : VC :=
  let b := VisitorConfig.GetBaseConfig c in
  let b := VisitorConfig.mkVisitorBase name typ (VisitorConfig.Enabled b) (VisitorConfig.Transport b) (VisitorConfig.SecretKey b)
    (VisitorConfig.ServerUser b) (VisitorConfig.ServerName b) (VisitorConfig.BindAddr b) (VisitorConfig.BindPort b)
    (VisitorConfig.Plugin b) in
  match c with
  | VisitorConfig.VSTCP _ => VisitorConfig.VSTCP (VisitorConfig.mkSTCPVisitor b)
  | VisitorConfig.VSUDP _ => VisitorConfig.VSUDP (VisitorConfig.mkSUDPVisitor b)
  | VisitorConfig.VSTCPSUDP _ => VisitorConfig.VSTCPSUDP (VisitorConfig.mkSTCPSUDPVisitor b)
  | VisitorConfig.VXTCP (VisitorConfig.mkXTCPVisitor _ p k r i f t n) => VisitorConfig.VXTCP (VisitorConfig.mkXTCPVisitor b p k r i f t n)
  | VisitorConfig.VXUDP (VisitorConfig.mkXUDPVisitor _ p k r i n) => VisitorConfig.VXUDP (VisitorConfig.mkXUDPVisitor b p k r i n)
  | VisitorConfig.VXTCPXUDP (VisitorConfig.mkXTCPXUDPVisitor _ p k r i t n) =>
      VisitorConfig.VXTCPXUDP (VisitorConfig.mkXTCPXUDPVisitor b p k r i t n)
  end.

Definition v_ToConfigurer (p : VisitorDefinition) : res def_error VC :=
  match (v_activeBlock p).1.1 with
  | None => Err ErrBlockCount
  | Some block => Ok (v_name_type block (vd_Name p) (vd_Type p))
  end.

Definition VisitorDefinitionFromConfigurer (cfg : VC) : VisitorDefinition :=
  let b := VisitorConfig.GetBaseConfig cfg in
  let mk := mkVisitorDefinition (VisitorConfig.Name b) (VisitorConfig.Type_ b) in
  match cfg with
  | VisitorConfig.VSTCP c => mk (Some c) None None None None None
  | VisitorConfig.VSUDP c => mk None (Some c) None None None None
  | VisitorConfig.VXTCP c => mk None None (Some c) None None None
  | VisitorConfig.VXUDP c => mk None None None (Some c) None None
  | VisitorConfig.VSTCPSUDP c => mk None None None None (Some c) None
  | VisitorConfig.VXTCPXUDP c => mk None None None None None (Some c)
  end.

(** ** The controller *)

(** An error with its status code; [EDef] and [EAPI] keep the cause. *)
Inductive cause := EReadBody | EParseJSON | ENameRequired | ENoSuch (name : string) | EEmptyBody | EFile | EDef (e : def_error) | EAPI (e : api_error).
Record http_error := mkError { code : Z; why : cause }.

Definition toHTTPError (e : api_error) : http_error :=
  mkError (match e with
           | ErrInvalidArgument => 400
           | ErrAPINotFound | ErrStoreDisabled => 404
           | ErrConflict => 409
           | ErrApplyConfig | ErrStore _ => 500
           end) (EAPI e).

(** A body: it cannot be read, it is no JSON, or it is decoded. *)
Inductive body (A : Type) := Unreadable | NotJSON | Decoded (a : A).
Arguments Unreadable {A}. Arguments NotJSON {A}. Arguments Decoded {A}.

Definition decode_body {A} (b : body A) : res http_error A :=
  match b with
  | Unreadable => Err (mkError 400 EReadBody)
  | NotJSON => Err (mkError 400 EParseJSON)
  | Decoded a => Ok a
  end.

Record ProxyStatusResp := mkStatusResp {
  ps_Name : string; ps_Type : string; ps_Status : ClientProxies.Phase; ps_Err : string; ps_LocalAddr : string; ps_Plugin : string;
  ps_RemoteAddr : string; ps_Source : string }.

Section Controller.
Context (MarshalIndent : list PC → list VC → option string) (user : string) (IsQualifiedName : string → list string) (serverAddr : string).

Definition houtcome (A : Type) : Type := Service * list ClientProxies.event * res http_error A.

Definition respond {A B} (f : A → B) (o : outcome A) : houtcome B :=
  (o.1, match o.2 with Ok a => Ok (f a) | Err e => Err (toHTTPError e) end).

(** The body of a request that creates or updates, up to the configurer. *)
Definition proxy_of_body (b : body ProxyDefinition) (pathName : string) (isUpdate : bool) : res http_error PC :=
  match decode_body b with
  | Err e => Err e
  | Ok payload =>
      match Validate payload pathName isUpdate with
      | Some e => Err (mkError 400 (EDef e))
      | None => match ToConfigurer payload with Err e => Err (mkError 400 (EDef e)) | Ok cfg => Ok cfg end
      end
  end.

Definition visitor_of_body (b : body VisitorDefinition) (pathName : string) (isUpdate : bool) : res http_error VC :=
  match decode_body b with
  | Err e => Err e
  | Ok payload =>
      match v_Validate payload pathName isUpdate with
      | Some e => Err (mkError 400 (EDef e))
      | None => match v_ToConfigurer payload with Err e => Err (mkError 400 (EDef e)) | Ok cfg => Ok cfg end
      end
  end.

Definition h_CreateStoreProxy (svr : Service) (e : Env) (io : option save_step) (b : body ProxyDefinition) : houtcome ProxyDefinition :=
  match proxy_of_body b "" false with
  | Err er => (svr, [], Err er)
  | Ok cfg => respond ProxyDefinitionFromConfigurer (CreateStoreProxy MarshalIndent user IsQualifiedName svr e io cfg)
  end.

Definition h_UpdateStoreProxy (svr : Service) (e : Env) (io : option save_step) (name : string) (b : body ProxyDefinition) :
    houtcome ProxyDefinition :=
  if String.eqb name "" then (svr, [], Err (mkError 400 ENameRequired))
  else match proxy_of_body b name true with
       | Err er => (svr, [], Err er)
       | Ok cfg => respond ProxyDefinitionFromConfigurer (UpdateStoreProxy MarshalIndent user IsQualifiedName svr e io name cfg)
       end.

Definition h_DeleteStoreProxy (svr : Service) (e : Env) (io : option save_step) (name : string) : houtcome unit :=
  if String.eqb name "" then (svr, [], Err (mkError 400 ENameRequired))
  else respond id (DeleteStoreProxy MarshalIndent user svr e io name).

Definition h_CreateStoreVisitor (svr : Service) (e : Env) (io : option save_step) (b : body VisitorDefinition) :
    houtcome VisitorDefinition :=
  match visitor_of_body b "" false with
  | Err er => (svr, [], Err er)
  | Ok cfg => respond VisitorDefinitionFromConfigurer (CreateStoreVisitor MarshalIndent user svr e io cfg)
  end.

Definition h_UpdateStoreVisitor (svr : Service) (e : Env) (io : option save_step) (name : string) (b : body VisitorDefinition) :
    houtcome VisitorDefinition :=
  if String.eqb name "" then (svr, [], Err (mkError 400 ENameRequired))
  else match visitor_of_body b name true with
       | Err er => (svr, [], Err er)
       | Ok cfg => respond VisitorDefinitionFromConfigurer (UpdateStoreVisitor MarshalIndent user svr e io name cfg)
       end.

Definition h_DeleteStoreVisitor (svr : Service) (e : Env) (io : option save_step) (name : string) : houtcome unit :=
  if String.eqb name "" then (svr, [], Err (mkError 400 ENameRequired))
  else respond id (DeleteStoreVisitor MarshalIndent user svr e io name).

(** *** Reading *)

Definition read {A B} (f : A → B) (r : res api_error A) : res http_error B :=
  match r with Ok a => Ok (f a) | Err e => Err (toHTTPError e) end.

Definition h_GetStoreProxy (svr : Service) (name : string) : res http_error ProxyDefinition :=
  if String.eqb name "" then Err (mkError 400 ENameRequired) else read ProxyDefinitionFromConfigurer (GetStoreProxy svr name).

Definition h_GetStoreVisitor (svr : Service) (name : string) : res http_error VisitorDefinition :=
  if String.eqb name "" then Err (mkError 400 ENameRequired) else read VisitorDefinitionFromConfigurer (GetStoreVisitor svr name).

Definition h_GetProxyConfig (svr : Service) (name : string) : res http_error ProxyDefinition :=
  if String.eqb name "" then Err (mkError 400 ENameRequired)
  else match GetProxyConfig svr name with
       | None => Err (mkError 404 (ENoSuch name))
       | Some cfg => Ok (ProxyDefinitionFromConfigurer cfg)
       end.

Definition h_GetVisitorConfig (svr : Service) (name : string) : res http_error VisitorDefinition :=
  if String.eqb name "" then Err (mkError 400 ENameRequired)
  else match GetVisitorConfig svr name with
       | None => Err (mkError 404 (ENoSuch name))
       | Some cfg => Ok (VisitorDefinitionFromConfigurer cfg)
       end.

(** [serviceConfigManager.ListStoreProxies], in the order of the store's map. *)
Definition ListStoreProxies (svr : Service) : res api_error (list PC) :=
  match storeSource svr with None => Err ErrStoreDisabled | Some s => Ok (map_to_list (proxies (entries s))).*2 end.
Definition ListStoreVisitors (svr : Service) : res api_error (list VC) :=
  match storeSource svr with None => Err ErrStoreDisabled | Some s => Ok (map_to_list (visitors (entries s))).*2 end.

Definition h_ListStoreProxies (svr : Service) : res http_error (list ProxyDefinition) :=
  read (λ l, Dashboard.SortFunc (λ d, [pd_Name d]) (ProxyDefinitionFromConfigurer <$> l)) (ListStoreProxies svr).
Definition h_ListStoreVisitors (svr : Service) : res http_error (list VisitorDefinition) :=
  read (λ l, Dashboard.SortFunc (λ d, [vd_Name d]) (VisitorDefinitionFromConfigurer <$> l)) (ListStoreVisitors svr).

Definition buildProxyStatusResp (svr : Service) (w : ClientProxies.Wrapper) : ProxyStatusResp :=
  let b := Config.GetBaseConfig (ClientProxies.w_Cfg w) in
  let be := Config.Backend b in
  mkStatusResp (Config.Name b) (Config.Type_ b) (ClientProxies.w_Phase w) (ClientProxies.w_Err w)
    (if Config.LocalPort be =? 0 then "" else JoinHostPort (Config.LocalIP be) (Itoa (Config.LocalPort be)))
    (Config.plugin_Type (Config.Plugin be))
    (if String.eqb (ClientProxies.w_Err w) ""
     then (if Config.str_in (Config.Type_ b) ["tcp"; "udp"] then serverAddr else "") +:+ ClientProxies.w_RemoteAddr w
     else "")
    (if IsStoreProxyEnabled svr (Config.Name b) then "store" else "").

(** [getAllProxyStatus]: the wrappers of the manager's table. *)
Definition all_status (svr : Service) : list ClientProxies.Wrapper :=
  match ctl svr with
  | None => []
  | Some pm => omap (λ kv, ClientProxies.wrappers pm !! snd kv) (map_to_list (ClientProxies.proxies pm))
  end.

(** [Status]: by type, each list sorted by name. *)
Definition add_status (res : gmap string (list ProxyStatusResp)) (r : ProxyStatusResp) : gmap string (list ProxyStatusResp) :=
  <[ps_Type r := default [] (res !! ps_Type r) ++ [r]]> res.

Definition h_Status (svr : Service) : gmap string (list ProxyStatusResp) :=
  Dashboard.SortFunc (λ r, [ps_Name r]) <$> foldl add_status ∅ (buildProxyStatusResp svr <$> all_status svr).

(** [Reload]; [loaded] is what the strict or lenient loading of the file gave. *)
Definition h_Reload (svr : Service) (e : Env) (loaded : option (list string * list PC * list VC)) (common_ok : bool) : houtcome unit :=
  respond id (ReloadFromFile user IsQualifiedName svr e loaded common_ok).

(** [GetConfig] and [PutConfig] on the content of the configuration file;
    [failed] is what a write that fails leaves. *)
Definition h_GetConfig (file : option string) : res http_error string :=
  match file with None => Err (toHTTPError ErrInvalidArgument) | Some content => Ok content end.

Definition h_PutConfig (file : option string) (b : option string) (failed : option (option string)) :
    option string * res http_error unit :=
  match b with
  | None => (file, Err (mkError 400 EReadBody))
  | Some "" => (file, Err (mkError 400 EEmptyBody))
  | Some content =>
      match failed with None => (Some content, Ok tt) | Some file' => (file', Err (mkError 500 EFile)) end
  end.

(** ** Requests that change the store *)

Inductive request :=
| RCreateProxy (b : body ProxyDefinition) | RUpdateProxy (name : string) (b : body ProxyDefinition) | RDeleteProxy (name : string)
| RCreateVisitor (b : body VisitorDefinition) | RUpdateVisitor (name : string) (b : body VisitorDefinition)
| RDeleteVisitor (name : string).

Definition status {A} (o : houtcome A) : Service * list ClientProxies.event * option http_error :=
  (o.1, match o.2 with Ok _ => None | Err er => Some er end).

Definition serve (svr : Service) (e : Env) (io : option save_step) (r : request) :
    Service * list ClientProxies.event * option http_error :=
  match r with
  | RCreateProxy b => status (h_CreateStoreProxy svr e io b)
  | RUpdateProxy name b => status (h_UpdateStoreProxy svr e io name b)
  | RDeleteProxy name => status (h_DeleteStoreProxy svr e io name)
  | RCreateVisitor b => status (h_CreateStoreVisitor svr e io b)
  | RUpdateVisitor name b => status (h_UpdateStoreVisitor svr e io name b)
  | RDeleteVisitor name => status (h_DeleteStoreVisitor svr e io name)
  end.

(** The operation a request asks for. *)
Definition op_of (r : request) : res http_error api_op :=
  let named name (k : res http_error api_op) := if String.eqb name "" then Err (mkError 400 ENameRequired) else k in
  match r with
  | RCreateProxy b => let? c := proxy_of_body b "" false in Ok (OpCreateProxy c)
  | RUpdateProxy name b => named name (let? c := proxy_of_body b name true in Ok (OpUpdateProxy name c))
  | RDeleteProxy name => named name (Ok (OpDeleteProxy name))
  | RCreateVisitor b => let? c := visitor_of_body b "" false in Ok (OpCreateVisitor c)
  | RUpdateVisitor name b => named name (let? c := visitor_of_body b name true in Ok (OpUpdateVisitor name c))
  | RDeleteVisitor name => named name (Ok (OpDeleteVisitor name))
  end.

Lemma status_respond {A B} (f : A → B) (o : outcome A) :
  status (respond f o) = ((answer o).1, toHTTPError <$> (answer o).2).
Proof. by destruct o as [? [?|?]]. Qed.

Lemma serve_spec svr e io r :
  serve svr e io r =
  match op_of r with
  | Err er => (svr, [], Some er)
  | Ok op => let o := run_api MarshalIndent user IsQualifiedName svr e io op in (o.1, toHTTPError <$> o.2)
  end.
Proof.
  destruct r as [b|n b|n|b|n b|n]; cbn; unfold h_CreateStoreProxy, h_UpdateStoreProxy, h_DeleteStoreProxy, h_CreateStoreVisitor,
    h_UpdateStoreVisitor, h_DeleteStoreVisitor; try destruct (String.eqb n ""); try done.
  1,2: destruct (proxy_of_body b _ _) as [c|]; [|done]; cbn; by rewrite status_respond.
  2,3: destruct (visitor_of_body b _ _) as [c|]; [|done]; cbn; by rewrite status_respond.
  all: by rewrite status_respond.
Qed.
End Controller.

(** ** Definitions *)

(** The blocks a definition has. *)
Definition blocks (p : ProxyDefinition) : list PC :=
  omap id [Config.CTCP <$> TCP p; Config.CUDP <$> UDP p; Config.CHTTP <$> HTTP p; Config.CHTTPS <$> HTTPS p; Config.CTCPMux <$> TCPMux p;
    Config.CSTCP <$> STCP p; Config.CSUDP <$> SUDP p; Config.CXTCP <$> XTCP p; Config.CXUDP <$> XUDP p; Config.CTCPUDP <$> TCPUDP p;
    Config.CSTCPSUDP <$> STCPSUDP p; Config.CXTCPXUDP <$> XTCPXUDP p; Config.CMC <$> MC p; Config.CPE <$> PE p].

Definition v_blocks (p : VisitorDefinition) : list VC :=
  omap id [VisitorConfig.VSTCP <$> v_STCP p; VisitorConfig.VSUDP <$> v_SUDP p; VisitorConfig.VXTCP <$> v_XTCP p;
    VisitorConfig.VXUDP <$> v_XUDP p; VisitorConfig.VSTCPSUDP <$> v_STCPSUDP p; VisitorConfig.VXTCPXUDP <$> v_XTCPXUDP p].

#[local] Arguments blocks : simpl never.
#[local] Arguments v_blocks : simpl never.
#[local] Arguments activeBlock : simpl never.
#[local] Arguments v_activeBlock : simpl never.

(** A chain of [block]s keeps the last one, with its type, and counts them. *)
Section Blocks.
Context {C : Type} (type_of : C → string).

Definition kept (l : list C) (acc : option C * string * Z) : Prop :=
  acc.1.1 = last l ∧ acc.1.2 = default "" (type_of <$> last l) ∧ acc.2 = Z.of_nat (length l).

Lemma kept_block {A} (o : option A) (mk : A → C) t l acc :
  (∀ a, type_of (mk a) = t) → kept (omap id l) acc → kept (omap id (l ++ [mk <$> o])) (block o mk t acc).
Proof using.
  intros Hmk (H1 & H2 & H3). rewrite omap_app. destruct o as [a|]; cbn; [|by rewrite app_nil_r]. unfold kept. cbn.
  rewrite last_snoc, length_app. cbn. split_and!; [done|by rewrite Hmk|lia].
Qed.

Lemma kept_spec l acc : kept l acc → acc.2 = Z.of_nat (length l) ∧ ∀ c, l = [c] → acc.1.1 = Some c ∧ acc.1.2 = type_of c.
Proof using. intros (H1 & H2 & H3). split; [done|]. by intros c ->. Qed.
End Blocks.

(** One block after the other, from the last. *)
Ltac keep_blocks :=
  repeat lazymatch goal with
  | |- kept _ (omap id ?l) (block _ _ _ _) => let l' := eval cbn [removelast] in (removelast l) in refine (kept_block _ _ _ _ l' _ _ _); [done|]
  end; done.

Lemma activeBlock_spec p :
  (activeBlock p).2 = Z.of_nat (length (blocks p)) ∧
  ∀ c, blocks p = [c] → (activeBlock p).1.1 = Some c ∧ (activeBlock p).1.2 = Config.type_of c.
Proof. apply kept_spec. unfold activeBlock, blocks. keep_blocks. Qed.

Lemma v_activeBlock_spec p :
  (v_activeBlock p).2 = Z.of_nat (length (v_blocks p)) ∧
  ∀ c, v_blocks p = [c] → (v_activeBlock p).1.1 = Some c ∧ (v_activeBlock p).1.2 = VisitorConfig.type_of c.
Proof. apply kept_spec. unfold v_activeBlock, v_blocks. keep_blocks. Qed.

Lemma validate_def_None is_type name typ bt bc path up :
  validate_def is_type name typ bt bc path up = None ↔
  TrimSpace name ≠ "" ∧ is_type typ = true ∧ (up = true → path = "" ∨ path = name) ∧ bc = 1 ∧ bt = typ.
Proof.
  unfold validate_def. destruct (String.eqb_spec (TrimSpace name) ""); [naive_solver|].
  destruct (is_type typ); cbn [negb]; [|naive_solver].
  destruct (String.eqb_spec path ""), (String.eqb_spec path name), (Z.eqb_spec bc 1), (String.eqb_spec bt typ), up; cbn; naive_solver.
Qed.

Lemma name_type_spec c n t :
  Config.type_of (name_type c n t) = Config.type_of c ∧ pname (name_type c n t) = n ∧ Config.Type_ (Config.GetBaseConfig (name_type c n t)) = t.
Proof. by destruct c. Qed.

Lemma v_name_type_spec c n t :
  VisitorConfig.type_of (v_name_type c n t) = VisitorConfig.type_of c ∧ vname (v_name_type c n t) = n ∧
  VisitorConfig.Type_ (VisitorConfig.GetBaseConfig (v_name_type c n t)) = t.
Proof. by destruct c as [|[]| |[]| |[]]. Qed.

(** ** Properties *)

Lemma ToConfigurer_From c : ToConfigurer (ProxyDefinitionFromConfigurer c) = Ok c.
Proof. by destruct c as [[[]]|[[]]|[[]]|[[]]|[[]]|[[]]|[[]]|[[]]|[[]]|[[]]|[[]]|[[]]|[[]]|[[]]]. Qed.

Lemma v_ToConfigurer_From c : v_ToConfigurer (VisitorDefinitionFromConfigurer c) = Ok c.
Proof. by destruct c as [[[]]|[[]]|[[]]|[[]]|[[]]|[[]]]. Qed.

(** What the API shows is what it takes: the definition made of any proxy or
    visitor turns back into exactly that configuration, and it is accepted as the
    body of an update of that name whenever the configuration has the type of its
    structure and a name that is not blank. *)
Theorem definitions_roundtrip (c : PC) (v : VC) :
  ToConfigurer (ProxyDefinitionFromConfigurer c) = Ok c ∧ v_ToConfigurer (VisitorDefinitionFromConfigurer v) = Ok v ∧
  (Validate (ProxyDefinitionFromConfigurer c) (pname c) true = None ↔ Config.typed c ∧ TrimSpace (pname c) ≠ "") ∧
  (v_Validate (VisitorDefinitionFromConfigurer v) (vname v) true = None ↔ v_typed v ∧ TrimSpace (vname v) ≠ "").
Proof.
  split; [apply ToConfigurer_From|]. split; [apply v_ToConfigurer_From|]. split; unfold Validate, v_Validate.
  - assert (activeBlock (ProxyDefinitionFromConfigurer c) = (Some c, Config.type_of c, 1)) as -> by by destruct c.
    rewrite validate_def_None. unfold Config.typed. split.
    + intros (Hn & _ & _ & _ & Ht). split; [by destruct c|by destruct c].
    + intros [Ht Hn]. split_and!; [by destruct c|destruct c; cbn in *; by rewrite Ht|intros _; right; by destruct c|done|by destruct c].
  - assert (v_activeBlock (VisitorDefinitionFromConfigurer v) = (Some v, VisitorConfig.type_of v, 1)) as -> by by destruct v.
    rewrite validate_def_None. unfold v_typed. split.
    + intros (Hn & _ & _ & _ & Ht). split; [by destruct v|by destruct v].
    + intros [Ht Hn]. split_and!; [by destruct v|destruct v; cbn in *; by rewrite Ht|intros _; right; by destruct v|done|by destruct v].
Qed.

Section Requests.
Context (MarshalIndent : list PC → list VC → option string) (user : string) (IsQualifiedName : string → list string).
Notation serve := (serve MarshalIndent user IsQualifiedName).
Notation run_api := (run_api MarshalIndent user IsQualifiedName).
Notation spec_op := (spec_op IsQualifiedName).

(** What a body asks for: it is decoded, it has a name that is not blank and, when
    a path names the entry, that very name, and exactly one block, which has the
    type the body gives; name and type are written into that block. *)
Definition wanted (b : body ProxyDefinition) (path : option string) (c : PC) : Prop :=
  ∃ d c0, b = Decoded d ∧ blocks d = [c0] ∧ pd_Type d = Config.type_of c0 ∧ TrimSpace (pd_Name d) ≠ "" ∧
    (∀ n, path = Some n → pd_Name d = n) ∧ c = name_type c0 (pd_Name d) (pd_Type d).

Definition v_wanted (b : body VisitorDefinition) (path : option string) (c : VC) : Prop :=
  ∃ d c0, b = Decoded d ∧ v_blocks d = [c0] ∧ vd_Type d = VisitorConfig.type_of c0 ∧ TrimSpace (vd_Name d) ≠ "" ∧
    (∀ n, path = Some n → vd_Name d = n) ∧ c = v_name_type c0 (vd_Name d) (vd_Type d).

(** The requests that are well formed: those whose configuration is valid once
    its defaults are filled in. *)
Inductive asks : request → api_op → Prop :=
| AskCreateProxy b c : wanted b None c → validateStoreProxyConfigurer IsQualifiedName c = None → asks (RCreateProxy b) (OpCreateProxy c)
| AskUpdateProxy n b c : n ≠ "" → wanted b (Some n) c → validateStoreProxyConfigurer IsQualifiedName c = None →
    asks (RUpdateProxy n b) (OpUpdateProxy n c)
| AskDeleteProxy n : n ≠ "" → asks (RDeleteProxy n) (OpDeleteProxy n)
| AskCreateVisitor b c : v_wanted b None c → validateStoreVisitorConfigurer c = None → asks (RCreateVisitor b) (OpCreateVisitor c)
| AskUpdateVisitor n b c : n ≠ "" → v_wanted b (Some n) c → validateStoreVisitorConfigurer c = None →
    asks (RUpdateVisitor n b) (OpUpdateVisitor n c)
| AskDeleteVisitor n : n ≠ "" → asks (RDeleteVisitor n) (OpDeleteVisitor n).

(** The entries after a well-formed request, or the status that refuses it: what
    is created must not be there, what is updated or deleted must. *)
Definition due (op : api_op) (b : baseSource) : res Z baseSource :=
  match op with
  | OpCreateProxy c =>
      if proxies b !! pname c then Err 409 else Ok (mkBase (<[pname c := c]> (proxies b)) (visitors b))
  | OpUpdateProxy n c => if proxies b !! n then Ok (mkBase (<[n := c]> (proxies b)) (visitors b)) else Err 404
  | OpDeleteProxy n => if proxies b !! n then Ok (mkBase (delete n (proxies b)) (visitors b)) else Err 404
  | OpCreateVisitor c =>
      if visitors b !! vname c then Err 409 else Ok (mkBase (proxies b) (<[vname c := c]> (visitors b)))
  | OpUpdateVisitor n c => if visitors b !! n then Ok (mkBase (proxies b) (<[n := c]> (visitors b))) else Err 404
  | OpDeleteVisitor n => if visitors b !! n then Ok (mkBase (proxies b) (delete n (visitors b))) else Err 404
  end.

(** The status of an answer. *)
Definition status_code (err : option http_error) : Z := match err with None => 200 | Some er => code er end.

Lemma proxy_of_body_spec b path up c :
  proxy_of_body b path up = Ok c ↔ wanted b (if up && negb (String.eqb path "") then Some path else None) c.
Proof.
  unfold proxy_of_body, wanted. destruct b as [| |d]; cbn; [naive_solver..|]. unfold Validate, ToConfigurer.
  destruct (activeBlock_spec d) as [Hn H1]. destruct (activeBlock d) as [[bl bt] bc] eqn:Hb. cbn [fst snd] in Hn, H1. split.
  - destruct (validate_def _ _ _ _ _ _ _) eqn:Hv; [done|]. apply validate_def_None in Hv as (Hbl & _ & Hpath & -> & ->).
    destruct (blocks d) as [|c0 [|]] eqn:Hbs; cbn [length] in Hn; [lia| |lia]. destruct (H1 c0 eq_refl) as [-> Ht]. cbn. intros [= <-].
    exists d, c0. split_and!; try done. destruct up; [|done]. destruct (String.eqb_spec path ""); [done|]. intros ? [= <-]. by destruct (Hpath eq_refl).
  - intros (d' & c0 & [= <-] & Hbs & Ht & Hbl & Hpath & ->). destruct (H1 c0 Hbs) as [-> Hbt]. rewrite Hbs in Hn. cbn [length] in Hn.
    enough (validate_def IsProxyType (pd_Name d) (pd_Type d) bt bc path up = None) as -> by done.
    apply validate_def_None. split_and!; [done|rewrite Ht; by destruct c0| |lia|congruence].
    intros ->. destruct (String.eqb_spec path ""); [by left|right]. symmetry. by apply Hpath.
Qed.

Lemma visitor_of_body_spec b path up c :
  visitor_of_body b path up = Ok c ↔ v_wanted b (if up && negb (String.eqb path "") then Some path else None) c.
Proof.
  unfold visitor_of_body, v_wanted. destruct b as [| |d]; cbn; [naive_solver..|]. unfold v_Validate, v_ToConfigurer.
  destruct (v_activeBlock_spec d) as [Hn H1]. destruct (v_activeBlock d) as [[bl bt] bc] eqn:Hb. cbn [fst snd] in Hn, H1. split.
  - destruct (validate_def _ _ _ _ _ _ _) eqn:Hv; [done|]. apply validate_def_None in Hv as (Hbl & _ & Hpath & -> & ->).
    destruct (v_blocks d) as [|c0 [|]] eqn:Hbs; cbn [length] in Hn; [lia| |lia]. destruct (H1 c0 eq_refl) as [-> Ht]. cbn. intros [= <-].
    exists d, c0. split_and!; try done. destruct up; [|done]. destruct (String.eqb_spec path ""); [done|]. intros ? [= <-]. by destruct (Hpath eq_refl).
  - intros (d' & c0 & [= <-] & Hbs & Ht & Hbl & Hpath & ->). destruct (H1 c0 Hbs) as [-> Hbt]. rewrite Hbs in Hn. cbn [length] in Hn.
    enough (validate_def IsVisitorType (vd_Name d) (vd_Type d) bt bc path up = None) as -> by done.
    apply validate_def_None. split_and!; [done|rewrite Ht; by destruct c0| |lia|congruence].
    intros ->. destruct (String.eqb_spec path ""); [by left|right]. symmetry. by apply Hpath.
Qed.

(** The code of a refusal before the manager is asked. *)
Lemma op_of_400 r er : op_of r = Err er → code er = 400.
Proof.
  assert (∀ b path up er, proxy_of_body b path up = Err er → code er = 400) as Hp.
  { intros [| |d] path up er'; cbn; try by intros [= <-]. unfold proxy_of_body. cbn. split_cases; intros; simplify_eq; done. }
  assert (∀ b path up er, visitor_of_body b path up = Err er → code er = 400) as Hv.
  { intros [| |d] path up er'; cbn; try by intros [= <-]. unfold visitor_of_body. cbn. split_cases; intros; simplify_eq; done. }
  destruct r as [b|n b|n|b|n b|n]; cbn; try (destruct (String.eqb n ""); [by intros [= <-]|]); try done.
  1,2: destruct (proxy_of_body b _ _) eqn:Hb; cbn; [done|]; intros [= <-]; by eapply Hp.
  all: destruct (visitor_of_body b _ _) eqn:Hb; cbn; [done|]; intros [= <-]; by eapply Hv.
Qed.

(** Whether an operation passes the manager's own validation. *)
Definition valid_op (op : api_op) : Prop :=
  match op with
  | OpCreateProxy c | OpUpdateProxy _ c => validateStoreProxyConfigurer IsQualifiedName c = None
  | OpCreateVisitor c | OpUpdateVisitor _ c => validateStoreVisitorConfigurer c = None
  | _ => True
  end.

Lemma asks_op_of r op : asks r op ↔ op_of r = Ok op ∧ valid_op op.
Proof.
  split.
  - intros [b c Hw|n b c Hn Hw|n Hn|b c Hw|n b c Hn Hw|n Hn]; cbn; rewrite ?(proj2 (String.eqb_neq _ _) Hn); split; try done.
    all: first [rewrite (proj2 (proxy_of_body_spec _ _ _ c)) | rewrite (proj2 (visitor_of_body_spec _ _ _ c))]; try done.
    all: cbn; by rewrite (proj2 (String.eqb_neq _ _) Hn).
  - intros [Hop Hv]. destruct r as [b|n b|n|b|n b|n]; cbn in Hop; try (destruct (String.eqb_spec n "") as [|Hn]; [done|]).
    1,2: destruct (proxy_of_body b _ _) eqn:Hb; [|done]; apply proxy_of_body_spec in Hb; injection Hop as <-.
    4,5: destruct (visitor_of_body b _ _) eqn:Hb; [|done]; apply visitor_of_body_spec in Hb; injection Hop as <-.
    3,6: injection Hop as <-.
    all: try (cbn in Hb; try rewrite (proj2 (String.eqb_neq _ _) Hn) in Hb); by constructor.
Qed.

(** An update asks for the configuration of the name in its path. *)
Lemma asks_names r op : asks r op →
  match op with
  | OpUpdateProxy n c => n ≠ "" ∧ pname c = n | OpUpdateVisitor n c => n ≠ "" ∧ vname c = n
  | OpDeleteProxy n | OpDeleteVisitor n => n ≠ ""
  | _ => True
  end.
Proof.
  intros [b c Hw|n b c Hn Hw|n Hn|b c Hw|n b c Hn Hw|n Hn]; try done; (split; [done|]).
  - destruct Hw as (d & c0 & _ & _ & _ & _ & Hp & ->). rewrite <-(Hp n eq_refl). apply name_type_spec.
  - destruct Hw as (d & c0 & _ & _ & _ & _ & Hp & ->). rewrite <-(Hp n eq_refl). apply v_name_type_spec.
Qed.

(** The manager's specification, in status codes. *)
Lemma spec_op_due r op b :
  asks r op → match spec_op op b with Ok b' => due op b = Ok b' | Err a => due op b = Err (code (toHTTPError a)) end.
Proof.
  intros Ha. pose proof (asks_names _ _ Ha) as Hn. apply asks_op_of in Ha as [_ Hv].
  destruct op as [c|n c|n|c|n c|n]; cbn in Hn, Hv |- *; try destruct Hn as [Hn <-].
  all: rewrite ?(proj2 (String.eqb_neq _ _) Hn), ?String.eqb_refl, ?Hv; cbn [orb negb].
  all: match goal with |- context [if (?m !! ?k) then _ else _] => by destruct (m !! k) end.
Qed.

Lemma run_api_invalid svr e io op : ¬ valid_op op → run_api svr e io op = (svr, [], Some ErrInvalidArgument).
Proof.
  assert (∀ A (o : option A), ¬ o = None → ∃ a, o = Some a) as Ho by (intros A []; naive_solver).
  destruct op as [c|n c|n|c|n c|n]; cbn; try done; intros [er Hv]%Ho;
    unfold CreateStoreProxy, UpdateStoreProxy, CreateStoreVisitor, UpdateStoreVisitor; rewrite Hv; try done.
  all: destruct (String.eqb n ""); [done|]; by destruct (negb _).
Qed.

Lemma run_api_disabled svr e io r op :
  asks r op → storeSource svr = None → run_api svr e io op = (svr, [], Some ErrStoreDisabled).
Proof.
  intros Ha Hs. pose proof (asks_names _ _ Ha) as Hn. apply asks_op_of in Ha as [_ Hv].
  destruct op as [c|n c|n|c|n c|n]; cbn in Hn, Hv |- *; try destruct Hn as [Hn <-];
    unfold CreateStoreProxy, UpdateStoreProxy, DeleteStoreProxy, CreateStoreVisitor, UpdateStoreVisitor, DeleteStoreVisitor,
      withStoreProxyMutationAndReload, withStoreVisitorMutationAndReload, withStoreMutationAndReload;
    by rewrite ?(proj2 (String.eqb_neq _ _) Hn), ?String.eqb_refl, ?Hv, Hs.
Qed.

Lemma valid_op_dec op : valid_op op ∨ ¬ valid_op op.
Proof. destruct op; cbn; try (by left); match goal with |- context [?o = None] => destruct o; [by right|by left] end. Qed.

(** C26. Every request that changes the store is answered with the status it is due.
    A request that is not well formed (no name in the path, a body that cannot be
    read or decoded, has a blank name or not the path's, none or several blocks, a
    block of another type, or an invalid configuration) is answered with 400;
    without a store a well-formed one with 404; creating what is there with 409;
    updating or deleting what is not there with 404; each changes nothing and
    sends nothing. Otherwise the answer is a success and the store, its file and
    all that runs are what the request asks for, or it is 500, the file could not
    be written, and nothing has changed. *)
Theorem admin_requests_refine svr e io r :
  svc_ok user svr → env_ok svr e →
  let '(svr', evs, err) := serve svr e io r in
  svc_ok user svr' ∧
  (((∀ op, ¬ asks r op) ∧ status_code err = 400 ∧ svr' = svr ∧ evs = []) ∨
   ∃ op, asks r op ∧
     match storeSource svr with
     | None => status_code err = 404 ∧ svr' = svr ∧ evs = []
     | Some s =>
         match due op (entries s) with
         | Err c => status_code err = c ∧ evs = [] ∧ unchanged svr svr' s
         | Ok b' =>
             (status_code err = 200 ∧ stored MarshalIndent svr' s b') ∨
             (status_code err = 500 ∧ evs = [] ∧ unchanged svr svr' s ∧
                (io ≠ None ∨ MarshalIndent (map_to_list (proxies b')).*2 (map_to_list (visitors b')).*2 = None))
         end
     end).
Proof.
  intros Hok He. rewrite serve_spec. destruct (op_of r) as [op|er] eqn:Hop.
  - destruct (valid_op_dec op) as [Hv|Hv].
    + assert (asks r op) as Ha by by apply asks_op_of. destruct (storeSource svr) as [s|] eqn:Hs.
      * pose proof (run_api_post MarshalIndent user IsQualifiedName svr e s io op Hok He Hs) as Hpost.
        pose proof (spec_op_due r op (entries s) Ha) as Hd. unfold api_post in Hpost.
        destruct (run_api svr e io op) as [[svr' evs] err]. cbn. destruct Hpost as [Hok' Hm]. split; [done|]. right. exists op.
        split; [done|]. destruct (spec_op op (entries s)) as [b'|a]; rewrite Hd.
        -- destruct err as [[| | | | |[]]|]; try done; [by right|by left].
        -- destruct err as [a'|]; [|done]. by destruct Hm as (-> & ? & ?).
      * rewrite (run_api_disabled svr e io r op Ha Hs). cbn. split; [done|]. right. by exists op.
    + rewrite (run_api_invalid svr e io op Hv). cbn. split; [done|]. left. split_and!; try done.
      intros op' [Hop' Hv']%asks_op_of. congruence.
  - split; [done|]. left. split_and!; try done; [|by eapply op_of_400]. intros op [Hop' _]%asks_op_of. congruence.
Qed.

Lemma proxy_body_name b path up c : proxy_of_body b path up = Ok c → ∃ d, b = Decoded d ∧ pname c = pd_Name d ∧ pname c ≠ "".
Proof.
  intros (d & c0 & -> & _ & _ & Hn & _ & ->)%proxy_of_body_spec. exists d.
  destruct (name_type_spec c0 (pd_Name d) (pd_Type d)) as (_ & -> & _). split_and!; [done..|]. intros Hz. apply Hn. by rewrite Hz.
Qed.

Lemma visitor_body_name b path up c : visitor_of_body b path up = Ok c → ∃ d, b = Decoded d ∧ vname c = vd_Name d ∧ vname c ≠ "".
Proof.
  intros (d & c0 & -> & _ & _ & Hn & _ & ->)%visitor_of_body_spec. exists d.
  destruct (v_name_type_spec c0 (vd_Name d) (vd_Type d)) as (_ & -> & _). split_and!; [done..|]. intros Hz. apply Hn. by rewrite Hz.
Qed.

Lemma stored_proxy_read svr e name fn svr' evs d :
  name ≠ "" → respond ProxyDefinitionFromConfigurer (withStoreProxyMutationAndReload user svr e name fn) = (svr', evs, Ok d) →
  h_GetStoreProxy svr' name = Ok d.
Proof.
  intros Hn. unfold respond, withStoreProxyMutationAndReload, h_GetStoreProxy, GetStoreProxy. rewrite (proj2 (String.eqb_neq _ _) Hn).
  destruct (withStoreMutationAndReload user svr e fn) as [[svr1 evs1] [u|er]]; cbn; [|done].
  destruct (storeSource svr1) as [st|] eqn:Hst; cbn; [|done]. destruct (GetProxy st name) as [c|] eqn:Hg; cbn; [|done].
  intros [= <- <- <-]. by rewrite Hst, Hg.
Qed.

Lemma stored_visitor_read svr e name fn svr' evs d :
  name ≠ "" → respond VisitorDefinitionFromConfigurer (withStoreVisitorMutationAndReload user svr e name fn) = (svr', evs, Ok d) →
  h_GetStoreVisitor svr' name = Ok d.
Proof.
  intros Hn. unfold respond, withStoreVisitorMutationAndReload, h_GetStoreVisitor, GetStoreVisitor. rewrite (proj2 (String.eqb_neq _ _) Hn).
  destruct (withStoreMutationAndReload user svr e fn) as [[svr1 evs1] [u|er]]; cbn; [|done].
  destruct (storeSource svr1) as [st|] eqn:Hst; cbn; [|done]. destruct (GetVisitor st name) as [c|] eqn:Hg; cbn; [|done].
  intros [= <- <- <-]. by rewrite Hst, Hg.
Qed.

(** The answer to a successful creation or update is the stored definition:
    asking for it by name afterwards gives the same answer. *)
Theorem answers_are_stored svr e io name bp bv svr' evs :
  (∀ d, h_CreateStoreProxy MarshalIndent user IsQualifiedName svr e io bp = (svr', evs, Ok d) ∨
        h_UpdateStoreProxy MarshalIndent user IsQualifiedName svr e io name bp = (svr', evs, Ok d) →
        ∃ d0, bp = Decoded d0 ∧ h_GetStoreProxy svr' (pd_Name d0) = Ok d) ∧
  (∀ d, h_CreateStoreVisitor MarshalIndent user svr e io bv = (svr', evs, Ok d) ∨
        h_UpdateStoreVisitor MarshalIndent user svr e io name bv = (svr', evs, Ok d) →
        ∃ d0, bv = Decoded d0 ∧ h_GetStoreVisitor svr' (vd_Name d0) = Ok d).
Proof.
  split; intros d [Hr|Hr]; revert Hr.
  - unfold h_CreateStoreProxy. destruct (proxy_of_body bp "" false) as [c|] eqn:Hb; [|done].
    apply proxy_body_name in Hb as (d0 & -> & Hn & Hne). intros Hr. exists d0. split; [done|]. rewrite <-Hn. revert Hr.
    unfold CreateStoreProxy. destruct (validateStoreProxyConfigurer _ c); [done|]. by apply stored_proxy_read.
  - unfold h_UpdateStoreProxy. destruct (String.eqb name ""); [done|]. destruct (proxy_of_body bp name true) as [c|] eqn:Hb; [|done].
    apply proxy_body_name in Hb as (d0 & -> & Hn & Hne). intros Hr. exists d0. split; [done|]. rewrite <-Hn. revert Hr.
    unfold UpdateStoreProxy. destruct (String.eqb name ""); [done|]. destruct (String.eqb_spec (pname c) name) as [<-|]; [cbn [negb]|done].
    destruct (validateStoreProxyConfigurer _ c); [done|]. by apply stored_proxy_read.
  - unfold h_CreateStoreVisitor. destruct (visitor_of_body bv "" false) as [c|] eqn:Hb; [|done].
    apply visitor_body_name in Hb as (d0 & -> & Hn & Hne). intros Hr. exists d0. split; [done|]. rewrite <-Hn. revert Hr.
    unfold CreateStoreVisitor. destruct (validateStoreVisitorConfigurer c); [done|]. by apply stored_visitor_read.
  - unfold h_UpdateStoreVisitor. destruct (String.eqb name ""); [done|]. destruct (visitor_of_body bv name true) as [c|] eqn:Hb; [|done].
    apply visitor_body_name in Hb as (d0 & -> & Hn & Hne). intros Hr. exists d0. split; [done|]. rewrite <-Hn. revert Hr.
    unfold UpdateStoreVisitor. destruct (String.eqb name ""); [done|]. destruct (String.eqb_spec (vname c) name) as [<-|]; [cbn [negb]|done].
    destruct (validateStoreVisitorConfigurer c); [done|]. by apply stored_visitor_read.
Qed.
End Requests.

(** *** The list of proxies *)

Lemma fold_status l : ∀ acc t,
  default [] (foldl add_status acc l !! t) = default [] (acc !! t) ++ filter (λ r, ps_Type r = t) l.
Proof.
  induction l as [|r l IH]; intros acc t; cbn [foldl]; [by rewrite app_nil_r|]. rewrite IH, filter_cons. unfold add_status.
  case_decide as Ht; [subst; rewrite lookup_insert_eq|by rewrite lookup_insert_ne]. cbn. by rewrite <-app_assoc.
Qed.

Lemma all_status_spec user svr pm :
  ClientProxies.wf user pm → ctl svr = Some pm →
  (∀ w, w ∈ all_status svr ↔ ∃ id, ClientProxies.proxies pm !! pname (ClientProxies.w_Cfg w) = Some id ∧
     ClientProxies.wrappers pm !! id = Some w) ∧ NoDup ((λ w, pname (ClientProxies.w_Cfg w)) <$> all_status svr).
Proof.
  intros Hwf Hc. unfold all_status. rewrite Hc. split.
  - intros w. rewrite list_elem_of_omap. split.
    + intros ([n id] & Hn%elem_of_map_to_list & Hw). cbn in Hw.
      destruct (ClientProxies.wf_table _ _ Hwf _ _ Hn) as (w' & Hw' & Hname & _). exists id. assert (w' = w) as -> by congruence.
      by rewrite Hname.
    + intros (id & Hn & Hw). exists (pname (ClientProxies.w_Cfg w), id). by split; [apply elem_of_map_to_list|].
  - pose proof (NoDup_fst_map_to_list (ClientProxies.proxies pm)) as Hnd.
    enough (∀ l, (∀ n id, (n, id) ∈ l → ClientProxies.proxies pm !! n = Some id) →
      (λ w, pname (ClientProxies.w_Cfg w)) <$> omap (λ kv, ClientProxies.wrappers pm !! snd kv) l = l.*1) as ->;
      [done|intros n id; apply elem_of_map_to_list|].
    induction l as [|[n id] l IH]; intros Hl; [done|]. cbn [omap list_omap fst snd].
    destruct (ClientProxies.wf_table _ _ Hwf n id) as (w & Hw & Hname & _); [apply Hl; by left|].
    rewrite Hw, !fmap_cons, IH; [by rewrite Hname|]. intros n' id' Hin. apply Hl. by right.
Qed.

(** The status page lists exactly the proxies of the manager: every proxy once,
    under its type, with its own state, and each list in the order of names. *)
Theorem status_lists_proxies addr user svr pm :
  ClientProxies.wf user pm → ctl svr = Some pm →
  (∀ t l, h_Status addr svr !! t = Some l → Sorted (Dashboard.by_key (λ r, [ps_Name r])) l ∧ NoDup (ps_Name <$> l)) ∧
  (∀ t r, (∃ l, h_Status addr svr !! t = Some l ∧ r ∈ l) ↔
     ps_Type r = t ∧ ∃ id w, ClientProxies.proxies pm !! ps_Name r = Some id ∧ ClientProxies.wrappers pm !! id = Some w ∧
       r = buildProxyStatusResp addr svr w).
Proof.
  intros Hwf Hc. destruct (all_status_spec user svr pm Hwf Hc) as [Hall Hnd].
  set (rs := buildProxyStatusResp addr svr <$> all_status svr).
  assert (NoDup (ps_Name <$> rs)) as Hn by (unfold rs; by rewrite <-list_fmap_compose).
  assert (∀ t l, foldl add_status ∅ rs !! t = Some l → l = filter (λ r, ps_Type r = t) rs) as Hf.
  { intros t l Hl. pose proof (fold_status rs ∅ t) as H. by rewrite Hl, lookup_empty in H. }
  unfold h_Status. fold rs. split.
  - intros t l. rewrite lookup_fmap, fmap_Some. intros (l0 & Hl0 & ->). split; [apply Sorted_merge_sort, _|].
    unfold Dashboard.SortFunc. rewrite merge_sort_Permutation, (Hf _ _ Hl0).
    eapply sublist_NoDup; [done|]. apply fmap_sublist, sublist_filter.
  - intros t r. assert (r ∈ rs ↔ ∃ id w, ClientProxies.proxies pm !! ps_Name r = Some id ∧ ClientProxies.wrappers pm !! id = Some w ∧
      r = buildProxyStatusResp addr svr w) as <-.
    { unfold rs. rewrite list_elem_of_fmap. setoid_rewrite Hall. split.
      - intros (w & -> & id & ? & ?). by exists id, w.
      - intros (id & w & ? & ? & ->). by exists w; split; [|exists id]. }
    split.
    + intros (l & Hl & Hr). rewrite lookup_fmap, fmap_Some in Hl. destruct Hl as (l0 & Hl0 & ->).
      unfold Dashboard.SortFunc in Hr. rewrite merge_sort_Permutation, (Hf _ _ Hl0), list_elem_of_filter in Hr. done.
    + intros [<- Hr]. pose proof (fold_status rs ∅ (ps_Type r)) as Hd. rewrite lookup_empty in Hd. cbn in Hd.
      assert (r ∈ default [] (foldl add_status ∅ rs !! ps_Type r)) as Hin by (rewrite Hd; by apply list_elem_of_filter).
      destruct (foldl add_status ∅ rs !! ps_Type r) as [l|] eqn:Hl; [|by apply elem_of_nil in Hin].
      exists (Dashboard.SortFunc (λ r, [ps_Name r]) l). rewrite lookup_fmap, Hl. split; [done|].
      unfold Dashboard.SortFunc. by rewrite merge_sort_Permutation.
Qed.

(** ** Witnesses *)

Definition demo_body : body ProxyDefinition := Decoded (ProxyDefinitionFromConfigurer demo_new).

Lemma demo_asks : asks (λ _, []) (RCreateProxy demo_body) (OpCreateProxy demo_new).
Proof.
  apply AskCreateProxy; [|vm_compute; reflexivity]. eexists _, demo_new. split_and!; try reflexivity; [by vm_compute|done].
Qed.

Lemma admin_requests_refine_witness :
  let '(svr', _, err) := serve demo_marshal "" (λ _, []) (demo_svc demo_empty) demo_env None (RCreateProxy demo_body) in
  status_code err = 200 ∧ stored demo_marshal svr' demo_empty (mkBase {["c" := demo_new]} ∅).
Proof.
  pose proof (admin_requests_refine demo_marshal "" (λ _, []) (demo_svc demo_empty) demo_env None (RCreateProxy demo_body)
    (demo_svc_ok "" demo_empty demo_empty_wf) (demo_env_ok demo_empty)) as H.
  destruct (serve demo_marshal "" (λ _, []) (demo_svc demo_empty) demo_env None (RCreateProxy demo_body)) as [[svr' evs] err] eqn:Hrun.
  assert (err = None) as -> by (apply (f_equal snd) in Hrun; vm_compute in Hrun; congruence).
  split; [reflexivity|]. destruct H as (_ & [[Hno _]|(op & Hop & H)]); [by destruct (Hno _ demo_asks)|].
  assert (op = OpCreateProxy demo_new) as ->.
  { apply asks_op_of in Hop as [Hop _]. change (op_of (RCreateProxy demo_body)) with (@Ok http_error _ (OpCreateProxy demo_new)) in Hop. congruence. }
  destruct H as [[_ H]|[H _]]; [exact H|discriminate H].
Defined.

Definition demo_online : Service := mkService true demo_src None [] [] [] (Some ClientProxies.demo_m) Visitors.NewManager.

Lemma status_lists_proxies_witness :
  ∃ l r, h_Status "frp.example.com" demo_online !! "tcp" = Some l ∧ r ∈ l ∧ ps_Name r = "ssh".
Proof.
  destruct (status_lists_proxies "frp.example.com" "" demo_online ClientProxies.demo_m
    (ClientProxies.wf_creachable "" _ ClientProxies.demo_creachable) eq_refl) as [_ H].
  destruct (proj2 (H "tcp" (buildProxyStatusResp "frp.example.com" demo_online
    (default (ClientProxies.mkWrapper demo_new ClientProxies.ProxyPhaseNew "" "" None 0 0 0 "") (ClientProxies.wrappers ClientProxies.demo_m !! 0%nat)))))
    as (l & Hl & Hin).
  - split; [vm_compute; reflexivity|]. eexists 0%nat, _. split; [vm_compute; reflexivity|]. split; [vm_compute; reflexivity|].
    vm_compute. reflexivity.
  - eexists l, _. split; [exact Hl|]. split; [exact Hin|]. vm_compute. reflexivity.
Defined.
End AdminAPI.
