(* ===== verification/PunchHole.v ===== *)
(** Hole punching at the clients: pkg/nathole/nathole.go ([PreCheck], [Prepare],
    [ExchangeInfo], [MakeHole] and what it calls), pkg/nathole/discovery.go (the
    questions to STUN servers) and the codec of pkg/nathole/utils.go.

    Sockets give datagrams with the time since the last one and take datagrams;
    resolving addresses, random numbers, the cipher, the v1 message codec and the
    contents of STUN messages are parameters. The goroutines of [MakeHole] that
    wait on several sockets, and the reading goroutine of a discovery, are
    interleaved steps. *)
From Stdlib Require Import ZArith Lia Ascii String Strings.Byte.
From stdpp Require Import base gmap strings list fin_maps relations.
From S2P Require Import Prelude GoLib Wire Msg Nathole NatController.

Local Open Scope Z_scope.
Local Open Scope frp_scope.

Module PunchHole.
Import Nathole NatController.

(** ** Addresses that are probed *)

(** A socket and the address a message is sent to. *)
Definition probe : Type := nat * string.

(** [sendSidMessageToRangePorts] on one socket. *)
Definition sendSidMessageToRangePorts (conn : nat) (addrs : list string) (ports : list Msg.PortsRange) : list probe :=
  ip ← compact (parseIPs addrs); r ← ports;
  (λ i, (conn, JoinHostPort ip (Itoa i))) <$> seqZ (Msg.pr_From r) (Msg.pr_To r - Msg.pr_From r + 1).

(** [getUnusedPort]: at most [tries] draws of [rand.IntN(65535-1024)]. *)
Fixpoint getUnusedPort (tries : nat) (used : gset Z) (draws : list Z) : Z * gset Z * list Z :=
  match tries, draws with
  | S tries', d :: draws' =>
      let port := d + 1024 in
      if bool_decide (port ∈ used) then getUnusedPort tries' used draws' else (port, {[port]} ∪ used, draws')
  | _, _ => (0, used, draws)
  end.

(** The ports of [sendSidMessageToRandomPorts], in order. *)
Fixpoint random_ports (count : nat) (used : gset Z) (draws : list Z) : list Z :=
  match count with
  | O => []
  | S count' =>
      let '(port, used, draws) := getUnusedPort 10 used draws in
      (if port =? 0 then [] else [port]) ++ random_ports count' used draws
  end.

Definition sendSidMessageToRandomPorts (conn : nat) (addrs : list string) (count : nat) (draws : list Z) : list probe :=
  port ← random_ports count ∅ draws; (λ ip, (conn, JoinHostPort ip (Itoa port))) <$> compact (parseIPs addrs).

(** The addresses to probe at once, and [m.CandidateAddrs] afterwards: a receiver
    compacts that slice in place. *)
Definition detect_addrs (m : Msg.NatHoleResp) : list string * list string :=
  let b := Msg.nhr_DetectBehavior m in
  if String.eqb (Msg.db_Role b) DetectRoleSender
  then ((Compact (Msg.nhr_AssistedAddrs m ++ Msg.nhr_CandidateAddrs m)).1, Msg.nhr_CandidateAddrs m)
  else match Msg.db_CandidatePorts b with
       | [] => Compact (Msg.nhr_CandidateAddrs m)
       | _ => ([], Msg.nhr_CandidateAddrs m)
       end.

(** The sockets: the given one is 0, and a receiver opens others; [opened] tells
    which of the attempts succeed. *)
Definition listen_conns (m : Msg.NatHoleResp) (opened : nat → bool) : list nat :=
  let b := Msg.nhr_DetectBehavior m in
  0%nat :: if String.eqb (Msg.db_Role b) DetectRoleSender then []
           else filter (λ i, opened i = true) (seq 1 (Z.to_nat (Msg.db_ListenRandomPorts b))).

(** What [MakeHole] sends before it waits; probes of random ports go on besides. *)
Definition probes (m : Msg.NatHoleResp) (opened : nat → bool) : list probe :=
  let conns := listen_conns m opened in
  let '(detectAddrs, candidateAddrs) := detect_addrs m in
  (addr ← detectAddrs; (λ conn, (conn, addr)) <$> conns) ++
  (conn ← conns; sendSidMessageToRangePorts conn candidateAddrs (Msg.db_CandidatePorts (Msg.nhr_DetectBehavior m))).

Definition random_probes (m : Msg.NatHoleResp) (opened : nat → bool) (draws : nat → list Z) : list probe :=
  conn ← listen_conns m opened;
  sendSidMessageToRandomPorts conn (detect_addrs m).2 (Z.to_nat (Msg.db_SendRandomPorts (Msg.nhr_DetectBehavior m))) (draws conn).

(** ** Messages between the peers *)

Section Messages.
(** [msg.WriteMsg] and [msg.ReadMsgInto] of a sid message, the cipher of
    github.com/fatedier/golib/crypto (with its random vector), and
    [net.ResolveUDPAddr]. *)
Context {IV : Type} (WriteMsg : Msg.NatHoleSid → option (list byte)) (ReadMsgInto : list byte → option Msg.NatHoleSid)
  (crypto_Encode : IV → list byte → list byte → option (list byte)) (crypto_Decode : list byte → list byte → option (list byte))
  (ResolveUDPAddr : string → option string).

Definition EncodeMessage (iv : IV) (m : Msg.NatHoleSid) (key : list byte) : option (list byte) :=
  b ← WriteMsg m; crypto_Encode iv b key.

Definition DecodeMessageInto (data key : list byte) : option Msg.NatHoleSid :=
  b ← crypto_Decode data key; ReadMsgInto b.

(** [sendSidMessage]: where the datagram goes and what it holds. The time to live
    that is set for it is restored afterwards; [ttl_ok] is whether it could be
    read. *)
Definition sendSidMessage (iv : IV) (nonce : nat) (sid transactionID addr : string) (key : list byte) (ttl : Z) (ttl_ok : bool) :
    option (string * list byte) :=
  raddr ← ResolveUDPAddr addr;
  buf ← EncodeMessage iv (Msg.mkNatHoleSid transactionID sid false (String.concat "" (replicate nonce "0"))) key;
  if (0 <? ttl) && negb ttl_ok then None else Some (raddr, buf).

(** What a read gives: a datagram, some time after the last read began, or an
    error of the socket. *)
Inductive read := Datagram (after : Z) (data : list byte) (raddr : string) | ReadErr.

(** How far a loop has come: still waiting, an error, or the peer's address, with
    the answer that was sent to it. *)
Inductive waited := Waiting | Failed | Found (raddr : string) (reply : option (list byte)).

(** One datagram: [None] to go on. The buffer has 1024 bytes. *)
Definition detect (iv : IV) (sid : string) (key : list byte) (role : string) (data : list byte) (raddr : string) : option waited :=
  match DecodeMessageInto (take 1024 data) key with
  | None => None
  | Some m =>
      if negb (String.eqb (Msg.nhs_Sid m) sid) then None
      else if Msg.nhs_Response m then Some (Found raddr None)
      else if String.eqb role DetectRoleSender then None
      else match EncodeMessage iv (Msg.mkNatHoleSid (Msg.nhs_TransactionID m) (Msg.nhs_Sid m) true (Msg.nhs_Nonce m)) key with
           | None => None
           | Some buf2 => Some (Found raddr (Some buf2))
           end
  end.

(** [waitDetectMessage]: every read has a deadline of its own. *)
Fixpoint waitDetectMessage (iv : IV) (sid : string) (key : list byte) (timeout : Z) (role : string) (reads : list read) : waited :=
  match reads with
  | [] => Waiting
  | ReadErr :: _ => Failed
  | Datagram after data raddr :: rest =>
      if timeout <? after then Failed
      else match detect iv sid key role data raddr with
           | Some r => r
           | None => waitDetectMessage iv sid key timeout role rest
           end
  end.
End Messages.

(** [timeout] of [MakeHole], in milliseconds. *)
Definition read_timeout (m : Msg.NatHoleResp) : Z :=
  let t := Msg.db_ReadTimeoutMs (Msg.nhr_DetectBehavior m) in if 0 <? t then t else 5000.

(** ** Waiting on several sockets *)

(** The main goroutine starts the others, gets to its [select], and leaves it. *)
Inductive main := Starting | Selecting | Returned (conn : nat) (raddr : string) | GaveUp.

(** [waiting]: the sockets whose goroutine has not ended. *)
Record hole := mkHole { waiting : gset nat; closed : gset nat; at_ : main }.

Definition start_holes (conns : list nat) : hole := mkHole (list_to_set conns) ∅ Starting.

Section Holes.
(** What the wait on each socket ends with. *)
Context (heard : nat → waited).

(** The main goroutine gives up at the time-out or when the context ends. A
    goroutine whose wait has found the peer hands its socket to the main one if
    that waits for it, and closes it otherwise. *)
Inductive hstep : hole → hole → Prop :=
| HSelect h : at_ h = Starting → hstep h (mkHole (waiting h) (closed h) Selecting)
| HTimeout h : at_ h = Selecting → hstep h (mkHole (waiting h) (closed h) GaveUp)
| HFailed h conn : conn ∈ waiting h → heard conn = Failed →
    hstep h (mkHole (waiting h ∖ {[conn]}) ({[conn]} ∪ closed h) (at_ h))
| HFound h conn raddr reply : conn ∈ waiting h → heard conn = Found raddr reply → at_ h = Selecting →
    hstep h (mkHole (waiting h ∖ {[conn]}) (closed h) (Returned conn raddr))
| HFoundAlone h conn raddr reply : conn ∈ waiting h → heard conn = Found raddr reply → at_ h ≠ Selecting →
    hstep h (mkHole (waiting h ∖ {[conn]}) ({[conn]} ∪ closed h) (at_ h)).

Definition hreachable (conns : list nat) (h : hole) : Prop := rtc hstep (start_holes conns) h.

(** How [MakeHole] can end once it has sent its probes: with the only socket it
    waits on that socket itself, with several it starts a goroutine for each. *)
Inductive ends (conns : list nat) : option (nat * string) → Prop :=
| EndOne conn raddr reply : conns = [conn] → heard conn = Found raddr reply → ends conns (Some (conn, raddr))
| EndOneErr conn : conns = [conn] → heard conn = Failed → ends conns None
| EndMany h conn raddr : (1 < length conns)%nat → hreachable conns h → at_ h = Returned conn raddr → ends conns (Some (conn, raddr))
| EndManyErr h : (1 < length conns)%nat → hreachable conns h → at_ h = GaveUp → ends conns None.
End Holes.

Section MakeHole.
Context {IV : Type} (WriteMsg : Msg.NatHoleSid → option (list byte)) (ReadMsgInto : list byte → option Msg.NatHoleSid)
  (crypto_Encode : IV → list byte → list byte → option (list byte)) (crypto_Decode : list byte → list byte → option (list byte)).

(** The wait on a socket, with the session, the time and the role of the server's
    answer; [reads] is what arrives at each socket. *)
Definition heard_by (m : Msg.NatHoleResp) (key : list byte) (iv : nat → IV) (reads : nat → list read) (conn : nat) : waited :=
  waitDetectMessage WriteMsg ReadMsgInto crypto_Encode crypto_Decode (iv conn) (Msg.nhr_Sid m) key (read_timeout m)
    (Msg.db_Role (Msg.nhr_DetectBehavior m)) (reads conn).

Definition MakeHole (m : Msg.NatHoleResp) (key : list byte) (opened : nat → bool) (iv : nat → IV) (reads : nat → list read)
    (r : option (nat * string)) : Prop := ends (heard_by m key iv reads) (listen_conns m opened) r.
End MakeHole.

(** ** The exchange through the server *)

Inductive nat_error :=
| ErrTransport | ErrMessageType | ErrServer (e : string) | ErrNoCandidates | ErrDiscover | ErrNotEnoughAddrs | ErrClassify (e : Nathole.error)
| ErrResolve | ErrListen.

(** The answer of [transporter.Do]: an error, or a message. *)
Definition PreCheck (answer : option Msg.Message) : res nat_error unit :=
  match answer with
  | None => Err ErrTransport
  | Some (Msg.MNatHoleResp m) => if negb (String.eqb (Msg.nhr_Error m) "") then Err (ErrServer (Msg.nhr_Error m)) else Ok tt
  | Some _ => Err ErrMessageType
  end.

Definition ExchangeInfo (answer : option Msg.Message) : res nat_error Msg.NatHoleResp :=
  match answer with
  | None => Err ErrTransport
  | Some (Msg.MNatHoleResp m) =>
      if negb (String.eqb (Msg.nhr_Error m) "") then Err (ErrServer (Msg.nhr_Error m))
      else match Msg.nhr_CandidateAddrs m with [] => Err ErrNoCandidates | _ => Ok m end
  | Some _ => Err ErrMessageType
  end.

(** ** Discovery *)

(** The addresses in a STUN message that has been decoded. *)
Record attrs := mkAttrs { at_mapped : option string; at_xor : option string; at_changed : option string; at_other : option string }.
Record stunResponse := mkStun { externalAddr : string; otherAddr : string }.

Inductive stun_error := ErrSend | ErrDecode | ErrTimeout | ErrNoExternal.

Section Discovery.
Context {body : Type} (Decode : body → option attrs) (sendable : string → bool).

(** [doSTUNRequest]: [ch] is what is in the channel, [arrives] what comes within
    the time for an answer; the rest stays in the channel. *)
Definition doSTUNRequest (addr : string) (ch arrives : list body) : res stun_error stunResponse * list body :=
  let ch := ch ++ arrives in
  if negb (sendable addr) then (Err ErrSend, ch)
  else match ch with
       | [] => (Err ErrTimeout, [])
       | m :: rest =>
           match Decode m with
           | None => (Err ErrDecode, rest)
           | Some a =>
               let external := match at_mapped a with Some x => x | None => "" end in
               let external := match at_xor a with Some x => x | None => external end in
               let other := match at_changed a with Some x => x | None => "" end in
               let other := match at_other a with Some x => x | None => other end in
               (Ok (mkStun external other), rest)
           end
       end.

Definition discoverFromStunServer (addr : string) (ch arrives1 arrives2 : list body) : res stun_error (list string) * list body :=
  match doSTUNRequest addr ch arrives1 with
  | (Err e, ch) => (Err e, ch)
  | (Ok resp, ch) =>
      if String.eqb (externalAddr resp) "" then (Err ErrNoExternal, ch)
      else if String.eqb (otherAddr resp) "" then (Ok [externalAddr resp], ch)
      else match doSTUNRequest (otherAddr resp) ch arrives2 with
           | (Err e, ch) => (Err e, ch)
           | (Ok resp2, ch) =>
               (Ok (externalAddr resp :: if String.eqb (externalAddr resp2) "" then [] else [externalAddr resp2]), ch)
           end
  end.

(** [Discover], with the arrivals of each server's two questions. *)
Fixpoint Discover (servers : list (string * (list body * list body))) (ch : list body) : res stun_error (list string) :=
  match servers with
  | [] => Ok []
  | (addr, (a1, a2)) :: rest =>
      match discoverFromStunServer addr ch a1 a2 with
      | (Err e, _) => Err e
      | (Ok addrs, ch) => match Discover rest ch with Err e => Err e | Ok l => Ok (addrs ++ l) end
      end
  end.

Record PrepareResult := mkPrepare { Addrs : list string; AssistedAddrs : list string; NatType_ : string; Behavior_ : string }.

(** [Prepare]: [localPort] is the port of the discovery's socket if its address can
    be resolved, [listened] whether it can be opened again. *)
Definition Prepare (servers : list (string * (list body * list body))) (localIPs : list string) (localPort : option Z) (listened : bool)
    (DisableAssistedAddrs : bool) : res nat_error PrepareResult :=
  match Discover servers [] with
  | Err _ => Err ErrDiscover
  | Ok addrs =>
      if (length addrs <? 2)%nat then Err ErrNotEnoughAddrs
      else match ClassifyNATFeature addrs localIPs with
           | Err e => Err (ErrClassify e)
           | Ok f =>
               match localPort with
               | None => Err ErrResolve
               | Some port =>
                   if negb listened then Err ErrListen
                   else Ok (mkPrepare addrs
                              (if DisableAssistedAddrs then [] else (λ ip, JoinHostPort ip (Itoa port)) <$> localIPs)
                              (NatType f) (Behavior f))
               end
           end
  end.
End Discovery.

(** ** Closing a discovery *)

(** The channel as an object, and the field that holds it: [close] and the
    assignment of nil are two steps of [discoverConn.Close]. *)
Inductive reader := Reading | Sending (to_channel : bool) | Panicked | Gone.
Record disc := mkDisc { queued : nat; ch_closed : bool; field_nil : bool; conn_closed : bool; rd : reader }.

Inductive dstep : disc → disc → Prop :=
| DRead d : rd d = Reading → conn_closed d = false →
    dstep d (mkDisc (queued d) (ch_closed d) (field_nil d) (conn_closed d) (Sending (negb (field_nil d))))
| DSend d : rd d = Sending true → ch_closed d = false → (queued d < 10)%nat →
    dstep d (mkDisc (S (queued d)) false (field_nil d) (conn_closed d) Reading)
| DSendClosed d : rd d = Sending true → ch_closed d = true →
    dstep d (mkDisc (queued d) true (field_nil d) (conn_closed d) Panicked)
| DEnd d : rd d = Reading → conn_closed d = true →
    dstep d (mkDisc (queued d) (ch_closed d) (field_nil d) true Gone)
| DTake d : (0 < queued d)%nat → dstep d (mkDisc (queued d - 1) (ch_closed d) (field_nil d) (conn_closed d) (rd d))
| DCloseCh d : ch_closed d = false → dstep d (mkDisc (queued d) true (field_nil d) (conn_closed d) (rd d))
| DSetNil d : ch_closed d = true → dstep d (mkDisc (queued d) true true (conn_closed d) (rd d))
| DCloseConn d : field_nil d = true → dstep d (mkDisc (queued d) (ch_closed d) true true (rd d)).

Definition new_disc : disc := mkDisc 0 false false false Reading.

(** ** Properties: the peers *)

Section Peers.
Context {IV : Type} (WriteMsg : Msg.NatHoleSid → option (list byte)) (ReadMsgInto : list byte → option Msg.NatHoleSid)
  (crypto_Encode : IV → list byte → list byte → option (list byte)) (crypto_Decode : list byte → list byte → option (list byte))
  (ResolveUDPAddr : string → option string).
Notation EncodeMessage := (EncodeMessage WriteMsg crypto_Encode).
Notation DecodeMessageInto := (DecodeMessageInto ReadMsgInto crypto_Decode).
Notation detect := (detect WriteMsg ReadMsgInto crypto_Encode crypto_Decode).
Notation waitDetectMessage := (waitDetectMessage WriteMsg ReadMsgInto crypto_Encode crypto_Decode).
Notation sendSidMessage := (sendSidMessage WriteMsg crypto_Encode ResolveUDPAddr).

(** A datagram in time that the loop passes over. *)
Definition ignored (iv : IV) (sid : string) (key : list byte) (timeout : Z) (role : string) (r : read) : Prop :=
  match r with
  | Datagram after data raddr => after ≤ timeout ∧ detect iv sid key role data raddr = None
  | ReadErr => False
  end.

Lemma wait_ignored iv sid key timeout role junk reads :
  Forall (ignored iv sid key timeout role) junk →
  waitDetectMessage iv sid key timeout role (junk ++ reads) = waitDetectMessage iv sid key timeout role reads.
Proof using.
  induction 1 as [|r junk Hr _ IH]; [done|]. destruct r as [after data raddr|]; [|done]. destruct Hr as [Ht Hd]. cbn.
  rewrite (proj2 (Z.ltb_ge _ _) Ht), Hd. exact IH.
Qed.

(** A wait that ends well ends with the first datagram that is not ignored. *)
Lemma wait_found iv sid key timeout role reads raddr reply :
  waitDetectMessage iv sid key timeout role reads = Found raddr reply →
  ∃ junk after data rest, reads = junk ++ Datagram after data raddr :: rest ∧ Forall (ignored iv sid key timeout role) junk ∧
    after ≤ timeout ∧ detect iv sid key role data raddr = Some (Found raddr reply).
Proof using.
  induction reads as [|[after data a|] reads IH]; [done| |done]. cbn. destruct (Z.ltb_spec timeout after) as [|Ht]; [done|].
  destruct (detect iv sid key role data a) as [r|] eqn:Hd.
  - intros ->. exists [], after, data, reads. assert (a = raddr) as <-.
    { unfold PunchHole.detect in Hd. split_cases; congruence. }
    by split_and!.
  - intros (junk & aft & dat & rest & -> & Hj & Hrest)%IH. exists (Datagram after data a :: junk), aft, dat, rest.
    split; [done|]. split; [by constructor|done].
Qed.

(** A message that is read as it was written, in one read of 1024 bytes. *)
Definition carried (m : Msg.NatHoleSid) (key : list byte) : Prop :=
  ∀ iv b, EncodeMessage iv m key = Some b → DecodeMessageInto b key = Some m ∧ (length b ≤ 1024)%nat.

Lemma sent_message iv nonce sid tid addr key ttl ttl_ok dest b :
  sendSidMessage iv nonce sid tid addr key ttl ttl_ok = Some (dest, b) →
  EncodeMessage iv (Msg.mkNatHoleSid tid sid false (String.concat "" (replicate nonce "0"))) key = Some b.
Proof using.
  intros (r & _ & Hsend)%bind_Some. apply bind_Some in Hsend as (buf & Hbuf & Hsend). split_cases; congruence.
Qed.

(** The wait comes to a datagram of the session. *)
Lemma wait_comes_to iv sid key timeout role junk after b raddr rest m :
  DecodeMessageInto b key = Some m → (length b ≤ 1024)%nat → Msg.nhs_Sid m = sid →
  Forall (ignored iv sid key timeout role) junk → after ≤ timeout →
  waitDetectMessage iv sid key timeout role (junk ++ Datagram after b raddr :: rest) =
  if Msg.nhs_Response m then Found raddr None
  else if String.eqb role DetectRoleSender then waitDetectMessage iv sid key timeout role rest
  else match EncodeMessage iv (Msg.mkNatHoleSid (Msg.nhs_TransactionID m) sid true (Msg.nhs_Nonce m)) key with
       | None => waitDetectMessage iv sid key timeout role rest
       | Some b' => Found raddr (Some b')
       end.
Proof using.
  intros Hd Hl <- Hj Ht. rewrite wait_ignored by done. cbn. rewrite (proj2 (Z.ltb_ge _ _) Ht). unfold PunchHole.detect.
  rewrite take_ge, Hd, String.eqb_refl by lia. cbn [negb]. destruct (Msg.nhs_Response m); [done|].
  destruct (String.eqb role DetectRoleSender); [done|]. by destruct (EncodeMessage iv _ key).
Qed.

(** Nobody without the key is taken for the peer: the address a wait ends with
    is one from which a datagram came that deciphers under the key to a message of
    this very session, for a sender to an answer; and only then an answer goes
    out, to that address. *)
Lemma peer_authentic iv sid key timeout role reads raddr reply :
  waitDetectMessage iv sid key timeout role reads = Found raddr reply →
  ∃ after data m, Datagram after data raddr ∈ reads ∧ DecodeMessageInto (take 1024 data) key = Some m ∧ Msg.nhs_Sid m = sid ∧
    (role = DetectRoleSender → Msg.nhs_Response m = true ∧ reply = None) ∧
    (∀ buf, reply = Some buf → Msg.nhs_Response m = false ∧ ∃ m', EncodeMessage iv m' key = Some buf ∧ Msg.nhs_Sid m' = sid ∧ Msg.nhs_Response m' = true).
Proof using.
  intros (junk & after & data & rest & -> & _ & _ & Hd)%wait_found. unfold PunchHole.detect in Hd.
  destruct (DecodeMessageInto (take 1024 data) key) as [m|] eqn:Hm; [|done].
  destruct (String.eqb_spec (Msg.nhs_Sid m) sid) as [Hs|]; cbn [negb] in Hd; [|done].
  exists after, data, m. split; [apply elem_of_app; right; by left|]. split; [done|]. split; [done|].
  destruct (Msg.nhs_Response m).
  - injection Hd as <-. by split.
  - destruct (String.eqb_spec role DetectRoleSender) as [|Hr]; [done|].
    destruct (EncodeMessage iv _ key) as [buf|] eqn:He; [|done]. injection Hd as <-. split; [done|].
    intros ? [= <-]. split; [done|]. by eexists.
Qed.

(** The wait has no end of its own: every datagram that is passed over starts
    the time anew, so that anybody who sends something within each period keeps
    [MakeHole] with a single socket waiting beyond any time. *)
Theorem junk_prolongs_wait iv sid key timeout role data raddr :
  0 < timeout → DecodeMessageInto (take 1024 data) key = None →
  ∀ bound, ∃ n, bound < timeout * Z.of_nat n ∧
    waitDetectMessage iv sid key timeout role (replicate n (Datagram timeout data raddr)) = Waiting.
Proof using.
  intros Ht Hd bound. exists (Z.to_nat (Z.max 0 bound + 1)). split; [nia|].
  rewrite <-(app_nil_r (replicate _ _)), wait_ignored; [done|]. apply Forall_replicate. cbn. split; [lia|].
  unfold PunchHole.detect. by rewrite Hd.
Qed.
End Peers.

(** ** Properties: probes *)

Lemma getUnusedPort_spec tries : ∀ used draws port used' draws',
  Forall (λ d, 0 ≤ d < 64511) draws → getUnusedPort tries used draws = (port, used', draws') →
  Forall (λ d, 0 ≤ d < 64511) draws' ∧
  ((port = 0 ∧ used' = used) ∨ (1024 ≤ port ≤ 65534 ∧ port ∉ used ∧ used' = {[port]} ∪ used)).
Proof.
  induction tries as [|tries IH]; intros used [|d draws] port used' draws' Hd; cbn; try (intros [= <- <- <-]; by auto).
  apply Forall_cons in Hd as [Hd Hds]. case_bool_decide; [by apply IH|]. intros [= <- <- <-]. split; [done|]. right. split; [lia|done].
Qed.

Lemma random_ports_spec count : ∀ used draws,
  Forall (λ d, 0 ≤ d < 64511) draws →
  (length (random_ports count used draws) ≤ count)%nat ∧ NoDup (random_ports count used draws) ∧
  ∀ p, p ∈ random_ports count used draws → 1024 ≤ p ≤ 65534 ∧ p ∉ used.
Proof.
  induction count as [|count IH]; intros used draws Hd; cbn [random_ports].
  - split; [done|]. split; [constructor|]. intros p Hp. by apply elem_of_nil in Hp.
  - destruct (getUnusedPort 10 used draws) as [[port used'] draws'] eqn:Hg.
    apply getUnusedPort_spec in Hg as [Hd' Hp]; [|done]. destruct (IH used' draws' Hd') as (Hl & Hnd & Hall).
    destruct Hp as [[-> ->]|(Hr & Hu & ->)].
    + cbn. split; [lia|]. done.
    + rewrite (proj2 (Z.eqb_neq port 0)) by lia. cbn. split; [lia|]. split.
      * apply NoDup_cons. split; [|done]. intros Hin. apply Hall in Hin as [_ Hin]. set_solver.
      * intros p [-> | Hin]%elem_of_cons; [done|]. apply Hall in Hin as [? ?]. split; [done|set_solver].
Qed.

Lemma elem_of_range conn addrs ports c a :
  (c, a) ∈ sendSidMessageToRangePorts conn addrs ports ↔
  c = conn ∧ ∃ ip r i, ip ∈ compact (parseIPs addrs) ∧ r ∈ ports ∧ Msg.pr_From r ≤ i ≤ Msg.pr_To r ∧ a = JoinHostPort ip (Itoa i).
Proof.
  unfold sendSidMessageToRangePorts. rewrite list_elem_of_bind. setoid_rewrite list_elem_of_bind. setoid_rewrite list_elem_of_fmap.
  setoid_rewrite elem_of_seqZ. split.
  - intros (ip & (r & (i & [= -> ->] & Hi) & Hr) & Hip). split; [done|]. exists ip, r, i. split_and!; [done..|lia|lia|done].
  - intros (-> & ip & r & i & Hip & Hr & Hi & ->). exists ip. split; [|done]. exists r. split; [|done]. exists i. split; [done|lia].
Qed.

Lemma compact_elem l x : x ∈ compact l ↔ x ∈ l.
Proof.
  induction l as [|y l IH]; [done|]. cbn. rewrite elem_of_cons, <-IH. destruct (compact l) as [|z r].
  - rewrite list_elem_of_singleton. set_solver.
  - destruct (String.eqb_spec y z) as [->|]; set_solver.
Qed.

Lemma parseIPs_elem addrs ip : ip ∈ parseIPs addrs ↔ ∃ a port, a ∈ addrs ∧ SplitHostPort a = Ok (ip, port).
Proof.
  induction addrs as [|a addrs IH]; cbn.
  - split; [by intros ?%elem_of_nil|]. intros (? & ? & ?%elem_of_nil & _). done.
  - setoid_rewrite elem_of_cons. destruct (SplitHostPort a) as [[ip' port']|] eqn:Ha.
    + rewrite elem_of_cons, IH. split; [intros [->|(b & q & ? & ?)]; eauto|].
      intros (b & q & [->|?] & Hb); [left; congruence|right; eauto].
    + rewrite IH. split; [intros (b & q & ? & ?); eauto|]. intros (b & q & [->|?] & Hb); [congruence|eauto].
Qed.

(** What is probed is what the server's answer says. A sender probes, from its
    one socket, the peer's assisted and candidate addresses; a receiver probes the
    candidates from every socket it has opened, unless it is given ports, in which
    case both probe all those ports of the candidates' hosts; and random ports
    are fresh ones between 1024 and 65534, never more than asked for. *)
Theorem probes_exact (m : Msg.NatHoleResp) (opened : nat → bool) (draws : nat → list Z) (used : gset Z) count :
  let b := Msg.nhr_DetectBehavior m in
  (∀ conn a, (conn, a) ∈ probes m opened ↔ conn ∈ listen_conns m opened ∧
     ((Msg.db_Role b = DetectRoleSender ∧ (a ∈ Msg.nhr_AssistedAddrs m ∨ a ∈ Msg.nhr_CandidateAddrs m)) ∨
      (Msg.db_Role b ≠ DetectRoleSender ∧ Msg.db_CandidatePorts b = [] ∧ a ∈ Msg.nhr_CandidateAddrs m) ∨
      (∃ c ip port r i, c ∈ Msg.nhr_CandidateAddrs m ∧ SplitHostPort c = Ok (ip, port) ∧ r ∈ Msg.db_CandidatePorts b ∧
         Msg.pr_From r ≤ i ≤ Msg.pr_To r ∧ a = JoinHostPort ip (Itoa i)))) ∧
  (∀ conn, Forall (λ d, 0 ≤ d < 64511) (draws conn) →
     (length (random_ports count used (draws conn)) ≤ count)%nat ∧ NoDup (random_ports count used (draws conn)) ∧
     ∀ p, p ∈ random_ports count used (draws conn) → 1024 ≤ p ≤ 65534 ∧ p ∉ used).
Proof.
  cbv zeta. split; [|intros conn; apply random_ports_spec]. intros conn a. set (b := Msg.nhr_DetectBehavior m).
  unfold probes. destruct (detect_addrs m) as [detectAddrs cands] eqn:Hd.
  assert ((a ∈ detectAddrs ↔ (Msg.db_Role b = DetectRoleSender ∧ (a ∈ Msg.nhr_AssistedAddrs m ∨ a ∈ Msg.nhr_CandidateAddrs m)) ∨
      (Msg.db_Role b ≠ DetectRoleSender ∧ Msg.db_CandidatePorts b = [] ∧ a ∈ Msg.nhr_CandidateAddrs m)) ∧
    (Msg.db_CandidatePorts b ≠ [] → cands = Msg.nhr_CandidateAddrs m)) as [Ha Hc].
  { unfold detect_addrs in Hd. fold b in Hd. destruct (String.eqb_spec (Msg.db_Role b) DetectRoleSender) as [Hr|Hr].
    - injection Hd as <- <-. rewrite compact_elem, elem_of_app. naive_solver.
    - destruct (Msg.db_CandidatePorts b) as [|r rs] eqn:Hp; injection Hd as <- <-.
      + rewrite compact_elem. naive_solver.
      + split; [|done]. split; [by intros ?%elem_of_nil|naive_solver]. }
  rewrite elem_of_app, !list_elem_of_bind. setoid_rewrite list_elem_of_fmap. setoid_rewrite elem_of_range.
  setoid_rewrite compact_elem. setoid_rewrite parseIPs_elem. fold b. split.
  - intros [(x & (? & [= -> ->] & Hin) & Hx)|(x & (-> & ip & r & i & (cd & port & Hcd & Hs) & Hr & Hi & ->) & Hin)]; (split; [done|]).
    + apply Ha in Hx. tauto.
    + right. right. exists cd, ip, port, r, i. rewrite <-Hc; [done|]. intros Hz. rewrite Hz in Hr. by apply elem_of_nil in Hr.
  - intros [Hin Hcase]. destruct (decide (a ∈ detectAddrs)) as [Hx|Hx]; [left; exists a; split; [by exists conn|done]|].
    right. exists conn. split; [|done]. split; [done|]. destruct Hcase as [?|[?|(cd & ip & port & r & i & Hcd & Hs & Hr & Hi & ->)]]; [tauto..|].
    exists ip, r, i. split; [|done]. exists cd, port. rewrite Hc; [done|]. intros Hz. rewrite Hz in Hr. by apply elem_of_nil in Hr.
Qed.

(** ** Properties: several sockets *)

(** Every socket is waited on, closed, or the one that was returned. *)
Record accounted (conns : list nat) (h : hole) : Prop := {
  ac_all : ∀ c, c ∈ conns ↔ c ∈ waiting h ∨ c ∈ closed h ∨ ∃ a, at_ h = Returned c a;
  ac_once : waiting h ## closed h;
  ac_kept : ∀ c a, at_ h = Returned c a → c ∉ waiting h ∧ c ∉ closed h }.

Lemma accounted_start conns : accounted conns (start_holes conns).
Proof. split; cbn; [|set_solver|done]. intros c. rewrite elem_of_list_to_set. set_solver. Qed.

Lemma accounted_moved conns h conn :
  accounted conns h → conn ∈ waiting h → accounted conns (mkHole (waiting h ∖ {[conn]}) ({[conn]} ∪ closed h) (at_ h)).
Proof.
  intros [Hall Honce Hkept] Hc. split; cbn.
  - intros c. rewrite Hall. destruct (decide (c = conn)) as [->|]; set_solver.
  - set_solver.
  - intros c a Ha. destruct (Hkept c a Ha) as [Hw Hcl]. split; [set_solver|]. rewrite elem_of_union, elem_of_singleton. intros [->|?]; done.
Qed.

Lemma sockets_step heard conns h h' : accounted conns h → hstep heard h h' → accounted conns h'.
Proof.
  intros Hac Hs. destruct Hs as [h Ha|h Ha|h conn Hc|h conn raddr reply Hc _ Ha|h conn raddr reply Hc _ Ha]; try by apply accounted_moved.
  - destruct Hac as [Hall Honce _]. split; cbn; [|done|done]. intros c. rewrite Hall, Ha. naive_solver.
  - destruct Hac as [Hall Honce _]. split; cbn; [|done|done]. intros c. rewrite Hall, Ha. naive_solver.
  - destruct Hac as [Hall Honce _]. split; cbn.
    + intros c. rewrite Hall, Ha. destruct (decide (c = conn)) as [->|Hne].
      * split; [intros _; right; right; by exists raddr|by left].
      * assert (c ∈ waiting h ∖ {[conn]} ↔ c ∈ waiting h) as -> by set_solver. naive_solver.
    + set_solver.
    + intros c a [= <- <-]. set_solver.
Qed.

(** No socket of a hole is lost or given out twice: through any interleaving
    of the waiting goroutines and their time-outs, every socket is waited on,
    closed, or the single one that [MakeHole] returned, and that one is open; once
    all goroutines have ended, every other socket is closed. *)
Theorem sockets_accounted heard conns h :
  hreachable heard conns h →
  (∀ c, c ∈ conns → c ∈ waiting h ∨ c ∈ closed h ∨ ∃ a, at_ h = Returned c a) ∧
  (∀ c a, at_ h = Returned c a → c ∈ conns ∧ c ∉ closed h) ∧
  (waiting h = ∅ → ∀ c, c ∈ conns → c ∉ closed h → ∃ a, at_ h = Returned c a).
Proof.
  intros Hr. assert (accounted conns h) as [Hall _ Hkept].
  { eapply (rtc_invariant (hstep heard)); [apply sockets_step|exact Hr|apply accounted_start]. }
  split_and!.
  - intros c. by rewrite Hall.
  - intros c a Ha. split; [apply Hall; right; right; by exists a|by apply (Hkept c a)].
  - intros Hw c Hc Hn. apply Hall in Hc as [Hin|[?|?]]; [set_solver|done..].
Qed.

(** A hole that was made can be thrown away: the channel of results has no
    buffer, so a goroutine whose peer's message is already there ends before
    [MakeHole] has got to its [select] and closes its socket; all the others fail
    and [MakeHole] reports a time-out. *)
Theorem hole_lost heard raddr reply :
  heard 0%nat = Found raddr reply → heard 1%nat = Failed →
  ∃ h, hreachable heard [0; 1]%nat h ∧ at_ h = GaveUp ∧ closed h = {[0; 1]}%nat ∧ ends heard [0; 1]%nat None.
Proof.
  intros H0 H1. set (h0 := start_holes [0; 1]%nat).
  assert (∃ h, hreachable heard [0; 1]%nat h ∧ at_ h = GaveUp ∧ closed h = {[0; 1]}%nat) as (h & Hr & Ha & Hc).
  { eexists. split.
    - eapply rtc_l; [apply (HFoundAlone heard h0 0%nat raddr reply); [cbn; set_solver|exact H0|done]|]. eapply rtc_l; [apply HSelect; reflexivity|].
      eapply rtc_l; [apply (HFailed _ _ 1%nat); [cbn; set_solver|exact H1]|]. eapply rtc_l; [apply HTimeout; reflexivity|]. apply rtc_refl.
    - split; [done|cbn; set_solver]. }
  exists h. split_and!; try done. by apply (EndManyErr _ _ h); [cbn; lia|..].
Qed.

(** ** Properties: both peers *)

(** The socket that is returned is one that found the peer. *)
Lemma returned_found heard conns h :
  hreachable heard conns h → ∀ c a, at_ h = Returned c a → c ∈ conns ∧ ∃ reply, heard c = Found a reply.
Proof.
  intros Hr. set (P h := (∀ c, c ∈ waiting h → c ∈ conns) ∧ ∀ c a, at_ h = Returned c a → c ∈ conns ∧ ∃ reply, heard c = Found a reply).
  enough (P h) as [_ ?] by done. refine (rtc_invariant (hstep heard) P _ _ _ Hr _).
  - intros h1 h2 [Hw Hat] Hs. destruct Hs as [h1 Ha|h1 Ha|h1 conn Hc|h1 conn raddr reply Hc Hf Ha|h1 conn raddr reply Hc Hf Ha]; cbn.
    all: split; cbn; [set_solver|]. all: first [done|intros c a [= <- <-]; split; [by apply Hw|by exists reply]].
  - split; cbn; [|done]. intros c. by rewrite elem_of_list_to_set.
Qed.

Lemma ends_found heard conns c a : ends heard conns (Some (c, a)) → c ∈ conns ∧ ∃ reply, heard c = Found a reply.
Proof.
  inversion 1 as [conn raddr reply -> Hf| |h conn raddr Hl Hr Ha|]; subst; [split; [by left|by exists reply]|].
  by eapply returned_found.
Qed.

Lemma ends_one heard conn raddr reply r : heard conn = Found raddr reply → ends heard [conn] r ↔ r = Some (conn, raddr).
Proof.
  intros Hf. split; [|intros ->; by eapply EndOne].
  inversion 1 as [c a rp [= <-] Hc|c [= <-] Hc|h c a Hl|h Hl]; subst; [|congruence|cbn in Hl; lia..]. congruence.
Qed.

Section Meeting.
Context {IV : Type} (WriteMsg : Msg.NatHoleSid → option (list byte)) (ReadMsgInto : list byte → option Msg.NatHoleSid)
  (crypto_Encode : IV → list byte → list byte → option (list byte)) (crypto_Decode : list byte → list byte → option (list byte))
  (ResolveUDPAddr : string → option string).
Notation DecodeMessageInto := (DecodeMessageInto ReadMsgInto crypto_Decode).
Notation sendSidMessage := (sendSidMessage WriteMsg crypto_Encode ResolveUDPAddr).
Notation EncodeMessage := (EncodeMessage WriteMsg crypto_Encode).
Notation carried := (carried WriteMsg ReadMsgInto crypto_Encode crypto_Decode).
Notation ignored := (ignored WriteMsg ReadMsgInto crypto_Encode crypto_Decode).
Notation heard_by := (heard_by WriteMsg ReadMsgInto crypto_Encode crypto_Decode).
Notation MakeHole := (MakeHole WriteMsg ReadMsgInto crypto_Encode crypto_Decode).

(** Before the datagram from [raddr] only such arrive at the socket as its wait
    passes over, and it comes in time. *)
Definition arrives (m : Msg.NatHoleResp) (key : list byte) (iv : IV) (reads : list read) (data : list byte) (raddr : string) : Prop :=
  ∃ junk after rest, reads = junk ++ Datagram after data raddr :: rest ∧ after ≤ read_timeout m ∧
    Forall (ignored iv (Msg.nhr_Sid m) key (read_timeout m) (Msg.db_Role (Msg.nhr_DetectBehavior m))) junk.

(** C31. A hole joins the two peers of a session, who have the server's answers [mS]
    (role sender) and [mR] (another role), each with its own time-out, and one
    key. Whatever [MakeHole] returns, at either, on one socket or through any
    interleaving of the waits on several, is a socket it has opened and an address
    from which a datagram came to that socket that deciphers under the key to a
    message of the session, for the sender to an answer. And when the sender's
    message reaches a socket of the receiver, and the answer [b'] the sender,
    before anything else that their waits do not pass over: that receiver's wait
    ends with the address the message came from and sends [b']; the sender's
    [MakeHole] returns the address the answer came from, and nothing else; and so
    does the receiver's with the message's if it has one socket. (With several it
    may lose the hole: [hole_lost].) Both messages are taken to be read as they
    were written, within 1024 bytes. *)
Theorem peers_meet key mS mR openedS openedR ivS ivR readsS readsR :
  Msg.db_Role (Msg.nhr_DetectBehavior mS) = DetectRoleSender → Msg.db_Role (Msg.nhr_DetectBehavior mR) ≠ DetectRoleSender →
  Msg.nhr_Sid mS = Msg.nhr_Sid mR →
  (∀ m opened iv reads c a, MakeHole m key opened iv reads (Some (c, a)) → c ∈ listen_conns m opened ∧
     ∃ after data msg, Datagram after data a ∈ reads c ∧ DecodeMessageInto (take 1024 data) key = Some msg ∧
       Msg.nhs_Sid msg = Msg.nhr_Sid m ∧ (Msg.db_Role (Msg.nhr_DetectBehavior m) = DetectRoleSender → Msg.nhs_Response msg = true)) ∧
  (∀ iv nonce tid target ttl ttl_ok dest b b' c addrS addrR,
     sendSidMessage iv nonce (Msg.nhr_Sid mS) tid target key ttl ttl_ok = Some (dest, b) →
     EncodeMessage (ivR c) (Msg.mkNatHoleSid tid (Msg.nhr_Sid mS) true (String.concat "" (replicate nonce "0"))) key = Some b' →
     carried (Msg.mkNatHoleSid tid (Msg.nhr_Sid mS) false (String.concat "" (replicate nonce "0"))) key →
     carried (Msg.mkNatHoleSid tid (Msg.nhr_Sid mS) true (String.concat "" (replicate nonce "0"))) key →
     c ∈ listen_conns mR openedR → arrives mR key (ivR c) (readsR c) b addrS → arrives mS key (ivS 0%nat) (readsS 0%nat) b' addrR →
     heard_by mR key ivR readsR c = Found addrS (Some b') ∧
     (∀ r, MakeHole mS key openedS ivS readsS r ↔ r = Some (0%nat, addrR)) ∧
     (listen_conns mR openedR = [0%nat] → ∀ r, MakeHole mR key openedR ivR readsR r ↔ r = Some (0%nat, addrS))).
Proof.
  intros HrS HrR Hsid. split.
  - intros m opened iv reads c a (Hc & reply & Hf)%ends_found. split; [done|].
    apply peer_authentic in Hf as (after & data & msg & Hin & Hd & Hs & Hresp & _). exists after, data, msg. split_and!; try done.
    intros Hr. by apply Hresp.
  - intros iv nonce tid target ttl ttl_ok dest b b' c addrS addrR Hb%sent_message Hb' Hq Ha Hc
      (jR & aR & rR & HeR & HtR & HjR) (jS & aS & rS & HeS & HtS & HjS).
    destruct (Hq _ _ Hb) as [Hdq Hlq], (Ha _ _ Hb') as [Hda Hla].
    assert (heard_by mR key ivR readsR c = Found addrS (Some b')) as HR.
    { unfold PunchHole.heard_by. rewrite HeR, (wait_comes_to _ _ _ _ _ _ _ _ _ _ _ _ _ _ _ Hdq) by done. cbn.
      by rewrite (proj2 (String.eqb_neq _ _) HrR), <-Hsid, Hb'. }
    assert (heard_by mS key ivS readsS 0%nat = Found addrR None) as HS.
    { unfold PunchHole.heard_by. by rewrite HeS, (wait_comes_to _ _ _ _ _ _ _ _ _ _ _ _ _ _ _ Hda) by done. }
    split; [done|]. split.
    + intros r. unfold PunchHole.MakeHole, listen_conns. rewrite HrS. cbn [String.eqb]. by apply (ends_one _ _ _ None).
    + intros H1 r. unfold PunchHole.MakeHole. rewrite H1 in Hc |- *. apply list_elem_of_singleton in Hc as ->. by apply (ends_one _ _ _ (Some b')).
Qed.
End Meeting.

(** ** Properties: discovery *)

(** An answer of a STUN server is not matched with its question: when the first
    answer arrives twice, its copy is taken for the answer of the other address,
    whatever that one says, and a client behind a hard NAT that both servers see
    at different ports is classified as easy. *)
Theorem stun_duplicate_taken {body} (Decode : body → option attrs) server other external ip port n1 m m2 arrives2 localIPs :
  Decode m = Some (mkAttrs None (Some external) None (Some other)) → other ≠ "" →
  SplitHostPort external = Ok (ip, port) → ip ≠ "" → Atoi port = Some n1 →
  Discover Decode (λ _, true) [(server, ([m; m], m2 :: arrives2))] [] = Ok [external; external] ∧
  ∃ f, ClassifyNATFeature [external; external] localIPs = Ok f ∧ NatType f = EasyNAT.
Proof.
  intros Hd Ho Hs Hip Hp. assert (external ≠ "") as He by (intros ->; done). split.
  - cbn. unfold discoverFromStunServer, doSTUNRequest. cbn. rewrite Hd. cbn.
    rewrite (proj2 (String.eqb_neq _ _) He), (proj2 (String.eqb_neq _ _) Ho), Hd. cbn. by rewrite (proj2 (String.eqb_neq _ _) He).
  - unfold ClassifyNATFeature. cbn [length Nat.leb scan_all]. unfold scan_addr. rewrite Hs, Hp. cbn [scan_init sc_baseIP sc_basePort].
    change (String.eqb "" "") with true. cbv iota. cbn [sc_baseIP sc_basePort sc_ipChanged sc_portChanged sc_public].
    rewrite (proj2 (String.eqb_neq _ _) Hip), !String.eqb_refl. cbn. by eexists.
Qed.

(** Closing a discovery can end the whole client: the reading goroutine may be
    about to send a datagram when [Close] closes the channel, and a send on a
    closed channel panics. *)
Theorem discover_close_panics : ∃ d, rtc dstep new_disc d ∧ rd d = Panicked.
Proof.
  eexists. split.
  - eapply rtc_l; [by apply DRead|]. eapply rtc_l; [by apply DCloseCh|]. eapply rtc_l; [by apply DSendClosed|]. apply rtc_refl.
  - done.
Qed.

(** ** Witnesses *)

(** A codec that keeps the session and the kind, and a cipher that adds the key. *)
Definition demo_write (m : Msg.NatHoleSid) : option (list byte) :=
  if String.eqb (Msg.nhs_Sid m) "s" && String.eqb (Msg.nhs_TransactionID m) "t" && String.eqb (Msg.nhs_Nonce m) ""
  then Some [if Msg.nhs_Response m then "001"%byte else "000"%byte] else None.
Definition demo_read (b : list byte) : option Msg.NatHoleSid :=
  match b with
  | ["000"%byte] => Some (Msg.mkNatHoleSid "t" "s" false "")
  | ["001"%byte] => Some (Msg.mkNatHoleSid "t" "s" true "")
  | _ => None
  end.
Definition demo_enc (_ : unit) (b key : list byte) : option (list byte) := Some (key ++ b).
Definition demo_dec (c key : list byte) : option (list byte) :=
  if bool_decide (take (length key) c = key) then Some (drop (length key) c) else None.
Definition demo_key : list byte := ["107"%byte].

Lemma demo_carried r : carried demo_write demo_read demo_enc demo_dec (Msg.mkNatHoleSid "t" "s" r "") demo_key.
Proof. intros iv b. destruct r; cbn; intros [= <-]; (split; [by vm_compute|cbn; lia]). Qed.

Notation demo_wait := (waitDetectMessage demo_write demo_read demo_enc demo_dec tt "s" demo_key 5000).

(** The answers of the server, with time-outs of their own. *)
Definition demo_resp (role : string) (timeout : Z) : Msg.NatHoleResp :=
  Msg.mkNatHoleResp "" "s" "kcp" ["2.2.2.2:2"] [] (Msg.mkDetectBehavior role 0 0 0 timeout [] 0 0) "".

Definition demo_readsR : nat → list read := λ _, [Datagram 4000 [] "9.9.9.9:9"; Datagram 1000 ["107"%byte; "000"%byte] "1.1.1.1:1"].
Definition demo_readsS : nat → list read := λ _, [Datagram 10 ["107"%byte; "001"%byte] "2.2.2.2:2"].
Notation demo_hole := (MakeHole demo_write demo_read demo_enc demo_dec).

Lemma peers_meet_witness :
  (∀ r, demo_hole (demo_resp DetectRoleSender 2000) demo_key (λ _, true) (λ _, tt) demo_readsS r ↔ r = Some (0%nat, "2.2.2.2:2")) ∧
  (∀ r, demo_hole (demo_resp DetectRoleReceiver 5000) demo_key (λ _, true) (λ _, tt) demo_readsR r ↔ r = Some (0%nat, "1.1.1.1:1")).
Proof.
  destruct (peers_meet demo_write demo_read demo_enc demo_dec Some demo_key (demo_resp DetectRoleSender 2000)
    (demo_resp DetectRoleReceiver 5000) (λ _, true) (λ _, true) (λ _, tt) (λ _, tt) demo_readsS demo_readsR eq_refl ltac:(discriminate) eq_refl)
    as [_ H].
  destruct (H tt 0%nat "t" "2.2.2.2:2" 0 true "2.2.2.2:2" ["107"%byte; "000"%byte] ["107"%byte; "001"%byte] 0%nat "1.1.1.1:1" "2.2.2.2:2")
    as (_ & HS & HR).
  - vm_compute. reflexivity.
  - vm_compute. reflexivity.
  - apply demo_carried.
  - apply demo_carried.
  - left.
  - exists [Datagram 4000 [] "9.9.9.9:9"], 1000, []. split; [reflexivity|]. split; [cbn; lia|].
    apply Forall_singleton. split; [cbn; lia|vm_compute; reflexivity].
  - exists [], 10, []. split; [reflexivity|]. split; [cbn; lia|constructor].
  - split; [exact HS|exact (HR eq_refl)].
Defined.

Lemma peer_authentic_witness :
  ∃ after data m, Datagram after data "1.1.1.1:1" ∈ [Datagram 1000 ["107"%byte; "000"%byte] "1.1.1.1:1"] ∧
    DecodeMessageInto demo_read demo_dec (take 1024 data) demo_key = Some m ∧ Msg.nhs_Sid m = "s".
Proof.
  destruct (peer_authentic demo_write demo_read demo_enc demo_dec tt "s" demo_key 5000 DetectRoleReceiver
    [Datagram 1000 ["107"%byte; "000"%byte] "1.1.1.1:1"] "1.1.1.1:1" (Some ["107"%byte; "001"%byte]) ltac:(vm_compute; reflexivity))
    as (after & data & m & H1 & H2 & H3 & _). exists after, data, m. split; [exact H1|]. split; [exact H2|exact H3].
Defined.

Lemma junk_prolongs_wait_witness :
  ∃ n, 1000000 < 5000 * Z.of_nat n ∧ demo_wait DetectRoleSender (replicate n (Datagram 5000 [] "9.9.9.9:9")) = Waiting.
Proof.
  refine (junk_prolongs_wait demo_write demo_read demo_enc demo_dec tt "s" demo_key 5000 DetectRoleSender [] "9.9.9.9:9" _ _ 1000000);
    [lia|vm_compute; reflexivity].
Defined.

Definition demo_heard (conn : nat) : waited := if (conn =? 1)%nat then Found "1.1.1.1:1" None else Failed.

Lemma sockets_accounted_witness :
  ∃ h, hreachable demo_heard [0; 1]%nat h ∧ at_ h = Returned 1 "1.1.1.1:1" ∧ 1%nat ∉ closed h.
Proof.
  set (h1 := mkHole {[0; 1]}%nat ∅ Selecting).
  assert (hreachable demo_heard [0; 1]%nat (mkHole (waiting h1 ∖ {[1%nat]}) (closed h1) (Returned 1 "1.1.1.1:1"))) as Hr.
  { eapply rtc_l; [apply HSelect; reflexivity|]. replace (waiting (start_holes [0; 1]%nat)) with ({[0; 1]}%nat : gset nat) by (cbn; set_solver).
    apply rtc_once. apply (HFound demo_heard h1 1 "1.1.1.1:1" None); [cbn; set_solver|reflexivity|reflexivity]. }
  exists (mkHole (waiting h1 ∖ {[1%nat]}) (closed h1) (Returned 1 "1.1.1.1:1")). split; [exact Hr|]. split; [reflexivity|].
  exact (proj2 (proj1 (proj2 (sockets_accounted demo_heard [0; 1]%nat _ Hr)) 1%nat "1.1.1.1:1" eq_refl)).
Defined.

Lemma hole_lost_witness :
  ends (λ conn, if (conn =? 0)%nat then Found "1.1.1.1:1" None else Failed) [0; 1]%nat None.
Proof.
  destruct (hole_lost (λ conn, if (conn =? 0)%nat then Found "1.1.1.1:1" None else Failed) "1.1.1.1:1" None eq_refl eq_refl)
    as (h & _ & _ & _ & H). exact H.
Defined.

Lemma stun_duplicate_taken_witness :
  Discover (λ b : bool, if b then Some (mkAttrs None (Some "5.6.7.8:4000") None (Some "3.3.3.3:3479"))
                        else Some (mkAttrs None (Some "5.6.7.8:4017") None None)) (λ _, true)
    [("stun:3478", ([true; true], [false]))] [] = Ok ["5.6.7.8:4000"; "5.6.7.8:4000"].
Proof.
  refine (proj1 (stun_duplicate_taken (λ b : bool, if b then Some (mkAttrs None (Some "5.6.7.8:4000") None (Some "3.3.3.3:3479"))
    else Some (mkAttrs None (Some "5.6.7.8:4017") None None)) "stun:3478" "3.3.3.3:3479" "5.6.7.8:4000" "5.6.7.8" "4000" 4000 true false [] []
    eq_refl _ _ _ _)); done.
Defined.
End PunchHole.
