(* ===== verification/WorkStreams.v ===== *)
(** The streams over a work connection: how frpc ([NewProxy] and [wrapWorkConn] of
    client/proxy/proxy.go) and frps ([NewProxy] and [handleUserTCPConnection] of
    server/proxy/proxy.go, the same lines in udp.go, tcpudp.go and http.go) wrap it
    for encryption, compression and a bandwidth limit, what closing such a stream
    closes, and the client's handler of TCP work connections with the header of
    the PROXY protocol (pkg/util/net/proxyprotocol.go).

    Streams are objects, and the function a limited one is closed with reads the
    Go variable it captured when it is called: the variable is part of the state. *)
From Stdlib Require Import ZArith Lia Ascii String.
From stdpp Require Import base gmap strings list fin_sets.
From S2P Require Import Prelude GoLib Wire Msg Ports ConfigTypes Config ServerPlugins UserConns.

Local Open Scope Z_scope.

Module WorkStreams.
Import ConfigTypes Config.

(** ** Wrapped streams *)

(** A stream of github.com/fatedier/golib/io wraps another one, and runs its
    closing function once. [LimitConn] is closed by closing the object in it,
    [LimitVar] by closing what the captured variable then holds. *)
Inductive stream :=
| Net
| Enc (key : string) (inner : nat)
| Comp (inner : nat)
| LimitConn (inner : nat)
| LimitVar (inner : nat).

(** [var] is the variable [rwc] or [local]; [shut] the objects that were closed. *)
Record Streams := mkStreams { objs : list stream; var : nat; shut : gset nat }.

(** The variable holds the connection itself, object 0. *)
Definition work_conn : Streams := mkStreams [Net] 0 ∅.

(** [rwc = wrap(rwc)]. *)
Definition wrap (s : Streams) (x : stream) : Streams := mkStreams (objs s ++ [x]) (length (objs s)) (shut s).

(** [libio.WithEncryption] may fail. *)
Definition WithEncryption (use : bool) (key : string) (ok : bool) (s : Streams) : option Streams :=
  if use then if ok then Some (wrap s (Enc key (var s))) else None else Some s.

Definition WithCompression (use : bool) (s : Streams) : Streams := if use then wrap s (Comp (var s)) else s.

(** The limiters the two ends make; [Bytes] is [bq_i]. *)
Definition client_limiter (b : ProxyBaseConfig) : bool :=
  (0 <? bq_i (BandwidthLimit (Transport b))) && String.eqb (BandwidthLimitMode (Transport b)) BandwidthLimitModeClient.
Definition server_limiter (b : ProxyBaseConfig) : bool :=
  (0 <? bq_i (BandwidthLimit (Transport b))) && String.eqb (BandwidthLimitMode (Transport b)) BandwidthLimitModeServer.

(** [wrapWorkConn]; [None] when encryption fails, after closing the connection. *)
Definition wrapWorkConn (b : ProxyBaseConfig) (encKey : string) (enc_ok : bool) : option Streams :=
  let s := if client_limiter b then wrap work_conn (LimitConn 0) else work_conn in
  s ← WithEncryption (UseEncryption (Transport b)) encKey enc_ok s;
  Some (WithCompression (UseCompression (Transport b)) s).

(** The wrapping on the server, the same in [handleUserTCPConnection], in the work
    connection loops of udp and tcpudp proxies and in [GetRealConn] of http ones. *)
Definition wrapServerConn (b : ProxyBaseConfig) (encryptionKey : string) (enc_ok : bool) : option Streams :=
  s ← WithEncryption (UseEncryption (Transport b)) encryptionKey enc_ok work_conn;
  let s := WithCompression (UseCompression (Transport b)) s in
  Some (if server_limiter b then wrap s (LimitVar (var s)) else s).

(** *** Closing *)

Fixpoint close_go (fuel : nat) (s : Streams) (o : nat) : Streams :=
  match fuel with
  | O => s
  | S fuel =>
      if decide (o ∈ shut s) then s
      else
        let s := mkStreams (objs s) (var s) ({[o]} ∪ shut s) in
        match objs s !! o with
        | Some (Enc _ i) | Some (Comp i) | Some (LimitConn i) => close_go fuel s i
        | Some (LimitVar _) => close_go fuel s (var s)
        | Some Net | None => s
        end
  end.

(** The method [Close] of the stream in the variable. *)
Definition Close (s : Streams) : Streams := close_go (S (length (objs s))) s (var s).

(** *** What the bytes go through *)

Inductive layer := LEnc (key : string) | LComp.

(** The layers between an object and the connection, without the limits. *)
Fixpoint layers_go (fuel : nat) (s : Streams) (o : nat) : list layer :=
  match fuel with
  | O => []
  | S fuel =>
      match objs s !! o with
      | Some (Enc key i) => LEnc key :: layers_go fuel s i
      | Some (Comp i) => LComp :: layers_go fuel s i
      | Some (LimitConn i) | Some (LimitVar i) => layers_go fuel s i
      | Some Net | None => []
      end
  end.
Definition layers (s : Streams) : list layer := layers_go (S (length (objs s))) s (var s).

Definition is_limit (x : stream) : bool := match x with LimitConn _ | LimitVar _ => true | _ => false end.
Definition limits (s : Streams) : nat := length (filter (λ x, is_limit x = true) (objs s)).

(** ** The client's handler of TCP work connections *)

Section Handle.
(** [net.ResolveTCPAddr], and the headers of github.com/pires/go-proxyproto. *)
Context {TCPAddr Header : Type} (ResolveTCPAddr : string → option TCPAddr).
(** An address is nil, or holds a pointer, which may be nil. *)
Definition Addr : Type := option (option TCPAddr).
Context (HeaderProxyFromAddrs : Z → Addr → Addr → Header).

Definition BuildProxyProtocolHeaderStruct (srcAddr dstAddr : Addr) (version : string) : Header :=
  HeaderProxyFromAddrs (if String.eqb version "v1" then 1 else 2) srcAddr dstAddr.

Record ConnectionInfo := mkConnectionInfo { ci_SrcAddr : Addr; ci_DstAddr : Addr; ci_Header : option Header }.

Inductive event :=
| EDial (addr : string)
| EWriteHeader (h : Header)
| ECloseWork
| ECloseLocal
| EPlugin (info : ConnectionInfo)
| EJoin (s : Streams).

Definition has_src (m : Msg.StartWorkConn) : bool :=
  negb (String.eqb (Msg.swc_SrcAddr m) "") && negb (Msg.swc_SrcPort m =? 0).

(** The message is shared by the streams of one tunnel and changed in place. *)
Definition complete_dst (m : Msg.StartWorkConn) : Msg.StartWorkConn :=
  if has_src m && String.eqb (Msg.swc_DstAddr m) ""
  then Msg.mkStartWorkConn (Msg.swc_ProxyName m) (Msg.swc_SrcAddr m) "127.0.0.1" (Msg.swc_SrcPort m) (Msg.swc_DstPort m)
         (Msg.swc_Error m) (Msg.swc_Protocol m)
  else m.

Definition connInfo (m : Msg.StartWorkConn) (version : string) : ConnectionInfo :=
  if has_src m then
    let src := Some (ResolveTCPAddr (JoinHostPort (Msg.swc_SrcAddr m) (Itoa (Msg.swc_SrcPort m)))) in
    let dst := Some (ResolveTCPAddr (JoinHostPort (Msg.swc_DstAddr m) (Itoa (Msg.swc_DstPort m)))) in
    mkConnectionInfo src dst
      (if String.eqb version "" then None else Some (BuildProxyProtocolHeaderStruct src dst version))
  else mkConnectionInfo None None None.

(** [HandleTCPWorkConnection]: the message afterwards and what happens, in order.
    [plugin] is whether the proxy has one; the other booleans are the outcomes of
    encryption, of dialling the local service and of writing the header. *)
Definition HandleTCPWorkConnection (b : ProxyBaseConfig) (plugin : bool) (m : Msg.StartWorkConn) (encKey : string)
    (enc_ok dial_ok write_ok : bool) : Msg.StartWorkConn * list event :=
  match wrapWorkConn b encKey enc_ok with
  | None => (m, [ECloseWork])
  | Some remote =>
      let m := complete_dst m in
      let info := connInfo m (ProxyProtocolVersion (Transport b)) in
      (m,
       if plugin then [EPlugin info]
       else
         EDial (JoinHostPort (LocalIP (Backend b)) (Itoa (LocalPort (Backend b)))) ::
         (if negb dial_ok then [ECloseWork]
          else match ci_Header info with
               | None => [EJoin remote]
               | Some h => if write_ok then [EWriteHeader h; EJoin remote] else [EWriteHeader h; ECloseWork; ECloseLocal]
               end))
  end.

(** [BaseProxy.InWorkConn]: [callback] is what the callback answers, if one is
    set. *)
Definition InWorkConn (b : ProxyBaseConfig) (callback : option bool) (plugin : bool) (m : Msg.StartWorkConn) (encKey : string)
    (enc_ok dial_ok write_ok : bool) : Msg.StartWorkConn * list event :=
  match callback with
  | Some false => (m, [])
  | _ => HandleTCPWorkConnection b plugin m encKey enc_ok dial_ok write_ok
  end.
End Handle.
Arguments EDial {TCPAddr Header}.
Arguments EWriteHeader {TCPAddr Header}.
Arguments ECloseWork {TCPAddr Header}.
Arguments ECloseLocal {TCPAddr Header}.
Arguments EPlugin {TCPAddr Header}.
Arguments EJoin {TCPAddr Header}.

(** ** Proofs: closing *)

(** The objects that are not shut yet. *)
Definition remaining (s : Streams) : nat := length (filter (λ o, o ∉ shut s) (seq 0 (length (objs s)))).

Lemma remaining_shut s o :
  (o < length (objs s))%nat → o ∉ shut s → (remaining (mkStreams (objs s) (var s) ({[o]} ∪ shut s)) < remaining s)%nat.
Proof.
  intros Ho Hs. unfold remaining. cbn [objs shut].
  assert (o ∈ seq 0 (length (objs s))) as Hin by (apply elem_of_seq; lia).
  apply list_elem_of_split in Hin as (l1 & l2 & ->). rewrite !filter_app, !length_app, !filter_cons.
  rewrite decide_False by set_solver. rewrite decide_True by done. cbn [length].
  assert (∀ l : list nat, (length (filter (λ o', o' ∉ {[o]} ∪ shut s) l) ≤ length (filter (λ o', o' ∉ shut s) l))%nat) as Hle.
  { intros l. induction l as [|x l IH]; [done|]. rewrite !filter_cons.
    destruct (decide (x ∉ {[o]} ∪ shut s)), (decide (x ∉ shut s)); cbn [length]; try lia; set_solver. }
  pose proof (Hle l1). pose proof (Hle l2). lia.
Qed.

(** More fuel than there are open objects changes nothing. *)
Lemma close_enough f1 f2 s o : (remaining s < f1)%nat → (remaining s < f2)%nat → close_go f1 s o = close_go f2 s o.
Proof.
  revert f2 s o. induction f1 as [|f1 IH]; intros [|f2] s o H1 H2; try lia. cbn [close_go].
  destruct (decide (o ∈ shut s)) as [|Ho]; [done|]. cbn [objs var].
  destruct (objs s !! o) as [x|] eqn:Hx; [|done].
  pose proof (remaining_shut s o (lookup_lt_Some _ _ _ Hx) Ho).
  destruct x; try done; apply IH; lia.
Qed.

Lemma remaining_le s : (remaining s ≤ length (objs s))%nat.
Proof. unfold remaining. rewrite <-(length_seq (length (objs s)) 0) at 2. apply length_filter. Qed.

Lemma close_shut s : var s ∈ shut s → Close s = s.
Proof. intros Hs. unfold Close. cbn [close_go]. by rewrite decide_True. Qed.

(** Closing a stream runs to its end: any fuel above the number of objects gives
    the same state. *)
Lemma Close_total s fuel : (length (objs s) < fuel)%nat → close_go fuel s (var s) = Close s.
Proof. intros Hf. pose proof (remaining_le s). apply close_enough; lia. Qed.

(** The client's stream, whatever it is wrapped in, and the server's without a
    bandwidth limit of its own are closed together with the work connection;
    closing again changes nothing. *)
Theorem stream_closes_conn (b : ProxyBaseConfig) (key : string) (ok : bool) (s : Streams) :
  wrapWorkConn b key ok = Some s ∨ (server_limiter b = false ∧ wrapServerConn b key ok = Some s) →
  0%nat ∈ shut (Close s) ∧ Close (Close s) = Close s ∧
  ∀ fuel, (length (objs s) < fuel)%nat → close_go fuel s (var s) = Close s.
Proof.
  intros Hs. split_and!; [| |intros fuel; apply Close_total].
  - unfold wrapWorkConn, wrapServerConn in Hs.
    destruct (client_limiter b), (server_limiter b), (UseEncryption (Transport b)), (UseCompression (Transport b)), ok;
      destruct Hs as [Hs | [? Hs]]; simplify_eq/=; apply (bool_decide_eq_true_1 _); by vm_compute.
  - apply close_shut. unfold wrapWorkConn, wrapServerConn in Hs.
    destruct (client_limiter b), (server_limiter b), (UseEncryption (Transport b)), (UseCompression (Transport b)), ok;
      destruct Hs as [Hs | [? Hs]]; simplify_eq/=; apply (bool_decide_eq_true_1 _); by vm_compute.
Qed.

(** With a bandwidth limit on the server, closing the stream, however often,
    does not close the work connection: the limited stream is closed by a function
    that closes the variable, and the variable holds that stream itself. *)
Theorem limited_stream_stays_open (b : ProxyBaseConfig) (key : string) (ok : bool) (s : Streams) :
  server_limiter b = true → wrapServerConn b key ok = Some s →
  ∀ n, 0%nat ∉ shut (Nat.iter n Close s).
Proof.
  intros Hl Hs. unfold wrapServerConn in Hs. rewrite Hl in Hs.
  assert (0%nat ∉ shut s ∧ 0%nat ∉ shut (Close s) ∧ var (Close s) ∈ shut (Close s)) as (H0 & H1 & H2).
  { destruct (UseEncryption (Transport b)), (UseCompression (Transport b)), ok; simplify_eq/=;
      split_and!; apply (bool_decide_eq_true_1 _); by vm_compute. }
  assert (∀ n, Nat.iter (S n) Close s = Close s) as Hn.
  { induction n as [|n IH]; [done|]. change (Close (Nat.iter (S n) Close s) = Close s). rewrite IH. by apply close_shut. }
  intros [|n]; [done|]. by rewrite Hn.
Qed.

(** ** Proofs: the two ends *)

Lemma server_view_transport c :
  Transport (GetBaseConfig (server_view c)) =
  let tr := Transport (GetBaseConfig c) in
  mkProxyTransport (UseEncryption tr) (UseCompression tr) (BandwidthLimit tr) (EmptyOr (BandwidthLimitMode tr) "client") "".
Proof. by destruct c. Qed.

(** frpc and the frps that knows what it was sent wrap a work connection in the
    same layers: encryption with the common key if it is configured, then
    compression. Bandwidth is limited at one end exactly if a limit is set, by the
    mode that is configured. *)
Theorem work_stream_agrees (c : ProxyConfigurer) (key : string) (s s' : Streams) :
  BandwidthLimitMode (Transport (GetBaseConfig c)) ∈ [BandwidthLimitModeClient; BandwidthLimitModeServer] →
  wrapWorkConn (GetBaseConfig c) key true = Some s →
  wrapServerConn (GetBaseConfig (server_view c)) key true = Some s' →
  let tr := Transport (GetBaseConfig c) in
  layers s = layers s' ∧
  layers s = (if UseCompression tr then [LComp] else []) ++ (if UseEncryption tr then [LEnc key] else []) ∧
  (limits s + limits s' = if (0 <? bq_i (BandwidthLimit tr))%Z then 1 else 0)%nat.
Proof.
  intros Hm Hs Hs'. unfold wrapWorkConn in Hs. unfold wrapServerConn in Hs'.
  unfold client_limiter in Hs. unfold server_limiter in Hs'. rewrite server_view_transport in Hs'. cbn zeta in *. cbn in Hs'.
  destruct (Transport (GetBaseConfig c)) as [ue uc q mode ppv]. cbn in *.
  rewrite !elem_of_cons in Hm. destruct Hm as [-> | [-> | []%not_elem_of_nil]]; cbn in *;
    destruct ue, uc, (0 <? bq_i q); simplify_eq/=; by vm_compute.
Qed.

(** ** Proofs: the handler *)

Lemma Cut_at a b c : ContainsChar a c = false → Cut (a +:+ String c b) c = Some (a, b).
Proof.
  induction a as [|d a IH]; simpl; [by rewrite Ascii.eqb_refl|].
  intros [Hd Ha]%orb_false_elim. rewrite Ascii.eqb_sym, Hd. by rewrite (IH Ha).
Qed.

Lemma CutPrefix_without s c : ContainsChar s c = false → CutPrefix s (String c "") = None.
Proof. destruct s as [|d s]; [done|]. simpl. by intros [-> _]%orb_false_elim. Qed.

Definition no_brackets (s : string) : bool := negb (ContainsChar s "[") && negb (ContainsChar s "]").

Lemma SplitHostPort_Join host port :
  no_brackets host = true → string_all is_digit port = true → SplitHostPort (JoinHostPort host port) = Ok (host, port).
Proof.
  intros [Ho%negb_true_iff Hc%negb_true_iff]%andb_prop Hp.
  assert (∀ c, is_digit c = false → ContainsChar port c = false) as Hport by (intros c; by apply string_all_contains).
  unfold JoinHostPort, SplitHostPort. destruct (ContainsChar host ":") eqn:Hcolon.
  - change ("[" +:+ host +:+ "]:" +:+ port) with (String "[" (host +:+ String "]" (String ":" port))).
    assert (ContainsChar (String "[" (host +:+ String "]" (String ":" port))) ":" = true) as ->.
    { cbn [ContainsChar]. rewrite ContainsChar_app, Hcolon. by rewrite !orb_true_r. }
    cbn [negb CutPrefix]. rewrite Ascii.eqb_refl, Cut_at by done. cbn [Ascii.eqb Bool.eqb negb].
    rewrite !ContainsChar_app, Ho. cbn [ContainsChar]. by rewrite !Hport.
  - change (host +:+ ":" +:+ port) with (host +:+ String ":" port).
    rewrite CutPrefix_without by (rewrite ContainsChar_app, Ho; cbn [ContainsChar]; by rewrite Hport).
    rewrite Cut_at by done. rewrite !ContainsChar_app, Hcolon, Ho, Hc. cbn [ContainsChar]. by rewrite !Hport.
Qed.

Lemma digits_go_le acc s n : digits_go acc s = Some n → (acc ≤ n)%N.
Proof.
  revert acc. induction s as [|c s IH]; intros acc; cbn [digits_go]; [by intros [= <-]|].
  destruct (between _ _ _); [|done]. intros H%IH. lia.
Qed.

Lemma parse_uint16_digits acc s n :
  digits_go acc s = Some n → Z.of_N n ≤ 65535 → UserConns.parse_uint16 (Z.of_N acc) s = Z.of_N n.
Proof.
  revert acc. induction s as [|c s IH]; intros acc; cbn [digits_go UserConns.parse_uint16]; [by intros [= <-]|].
  destruct (between _ _ _) eqn:Hb; [|done]. intros H Hn. pose proof (digits_go_le _ _ _ H).
  rewrite (proj2 (Z.ltb_ge _ _)) by lia. rewrite <-(IH _ H Hn). f_equal. lia.
Qed.

Lemma parse_uint16_Itoa n : 0 ≤ n ≤ 65535 → UserConns.parse_uint16 0 (Itoa n) = n.
Proof.
  intros Hn. destruct n as [|p|p]; [done| |lia]. destruct (pretty_pos_digits p) as [_ Hd].
  apply (parse_uint16_digits 0 _ (Npos p) Hd). lia.
Qed.

(** An address as the server passes it on. *)
Definition addr_text (a : string * Z) : string := JoinHostPort a.1 (Itoa a.2).
Definition addr_ok (a : string * Z) : Prop := a.1 ≠ "" ∧ no_brackets a.1 = true ∧ 0 < a.2 ≤ 65535.

Lemma addr_parts_text a : addr_ok a → UserConns.addr_parts (Some (addr_text a)) = a.
Proof.
  intros (_ & Hb & Hp). destruct a as [h p]. cbn in *. unfold addr_text. cbn.
  rewrite SplitHostPort_Join by (done || (apply Itoa_digits; lia)). by rewrite parse_uint16_Itoa by lia.
Qed.

Definition ends_work {TCPAddr Header} (e : event (TCPAddr:=TCPAddr) (Header:=Header)) : bool :=
  match e with ECloseWork | EPlugin _ | EJoin _ => true | _ => false end.
Definition ends_local {TCPAddr Header} (e : event (TCPAddr:=TCPAddr) (Header:=Header)) : bool :=
  match e with ECloseLocal | EJoin _ => true | _ => false end.
Definition dials {TCPAddr Header} (e : event (TCPAddr:=TCPAddr) (Header:=Header)) : bool :=
  match e with EDial _ => true | _ => false end.

Section HandleProofs.
Context {TCPAddr Header : Type} (ResolveTCPAddr : string → option TCPAddr)
  (HeaderProxyFromAddrs : Z → Addr (TCPAddr:=TCPAddr) → Addr (TCPAddr:=TCPAddr) → Header).

(** On every path the handler ends the work connection exactly once (it closes
    it, joins it or hands it to the plugin), and a connection to the local service,
    opened at most once and never beside a plugin, likewise. *)
Theorem tcp_conn_accounted b plugin m key enc_ok dial_ok write_ok :
  let evs := (HandleTCPWorkConnection ResolveTCPAddr HeaderProxyFromAddrs b plugin m key enc_ok dial_ok write_ok).2 in
  length (filter (λ e, ends_work e = true) evs) = 1%nat ∧
  length (filter (λ e, ends_local e = true) evs) = (if dial_ok then length (filter (λ e, dials e = true) evs) else 0%nat) ∧
  (length (filter (λ e, dials e = true) evs) ≤ if plugin then 0 else 1)%nat.
Proof.
  unfold HandleTCPWorkConnection. destruct (wrapWorkConn b key enc_ok) as [s|]; cbn [snd].
  - destruct plugin; [by destruct dial_ok|]. destruct dial_ok; [|repeat split; by apply Nat.leb_le]. cbn [negb].
    destruct (ci_Header _) as [h|]; [|repeat split; by apply Nat.leb_le]. destruct write_ok; repeat split; by apply Nat.leb_le.
  - destruct plugin, dial_ok; repeat split; by apply Nat.leb_le.
Qed.

(** The local service is told the address of the user who connected to the
    server: where a version of the PROXY protocol is configured, the header with
    the user's address and the server's (127.0.0.1:0 for HTTP, where it is not
    known) is written before anything else, and without one nothing is. *)
Theorem service_sees_user b pxy (user : string * Z) (listener : option (string * Z)) protocol key enc_ok s src dst :
  addr_ok user → (∀ l, listener = Some l → addr_ok l) →
  wrapWorkConn b key enc_ok = Some s →
  ResolveTCPAddr (addr_text user) = Some src →
  ResolveTCPAddr (default "127.0.0.1:0" (addr_text <$> listener)) = Some dst →
  let m := UserConns.startWorkConn pxy (Some (addr_text user)) (addr_text <$> listener) protocol in
  let version := ProxyProtocolVersion (Transport b) in
  (HandleTCPWorkConnection ResolveTCPAddr HeaderProxyFromAddrs b false m key enc_ok true true).2 =
  [EDial (JoinHostPort (LocalIP (Backend b)) (Itoa (LocalPort (Backend b))))] ++
  (if String.eqb version "" then []
   else [EWriteHeader (HeaderProxyFromAddrs (if String.eqb version "v1" then 1 else 2) (Some (Some src)) (Some (Some dst)))]) ++
  [EJoin s].
Proof using.
  intros Hu Hl Hs Hsrc Hdst. unfold HandleTCPWorkConnection. rewrite Hs. cbn zeta.
  unfold UserConns.startWorkConn. rewrite (addr_parts_text user Hu). destruct user as [ip port].
  destruct Hu as (Hip & _ & Hport). cbn [fst snd] in *.
  assert (∀ d, UserConns.addr_parts (addr_text <$> listener) = d →
    complete_dst (Msg.mkStartWorkConn (UserConns.b_name pxy) ip d.1 port d.2 "" protocol) =
    Msg.mkStartWorkConn (UserConns.b_name pxy) ip (default ("127.0.0.1", 0) listener).1 port
      (default ("127.0.0.1", 0) listener).2 "" protocol) as Hd.
  { intros d <-. unfold complete_dst, has_src. cbn.
    rewrite (proj2 (String.eqb_neq _ _) Hip), (proj2 (Z.eqb_neq _ _)) by lia. cbn.
    destruct listener as [l|]; [|done]. cbn [fmap option_fmap option_map]. rewrite addr_parts_text by auto. cbn [default].
    destruct (Hl l eq_refl) as (Hne & _). by rewrite (proj2 (String.eqb_neq _ _) Hne). }
  destruct (UserConns.addr_parts (addr_text <$> listener)) as [dh dp]. specialize (Hd _ eq_refl). cbn [fst snd] in Hd.
  rewrite Hd. unfold connInfo, has_src. cbn.
  rewrite (proj2 (String.eqb_neq _ _) Hip), (proj2 (Z.eqb_neq _ _)) by lia. cbn.
  change (JoinHostPort ip (Itoa port)) with (addr_text (ip, port)). rewrite Hsrc.
  assert (ResolveTCPAddr (JoinHostPort (default ("127.0.0.1", 0) listener).1 (Itoa (default ("127.0.0.1", 0) listener).2)) = Some dst) as ->.
  { destruct listener as [l|]; exact Hdst. }
  by destruct (String.eqb (ProxyProtocolVersion (Transport b)) "").
Qed.
End HandleProofs.

(** ** Witnesses *)

Definition demo_base (mode version : string) : ProxyBaseConfig :=
  mkProxyBase "web" "tcp" None ∅ (mkProxyTransport true true (mkBandwidthQuantity "1MB" MB) mode version) ∅ (mkLoadBalancer "" "")
    (mkHealthCheck "" 0 0 0 "" []) (mkProxyBackend "127.0.0.1" 80 zero_plugin).
Definition demo_stream (mode : string) : Streams := default work_conn (wrapWorkConn (demo_base mode "v2") "k" true).
Definition demo_server_stream (mode : string) : Streams := default work_conn (wrapServerConn (demo_base mode "v2") "k" true).

Lemma stream_closes_conn_witness : 0%nat ∈ shut (Close (demo_stream "client")) ∧ 0%nat ∈ shut (Close (demo_server_stream "client")).
Proof.
  split.
  - exact (proj1 (stream_closes_conn (demo_base "client" "v2") "k" true _ (or_introl eq_refl))).
  - exact (proj1 (stream_closes_conn (demo_base "client" "v2") "k" true _ (or_intror (conj eq_refl eq_refl)))).
Defined.

Lemma limited_stream_stays_open_witness : 0%nat ∉ shut (Close (Close (demo_server_stream "server"))).
Proof. exact (limited_stream_stays_open (demo_base "server" "v2") "k" true _ eq_refl eq_refl 2). Defined.

Lemma work_stream_agrees_witness :
  layers (demo_stream "client") = [LComp; LEnc "k"] ∧ (limits (demo_stream "client") + limits (demo_server_stream "client") = 1)%nat.
Proof.
  destruct (work_stream_agrees (CTCP (mkTCP (demo_base "client" "v2") 6000)) "k" (demo_stream "client") (demo_server_stream "client")
              ltac:(apply (bool_decide_eq_true_1 _); by vm_compute) eq_refl eq_refl) as (_ & Hl & Hn).
  by split.
Defined.

(** Addresses as texts, and headers as what they are made of. *)
Definition demo_header (v : Z) (a b : Addr (TCPAddr:=string)) : Z * Addr (TCPAddr:=string) * Addr (TCPAddr:=string) := (v, a, b).

Lemma service_sees_user_witness :
  (HandleTCPWorkConnection Some demo_header (demo_base "client" "v2") false
     (UserConns.startWorkConn (UserConns.demo_base 1) (Some "[2001:db8::7]:40000") (Some "198.51.100.2:6000") "") "k" true true true).2 =
  [EDial "127.0.0.1:80"; EWriteHeader (2, Some (Some "[2001:db8::7]:40000"), Some (Some "198.51.100.2:6000"));
   EJoin (demo_stream "client")].
Proof.
  exact (service_sees_user Some demo_header (demo_base "client" "v2") (UserConns.demo_base 1) ("2001:db8::7", 40000)
           (Some ("198.51.100.2", 6000)) "" "k" true (demo_stream "client") _ _
           ltac:(split_and!; [done|done|cbn; lia|cbn; lia])
           ltac:(intros l [= <-]; split_and!; [done|done|cbn; lia|cbn; lia]) eq_refl eq_refl eq_refl).
Defined.

End WorkStreams.
