(* ===== verification/ClientConns.v ===== *)
(** Work connections of the client's packet proxies, client/proxy: those that
    replace one another in udp.go, tcpudp.go and pe.go, those with goroutines and
    channels of their own in sudp.go, stcpsudp.go, xudp.go and xtcpxudp.go, the
    choice of a handler, and the hole punching of xtcp.go, xudp.go and xtcpxudp.go
    around [PunchHole].

    A call of [InWorkConn] runs in a goroutine of its own: its pieces between two
    locks are steps, interleaved with those of other calls and with [Close]. The
    two channels a call makes are named by its work connection. *)
From Stdlib Require Import ZArith Lia Ascii String Strings.Byte.
From stdpp Require Import base gmap strings list fin_maps fin_sets relations.
From S2P Require Import Prelude GoLib Wire Msg Ports ConfigTypes Config ClientProxies Nathole PunchHole.

Local Open Scope Z_scope.
Local Open Scope frp_scope.

Module ClientConns.
Import ConfigTypes Config.

(** ** udp, tcp+udp and pe: one work connection at a time *)

(** A channel: the connection it was made for, and whether it is [sendCh]. *)
Definition chan : Type := nat * bool.

(** The goroutines a call starts, with the channels they were given. *)
Inductive goroutine :=
| GSender (conn : nat) (ch : chan)
| GReader (conn : nat) (ch : chan)
| GHeartbeat (ch : chan)
| GForwarder (readCh sendCh : chan).

(** Where a call of [InWorkConn] is: after closing what was there, or after
    installing its own, with the number of goroutines started so far. *)
Inductive call_pc := Wrapping | Starting (started : nat).

Record Pxy := mkPxy {
  conns : gset nat;           (* the work connections that are open *)
  chans : gset chan;          (* the channels that are open *)
  workConn : option nat; readCh : option chan; sendCh : option chan; closed : bool;
  panicked : bool;            (* a channel was closed twice *)
  next : nat;
  calls : gmap nat call_pc;
  running : list goroutine }.

Definition new_pxy : Pxy := mkPxy ∅ ∅ None None None false false 0 ∅ [].

Definition close_conn (p : Pxy) (c : option nat) : Pxy :=
  match c with
  | Some c => mkPxy (conns p ∖ {[c]}) (chans p) (workConn p) (readCh p) (sendCh p) (closed p) (panicked p) (next p) (calls p) (running p)
  | None => p
  end.

Definition close_chan (p : Pxy) (c : option chan) : Pxy :=
  match c with
  | Some c =>
      mkPxy (conns p) (chans p ∖ {[c]}) (workConn p) (readCh p) (sendCh p) (closed p)
        (panicked p || negb (bool_decide (c ∈ chans p))) (next p) (calls p) (running p)
  | None => p
  end.

Definition set_closed (p : Pxy) : Pxy :=
  mkPxy (conns p) (chans p) (workConn p) (readCh p) (sendCh p) true (panicked p) (next p) (calls p) (running p).

(** [Close], and [closeWorkConn] of pe.go. *)
Definition Close (p : Pxy) : Pxy :=
  if closed p then p
  else
    let q := close_conn (set_closed p) (workConn p) in
    close_chan (close_chan q (readCh q)) (sendCh q).

Definition set_call (p : Pxy) (c : nat) (pc : option call_pc) : Pxy :=
  mkPxy (conns p) (chans p) (workConn p) (readCh p) (sendCh p) (closed p) (panicked p) (next p)
    (partial_alter (λ _, pc) c (calls p)) (running p).

(** A work connection comes in: the old one is closed. *)
Definition arrive (p : Pxy) : Pxy :=
  let c := next p in
  set_call (Close (mkPxy ({[c]} ∪ conns p) (chans p) (workConn p) (readCh p) (sendCh p) (closed p) (panicked p) (S c)
                     (calls p) (running p))) c (Some Wrapping).

(** [wrapWorkConn], which closes the connection if it fails, and the lines under
    the lock. *)
Definition install (p : Pxy) (c : nat) (ok : bool) : Pxy :=
  if ok
  then mkPxy (conns p) ({[(c, false); (c, true)]} ∪ chans p) (Some c) (Some (c, false)) (Some (c, true)) false (panicked p)
         (next p) (<[c := Starting 0]> (calls p)) (running p)
  else close_conn (set_call p c None) (Some c).

(** The next goroutine is started with the fields as they are now, without the
    lock; [Forwarder] is the last. *)
Definition started_goroutine (p : Pxy) (c : nat) (n : nat) : option goroutine :=
  match readCh p, sendCh p with
  | Some r, Some s =>
      match n with
      | 0%nat => Some (GSender c s) | 1%nat => Some (GReader c r) | 2%nat => Some (GHeartbeat s) | 3%nat => Some (GForwarder r s)
      | _ => None
      end
  | _, _ => None
  end.

Definition start (p : Pxy) (c : nat) (n : nat) : Pxy :=
  match started_goroutine p c n with
  | Some g =>
      mkPxy (conns p) (chans p) (workConn p) (readCh p) (sendCh p) (closed p) (panicked p) (next p)
        (if (n =? 3)%nat then delete c (calls p) else <[c := Starting (S n)]> (calls p)) (running p ++ [g])
  | None => p
  end.

Inductive pstep : Pxy → Pxy → Prop :=
| pstep_close p : pstep p (Close p)
| pstep_arrive p : pstep p (arrive p)
| pstep_install p c ok : calls p !! c = Some Wrapping → pstep p (install p c ok)
| pstep_start p c n : calls p !! c = Some (Starting n) → pstep p (start p c n).

Definition preachable (p : Pxy) : Prop := rtc pstep new_pxy p.

(** A whole call that no other one overlaps. *)
Definition InWorkConn (p : Pxy) (ok : bool) : Pxy :=
  let c := next p in
  let p := install (arrive p) c ok in
  if ok then start (start (start (start p c 0) c 1) c 2) c 3 else p.

(** ** sudp, stcp+sudp, xudp and xtcp+xudp: a relay per connection *)

(** [watch] is whether the goroutines look at [closeCh] of the proxy: sudp and
    stcp+sudp. [twice] is a channel that was closed twice. *)
Record Relay := mkRelay {
  closeCh : bool; isClose : bool; r_conn : bool; r_readCh : bool; r_sendCh : bool; twice : bool;
  reader : bool; sender : bool; heartbeat : bool }.

Definition new_relay (closeCh : bool) : Relay := mkRelay closeCh false true true true false true true true.

Definition closeFn (r : Relay) : Relay :=
  if isClose r then r
  else mkRelay (closeCh r) true false false false (twice r || negb (r_readCh r) || negb (r_sendCh r))
         (reader r) (sender r) (heartbeat r).

Definition end_reader (r : Relay) : Relay :=
  let r := closeFn r in mkRelay (closeCh r) (isClose r) (r_conn r) (r_readCh r) (r_sendCh r) (twice r) false (sender r) (heartbeat r).
Definition end_sender (r : Relay) : Relay :=
  let r := closeFn r in mkRelay (closeCh r) (isClose r) (r_conn r) (r_readCh r) (r_sendCh r) (twice r) (reader r) false (heartbeat r).
Definition end_heartbeat (r : Relay) : Relay :=
  let r := closeFn r in mkRelay (closeCh r) (isClose r) (r_conn r) (r_readCh r) (r_sendCh r) (twice r) (reader r) (sender r) false.

(** [Close] of the proxy. *)
Definition relay_Close (r : Relay) : Relay :=
  mkRelay true (isClose r) (r_conn r) (r_readCh r) (r_sendCh r) (twice r) (reader r) (sender r) (heartbeat r).

(** The steps a goroutine takes by itself: the reader finds the proxy or the
    connection closed, the sender the channel, the heartbeat the channel (its send
    panics, which is caught) or the proxy. *)
Inductive ending (watch : bool) : Relay → Relay → Prop :=
| end_reader_sees r : reader r = true → watch = true → closeCh r = true → ending watch r (end_reader r)
| end_reader_conn r : reader r = true → r_conn r = false → ending watch r (end_reader r)
| end_reader_panics r : reader r = true → r_readCh r = false → ending watch r (end_reader r)
| end_sender_drained r : sender r = true → r_sendCh r = false → ending watch r (end_sender r)
| end_ping_panics r : heartbeat r = true → r_sendCh r = false → ending watch r (end_heartbeat r)
| end_heartbeat_sees r : heartbeat r = true → watch = true → closeCh r = true → ending watch r (end_heartbeat r).

(** Besides, the proxy may be closed, and a read or a write on the connection may
    fail. The steps that pass a packet on change nothing here. *)
Inductive rstep (watch : bool) : Relay → Relay → Prop :=
| rstep_ending r r' : ending watch r r' → rstep watch r r'
| rstep_proxy_close r : watch = true → rstep watch r (relay_Close r)
| rstep_read_fails r : reader r = true → rstep watch r (end_reader r)
| rstep_write_fails r : sender r = true → rstep watch r (end_sender r).

(** ** Which handler serves a work connection *)

Inductive handler :=
| HTCP                          (* [HandleTCPWorkConnection] *)
| HPackets (localPort : Z)      (* one work connection at a time *)
| HRelay (localPort : Z)
| HBedrock                      (* the packets go to the local router *)
| HNatHole
| HClosed.

(** The first byte of a tagged stream. *)
Definition streamTagTCP : byte := "001"%byte.
Definition streamTagUDP : byte := "002"%byte.

Definition udp_port (b : ProxyBaseConfig) (portUDP : Z) : Z := if portUDP =? 0 then LocalPort (Backend b) else portUDP.

Definition handleStream (udp : handler) (bytes : list byte) : handler * list byte :=
  match bytes with
  | [] => (HClosed, [])
  | tag :: rest =>
      if Byte.eqb tag streamTagTCP then (HTCP, rest) else if Byte.eqb tag streamTagUDP then (udp, rest) else (HClosed, rest)
  end.

(** [StartWorkConnProtocolNatHole] *)
Definition ProtocolNatHole : string := "nathole".

(** [InWorkConn] of the proxy made for a configuration ([proxyFactoryRegistry]):
    the handler, and the bytes it finds on the connection. *)
Definition dispatch (c : ProxyConfigurer) (protocol : string) (bytes : list byte) : handler * list byte :=
  match c with
  | CTCP _ | CHTTP _ | CHTTPS _ | CSTCP _ | CTCPMux _ | CMC _ => (HTCP, bytes)
  | CUDP c => (HPackets (LocalPort (Backend (udp_base c))), bytes)
  | CTCPUDP c =>
      (if String.eqb protocol "udp" then HPackets (udp_port (tu_base c) (tu_LocalPortUDP c)) else HTCP, bytes)
  | CPE _ => (HBedrock, bytes)
  | CSUDP c => (HRelay (LocalPort (Backend (sudp_base c))), bytes)
  | CSTCPSUDP c => handleStream (HRelay (udp_port (ss_base c) (ss_LocalPortUDP c))) bytes
  | CXTCP _ | CXUDP _ => (HNatHole, bytes)
  | CXTCPXUDP c =>
      if String.eqb protocol ProtocolNatHole then (HNatHole, bytes)
      else handleStream (HRelay (udp_port (xx_base c) (xx_LocalPortUDP c))) bytes
  end.

(** ** The tunnel of xtcp, xudp and xtcp+xudp proxies *)

(** A socket: one of those [MakeHole] listens on, 0 being that of [Prepare], or the
    one that is dialled for KCP. *)
Inductive sock := Listening (k : nat) | Dialled.

#[export] Instance sock_eq_dec : EqDecision sock.
Proof. solve_decision. Defined.

Inductive pevent :=
| POpen (s : sock) | PClose (s : sock)
| PSendClient (m : Msg.NatHoleClient) | PReport (m : Msg.NatHoleReport)
| PServe (streams : nat) | PCloseSession | PCloseWork.

(** What the two ways to serve depend on: whether each piece can be set up, and how
    many streams come before the tunnel ends. *)
Definition listenByKCP (k : nat) (dial_ok kcp_ok mux_ok : bool) (streams : nat) : list pevent :=
  PClose (Listening k) ::
  (if dial_ok
   then [POpen Dialled] ++ (if kcp_ok && mux_ok then [PServe streams; PCloseSession] else []) ++ [PClose Dialled]
   else []).

Definition listenByQUIC (k : nat) (tls_ok listen_ok accept_ok : bool) (streams : nat) : list pevent :=
  (if tls_ok && listen_ok && accept_ok then [PServe streams; PCloseSession] else []) ++ [PClose (Listening k)].

(** [InWorkConn] of xtcp and xudp, [runNatHole] of xtcp+xudp. [sid] is the message
    of the server on the connection, [prep] the outcome of [Prepare], [answer] what
    came back to [ExchangeInfo], [hole] the socket and the address [MakeHole]
    found; deferred calls come last. *)
Definition runNatHole (user name transactionID : string) (sid : option Msg.NatHoleSid) (prep : res PunchHole.nat_error PunchHole.PrepareResult)
    (answer : option Msg.Message) (hole : option (nat * string)) (ok1 ok2 ok3 : bool) (streams : nat) : list pevent :=
  match sid, prep with
  | Some sid, Ok pr =>
      POpen (Listening 0) ::
      PSendClient (Msg.mkNatHoleClient transactionID (ClientProxies.AddUserPrefix user name) (Msg.nhs_Sid sid)
                     (PunchHole.Addrs pr) (PunchHole.AssistedAddrs pr)) ::
      (match PunchHole.ExchangeInfo answer with
       | Err _ => []
       | Ok resp =>
           match hole with
           | None => [PClose (Listening 0); PReport (Msg.mkNatHoleReport (Msg.nhr_Sid resp) false)]
           | Some (k, raddr) =>
               POpen (Listening k) :: PReport (Msg.mkNatHoleReport (Msg.nhr_Sid resp) true) ::
               (if String.eqb (Msg.nhr_Protocol resp) "kcp" then listenByKCP k ok1 ok2 ok3 streams
                else listenByQUIC k ok1 ok2 ok3 streams)
           end
       end) ++ [PClose (Listening 0); PCloseWork]
  | _, _ => [PCloseWork]
  end.

(** ** Proofs: one work connection at a time *)

(** The fields belong to one connection, whose channels are open until [Close]. *)
Record pxy_inv (p : Pxy) : Prop := {
  pi_panic : panicked p = false;
  pi_read : readCh p = (λ c, (c, false)) <$> workConn p;
  pi_send : sendCh p = (λ c, (c, true)) <$> workConn p;
  pi_open : ∀ c, workConn p = Some c → closed p = false → (c, false) ∈ chans p ∧ (c, true) ∈ chans p;
  pi_calls : ∀ c pc, calls p !! c = Some pc → (c < next p)%nat }.

Lemma pxy_Close_eq p :
  pxy_inv p → closed p = false →
  Close p = mkPxy (from_option (λ c, conns p ∖ {[c]}) (conns p) (workConn p))
              (from_option (λ c, chans p ∖ {[(c, false)]} ∖ {[(c, true)]}) (chans p) (workConn p))
              (workConn p) (readCh p) (sendCh p) true false (next p) (calls p) (running p).
Proof.
  intros I Hc. unfold Close. rewrite Hc. destruct (workConn p) as [c|] eqn:Hw; cbn.
  - rewrite (pi_read _ I), (pi_send _ I), (pi_panic _ I), Hw. cbn.
    destruct (pi_open _ I c Hw Hc) as [Hr Hs].
    rewrite (bool_decide_eq_true_2 ((c, false) ∈ chans p)) by done.
    by rewrite (bool_decide_eq_true_2 ((c, true) ∈ chans p ∖ {[(c, false)]})) by set_solver.
  - rewrite (pi_read _ I), (pi_send _ I), Hw. cbn. unfold set_closed. by rewrite (pi_read _ I), (pi_send _ I), (pi_panic _ I), Hw.
Qed.

Lemma pxy_inv_Close p : pxy_inv p → pxy_inv (Close p) ∧ closed (Close p) = true.
Proof.
  intros I. destruct (closed p) eqn:Hc.
  - assert (Close p = p) as -> by (unfold Close; by rewrite Hc). done.
  - rewrite (pxy_Close_eq p I Hc). destruct I. split; [constructor|]; done.
Qed.

Lemma pxy_inv_arrive p : pxy_inv p → pxy_inv (arrive p) ∧ closed (arrive p) = true.
Proof.
  intros I. unfold arrive. set (q := mkPxy _ _ _ _ _ _ _ _ _ _).
  assert (pxy_inv q) as J. { destruct I. constructor; try done. intros c pc Hc. cbn in *. specialize (pi_calls0 _ _ Hc). lia. }
  assert (next (Close q) = S (next p)) as Hn.
  { unfold Close. destruct (closed q) eqn:Hq; [done|]. unfold close_conn, set_closed.
    destruct (workConn q), (readCh q), (sendCh q); done. }
  assert (calls (Close q) = calls p) as Hcalls.
  { unfold Close. destruct (closed q) eqn:Hq; [done|]. unfold close_conn, set_closed.
    destruct (workConn q), (readCh q), (sendCh q); done. }
  destruct (pxy_inv_Close q J) as [[A B C D E] F]. split; [constructor|]; try done.
  intros c pc. cbn [calls next set_call]. rewrite Hn, Hcalls.
  destruct (decide (c = next p)) as [->|Hne]; [lia|]. rewrite lookup_partial_alter_ne by done.
  intros Hc%(pi_calls _ I). lia.
Qed.

Lemma pxy_inv_install p c ok : pxy_inv p → (c < next p)%nat → pxy_inv (install p c ok).
Proof.
  intros [A B C D E] Hc. destruct ok; cbn; constructor; try done; cbn.
  - intros ? [= <-] _. set_solver.
  - intros c' pc. destruct (decide (c' = c)) as [->|?]; [lia|]. rewrite lookup_insert_ne by done. apply E.
  - intros c' pc. destruct (decide (c' = c)) as [->|?]; [lia|]. rewrite lookup_partial_alter_ne by done. apply E.
Qed.

Lemma pxy_inv_start p c n : pxy_inv p → (c < next p)%nat → pxy_inv (start p c n).
Proof.
  intros I Hc. unfold start. destruct (started_goroutine p c n); [|done]. destruct I. constructor; try done. cbn.
  intros c' pc. destruct (n =? 3)%nat.
  - intros [_ ?]%lookup_delete_Some. eauto.
  - destruct (decide (c' = c)) as [->|?]; [lia|]. rewrite lookup_insert_ne by done. eauto.
Qed.

Lemma pxy_inv_step p p' : pxy_inv p → pstep p p' → pxy_inv p'.
Proof.
  intros I Hs. revert I. destruct Hs as [q|q|q c ok H|q c n H]; intros I.
  - by apply pxy_inv_Close.
  - by apply pxy_inv_arrive.
  - apply pxy_inv_install; [done|]. by eapply (pi_calls _ I).
  - apply pxy_inv_start; [done|]. by eapply (pi_calls _ I).
Qed.

Lemma pxy_inv_reachable p : preachable p → pxy_inv p.
Proof.
  intros H. unfold preachable in H. remember new_pxy as q eqn:Hq.
  assert (pxy_inv q) as I by (subst; by constructor). clear Hq.
  induction H as [|a b c Hab _ IH]; [done|]. apply IH. by eapply pxy_inv_step.
Qed.

(** However calls of [InWorkConn] and [Close] of one packet proxy interleave, no
    channel is closed twice (which would panic), and the fields hold the two
    channels of one work connection, open until the proxy closes them. *)
Theorem packet_channels_closed_once (p : Pxy) :
  preachable p →
  panicked p = false ∧ panicked (Close p) = false ∧ closed (Close p) = true ∧
  readCh p = (λ c, (c, false)) <$> workConn p ∧ sendCh p = (λ c, (c, true)) <$> workConn p ∧
  ∀ c, workConn p = Some c → closed p = false → (c, false) ∈ chans p ∧ (c, true) ∈ chans p.
Proof.
  intros I%pxy_inv_reachable. destruct (pxy_inv_Close p I) as [[J _ _ _ _] Hc]. destruct I. by split_and!.
Qed.

(** *** Calls that do not overlap *)

Inductive op := OClose | OWork (ok : bool).
Definition run_op (p : Pxy) (o : op) : Pxy := match o with OClose => Close p | OWork ok => InWorkConn p ok end.

(** What is open is what the fields name. *)
Definition tidy (p : Pxy) : Prop :=
  pxy_inv p ∧ (∀ c, workConn p = Some c → (c < next p)%nat) ∧
  conns p = (if closed p then ∅ else from_option (λ c, {[c]}) ∅ (workConn p)) ∧
  chans p = (if closed p then ∅ else from_option (λ c, {[(c, false); (c, true)]}) ∅ (workConn p)).

Lemma tidy_Close p : tidy p → tidy (Close p) ∧ conns (Close p) = ∅ ∧ chans (Close p) = ∅ ∧ closed (Close p) = true ∧ next (Close p) = next p.
Proof.
  intros (I & Hw & Hc & Hch). destruct (closed p) eqn:Hcl.
  - assert (Close p = p) as -> by (unfold Close; by rewrite Hcl). split; [|done]. unfold tidy. by rewrite Hcl.
  - destruct (pxy_inv_Close p I) as [J _]. revert J. rewrite (pxy_Close_eq p I Hcl). intros J.
    assert (∀ q, conns q = ∅ → chans q = ∅ → closed q = true → workConn q = workConn p → next q = next p → pxy_inv q → tidy q) as Ht.
    { intros q H1 H2 H3 H4 H5 H6. unfold tidy. by rewrite H1, H2, H3, H4, H5. }
    rewrite Hc, Hch in *. destruct (workConn p) as [c|]; cbn in *.
    + assert (({[c]} : gset nat) ∖ {[c]} = ∅) as E1 by set_solver.
      assert (({[(c, false); (c, true)]} : gset chan) ∖ {[(c, false)]} ∖ {[(c, true)]} = ∅) as E2 by set_solver.
      rewrite E1, E2 in *. split; [by apply Ht|done].
    + split; [by apply Ht|done].
Qed.

Lemma arrive_eq p :
  tidy p → arrive p = mkPxy {[next p]} ∅ (workConn p) (readCh p) (sendCh p) true false (S (next p))
                        (<[next p := Wrapping]> (calls p)) (running p).
Proof.
  intros (I & Hw & Hc & Hch).
  assert (∀ k : gset nat, pxy_inv (mkPxy k (chans p) (workConn p) (readCh p) (sendCh p) (closed p) (panicked p) (S (next p))
                         (calls p) (running p))) as J.
  { intros k. destruct I. constructor; try done. intros c pc H. cbn in *. specialize (pi_calls0 _ _ H). lia. }
  specialize (J ({[next p]} ∪ conns p)).
  destruct (closed p) eqn:Hcl; unfold arrive; rewrite Hcl; set (q := mkPxy _ _ _ _ _ _ _ _ _ _) in *.
  - change (Close q) with q. unfold q, set_call. cbn.
    rewrite Hc, Hch, (pi_panic _ I). f_equal. set_solver.
  - rewrite (pxy_Close_eq q J eq_refl). unfold q, set_call. cbn. rewrite Hc, Hch. f_equal.
    + destruct (workConn p) as [c|]; cbn; [|set_solver]. specialize (Hw c eq_refl).
      apply set_eq. intros x. rewrite elem_of_difference, elem_of_union, !elem_of_singleton. split; [naive_solver|].
      intros ->. split; [by left|lia].
    + destruct (workConn p) as [c|]; cbn; [set_solver|done].
Qed.

Lemma tidy_start p c n : tidy p ∧ (c < next p)%nat → tidy (start p c n) ∧ (c < next (start p c n))%nat.
Proof.
  intros [(I & Hw & Hc & Hch) Hn]. pose proof (pxy_inv_start p c n I Hn) as J. unfold tidy.
  assert (conns (start p c n) = conns p ∧ chans (start p c n) = chans p ∧ workConn (start p c n) = workConn p ∧
          closed (start p c n) = closed p ∧ next (start p c n) = next p) as (-> & -> & -> & -> & ->).
  { unfold start. by destruct (started_goroutine p c n). }
  by split_and!.
Qed.

Lemma tidy_InWorkConn p ok : tidy p → tidy (InWorkConn p ok).
Proof.
  intros Ht. pose proof (pxy_inv_arrive p (proj1 Ht)) as [Ia _]. unfold InWorkConn. rewrite (arrive_eq p Ht) in *.
  destruct Ht as (I & Hw & _ & _). destruct ok.
  - do 4 apply tidy_start. split; [|cbn; lia].
    split; [apply pxy_inv_install; [done|cbn; lia]|]. cbn. split_and!; [intros ? [= <-]; lia|done|set_solver].
  - split; [apply pxy_inv_install; [done|cbn; lia]|]. cbn. split_and!; [intros c ?%Hw; lia|set_solver|done].
Qed.

(** While calls do not overlap, the connections and channels that are open are
    those of the last work connection; each new one closes the one before, and
    [Close] leaves nothing open. *)
Theorem packet_conns_tidy (ops : list op) :
  let p := foldl run_op new_pxy ops in
  conns p = (if closed p then ∅ else from_option (λ c, {[c]}) ∅ (workConn p)) ∧
  chans p = (if closed p then ∅ else from_option (λ c, {[(c, false); (c, true)]}) ∅ (workConn p)) ∧
  conns (Close p) = ∅ ∧ chans (Close p) = ∅ ∧
  (∀ c, closed p = false → workConn p = Some c → workConn (InWorkConn p true) ≠ Some c).
Proof.
  assert (∀ p, tidy p → tidy (foldl run_op p ops)) as Hrun.
  { induction ops as [|o ops IH]; intros p Hp; [done|]. apply IH. destruct o; [by apply tidy_Close|by apply tidy_InWorkConn]. }
  specialize (Hrun new_pxy). cbn zeta. set (p := foldl run_op new_pxy ops) in *.
  assert (tidy p) as Hp by (apply Hrun; split; [by constructor|by split_and!]).
  destruct (tidy_Close p Hp) as (_ & H1 & H2 & _). pose proof Hp as (I & Hw & Hc & Hch).
  split_and!; [done|done|done|done|]. intros c _ Hcw. unfold InWorkConn. rewrite (arrive_eq p Hp). cbn.
  unfold start, started_goroutine. cbn. intros [= Heq]. specialize (Hw c Hcw). lia.
Qed.

(** *** Calls that overlap *)

(** A connection that is open, with its channels, and that nothing refers to. *)
Definition lost (p : Pxy) (c : nat) : Prop :=
  c ∈ conns p ∧ (c, false) ∈ chans p ∧ (c, true) ∈ chans p ∧
  workConn p ≠ Some c ∧ (c < next p)%nat ∧ calls p !! c ≠ Some Wrapping.

Lemma lost_Close p c : pxy_inv p → lost p c → lost (Close p) c.
Proof.
  intros I L. destruct (closed p) eqn:Hc; [unfold Close; by rewrite Hc|].
  rewrite (pxy_Close_eq p I Hc). destruct L as (H1 & H2 & H3 & H4 & H5 & H6). unfold lost. cbn.
  destruct (workConn p) as [w|]; cbn; [|done]. assert (w ≠ c) by congruence. split_and!; [set_solver..|congruence|done|done].
Qed.

Lemma lost_step p p' c : pxy_inv p → pstep p p' → lost p c → lost p' c.
Proof.
  intros I Hs. revert I. destruct Hs as [q|q|q d ok H|q d n H]; intros I L.
  - by apply lost_Close.
  - unfold arrive. set (r := mkPxy _ _ _ _ _ _ _ _ _ _). destruct L as (H1 & H2 & H3 & H4 & H5 & H6).
    assert (pxy_inv r) as J. { destruct I. constructor; try done. intros x pc Hx. cbn in *. specialize (pi_calls0 _ _ Hx). lia. }
    assert (lost r c) as L by (unfold lost; cbn; split_and!; [set_solver|done..|lia|done]).
    destruct (lost_Close r c J L) as (G1 & G2 & G3 & G4 & G5 & G6). unfold lost. cbn.
    split_and!; [done..|]. rewrite lookup_partial_alter_ne by lia. done.
  - destruct L as (H1 & H2 & H3 & H4 & H5 & H6). assert (d ≠ c) by congruence. unfold install, lost. destruct ok; cbn.
    + split_and!; [done|set_solver|set_solver|congruence|done|by rewrite lookup_insert_ne].
    + split_and!; [set_solver|done..|by rewrite lookup_partial_alter_ne].
  - destruct L as (H1 & H2 & H3 & H4 & H5 & H6). unfold start. destruct (started_goroutine q d n); [|done].
    unfold lost. cbn. split_and!; [done..|]. destruct (n =? 3)%nat.
    + intros [_ ?]%lookup_delete_Some. done.
    + destruct (decide (d = c)) as [->|?]; [by rewrite lookup_insert_eq|by rewrite lookup_insert_ne].
Qed.

Lemma lost_forever p p' c : pxy_inv p → rtc pstep p p' → lost p c → lost p' c.
Proof.
  intros I H. revert I. induction H as [|a b d Hab _ IH]; intros I L; [done|].
  apply IH; [by eapply pxy_inv_step|by eapply lost_step].
Qed.

(** Two calls that overlap, and the proxy closed afterwards. *)
Definition overlapped : Pxy :=
  let p := install (install (arrive (arrive new_pxy)) 0 true) 1 true in
  let p := start (start (start (start p 0 0) 0 1) 0 2) 0 3 in
  Close (start (start (start (start p 1 0) 1 1) 1 2) 1 3).

Local Ltac pstart c n := eapply rtc_l; [by apply (pstep_start _ c n)|].

Lemma overlapped_reachable : preachable overlapped.
Proof.
  unfold preachable, overlapped.
  eapply rtc_l; [apply pstep_arrive|]. eapply rtc_l; [apply pstep_arrive|].
  eapply rtc_l; [by apply (pstep_install _ 0 true)|]. eapply rtc_l; [by apply (pstep_install _ 1 true)|].
  pstart 0%nat 0%nat. pstart 0%nat 1%nat. pstart 0%nat 2%nat. pstart 0%nat 3%nat.
  pstart 1%nat 0%nat. pstart 1%nat 1%nat. pstart 1%nat 2%nat. pstart 1%nat 3%nat.
  apply rtc_once, pstep_close.
Qed.

(** Two work connections whose calls overlap leave the first one open for ever,
    with its channels and goroutines, and its sender takes the packets of the
    second; and a call that overlaps [Close] opens the closed proxy again. *)
Theorem overlapping_calls_leak :
  (∃ p, preachable p ∧ closed p = true ∧ GSender 0 (1%nat, true) ∈ running p ∧
     ∀ p', rtc pstep p p' → 0%nat ∈ conns p' ∧ (0%nat, false) ∈ chans p' ∧ (0%nat, true) ∈ chans p') ∧
  (let p := install (Close (arrive new_pxy)) 0 true in
   preachable p ∧ closed p = false ∧ conns p = {[0%nat]}).
Proof.
  split.
  - exists overlapped. split_and!; [apply overlapped_reachable|done|apply list_elem_of_In; vm_compute; tauto|].
    intros p' H.
    assert (lost overlapped 0) as L.
    { unfold lost. split_and!; apply (bool_decide_eq_true_1 _); by vm_compute. }
    destruct (lost_forever _ _ _ (pxy_inv_reachable _ overlapped_reachable) H L) as (? & ? & ? & _). done.
  - cbn zeta. split_and!; [|done|apply (bool_decide_eq_true_1 _); by vm_compute].
    eapply rtc_l; [apply pstep_arrive|]. eapply rtc_l; [apply pstep_close|]. by apply rtc_once, (pstep_install _ 0 true).
Qed.

(** ** Proofs: relays *)

Definition relay_inv (r : Relay) : Prop :=
  twice r = false ∧ r_conn r = negb (isClose r) ∧ r_readCh r = negb (isClose r) ∧ r_sendCh r = negb (isClose r) ∧
  (isClose r = false → reader r = true ∧ sender r = true ∧ heartbeat r = true).

Lemma relay_inv_step watch r r' : relay_inv r → rstep watch r r' → relay_inv r'.
Proof.
  intros (H1 & H2 & H3 & H4 & H5) Hs. revert H1 H2 H3 H4 H5. destruct r as [cc ic co rc sc tw rd se hb].
  inversion Hs as [? ? He| | |]; [inversion He|..]; subst; cbn in *; intros; subst; destruct ic; unfold relay_inv; cbn; naive_solver.
Qed.

Lemma relay_inv_reachable watch c r : rtc (rstep watch) (new_relay c) r → relay_inv r.
Proof.
  intros H. remember (new_relay c) as q eqn:Hq. assert (relay_inv q) as I by (subst; by unfold relay_inv). clear Hq.
  induction H as [|a b d Hab _ IH]; [done|]. apply IH. by eapply relay_inv_step.
Qed.

(** The goroutines that still run. *)
Definition alive (r : Relay) : nat :=
  (if reader r then 1 else 0) + (if sender r then 1 else 0) + (if heartbeat r then 1 else 0).

Lemma closeFn_alive r : alive (closeFn r) = alive r.
Proof. unfold closeFn. by destruct (isClose r). Qed.

Lemma alive_ends r :
  (reader r = true → alive (end_reader r) < alive r)%nat ∧ (sender r = true → alive (end_sender r) < alive r)%nat ∧
  (heartbeat r = true → alive (end_heartbeat r) < alive r)%nat.
Proof.
  unfold end_reader, end_sender, end_heartbeat, closeFn, alive. destruct r as [cc ic co rc sc tw rd se hb]. cbn.
  destruct ic, rd, se, hb; cbn; lia.
Qed.

(** Whichever of the three goroutines of a relayed packet connection ends first,
    and though each closes it, the connection and its channels are closed together
    and once, as soon as one of them has ended. *)
Theorem relay_closed_once (watch c : bool) (r : Relay) :
  rtc (rstep watch) (new_relay c) r →
  twice r = false ∧ r_conn r = negb (isClose r) ∧ r_readCh r = negb (isClose r) ∧ r_sendCh r = negb (isClose r) ∧
  ((alive r < 3)%nat → isClose r = true).
Proof.
  intros (H1 & H2 & H3 & H4 & H5)%relay_inv_reachable. split_and!; try done.
  destruct (isClose r) eqn:Hc; [done|]. destruct (H5 eq_refl) as (E1 & E2 & E3). unfold alive. rewrite E1, E2, E3. lia.
Qed.

(** Once one of its goroutines has ended, or the proxy that it watches is closed,
    a relay unwinds by itself, whatever the network does: as long as a goroutine
    runs, one of them finds something closed and ends, every step but closing the
    proxy makes them fewer, and when none runs everything is closed. *)
Theorem relay_unwinds (watch c : bool) (r : Relay) :
  rtc (rstep watch) (new_relay c) r → isClose r = true ∨ (watch = true ∧ closeCh r = true) →
  ((0 < alive r)%nat → ∃ r', ending watch r r') ∧
  (∀ r', rstep watch r r' → r' = relay_Close r ∨ (alive r' < alive r)%nat) ∧
  (∀ r', rstep watch r r' → isClose r' = true ∨ (watch = true ∧ closeCh r' = true)) ∧
  (alive r = 0%nat → r_conn r = false ∧ r_readCh r = false ∧ r_sendCh r = false).
Proof.
  intros Hr Hend. pose proof (relay_inv_reachable _ _ _ Hr) as (H1 & H2 & H3 & H4 & H5).
  pose proof (alive_ends r) as (A1 & A2 & A3). split_and!.
  - intros Ha. destruct (isClose r) eqn:Hc.
    + destruct (reader r) eqn:Er; [exists (end_reader r); by apply end_reader_conn|].
      destruct (sender r) eqn:Es; [exists (end_sender r); by apply end_sender_drained|].
      destruct (heartbeat r) eqn:Eh; [exists (end_heartbeat r); by apply end_ping_panics|].
      unfold alive in Ha. rewrite Er, Es, Eh in Ha. lia.
    + destruct Hend as [? | [Hw Hcc]]; [done|]. destruct (H5 eq_refl) as (_ & _ & Eh).
      exists (end_heartbeat r). by apply end_heartbeat_sees.
  - intros r' Hs. inversion Hs as [? ? He| | |]; [inversion He|..]; subst; auto.
  - intros r' Hs. assert (∀ q, isClose (closeFn q) = true) as Hcl by (intros q; unfold closeFn; by destruct (isClose q) eqn:?).
    inversion Hs as [? ? He| | |]; [inversion He|..]; subst; cbn; auto.
  - intros Ha. destruct (isClose r) eqn:Hc; [by rewrite H2, H3, H4|].
    destruct (H5 eq_refl) as (E1 & _). unfold alive in Ha. rewrite E1 in Ha. lia.
Qed.

(** ** Proofs: tunnels *)

(** Every socket that is opened is closed later. *)
Fixpoint all_closed (evs : list pevent) : Prop :=
  match evs with
  | [] => True
  | POpen s :: evs => PClose s ∈ evs ∧ all_closed evs
  | _ :: evs => all_closed evs
  end.
Definition reports (evs : list pevent) : list Msg.NatHoleReport :=
  omap (λ e, match e with PReport m => Some m | _ => None end) evs.
Definition client_msgs (evs : list pevent) : list Msg.NatHoleClient :=
  omap (λ e, match e with PSendClient m => Some m | _ => None end) evs.
Definition served (evs : list pevent) : Prop := ∃ n, PServe n ∈ evs.

(** The last events of a run are known. *)
Local Ltac ended :=
  split_and!; [cbn; rewrite ?list_elem_of_In; cbn; tauto
    |match goal with |- ∃ pre, ?l = _ ∧ _ => let p := eval cbn in (removelast l) in exists p end;
     split; [reflexivity|rewrite list_elem_of_In; cbn; intuition discriminate]
    |reflexivity|reflexivity
    |intros [? Hn%list_elem_of_In]; cbn in Hn; first [intuition discriminate|by eauto 10]].

(** Whatever fails on the way, hole punching at the owner of a proxy closes every
    socket and, last, the work connection. It asks the server once, under the
    proxy's name with the user's prefix and the session of the server; if the
    server answers it reports the outcome once, for the session of the answer;
    and the tunnel is served only over a hole that was reported. *)
Theorem punching_accounted user name tid sid prep answer hole ok1 ok2 ok3 streams :
  let evs := runNatHole user name tid sid prep answer hole ok1 ok2 ok3 streams in
  all_closed evs ∧ (∃ pre, evs = pre ++ [PCloseWork] ∧ PCloseWork ∉ pre) ∧
  client_msgs evs =
    match sid, prep with
    | Some s, Ok pr => [Msg.mkNatHoleClient tid (ClientProxies.AddUserPrefix user name) (Msg.nhs_Sid s)
                          (PunchHole.Addrs pr) (PunchHole.AssistedAddrs pr)]
    | _, _ => []
    end ∧
  reports evs =
    match sid, prep, PunchHole.ExchangeInfo answer with
    | Some _, Ok _, Ok resp => [Msg.mkNatHoleReport (Msg.nhr_Sid resp) (bool_decide (is_Some hole))]
    | _, _, _ => []
    end ∧
  (served evs → ∃ s pr resp k raddr, sid = Some s ∧ prep = Ok pr ∧ PunchHole.ExchangeInfo answer = Ok resp ∧
     hole = Some (k, raddr) ∧ reports evs = [Msg.mkNatHoleReport (Msg.nhr_Sid resp) true]).
Proof.
  cbn zeta. unfold runNatHole.
  destruct sid as [s|]; [destruct prep as [pr|e]|]; [|ended..].
  destruct (PunchHole.ExchangeInfo answer) as [resp|e]; [|ended].
  destruct hole as [[k raddr]|]; [|ended].
  unfold listenByKCP, listenByQUIC. destruct (String.eqb (Msg.nhr_Protocol resp) "kcp"), ok1, ok2, ok3; ended.
Qed.

(** *** Tags *)

(** What a visitor writes on a stream for the TCP or the UDP side of a merged proxy
    (client/visitor/stcpsudp.go and xtcpxudp.go). *)
Definition visitor_stream (udp : bool) (payload : list byte) : list byte :=
  (if udp then streamTagUDP else streamTagTCP) :: payload.

Section Relayed.
(** The streams of github.com/fatedier/golib/io: an encrypted one begins with its
    random vector, and a compressed one is some function of the bytes. *)
Context (cipher : string → list byte → list byte → list byte) (compress : list byte → list byte).

(** The bytes the owner finds on a work connection, for the bytes that the server
    read from the visitor ([wrapServerConn] of [WorkStreams]). *)
Definition relayed (b : ProxyBaseConfig) (key : string) (iv data : list byte) : list byte :=
  let data := if UseCompression (Transport b) then compress data else data in
  if UseEncryption (Transport b) then iv ++ cipher key iv data else data.

Definition merged (c : ProxyConfigurer) (b : ProxyBaseConfig) (port : Z) : Prop :=
  (∃ sk au, c = CSTCPSUDP (mkSTCPSUDP b sk au port)) ∨ (∃ sk au nt, c = CXTCPXUDP (mkXTCPXUDP b sk au port nt)).

(** Without encryption and compression, a stream that a visitor opens for one
    side of a merged secret proxy reaches that side of its owner through the server
    with its bytes intact; the UDP side has the port set for it, or else the TCP
    side's. *)
Theorem tagged_stream_routed (c : ProxyConfigurer) (b : ProxyBaseConfig) (port : Z) (protocol key : string) (iv : list byte)
    (udp : bool) (payload : list byte) :
  merged c b port → protocol ≠ ProtocolNatHole → UseEncryption (Transport b) = false → UseCompression (Transport b) = false →
  dispatch c protocol (relayed b key iv (visitor_stream udp payload)) =
  (if udp then HRelay (if port =? 0 then LocalPort (Backend b) else port) else HTCP, payload).
Proof.
  intros Hc Hp He Hm. unfold relayed. rewrite He, Hm. destruct Hc as [(sk & au & ->) | (sk & au & nt & ->)]; cbn [dispatch].
  - by destruct udp.
  - rewrite (proj2 (String.eqb_neq _ _) Hp). by destruct udp.
Qed.

(** With encryption the tag never arrives: the owner takes the first byte of the
    random vector for it, whatever side the visitor meant, and closes the
    connection for all but two values of that byte. *)
Theorem encrypted_tag_lost (c : ProxyConfigurer) (b : ProxyBaseConfig) (port : Z) (protocol key : string) (b0 : byte) (iv : list byte)
    (udp : bool) (payload : list byte) :
  merged c b port → protocol ≠ ProtocolNatHole → UseEncryption (Transport b) = true →
  (dispatch c protocol (relayed b key (b0 :: iv) (visitor_stream udp payload))).1 =
  (if Byte.eqb b0 streamTagTCP then HTCP
   else if Byte.eqb b0 streamTagUDP then HRelay (if port =? 0 then LocalPort (Backend b) else port) else HClosed).
Proof.
  intros Hc Hp He. unfold relayed. rewrite He. destruct Hc as [(sk & au & ->) | (sk & au & nt & ->)]; cbn [dispatch].
  - cbn. by destruct (Byte.eqb b0 streamTagTCP), (Byte.eqb b0 streamTagUDP).
  - rewrite (proj2 (String.eqb_neq _ _) Hp). cbn. by destruct (Byte.eqb b0 streamTagTCP), (Byte.eqb b0 streamTagUDP).
Qed.
End Relayed.

(** ** Witnesses *)

Lemma packet_channels_closed_once_witness : panicked overlapped = false ∧ panicked (Close overlapped) = false.
Proof. destruct (packet_channels_closed_once overlapped overlapped_reachable) as (H1 & H2 & _). by split. Defined.

Lemma demo_relay_reachable : rtc (rstep true) (new_relay false) (relay_Close (new_relay false)).
Proof. apply rtc_once. by apply rstep_proxy_close. Qed.

Lemma relay_closed_once_witness : twice (end_heartbeat (relay_Close (new_relay false))) = false.
Proof.
  refine (proj1 (relay_closed_once true false _ (rtc_r _ _ _ demo_relay_reachable _))).
  apply rstep_ending. by apply end_heartbeat_sees.
Defined.

Lemma relay_unwinds_witness : ∃ r, ending true (relay_Close (new_relay false)) r.
Proof.
  apply (relay_unwinds true false (relay_Close (new_relay false)) demo_relay_reachable (or_intror (conj eq_refl eq_refl))).
  cbn. lia.
Defined.

Definition demo_base (enc : bool) : ProxyBaseConfig :=
  mkProxyBase "game" "xtcp+xudp" None ∅ (mkProxyTransport enc false (mkBandwidthQuantity "" 0) "client" "") ∅ (mkLoadBalancer "" "")
    (mkHealthCheck "" 0 0 0 "" []) (mkProxyBackend "127.0.0.1" 25565 zero_plugin).
Definition demo_merged (enc : bool) : ProxyConfigurer := CXTCPXUDP (mkXTCPXUDP (demo_base enc) "k" [] 0 None).

Lemma demo_is_merged enc : merged (demo_merged enc) (demo_base enc) 0.
Proof. right. by eexists _, _, _. Qed.

Lemma tagged_stream_routed_witness : dispatch (demo_merged false) "" ["002"%byte; "009"%byte] = (HRelay 25565, ["009"%byte]).
Proof.
  exact (tagged_stream_routed (λ _ _ d, d) id (demo_merged false) (demo_base false) 0 "" "k" [] true ["009"%byte]
           (demo_is_merged false) ltac:(done) eq_refl eq_refl).
Defined.

Lemma encrypted_tag_lost_witness :
  (dispatch (demo_merged true) "" (relayed (λ _ _ d, d) id (demo_base true) "k" ["200"%byte] (visitor_stream true []))).1 = HClosed.
Proof.
  exact (encrypted_tag_lost (λ _ _ d, d) id (demo_merged true) (demo_base true) 0 "" "k" "200"%byte [] true []
           (demo_is_merged true) ltac:(done) eq_refl).
Defined.

End ClientConns.
