(* ===== verification/P2PMetrics.v ===== *)
(** Statistics of tunnels between clients: the counters of client/proxy/metrics.go
    at the owner of a proxy, which reports their changes to the server, and
    [handleProxyMetrics] of server/control.go, which adds them to the statistics of
    [Metrics].

    Times are in nanoseconds. The loads of [flush] are one step: what is counted
    between two of them is part of the next report. Counts stay below 2^63. *)
From Stdlib Require Import ZArith Lia Ascii String.
From stdpp Require Import base gmap strings list fin_maps relations.
From S2P Require Import Prelude GoLib Wire Msg Metrics.

Local Open Scope Z_scope.

Module P2PMetrics.
Import Metrics.

(** ** The client *)

Definition udpIdleTimeout : Z := 15 * 10 ^ 9.

(** [lastUDPNano] is 0 for none. *)
Record p2pMetrics := mkP2P {
  m_name : string; tcpConns : Z; lastUDPNano : Z; m_in : Z; m_out : Z;
  lastConns : Z; lastIn : Z; lastOut : Z; started : bool }.

Definition newP2PMetrics (name : string) : p2pMetrics := mkP2P name 0 0 0 0 0 0 0 false.

Definition set_counts (m : p2pMetrics) (t u i o : Z) : p2pMetrics :=
  mkP2P (m_name m) t u i o (lastConns m) (lastIn m) (lastOut m) (started m).

Definition tcpOpen (m : p2pMetrics) : p2pMetrics := set_counts m (tcpConns m + 1) (lastUDPNano m) (m_in m) (m_out m).
Definition tcpClose (m : p2pMetrics) : p2pMetrics := set_counts m (tcpConns m - 1) (lastUDPNano m) (m_in m) (m_out m).
Definition udpActivity (now : Z) (m : p2pMetrics) : p2pMetrics := set_counts m (tcpConns m) now (m_in m) (m_out m).

(** [byteCountConn.Read] and [Write] of [n] bytes. *)
Definition conn_Read (n : Z) (m : p2pMetrics) : p2pMetrics :=
  if 0 <? n then set_counts m (tcpConns m) (lastUDPNano m) (m_in m + n) (m_out m) else m.
Definition conn_Write (n : Z) (m : p2pMetrics) : p2pMetrics :=
  if 0 <? n then set_counts m (tcpConns m) (lastUDPNano m) (m_in m) (m_out m + n) else m.

Definition currentConns (now : Z) (m : p2pMetrics) : Z :=
  tcpConns m + (if negb (lastUDPNano m =? 0) && (now - lastUDPNano m <? udpIdleTimeout) then 1 else 0).

Definition flush (now : Z) (m : p2pMetrics) : p2pMetrics * list Msg.ProxyMetrics :=
  let conns := currentConns now m in
  let dConns := conns - lastConns m in
  let dIn := m_in m - lastIn m in
  let dOut := m_out m - lastOut m in
  if (dConns =? 0) && (dIn =? 0) && (dOut =? 0) then (m, [])
  else (mkP2P (m_name m) (tcpConns m) (lastUDPNano m) (m_in m) (m_out m) conns (m_in m) (m_out m) (started m),
        [Msg.mkProxyMetrics (m_name m) dConns dIn dOut]).

(** [startReporter]: whether a reporter is launched. *)
Definition startReporter (m : p2pMetrics) : p2pMetrics * bool :=
  if started m then (m, false)
  else (mkP2P (m_name m) (tcpConns m) (lastUDPNano m) (m_in m) (m_out m) (lastConns m) (lastIn m) (lastOut m) true, true).

(** The last report. *)
Definition finish (now : Z) (m : p2pMetrics) : p2pMetrics * list Msg.ProxyMetrics :=
  flush now (set_counts m 0 0 (m_in m) (m_out m)).

(** What goes on at the owner; a stream is closed after it was opened. *)
Inductive op := OOpen | OClose | OPacket (now : Z) | ORead (n : Z) | OWrite (n : Z) | OTick (now : Z) | OFinish (now : Z).

Definition run_op (s : p2pMetrics * list Msg.ProxyMetrics) (o : op) : p2pMetrics * list Msg.ProxyMetrics :=
  let '(m, sent) := s in
  match o with
  | OOpen => (tcpOpen m, sent)
  | OClose => (tcpClose m, sent)
  | OPacket now => (udpActivity now m, sent)
  | ORead n => (conn_Read n m, sent)
  | OWrite n => (conn_Write n m, sent)
  | OTick now => let '(m, r) := flush now m in (m, sent ++ r)
  | OFinish now => let '(m, r) := finish now m in (m, sent ++ r)
  end.
Definition run (name : string) (ops : list op) : p2pMetrics * list Msg.ProxyMetrics :=
  foldl run_op (newP2PMetrics name, []) ops.

(** No more streams are closed than were opened: [k] are open before. *)
Fixpoint bracketed (k : Z) (ops : list op) : Prop :=
  match ops with
  | [] => True
  | OOpen :: ops => bracketed (k + 1) ops
  | OClose :: ops => 0 < k ∧ bracketed (k - 1) ops
  | OFinish _ :: ops => ops = []
  | _ :: ops => bracketed k ops
  end.

(** ** The server *)

Section Server.
Context (day midnight : Z → Z).

(** [handleProxyMetrics] of a session; [owned] is whether the session has a proxy
    of that name. *)
Definition handleProxyMetrics (owned : bool) (now : Z) (s : ServerStatistics) (m : Msg.ProxyMetrics) : ServerStatistics :=
  if negb owned then s
  else
    let name := Msg.pm_ProxyName m in
    let s := if 0 <? Msg.pm_TrafficInDelta m then AddTrafficIn day midnight s now name (Msg.pm_TrafficInDelta m) else s in
    let s := if 0 <? Msg.pm_TrafficOutDelta m then AddTrafficOut day midnight s now name (Msg.pm_TrafficOutDelta m) else s in
    let d := Msg.pm_ConnsDelta m in
    if 0 <? d then Nat.iter (Z.to_nat d) (λ s, OpenConnection s name) s
    else Nat.iter (Z.to_nat (- d)) (λ s, CloseConnection s name) s.
End Server.

(** ** Proofs *)

Definition sum_conns (l : list Msg.ProxyMetrics) : Z := foldr (λ m n, Msg.pm_ConnsDelta m + n) 0 l.
Definition sum_in (l : list Msg.ProxyMetrics) : Z := foldr (λ m n, Msg.pm_TrafficInDelta m + n) 0 l.
Definition sum_out (l : list Msg.ProxyMetrics) : Z := foldr (λ m n, Msg.pm_TrafficOutDelta m + n) 0 l.

(** Every report is of some change, and traffic only grows. *)
Definition report_ok (name : string) (m : Msg.ProxyMetrics) : Prop :=
  Msg.pm_ProxyName m = name ∧ 0 ≤ Msg.pm_TrafficInDelta m ∧ 0 ≤ Msg.pm_TrafficOutDelta m ∧
  (Msg.pm_ConnsDelta m, Msg.pm_TrafficInDelta m, Msg.pm_TrafficOutDelta m) ≠ (0, 0, 0).

(** Connections never fall below zero at the server. *)
Definition prefixes_ok (l : list Msg.ProxyMetrics) : Prop := ∀ k, 0 ≤ sum_conns (take k l).

Record minv (k : Z) (s : p2pMetrics * list Msg.ProxyMetrics) : Prop := {
  mi_conns : tcpConns s.1 = k;
  mi_nonneg : 0 ≤ k;
  mi_in : lastIn s.1 ≤ m_in s.1;
  mi_out : lastOut s.1 ≤ m_out s.1;
  mi_sums : sum_conns s.2 = lastConns s.1 ∧ sum_in s.2 = lastIn s.1 ∧ sum_out s.2 = lastOut s.1;
  mi_prefix : prefixes_ok s.2;
  mi_reports : Forall (report_ok (m_name s.1)) s.2 }.

Lemma sums_snoc l m :
  sum_conns (l ++ [m]) = sum_conns l + Msg.pm_ConnsDelta m ∧ sum_in (l ++ [m]) = sum_in l + Msg.pm_TrafficInDelta m ∧
  sum_out (l ++ [m]) = sum_out l + Msg.pm_TrafficOutDelta m.
Proof. unfold sum_conns, sum_in, sum_out. induction l as [|x l (I1 & I2 & I3)]; cbn; lia. Qed.

Lemma prefixes_snoc l m : prefixes_ok l → 0 ≤ sum_conns (l ++ [m]) → prefixes_ok (l ++ [m]).
Proof.
  intros Hl Hm k. destruct (decide (k ≤ length l)%nat).
  - rewrite take_app_le by done. apply Hl.
  - by rewrite take_ge by (rewrite length_app; cbn; lia).
Qed.

Lemma currentConns_nonneg now m : 0 ≤ tcpConns m → 0 ≤ currentConns now m.
Proof. unfold currentConns. destruct (negb _ && _); lia. Qed.

(** After a report everything counted so far was reported. *)
Lemma minv_flush k now m sent :
  minv k (m, sent) →
  let '(m', r) := flush now m in
  minv k (m', sent ++ r) ∧ m_name m' = m_name m ∧ m_in m' = m_in m ∧ m_out m' = m_out m ∧ currentConns now m' = currentConns now m ∧
  lastConns m' = currentConns now m ∧ lastIn m' = m_in m ∧ lastOut m' = m_out m.
Proof.
  intros [A B C D (E1 & E2 & E3) F G]. cbn [fst snd] in *. unfold flush.
  destruct ((_ =? 0) && _ && _) eqn:Hz.
  - apply andb_true_iff in Hz as [Hz Hz3]. apply andb_true_iff in Hz as [Hz1 Hz2]. apply Z.eqb_eq in Hz1, Hz2, Hz3.
    rewrite app_nil_r. split_and!; try done; lia.
  - set (r := Msg.mkProxyMetrics _ _ _ _). destruct (sums_snoc sent r) as (S1 & S2 & S3). cbn [Msg.pm_ConnsDelta Msg.pm_TrafficInDelta Msg.pm_TrafficOutDelta r] in S1, S2, S3.
    pose proof (currentConns_nonneg now m ltac:(lia)).
    split_and!; try done. constructor; cbn [fst snd tcpConns m_in m_out lastIn lastOut lastConns m_name set_counts tcpOpen tcpClose udpActivity]; try done; try lia.
    + apply prefixes_snoc; [done|lia].
    + apply Forall_app. split; [done|]. apply Forall_singleton. split_and!; cbn; [done|lia|lia|].
      intros [= H1 H2 H3]. by rewrite H1, H2, H3 in Hz.
Qed.

Lemma minv_step k s o ops :
  minv k s → bracketed k (o :: ops) → ∃ k', minv k' (run_op s o) ∧ m_name (run_op s o).1 = m_name s.1 ∧ bracketed k' ops.
Proof.
  destruct s as [m sent]. intros I Hb. pose proof I as [A B C D E F G]. cbn [fst snd bracketed] in *.
  destruct o as [| |now|n|n|now|now]; cbn [run_op].
  - exists (k + 1). split_and!; [|done|done]. constructor; cbn [fst snd tcpConns m_in m_out lastIn lastOut lastConns m_name set_counts tcpOpen tcpClose udpActivity]; try done; lia.
  - destruct Hb as [Hk Hb]. exists (k - 1). split_and!; [|done|done]. constructor; cbn [fst snd tcpConns m_in m_out lastIn lastOut lastConns m_name set_counts tcpOpen tcpClose udpActivity]; try done; lia.
  - exists k. split_and!; [|done|done]. by constructor.
  - exists k. unfold conn_Read. destruct (Z.ltb_spec 0 n); (split_and!; [|done|done]); constructor; cbn [fst snd tcpConns m_in m_out lastIn lastOut lastConns m_name set_counts tcpOpen tcpClose udpActivity]; try done; lia.
  - exists k. unfold conn_Write. destruct (Z.ltb_spec 0 n); (split_and!; [|done|done]); constructor; cbn [fst snd tcpConns m_in m_out lastIn lastOut lastConns m_name set_counts tcpOpen tcpClose udpActivity]; try done; lia.
  - exists k. pose proof (minv_flush k now m sent I) as Hf. destruct (flush now m) as [m' r]. by destruct Hf as (? & ? & _).
  - exists 0. unfold finish. set (m0 := set_counts m 0 0 (m_in m) (m_out m)).
    assert (minv 0 (m0, sent)) as I0 by (constructor; cbn [fst snd tcpConns m_in m_out lastIn lastOut lastConns m_name set_counts tcpOpen tcpClose udpActivity]; try done; lia).
    pose proof (minv_flush 0 now m0 sent I0) as Hf. destruct (flush now m0) as [m' r]. destruct Hf as (? & ? & _). by rewrite Hb.
Qed.

Lemma minv_run name ops : bracketed 0 ops → ∃ k, minv k (run name ops) ∧ m_name (run name ops).1 = name.
Proof.
  assert (∀ k s, minv k s → m_name s.1 = name → bracketed k ops →
            ∃ k', minv k' (foldl run_op s ops) ∧ m_name (foldl run_op s ops).1 = name) as Hrun.
  { induction ops as [|o ops IH]; intros k s Hs Hn Hb; [by exists k|].
    destruct (minv_step k s o ops Hs Hb) as (k' & Hs' & Hn' & Hb'). apply (IH k'); [done|by rewrite Hn'|done]. }
  intros Hb. apply (Hrun 0); [|done|done]. constructor; cbn [fst snd tcpConns m_in m_out lastIn lastOut lastConns m_name set_counts tcpOpen tcpClose udpActivity]; try done. intros k. by rewrite take_nil.
Qed.

Lemma reports_sum (name : string) (ops : list op) (now : Z) (final : bool) :
  bracketed 0 ops →
  let m := (run name ops).1 in
  let sent := (run name (ops ++ [if final then OFinish now else OTick now])).2 in
  sum_in sent = m_in m ∧ sum_out sent = m_out m ∧ sum_conns sent = (if final then 0 else currentConns now m) ∧
  prefixes_ok sent ∧ Forall (report_ok name) sent.
Proof.
  intros Hb. destruct (minv_run name ops Hb) as (k & I & Hn). cbn zeta. unfold run. rewrite foldl_app. cbn [foldl].
  fold (run name ops). destruct (run name ops) as [m sent]. cbn [fst] in *. destruct final; cbn [run_op].
  - unfold finish. set (m0 := set_counts m 0 0 (m_in m) (m_out m)).
    assert (minv 0 (m0, sent)) as I0 by (destruct I; constructor; cbn [fst snd tcpConns m_in m_out lastIn lastOut lastConns m_name set_counts tcpOpen tcpClose udpActivity]; try done; lia).
    pose proof (minv_flush 0 now m0 sent I0) as Hf. destruct (flush now m0) as [m' r].
    destruct Hf as ([_ _ _ _ (E1 & E2 & E3) F G] & N & _ & _ & _ & L1 & L2 & L3). cbn [fst snd] in *.
    rewrite E1, E2, E3, L1, L2, L3. change (m_name m0) with (m_name m) in N. rewrite N, Hn in G. by split_and!.
  - pose proof (minv_flush k now m sent I) as Hf. destruct (flush now m) as [m' r].
    destruct Hf as ([_ _ _ _ (E1 & E2 & E3) F G] & N & _ & _ & _ & L1 & L2 & L3). cbn [fst snd] in *.
    rewrite E1, E2, E3, L1, L2, L3. rewrite N, Hn in G. by split_and!.
Qed.


(** What the owner of a proxy reports of its tunnels adds up: after a report, the
    reports sent so far sum to the bytes counted and to the streams that are open
    (one more while UDP packets flow); after the last report the streams sum to
    zero. Reports that tell nothing are not sent, traffic is never negative, and
    the number of streams told to the server is never below zero. *)
Theorem reports_add_up (name : string) (ops : list op) (now : Z) (final : bool) :
  bracketed 0 ops →
  let m := (run name ops).1 in
  let sent := (run name (ops ++ [if final then OFinish now else OTick now])).2 in
  sum_in sent = m_in m ∧ sum_out sent = m_out m ∧ sum_conns sent = (if final then 0 else currentConns now m) ∧
  prefixes_ok sent ∧ Forall (report_ok name) sent.
Proof. apply reports_sum. Qed.

(** *** The server's count *)

(** The connections of all proxies, and of one. *)
Definition view (name : string) (s : ServerStatistics) : Z * option Z := (AllConns s, CurConns <$> ProxyStats s !! name).

Lemma view_Some name s a c : view name s = (a, Some c) → AllConns s = a ∧ ∃ p, ProxyStats s !! name = Some p ∧ CurConns p = c.
Proof. unfold view. intros H. injection H as <- H. split; [done|]. by apply fmap_Some in H as (p & Hp & ->); exists p. Qed.

Lemma view_open name s a c :
  view name s = (a, Some c) → 0 ≤ a → 0 ≤ c → a + 1 < 2 ^ 31 → c + 1 < 2 ^ 31 →
  view name (OpenConnection s name) = (a + 1, Some (c + 1)).
Proof.
  intros (<- & p & Hp & <-)%view_Some Ha Hc Ha' Hc'. unfold view, OpenConnection, OpenConnection_proxy, OpenConnection_total.
  cbn. rewrite Hp. cbn. rewrite lookup_insert_eq. cbn. unfold cnt_Inc. by rewrite !int32_small by lia.
Qed.

Lemma view_close name s a c :
  view name s = (a, Some c) → 0 < a < 2 ^ 31 → 0 < c < 2 ^ 31 → view name (CloseConnection s name) = (a - 1, Some (c - 1)).
Proof.
  intros (<- & p & Hp & <-)%view_Some Ha Hc. unfold view, CloseConnection.
  rewrite (proj2 (Z.ltb_lt 0 (AllConns s))) by lia. cbn. rewrite Hp, (proj2 (Z.ltb_lt 0 (CurConns p))) by lia. cbn.
  rewrite lookup_insert_eq. cbn. by rewrite !cnt_Dec_small by lia.
Qed.

Lemma view_opens name n s a c :
  view name s = (a, Some c) → 0 ≤ a → 0 ≤ c → a + Z.of_nat n < 2 ^ 31 → c + Z.of_nat n < 2 ^ 31 →
  view name (Nat.iter n (λ s, OpenConnection s name) s) = (a + Z.of_nat n, Some (c + Z.of_nat n)).
Proof.
  intros Hv Ha Hc. induction n as [|n IH]; intros Ha' Hc'; [by rewrite !Z.add_0_r|].
  cbn [Nat.iter nat_rect]. rewrite (view_open _ _ (a + Z.of_nat n) (c + Z.of_nat n)); [|apply IH|..]; try lia.
  f_equal; [|f_equal]; lia.
Qed.

Lemma view_closes name n s a c :
  view name s = (a, Some c) → Z.of_nat n ≤ a < 2 ^ 31 → Z.of_nat n ≤ c < 2 ^ 31 →
  view name (Nat.iter n (λ s, CloseConnection s name) s) = (a - Z.of_nat n, Some (c - Z.of_nat n)).
Proof.
  intros Hv. induction n as [|n IH]; intros Ha Hc; [by rewrite !Z.sub_0_r|].
  cbn [Nat.iter nat_rect]. rewrite (view_close _ _ (a - Z.of_nat n) (c - Z.of_nat n)); [|apply IH|..]; try lia.
  f_equal; [|f_equal]; lia.
Qed.

Section ServerProofs.
Context (day midnight : Z → Z).

Lemma view_traffic name s now n :
  view name (AddTrafficIn day midnight s now name n) = view name s ∧ view name (AddTrafficOut day midnight s now name n) = view name s.
Proof.
  unfold view, AddTrafficIn, AddTrafficOut. cbn. destruct (ProxyStats s !! name) as [p|] eqn:Hp; cbn; [|by rewrite Hp].
  by rewrite !lookup_insert_eq.
Qed.

(** One report moves both counts by what it says. *)
Lemma view_report name s now m a c :
  view name s = (a, Some c) → Msg.pm_ProxyName m = name → 0 ≤ a < 2 ^ 31 → 0 ≤ c < 2 ^ 31 →
  0 ≤ a + Msg.pm_ConnsDelta m < 2 ^ 31 → 0 ≤ c + Msg.pm_ConnsDelta m < 2 ^ 31 →
  view name (handleProxyMetrics day midnight true now s m) = (a + Msg.pm_ConnsDelta m, Some (c + Msg.pm_ConnsDelta m)).
Proof.
  intros Hv Hn Ha Hc Ha' Hc'. unfold handleProxyMetrics. cbn [negb]. rewrite Hn.
  set (s1 := if 0 <? Msg.pm_TrafficInDelta m then _ else _). set (s2 := if 0 <? Msg.pm_TrafficOutDelta m then _ else _).
  assert (view name s2 = (a, Some c)) as H2.
  { unfold s2, s1. by destruct (0 <? Msg.pm_TrafficOutDelta m), (0 <? Msg.pm_TrafficInDelta m);
      rewrite ?(proj1 (view_traffic _ _ _ _)), ?(proj2 (view_traffic _ _ _ _)), ?(proj1 (view_traffic _ _ _ _)). }
  destruct (Z.ltb_spec 0 (Msg.pm_ConnsDelta m)).
  - rewrite (view_opens _ _ _ a c) by (done || lia). f_equal; [|f_equal]; lia.
  - rewrite (view_closes _ _ _ a c) by (done || lia). f_equal; [|f_equal]; lia.
Qed.

(** Reports that arrive at some times. *)
Definition arrived (s : ServerStatistics) (l : list (Z * Msg.ProxyMetrics)) : ServerStatistics :=
  foldl (λ s e, handleProxyMetrics day midnight true e.1 s e.2) s l.

Lemma view_arrived name l s a c :
  view name s = (a, Some c) → Forall (λ e, Msg.pm_ProxyName e.2 = name) l → 0 ≤ a < 2 ^ 31 → 0 ≤ c < 2 ^ 31 →
  (∀ k, 0 ≤ a + sum_conns (take k (snd <$> l)) < 2 ^ 31 ∧ 0 ≤ c + sum_conns (take k (snd <$> l)) < 2 ^ 31) →
  view name (arrived s l) = (a + sum_conns (snd <$> l), Some (c + sum_conns (snd <$> l))).
Proof.
  revert s a c. induction l as [|[t m] l IH]; intros s a c Hv Hn Ha Hc Hb; [cbn; by rewrite !Z.add_0_r|].
  apply Forall_cons in Hn as [Hm Hn]. cbn [snd] in Hm.
  assert (∀ k, sum_conns (take (S k) (snd <$> ((t, m) :: l))) = Msg.pm_ConnsDelta m + sum_conns (take k (snd <$> l))) as Hk by done.
  pose proof (Hb 1%nat) as H1. rewrite (Hk 0%nat) in H1. change (sum_conns (take 0 (snd <$> l))) with 0 in H1.
  change (arrived s ((t, m) :: l)) with (arrived (handleProxyMetrics day midnight true t s m) l).
  rewrite (IH _ (a + Msg.pm_ConnsDelta m) (c + Msg.pm_ConnsDelta m)).
  - change (sum_conns (snd <$> ((t, m) :: l))) with (Msg.pm_ConnsDelta m + sum_conns (snd <$> l)). f_equal; [|f_equal]; lia.
  - apply view_report; try done; lia.
  - done.
  - lia.
  - lia.
  - intros k. specialize (Hb (S k)). rewrite Hk in Hb. lia.
Qed.

(** The server counts the streams of a proxy's tunnels exactly, together with the
    connections it counts itself: when the reports of the owner have arrived, its
    counts have grown by the number of streams that were open at the last one, and
    after the owner's final report they are what they would be without the
    tunnels. *)
Theorem streams_counted (name : string) (ops : list op) (now : Z) (final : bool) (s : ServerStatistics) (a c : Z)
    (l : list (Z * Msg.ProxyMetrics)) :
  bracketed 0 ops →
  snd <$> l = (run name (ops ++ [if final then OFinish now else OTick now])).2 →
  view name s = (a, Some c) → 0 ≤ a → 0 ≤ c →
  (∀ k, a + sum_conns (take k (snd <$> l)) < 2 ^ 31 ∧ c + sum_conns (take k (snd <$> l)) < 2 ^ 31) →
  let n := if final then 0 else currentConns now (run name ops).1 in
  view name (arrived s l) = (a + n, Some (c + n)).
Proof.
  intros Hb Hl Hv Ha Hc Hbound. destruct (reports_sum name ops now final Hb) as (_ & _ & Hs & Hp & Hr).
  rewrite <-Hl in Hs, Hp, Hr. cbn zeta. rewrite <-Hs. pose proof (Hbound 0%nat) as H0. change (sum_conns (take 0 (snd <$> l))) with 0 in H0.
  apply view_arrived; try done; try lia.
  - rewrite Forall_fmap in Hr. eapply Forall_impl; [exact Hr|]. intros e He. apply He.
  - intros k. specialize (Hbound k). specialize (Hp k). lia.
Qed.

(** A connection that the server relays for an xtcp+xudp proxy, because no hole
    could be punched, is counted twice: the server counts it, and the owner counts
    it as a stream of its tunnels and reports it. *)
Theorem relayed_conn_counted_twice (name : string) (s : ServerStatistics) (a c now arrival : Z) :
  view name s = (a, Some c) → 0 ≤ a → 0 ≤ c → a + 2 < 2 ^ 31 → c + 2 < 2 ^ 31 →
  let reports := (run name [OOpen; OTick now]).2 in
  view name (arrived (OpenConnection s name) ((arrival,.) <$> reports)) = (a + 2, Some (c + 2)).
Proof.
  intros Hv Ha Hc Ha' Hc'. cbn zeta.
  change ((arrival,.) <$> (run name [OOpen; OTick now]).2) with [(arrival, Msg.mkProxyMetrics name 1 0 0)].
  change (arrived ?x [?e]) with (handleProxyMetrics day midnight true e.1 x e.2). cbn [fst snd].
  rewrite (view_report name _ _ _ (a + 1) (c + 1)); cbn; try done; try lia.
  - f_equal; [|f_equal]; lia.
  - apply view_open; try done; lia.
Qed.
End ServerProofs.

(** ** Witnesses *)

Definition demo_ops : list op := [OOpen; ORead 100; OOpen; OWrite 7; OTick 10; OClose].

Lemma reports_add_up_witness :
  sum_in (run "game" (demo_ops ++ [OFinish 20])).2 = 100 ∧ sum_conns (run "game" (demo_ops ++ [OFinish 20])).2 = 0.
Proof.
  destruct (reports_add_up "game" demo_ops 20 true ltac:(vm_compute; intuition congruence)) as (H1 & _ & H2 & _).
  by split.
Defined.

Definition demo_stats : ServerStatistics :=
  NewProxy (λ t, t) (λ d, d) (newServerMetrics (λ t, t) (λ d, d) 0) 0 "game" "xtcp" "alice" "c1".

Lemma streams_counted_witness :
  view "game" (arrived (λ t, t) (λ d, d) demo_stats ((10,.) <$> (run "game" (demo_ops ++ [OTick 20])).2)) = (1, Some 1).
Proof.
  refine (streams_counted (λ t, t) (λ d, d) "game" demo_ops 20 false demo_stats 0 0
           ((10,.) <$> (run "game" (demo_ops ++ [OTick 20])).2)
           ltac:(vm_compute; intuition congruence) eq_refl eq_refl ltac:(lia) ltac:(lia) _).
  intros k. destruct k as [|[|[|k]]]; split; vm_compute; try done; by destruct k.
Defined.

Lemma relayed_conn_counted_twice_witness :
  view "game" (arrived (λ t, t) (λ d, d) (OpenConnection demo_stats "game") ((10,.) <$> (run "game" [OOpen; OTick 5]).2)) = (2, Some 2).
Proof.
  exact (relayed_conn_counted_twice (λ t, t) (λ d, d) "game" demo_stats 0 0 5 10 eq_refl ltac:(lia) ltac:(lia) ltac:(lia) ltac:(lia)).
Defined.

End P2PMetrics.
